(* ===== verification/_CoqProject ===== *)
-Q . S2P
Prelude.v
Bytes.v
Mem.v
Spinlock.v
Str.v
Ring.v
Pipe.v
Kalloc.v
Vm.v
VmMap.v
VmFree.v
VmCopy.v
VmFork.v
Bio.v
BioView.v
Log.v
LogCrash.v
LogSpace.v
Tx.v
LogTx.v
Fs.v
FsBlock.v
FsFile.v
FsInv.v
FsWritei.v
FsDir.v
FsPath.v
FsThms.v
FsDemo.v
Mkfs.v
MkfsInv.v
MkfsFiles.v
MkfsThms.v
Syscall.v
File.v
FileInv.v
Sysfile.v
FileSpec.v
SysfileInv.v
SysfileThms.v
FileWrite.v
SysDemo.v
Exec.v
Proc.v
ProcOps.v
ProcLists.v
ProcInv.v
ProcSpec.v
ProcScan.v
ProcSched.v
ProcExit.v
ProcFork.v
ProcBoot.v
Machine.v
MachineSteps.v
ProcCheck.v
ProcP0.v
ProcThms.v
MachineThms.v
ProcMem.v
Sysproc.v
Trap.v
Intr.v
Digits.v
Console.v
ProcDump.v
Kbd.v
Cmos.v
Mp.v
Boot.v
Ulib.v
Programs.v
Sh.v
ShThms.v
ShRun.v
Grep.v
Umalloc.v
UmallocInv.v
UmallocThms.v
