(* ===== verification/Prelude.v ===== *)
(** * xv6 (Portland State CS333 variant): a verification development

    The program is xv6, a small multiprocessor Unix kernel for the 32-bit x86,
    with the extensions of the CS333 course: state lists and a priority
    scheduler, users and groups with permissions and setuid programs, a table
    of processes for user programs, and a real-time clock. The configuration
    is CS333_PROJECT = 5. The development is a shallow embedding of the C code
    under src/: one definition per routine, executable, on explicit states.

    ** The parts, and how they work together

    A user program makes a system call: trap() finds the number in the trap
    frame, syscall() the handler, and the argument routines read and check the
    memory of the process. Calls on files go through the descriptors to the
    file table, to pipes or to inodes; fs.c reads and writes blocks within a
    transaction of the log, the log keeps its blocks in the buffer cache, and
    the cache reads and writes them with the disk driver. Calls on processes
    work on the process table, whose lists the scheduler of each CPU picks
    from; fork() and exec() take pages from the page allocator and map them
    with page tables. Interrupts of the timer, the keyboard, the serial port
    and the disk come in through trap() as well. Where a component uses
    another, it is proved against what that one promises:
    - [TxOps]/[TxLaws] (Tx): fs.c on transactions; LogTx is the instance by
      log.c and bio.c, and everything about fs.c holds for every instance;
    - [view] (BioView): log.c on the buffer cache;
    - [KEnv] (Proc): proc.c on memory and files; ProcMem is the instance by
      kalloc.c and vm.c, with the remaining [FEnv];
    - [KMem] (Machine): the processes of all CPUs on the memory they hold;
      ProcMem proves it of kalloc.c and vm.c;
    - [TrapEnv] (Trap): trap() on the handlers of the devices.

    ** Conventions

    The monad [M] below: a routine maps a state to [Done] with a result and a
    new state, [Panic] (panic() was called), [Fault] (a null or wild pointer
    was used), [Blocked] (it has to wait) or [NoFuel] (a loop used up its
    bound). [wp m Q s] says that [m] returns from [s] and that [Q] holds then,
    so a theorem with [wp] says that the code neither panics nor faults nor
    loops. Integers are [Z], kept in the width of the C type by [u32], [s32],
    [u16], [u8] where the code can wrap around. Pointers are indices into
    tables, addresses, or lists of the bytes from the pointer on. The code
    between taking a spin lock and releasing it, or going to sleep, is one
    step; that acquire() and release() justify this is the theorem on [Race].

    ** Files, and the source they model

    Base: Prelude (integers, the monad, lists), Bytes (little-endian words),
    Mem (memlayout.h, addresses), Digits (the numbers of cprintf() and
    printf()), Ring (ring buffers).
    - Spinlock: spinlock.c; [hw] is struct cpu and the locks. [Race] has the
      single memory accesses of many CPUs.
    - Str: string.c.
    - Kalloc: kalloc.c, the list through the free pages. Vm: vm.c. VmMap (what
      a directory maps), VmFree (deallocuvm, freevm), VmCopy (setupkvm,
      copyuvm), VmFork (theorems).
    - Pipe: pipe.c, on the ring of Ring.
    - Bio: bio.c and ide.c; BioView: their contract. Log: log.c; LogCrash:
      crashes and recovery; LogSpace: the reservations of begin_op(); Tx,
      LogTx: transactions.
    - Fs: fs.c. FsBlock, FsFile: inodes, the free map, blocks
      of a file; FsInv: the invariant; FsWritei: writei(); FsDir,
      FsPath: directories and paths; FsThms, FsDemo: theorems, a small disk.
    - Mkfs: mkfs.c; MkfsInv, MkfsFiles, MkfsThms: the image is a file system
      in the sense of FsInv, from which the kernel boots.
    - Syscall: syscall.c. File: file.c, pipealloc(). Sysfile: sysfile.c.
      FileInv, FileSpec, SysfileInv, SysfileThms: the counts of open files;
      FileWrite: filewrite(); SysDemo: runs. Exec: exec.c,
      loaduvm(), sys_exec().
    - Proc: proc.h, ptable, the state lists as linked structure. ProcOps: the
      routines of proc.c. ProcLists, ProcInv: representation and invariant;
      ProcSpec, ProcScan, ProcSched, ProcExit, ProcFork, ProcBoot:
      one specification per routine; ProcCheck: the invariant as a
      program; ProcP0: the table scans of the original code; ProcThms,
      ProcMem: theorems. Machine, MachineSteps, MachineThms: all CPUs. A step
      of the machine is a critical section or code between two of them; what
      the latter keeps is a parameter of the step relation.
    - ProcDump: procdump() and the listings of the state lists.
    - Sysproc: sysproc.c, getprocs(). Trap: trap.c.
    - Intr: picirq.c, ioapic.c, timer.c, lapicinit(), tvinit(),
      seginit(), and what main(), consoleinit(), uartinit() and ideinit() do
      to the controllers. Mp: mp.c. Boot: bootmain.c. Cmos: cmostime().
    - Console: console.c and uart.c; Kbd: kbd.c, kbd.h.
    - User programs: Ulib (ulib.c, printf.c), Umalloc, UmallocInv, UmallocThms
      (umalloc.c), Sh, ShThms, ShRun (sh.c), Grep (grep.c), Programs
      (wc, cat, echo, rm, mkdir, ln, kill, chmod, chown, chgrp, ls.c with
      print_mode.c, ps.c, date.c).

    ** What the theorems show

    - Processes. Over any number of CPUs and every interleaving of critical
      sections each process is on the list of its state and runs on at most
      one CPU; the sections listed in MachineThms do not panic, fault or loop,
      as long as the code between them leaves the memory of other processes
      alone; scheduler(), exit(), wait(), wakeup() and getprocs() do what they
      mean to; the list code equals the table scans it replaced; the clock
      preempts when it should.
    - Memory. fork() gives the child pages of its own with equal contents and
      changes no other page; freeing gives back exactly what was taken; malloc()
      hands out disjoint blocks.
    - Disk. Reading a block gives what was last written, waits for its buffer,
      or panics when all buffers are in use; a commit is atomic with respect to
      crashes, also those during recovery; reserved log space is there.
    - Files. writei(), dirlink(), namei() and write() implement files as byte
      sequences and directories as maps, keep the invariant of the disk and
      leave other files alone; mkfs makes such a disk; descriptors are counted
      exactly over any sequence of calls; exec() obeys the mode bits.
    - Devices. Pipes and the console are first-in first-out, across the wrap
      of their counters; keys reach the line as typed, unless one of two equal
      modifier keys is released before the other; the date is never a mixture;
      the listings show the queues, or follow a parent that is not there;
      interrupts are routed as meant; the processors of an MP table in the places
      searched are found; the boot loader loads the kernel.
    - User programs. The shell's parser terminates, and the processes of a
      command are wired as it says, whichever of its system calls fail; grep
      prints the lines that match; wc counts words; date knows the day of the
      week.

    ** Bounds and fuel

    A loop that is not structural takes a number of iterations. Loops over the
    state lists take NPROC, since a list visits a slot once; over the buffers
    NBUF; over a file the number of its blocks or bytes; reading and writing in
    pieces as many as the pieces can be; the shell's parser takes a bound
    linear in the length of the line ([parsecmd_terminates]); malloc() and
    free() a bound given in the theorems; loops that wait for a device a
    parameter, with the hypothesis that the device answers within it.
    Theorems that state a result prove that the bound is enough.

    ** Not modelled

    - Assembly (bootasm.S, entry.S, entryother.S, swtch.S, trapasm.S,
      initcode.S, usys.S, vectors.pl) and the start of the other processors
      (startothers(), mpenter(), mpmain(), lapicstartap()): the model switches
      between processes at the call of swtch() and enters the kernel at
      trap().
    - The loading of processor registers (lgdt, lidt, lcr3), kvmalloc() and
      switchkvm().
    - panic() after it was called, and the lock of cprintf(): the outcome is
      [Panic]. The call stack recorded for debugging (getcallerpcs()).
    - Errors of the disk: the driver gets the answers of a working disk.
    - Waiting as such: a call that waits is [Blocked], and what wakes it is the
      subject of the theorems on wakeups; fairness is not.
    - init.c, time.c, halt.c, zombie.c, which make a few system calls, the test
      programs, and the code for other configurations than CS333_PROJECT = 5,
      except where it serves as reference (ProcP0). *)

From Stdlib Require Export ZArith Lia.
From stdpp Require Export base strings numbers option tactics functions gmap list.

#[export] Set Default Goal Selector "!".
#[global] Open Scope Z_scope.

(** ** Machine integers

    C's [uint], [int], [ushort], [short] and [uchar] on the 32-bit x86
    target: a value is a [Z] kept in range by the wrap-around functions. *)

Definition u32 (z : Z) : Z := z mod 2 ^ 32.
Definition u16 (z : Z) : Z := z mod 2 ^ 16.
Definition u8 (z : Z) : Z := z mod 2 ^ 8.
Definition s32 (z : Z) : Z := (z + 2 ^ 31) mod 2 ^ 32 - 2 ^ 31.
Definition s16 (z : Z) : Z := (z + 2 ^ 15) mod 2 ^ 16 - 2 ^ 15.
Definition s8 (z : Z) : Z := (z + 2 ^ 7) mod 2 ^ 8 - 2 ^ 7.

Lemma u32_range z : 0 ≤ u32 z < 2 ^ 32.
Proof. apply Z.mod_pos_bound. lia. Qed.

Lemma u32_small z : 0 ≤ z < 2 ^ 32 → u32 z = z.
Proof. apply Z.mod_small. Qed.

Lemma u32_add_l a b : u32 (u32 a + b) = u32 (a + b).
Proof. apply Zplus_mod_idemp_l. Qed.

Lemma u32_eq_add a i j : 0 ≤ i < 2 ^ 32 → 0 ≤ j < 2 ^ 32 → u32 (a + i) = u32 (a + j) → i = j.
Proof.
  unfold u32. intros Hi Hj H. pose proof (Z.div_mod (a + i) (2 ^ 32)). pose proof (Z.div_mod (a + j) (2 ^ 32)).
  assert (a + i - (a + j) = 2 ^ 32 * ((a + i) / 2 ^ 32 - (a + j) / 2 ^ 32)) by lia. nia.
Qed.

(** ** Record update

    [r <| f := v |>] replaces field [f]. The setter of a field is computed
    from the eta-expansion of the record type, declared once per type. *)

Class Eta (R : Type) := eta_of : R → R.
Class FieldUpd {R T : Type} (f : R → T) := field_upd : (T → T) → R → R.
Arguments field_upd {R T} f {_} _ _.

Ltac find_field_upd :=
  match goal with
  | |- @FieldUpd ?R ?T ?f =>
    let e := constr:(_ : Eta R) in
    let e := eval hnf in e in
    lazymatch eval pattern f in e with
    | ?G _ =>
      let s := eval cbv beta in
        (fun (u : T → T) (r : R) => G (fun r' => u (f r')) r) in
      exact s
    end
  end.
#[export] Hint Extern 0 (FieldUpd _) => find_field_upd : typeclass_instances.

Notation "r <| f := v |>" := (field_upd f (fun _ => v) r)
  (at level 1, left associativity, format "r <| f  :=  v |>").
Notation "r <| f ::= u |>" := (field_upd f u r)
  (at level 1, left associativity, format "r <| f  ::=  u |>").

(** ** Kernel objects that are slept on and locked

    A sleep channel is the address of a kernel object; distinct objects
    have distinct addresses, so a channel is a tag with the object's index
    (or the page address of a pipe). [ChNull] is the null pointer. *)

Inductive chan : Type :=
| ChNull
| ChProc (p : nat)          (* a struct proc: wait() *)
| ChTicks                   (* &ticks: sys_sleep() *)
| ChInode (i : nat)         (* a struct inode: ilock() *)
| ChBuf (b : nat)           (* a struct buf: bget(), iderw() *)
| ChLog                     (* &log: begin_op() *)
| ChPipeRead (a : Z)        (* &p->nread *)
| ChPipeWrite (a : Z)       (* &p->nwrite *)
| ChInput.                  (* &input.r: consoleread() *)

Inductive lockid : Type :=
| LPtable | LKmem | LIcache | LFtable | LBcache | LLog | LIde | LCons
| LPipe (a : Z).

#[export] Instance chan_eq_dec : EqDecision chan.
Proof. solve_decision. Defined.
#[export] Instance lockid_eq_dec : EqDecision lockid.
Proof. solve_decision. Defined.

(** ** Outcomes of kernel code

    [Done]: the code returned. [Panic]: it called panic(), which prints and
    spins for ever. [Fault]: it used a null or wild pointer. [Blocked]: it
    has to wait, for a channel or for a spin lock held by another CPU.
    [NoFuel]: a loop ran for more iterations than the bound given to it. *)

Inductive reason : Type :=
| WaitChan (c : chan)
| WaitLock (l : lockid).

Inductive outcome (S A : Type) : Type :=
| Done (a : A) (s : S)
| Panic (msg : string) (s : S)
| Fault (s : S)
| Blocked (why : reason) (s : S)
| NoFuel.
Arguments Done {S A}.
Arguments Panic {S A}.
Arguments Fault {S A}.
Arguments Blocked {S A}.
Arguments NoFuel {S A}.

Definition M (S A : Type) : Type := S → outcome S A.

#[export] Instance M_ret {S} : MRet (M S) := λ A a s, Done a s.
#[export] Instance M_bind {S} : MBind (M S) := λ A B f m s,
  match m s with
  | Done a s' => f a s'
  | Panic msg s' => Panic msg s'
  | Fault s' => Fault s'
  | Blocked w s' => Blocked w s'
  | NoFuel => NoFuel
  end.

Definition get {S} : M S S := λ s, Done s s.
Definition gets {S A} (f : S → A) : M S A := λ s, Done (f s) s.
Definition modify {S} (f : S → S) : M S unit := λ s, Done tt (f s).
Definition panic {S A} (msg : string) : M S A := λ s, Panic msg s.
Definition fault {S A} : M S A := λ s, Fault s.
Definition block {S A} (w : reason) : M S A := λ s, Blocked w s.
Definition nofuel {S A} : M S A := λ s, NoFuel.

(** [lift f m] runs [m] on a part of the state. *)
Definition lift {S T A} (proj : S → T) (put : T → S → S) (m : M T A) : M S A := λ s,
  match m (proj s) with
  | Done a t => Done a (put t s)
  | Panic msg t => Panic msg (put t s)
  | Fault t => Fault (put t s)
  | Blocked w t => Blocked w (put t s)
  | NoFuel => NoFuel
  end.

(** The C idiom [if(c) stmt;] . *)
Definition when {S} (c : bool) (m : M S unit) : M S unit := if c then m else mret tt.

(** ** Weakest preconditions

    [wp m Q s]: run from [s], [m] returns (it neither panics, faults,
    blocks nor runs out of fuel) and the result satisfies [Q]. *)

Definition wp {S A} (m : M S A) (Q : A → S → Prop) (s : S) : Prop :=
  match m s with Done a s' => Q a s' | _ => False end.

(** [panic_if c msg]: the idiom [if(c) panic(msg);]. *)
Definition panic_if {S} (c : bool) (msg : string) : M S unit :=
  if c then panic msg else mret tt.

Section wp_rules.
Context {S : Type}.
Implicit Types s : S.

Lemma wp_ret {A} (a : A) (Q : A → S → Prop) s : Q a s → wp (mret a) Q s.
Proof. done. Qed.

Lemma wp_bind {A B} (m : M S A) (f : A → M S B) (Q : B → S → Prop) s :
  wp m (λ a s', wp (f a) Q s') s → wp (m ≫= f) Q s.
Proof. unfold wp, mbind, M_bind. by destruct (m s). Qed.

Lemma wp_mono {A} (m : M S A) (Q Q' : A → S → Prop) s :
  wp m Q s → (∀ a s', Q a s' → Q' a s') → wp m Q' s.
Proof. unfold wp. destruct (m s); auto. Qed.

Lemma wp_get (Q : S → S → Prop) s : Q s s → wp get Q s.
Proof. done. Qed.

Lemma wp_gets {A} (f : S → A) (Q : A → S → Prop) s : Q (f s) s → wp (gets f) Q s.
Proof. done. Qed.

Lemma wp_modify (f : S → S) (Q : unit → S → Prop) s : Q tt (f s) → wp (modify f) Q s.
Proof. done. Qed.

Lemma wp_when (c : bool) (m : M S unit) (Q : unit → S → Prop) s :
  (c = true → wp m Q s) → (c = false → Q tt s) → wp (when c m) Q s.
Proof. destruct c; intros H1 H2; [by apply H1 | by apply H2]. Qed.

Lemma wp_panic_if (c : bool) msg (Q : unit → S → Prop) s :
  c = false → Q tt s → wp (panic_if c msg) Q s.
Proof. by intros ->. Qed.

Lemma wp_done {A} (m : M S A) (Q : A → S → Prop) s :
  wp m Q s ↔ ∃ a s', m s = Done a s' ∧ Q a s'.
Proof.
  unfold wp. split.
  - destruct (m s) eqn:?; naive_solver.
  - intros (a & s' & -> & HQ). done.
Qed.

Lemma wp_and {A} (m : M S A) (Q1 Q2 : A → S → Prop) s :
  wp m Q1 s → wp m Q2 s → wp m (λ a s', Q1 a s' ∧ Q2 a s') s.
Proof. unfold wp. by destruct (m s). Qed.

Lemma bind_done {A B} (m : M S A) (f : A → M S B) s a s' : m s = Done a s' → (m ≫= f) s = f a s'.
Proof. unfold mbind, M_bind. by intros ->. Qed.

Lemma wp_inv {A} (m : M S A) (Q : A → S → Prop) s a s' : wp m Q s → m s = Done a s' → Q a s'.
Proof. unfold wp. intros H Heq. by rewrite Heq in H. Qed.

End wp_rules.

Lemma wp_lift {S T A} (proj : S → T) (put : T → S → S) (m : M T A) (Q : A → S → Prop) s :
  wp m (λ a t, Q a (put t s)) (proj s) → wp (lift proj put m) Q s.
Proof. unfold wp, lift. by destruct (m (proj s)). Qed.

(** [wp_step] takes one monadic step of the goal; [wp_steps] all of them. *)
Ltac wp_step :=
  lazymatch goal with
  | |- wp (mbind _ _) _ _ => apply wp_bind
  | |- wp (_ ≫= _) _ _ => apply wp_bind
  | |- wp (mret _) _ _ => apply wp_ret
  | |- wp get _ _ => apply wp_get
  | |- wp (gets _) _ _ => apply wp_gets
  | |- wp (modify _) _ _ => apply wp_modify
  | |- wp (when ?c _) _ _ => apply wp_when; intros ?
  | |- wp (let _ := _ in _) _ _ => cbv zeta
  | |- wp (match ?x with (a, b) => _ end) _ _ => destruct x eqn:?
  end; cbv beta match.
Ltac wp_steps := repeat wp_step.

(** [zbool] turns the boolean integer tests of the hypotheses and of the
    goal into propositions. *)
Ltac zbool :=
  repeat match goal with
  | H : (_ && _) = true |- _ => apply andb_true_iff in H as [? ?]
  | H : (_ || _) = false |- _ => apply orb_false_iff in H as [? ?]
  | H : negb _ = true |- _ => apply negb_true_iff in H
  | H : negb _ = false |- _ => apply negb_false_iff in H
  | H : (_ =? _) = true |- _ => apply Z.eqb_eq in H
  | H : (_ =? _) = false |- _ => apply Z.eqb_neq in H
  | H : (_ <? _) = true |- _ => apply Z.ltb_lt in H
  | H : (_ <? _) = false |- _ => apply Z.ltb_ge in H
  | H : (_ <=? _) = true |- _ => apply Z.leb_le in H
  | H : (_ <=? _) = false |- _ => apply Z.leb_gt in H
  | |- (_ =? _) = true => apply Z.eqb_eq
  | |- (_ =? _) = false => apply Z.eqb_neq
  | |- (_ <? _) = true => apply Z.ltb_lt
  | |- (_ <? _) = false => apply Z.ltb_ge
  | |- (_ <=? _) = true => apply Z.leb_le
  | |- (_ <=? _) = false => apply Z.leb_gt
  end.
Ltac zlia := zbool; lia.

(** ** Removing an element from a list without duplicates *)

Section without.
Context {A : Type} `{!EqDecision A}.
Implicit Types (x y : A) (l : list A).

Definition without x l : list A := filter (.≠ x) l.

Lemma elem_of_without x y l : y ∈ without x l ↔ y ≠ x ∧ y ∈ l.
Proof. unfold without. by rewrite list_elem_of_filter. Qed.

Lemma without_not_in x l : x ∉ l → without x l = l.
Proof.
  induction l as [|y l IH]; [done|]. intros Hx. unfold without.
  rewrite filter_cons_True by set_solver. f_equal. apply IH. set_solver.
Qed.

Lemma without_cons_eq x l : x ∉ l → without x (x :: l) = l.
Proof.
  intros Hx. unfold without. rewrite filter_cons_False by naive_solver.
  by apply without_not_in.
Qed.

Lemma without_cons_ne x y l : x ≠ y → without x (y :: l) = y :: without x l.
Proof. intros. unfold without. by rewrite filter_cons_True by done. Qed.

Lemma without_app x l1 l2 : without x (l1 ++ l2) = without x l1 ++ without x l2.
Proof. apply filter_app. Qed.

Lemma without_split x l1 l2 : x ∉ l1 → x ∉ l2 → without x (l1 ++ x :: l2) = l1 ++ l2.
Proof. intros. by rewrite without_app, without_not_in, without_cons_eq. Qed.

Lemma NoDup_without x l : NoDup l → NoDup (without x l).
Proof. apply NoDup_filter. Qed.

Lemma without_perm x l : NoDup l → x ∈ l → l ≡ₚ x :: without x l.
Proof.
  intros Hn Hx. apply list_elem_of_split in Hx as (l1 & l2 & ->).
  apply NoDup_app in Hn as (H1 & H2 & H3). apply NoDup_cons in H3 as [H3 H4].
  rewrite without_split by set_solver. by rewrite <- Permutation_middle.
Qed.

End without.
#[global] Arguments without : simpl never.

(** ** Reachability *)

Lemma rtc_invariant {S : Type} (R : S → S → Prop) (I : S → Prop) (x y : S) :
  I x → (∀ a b, I a → R a b → I b) → rtc R x y → I y.
Proof. intros Hx Hstep Hr. induction Hr; eauto. Qed.

(** ** Overwriting a range of a list *)

Section splice.
Context {A : Type}.
Implicit Types (m l : list A).

(** [splice m d l]: [m] with the elements [l] written at position [d]. *)
Definition splice m (d : nat) l : list A := take d m ++ l ++ drop (d + length l) m.

Lemma length_splice m d l : (d + length l ≤ length m)%nat → length (splice m d l) = length m.
Proof. intros. unfold splice. rewrite !length_app, length_take, length_drop. lia. Qed.

Lemma lookup_splice_in m d l i :
  (d + length l ≤ length m)%nat → (d ≤ i < d + length l)%nat → splice m d l !! i = l !! (i - d)%nat.
Proof.
  intros. unfold splice. rewrite lookup_app_r; rewrite length_take; [|lia].
  rewrite lookup_app_l by lia. f_equal. lia.
Qed.

Lemma lookup_splice_out m d l i :
  (d + length l ≤ length m)%nat → (i < d ∨ d + length l ≤ i)%nat → splice m d l !! i = m !! i.
Proof.
  intros ? [Hi|Hi]; unfold splice.
  - rewrite lookup_app_l by (rewrite length_take; lia). rewrite lookup_take. by case_decide; [|lia].
  - rewrite lookup_app_r by (rewrite length_take; lia).
    rewrite length_take, lookup_app_r by lia. rewrite lookup_drop. f_equal. lia.
Qed.

(** A list that agrees pointwise with a splice is that splice. *)
Lemma splice_intro m m' d l :
  (d + length l ≤ length m)%nat →
  (∀ i, m' !! i = if decide (d ≤ i < d + length l)%nat then l !! (i - d)%nat else m !! i) →
  m' = splice m d l.
Proof.
  intros Hd Hm. apply list_eq. intros i. rewrite Hm. case_decide.
  - by rewrite lookup_splice_in.
  - rewrite lookup_splice_out by lia. done.
Qed.

(** Reading back a written range, and a range disjoint from it. *)
Lemma take_drop_splice m d l :
  (d + length l ≤ length m)%nat → take (length l) (drop d (splice m d l)) = l.
Proof.
  intros. unfold splice. rewrite drop_app_length' by (rewrite length_take; lia).
  by rewrite take_app_length.
Qed.

Lemma take_drop_splice_ne m d l o n :
  (d + length l ≤ length m)%nat → (o + n ≤ d ∨ d + length l ≤ o)%nat →
  take n (drop o (splice m d l)) = take n (drop o m).
Proof.
  intros Hd Ho. apply list_eq. intros i. rewrite !lookup_take, !lookup_drop.
  case_decide; [|done]. apply lookup_splice_out; lia.
Qed.

End splice.

(** A duplicate-free list of numbers below [n] has at most [n] elements. *)
Lemma NoDup_bounded_length (l : list nat) (n : nat) :
  NoDup l → (∀ x, x ∈ l → (x < n)%nat) → (length l ≤ n)%nat.
Proof.
  intros Hn Hb. transitivity (length (seq 0 n)); [|by rewrite length_seq].
  apply submseteq_length, NoDup_submseteq; [done|].
  intros x Hx. apply elem_of_seq. specialize (Hb x Hx). lia.
Qed.

Lemma snoc_or_nil {A} (l : list A) : l = [] ∨ ∃ l' a, l = l' ++ [a].
Proof. induction l as [|a l _] using rev_ind; [by left|right; eauto]. Qed.
