(* ===== verification/Bytes.v ===== *)
(** * Little-endian encodings

    The integers of on-disk structures, of page tables and of the free page
    list as the bytes the x86 stores. *)

From S2P Require Import Prelude.

(** The [n] low bytes of [z], least significant first, and back. *)
Fixpoint le_bytes (n : nat) (z : Z) : list Z :=
  match n with O => [] | S n => z mod 256 :: le_bytes n (z / 256) end.
Fixpoint le_val (l : list Z) : Z :=
  match l with [] => 0 | b :: l => b + 256 * le_val l end.

(** Reading and writing an [n]-byte integer at offset [o] of a memory block. *)
Definition get_le (n : nat) (m : list Z) (o : nat) : Z := le_val (take n (drop o m)).
Definition put_le (n : nat) (m : list Z) (o : nat) (v : Z) : list Z := splice m o (le_bytes n v).

Definition byte_list (l : list Z) : Prop := Forall (λ b, 0 ≤ b < 256) l.

Lemma length_le_bytes n z : length (le_bytes n z) = n.
Proof. revert z. induction n; intros z; simpl; auto. Qed.

Lemma pow256_S n : 2 ^ (8 * Z.of_nat (S n)) = 256 * 2 ^ (8 * Z.of_nat n).
Proof. rewrite Nat2Z.inj_succ. replace (8 * Z.succ (Z.of_nat n)) with (8 + 8 * Z.of_nat n) by lia.
  rewrite Z.pow_add_r by lia. done. Qed.

Lemma le_val_bytes n z : le_val (le_bytes n z) = z mod 2 ^ (8 * Z.of_nat n).
Proof.
  revert z. induction n as [|n IH]; intros z; [simpl; by rewrite Z.mod_1_r|].
  rewrite pow256_S. simpl. rewrite IH, Z.rem_mul_r; [done|lia|].
  pose proof (Z.pow_pos_nonneg 2 (8 * Z.of_nat n)). lia.
Qed.

Lemma le_bytes_val l : byte_list l → le_bytes (length l) (le_val l) = l.
Proof.
  induction 1 as [|b l Hb Hl IH]; [done|]. cbn [length le_val le_bytes].
  rewrite Z.mul_comm, Z_mod_plus_full, Z.mod_small by lia.
  rewrite Z_div_plus_full, Z.div_small, Z.add_0_l by lia. by rewrite IH.
Qed.

Lemma byte_list_le_bytes n z : byte_list (le_bytes n z).
Proof.
  revert z. induction n as [|n IH]; intros z; [constructor|]. constructor; [|apply IH].
  apply Z.mod_pos_bound. lia.
Qed.

Lemma le_val_range l : byte_list l → 0 ≤ le_val l < 2 ^ (8 * Z.of_nat (length l)).
Proof.
  induction 1 as [|b l Hb Hl IH]; [simpl; lia|]. cbn [length]. rewrite pow256_S. cbn [le_val]. lia.
Qed.

Lemma length_put_le n m o v : (o + n ≤ length m)%nat → length (put_le n m o v) = length m.
Proof. intros. apply length_splice. by rewrite length_le_bytes. Qed.

Lemma get_put n m o v : (o + n ≤ length m)%nat → 0 ≤ v < 2 ^ (8 * Z.of_nat n) →
  get_le n (put_le n m o v) o = v.
Proof.
  intros Ho Hv. unfold get_le, put_le. rewrite <- (length_le_bytes n v) at 1.
  rewrite take_drop_splice by (by rewrite length_le_bytes). rewrite le_val_bytes. by apply Z.mod_small.
Qed.

Lemma get_put_ne n k m o o' v : (o + n ≤ length m)%nat → (o' + k ≤ o ∨ o + n ≤ o')%nat →
  get_le k (put_le n m o v) o' = get_le k m o'.
Proof.
  intros Ho Hd. unfold get_le, put_le.
  by rewrite take_drop_splice_ne by (rewrite length_le_bytes; lia).
Qed.

Lemma put_get n m o : (o + n ≤ length m)%nat → byte_list m → put_le n m o (get_le n m o) = m.
Proof.
  intros Ho Hb. unfold put_le, get_le.
  assert (Hl : length (take n (drop o m)) = n) by (rewrite length_take, length_drop; lia).
  rewrite <- Hl at 1. rewrite le_bytes_val by (by apply Forall_take, Forall_drop).
  symmetry. apply splice_intro; rewrite Hl; [done|]. intros i. case_decide; [|done].
  rewrite lookup_take, lookup_drop. rewrite decide_True by lia. f_equal. lia.
Qed.

Lemma byte_list_put n m o v : byte_list m → byte_list (put_le n m o v).
Proof.
  intros H. unfold put_le, splice. apply Forall_app; split; [by apply Forall_take|].
  apply Forall_app; split; [apply byte_list_le_bytes|by apply Forall_drop].
Qed.
