(* ===== verification/Mem.v ===== *)
(** * Address arithmetic and physical memory (memlayout.h, mmu.h)

    Addresses are 32-bit. Physical memory is a map from the kernel virtual
    address of a page to its PGSIZE bytes. *)

From S2P Require Import Prelude Bytes.

Definition PGSIZE : Z := 4096.
Definition KERNBASE : Z := 2147483648.
Definition PHYSTOP : Z := 234881024.

Definition v2p (a : Z) : Z := u32 (a - KERNBASE).
Definition p2v (a : Z) : Z := u32 (a + KERNBASE).
(** [~(PGSIZE-1)] is 0xFFFFF000. *)
Definition PGROUNDUP (a : Z) : Z := Z.land (u32 (a + PGSIZE - 1)) 4294963200.
Definition PGROUNDDOWN (a : Z) : Z := Z.land (u32 a) 4294963200.

Abbreviation memory := (gmap Z (list Z)).

Lemma land_pgmask z : 0 ≤ z < 2 ^ 32 → Z.land z 4294963200 = PGSIZE * (z / PGSIZE).
Proof.
  intros Hz. change 4294963200 with (Z.shiftl (Z.ones 20) 12).
  apply Z.bits_inj'. intros n Hn. rewrite Z.land_spec, Z.mul_comm.
  change PGSIZE with (2 ^ 12). rewrite <- Z.shiftr_div_pow2 by lia. rewrite <- Z.shiftl_mul_pow2 by lia.
  destruct (decide (n < 12)) as [H|H].
  - rewrite !Z.shiftl_spec_low by lia. apply andb_false_r.
  - rewrite !Z.shiftl_spec, Z.shiftr_spec by lia. replace (n - 12 + 12) with n by lia.
    destruct (decide (n - 12 < 20)) as [Hh|Hh].
    + rewrite Z.ones_spec_low by lia. by rewrite andb_true_r.
    + rewrite Z.ones_spec_high by lia. rewrite andb_false_r. symmetry.
      apply Z.bits_above_log2; [lia|]. destruct (decide (z = 0)) as [->|]; [simpl; lia|].
      apply Z.log2_lt_pow2; [lia|]. apply Z.lt_le_trans with (2 ^ 32); [lia|]. apply Z.pow_le_mono_r; lia.
Qed.

Lemma PGROUNDDOWN_spec a : 0 ≤ a < 2 ^ 32 → PGROUNDDOWN a = PGSIZE * (a / PGSIZE).
Proof. intros Ha. unfold PGROUNDDOWN. rewrite u32_small by done. by apply land_pgmask. Qed.

Lemma PGROUNDUP_spec a : 0 ≤ a ≤ 2 ^ 32 - PGSIZE → PGROUNDUP a = PGSIZE * ((a + PGSIZE - 1) / PGSIZE).
Proof.
  intros Ha. unfold PGROUNDUP. unfold PGSIZE in *. rewrite u32_small by lia. apply land_pgmask. lia.
Qed.
