(* ===== verification/Spinlock.v ===== *)
(** * Spin locks and interrupt nesting (spinlock.c, struct cpu of proc.h)

    [hw] holds the calling CPU's [struct cpu] and every spin lock. The
    operations are the routines of spinlock.c; the debugging fields of
    [struct spinlock] (name, pcs) are left out. [Race] models acquire() and
    release() at the granularity of single memory accesses by many CPUs. *)

From S2P Require Import Prelude.

(** ** Data *)

(** struct cpu: [c_if] is the FL_IF bit of %eflags, [c_proc] the per-CPU
    variable proc, [c_cr3] and [c_esp0] the page-table base register and the
    kernel stack pointer of the task segment set by switchuvm(). *)
Record cpu : Type := mkCpu {
  c_id : nat;
  c_ncli : Z;
  c_intena : bool;
  c_if : bool;
  c_proc : option nat;
  c_cr3 : Z;
  c_esp0 : Z;
}.
#[export] Instance cpu_eta : Eta cpu := λ c,
  mkCpu (c_id c) (c_ncli c) (c_intena c) (c_if c) (c_proc c) (c_cr3 c) (c_esp0 c).

(** struct spinlock: [lk_cpu] is the CPU holding the lock. *)
Record spinlock : Type := mkLock {
  lk_locked : bool;
  lk_cpu : option nat;
}.
#[export] Instance spinlock_eta : Eta spinlock := λ l, mkLock (lk_locked l) (lk_cpu l).

Record hw : Type := mkHw {
  h_cpu : cpu;
  h_locks : lockid → spinlock;
}.
#[export] Instance hw_eta : Eta hw := λ h, mkHw (h_cpu h) (h_locks h).

(** ** Operations *)

Definition cli : M hw unit := modify (λ h, h <| h_cpu ::= λ c, c <| c_if := false |> |>).
Definition sti : M hw unit := modify (λ h, h <| h_cpu ::= λ c, c <| c_if := true |> |>).

Definition set_lock (l : lockid) (lk : spinlock) (h : hw) : hw :=
  h <| h_locks ::= λ f, <[l := lk]> f |>.

Definition initlock (l : lockid) : M hw unit :=
  modify (set_lock l (mkLock false None)).

Definition holding (l : lockid) : M hw bool :=
  gets (λ h, lk_locked (h_locks h l) && bool_decide (lk_cpu (h_locks h l) = Some (c_id (h_cpu h)))).

Definition pushcli : M hw unit :=
  eflags ← gets (λ h, c_if (h_cpu h));
  cli;;
  n ← gets (λ h, c_ncli (h_cpu h));
  modify (λ h, h <| h_cpu ::= λ c, c <| c_ncli := n + 1 |> |>);;
  when (n =? 0) (modify (λ h, h <| h_cpu ::= λ c, c <| c_intena := eflags |> |>)).

Definition popcli : M hw unit :=
  eflags ← gets (λ h, c_if (h_cpu h));
  panic_if eflags "popcli - interruptible";;
  modify (λ h, h <| h_cpu ::= λ c, c <| c_ncli := c_ncli c - 1 |> |>);;
  n ← gets (λ h, c_ncli (h_cpu h));
  panic_if (n <? 0) "popcli";;
  ie ← gets (λ h, c_intena (h_cpu h));
  when ((n =? 0) && ie) sti.

(** The xchg loop of acquire() ends at once when the lock is free and spins
    when another CPU holds it. *)
Definition acquire (l : lockid) : M hw unit :=
  pushcli;;
  h ← holding l;
  panic_if h "acquire";;
  locked ← gets (λ h, lk_locked (h_locks h l));
  (if locked : bool then block (WaitLock l) else mret tt);;
  me ← gets (λ h, c_id (h_cpu h));
  modify (set_lock l (mkLock true (Some me))).

Definition release (l : lockid) : M hw unit :=
  h ← holding l;
  panic_if (negb h) "release";;
  modify (set_lock l (mkLock true None));;
  modify (set_lock l (mkLock false None));;
  popcli.

(** ** One CPU: nesting discipline *)

(** [disc h held e]: this CPU holds exactly the locks [held]; interrupts are
    off while it holds any, and [e] is the interrupt flag outside. *)
Record disc (h : hw) (held : list lockid) (e : bool) : Prop := {
  disc_ncli : c_ncli (h_cpu h) = Z.of_nat (length held);
  disc_nodup : NoDup held;
  disc_held : ∀ l, l ∈ held ↔
    (lk_locked (h_locks h l) = true ∧ lk_cpu (h_locks h l) = Some (c_id (h_cpu h)));
  disc_if : c_if (h_cpu h) = match held with [] => e | _ => false end;
  disc_intena : held ≠ [] → c_intena (h_cpu h) = e;
}.

Section nesting.
Implicit Types (h : hw) (l : lockid) (held : list lockid).

Lemma holding_spec h l (Q : bool → hw → Prop) :
  Q (lk_locked (h_locks h l) && bool_decide (lk_cpu (h_locks h l) = Some (c_id (h_cpu h)))) h →
  wp (holding l) Q h.
Proof. done. Qed.

Lemma disc_not_holding h held e l :
  disc h held e → l ∉ held →
  lk_locked (h_locks h l) && bool_decide (lk_cpu (h_locks h l) = Some (c_id (h_cpu h))) = false.
Proof.
  intros D Hl. apply andb_false_iff. destruct (lk_locked (h_locks h l)) eqn:E; [|by left].
  right. apply bool_decide_eq_false. intros Hc. apply Hl, (disc_held _ _ _ D). done.
Qed.

(** The CPU fields that locking leaves alone. *)
Definition same_cpu (c c' : cpu) : Prop :=
  c_id c' = c_id c ∧ c_proc c' = c_proc c ∧ c_cr3 c' = c_cr3 c ∧ c_esp0 c' = c_esp0 c.

(** acquire() of a free lock. *)
Lemma acquire_spec h held e l (Q : unit → hw → Prop) :
  disc h held e → lk_locked (h_locks h l) = false →
  (∀ h', disc h' (l :: held) e → same_cpu (h_cpu h) (h_cpu h') →
     (∀ k, h_locks h' k = <[l := mkLock true (Some (c_id (h_cpu h)))]> (h_locks h) k) → Q tt h') →
  wp (acquire l) Q h.
Proof.
  intros D Hfree HQ.
  assert (Hl : l ∉ held) by (rewrite (disc_held _ _ _ D); naive_solver congruence).
  pose proof (disc_not_holding _ _ _ _ D Hl) as Hn.
  destruct D as [Dn Dd Dh Di De].
  unfold acquire, pushcli, cli, holding. wp_steps.
  all: apply wp_panic_if; [done|]; wp_steps; cbn; rewrite Hfree; wp_steps.
  all: apply HQ; [|repeat split|reflexivity].
  all: split; cbn; [lia | by constructor | | done | ].
  all: try (intros l'; destruct (decide (l' = l)) as [->|Hne];
    [rewrite fn_lookup_insert; set_solver | rewrite fn_lookup_insert_ne by done;
     rewrite elem_of_cons, Dh; naive_solver]).
  all: intros _; destruct held; cbn in *; auto; try lia.
Qed.

Lemma disc_perm h held held' e : held ≡ₚ held' → disc h held e → disc h held' e.
Proof.
  intros Hp [Dn Dd Dh Di De]. split.
  - by rewrite <- Hp.
  - by rewrite <- Hp.
  - intros l. by rewrite <- Hp.
  - rewrite Di. destruct held, held'; try done;
      [by apply Permutation_nil_cons in Hp | symmetry in Hp; by apply Permutation_nil_cons in Hp].
  - intros Hne. apply De. intros ->. by apply Permutation_nil_l in Hp.
Qed.

(** release() of a held lock, in any order with respect to the others. *)
Lemma release_spec h held e l (Q : unit → hw → Prop) :
  disc h (l :: held) e →
  (∀ h', disc h' held e → same_cpu (h_cpu h) (h_cpu h') →
     (∀ k, h_locks h' k = <[l := mkLock false None]> (h_locks h) k) → Q tt h') →
  wp (release l) Q h.
Proof.
  intros [Dn Dd Dh Di De] HQ.
  destruct (proj1 (Dh l)) as [Hlk Hme]; [set_solver|].
  apply NoDup_cons in Dd as [Hl Dd]. cbn [length] in Dn. rewrite Nat2Z.inj_succ in Dn.
  unfold release, popcli, holding, sti. wp_steps.
  apply wp_panic_if; [by rewrite Hlk, bool_decide_eq_true_2|]. wp_steps.
  apply wp_panic_if; [done|]. wp_steps.
  apply wp_panic_if; [cbn; lia|]. wp_steps.
  all: apply HQ; [|repeat split|intros k; cbn; unfold insert, fn_insert; by case_decide].
  all: split; cbn in *; [lia | done | | | intros Hne; apply De; done].
  2, 4: match goal with H : _ && _ = _ |- _ => rewrite De, Dn in H by done end;
    destruct held as [|l0 held], e; rewrite ?andb_true_r, ?andb_false_r in *;
    cbn [length] in *; first [done | exfalso; zlia].
  all: intros l'; destruct (decide (l = l')) as [<-|Hne];
    [rewrite fn_lookup_insert; set_solver | rewrite !fn_lookup_insert_ne by done].
  all: rewrite <- Dh, elem_of_cons; naive_solver.
Qed.
End nesting.

(** Sequences of lock operations of one CPU. *)
Inductive lockop : Type := Acq (l : lockid) | Rel (l : lockid).

Definition run_lockop (o : lockop) : M hw unit :=
  match o with Acq l => acquire l | Rel l => release l end.
Fixpoint run_lockops (os : list lockop) : M hw unit :=
  match os with [] => mret tt | o :: os => run_lockop o;; run_lockops os end.

(** The locks held after a sequence that only takes locks the CPU does not
    hold and only releases locks it holds; [None] when it breaks that rule. *)
Fixpoint held_after (os : list lockop) (held : list lockid) : option (list lockid) :=
  match os with
  | [] => Some held
  | Acq l :: os => if decide (l ∈ held) then None else held_after os (l :: held)
  | Rel l :: os => if decide (l ∈ held) then held_after os (without l held) else None
  end.

(** Any sequence of acquire()s of free locks and release()s of held
    locks by one CPU, nested or not, runs without panic; at its end the
    nesting depth is the number of locks held, interrupts are off exactly
    while a lock is held, and are back to their outer setting [e] after the
    last release. *)
Theorem lock_nesting_discipline (os : list lockop) (h : hw) (held held' : list lockid) (e : bool) :
  disc h held e → (∀ l, l ∉ held → lk_locked (h_locks h l) = false) →
  held_after os held = Some held' →
  wp (run_lockops os) (λ _ h', disc h' held' e ∧ same_cpu (h_cpu h) (h_cpu h')) h.
Proof.
  revert h held. induction os as [|[l|l] os IH]; intros h held D Hfree Ha; simpl in *.
  - simplify_eq. done.
  - case_decide as Hl; [done|]. wp_step. apply (acquire_spec h held e); [done|auto|].
    intros h' D' Hs Hk. eapply wp_mono.
    { apply (IH h' (l :: held)); [done| |done].
      intros k Hnk. rewrite Hk, fn_lookup_insert_ne by set_solver. apply Hfree. set_solver. }
    intros _ h'' [D'' Hs']. split; [done|]. unfold same_cpu in *. naive_solver congruence.
  - case_decide as Hl; [|done]. wp_step.
    apply (release_spec h (without l held) e).
    { eapply disc_perm; [|done]. apply without_perm; [by destruct D|done]. }
    intros h' D' Hs Hk. eapply wp_mono.
    { apply (IH h' (without l held)); [done| |done].
      intros k Hnk. rewrite Hk. unfold insert, fn_insert. case_decide as Hd; [done|].
      apply Hfree. contradict Hnk. apply elem_of_without. naive_solver. }
    intros _ h'' [D'' Hs']. split; [done|]. unfold same_cpu in *. naive_solver congruence.
Qed.

Definition hw0 : hw :=
  mkHw (mkCpu 0 0 false true None 0 0) (λ _, mkLock false None).

Lemma lock_nesting_discipline_witness :
  wp (run_lockops [Acq LPtable; Acq LIcache; Rel LPtable; Rel LIcache])
    (λ _ h', disc h' [] true ∧ same_cpu (h_cpu hw0) (h_cpu h')) hw0.
Proof.
  apply (lock_nesting_discipline _ hw0 [] [] true); [|done|reflexivity].
  split; try done. { apply NoDup_nil_2. }
  intros l. split; [|by intros [? ?]]. intros Hl. exfalso. by apply elem_of_nil in Hl.
Defined.

(** ** Many CPUs: mutual exclusion

    The program points of one CPU in acquire()/release() of one lock, split
    at every access to the shared lock word and to [lk->cpu]. *)
Module Race.

Inductive pc : Type :=
| Out          (* not in acquire/release, lock not held *)
| AcqSaw       (* acquire: holding() read locked = 1 *)
| AcqSpin      (* acquire: about to xchg *)
| AcqGot       (* acquire: xchg returned 0, lk->cpu not yet written *)
| Crit         (* holds the lock *)
| RelSaw       (* release: holding() read locked = 1 *)
| RelOk        (* release: holding() returned 1 *)
| RelCleared   (* release: lk->cpu = 0 written, xchg pending *)
| Panicked.
#[export] Instance pc_eq_dec : EqDecision pc.
Proof. solve_decision. Defined.

Record state : Type := mkState {
  locked : bool;
  owner : option nat;
  at_ : nat → pc;
}.

Inductive step : state → state → Prop :=
| acq_free c b o f : f c = Out → b = false →
    step (mkState b o f) (mkState b o (<[c := AcqSpin]> f))
| acq_busy c b o f : f c = Out → b = true →
    step (mkState b o f) (mkState b o (<[c := AcqSaw]> f))
| acq_check c b o f : f c = AcqSaw →
    step (mkState b o f)
      (mkState b o (<[c := if decide (o = Some c) then Panicked else AcqSpin]> f))
| acq_xchg c b o f : f c = AcqSpin →
    step (mkState b o f) (mkState true o (<[c := if b then AcqSpin else AcqGot]> f))
| acq_own c b o f : f c = AcqGot →
    step (mkState b o f) (mkState b (Some c) (<[c := Crit]> f))
| rel_saw c b o f : f c = Crit →
    step (mkState b o f) (mkState b o (<[c := if b then RelSaw else Panicked]> f))
| rel_check c b o f : f c = RelSaw →
    step (mkState b o f)
      (mkState b o (<[c := if decide (o = Some c) then RelOk else Panicked]> f))
| rel_clear c b o f : f c = RelOk →
    step (mkState b o f) (mkState b None (<[c := RelCleared]> f))
| rel_xchg c b o f : f c = RelCleared →
    step (mkState b o f) (mkState false o (<[c := Out]> f)).

Definition initial : state := mkState false None (λ _, Out).

Definition in_section (p : pc) : bool :=
  match p with AcqGot | Crit | RelSaw | RelOk | RelCleared => true | _ => false end.
Definition owns (p : pc) : bool :=
  match p with Crit | RelSaw | RelOk => true | _ => false end.

Lemma owns_in_section p : owns p = true → in_section p = true.
Proof. by destruct p. Qed.

(** Either nobody is in the section and the lock is clear, or exactly one
    CPU is, and [lk->cpu] names it precisely while it owns the lock. *)
Definition inv (s : state) : Prop :=
  (∀ c, at_ s c ≠ Panicked) ∧
  ((locked s = false ∧ owner s = None ∧ ∀ c, in_section (at_ s c) = false) ∨
   (∃ h, locked s = true ∧ in_section (at_ s h) = true ∧
      (∀ d, d ≠ h → in_section (at_ s d) = false) ∧
      owner s = if owns (at_ s h) then Some h else None)).

Section moves.
Context (f : nat → pc) (np : ∀ d, f d ≠ Panicked).

Lemma no_panic_insert c q : q ≠ Panicked → ∀ d, (<[c := q]> f) d ≠ Panicked.
Proof. intros Hq d. unfold insert, fn_insert. by case_decide. Qed.

(** Everybody is outside after the move. *)
Lemma inv_all_out c q :
  q ≠ Panicked → in_section q = false → (∀ d, d ≠ c → in_section (f d) = false) →
  inv (mkState false None (<[c := q]> f)).
Proof.
  intros Hq Hs Ho. split; [by apply no_panic_insert|]. left. split_and!; try done.
  intros d. simpl. unfold insert, fn_insert. case_decide; auto.
Qed.

(** CPU [h] is in the section after it, or another CPU, moved. *)
Lemma inv_one_in h c q :
  q ≠ Panicked → in_section ((<[c := q]> f) h) = true →
  (∀ d, d ≠ h → in_section ((<[c := q]> f) d) = false) →
  inv (mkState true (if owns ((<[c := q]> f) h) then Some h else None) (<[c := q]> f)).
Proof. intros Hq Hi Ho. split; [by apply no_panic_insert|]. right. by exists h. Qed.

Lemma inv_outsider h c q :
  c ≠ h → q ≠ Panicked → in_section q = false → in_section (f h) = true →
  (∀ d, d ≠ h → in_section (f d) = false) →
  inv (mkState true (if owns (f h) then Some h else None) (<[c := q]> f)).
Proof.
  intros Hc Hq Hs Hi Ho. rewrite <- (fn_lookup_insert_ne f c h q) by done.
  apply inv_one_in; [done|by rewrite fn_lookup_insert_ne|].
  intros d Hd. unfold insert, fn_insert. case_decide; auto.
Qed.

Lemma inv_insider c q :
  q ≠ Panicked → in_section q = true → (∀ d, d ≠ c → in_section (f d) = false) →
  inv (mkState true (if owns q then Some c else None) (<[c := q]> f)).
Proof.
  intros Hq Hs Ho. rewrite <- (fn_lookup_insert f c q) at 1.
  apply inv_one_in; [done|by rewrite fn_lookup_insert|].
  intros d Hd. rewrite fn_lookup_insert_ne by done. auto.
Qed.
End moves.

Lemma inv_step s s' : inv s → step s s' → inv s'.
Proof.
  intros [I0 I] Hs. destruct Hs as [c b o f Hc Hb|c b o f Hc Hb|c b o f Hc|c b o f Hc
    |c b o f Hc|c b o f Hc|c b o f Hc|c b o f Hc|c b o f Hc]; simpl in *.
  all: destruct I as [(-> & -> & I)|(h & -> & Ih & I & ->)]; simplify_eq; simpl.
  all: try (pose proof (I c) as J; rewrite Hc in J; simpl in J; try done).
  all: try (destruct (decide (c = h)) as [->|Hne];
    [rewrite Hc in *; simpl in *; try done | try (by specialize (J Hne))]).
  all: try (rewrite decide_False by (destruct (owns (f h)); congruence)).
  all: try (rewrite decide_True by done).
  all: try (by apply inv_all_out; auto).
  all: try (by apply inv_outsider; auto).
  - apply (inv_insider f I0 c AcqGot); auto.
  - apply (inv_insider f I0 h Crit); auto.
  - apply (inv_insider f I0 h RelSaw); auto.
  - apply (inv_insider f I0 h RelOk); auto.
  - apply (inv_insider f I0 h RelCleared); auto.
Qed.
Lemma inv_reachable s : rtc step initial s → inv s.
Proof.
  apply rtc_invariant; [|apply inv_step]. split; [done|]. by left.
Qed.

(** C3: However acquire() and release() of any number of CPUs interleave,
    access by access, at most one CPU is between its successful xchg and its
    releasing xchg, the test [lock->locked && lock->cpu == cpu] of holding()
    is true exactly for the CPU that holds the lock, and neither routine
    panics. *)
Theorem mutual_exclusion (s : state) :
  rtc step initial s →
  (∀ c d, in_section (at_ s c) = true → in_section (at_ s d) = true → c = d) ∧
  (∀ c, (locked s = true ∧ owner s = Some c) ↔ owns (at_ s c) = true) ∧
  (∀ c, at_ s c ≠ Panicked).
Proof.
  intros Hr. destruct (inv_reachable s Hr) as [I0 [(Hl & Ho & I)|(h & Hl & Hi & I & Ho)]].
  - split_and!; [by intros c d Hc; rewrite I in Hc| |done].
    intros c. split; [naive_solver congruence|]. intros Hc.
    apply owns_in_section in Hc. by rewrite I in Hc.
  - assert (Hu : ∀ c, in_section (at_ s c) = true → c = h).
    { intros c Hc. destruct (decide (c = h)); [done|]. by rewrite I in Hc. }
    split_and!; [intros c d Hc Hd; by rewrite (Hu c), (Hu d)| |done].
    intros c. rewrite Ho, Hl. split.
    + intros [_ Hc]. destruct (owns (at_ s h)) eqn:E; by simplify_eq.
    + intros Hc. rewrite (Hu c) in Hc |- * by (by apply owns_in_section). by rewrite Hc.
Qed.

Definition crit1 : state := mkState true (Some 1%nat)
  (<[1%nat := Crit]> (<[1%nat := AcqGot]> (<[1%nat := AcqSpin]> (λ _, Out)))).

Lemma mutual_exclusion_witness :
  owns (at_ crit1 1) = true ∧
  (∀ c d, in_section (at_ crit1 c) = true → in_section (at_ crit1 d) = true → c = d).
Proof.
  split; [reflexivity|].
  apply (mutual_exclusion crit1).
  eapply rtc_l; [exact (acq_free 1 false None (λ _, Out) eq_refl eq_refl)|].
  eapply rtc_l; [exact (acq_xchg 1 false None _ eq_refl)|].
  eapply rtc_l; [exact (acq_own 1 true None _ eq_refl)|].
  apply rtc_refl.
Defined.
End Race.
