(* ===== verification/Str.v ===== *)
(** * Byte strings and memory blocks (string.c)

    The kernel's string routines. Memory is a list of bytes (values 0..255)
    addressed from its start; a string argument is the list of bytes from the
    pointer to the end of the object it points into. A read or write outside
    the object gives [None]. *)

From S2P Require Import Prelude.

(** ** Comparing *)

(** memcmp: [*s1 - *s2] at the first difference. *)
Fixpoint memcmp (v1 v2 : list Z) (n : nat) {struct n} : option Z :=
  match n with
  | O => Some 0
  | S n =>
    match v1, v2 with
    | a :: v1, b :: v2 => if a =? b then memcmp v1 v2 n else Some (a - b)
    | _, _ => None
    end
  end.

(** strncmp: stops after [n] bytes, at a NUL or at a difference. *)
Fixpoint strncmp (p q : list Z) (n : nat) {struct n} : option Z :=
  match n with
  | O => Some 0
  | S n =>
    match p, q with
    | a :: p, b :: q =>
      if negb (a =? 0) && (a =? b) then strncmp p q n else Some (a - b)
    | _, _ => None
    end
  end.

(** strlen: the fuel of the scan is the size of the object. *)
Fixpoint strlen (s : list Z) : option Z :=
  match s with
  | [] => None
  | c :: s => if c =? 0 then Some 0 else n ← strlen s; Some (n + 1)
  end.

(** ** Copying strings *)

(** The second loop of strncpy: [while(n-- > 0) *s++ = 0]. *)
Fixpoint pad0 (s : list Z) (n : nat) {struct n} : option (list Z) :=
  match n, s with
  | O, _ => Some s
  | S n, _ :: s => r ← pad0 s n; Some (0 :: r)
  | S _, [] => None
  end.

(** strncpy writes [n] bytes of [s]: the string [t], then NULs. *)
Fixpoint strncpy (s t : list Z) (n : nat) {struct n} : option (list Z) :=
  match n with
  | O => Some s
  | S n =>
    match s, t with
    | _ :: s, c :: t =>
      if c =? 0 then r ← pad0 s n; Some (0 :: r)
      else r ← strncpy s t n; Some (c :: r)
    | _, _ => None
    end
  end.

Definition store0 (s : list Z) : option (list Z) :=
  match s with [] => None | _ :: s => Some (0 :: s) end.

(** The loop of safestrcpy after the first [--n]: [n] more bytes may be
    copied; the final [*s = 0] always happens. *)
Fixpoint safestrcpy_loop (s t : list Z) (n : nat) {struct n} : option (list Z) :=
  match n with
  | O => store0 s
  | S n =>
    match s, t with
    | _ :: s, c :: t =>
      if c =? 0 then r ← store0 s; Some (0 :: r)
      else r ← safestrcpy_loop s t n; Some (c :: r)
    | _, _ => None
    end
  end.

Definition safestrcpy (s t : list Z) (n : nat) : option (list Z) :=
  match n with O => Some s | S n => safestrcpy_loop s t n end.

(** ** Blocks of memory *)

(** One byte store and load in a memory [m]. *)
Definition store_byte (m : list Z) (a : nat) (c : Z) : option (list Z) :=
  if decide (a < length m)%nat then Some (<[a := c]> m) else None.

(** [while(n-- > 0) *d++ = *s++;] *)
Fixpoint copy_up (m : list Z) (d s n : nat) : option (list Z) :=
  match n with
  | O => Some m
  | S n => c ← m !! s; m ← store_byte m d c; copy_up m (S d) (S s) n
  end.

(** [while(n-- > 0) *--d = *--s;] with both pointers past the end. *)
Fixpoint copy_down (m : list Z) (d s n : nat) : option (list Z) :=
  match n with
  | O => Some m
  | S n => c ← m !! (s + n)%nat; m ← store_byte m (d + n) c; copy_down m d s n
  end.

(** memmove on two pointers into the same memory. *)
Definition memmove (m : list Z) (d s n : nat) : option (list Z) :=
  if decide (s < d)%nat then
    if decide (d < s + n)%nat then copy_down m d s n else copy_up m d s n
  else copy_up m d s n.

(** stosb: [n] copies of the low byte of [c]. *)
Fixpoint stosb (m : list Z) (d : nat) (c : Z) (n : nat) : option (list Z) :=
  match n with
  | O => Some m
  | S n => m ← store_byte m d (u8 c); stosb m (S d) c n
  end.

(** stosl: [n] copies of the 32-bit word [w], little-endian. *)
Fixpoint stosl (m : list Z) (d : nat) (w : Z) (n : nat) : option (list Z) :=
  match n with
  | O => Some m
  | S n =>
    m ← store_byte m d (u8 w);
    m ← store_byte m (d + 1) (u8 (Z.shiftr w 8));
    m ← store_byte m (d + 2) (u8 (Z.shiftr w 16));
    m ← store_byte m (d + 3) (u8 (Z.shiftr w 24));
    stosl m (d + 4) w n
  end.

(** memset uses the word store when address and size are multiples of 4. *)
Definition memset (m : list Z) (d : nat) (c : Z) (n : nat) : option (list Z) :=
  if decide (d mod 4 = 0 ∧ n mod 4 = 0)%nat then
    let c := Z.land c 255 in
    stosl m d (u32 (Z.lor (Z.lor (Z.lor (Z.shiftl c 24) (Z.shiftl c 16)) (Z.shiftl c 8)) c)) (n / 4)
  else stosb m d c n.

(** ** What the block routines compute *)

Section blocks.
Implicit Types (m : list Z) (d s n : nat).

Lemma store_byte_Some m a c : (a < length m)%nat → store_byte m a c = Some (<[a := c]> m).
Proof. intros. unfold store_byte. by rewrite decide_True. Qed.

(** Pointwise result of both copy loops, when the direction is safe. *)
Definition copied m d s n m' : Prop :=
  ∀ i, m' !! i = if decide (d ≤ i < d + n)%nat then m !! (s + (i - d))%nat else m !! i.

Lemma copy_up_copied m d s n :
  (d + n ≤ length m)%nat → (s + n ≤ length m)%nat → (d ≤ s ∨ s + n ≤ d)%nat →
  ∃ m', copy_up m d s n = Some m' ∧ copied m d s n m'.
Proof.
  revert m d s. induction n as [|n IH]; intros m d s Hd Hs Ho; simpl.
  { exists m. split; [done|]. intros i. case_decide; [lia|done]. }
  destruct (lookup_lt_is_Some_2 m s) as [c Hc]; [lia|]. rewrite Hc. simpl.
  rewrite store_byte_Some by lia. simpl.
  destruct (IH (<[d := c]> m) (S d) (S s)) as (m' & -> & Hm'); rewrite ?length_insert; try lia.
  exists m'. split; [done|]. intros i. rewrite Hm'.
  repeat case_decide; try lia.
  - rewrite list_lookup_insert_ne by lia. f_equal. lia.
  - assert (i = d) as -> by lia. rewrite list_lookup_insert_eq by lia.
    rewrite Nat.sub_diag, Nat.add_0_r. done.
  - by rewrite list_lookup_insert_ne by lia.
Qed.

Lemma copy_down_copied m d s n :
  (d + n ≤ length m)%nat → (s + n ≤ length m)%nat → (s ≤ d ∨ d + n ≤ s)%nat →
  ∃ m', copy_down m d s n = Some m' ∧ copied m d s n m'.
Proof.
  revert m. induction n as [|n IH]; intros m Hd Hs Ho; simpl.
  { exists m. split; [done|]. intros i. case_decide; [lia|done]. }
  destruct (lookup_lt_is_Some_2 m (s + n)) as [c Hc]; [lia|]. rewrite Hc. simpl.
  rewrite store_byte_Some by lia. simpl.
  destruct (IH (<[(d + n)%nat := c]> m)) as (m' & -> & Hm'); rewrite ?length_insert; try lia.
  exists m'. split; [done|]. intros i. rewrite Hm'.
  repeat case_decide; try lia.
  - by rewrite list_lookup_insert_ne by lia.
  - assert (i = d + n)%nat as -> by lia. rewrite list_lookup_insert_eq by lia.
    replace (s + (d + n - d))%nat with (s + n)%nat by lia. done.
  - by rewrite list_lookup_insert_ne by lia.
Qed.

Lemma copied_splice m d s n m' :
  (d + n ≤ length m)%nat → (s + n ≤ length m)%nat → copied m d s n m' →
  m' = splice m d (take n (drop s m)).
Proof.
  intros Hd Hs Hm.
  assert (Hl : length (take n (drop s m)) = n) by (rewrite length_take, length_drop; lia).
  apply splice_intro; rewrite Hl; [done|]. intros i. rewrite Hm.
  case_decide; [|done]. rewrite lookup_take, lookup_drop. case_decide; [done|lia].
Qed.

(** Memmove() copies the [n] bytes that were at [s] to [d], whether or
    not the two ranges overlap, and changes nothing else. *)
Theorem memmove_correct m d s n :
  (d + n ≤ length m)%nat → (s + n ≤ length m)%nat →
  memmove m d s n = Some (splice m d (take n (drop s m))).
Proof.
  intros Hd Hs. unfold memmove. repeat case_decide.
  - destruct (copy_down_copied m d s n) as (m' & -> & Hm); try lia.
    by rewrite (copied_splice m d s n m').
  - destruct (copy_up_copied m d s n) as (m' & -> & Hm); try lia.
    by rewrite (copied_splice m d s n m').
  - destruct (copy_up_copied m d s n) as (m' & -> & Hm); try lia.
    by rewrite (copied_splice m d s n m').
Qed.

Lemma stosb_splice m d c n :
  (d + n ≤ length m)%nat → stosb m d c n = Some (splice m d (replicate n (u8 c))).
Proof.
  revert m d. induction n as [|n IH]; intros m d Hd; simpl.
  { f_equal. unfold splice. simpl. by rewrite Nat.add_0_r, take_drop. }
  rewrite store_byte_Some by lia. simpl. rewrite IH by (rewrite length_insert; lia). f_equal.
  apply splice_intro; simpl; rewrite length_replicate; [done|]. intros i.
  destruct (decide (S d ≤ i < S d + n)%nat).
  { rewrite lookup_splice_in by (rewrite ?length_insert, ?length_replicate; lia).
    rewrite decide_True by lia. rewrite lookup_cons_ne_0 by lia.
    by rewrite !lookup_replicate_2 by lia. }
  rewrite lookup_splice_out by (rewrite ?length_insert, ?length_replicate; lia).
  case_decide.
  - assert (i = d) as -> by lia. rewrite Nat.sub_diag. simpl. by rewrite list_lookup_insert_eq by lia.
  - by rewrite list_lookup_insert_ne by lia.
Qed.

(** The word built by memset has the fill byte in every position; the
    byte has 256 values, so this is checked value by value. *)
Definition fill_word (b : Z) : Z :=
  u32 (Z.lor (Z.lor (Z.lor (Z.shiftl b 24) (Z.shiftl b 16)) (Z.shiftl b 8)) b).

Lemma fill_word_byte b k :
  0 ≤ b < 256 → k ∈ [0; 8; 16; 24] → u8 (Z.shiftr (fill_word b) k) = b.
Proof.
  intros Hb Hk.
  assert (Hall : forallb (λ b, forallb (λ k, u8 (Z.shiftr (fill_word b) k) =? b) [0; 8; 16; 24])
    (seqZ 0 256) = true) by (vm_compute; reflexivity).
  rewrite forallb_forall in Hall. specialize (Hall b). rewrite forallb_forall in Hall.
  apply Z.eqb_eq, Hall; [|by apply list_elem_of_In].
  apply list_elem_of_In, elem_of_seqZ. lia.
Qed.

Lemma land_255 c : Z.land c 255 = u8 c.
Proof. change 255 with (Z.ones 8). by rewrite Z.land_ones by lia. Qed.

Lemma u8_range c : 0 ≤ u8 c < 256.
Proof. unfold u8. apply Z.mod_pos_bound. lia. Qed.

Lemma u8_idemp c : u8 (u8 c) = u8 c.
Proof. unfold u8. by rewrite Z.mod_mod. Qed.

Lemma splice_splice m d l1 l2 :
  (d + length l1 + length l2 ≤ length m)%nat →
  splice (splice m d l1) (d + length l1) l2 = splice m d (l1 ++ l2).
Proof.
  intros Hd. apply splice_intro; rewrite ?length_app; [lia|]. intros i.
  destruct (decide (d + length l1 ≤ i < d + length l1 + length l2)%nat).
  - rewrite lookup_splice_in by (rewrite ?length_splice; lia).
    rewrite decide_True by lia. rewrite lookup_app_r by lia. f_equal. lia.
  - rewrite lookup_splice_out by (rewrite ?length_splice; lia). case_decide.
    + rewrite lookup_splice_in by lia. by rewrite lookup_app_l by lia.
    + by rewrite lookup_splice_out by lia.
Qed.

Lemma store_byte_splice m d c : (d < length m)%nat → store_byte m d c = Some (splice m d [c]).
Proof.
  intros. rewrite store_byte_Some by done. f_equal. apply splice_intro; simpl; [lia|].
  intros i. rewrite list_lookup_insert. repeat case_decide; try lia; subst; try done.
  all: try (assert (i = d) as -> by lia; by rewrite Nat.sub_diag).
Qed.

Lemma stosl_splice m d w b n :
  (d + 4 * n ≤ length m)%nat → 0 ≤ b < 256 → w = fill_word b →
  stosl m d w n = Some (splice m d (replicate (4 * n) b)).
Proof.
  intros Hd Hb ->. revert m d Hd. induction n as [|n IH]; intros m d Hd.
  { simpl. f_equal. unfold splice. simpl. by rewrite Nat.add_0_r, take_drop. }
  cbn [stosl].
  assert (Hw : u8 (fill_word b) = b) by (rewrite <- (Z.shiftr_0_r (fill_word b)); apply fill_word_byte; [done|set_solver]).
  rewrite Hw, !fill_word_byte by (done || set_solver).
  rewrite store_byte_splice by lia. cbn [mbind option_bind].
  rewrite store_byte_splice by (rewrite length_splice; simpl; lia). cbn [mbind option_bind].
  rewrite (splice_splice _ _ [b] [b]) by (simpl; lia).
  rewrite store_byte_splice by (rewrite length_splice; simpl; lia). cbn [mbind option_bind].
  rewrite (splice_splice _ _ ([b] ++ [b]) [b]) by (simpl; lia).
  rewrite store_byte_splice by (rewrite length_splice; simpl; lia). cbn [mbind option_bind].
  rewrite (splice_splice _ _ (([b] ++ [b]) ++ [b]) [b]) by (simpl; lia).
  rewrite IH by (rewrite length_splice; simpl; lia).
  rewrite (splice_splice _ _ ((([b] ++ [b]) ++ [b]) ++ [b])) by (rewrite length_replicate; simpl; lia).
  replace (4 * S n)%nat with (4 + 4 * n)%nat by lia. rewrite replicate_add. done.
Qed.

(** Memset() fills exactly the [n] bytes at [d] with the low byte of
    [c], on the path that stores words (address and size multiples of 4) as
    on the path that stores bytes. *)
Theorem memset_correct m d c n :
  (d + n ≤ length m)%nat → memset m d c n = Some (splice m d (replicate n (u8 c))).
Proof.
  intros Hd. unfold memset. case_decide as Ha; [|by apply stosb_splice].
  destruct Ha as [_ Hn].
  assert (Hn4 : (4 * (n / 4) = n)%nat) by (pose proof (Nat.div_mod_eq n 4); lia).
  rewrite land_255, (stosl_splice _ _ _ (u8 c)); [by rewrite Hn4|lia|apply u8_range|done].
Qed.

End blocks.

(** ** What the string routines compute *)

(** [cstr s]: the characters before the first NUL. *)
Fixpoint cstr (s : list Z) : list Z :=
  match s with [] => [] | c :: s => if c =? 0 then [] else c :: cstr s end.

Section strings.
Implicit Types (s t p q : list Z) (n : nat).

Lemma strlen_cstr s : 0 ∈ s → strlen s = Some (Z.of_nat (length (cstr s))).
Proof.
  induction s as [|c s IH]; intros Hs; [by apply elem_of_nil in Hs|]. simpl.
  destruct (Z.eqb_spec c 0) as [->|Hc]; [done|]. rewrite IH by set_solver. simpl. f_equal. lia.
Qed.

Lemma safestrcpy_loop_spec s t n :
  (n < length s)%nat → 0 ∈ t →
  ∃ s', safestrcpy_loop s t n = Some s' ∧ length s' = length s ∧ drop (S n) s' = drop (S n) s ∧
        cstr s' = take n (cstr t) ∧ 0 ∈ take (S n) s'.
Proof.
  revert s t. induction n as [|n IH]; intros [|x s] t Hn Ht; simpl in *; try lia.
  { eexists. split_and!; try done. set_solver. }
  destruct t as [|c t]; [by apply elem_of_nil in Ht|]. simpl.
  destruct (Z.eqb_spec c 0) as [->|Hc].
  { destruct s as [|y s]; simpl in *; [lia|]. eexists. split_and!; try done. set_solver. }
  destruct (IH s t) as (s' & -> & Hl & Hd & Hs & H0); [lia|set_solver|]. simpl.
  eexists. split_and!; [done|simpl; lia|done| |simpl in *; set_solver].
  simpl. rewrite (proj2 (Z.eqb_neq c 0)) by done. by rewrite Hs.
Qed.

(** Safestrcpy() into a buffer of [n] bytes keeps the first [n-1]
    characters of the source string, always NUL-terminates, and never writes
    beyond the [n] bytes. *)
Theorem safestrcpy_correct s t n :
  (0 < n ≤ length s)%nat → 0 ∈ t →
  ∃ s', safestrcpy s t n = Some s' ∧ length s' = length s ∧ drop n s' = drop n s ∧
        cstr s' = take (n - 1) (cstr t) ∧ 0 ∈ take n s'.
Proof.
  intros Hn Ht. destruct n as [|n]; [lia|].
  replace (S n - 1)%nat with n by lia. apply safestrcpy_loop_spec; [lia|done].
Qed.

(** A string argument that is readable up to a bound [n]. *)
Definition readable (n : nat) (t : list Z) : Prop := 0 ∈ t ∨ (n ≤ length t)%nat.

Lemma readable_cons n c t : c ≠ 0 → readable (S n) (c :: t) → readable n t.
Proof. unfold readable. simpl. intros Hc [H|H]; [left; set_solver|right; lia]. Qed.

Lemma pad0_spec s n : (n ≤ length s)%nat → pad0 s n = Some (replicate n 0 ++ drop n s).
Proof.
  revert s. induction n as [|n IH]; intros [|x s] Hn; simpl in *; try done; [lia|].
  by rewrite IH by lia.
Qed.

(** strncpy() writes the string cut at [n] characters and pads with NULs. *)
Lemma strncpy_spec s t n :
  (n ≤ length s)%nat → readable n t →
  strncpy s t n =
    Some (take n (cstr t) ++ replicate (n - length (take n (cstr t))) 0 ++ drop n s).
Proof.
  revert s t. induction n as [|n IH]; intros [|x s] t Hn Ht; simpl in *; try done; try lia.
  destruct t as [|c t]; [unfold readable in Ht; simpl in Ht; destruct Ht; [set_solver|lia]|]. simpl.
  destruct (Z.eqb_spec c 0) as [->|Hc]; simpl.
  - by rewrite pad0_spec by lia.
  - rewrite IH by (try lia; by eapply readable_cons). done.
Qed.

(** strncmp() is 0 exactly when the strings, cut at [n], are equal. *)
Lemma strncmp_zero p q n :
  readable n p → readable n q →
  ∃ r, strncmp p q n = Some r ∧ (r = 0 ↔ take n (cstr p) = take n (cstr q)).
Proof.
  revert p q. induction n as [|n IH]; intros p q Hp Hq; simpl; [by exists 0|].
  destruct p as [|a p]; [destruct Hp as [Hp|Hp]; simpl in Hp; [set_solver|lia]|].
  destruct q as [|b q]; [destruct Hq as [Hq|Hq]; simpl in Hq; [set_solver|lia]|]. simpl.
  destruct (Z.eqb_spec a 0) as [->|Ha0]; simpl.
  { exists (0 - b). split; [done|]. destruct (Z.eqb_spec b 0) as [->|]; [done|].
    split; [lia|done]. }
  destruct (Z.eqb_spec a b) as [->|Hab].
  { rewrite (proj2 (Z.eqb_neq b 0)) by done.
    destruct (IH p q) as (r & -> & Hr); [by eapply readable_cons|by eapply readable_cons|].
    exists r. split; [done|]. rewrite Hr. simpl. split; [by intros ->|by intros [=]]. }
  exists (a - b). split; [done|]. destruct (Z.eqb_spec b 0); simpl; split; intros; try lia; by simplify_eq.
Qed.

Lemma cstr_no0 t : 0 ∉ cstr t.
Proof.
  induction t as [|c t IH]; simpl; [set_solver|].
  destruct (Z.eqb_spec c 0); [set_solver|]. set_solver.
Qed.

Lemma cstr_app_0 l t : 0 ∉ l → cstr (l ++ 0 :: t) = l.
Proof.
  induction l as [|c l IH]; intros Hl; simpl; [done|].
  rewrite (proj2 (Z.eqb_neq c 0)) by set_solver. f_equal. apply IH. set_solver.
Qed.

Lemma cstr_id l : 0 ∉ l → cstr l = l.
Proof.
  induction l as [|c l IH]; intros Hl; simpl; [done|].
  rewrite (proj2 (Z.eqb_neq c 0)) by set_solver. f_equal. apply IH. set_solver.
Qed.

(** The field that strncpy() fills reads back as the string cut at [n]. *)
Lemma strncpy_field s t n : length s = n → readable n t →
  ∃ f, strncpy s t n = Some f ∧ length f = n ∧ take n (cstr f) = take n (cstr t).
Proof.
  intros Hs Ht. rewrite strncpy_spec by (done || lia). rewrite drop_ge, app_nil_r by lia.
  set (k := take n (cstr t)). set (f := k ++ replicate (n - length k) 0).
  assert (Hk : (length k ≤ n)%nat) by (unfold k; rewrite length_take; lia).
  assert (H0 : 0 ∉ k) by (intros Hin; by eapply cstr_no0, subseteq_take).
  exists f. split; [done|]. split; [unfold f; rewrite length_app, length_replicate; lia|].
  unfold f. destruct (n - length k)%nat eqn:E; simpl.
  - rewrite app_nil_r, cstr_id by done. apply take_ge. lia.
  - rewrite cstr_app_0 by done. apply take_ge. lia.
Qed.

(** A name written by strncpy() into an [n]-byte field compares equal,
    with strncmp() over [n] bytes, to exactly the strings that agree with it
    on the first [n] characters: directory names round-trip up to DIRSIZ. *)
Theorem strncpy_strncmp s t q n :
  length s = n → readable n t → readable n q →
  ∃ f, strncpy s t n = Some f ∧ length f = n ∧
    ∃ r, strncmp q f n = Some r ∧ (r = 0 ↔ take n (cstr q) = take n (cstr t)).
Proof.
  intros Hs Ht Hq. destruct (strncpy_field s t n Hs Ht) as (f & Hf & Hl & Hc). exists f. split; [done|]. split; [done|].
  destruct (strncmp_zero q f n) as (r & Hr & Hz); [done|right; lia|]. exists r. split; [done|]. by rewrite Hz, Hc.
Qed.
End strings.

#[global] Arguments safestrcpy : simpl never.

(** ** Instances *)

Lemma memmove_correct_witness : memmove [1; 2; 3; 4; 5] 1 0 3 = Some [1; 1; 2; 3; 5].
Proof. rewrite (memmove_correct [1; 2; 3; 4; 5] 1 0 3); [reflexivity|simpl; lia..]. Defined.

(** The name ab in a field of 3 bytes, looked up under the name ab. *)
Lemma strncpy_strncmp_witness :
  ∃ f, strncpy [9; 9; 9] [97; 98; 0] 3 = Some f ∧ length f = 3%nat ∧
    ∃ r, strncmp [97; 98; 0; 7] f 3 = Some r ∧
      (r = 0 ↔ take 3 (cstr [97; 98; 0; 7]) = take 3 (cstr [97; 98; 0])).
Proof.
  apply (strncpy_strncmp [9; 9; 9] [97; 98; 0] [97; 98; 0; 7] 3); [reflexivity| |].
  - left. set_solver.
  - left. set_solver.
Defined.
