(* ===== verification/Ring.v ===== *)
(** * Ring buffers with wrapping counters

    pipe.c and console.c keep bytes in an array used as a ring. The counters
    are 32-bit words that only count up; the cell of position [z] is
    [z % size]. The size divides 2^32, so a wrap of a counter goes on with the
    next cell. *)

From S2P Require Import Prelude.

Section ring.
Context (size : Z) (Hsize : 0 < size) (Hdiv : (size | 2 ^ 32)).

Definition cell (z : Z) : nat := Z.to_nat (z mod size).

(** [ring d from k]: the [k] bytes from the position [from] on. *)
Definition ring (d : list Z) (from : Z) (k : nat) : list (option Z) :=
  (λ i, d !! cell (u32 (from + Z.of_nat i))) <$> seq 0 k.

Lemma cell_bound z : (cell z < Z.to_nat size)%nat.
Proof. unfold cell. pose proof (Z.mod_pos_bound z size Hsize). lia. Qed.

Lemma mod_u32 z : u32 z mod size = z mod size.
Proof.
  destruct Hdiv as [k Hk]. unfold u32. rewrite Hk. assert (Hk0 : 0 < k) by nia. rewrite (Z.mul_comm k), Z.rem_mul_r by lia.
  rewrite Z.mul_comm, Z_mod_plus_full. apply Z.mod_mod. lia.
Qed.

(** Positions less than [size] apart use distinct cells, also across the
    wrap-around of the counters. *)
Lemma cell_inj a i j : 0 ≤ i < size → 0 ≤ j < size → cell (u32 (a + i)) = cell (u32 (a + j)) → i = j.
Proof.
  unfold cell. rewrite !mod_u32. intros Hi Hj H.
  pose proof (Z.mod_pos_bound (a + i) size Hsize). pose proof (Z.mod_pos_bound (a + j) size Hsize). apply Z2Nat.inj in H; [|lia|lia].
  pose proof (Z.div_mod (a + i) size). pose proof (Z.div_mod (a + j) size).
  assert (a + i - (a + j) = size * ((a + i) / size - (a + j) / size)) as Hd by lia. set (k := (a + i) / size - (a + j) / size) in Hd.
  clear -Hd Hi Hj. assert (k = 0) by nia. nia.
Qed.

Lemma ring_S d a k : ring d a (S k) = ring d a k ++ [d !! cell (u32 (a + Z.of_nat k))].
Proof. unfold ring. by rewrite seq_S, fmap_app. Qed.

Lemma ring_cons d a k : 0 ≤ a < 2 ^ 32 → ring d a (S k) = d !! cell a :: ring d (u32 (a + 1)) k.
Proof.
  intros Ha. unfold ring. cbn [seq fmap list_fmap]. rewrite Z.add_0_r, u32_small by done. f_equal.
  rewrite <- fmap_S_seq, <- list_fmap_compose. apply list_fmap_ext. intros i j _. simpl.
  rewrite u32_add_l. do 3 f_equal. lia.
Qed.

(** Storing behind the last of fewer than [size] bytes. *)
Lemma ring_put d a q c : length d = Z.to_nat size → (length q < Z.to_nat size)%nat → ring d a (length q) = Some <$> q →
  ring (<[cell (u32 (a + Z.of_nat (length q))) := c]> d) a (length (q ++ [c])) = Some <$> (q ++ [c]).
Proof.
  intros Hd Hq Hb. rewrite length_app, fmap_app, Nat.add_1_r, ring_S. f_equal.
  - rewrite <- Hb. unfold ring. apply list_fmap_ext. intros i k Hk. apply lookup_seq in Hk as [-> Hk].
    apply list_lookup_insert_ne. intros He. apply cell_inj in He; lia.
  - simpl. rewrite list_lookup_insert_eq; [done|]. rewrite Hd. apply cell_bound.
Qed.

(** Leaving out the bytes at the end. *)
Lemma ring_prefix d a q q' : ring d a (length (q ++ q')) = Some <$> (q ++ q') → ring d a (length q) = Some <$> q.
Proof.
  unfold ring. rewrite length_app, seq_app, !fmap_app. intros H. apply app_inj_1 in H as [H _]; [done|]. by rewrite !length_fmap, length_seq.
Qed.
End ring.
