(* ===== verification/Pipe.v ===== *)
(** * Pipes (pipe.c)

    A pipe is a ring of PIPESIZE bytes with two 32-bit counters that wrap
    around. Every stretch of pipewrite() and piperead() between taking
    p->lock (or waking up in sleep()) and giving it up (or going to sleep) is
    one atomic section; a call that sleeps goes on with the same section code
    when it is woken. [refines] relates the ring to the byte stream it
    implements, and [stream_fifo] shows that for any interleaving of readers
    and writers the bytes come out in the order they went in. *)

From S2P Require Import Prelude Ring.

Definition PIPESIZE : Z := 512.

(** struct pipe, without the lock. *)
Record pipe : Type := mkPipe {
  pi_data : list Z;
  pi_nread : Z;
  pi_nwrite : Z;
  pi_readopen : bool;
  pi_writeopen : bool;
}.
#[export] Instance pipe_eta : Eta pipe := λ p,
  mkPipe (pi_data p) (pi_nread p) (pi_nwrite p) (pi_readopen p) (pi_writeopen p).

(** The channels of wakeup(): [&p->nread] and [&p->nwrite]. *)
Inductive pchan : Type := NRead | NWrite.

(** How a section ends: the call returned, or it sleeps on a channel. *)
Inductive pres (A : Type) : Type :=
| PRet (v : Z)
| PSleep (c : pchan) (k : A).
Arguments PRet {A}.
Arguments PSleep {A}.

(** The initial state set by pipealloc(); [data] is whatever the page holds. *)
Definition pipe_init (data : list Z) : pipe := mkPipe data 0 0 true true.

Definition pipe_full (p : pipe) : bool := pi_nwrite p =? u32 (pi_nread p + PIPESIZE).
Definition pipe_empty (p : pipe) : bool := pi_nread p =? pi_nwrite p.

(** [p->data[p->nwrite++ % PIPESIZE] = c] *)
Definition put (c : Z) (p : pipe) : pipe :=
  p <| pi_data ::= λ d, <[cell PIPESIZE (pi_nwrite p) := c]> d |>
    <| pi_nwrite := u32 (pi_nwrite p + 1) |>.

(** [p->data[p->nread++ % PIPESIZE]]; [None] is a read outside the array. *)
Definition take1 (p : pipe) : option (Z * pipe) :=
  c ← pi_data p !! cell PIPESIZE (pi_nread p);
  Some (c, p <| pi_nread := u32 (pi_nread p + 1) |>).

(** pipewrite() from the test [i < n], [rest] being addr[i..n) and [n] the
    value to return; the section yields its end, the pipe and the wakeups. *)
Fixpoint pipewrite (killed : bool) (n : Z) (rest : list Z) (p : pipe) : pres (list Z) * pipe * list pchan :=
  match rest with
  | [] => (PRet n, p, [NRead])
  | c :: rest' =>
    if pipe_full p then
      if negb (pi_readopen p) || killed then (PRet (-1), p, [])
      else (PSleep NWrite rest, p, [NRead])
    else pipewrite killed n rest' (put c p)
  end.

(** The copying loop of piperead(): the bytes put into addr, and the pipe. *)
Fixpoint read_loop (n : nat) (p : pipe) : option (list Z * pipe) :=
  match n with
  | O => Some ([], p)
  | S n =>
    if pipe_empty p then Some ([], p)
    else
      r ← take1 p;
      r' ← read_loop n (snd r);
      Some (fst r :: fst r', snd r')
  end.

(** piperead(): also returns the bytes stored into addr. *)
Definition piperead (killed : bool) (n : nat) (p : pipe) : option (pres unit * list Z * pipe * list pchan) :=
  if pipe_empty p && pi_writeopen p then
    if killed then Some (PRet (-1), [], p, [])
    else Some (PSleep NRead tt, [], p, [])
  else
    r ← read_loop n p;
    Some (PRet (Z.of_nat (length (fst r))), fst r, snd r, [NWrite]).

(** pipeclose(): whether the page is given to kfree(). *)
Definition pipeclose (writable : bool) (p : pipe) : bool * pipe * list pchan :=
  let '(p, w) := if writable then (p <| pi_writeopen := false |>, [NRead])
                 else (p <| pi_readopen := false |>, [NWrite]) in
  (negb (pi_readopen p) && negb (pi_writeopen p), p, w).

(** ** The stream a pipe implements *)

Record refines (p : pipe) (q : list Z) : Prop := {
  rf_data : length (pi_data p) = Z.to_nat PIPESIZE;
  rf_read : 0 ≤ pi_nread p < 2 ^ 32;
  rf_size : (length q ≤ Z.to_nat PIPESIZE)%nat;
  rf_write : pi_nwrite p = u32 (pi_nread p + Z.of_nat (length q));
  rf_bytes : ring PIPESIZE (pi_data p) (pi_nread p) (length q) = Some <$> q;
}.

Lemma pipe_pos : 0 < PIPESIZE.
Proof. done. Qed.
Lemma pipe_div : (PIPESIZE | 2 ^ 32).
Proof. by exists 8388608. Qed.

Lemma full_iff p q : refines p q → pipe_full p = true ↔ length q = Z.to_nat PIPESIZE.
Proof.
  intros [_ Hr Hs Hw _]. unfold pipe_full. rewrite Z.eqb_eq, Hw. split.
  - intros H%u32_eq_add; unfold PIPESIZE in *; lia.
  - intros ->. f_equal.
Qed.

Lemma empty_iff p q : refines p q → pipe_empty p = true ↔ q = [].
Proof.
  intros [_ Hr Hs Hw _]. unfold pipe_empty. rewrite Z.eqb_eq, Hw. split.
  - intros H. destruct q as [|c q]; [done|exfalso]. rewrite <- (u32_small (pi_nread p)) in H at 1 by done.
    rewrite <- (Z.add_0_r (pi_nread p)) in H at 1. apply u32_eq_add in H; unfold PIPESIZE in *; simpl in *; lia.
  - intros ->. simpl. rewrite Z.add_0_r. by rewrite u32_small.
Qed.

Lemma put_refines p q c : refines p q → pipe_full p = false → refines (put c p) (q ++ [c]).
Proof.
  intros R Hf. assert (Hlt : (length q < Z.to_nat PIPESIZE)%nat).
  { pose proof (rf_size _ _ R). destruct (decide (length q = Z.to_nat PIPESIZE)) as [He|]; [|lia].
    apply (full_iff _ _ R) in He. congruence. }
  destruct R as [Hd Hr Hs Hw Hb]. split; simpl.
  - by rewrite length_insert.
  - done.
  - rewrite length_app. simpl. lia.
  - rewrite Hw, length_app, u32_add_l. simpl. f_equal. lia.
  - rewrite Hw. by apply (ring_put _ pipe_pos pipe_div).
Qed.

Lemma take1_refines p c q : refines p (c :: q) →
  ∃ p', take1 p = Some (c, p') ∧ refines p' q ∧ pi_writeopen p' = pi_writeopen p ∧
    pi_readopen p' = pi_readopen p.
Proof.
  intros [Hd Hr Hs Hw Hb]. simpl in *. rewrite ring_cons in Hb by done. injection Hb as Hc Hb.
  unfold take1. rewrite Hc. simpl. eexists. split; [done|]. split; [|done]. split; simpl.
  - done.
  - apply u32_range.
  - lia.
  - rewrite Hw, u32_add_l. f_equal. lia.
  - done.
Qed.

(** ** The operations on the stream *)

(** A writing section accepts a prefix of what is left to write; it returns
    [n] when that is all of it, sleeps on nwrite when the pipe is full, and
    fails when it is full and nobody reads or the writer was killed. *)
Lemma pipewrite_spec killed n rest p q : refines p q →
  ∃ acc left r p' w, pipewrite killed n rest p = (r, p', w) ∧ rest = acc ++ left ∧
    refines p' (q ++ acc) ∧ pi_readopen p' = pi_readopen p ∧ pi_writeopen p' = pi_writeopen p ∧
    ((left = [] ∧ r = PRet n ∧ w = [NRead]) ∨
     (left ≠ [] ∧ length (q ++ acc) = Z.to_nat PIPESIZE ∧ pi_readopen p = true ∧ killed = false ∧
        r = PSleep NWrite left ∧ w = [NRead]) ∨
     (left ≠ [] ∧ length (q ++ acc) = Z.to_nat PIPESIZE ∧ (pi_readopen p = false ∨ killed = true) ∧
        r = PRet (-1) ∧ w = [])).
Proof.
  revert p q. induction rest as [|c rest IH]; intros p q R; simpl.
  { exists [], []. do 3 eexists. split_and!; try done; [by rewrite app_nil_r|by left]. }
  destruct (pipe_full p) eqn:Hf.
  - exists [], (c :: rest). pose proof (proj1 (full_iff _ _ R) Hf) as Hl. rewrite app_nil_r.
    destruct (negb (pi_readopen p) || killed) eqn:Hk; do 3 eexists; (split_and!; try done).
    + right. right. apply orb_true_iff in Hk as [Hk|Hk]; [apply negb_true_iff in Hk|]; by auto.
    + right. left. apply orb_false_iff in Hk as [Hk ->]. apply negb_false_iff in Hk. by auto.
  - destruct (IH (put c p) (q ++ [c]) (put_refines _ _ _ R Hf))
      as (acc & left & r & p' & w & -> & -> & R' & Hro & Hwo & Hc).
    exists (c :: acc), left, r, p', w. rewrite <- (assoc_L (++)) in R', Hc. simpl in *. done.
Qed.

Lemma read_loop_spec n p q : refines p q →
  ∃ p', read_loop n p = Some (take n q, p') ∧ refines p' (drop n q) ∧
    pi_readopen p' = pi_readopen p ∧ pi_writeopen p' = pi_writeopen p.
Proof.
  revert p q. induction n as [|n IH]; intros p q R; simpl; [by exists p|].
  destruct (pipe_empty p) eqn:He.
  - apply (empty_iff _ _ R) in He as ->. by exists p.
  - destruct q as [|c q]; [by rewrite (proj2 (empty_iff _ _ R)) in He|].
    destruct (take1_refines _ _ _ R) as (p1 & -> & R1 & Hw1 & Hr1). simpl.
    destruct (IH p1 q R1) as (p2 & -> & R2 & Hr2 & Hw2). simpl. exists p2. by rewrite Hr2, Hw2.
Qed.

(** ** Readers and writers together *)

(** A pipe with all bytes ever accepted and ever delivered. *)
Record psys : Type := mkPsys { ps_pipe : pipe; ps_in : list Z; ps_out : list Z }.

(** A section of pipewrite(), of piperead() or pipeclose(), by any process.
    The bytes a section accepts are those nwrite advanced over. *)
Inductive pstep : psys → psys → Prop :=
| ps_write p i o killed n rest r p' w :
    pipewrite killed n rest p = (r, p', w) →
    pstep (mkPsys p i o)
      (mkPsys p' (i ++ take (Z.to_nat (u32 (pi_nwrite p' - pi_nwrite p))) rest) o)
| ps_read p i o killed n r bs p' w :
    piperead killed n p = Some (r, bs, p', w) → pstep (mkPsys p i o) (mkPsys p' i (o ++ bs))
| ps_close p i o writable f p' w :
    pipeclose writable p = (f, p', w) → pstep (mkPsys p i o) (mkPsys p' i o).

Definition stream_inv (s : psys) : Prop := ∃ q, refines (ps_pipe s) q ∧ ps_in s = ps_out s ++ q.

(** The counter advances by the number of bytes accepted. *)
Lemma accepted p p' q acc rest :
  refines p q → refines p' (q ++ acc) → pi_nread p' = pi_nread p →
  take (Z.to_nat (u32 (pi_nwrite p' - pi_nwrite p))) (acc ++ rest) = acc.
Proof.
  intros R R' Hn. pose proof (rf_size _ _ R') as Hs. rewrite length_app in Hs.
  rewrite (rf_write _ _ R), (rf_write _ _ R'), Hn, length_app.
  replace (u32 _) with (Z.of_nat (length acc)); [by rewrite Nat2Z.id, take_app_length|].
  unfold u32. rewrite <- Zminus_mod, Z.mod_small; unfold PIPESIZE in *; lia.
Qed.

Lemma pipewrite_nread killed n rest p : pi_nread (snd (fst (pipewrite killed n rest p))) = pi_nread p.
Proof.
  revert p. induction rest as [|c rest IH]; intros p; simpl; [done|].
  destruct (pipe_full p); [by destruct (_ || _)|]. by rewrite IH.
Qed.

Lemma pstep_inv s s' : stream_inv s → pstep s s' → stream_inv s'.
Proof.
  intros (q & R & Hi) Hs. destruct Hs as [p i o killed n rest r p' w Hw|p i o killed n r bs p' w Hr
    |p i o writable f p' w Hc]; simpl in *.
  - destruct (pipewrite_spec killed n rest p q R) as (acc & left & r1 & p1 & w1 & H1 & -> & R1 & _).
    pose proof (pipewrite_nread killed n (acc ++ left) p) as Hn. rewrite H1 in Hw, Hn. injection Hw as <- <- <-.
    exists (q ++ acc). split; [done|]. simpl. rewrite (accepted p p1 q) by done.
    by rewrite Hi, (assoc_L (++)).
  - unfold piperead in Hr. destruct (_ && _).
    + destruct killed; injection Hr as <- <- <- <-; exists q; by rewrite app_nil_r.
    + destruct (read_loop_spec n p q R) as (p1 & H1 & R1 & _). rewrite H1 in Hr. simpl in Hr.
      injection Hr as <- <- <- <-. exists (drop n q). split; [done|]. simpl.
      by rewrite Hi, <- (assoc_L (++)), take_drop.
  - exists q. split; [|done]. destruct R. unfold pipeclose in Hc.
    by destruct writable; injection Hc as <- <- <-.
Qed.

(** ** Theorems *)

(** C29: for any interleaving of the sections of any readers and writers, across
    the wrap-around of the counters, the pipe implements a first-in first-out
    byte stream: what was delivered is a prefix of what was accepted, and the
    at most PIPESIZE bytes in between are exactly those in the ring. *)
Theorem stream_fifo data s :
  length data = Z.to_nat PIPESIZE → rtc pstep (mkPsys (pipe_init data) [] []) s →
  ∃ q, ps_in s = ps_out s ++ q ∧ refines (ps_pipe s) q ∧ (length q ≤ Z.to_nat PIPESIZE)%nat.
Proof.
  intros Hd Hr. assert (Hinv : stream_inv s).
  { eapply (rtc_invariant pstep stream_inv); [|apply pstep_inv|exact Hr].
    exists []. split; [|done]. split; simpl; [done|lia|unfold PIPESIZE; lia|done|done]. }
  destruct Hinv as (q & R & Hi). exists q. split_and!; [done|done|apply (rf_size _ _ R)].
Qed.

(** Piperead() of [n] bytes from a pipe that holds [q]: it sleeps exactly
    when [q] is empty, a writer is left and the reader was not killed; a
    killed reader fails; otherwise it returns the first [n] bytes of [q] (all
    of them if there are fewer, none at end of file), removes them, wakes the
    writers, and stays inside the ring. *)
Theorem piperead_correct killed n p q : refines p q →
  ∃ r bs p' w, piperead killed n p = Some (r, bs, p', w) ∧
    if bool_decide (q = []) && pi_writeopen p then
      p' = p ∧ bs = [] ∧ w = [] ∧ r = if killed then PRet (-1) else PSleep NRead tt
    else r = PRet (Z.of_nat (length bs)) ∧ bs = take n q ∧ refines p' (drop n q) ∧ w = [NWrite].
Proof.
  intros R. unfold piperead. pose proof (empty_iff _ _ R) as He.
  assert (pipe_empty p = bool_decide (q = [])) as ->.
  { destruct (pipe_empty p), (bool_decide_reflect (q = [])); naive_solver. }
  destruct (bool_decide (q = []) && pi_writeopen p).
  - destruct killed; by do 4 eexists.
  - destruct (read_loop_spec n p q R) as (p' & -> & R' & _). simpl. by do 4 eexists.
Qed.

(** A writer of more bytes than fit, with a reader left, wakes the readers
    before it sleeps; but when it was killed in the meantime it returns -1
    after filling the pipe without waking them. *)
Theorem pipewrite_wakeups killed n rest p q :
  refines p q → pi_readopen p = true → (Z.to_nat PIPESIZE < length q + length rest)%nat →
  ∃ r p' w q', pipewrite killed n rest p = (r, p', w) ∧ refines p' q' ∧ length q' = Z.to_nat PIPESIZE ∧
    if killed then r = PRet (-1) ∧ w = [] else w = [NRead] ∧ ∃ left, r = PSleep NWrite left.
Proof.
  intros R Hro Hlen.
  destruct (pipewrite_spec killed n rest p q R) as (acc & left & r & p' & w & -> & -> & R' & _ & _ & Hc).
  exists r, p', w, (q ++ acc). split_and!; [done|done| |].
  - destruct Hc as [(-> & _)|[(_ & ? & _)|(_ & ? & _)]]; try done.
    pose proof (rf_size _ _ R'). rewrite app_nil_r, length_app in *. lia.
  - destruct Hc as [(-> & _)|[(_ & _ & _ & -> & -> & ->)|(_ & _ & [Hx| ->] & -> & ->)]].
    + pose proof (rf_size _ _ R'). rewrite app_nil_r, length_app in *. lia.
    + by eauto.
    + congruence.
    + done.
Qed.

(** ** Instances *)

Definition pipe0 : pipe := pipe_init (replicate (Z.to_nat PIPESIZE) 0).
Definition pipe3 : pipe := put 12 (put 11 (put 10 pipe0)).

Lemma pipe0_refines : refines pipe0 [].
Proof. split; simpl; try done. lia. Qed.

Lemma pipe3_refines : refines pipe3 [10; 11; 12].
Proof.
  unfold pipe3. change [10; 11; 12] with ((([] ++ [10]) ++ [11]) ++ [12]).
  do 3 (apply put_refines; [|by vm_compute]). apply pipe0_refines.
Qed.

Lemma stream_fifo_witness : ∃ s q, ps_out s = [10; 11] ∧ ps_in s = ps_out s ++ q ∧ refines (ps_pipe s) q.
Proof.
  set (s1 := mkPsys pipe3 [10; 11; 12] []).
  assert (H1 : pstep (mkPsys pipe0 [] []) s1).
  { apply (ps_write pipe0 [] [] false 3 [10; 11; 12] (PRet 3) pipe3 [NRead]). vm_compute. reflexivity. }
  destruct (read_loop_spec 2 pipe3 _ pipe3_refines) as (p' & Hl & _).
  assert (H2 : pstep s1 (mkPsys p' [10; 11; 12] ([] ++ [10; 11]))).
  { apply (ps_read pipe3 _ _ false 2 (PRet 2) [10; 11] p' [NWrite]). unfold piperead.
    rewrite Hl. vm_compute. reflexivity. }
  destruct (stream_fifo (replicate (Z.to_nat PIPESIZE) 0) _ eq_refl (rtc_l _ _ _ _ H1 (rtc_once _ _ H2)))
    as (q & Hq & R & _).
  by exists (mkPsys p' [10; 11; 12] [10; 11]), q.
Defined.

Lemma piperead_correct_witness : ∃ p' w, piperead false 2 pipe3 = Some (PRet 2, [10; 11], p', w).
Proof.
  destruct (piperead_correct false 2 pipe3 [10; 11; 12] pipe3_refines) as (r & bs & p' & w & H & Hr).
  simpl in Hr. destruct Hr as (-> & -> & _). by exists p', w.
Defined.

Lemma pipewrite_wakeups_witness :
  ∃ p', pipewrite true 513 (replicate 513 7) pipe0 = (PRet (-1), p', []).
Proof.
  destruct (pipewrite_wakeups true 513 (replicate 513 7) pipe0 [] pipe0_refines eq_refl) as (r & p' & w & q & H & _ & _ & -> & ->).
  - rewrite length_replicate. unfold PIPESIZE. simpl. lia.
  - by exists p'.
Defined.
