(* ===== verification/Kalloc.v ===== *)
(** * The page allocator (kalloc.c)

    Free pages form a list linked through their first four bytes. [free_list]
    is the list the memory represents; the operations are shown to be push
    and pop on it, and [Client] that a page is never handed out twice. *)

From S2P Require Import Prelude Bytes Mem Spinlock.

(** kmem, with the calling CPU, the locks and the physical memory. *)
Record kmem : Type := mkKmem {
  km_hw : hw;
  km_use_lock : bool;
  km_freelist : Z;
  km_mem : memory;
}.
#[export] Instance kmem_eta : Eta kmem := λ k,
  mkKmem (km_hw k) (km_use_lock k) (km_freelist k) (km_mem k).

(** A page filled by memset(v, 1, PGSIZE). *)
Definition junk_page : list Z := replicate (Z.to_nat PGSIZE) 1.
Lemma length_junk_page : length junk_page = Z.to_nat PGSIZE.
Proof. apply length_replicate. Qed.
#[global] Opaque junk_page.

Section ops.
(** [kend]: the address [end] after the loaded kernel. *)
Context (kend : Z).
Abbreviation K := (M kmem).

Definition km_hwop {A} (m : M hw A) : K A := lift km_hw (λ h k, k <| km_hw := h |>) m.

(** [r->next] of the free page at [r]. *)
Definition get_next (r : Z) : K Z := λ k,
  match km_mem k !! r with Some pg => Done (get_le 4 pg 0) k | None => Fault k end.
Definition set_next (r v : Z) : K unit := λ k,
  match km_mem k !! r with
  | Some pg => Done tt (k <| km_mem ::= λ m, <[r := put_le 4 pg 0 v]> m |>)
  | None => Fault k
  end.

Definition fill_junk (v : Z) : K unit := modify (λ k, k <| km_mem ::= λ m, <[v := junk_page]> m |>).

(** [if(kmem.use_lock) acquire(&kmem.lock); body; if(kmem.use_lock)
    release(&kmem.lock);], the frame of kfree() and kalloc(). *)
Definition kmem_locked {A} (body : K A) : K A :=
  l ← gets km_use_lock;
  when l (km_hwop (acquire LKmem));;
  a ← body;
  l ← gets km_use_lock;
  when l (km_hwop (release LKmem));;
  mret a.

Definition push_page (v : Z) : K unit :=
  f ← gets km_freelist;
  set_next v f;;
  modify (λ k, k <| km_freelist := v |>).

Definition pop_page : K Z :=
  r ← gets km_freelist;
  (if negb (r =? 0) then n ← get_next r; modify (λ k, k <| km_freelist := n |>) else mret tt);;
  mret r.

Definition kfree (v : Z) : K unit :=
  panic_if (negb (v mod PGSIZE =? 0) || (v <? kend) || (PHYSTOP <=? v2p v)) "kfree";;
  fill_junk v;;
  kmem_locked (push_page v).

Definition kalloc : K Z := kmem_locked pop_page.

(** [for(; p + PGSIZE <= vend; p += PGSIZE) kfree(p);] *)
Fixpoint free_loop (fuel : nat) (p vend : Z) : K unit :=
  if p + PGSIZE <=? vend then
    match fuel with O => nofuel | S n => kfree p;; free_loop n (p + PGSIZE) vend end
  else mret tt.

(** The fuel is one more than the number of pages below [vend]. *)
Definition freerange (vstart vend : Z) : K unit :=
  free_loop (S (Z.to_nat (vend / PGSIZE))) (PGROUNDUP vstart) vend.

Definition kinit1 (vstart vend : Z) : K unit :=
  km_hwop (initlock LKmem);;
  modify (λ k, k <| km_use_lock := false |>);;
  freerange vstart vend.

Definition kinit2 (vstart vend : Z) : K unit :=
  freerange vstart vend;;
  modify (λ k, k <| km_use_lock := true |>).

(** ** Representation *)

(** A page kfree() accepts. *)
Definition page (v : Z) : Prop :=
  0 < v < 2 ^ 32 ∧ v mod PGSIZE = 0 ∧ kend ≤ v ∧ v2p v < PHYSTOP.

Fixpoint linked (m : memory) (h : Z) (l : list Z) : Prop :=
  match l with
  | [] => h = 0
  | v :: l => h = v ∧ page v ∧ ∃ pg, m !! v = Some pg ∧ length pg = Z.to_nat PGSIZE ∧ linked m (get_le 4 pg 0) l
  end.

Record free_list (k : kmem) (l : list Z) : Prop := {
  fl_linked : linked (km_mem k) (km_freelist k) l;
  fl_nodup : NoDup l;
}.

(** The lock is usable: not held by this CPU's caller, and free. *)
Definition km_ready (k : kmem) (held : list lockid) (e : bool) : Prop :=
  disc (km_hw k) held e ∧ lk_locked (h_locks (km_hw k) LKmem) = false.

Lemma linked_ext m m' h l : (∀ v, v ∈ l → m' !! v = m !! v) → linked m h l → linked m' h l.
Proof.
  revert h. induction l as [|v l IH]; intros h Hm; simpl; [done|].
  intros (-> & Hp & pg & Hpg & Hn & Hl). split_and!; [done|done|]. exists pg.
  rewrite Hm by set_solver. split_and!; [done|done|]. apply IH; [|done]. set_solver.
Qed.

Lemma linked_page m h l v : linked m h l → v ∈ l → page v.
Proof.
  revert h. induction l as [|w l IH]; intros h; simpl; [set_solver|].
  intros (_ & Hp & pg & _ & _ & Hl) [->|Hv]%elem_of_cons; [done|]. by eapply IH.
Qed.

Lemma linked_head m h l : linked m h l → 0 ≤ h < 2 ^ 32.
Proof. destruct l as [|v l]; simpl; [lia|]. intros (-> & [? _] & _). lia. Qed.

(** Taking and giving back the lock, when locking is on. *)
Lemma locked_spec {A} (body : K A) k held e (Q : A → kmem → Prop) :
  km_ready k held e →
  (∀ h, wp body (λ a k', km_use_lock k' = km_use_lock k ∧ km_hw k' = h ∧
      ∀ h', km_ready (k' <| km_hw := h' |>) held e → same_cpu (h_cpu (km_hw k)) (h_cpu h') →
        (∀ l, h_locks h' l = h_locks (km_hw k) l ∨ l = LKmem) → Q a (k' <| km_hw := h' |>))
     (k <| km_hw := h |>)) →
  wp (kmem_locked body) Q k.
Proof.
  intros [D Hf] Hb. unfold kmem_locked, km_hwop. do 4 wp_step.
  - apply wp_lift. eapply acquire_spec; [exact D|exact Hf|]. intros h D' Hs Hk.
    wp_step. eapply wp_mono; [apply Hb|]. cbv beta. intros a k' (Hu & Hh & HQ).
    do 4 wp_step; [|congruence]. apply wp_lift. rewrite Hh.
    eapply release_spec; [exact D'|]. intros h' D'' Hs' Hk'. wp_step. apply HQ.
    + split; [done|]. simpl. by rewrite Hk', fn_lookup_insert.
    + unfold same_cpu in *. naive_solver congruence.
    + intros l. rewrite Hk'. unfold insert, fn_insert. case_decide; [by right|left].
      rewrite Hk. unfold insert, fn_insert. by case_decide.
  - wp_step. replace k with (k <| km_hw := km_hw k |>) by (by destruct k).
    eapply wp_mono; [apply Hb|]. cbv beta. intros a k' (Hu & Hh & HQ).
    do 4 wp_step; [congruence|]. wp_step.
    replace k' with (k' <| km_hw := km_hw k |>) by (destruct k'; simpl in *; by subst).
    apply HQ; [done|by repeat split|by left].
Qed.

(** What kfree() and kalloc() leave as it was. *)
Definition km_frame (k k' : kmem) (held : list lockid) (e : bool) : Prop :=
  km_ready k' held e ∧ km_use_lock k' = km_use_lock k ∧ same_cpu (h_cpu (km_hw k)) (h_cpu (km_hw k')).

Lemma km_frame_trans k1 k2 k3 held e : km_frame k1 k2 held e → km_frame k2 k3 held e → km_frame k1 k3 held e.
Proof. unfold km_frame, same_cpu. intros (_ & ? & ?) (? & ? & ?). split; [done|]. naive_solver congruence. Qed.

Lemma kfree_spec k l held e v (Q : unit → kmem → Prop) :
  free_list k l → km_ready k held e → page v → v ∉ l →
  (∀ k', free_list k' (v :: l) → km_frame k k' held e →
     (∀ w, w ≠ v → km_mem k' !! w = km_mem k !! w) → Q tt k') →
  wp (kfree v) Q k.
Proof.
  intros [Hl Hn] [D Hf] (Hv & Hal & Hend & Htop) Hin HQ. unfold kfree. wp_step. apply wp_panic_if.
  { rewrite !orb_false_iff, negb_false_iff. split_and!; zlia. }
  unfold fill_junk. do 2 wp_step. eapply (locked_spec _ _ held e); [by split|]. intros h.
  unfold push_page. wp_steps. unfold wp, set_next. simpl. rewrite lookup_insert_eq. simpl.
  split_and!; [done..|]. intros h' Hr Hs Hlk. apply HQ.
  - split; simpl; [|by constructor]. split_and!; [done|done|]. eexists. rewrite lookup_insert_eq.
    split; [done|]. split; [rewrite length_put_le; rewrite length_junk_page; unfold PGSIZE; lia|].
    rewrite get_put; [|rewrite length_junk_page; unfold PGSIZE; lia|by eapply linked_head].
    eapply linked_ext; [|exact Hl]. intros w Hw. by rewrite !lookup_insert_ne by set_solver.
  - split_and!; [done|done|done].
  - intros w Hw. simpl. by rewrite !lookup_insert_ne by done.
Qed.

Lemma kalloc_spec k l held e (Q : Z → kmem → Prop) :
  free_list k l → km_ready k held e →
  (∀ k', free_list k' (tail l) → km_frame k k' held e → km_mem k' = km_mem k → Q (hd 0 l) k') →
  wp kalloc Q k.
Proof.
  intros [Hl Hn] [D Hf] HQ. unfold kalloc. eapply (locked_spec _ _ held e); [by split|]. intros h.
  unfold pop_page. do 2 wp_step. change (km_freelist (k <| km_hw := h |>)) with (km_freelist k).
  destruct l as [|v l]; simpl in Hl.
  - rewrite Hl. simpl. wp_steps. split_and!; [done..|]. intros h' Hr Hs Hlk. apply HQ; [|done|done].
    by split.
  - destruct Hl as (Hh & Hp & pg & Hpg & Hlen & Hl). pose proof Hp as [Hv _]. simpl. rewrite Hh.
    rewrite (proj2 (Z.eqb_neq v 0)) by lia. cbn [negb]. wp_steps. unfold wp, get_next. simpl. rewrite Hpg. simpl.
    split_and!; [done..|]. intros h' Hr Hs Hlk. apply HQ; [|done|done].
    split; [done|]. by apply NoDup_cons in Hn as [_ ?].
Qed.

(** The [n] pages from [p] on. *)
Definition pages (p : Z) (n : nat) : list Z := (λ i, p + PGSIZE * Z.of_nat i) <$> seq 0 n.

Lemma pages_S p n : pages p (S n) = p :: pages (p + PGSIZE) n.
Proof.
  unfold pages. cbn [seq fmap list_fmap]. f_equal; [lia|]. rewrite <- fmap_S_seq, <- list_fmap_compose.
  apply list_fmap_ext. intros i j _. simpl. lia.
Qed.

Lemma elem_of_pages p n v : v ∈ pages p n ↔ ∃ i, (i < n)%nat ∧ v = p + PGSIZE * Z.of_nat i.
Proof.
  unfold pages. rewrite list_elem_of_fmap. setoid_rewrite elem_of_seq. split.
  - intros (i & -> & Hi). exists i. split; [lia|done].
  - intros (i & Hi & ->). exists i. split; [done|lia].
Qed.

Lemma free_loop_spec fuel p vend n k l held e (Q : unit → kmem → Prop) :
  free_list k l → km_ready k held e → n = Z.to_nat ((vend - p) / PGSIZE) → (n < fuel)%nat →
  (∀ v, v ∈ pages p n → page v ∧ v ∉ l) →
  (∀ k', free_list k' (reverse (pages p n) ++ l) → km_frame k k' held e → Q tt k') →
  wp (free_loop fuel p vend) Q k.
Proof.
  revert p n k l. induction fuel as [|fuel IH]; intros p n k l Hl Hr Hn Hfu Hp HQ; [lia|].
  cbn [free_loop]. destruct (p + PGSIZE <=? vend) eqn:Hc; zbool.
  - assert (Hd : (vend - p) / PGSIZE = 1 + (vend - (p + PGSIZE)) / PGSIZE).
    { unfold PGSIZE in *. replace (vend - p) with (1 * 4096 + (vend - (p + 4096))) by lia.
      rewrite Z.div_add_l by lia. lia. }
    assert (0 ≤ (vend - (p + PGSIZE)) / PGSIZE) by (apply Z.div_pos; unfold PGSIZE in *; lia).
    destruct n as [|n]; [lia|]. rewrite pages_S in Hp, HQ. wp_step.
    destruct (Hp p) as [Hpp Hpl]; [set_solver|].
    eapply (kfree_spec k l held e p); [done..|]. intros k1 Hl1 Hf1 _.
    eapply (IH _ n k1 (p :: l)); [done|apply Hf1|lia|lia| |].
    + intros v Hv. destruct (Hp v) as [? ?]; [set_solver|]. split; [done|].
      apply not_elem_of_cons. split; [|done]. intros ->. apply elem_of_pages in Hv as (i & _ & Hi).
      unfold PGSIZE in *. lia.
    + intros k2 Hl2 Hf2. apply HQ.
      * rewrite reverse_cons, <- (assoc_L (++)). done.
      * by eapply km_frame_trans.
  - wp_step. assert (Hd : (vend - p) / PGSIZE < 1) by (apply Z.div_lt_upper_bound; unfold PGSIZE in *; lia).
    replace n with 0%nat in HQ by lia. apply HQ; [done|]. split_and!; [done|done|by repeat split].
Qed.

(** ** Theorems *)

(** Kalloc() and kfree() implement a stack of pages: kfree() of a valid page
    that is not free pushes it and overwrites only that page, kalloc() pops
    the top page and changes no memory, and returns 0 exactly when no page is
    free; so freeing a page and allocating returns that page. *)
Theorem page_stack k l held e v :
  free_list k l → km_ready k held e → page v → v ∉ l →
  wp (kfree v) (λ _ k1, free_list k1 (v :: l) ∧ km_frame k k1 held e ∧
    (∀ w, w ≠ v → km_mem k1 !! w = km_mem k !! w) ∧
    wp kalloc (λ r k2, r = v ∧ free_list k2 l ∧ km_mem k2 = km_mem k1) k1) k ∧
  wp kalloc (λ r k1, (r = 0 ↔ l = []) ∧ r = hd 0 l ∧ free_list k1 (tail l) ∧ km_mem k1 = km_mem k) k.
Proof.
  intros Hl Hr Hp Hv. split.
  - eapply kfree_spec; [done..|]. intros k1 Hl1 Hf1 Hm. split_and!; [done..|].
    eapply kalloc_spec; [done|apply Hf1|]. by intros k2 Hl2 Hf2 Hm2.
  - eapply kalloc_spec; [done..|]. intros k1 Hl1 _ Hm. split_and!; [|done..].
    destruct l as [|w l]; [done|]. simpl. destruct Hl as [(_ & [Hw _] & _) _]. split; [lia|done].
Qed.

(** Kinit1() or kinit2() over [vstart, vend) adds exactly the whole pages of
    that range to the free list, each once. *)
Theorem freerange_correct k l held e vstart vend :
  free_list k l → km_ready k held e → 0 ≤ vstart → vstart ≤ vend → vend ≤ 2 ^ 32 - PGSIZE →
  let p := PGSIZE * ((vstart + PGSIZE - 1) / PGSIZE) in
  (∀ v, v ∈ pages p (Z.to_nat ((vend - p) / PGSIZE)) → page v ∧ v ∉ l) →
  wp (freerange vstart vend) (λ _ k', free_list k' (reverse (pages p (Z.to_nat ((vend - p) / PGSIZE))) ++ l) ∧
    ∀ v, v ∈ pages p (Z.to_nat ((vend - p) / PGSIZE)) ↔ v mod PGSIZE = 0 ∧ vstart ≤ v ∧ v + PGSIZE ≤ vend) k.
Proof.
  intros Hl Hr Hs Hse He p Hp. unfold freerange. rewrite PGROUNDUP_spec by (unfold PGSIZE in *; lia). fold p.
  pose proof (Z.div_mod (vstart + PGSIZE - 1) PGSIZE ltac:(done)) as Hd.
  pose proof (Z.mod_pos_bound (vstart + PGSIZE - 1) PGSIZE ltac:(done)) as Hm.
  assert (Hps : vstart ≤ p < vstart + PGSIZE) by (unfold p, PGSIZE in *; lia).
  eapply (free_loop_spec _ p vend _ k l held e); [done|done|done| |done|].
  { assert ((vend - p) / PGSIZE ≤ vend / PGSIZE) by (apply Z.div_le_mono; unfold PGSIZE in *; lia). lia. }
  intros k' Hl' _. split; [done|]. intros v. rewrite elem_of_pages.
  pose proof (Z.div_mod (vend - p) PGSIZE ltac:(done)) as Hd2.
  pose proof (Z.mod_pos_bound (vend - p) PGSIZE ltac:(done)) as Hm2. split.
  - intros (i & Hi & ->). split; [|unfold PGSIZE in *; lia]. unfold p.
    rewrite <- Z.mul_add_distr_l, Z.mul_comm. apply Z_mod_mult.
  - intros (Ha & Hv1 & Hv2). apply Z.mod_divide in Ha as [q Hq]; [|done].
    set (c := (vstart + PGSIZE - 1) / PGSIZE) in *. exists (Z.to_nat (q - c)).
    unfold p, PGSIZE in *. split; nia.
Qed.

(** ** Clients *)

(** The allocator with the pages its clients hold. A client frees only a
    page it holds. *)
Inductive kstep : kmem * list Z → kmem * list Z → Prop :=
| ks_alloc k a r k' : kalloc k = Done r k' → kstep (k, a) (k', if r =? 0 then a else r :: a)
| ks_free k a v k' : v ∈ a → kfree v k = Done tt k' → kstep (k, a) (k', without v a).

Definition kinv (all : list Z) (held : list lockid) (e : bool) (s : kmem * list Z) : Prop :=
  ∃ l, free_list (fst s) l ∧ km_ready (fst s) held e ∧ (l ++ snd s ≡ₚ all) ∧ Forall page (snd s).

Lemma kstep_inv all held e s s' : NoDup all → kinv all held e s → kstep s s' → kinv all held e s'.
Proof.
  intros Hall (l & Hl & Hr & Hp & Hpg) Hs. destruct Hs as [k a r k' Hk|k a v k' Hv Hk]; simpl in *.
  - assert (H : wp kalloc (λ r k', free_list k' (tail l) ∧ km_frame k k' held e ∧ r = hd 0 l) k)
      by (by eapply kalloc_spec). unfold wp in H. rewrite Hk in H. destruct H as (Hl' & Hf & ->).
    exists (tail l). split_and!; [done|apply Hf| |]; simpl.
    + destruct l as [|w l]; [done|]. destruct Hl as [(_ & [Hw _] & _) _]. simpl.
      rewrite (proj2 (Z.eqb_neq w 0)) by lia. rewrite <- Hp. simpl. by rewrite Permutation_middle.
    + destruct l as [|w l]; [done|]. destruct Hl as [(_ & Hpw & _) _]. simpl.
      destruct (w =? 0); [done|]. by constructor.
  - assert (Hn : NoDup (l ++ a)) by (by rewrite Hp). apply NoDup_app in Hn as (_ & Hd & Hna).
    assert (Hvl : v ∉ l) by (intros ?; by eapply Hd).
    assert (Hpv : page v) by (by eapply (proj1 (Forall_forall _ _) Hpg)).
    assert (H : wp (kfree v) (λ _ k', free_list k' (v :: l) ∧ km_frame k k' held e) k)
      by (by eapply kfree_spec). unfold wp in H. rewrite Hk in H. destruct H as (Hl' & Hf).
    exists (v :: l). split_and!; [done|apply Hf| |]; simpl.
    + rewrite <- Hp. rewrite (without_perm v a) at 2 by done. by rewrite Permutation_middle.
    + apply Forall_forall. intros w [_ Hw]%elem_of_without. by eapply (proj1 (Forall_forall _ _) Hpg).
Qed.

(** Whatever allocations and frees the clients make (each freeing only
    pages it holds), the pages held and the pages free partition the pages the
    allocator started with: no page is handed out twice or lost, kalloc()
    never returns a page a client holds, and fails only when every page is in
    use. *)
Theorem no_double_allocation all held e k0 k a :
  NoDup all → free_list k0 all → km_ready k0 held e → rtc kstep (k0, []) (k, a) →
  NoDup a ∧ (∀ v, v ∈ a → v ∈ all) ∧
  wp kalloc (λ r _, (r ∉ a) ∧ (r = 0 ↔ (a ≡ₚ all))) k.
Proof.
  intros Hn Hl Hr Hs. assert (Hinv : kinv all held e (k, a)).
  { eapply (rtc_invariant kstep (kinv all held e)); [|intros; by eapply kstep_inv|exact Hs].
    exists all. simpl. by rewrite app_nil_r. }
  destruct Hinv as (l & Hl' & Hr' & Hp & Hpg). simpl in *.
  assert (Hna : NoDup (l ++ a)) by (by rewrite Hp). apply NoDup_app in Hna as (_ & Hd & Hna).
  split_and!; [done| |].
  - intros v Hv. rewrite <- Hp. set_solver.
  - eapply kalloc_spec; [done..|]. intros k' _ _ _. destruct l as [|w l]; simpl in *.
    + split; [|done]. intros H0. destruct (proj1 (Forall_forall _ _) Hpg 0 H0) as [? _]. lia.
    + destruct Hl' as [(_ & [Hw _] & _) _]. split; [apply Hd; set_solver|]. split; [lia|].
      intros Ha. exfalso. assert (Hlen : length (w :: l ++ a) = length a) by (by rewrite Hp, Ha).
      simpl in Hlen. rewrite length_app in Hlen. lia.
Qed.
End ops.

(** ** Instances *)

(** Two free pages above a kernel that ends at 0x80110000. *)
Definition kend0 : Z := 2148597760.
Definition page_a : Z := 2149580800.
Definition page_b : Z := 2149584896.
Definition kmem0 : kmem := mkKmem hw0 true 0 ∅.
Definition kmem2 : kmem :=
  mkKmem hw0 true page_a (<[page_a := put_le 4 junk_page 0 page_b]> (<[page_b := put_le 4 junk_page 0 0]> ∅)).

Lemma hw0_ready fl m u : km_ready (mkKmem hw0 u fl m) [] true.
Proof.
  split; [|done]. split; try done; [constructor|]. intros l. split; [set_solver|]. by intros [? ?].
Qed.

Lemma page_ab v : v = page_a ∨ v = page_b → page kend0 v.
Proof. intros [-> | ->]; repeat split; done. Qed.

Lemma kmem2_free : free_list kend0 kmem2 [page_a; page_b].
Proof.
  split; [|repeat constructor; set_solver]. simpl. split_and!; [done|apply page_ab; auto|].
  eexists. split; [apply lookup_insert_eq|]. rewrite length_put_le by (rewrite length_junk_page; unfold PGSIZE; lia).
  split; [apply length_junk_page|]. rewrite get_put; [|rewrite length_junk_page; unfold PGSIZE; lia|done].
  split_and!; [done|apply page_ab; auto|]. eexists. rewrite lookup_insert_ne by done.
  split; [apply lookup_insert_eq|]. rewrite length_put_le by (rewrite length_junk_page; unfold PGSIZE; lia).
  split; [apply length_junk_page|]. rewrite get_put; [done|rewrite length_junk_page; unfold PGSIZE; lia|done].
Qed.

Lemma page_stack_witness :
  wp (kfree kend0 page_a) (λ _ k1, wp kalloc (λ r _, r = page_a) k1) kmem0.
Proof.
  assert (Hl : free_list kend0 kmem0 []) by (split; [done|constructor]).
  pose proof (page_stack kend0 kmem0 [] [] true page_a Hl (hw0_ready _ _ _) (page_ab _ (or_introl eq_refl))
    (not_elem_of_nil _)) as [H _].
  eapply wp_mono; [exact H|]. intros _ k1 (_ & _ & _ & H1). eapply wp_mono; [exact H1|]. by intros r k2 [? _].
Defined.

(** The range from 5 bytes past page_a's predecessor to the middle of a page. *)
Lemma freerange_correct_witness :
  wp (freerange kend0 (page_a - 4091) (page_b + 4196)) (λ _ k', free_list kend0 k' [page_b; page_a]) kmem0.
Proof.
  assert (Hl : free_list kend0 kmem0 []) by (split; [done|constructor]).
  eapply wp_mono; [apply (freerange_correct kend0 kmem0 [] [] true _ _ Hl (hw0_ready _ _ _)); try done|].
  - intros v Hv. split; [|set_solver]. apply page_ab. vm_compute in Hv.
    apply elem_of_cons in Hv as [->|Hv]; [by left|right]. by apply list_elem_of_singleton in Hv.
  - intros _ k' [H _]. exact H.
Defined.

Lemma no_double_allocation_witness :
  wp kalloc (λ r k1, r = page_a ∧ wp kalloc (λ r2 _, r2 ∉ [page_a]) k1) kmem2.
Proof.
  assert (Hk : wp kalloc (λ r k1, r = page_a) kmem2).
  { eapply kalloc_spec; [apply kmem2_free|apply hw0_ready|]. done. }
  apply wp_done in Hk as (r & k1 & Hk & ->). unfold wp at 1. rewrite Hk. split; [done|].
  assert (Hn : NoDup [page_a; page_b]) by (repeat constructor; set_solver).
  pose proof (no_double_allocation kend0 [page_a; page_b] [] true kmem2 k1 [page_a] Hn kmem2_free
    (hw0_ready _ _ _) (rtc_once _ _ (ks_alloc kend0 _ [] _ _ Hk))) as (_ & _ & H).
  eapply wp_mono; [exact H|]. by intros r2 k2 [? _].
Defined.
