(* ===== verification/Vm.v ===== *)
(** * Page tables (vm.c)

    A page directory and its page tables are pages of 1024 entries of four
    bytes; the operations run on the page allocator and its memory. *)

From S2P Require Import Prelude Bytes Mem Spinlock Kalloc.

Definition EXTMEM : Z := 1048576.
Definition DEVSPACE : Z := 4261412864.
Definition KERNLINK : Z := KERNBASE + EXTMEM.
Definition NPDENTRIES : nat := 1024.
Definition NPTENTRIES : Z := 1024.

Definition PTE_P : Z := 1.
Definition PTE_W : Z := 2.
Definition PTE_U : Z := 4.

Definition PDX (va : Z) : Z := Z.land (Z.shiftr va 22) 1023.
Definition PTX (va : Z) : Z := Z.land (Z.shiftr va 12) 1023.
Definition PTE_ADDR (pte : Z) : Z := Z.land (u32 pte) 4294963200.
Definition PTE_FLAGS (pte : Z) : Z := Z.land (u32 pte) 4095.

Definition flag (pte f : Z) : bool := negb (Z.land pte f =? 0).

Section vm.
(** [kend]: the end of the kernel; [kdata]: the start of its data. *)
Context (kend kdata : Z).
Abbreviation K := (M kmem).

(** ** Memory *)

Definition base (a : Z) : Z := a - a mod PGSIZE.

(** The page at a kernel address. *)
Definition rd_page (v : Z) : K (list Z) := λ k,
  match km_mem k !! v with Some pg => Done pg k | None => Fault k end.
Definition wr_page (v : Z) (pg : list Z) : K unit := λ k,
  match km_mem k !! v with
  | Some _ => Done tt (k <| km_mem ::= λ m, <[v := pg]> m |>)
  | None => Fault k
  end.

(** A word at a kernel address. *)
Definition rd32 (a : Z) : K Z := pg ← rd_page (base a); mret (get_le 4 pg (Z.to_nat (a mod PGSIZE))).
Definition wr32 (a v : Z) : K unit :=
  pg ← rd_page (base a);
  wr_page (base a) (put_le 4 pg (Z.to_nat (a mod PGSIZE)) v).

Definition zero_page : list Z := replicate (Z.to_nat PGSIZE) 0.

(** ** The operations *)

Definition walkpgdir (pgdir va : Z) (alloc : bool) : K Z :=
  let pde := pgdir + 4 * PDX va in
  e ← rd32 pde;
  if flag e PTE_P then mret (p2v (PTE_ADDR e) + 4 * PTX va)
  else if negb alloc then mret 0
  else
    pgtab ← kalloc;
    if pgtab =? 0 then mret 0
    else
      wr_page pgtab zero_page;;
      wr32 pde (Z.lor (Z.lor (Z.lor (v2p pgtab) PTE_P) PTE_W) PTE_U);;
      mret (pgtab + 4 * PTX va).

(** The loop of mappages(): [n] more pages after the one at [a]. *)
Fixpoint map_loop (n : nat) (pgdir a pa perm : Z) : K Z :=
  pte ← walkpgdir pgdir a true;
  if pte =? 0 then mret (-1)
  else
    e ← rd32 pte;
    panic_if (flag e PTE_P) "remap";;
    wr32 pte (Z.lor (Z.lor pa perm) PTE_P);;
    match n with
    | O => mret 0
    | S n => map_loop n pgdir (u32 (a + PGSIZE)) (u32 (pa + PGSIZE)) perm
    end.

Definition mappages (pgdir va size pa perm : Z) : K Z :=
  let a := PGROUNDDOWN va in
  let last := PGROUNDDOWN (u32 (u32 (va + size) - 1)) in
  map_loop (Z.to_nat (u32 (last - a) / PGSIZE)) pgdir a pa perm.

(** kmap[]: virtual address, physical start and end, permissions. *)
Definition kmap : list (Z * Z * Z * Z) :=
  [(KERNBASE, 0, EXTMEM, PTE_W);
   (KERNLINK, v2p KERNLINK, v2p kdata, 0);
   (kdata, v2p kdata, PHYSTOP, PTE_W);
   (DEVSPACE, DEVSPACE, 0, PTE_W)].

Fixpoint kmap_loop (l : list (Z * Z * Z * Z)) (pgdir : Z) : K bool :=
  match l with
  | [] => mret true
  | (virt, start, stop, perm) :: l =>
    r ← mappages pgdir virt (u32 (stop - start)) start perm;
    if r <? 0 then mret false else kmap_loop l pgdir
  end.

Definition setupkvm : K Z :=
  pgdir ← kalloc;
  if pgdir =? 0 then mret 0
  else
    wr_page pgdir zero_page;;
    panic_if (DEVSPACE <? p2v PHYSTOP) "PHYSTOP too high";;
    ok ← kmap_loop kmap pgdir;
    if (ok : bool) then mret pgdir else mret 0.

(** memmove() of [src] to the kernel address [a], within a page. *)
Definition copy_to (a : Z) (src : list Z) : K unit :=
  pg ← rd_page (base a);
  wr_page (base a) (splice pg (Z.to_nat (a mod PGSIZE)) src).

Definition inituvm (pgdir : Z) (init : list Z) : K unit :=
  panic_if (PGSIZE <=? Z.of_nat (length init)) "inituvm: more than a page";;
  mem ← kalloc;
  wr_page mem zero_page;;
  _ ← mappages pgdir 0 PGSIZE (v2p mem) (Z.lor PTE_W PTE_U);
  copy_to mem init.

(** The loop of deallocuvm(). *)
Fixpoint dealloc_loop (fuel : nat) (pgdir a oldsz : Z) : K unit :=
  if a <? oldsz then
    match fuel with
    | O => nofuel
    | S fuel =>
      pte ← walkpgdir pgdir a false;
      if pte =? 0 then dealloc_loop fuel pgdir (u32 (a + (NPTENTRIES - 1) * PGSIZE + PGSIZE)) oldsz
      else
        e ← rd32 pte;
        (if flag e PTE_P then
           panic_if (PTE_ADDR e =? 0) "kfree";;
           kfree kend (p2v (PTE_ADDR e));;
           wr32 pte 0
         else mret tt);;
        dealloc_loop fuel pgdir (u32 (a + PGSIZE)) oldsz
    end
  else mret tt.

(** The fuel is the number of pages below oldsz. *)
Definition deallocuvm (pgdir oldsz newsz : Z) : K Z :=
  if oldsz <=? newsz then mret oldsz
  else
    dealloc_loop (Z.to_nat (oldsz / PGSIZE + 1)) pgdir (PGROUNDUP newsz) oldsz;;
    mret newsz.

(** The loop of allocuvm(); the result says whether memory sufficed. *)
Fixpoint alloc_loop (fuel : nat) (pgdir a newsz : Z) : K bool :=
  if a <? newsz then
    match fuel with
    | O => nofuel
    | S fuel =>
      mem ← kalloc;
      if mem =? 0 then mret false
      else
        wr_page mem zero_page;;
        _ ← mappages pgdir a PGSIZE (v2p mem) (Z.lor PTE_W PTE_U);
        alloc_loop fuel pgdir (u32 (a + PGSIZE)) newsz
    end
  else mret true.

Definition allocuvm (pgdir oldsz newsz : Z) : K Z :=
  if KERNBASE <=? newsz then mret 0
  else if newsz <? oldsz then mret oldsz
  else
    ok ← alloc_loop (Z.to_nat (newsz / PGSIZE + 1)) pgdir (PGROUNDUP oldsz) newsz;
    if (ok : bool) then mret newsz
    else _ ← deallocuvm pgdir newsz oldsz; mret 0.

(** The loop of freevm() over the page directory. *)
Fixpoint free_tables (n : nat) (pgdir : Z) (i : Z) : K unit :=
  match n with
  | O => mret tt
  | S n =>
    e ← rd32 (pgdir + 4 * i);
    when (flag e PTE_P) (kfree kend (p2v (PTE_ADDR e)));;
    free_tables n pgdir (i + 1)
  end.

Definition freevm (pgdir : Z) : K unit :=
  panic_if (pgdir =? 0) "freevm: no pgdir";;
  _ ← deallocuvm pgdir KERNBASE 0;
  free_tables NPDENTRIES pgdir 0;;
  kfree kend pgdir.

Definition clearpteu (pgdir uva : Z) : K unit :=
  pte ← walkpgdir pgdir uva false;
  panic_if (pte =? 0) "clearpteu";;
  e ← rd32 pte;
  wr32 pte (Z.ldiff e PTE_U).

(** The loop of copyuvm(); false means bad. *)
Fixpoint copy_loop (fuel : nat) (pgdir d i sz : Z) : K bool :=
  if i <? sz then
    match fuel with
    | O => nofuel
    | S fuel =>
      pte ← walkpgdir pgdir i false;
      panic_if (pte =? 0) "copyuvm: pte should exist";;
      e ← rd32 pte;
      panic_if (negb (flag e PTE_P)) "copyuvm: page not present";;
      mem ← kalloc;
      if mem =? 0 then mret false
      else
        pg ← rd_page (p2v (PTE_ADDR e));
        wr_page mem pg;;
        r ← mappages d i PGSIZE (v2p mem) (PTE_FLAGS e);
        if r <? 0 then mret false else copy_loop fuel pgdir d (u32 (i + PGSIZE)) sz
    end
  else mret true.

Definition copyuvm (pgdir sz : Z) : K Z :=
  d ← setupkvm;
  if d =? 0 then mret 0
  else
    ok ← copy_loop (Z.to_nat (sz / PGSIZE + 1)) pgdir d 0 sz;
    if (ok : bool) then mret d else freevm d;; mret 0.

(** The entry is read at whatever address walkpgdir() returned, 0 included. *)
Definition uva2ka (pgdir uva : Z) : K Z :=
  pte ← walkpgdir pgdir uva false;
  e ← rd32 pte;
  if negb (flag e PTE_P) then mret 0
  else if negb (flag e PTE_U) then mret 0
  else mret (p2v (PTE_ADDR e)).

(** The loop of copyout() over the bytes [buf]. *)
Fixpoint copyout_loop (fuel : nat) (pgdir va : Z) (buf : list Z) : K Z :=
  match buf with
  | [] => mret 0
  | _ =>
    match fuel with
    | O => nofuel
    | S fuel =>
      let va0 := PGROUNDDOWN va in
      pa0 ← uva2ka pgdir va0;
      if pa0 =? 0 then mret (-1)
      else
        let n := Z.min (PGSIZE - (va - va0)) (Z.of_nat (length buf)) in
        copy_to (pa0 + (va - va0)) (take (Z.to_nat n) buf);;
        copyout_loop fuel pgdir (u32 (va0 + PGSIZE)) (drop (Z.to_nat n) buf)
    end
  end.

Definition copyout (pgdir va : Z) (p : list Z) : K Z :=
  copyout_loop (S (S (length p / Z.to_nat PGSIZE))) pgdir va p.
End vm.
