(* ===== verification/VmMap.v ===== *)
(** * What a page directory maps

    [pte_at] is the entry of a page number, if it is present: walkpgdir() and
    mappages() in terms of it, and the theorems about page tables that follow. *)

From S2P Require Import Prelude Bytes Mem Spinlock Kalloc Vm.

(** ** Entries *)

Definition ent (pg : list Z) (i : Z) : Z := get_le 4 pg (Z.to_nat (4 * i)).
Definition set_ent (pg : list Z) (i v : Z) : list Z := put_le 4 pg (Z.to_nat (4 * i)) v.

(** The address in an entry, as a kernel address. *)
Definition tab (e : Z) : Z := p2v (PTE_ADDR e).

Lemma ent_set pg i j v : length pg = Z.to_nat PGSIZE → 0 ≤ i < 1024 → 0 ≤ j < 1024 → 0 ≤ v < 2 ^ 32 →
  ent (set_ent pg i v) j = if decide (j = i) then v else ent pg j.
Proof.
  intros Hl Hi Hj Hv. unfold ent, set_ent. unfold PGSIZE in Hl. case_decide as Hd.
  - subst. apply get_put; [lia|done].
  - apply get_put_ne; lia.
Qed.

Lemma length_set_ent pg i v : length pg = Z.to_nat PGSIZE → 0 ≤ i < 1024 → length (set_ent pg i v) = Z.to_nat PGSIZE.
Proof. intros Hl Hi. unfold set_ent. unfold PGSIZE in *. rewrite length_put_le; lia. Qed.

Lemma ent_zero i : ent zero_page i = 0.
Proof.
  unfold ent, get_le, zero_page. rewrite drop_replicate, take_replicate. induction (4 `min` _)%nat as [|m IH]; [done|]. simpl. by rewrite IH.
Qed.

Lemma length_zero_page : length zero_page = Z.to_nat PGSIZE.
Proof. apply length_replicate. Qed.
#[global] Opaque zero_page.

(** Page numbers and the two indices. *)
Lemma PDX_page va : 0 ≤ va < 2 ^ 32 → PDX va = va / PGSIZE / 1024 ∧ 0 ≤ PDX va < 1024.
Proof.
  intros Hva. unfold PDX. rewrite Z.shiftr_div_pow2 by lia. change 1023 with (Z.ones 10). rewrite Z.land_ones by lia.
  unfold PGSIZE. rewrite Z.div_div by lia. change (4096 * 1024) with (2 ^ 22).
  assert (0 ≤ va / 2 ^ 22 < 2 ^ 10) by (split; [apply Z.div_pos; lia|apply Z.div_lt_upper_bound; lia]).
  rewrite Z.mod_small by lia. lia.
Qed.

Lemma PTX_page va : 0 ≤ va < 2 ^ 32 → PTX va = (va / PGSIZE) mod 1024 ∧ 0 ≤ PTX va < 1024.
Proof.
  intros Hva. unfold PTX. rewrite Z.shiftr_div_pow2 by lia. change 1023 with (Z.ones 10). rewrite Z.land_ones by lia.
  split; [done|]. apply Z.mod_pos_bound. lia.
Qed.

Lemma entry_address v i : v mod PGSIZE = 0 → 0 ≤ i < 1024 → base (v + 4 * i) = v ∧ (v + 4 * i) mod PGSIZE = 4 * i.
Proof.
  intros Hv Hi. assert (Hm : (v + 4 * i) mod PGSIZE = 4 * i).
  { rewrite Z.add_mod, Hv, Z.add_0_l, Z.mod_mod by done. apply Z.mod_small. unfold PGSIZE. lia. }
  split; [|done]. unfold base. rewrite Hm. lia.
Qed.

(** An entry made of the address of a page and flags. *)
Lemma lor_flags p f : 0 ≤ p < 2 ^ 32 → p mod PGSIZE = 0 → 0 ≤ f < PGSIZE → Z.lor p f = p + f ∧ 0 ≤ p + f < 2 ^ 32.
Proof.
  intros Hp Hm Hf. change PGSIZE with (2 ^ 12) in *. apply Z.mod_divide in Hm as [q ->]; [|lia].
  split; [|lia]. rewrite <- Z.shiftl_mul_pow2 by lia. symmetry. rewrite Z.add_nocarry_lxor; [apply Z.lxor_lor|].
  all: apply Z.bits_inj'; intros n Hn; rewrite Z.land_spec, Z.bits_0; destruct (decide (n < 12)).
  1,3: rewrite Z.shiftl_spec_low by lia; done.
  all: rewrite andb_comm, Z.bits_above_log2; [done|lia|]; destruct (decide (f = 0)) as [->|]; [simpl; lia|];
    apply Z.log2_lt_pow2; [lia|]; apply Z.lt_le_trans with (2 ^ 12); [lia|]; apply Z.pow_le_mono_r; lia.
Qed.

Lemma lor_bound f g : 0 ≤ f < PGSIZE → 0 ≤ g < PGSIZE → 0 ≤ Z.lor f g < PGSIZE.
Proof.
  intros Hf Hg. assert (0 ≤ Z.lor f g) by (apply Z.lor_nonneg; lia). split; [done|]. change PGSIZE with (2 ^ 12) in *.
  destruct (decide (Z.lor f g = 0)) as [->|Hne]; [done|]. apply Z.log2_lt_pow2; [lia|]. rewrite Z.log2_lor by lia.
  assert (Hlog : ∀ z, 0 ≤ z < 2 ^ 12 → Z.log2 z < 12).
  { intros z Hz. destruct (decide (z = 0)) as [->|]; [done|]. apply Z.log2_lt_pow2; lia. }
  by apply Z.max_lub_lt; apply Hlog.
Qed.

Lemma PTE_ADDR_add p f : 0 ≤ p < 2 ^ 32 → p mod PGSIZE = 0 → 0 ≤ f < PGSIZE → PTE_ADDR (p + f) = p.
Proof.
  intros Hp Hm Hf. destruct (lor_flags p f Hp Hm Hf) as [_ Hr]. unfold PTE_ADDR. rewrite u32_small by done. rewrite land_pgmask by done.
  apply Z.mod_divide in Hm as [q ->]; [|done]. rewrite (Z.add_comm (q * PGSIZE)), Z.div_add, Z.div_small by done. lia.
Qed.

Lemma flag_add p f g : 0 ≤ p < 2 ^ 32 → p mod PGSIZE = 0 → 0 ≤ f < PGSIZE → 0 ≤ g < PGSIZE → flag (p + f) g = flag f g.
Proof.
  intros Hp Hm Hf Hg. destruct (lor_flags p f Hp Hm Hf) as [<- _]. unfold flag. do 2 f_equal.
  rewrite Z.land_lor_distr_l. replace (Z.land p g) with 0; [done|]. change PGSIZE with (2 ^ 12) in *.
  apply Z.mod_divide in Hm as [q ->]; [|lia]. rewrite <- Z.shiftl_mul_pow2 by lia. symmetry.
  apply Z.bits_inj'. intros n Hn. rewrite Z.land_spec, Z.bits_0. destruct (decide (n < 12)); [by rewrite Z.shiftl_spec_low by lia|].
  rewrite andb_comm, Z.bits_above_log2; [done|lia|]. destruct (decide (g = 0)) as [->|]; [simpl; lia|].
  apply Z.log2_lt_pow2; [lia|]. apply Z.lt_le_trans with (2 ^ 12); [lia|]. apply Z.pow_le_mono_r; lia.
Qed.

Section dir.
Context (kend : Z) (Hkend : KERNBASE ≤ kend) (held : list lockid) (en : bool).
Abbreviation page := (page kend).
Abbreviation free_list := (free_list kend).
Implicit Types (m : memory) (k : kmem) (F : list Z).

Lemma page_v2p v : page v → 0 ≤ v2p v < 2 ^ 32 ∧ v2p v mod PGSIZE = 0 ∧ p2v (v2p v) = v.
Proof.
  intros (Hv & Ha & He & Ht). unfold v2p, p2v, KERNBASE, PGSIZE in *. rewrite u32_small in * by lia. split; [lia|].
  rewrite u32_small by lia. split; [|lia]. rewrite Zminus_mod, Ha. done.
Qed.

Lemma tab_entry v f : page v → 0 ≤ f < PGSIZE → tab (v2p v + f) = v.
Proof. intros Hv Hf. destruct (page_v2p v Hv) as (H1 & H2 & H3). unfold tab. by rewrite PTE_ADDR_add. Qed.

(** A page directory whose page tables are pages of their own, not free. *)
Record dir_ok m (pgdir : Z) F (pd : list Z) : Prop := {
  dr_page : page pgdir;
  dr_at : m !! pgdir = Some pd;
  dr_len : length pd = Z.to_nat PGSIZE;
  dr_used : pgdir ∉ F;
  dr_tab : ∀ i, 0 ≤ i < 1024 → flag (ent pd i) PTE_P = true →
    page (tab (ent pd i)) ∧ (tab (ent pd i) ∉ F) ∧ tab (ent pd i) ≠ pgdir ∧
    ∃ tb, m !! tab (ent pd i) = Some tb ∧ length tb = Z.to_nat PGSIZE;
  dr_inj : ∀ i j, 0 ≤ i < 1024 → 0 ≤ j < 1024 → flag (ent pd i) PTE_P = true → flag (ent pd j) PTE_P = true →
    tab (ent pd i) = tab (ent pd j) → i = j;
}.

(** The page table for page number [q]. *)
Definition table (pd : list Z) (q : Z) : option Z :=
  if flag (ent pd (q / 1024)) PTE_P then Some (tab (ent pd (q / 1024))) else None.

(** The entry of page number [q], if it is present. *)
Definition pte_at m (pd : list Z) (q : Z) : option Z :=
  t ← table pd q; tb ← m !! t;
  if flag (ent tb (q mod 1024)) PTE_P then Some (ent tb (q mod 1024)) else None.

(** The pages that make up the structure. *)
Definition own_page (pgdir : Z) (pd : list Z) (v : Z) : Prop :=
  v = pgdir ∨ ∃ i, 0 ≤ i < 1024 ∧ flag (ent pd i) PTE_P = true ∧ v = tab (ent pd i).

Lemma page_index q : 0 ≤ q < 2 ^ 20 → 0 ≤ q / 1024 < 1024 ∧ 0 ≤ q mod 1024 < 1024.
Proof.
  intros Hq. pose proof (Z.mod_pos_bound q 1024). split; [|lia].
  split; [apply Z.div_pos; lia|apply Z.div_lt_upper_bound; lia].
Qed.

Lemma same_index q q' : q / 1024 = q' / 1024 → q mod 1024 = q' mod 1024 → q = q'.
Proof. intros H1 H2. rewrite (Z.div_mod q 1024), (Z.div_mod q' 1024) by lia. lia. Qed.

(** The structure depends only on its own pages. *)
Lemma pte_at_ext m m' pgdir F pd q : dir_ok m pgdir F pd → 0 ≤ q < 2 ^ 20 →
  (∀ v, own_page pgdir pd v → m' !! v = m !! v) → pte_at m' pd q = pte_at m pd q.
Proof.
  intros D Hq H. destruct (page_index q Hq) as [Hi _]. unfold pte_at, table. destruct (flag _ _) eqn:Hf; [|done]. simpl.
  rewrite H; [done|]. right. by exists (q / 1024).
Qed.

Lemma dir_ok_ext m m' pgdir F F' pd : dir_ok m pgdir F pd → (∀ v, own_page pgdir pd v → m' !! v = m !! v) →
  (∀ v, v ∈ F' → v ∈ F ∨ ¬ own_page pgdir pd v) → dir_ok m' pgdir F' pd.
Proof.
  intros [D1 D2 D3 D4 D5 D6] Hm HF.
  assert (Hout : ∀ v, own_page pgdir pd v → v ∉ F → v ∉ F') by (intros v Ho Hn Hin; destruct (HF v Hin); done).
  split; try done.
  - rewrite Hm; [done|by left].
  - apply Hout; [by left|done].
  - intros i Hi Hf. destruct (D5 i Hi Hf) as (H1 & H2 & H3 & tb & H4 & H5).
    assert (Ho : own_page pgdir pd (tab (ent pd i))) by (right; by exists i).
    split_and!; [done|by apply Hout|done|]. exists tb. by rewrite Hm.
Qed.

(** ** walkpgdir() *)

Lemma wp_rd_page k v pg (Q : list Z → kmem → Prop) : km_mem k !! v = Some pg → Q pg k → wp (rd_page v) Q k.
Proof. intros H HQ. unfold wp, rd_page. by rewrite H. Qed.
Lemma wp_wr_page k v pg pg' (Q : unit → kmem → Prop) :
  km_mem k !! v = Some pg → Q tt (k <| km_mem ::= λ m, <[v := pg']> m |>) → wp (wr_page v pg') Q k.
Proof. intros H HQ. unfold wp, wr_page. by rewrite H. Qed.

Lemma wp_rd32 k v i pg (Q : Z → kmem → Prop) : v mod PGSIZE = 0 → 0 ≤ i < 1024 → km_mem k !! v = Some pg →
  Q (ent pg i) k → wp (rd32 (v + 4 * i)) Q k.
Proof.
  intros Hv Hi Hpg HQ. destruct (entry_address v i Hv Hi) as [Hb Hm]. unfold rd32. rewrite Hb, Hm.
  apply wp_bind. eapply wp_rd_page; [done|]. by apply wp_ret.
Qed.

Lemma wp_wr32 k v i x pg (Q : unit → kmem → Prop) : v mod PGSIZE = 0 → 0 ≤ i < 1024 → km_mem k !! v = Some pg →
  Q tt (k <| km_mem ::= λ m, <[v := set_ent pg i x]> m |>) → wp (wr32 (v + 4 * i) x) Q k.
Proof.
  intros Hv Hi Hpg HQ. destruct (entry_address v i Hv Hi) as [Hb Hm]. unfold wr32. rewrite Hb, Hm.
  apply wp_bind. eapply wp_rd_page; [done|]. by eapply wp_wr_page.
Qed.

(** The state of an address space: the memory, the free pages and the
    directory. *)
Record space k F (pgdir : Z) (pd : list Z) : Prop := {
  sp_free : free_list k F;
  sp_ready : km_ready k held en;
  sp_dir : dir_ok (km_mem k) pgdir F pd;
}.

(** What did not change: pages outside the structure that were not free. *)
Definition kept k k' F pgdir pd : Prop := ∀ v, v ∉ F → ¬ own_page pgdir pd v → km_mem k' !! v = km_mem k !! v.

Lemma page_pos v : page v → v ≠ 0 ∧ v mod PGSIZE = 0.
Proof. intros (? & ? & _). split; [lia|done]. Qed.

(** A new, empty table at page [v]. *)
Lemma new_table m pgdir v F pd i : dir_ok m pgdir (v :: F) pd → page v → v ∉ F → 0 ≤ i < 1024 → flag (ent pd i) PTE_P = false →
  let e := v2p v + 7 in let pd' := set_ent pd i e in
  let m' := <[pgdir := pd']> (<[v := zero_page]> m) in
  dir_ok m' pgdir F pd' ∧ tab (ent pd' i) = v ∧ flag (ent pd' i) PTE_P = true ∧
  (∀ q, 0 ≤ q < 2 ^ 20 → pte_at m' pd' q = pte_at m pd q) ∧
  (∀ w, own_page pgdir pd' w ↔ own_page pgdir pd w ∨ w = v).
Proof.
  intros [D1 D2 D3 D4 D5 D6] Hv HvF Hi Hf e pd' m'. destruct (page_v2p v Hv) as (Hp1 & Hp2 & Hp3).
  destruct (lor_flags (v2p v) 7 Hp1 Hp2 ltac:(done)) as [_ He].
  assert (Hent : ∀ j, 0 ≤ j < 1024 → ent pd' j = if decide (j = i) then e else ent pd j) by (intros j Hj; by apply ent_set).
  assert (Htab : tab e = v) by (by apply tab_entry). assert (Hfe : flag e PTE_P = true) by (unfold e; by rewrite flag_add).
  apply not_elem_of_cons in D4 as [Hvp HpF].
  assert (Hold : ∀ j, 0 ≤ j < 1024 → flag (ent pd j) PTE_P = true → tab (ent pd j) ≠ v).
  { intros j Hj Hfj Ht. destruct (D5 j Hj Hfj) as (_ & [H _]%not_elem_of_cons & _). done. }
  assert (Hzl : length zero_page = Z.to_nat PGSIZE) by apply length_zero_page.
  split_and!; [split| | | |].
  - done.
  - apply lookup_insert_eq.
  - by apply length_set_ent.
  - done.
  - intros j Hj. rewrite Hent by done. case_decide as Hd; intros Hfj.
    + subst j. rewrite Htab. split_and!; [done|done|done|]. exists zero_page. unfold m'. rewrite lookup_insert_ne, lookup_insert_eq by done. done.
    + destruct (D5 j Hj Hfj) as (H1 & [_ H2]%not_elem_of_cons & H3 & tb & H4 & H5). split_and!; [done|done|done|]. exists tb. split; [|done].
      unfold m'. rewrite !lookup_insert_ne by (done || (symmetry; by apply Hold)). done.
  - intros j j' Hj Hj'. rewrite !Hent by done. case_decide as Hd1; case_decide as Hd2; intros H1 H2 Ht; [congruence| | |by apply D6].
    + exfalso. apply (Hold j'); congruence.
    + exfalso. apply (Hold j); congruence.
  - rewrite Hent, decide_True by done. done.
  - rewrite Hent, decide_True by done. done.
  - intros q Hq. destruct (page_index q Hq) as [Hq1 Hq2]. unfold pte_at, table. rewrite Hent by done. case_decide as Hd.
    + rewrite Hd, Hf, Hfe. simpl. rewrite Htab. unfold m'. rewrite lookup_insert_ne, lookup_insert_eq by done. simpl.
      by rewrite ent_zero.
    + destruct (flag (ent pd (q / 1024)) PTE_P) eqn:Hfq; [|done]. simpl. unfold m'.
      destruct (D5 _ Hq1 Hfq) as (_ & _ & Hnp & _). rewrite !lookup_insert_ne; [done| |done]. symmetry. by apply Hold.
  - intros w. unfold own_page. split.
    + intros [->|(j & Hj & Hfj & ->)]; [by left; left|]. rewrite Hent in * by done. case_decide; [by right|]. left. right. by exists j.
    + intros [[->|(j & Hj & Hfj & ->)]| ->]; [by left| |].
      * right. exists j. rewrite Hent by done. case_decide; [congruence|done].
      * right. exists i. rewrite Hent, decide_True by done. done.
Qed.

(** The result of a walk: a table for page [q], the same mappings. *)
Record walked k F pgdir pd (q : Z) k' F' pd' : Prop := {
  wk_space : space k' F' pgdir pd';
  wk_free : F' = F ∨ F' = tail F;
  wk_table : ∃ t, table pd' q = Some t;
  wk_same : ∀ q', 0 ≤ q' < 2 ^ 20 → pte_at (km_mem k') pd' q' = pte_at (km_mem k) pd q';
  wk_own : ∀ v, own_page pgdir pd' v → own_page pgdir pd v ∨ v ∈ F;
  wk_all : ∀ v, own_page pgdir pd v ∨ v ∈ F → own_page pgdir pd' v ∨ v ∈ F';
  wk_kept : kept k k' F pgdir pd;
}.

Lemma flags7 p : 0 ≤ p < 2 ^ 32 → p mod PGSIZE = 0 → Z.lor (Z.lor (Z.lor p PTE_P) PTE_W) PTE_U = p + 7.
Proof. intros Hp Hm. rewrite <- !Z.lor_assoc. change (Z.lor PTE_P (Z.lor PTE_W PTE_U)) with 7. by apply (lor_flags p 7). Qed.

Lemma walk_spec k F pgdir pd va alloc (Q : Z → kmem → Prop) :
  space k F pgdir pd → 0 ≤ va < 2 ^ 32 →
  (∀ t, table pd (va / PGSIZE) = Some t → Q (t + 4 * PTX va) k) →
  (table pd (va / PGSIZE) = None → alloc = false ∨ F = [] → ∀ k', space k' F pgdir pd → km_mem k' = km_mem k → Q 0 k') →
  (table pd (va / PGSIZE) = None → alloc = true → ∀ k' F' pd' t, walked k F pgdir pd (va / PGSIZE) k' F' pd' →
     table pd' (va / PGSIZE) = Some t → Q (t + 4 * PTX va) k') →
  wp (walkpgdir pgdir va alloc) Q k.
Proof.
  intros [HF Hr D] Hva Hhit Hnone Hnew. destruct (PDX_page va Hva) as [Hx Hxr]. destruct (page_pos _ (dr_page _ _ _ _ D)) as [_ Hal].
  unfold walkpgdir. apply wp_bind. eapply wp_rd32; [done|done|apply D|]. unfold table in *. rewrite Hx.
  destruct (flag (ent pd (va / PGSIZE / 1024)) PTE_P) eqn:Hf; [apply wp_ret; by apply Hhit|].
  destruct alloc; simpl; [|apply wp_ret; apply Hnone; [done|by left|by split|done]].
  apply wp_bind. eapply (kalloc_spec kend k F); [done|done|]. intros k1 HF1 Hfr Hm1.
  destruct F as [|v F]; simpl in *.
  { apply wp_ret, Hnone; [done|by right| |done]. split; [done|apply Hfr|by rewrite Hm1]. }
  destruct HF as [(Hh & Hpv & pg & Hpg & Hlen & Hlink) Hnd]. destruct (page_pos v Hpv) as [Hv0 Hva0]. rewrite (proj2 (Z.eqb_neq v 0)) by done.
  apply NoDup_cons in Hnd as [HvF Hnd].
  destruct (page_v2p v Hpv) as (Hp1 & Hp2 & Hp3). rewrite flags7 by done.
  destruct (new_table (km_mem k) pgdir v F pd (va / PGSIZE / 1024) D Hpv HvF ltac:(lia) Hf) as (D' & Ht & Hfe & Hsame & Hown).
  apply wp_bind. eapply wp_wr_page; [by rewrite Hm1|]. apply wp_bind. eapply wp_wr32; [done|lia| |].
  { simpl. rewrite Hm1, lookup_insert_ne; [apply D|]. intros ->. apply (dr_used _ _ _ _ D). set_solver. }
  apply wp_ret. eapply (Hnew eq_refl eq_refl _ F (set_ent pd (va / PGSIZE / 1024) (v2p v + 7))); [|by rewrite Hfe, Ht].
  assert (Hvg : v ≠ pgdir) by (intros ->; apply (dr_used _ _ _ _ D); set_solver).
  split; simpl; rewrite ?Hm1.
  - split; simpl; rewrite ?Hm1; [|apply Hfr|exact D']. destruct HF1 as [Hl1 Hn1]. split; [|done]. simpl. rewrite Hm1 in Hl1.
    rewrite Hm1. eapply linked_ext; [|exact Hl1]. intros w Hw. rewrite !lookup_insert_ne; [done| |].
    + intros ->. done.
    + intros ->. apply (dr_used _ _ _ _ D). set_solver.
  - by right.
  - unfold table. rewrite Hfe. by eexists.
  - exact Hsame.
  - intros w [Hw| ->]%Hown; [by left|right; set_solver].
  - intros w. rewrite Hown. set_solver.
  - intros w Hw Ho. simpl. rewrite Hm1. rewrite !lookup_insert_ne; [done|set_solver|]. intros ->. apply Ho. by left.
Qed.

(** ** Writing an entry *)

Lemma table_own m pgdir F pd q t : dir_ok m pgdir F pd → 0 ≤ q < 2 ^ 20 → table pd q = Some t →
  own_page pgdir pd t ∧ page t ∧ (t ∉ F) ∧ t ≠ pgdir ∧ ∃ tb, m !! t = Some tb ∧ length tb = Z.to_nat PGSIZE.
Proof.
  intros D Hq. destruct (page_index q Hq) as [Hi _]. unfold table. destruct (flag _ _) eqn:Hf; [|done]. intros [= <-].
  split; [right; by exists (q / 1024)|]. by apply (dr_tab _ _ _ _ D).
Qed.

Lemma set_pte m pgdir F pd q t tb x :
  dir_ok m pgdir F pd → 0 ≤ q < 2 ^ 20 → table pd q = Some t → m !! t = Some tb → 0 ≤ x < 2 ^ 32 →
  let m' := <[t := set_ent tb (q mod 1024) x]> m in
  dir_ok m' pgdir F pd ∧ ∀ q', 0 ≤ q' < 2 ^ 20 →
    pte_at m' pd q' = if decide (q' = q) then (if flag x PTE_P then Some x else None) else pte_at m pd q'.
Proof.
  intros D Hq Ht Htb Hx m'. destruct (table_own _ _ _ _ _ _ D Hq Ht) as (Ho & Hp & HtF & Htp & tb' & Htb' & Hlen). simplify_eq.
  destruct (page_index q Hq) as [Hi Hj]. split.
  - destruct D as [D1 D2 D3 D4 D5 D6]. split; try done; [unfold m'; by rewrite lookup_insert_ne|].
    intros i Hir Hf. destruct (D5 i Hir Hf) as (H1 & H2 & H3 & tb2 & H4 & H5). split_and!; [done..|].
    destruct (decide (tab (ent pd i) = t)) as [He|He]; unfold m'.
    + exists (set_ent tb (q mod 1024) x). rewrite He, lookup_insert_eq. split; [done|]. by apply length_set_ent.
    + exists tb2. by rewrite lookup_insert_ne.
  - intros q' Hq'. destruct (page_index q' Hq') as [Hi' Hj']. unfold pte_at. unfold table in *.
    destruct (flag (ent pd (q / 1024)) PTE_P) eqn:Hf; [|done]. injection Ht as Ht.
    destruct (flag (ent pd (q' / 1024)) PTE_P) eqn:Hf'; simpl; [|case_decide; [congruence|done]]. unfold m'.
    destruct (decide (q' / 1024 = q / 1024)) as [Hd|Hd].
    + rewrite Hd, Ht, lookup_insert_eq, Htb. simpl. rewrite ent_set by done. destruct (decide (q' = q)) as [->|Hne].
      * by rewrite decide_True.
      * rewrite decide_False; [done|]. intros Hm. by apply Hne, same_index.
    + rewrite decide_False by congruence. rewrite lookup_insert_ne; [done|]. rewrite <- Ht. intros He. apply Hd. symmetry. by apply (dr_inj _ _ _ _ D).
Qed.

(** ** mappages() *)

(** Pages [q], ..., [q + n - 1] mapped to the physical pages from [pa] on. *)
Definition entry_for (q pa perm q' : Z) : Z := pa + PGSIZE * (q' - q) + Z.lor perm PTE_P.

Record mapped_to k F pgdir pd (q n pa perm : Z) k' F' pd' : Prop := {
  mt_space : space k' F' pgdir pd';
  mt_free : F' `suffix_of` F;
  mt_pte : ∀ q', 0 ≤ q' < 2 ^ 20 → pte_at (km_mem k') pd' q' =
    if decide (q ≤ q' < q + n) then Some (entry_for q pa perm q') else pte_at (km_mem k) pd q';
  mt_own : ∀ v, own_page pgdir pd' v → own_page pgdir pd v ∨ v ∈ F;
  mt_all : ∀ v, own_page pgdir pd v ∨ v ∈ F → own_page pgdir pd' v ∨ v ∈ F';
  mt_kept : kept k k' F pgdir pd;
}.

Lemma mapped_nil k F pgdir pd q pa perm : space k F pgdir pd → mapped_to k F pgdir pd q 0 pa perm k F pd.
Proof.
  intros S. split; [done|done| |by left|done|done]. intros q' Hq'. rewrite decide_False by lia. done.
Qed.

(** The entry for one page written after a walk. *)
Lemma mapped_one k F pgdir pd q k1 F1 pd1 t tb pa perm :
  walked k F pgdir pd q k1 F1 pd1 → 0 ≤ q < 2 ^ 20 → table pd1 q = Some t → km_mem k1 !! t = Some tb →
  0 ≤ pa < 2 ^ 32 → pa mod PGSIZE = 0 → 0 ≤ perm < PGSIZE →
  mapped_to k F pgdir pd q 1 pa perm (k1 <| km_mem ::= λ m, <[t := set_ent tb (q mod 1024) (Z.lor (Z.lor pa perm) PTE_P)]> m |>) F1 pd1.
Proof.
  intros [[Sf Sr Sd] Wf _ Ws Wo Wa Wk] Hq Ht Htb Hpa Hpm Hperm.
  assert (Hp : 0 ≤ Z.lor perm PTE_P < PGSIZE) by (by apply lor_bound).
  assert (He : Z.lor (Z.lor pa perm) PTE_P = pa + Z.lor perm PTE_P) by (rewrite <- Z.lor_assoc; by apply lor_flags).
  assert (Hfl : flag (Z.lor perm PTE_P) PTE_P = true).
  { unfold flag. rewrite Z.land_lor_distr_l. change (Z.land PTE_P PTE_P) with 1. rewrite negb_true_iff, Z.eqb_neq. intros [_ H]%Z.lor_eq_0_iff. done. }
  destruct (lor_flags pa (Z.lor perm PTE_P) Hpa Hpm Hp) as [_ Hr]. rewrite He.
  destruct (table_own _ _ _ _ _ _ Sd Hq Ht) as (Ho & Hpt & HtF & Htp & _).
  destruct (set_pte _ _ _ _ _ _ _ (pa + Z.lor perm PTE_P) Sd Hq Ht Htb Hr) as [D' HP].
  split; simpl.
  - split; [|done|done]. destruct Sf as [Sl Sn]. split; [|done]. eapply linked_ext; [|exact Sl]. intros w Hw. apply lookup_insert_ne. intros ->. done.
  - destruct Wf as [->| ->]; [done|]. destruct F as [|f F]; [done|]. by exists [f].
  - intros q' Hq'. rewrite HP by done. rewrite flag_add by done. rewrite Hfl. case_decide as H1; case_decide as H2; try lia.
    + unfold entry_for. do 2 f_equal. subst. lia.
    + by apply Ws.
  - done.
  - done.
  - intros w Hw Hno. simpl. rewrite lookup_insert_ne; [by apply Wk|]. intros ->. destruct (Wo w Ho); done.
Qed.

Lemma mapped_trans k F pgdir pd q n k1 F1 pd1 k2 F2 pd2 pa perm : 0 ≤ n →
  mapped_to k F pgdir pd q 1 pa perm k1 F1 pd1 → mapped_to k1 F1 pgdir pd1 (q + 1) n (pa + PGSIZE) perm k2 F2 pd2 →
  mapped_to k F pgdir pd q (1 + n) pa perm k2 F2 pd2.
Proof.
  intros Hn [S1 F1' P1 O1 A1 K1] [S2 F2' P2 O2 A2 K2]. assert (Hsub : ∀ v, v ∈ F1 → v ∈ F) by (intros v Hv; destruct F1' as [z ->]; set_solver).
  split; [done|by etrans| | |auto|].
  - intros q' Hq'. rewrite P2, P1 by done. unfold entry_for. case_decide as H1; [rewrite decide_True by lia; f_equal; lia|].
    case_decide as H2; [rewrite decide_True by lia; f_equal; lia|]. by rewrite decide_False by lia.
  - intros v Hv. destruct (O2 v Hv) as [Hv1|Hv1]; [by apply O1|right; by apply Hsub].
  - intros v HvF Hno. rewrite K2; [by apply K1|by intros ?%Hsub|]. intros [?|?]%O1; done.
Qed.

(** One turn of the loop, for a page that is not mapped. *)
Lemma map_page_spec k F pgdir pd q pa perm (m : M kmem Z) (Q : Z → kmem → Prop) :
  space k F pgdir pd → 0 ≤ q < 2 ^ 20 → 0 ≤ pa < 2 ^ 32 → pa mod PGSIZE = 0 → 0 ≤ perm < PGSIZE → pte_at (km_mem k) pd q = None →
  (∀ k1 F1 pd1, mapped_to k F pgdir pd q 1 pa perm k1 F1 pd1 → wp m Q k1) →
  (∀ k1, mapped_to k F pgdir pd q 0 pa perm k1 F pd → F = [] → Q (-1) k1) →
  wp (pte ← walkpgdir pgdir (PGSIZE * q) true; if pte =? 0 then mret (-1) else
    e ← rd32 pte; panic_if (flag e PTE_P) "remap";; wr32 pte (Z.lor (Z.lor pa perm) PTE_P);; m) Q k.
Proof.
  intros S Hq Hpa Hpm Hperm Hnone Hok Hfail. assert (Hva : 0 ≤ PGSIZE * q < 2 ^ 32) by (unfold PGSIZE; lia).
  assert (Hdiv : PGSIZE * q / PGSIZE = q) by (rewrite Z.mul_comm; by apply Z.div_mul).
  destruct (PTX_page _ Hva) as [Hptx Hptr]. rewrite Hdiv in Hptx. apply wp_bind.
  assert (Hgo : ∀ k1 F1 pd1 t, walked k F pgdir pd q k1 F1 pd1 → table pd1 q = Some t →
    wp (if t + 4 * PTX (PGSIZE * q) =? 0 then mret (-1) else
      e ← rd32 (t + 4 * PTX (PGSIZE * q)); panic_if (flag e PTE_P) "remap";;
      wr32 (t + 4 * PTX (PGSIZE * q)) (Z.lor (Z.lor pa perm) PTE_P);; m) Q k1).
  { intros k1 F1 pd1 t W Ht. pose proof W as [[_ _ Sd] _ _ Ws _ _ _].
    destruct (table_own _ _ _ _ _ _ Sd Hq Ht) as (_ & Hpt & _ & _ & tb & Htb & Hlen).
    destruct (page_pos t Hpt) as [Ht0 Hta], Hpt as [Htr _]. rewrite (proj2 (Z.eqb_neq _ _)) by lia.
    apply wp_bind. eapply wp_rd32; [done|done|exact Htb|]. apply wp_bind, wp_panic_if.
    { specialize (Ws q Hq). rewrite Hnone in Ws. unfold pte_at in Ws. rewrite Ht in Ws. simpl in Ws. rewrite Htb in Ws. simpl in Ws.
      rewrite Hptx. by destruct (flag _ _). }
    apply wp_bind. eapply wp_wr32; [done|done|exact Htb|]. rewrite Hptx. eapply Hok. by eapply (mapped_one k F pgdir pd q k1 F1 pd1 t tb). }
  eapply (walk_spec k F pgdir pd); rewrite ?Hdiv; [done|done| | |].
  - intros t Ht. eapply Hgo; [|done]. split; try done; [by left|by eexists|by left].
  - intros _ [|HF] k1 S1 Hm1; [done|]. apply wp_ret, Hfail; [|done]. split; [done|done| |by left|done|intros v _ _; by rewrite Hm1].
    intros q' Hq'. rewrite decide_False by lia. by rewrite Hm1.
  - intros _ _ k1 F1 pd1 t W Ht. by eapply Hgo.
Qed.

(** Pages [q] to [q + n] are not mapped. The result is 0 and all are mapped,
    or -1 and a part of them is, because no memory is left. *)
Lemma map_loop_spec n k F pgdir pd q pa perm (Q : Z → kmem → Prop) :
  space k F pgdir pd → 0 ≤ q → q + Z.of_nat n < 2 ^ 20 →
  0 ≤ pa → pa + PGSIZE * Z.of_nat n < 2 ^ 32 → pa mod PGSIZE = 0 → 0 ≤ perm < PGSIZE →
  (∀ q', q ≤ q' ≤ q + Z.of_nat n → pte_at (km_mem k) pd q' = None) →
  (∀ r k' F' pd' j, mapped_to k F pgdir pd q j pa perm k' F' pd' →
     (r = 0 ∧ j = Z.of_nat n + 1) ∨ (r = -1 ∧ 0 ≤ j ≤ Z.of_nat n ∧ F' = []) → Q r k') →
  wp (map_loop n pgdir (PGSIZE * q) pa perm) Q k.
Proof.
  revert k F pd q pa Q. induction n as [|n IH]; intros k F pd q pa Q S Hq Hqn Hpa Hpn Hpm Hperm Hnone HQ; cbn [map_loop];
    (eapply map_page_spec; [exact S|lia|unfold PGSIZE in *; lia|done|done|apply Hnone; lia| |
      intros k1 M0 ->; eapply (HQ _ k1 [] pd 0); [exact M0|right; split_and!; [done|lia|lia|done]]]).
  - intros k1 F1 pd1 M. apply wp_ret. eapply HQ; [exact M|]. by left.
  - intros k1 F1 pd1 M. pose proof M as [S1 Fs P1 O1 A1 K1].
    assert (Hu1 : u32 (PGSIZE * q + PGSIZE) = PGSIZE * (q + 1)) by (rewrite u32_small; unfold PGSIZE in *; lia).
    assert (Hu2 : u32 (pa + PGSIZE) = pa + PGSIZE) by (rewrite u32_small; unfold PGSIZE in *; lia). rewrite Hu1, Hu2.
    eapply (IH k1 F1 pd1); [done|lia|lia|unfold PGSIZE; lia|unfold PGSIZE in *; lia| |done| |].
    + rewrite Z.add_mod, Hpm by done. done.
    + intros q' Hq'. rewrite P1 by lia. rewrite decide_False by lia. apply Hnone. lia.
    + intros r k2 F2 pd2 j M2 Hr. assert (0 ≤ j) by lia.
      eapply (HQ r k2 F2 pd2 (1 + j)); [by eapply mapped_trans|].
      destruct Hr as [[-> ->]|(-> & ? & ?)]; [left; lia|right; split_and!; [done|lia|lia|done]].
Qed.

(** mappages() of the pages that hold [va], ..., [va + size - 1]. *)
Lemma mappages_spec k F pgdir pd va size pa perm (Q : Z → kmem → Prop) :
  let q := va / PGSIZE in let n := (va + size - 1) / PGSIZE - q + 1 in
  space k F pgdir pd → 0 ≤ va → 0 < size → va + size ≤ 2 ^ 32 →
  0 ≤ pa → pa + PGSIZE * (n - 1) < 2 ^ 32 → pa mod PGSIZE = 0 → 0 ≤ perm < PGSIZE →
  (∀ q', q ≤ q' < q + n → pte_at (km_mem k) pd q' = None) →
  (∀ r k' F' pd' j, mapped_to k F pgdir pd q j pa perm k' F' pd' →
     (r = 0 ∧ j = n) ∨ (r = -1 ∧ 0 ≤ j < n ∧ F' = []) → Q r k') →
  wp (mappages pgdir va size pa perm) Q k.
Proof.
  intros q n S Hva Hsz Hend Hpa Hpn Hpm Hperm Hnone HQ. unfold mappages.
  assert (Hl : PGROUNDDOWN (u32 (u32 (va + size) - 1)) = PGSIZE * ((va + size - 1) / PGSIZE)).
  { replace (u32 (u32 (va + size) - 1)) with (va + size - 1); [apply PGROUNDDOWN_spec; lia|].
    unfold u32. rewrite Zminus_mod_idemp_l. symmetry. apply Z.mod_small. lia. }
  rewrite Hl, PGROUNDDOWN_spec by lia. fold q.
  assert (Hqq : q ≤ (va + size - 1) / PGSIZE) by (apply Z.div_le_mono; [done|lia]).
  assert (Hql : (va + size - 1) / PGSIZE < 2 ^ 20) by (apply Z.div_lt_upper_bound; [done|unfold PGSIZE; lia]).
  assert (Hq0 : 0 ≤ q) by (apply Z.div_pos; [done|unfold PGSIZE; lia]).
  assert (Hfuel : Z.of_nat (Z.to_nat (u32 (PGSIZE * ((va + size - 1) / PGSIZE) - PGSIZE * q) / PGSIZE)) = n - 1).
  { rewrite <- Z.mul_sub_distr_l, u32_small by (unfold PGSIZE in *; lia). rewrite Z.mul_comm, Z.div_mul by done. unfold n. lia. }
  eapply map_loop_spec; [exact S|done|lia|done| |done|done| |].
  - rewrite Hfuel. done.
  - intros q' Hq'. apply Hnone. lia.
  - intros r k' F' pd' j M Hr. eapply HQ; [exact M|]. rewrite Hfuel in Hr. destruct Hr as [[-> ->]|(-> & ? & ?)]; [left; lia|right; split_and!; [done|lia|lia|done]].
Qed.
End dir.

(** ** The theorems about page tables *)

Section thms.
Context (kend : Z) (Hkend : KERNBASE ≤ kend) (held : list lockid) (en : bool).

(** Mappages() returns 0 when every page that holds a byte of
    [va, va+size) is mapped to the corresponding physical page with the
    permissions asked for, and -1 only when no free page is left, and then
    the pages before some point are. In both cases no other virtual page is
    mapped, unmapped or changed, the page tables stay pages of their own that
    are not on the free list, and memory that is neither free nor a page table
    of this directory is as it was. *)
Theorem mappages_correct k F pgdir pd va size pa perm :
  let q := va / PGSIZE in let n := (va + size - 1) / PGSIZE - q + 1 in
  space kend held en k F pgdir pd → 0 ≤ va → 0 < size → va + size ≤ 2 ^ 32 →
  0 ≤ pa → pa + PGSIZE * (n - 1) < 2 ^ 32 → pa mod PGSIZE = 0 → 0 ≤ perm < PGSIZE →
  (∀ q', q ≤ q' < q + n → pte_at (km_mem k) pd q' = None) →
  wp (mappages pgdir va size pa perm) (λ r k', ∃ j F' pd',
    ((r = 0 ∧ j = n) ∨ (r = -1 ∧ 0 ≤ j < n ∧ F' = [])) ∧
    space kend held en k' F' pgdir pd' ∧
    (∀ q', 0 ≤ q' < 2 ^ 20 → pte_at (km_mem k') pd' q' =
       if decide (q ≤ q' < q + j) then Some (pa + PGSIZE * (q' - q) + Z.lor perm PTE_P) else pte_at (km_mem k) pd q') ∧
    (∀ v, v ∉ F → ¬ own_page pgdir pd v → km_mem k' !! v = km_mem k !! v)) k.
Proof.
  intros q n S Hva Hsz Hend Hpa Hpn Hpm Hperm Hnone. eapply (mappages_spec kend Hkend held en k F pgdir pd); try done.
  intros r k' F' pd' j [M1 M2 M3 M4 M5 M6] Hr. by exists j, F', pd'.
Qed.
End thms.

(** ** An address space with one free page *)

Definition dir_page : Z := page_b.
Definition vm_kmem : kmem :=
  mkKmem hw0 true page_a (<[page_a := put_le 4 zero_page 0 0]> (<[dir_page := zero_page]> ∅)).

Lemma vm_space : space kend0 [] true vm_kmem [page_a] dir_page zero_page.
Proof.
  assert (Hz : length zero_page = Z.to_nat PGSIZE) by apply length_zero_page.
  split.
  - split; [|repeat constructor; set_solver]. simpl. split_and!; [done|apply page_ab; by left|].
    eexists. split; [apply lookup_insert_eq|]. rewrite length_put_le by (rewrite Hz; unfold PGSIZE; lia). split; [done|].
    rewrite get_put; [done|rewrite Hz; unfold PGSIZE; lia|done].
  - apply hw0_ready.
  - split.
    + apply page_ab. by right.
    + simpl. rewrite lookup_insert_ne by done. apply lookup_insert_eq.
    + done.
    + intros H%list_elem_of_singleton. done.
    + intros i Hi. rewrite ent_zero. done.
    + intros i j Hi Hj. rewrite ent_zero. done.
Qed.

Lemma vm_unmapped m q : pte_at m zero_page q = None.
Proof. unfold pte_at, table. by rewrite ent_zero. Qed.

(** The page at 0x3000, read-write for the user, at physical page 5. *)
Lemma mappages_correct_witness :
  wp (mappages dir_page 12288 100 20480 (Z.lor PTE_W PTE_U)) (λ r k', ∃ pd' F', space kend0 [] true k' F' dir_page pd' ∧
    (r = 0 → pte_at (km_mem k') pd' 3 = Some 20487 ∧ pte_at (km_mem k') pd' 4 = None)) vm_kmem.
Proof.
  eapply wp_mono; [apply (mappages_correct kend0 ltac:(done) [] true vm_kmem [page_a] dir_page zero_page 12288 100 20480 (Z.lor PTE_W PTE_U) vm_space)|].
  - lia.
  - lia.
  - lia.
  - lia.
  - reflexivity.
  - reflexivity.
  - split; [discriminate|reflexivity].
  - intros q' _. apply vm_unmapped.
  - intros r k' (j & F' & pd' & Hr & Hs & Hp & _). exists pd', F'. split; [exact Hs|]. intros ->.
    destruct Hr as [[_ ->]|[? _]]; [|discriminate]. rewrite !Hp by lia. rewrite decide_True, decide_False by (vm_compute; intuition discriminate).
    split; [reflexivity|apply vm_unmapped].
Defined.

(** ** allocuvm() without a page for the page table *)

(** Allocuvm() does not look at the result of mappages(). With one free
    page left and no page table, it takes the page as memory, mappages()
    fails, and it returns the new size as if it had succeeded: the page is
    not mapped, and it is neither on the free list nor in the address space. *)
Theorem allocuvm_ignores_failure :
  ∃ k', allocuvm kend0 dir_page 0 PGSIZE vm_kmem = Done PGSIZE k' ∧
    km_freelist k' = 0 ∧ km_mem k' !! dir_page = Some zero_page ∧ pte_at (km_mem k') zero_page 0 = None.
Proof. eexists. split; [vm_compute; reflexivity|]. split; [reflexivity|]. split; [vm_compute; reflexivity|apply vm_unmapped]. Qed.
