(* ===== verification/VmFree.v ===== *)
(** * Freeing an address space: deallocuvm() and freevm()

    The pages a process has in an address space, [user_ok], and that freevm()
    puts all of them, and the page tables, back on the free list. *)

From S2P Require Import Prelude Bytes Mem Spinlock Kalloc Vm VmMap.

(** The number of user pages: KERNBASE / PGSIZE. *)
Definition UPAGES : Z := 2 ^ 19.

Section free.
Context (kend : Z) (Hkend : KERNBASE < kend) (held : list lockid) (en : bool).
Abbreviation page := (page kend).
Abbreviation free_list := (free_list kend).
Abbreviation space := (space kend held en).
Abbreviation dir_ok := (dir_ok kend).
Implicit Types (m : memory) (k : kmem) (F : list Z) (q v e : Z).

(** Every user page is mapped to a page of its own, which is neither free nor a
    page table. *)
Record user_ok m (pgdir : Z) (pd : list Z) F : Prop := {
  us_page : ∀ q e, 0 ≤ q < UPAGES → pte_at m pd q = Some e → page (tab e) ∧ (tab e ∉ F) ∧ ¬ own_page pgdir pd (tab e);
  us_inj : ∀ q q' e e', 0 ≤ q < UPAGES → 0 ≤ q' < UPAGES → pte_at m pd q = Some e → pte_at m pd q' = Some e' →
    tab e = tab e' → q = q';
}.

(** The frame of a user page of [q0, q1). *)
Definition frame_in m pd (q0 q1 v : Z) : Prop := ∃ q e, q0 ≤ q < q1 ∧ pte_at m pd q = Some e ∧ v = tab e.

Lemma free_list_ext k k' F : free_list k F → km_freelist k' = km_freelist k →
  (∀ v, v ∈ F → km_mem k' !! v = km_mem k !! v) → free_list k' F.
Proof. intros [Hl Hn] Hf Hm. split; [|done]. rewrite Hf. by eapply linked_ext. Qed.

Lemma present_table m pd q e : pte_at m pd q = Some e → ∃ t tb, table pd q = Some t ∧ m !! t = Some tb ∧
  ent tb (q mod 1024) = e ∧ flag e PTE_P = true.
Proof.
  unfold pte_at. destruct (table pd q) as [t|]; [|done]. simpl. destruct (m !! t) as [tb|] eqn:Hm; [|done]. simpl.
  destruct (flag _ _) eqn:Hf; [|done]. intros [= <-]. by exists t, tb.
Qed.

(** What deallocuvm() leaves: no page of [q0, q1) is mapped, and its frames
    are free. *)
Record unmapped k F pgdir pd (q0 q1 : Z) k' F' : Prop := {
  un_space : space k' F' pgdir pd;
  un_pte : ∀ q, 0 ≤ q < 2 ^ 20 → pte_at (km_mem k') pd q = if decide (q0 ≤ q < q1) then None else pte_at (km_mem k) pd q;
  un_free : ∀ v, v ∈ F' ↔ v ∈ F ∨ frame_in (km_mem k) pd q0 q1 v;
  un_kept : ∀ v, v ∉ F' → ¬ own_page pgdir pd v → km_mem k' !! v = km_mem k !! v;
}.

Lemma user_ok_unmapped k F pgdir pd q0 q1 k' F' :
  user_ok (km_mem k) pgdir pd F → unmapped k F pgdir pd q0 q1 k' F' → 0 ≤ q0 → q1 ≤ UPAGES → user_ok (km_mem k') pgdir pd F'.
Proof.
  intros [U1 U2] [_ P Fr _] H0 H1. assert (HU : UPAGES < 2 ^ 20) by done.
  assert (Hold : ∀ q e, 0 ≤ q < UPAGES → pte_at (km_mem k') pd q = Some e → pte_at (km_mem k) pd q = Some e ∧ ¬ (q0 ≤ q < q1)).
  { intros q e Hq. rewrite P by lia. by case_decide. }
  split.
  - intros q e Hq [He Hn]%Hold; [|done]. destruct (U1 q e Hq He) as (H2 & H3 & H4). split_and!; [done| |done].
    rewrite Fr. intros [?|(q' & e' & Hq' & He' & Ht)]; [done|]. apply Hn. by rewrite (U2 q q' e e') by (done || lia).
  - intros q q' e e' Hq Hq' [He _]%Hold [He' _]%Hold; [|done..]. by apply U2.
Qed.

Lemma unmapped_trans k F pgdir pd q0 q1 q2 k1 F1 k2 F2 : 0 ≤ q0 ≤ q1 → q1 ≤ q2 ≤ 2 ^ 20 →
  unmapped k F pgdir pd q0 q1 k1 F1 → unmapped k1 F1 pgdir pd q1 q2 k2 F2 → unmapped k F pgdir pd q0 q2 k2 F2.
Proof.
  intros H0 H1 [S1 P1 F1' K1] [S2 P2 F2' K2]. split.
  - done.
  - intros q Hq. rewrite P2, P1 by done. repeat case_decide; done || lia.
  - intros v. rewrite F2', F1'. unfold frame_in. split.
    + intros [[?|(q & e & ? & ? & ?)]|(q & e & ? & He & ?)]; [by left|right; exists q, e; split_and!; try done; lia|].
      rewrite P1 in He by lia. case_decide; [done|]. right. exists q, e. split_and!; try done; lia.
    + intros [?|(q & e & ? & He & ?)]; [by left; left|]. destruct (decide (q < q1)).
      * left. right. exists q, e. split_and!; try done; lia.
      * right. exists q, e. rewrite P1, decide_False by lia. split_and!; try done; lia.
  - intros v Hv Ho. rewrite K2 by done. apply K1; [|done]. intros ?. apply Hv, F2'. by left.
Qed.

Lemma unmapped_none k F pgdir pd q0 q1 : space k F pgdir pd → (∀ q, q0 ≤ q < q1 → pte_at (km_mem k) pd q = None) →
  unmapped k F pgdir pd q0 q1 k F.
Proof.
  intros S Hn. split; [done| | |done].
  - intros q Hq. case_decide; [by apply Hn|done].
  - intros v. split; [by left|]. intros [?|(q & e & Hq & He & _)]; [done|]. by rewrite Hn in He.
Qed.

(** One page: its frame is freed and its entry cleared. *)
Lemma clear_page_spec k F pgdir pd q t tb (Q : unit → kmem → Prop) :
  space k F pgdir pd → user_ok (km_mem k) pgdir pd F → 0 ≤ q < UPAGES → table pd q = Some t → km_mem k !! t = Some tb →
  (∀ k' F', unmapped k F pgdir pd q (q + 1) k' F' → Q tt k') →
  wp (let e := ent tb (q mod 1024) in
      if flag e PTE_P then panic_if (PTE_ADDR e =? 0) "kfree";; kfree kend (p2v (PTE_ADDR e));; wr32 (t + 4 * (q mod 1024)) 0
      else mret tt) Q k.
Proof.
  intros S U Hq Ht Htb HQ. pose proof S as [Sf Sr Sd]. assert (HU : UPAGES < 2 ^ 20) by done.
  assert (Hq20 : 0 ≤ q < 2 ^ 20) by lia. destruct (table_own _ _ _ _ _ _ _ Sd Hq20 Ht) as (Ho & Hpt & HtF & Htp & _).
  assert (Hpte : pte_at (km_mem k) pd q = if flag (ent tb (q mod 1024)) PTE_P then Some (ent tb (q mod 1024)) else None).
  { unfold pte_at. rewrite Ht. simpl. by rewrite Htb. }
  set (e := ent tb (q mod 1024)) in *. simpl. destruct (flag e PTE_P) eqn:Hf.
  2: { apply wp_ret. eapply HQ, unmapped_none; [done|]. intros q' Hq'. replace q' with q by lia. done. }
  destruct (us_page _ _ _ _ U q e Hq Hpte) as (Hp & HpF & Hpo). fold (tab e). set (v := tab e) in *.
  apply wp_bind, wp_panic_if.
  { apply Z.eqb_neq. intros H0. destruct Hp as (_ & _ & Hk & _). unfold v, tab in Hk. rewrite H0 in Hk. change (p2v 0) with KERNBASE in Hk. lia. }
  apply wp_bind. eapply kfree_spec; [exact Sf|exact Sr|exact Hp|exact HpF|]. intros k1 F1 Hfr Hm1.
  assert (Htv : t ≠ v) by (intros ->; done).
  assert (D1 : dir_ok (km_mem k1) pgdir (v :: F) pd).
  { eapply dir_ok_ext; [exact Sd| |].
    - intros w Hw. apply Hm1. intros ->. done.
    - intros w [->|Hw]%elem_of_cons; [by right|by left]. }
  destruct (page_pos _ t Hpt) as [_ Hta]. pose proof (Z.mod_pos_bound q 1024 ltac:(lia)) as Hqm.
  assert (Htb1 : km_mem k1 !! t = Some tb) by (by rewrite Hm1).
  eapply wp_wr32; [exact Hta|lia|exact Htb1|].
  destruct (set_pte _ _ _ _ _ q t tb 0 D1 Hq20 Ht Htb1 ltac:(lia)) as [D2 P2].
  apply (HQ _ (v :: F)). split; simpl.
  - split; [|apply Hfr|exact D2]. eapply free_list_ext; [exact F1|done|]. intros w Hw. simpl. rewrite lookup_insert_ne; [done|]. intros ->.
    apply elem_of_cons in Hw as [?|?]; done.
  - intros q' Hq'. rewrite P2 by done. change (flag 0 PTE_P) with false. destruct (decide (q' = q)) as [->|Hne].
    + by rewrite decide_True by lia.
    + rewrite decide_False by lia. eapply pte_at_ext; [exact Sd|done|]. intros w Hw. apply Hm1. intros ->. done.
  - intros w. rewrite elem_of_cons. split.
    + intros [->|?]; [right|by left]. exists q, e. split_and!; [lia..|done|done].
    + intros [?|(q' & e' & Hq' & He' & ->)]; [by right|]. left. replace q' with q in He' by lia. rewrite Hpte in He'. by simplify_eq.
  - intros w Hw Hno. simpl. rewrite lookup_insert_ne; [apply Hm1; set_solver|]. intros ->. done.
Qed.

(** The loop of deallocuvm() from page [q] to page [hi]. When the table of [q]
    is missing the loop goes on 1024 pages further: that [q] is then the first
    page of its table is part of the invariant. *)
Lemma dealloc_loop_spec fuel q hi k F pgdir pd (Q : unit → kmem → Prop) :
  space k F pgdir pd → user_ok (km_mem k) pgdir pd F → 0 ≤ q → hi ≤ UPAGES → q < hi + 1024 → (Z.to_nat (hi - q) < fuel)%nat →
  (q mod 1024 ≠ 0 → table pd q ≠ None) →
  (∀ k' F', unmapped k F pgdir pd q hi k' F' → Q tt k') →
  wp (dealloc_loop kend fuel pgdir (PGSIZE * q) (PGSIZE * hi)) Q k.
Proof.
  revert q k F Q. induction fuel as [|fuel IH]; intros q k F Q S U Hq Hhi Hq2 Hfuel Hal HQ; [lia|].
  assert (HU : UPAGES = 2 ^ 19) by done. cbn [dealloc_loop]. destruct (Z.ltb_spec (PGSIZE * q) (PGSIZE * hi)) as [Hlt|Hge].
  2: { apply wp_ret. eapply HQ, unmapped_none; [done|]. unfold PGSIZE in *. lia. }
  assert (Hqh : q < hi) by (unfold PGSIZE in *; lia). assert (Hdiv : PGSIZE * q / PGSIZE = q) by (rewrite Z.mul_comm; by apply Z.div_mul).
  assert (Hva : 0 ≤ PGSIZE * q < 2 ^ 32) by (unfold PGSIZE; lia).
  destruct (PTX_page _ Hva) as [Hptx Hptr]. rewrite Hdiv in Hptx. apply wp_bind.
  eapply (walk_spec kend (Z.lt_le_incl _ _ Hkend) held en k F pgdir pd); rewrite ?Hdiv; [exact S|exact Hva| | |done].
  - intros t Ht. pose proof S as [_ _ Sd]. assert (Hq20 : 0 ≤ q < 2 ^ 20) by lia. destruct (table_own _ _ _ _ _ _ _ Sd Hq20 Ht) as (_ & Hpt & _ & _ & tb & Htb & _).
    destruct (page_pos _ t Hpt) as [_ Hta], Hpt as [Htr _]. rewrite (proj2 (Z.eqb_neq _ _)) by lia.
    apply wp_bind. eapply wp_rd32; [done|done|exact Htb|]. apply wp_bind. rewrite Hptx.
    eapply (clear_page_spec k F pgdir pd q t tb); [done|done|lia|done|done|]. intros k1 F1 M1.
    replace (u32 (PGSIZE * q + PGSIZE)) with (PGSIZE * (q + 1)) by (rewrite u32_small; unfold PGSIZE in *; lia).
    eapply (IH _ k1 F1); [apply M1|eapply user_ok_unmapped; [exact U|exact M1|lia|lia]|lia|done|lia|lia| |].
    + intros Hm. replace (table pd (q + 1)) with (table pd q); [by rewrite Ht|]. unfold table.
      replace ((q + 1) / 1024) with (q / 1024); [done|]. pose proof (Z.div_mod q 1024). pose proof (Z.div_mod (q + 1) 1024).
      pose proof (Z.mod_pos_bound q 1024). pose proof (Z.mod_pos_bound (q + 1) 1024). lia.
    + intros k2 F2 M2. eapply HQ. by eapply (unmapped_trans k F pgdir pd q (q + 1) hi k1 F1); [lia|lia|..].
  - intros Hn _ k1 S1 Hm1. change (0 =? 0) with true. cbv iota.
    assert (Hq0 : q mod 1024 = 0) by (destruct (decide (q mod 1024 = 0)); [done|by destruct Hal]).
    replace (u32 (PGSIZE * q + (NPTENTRIES - 1) * PGSIZE + PGSIZE)) with (PGSIZE * (q + 1024)).
    2: { unfold NPTENTRIES, PGSIZE in *. rewrite u32_small; [lia|]. pose proof (Z.div_mod q 1024). lia. }
    assert (Hnone : ∀ q', q ≤ q' < q + 1024 → pte_at (km_mem k) pd q' = None).
    { intros q' Hq'. unfold pte_at. replace (table pd q') with (table pd q); [by rewrite Hn|]. unfold table.
      replace (q' / 1024) with (q / 1024); [done|]. pose proof (Z.div_mod q 1024). pose proof (Z.div_mod q' 1024).
      pose proof (Z.mod_pos_bound q' 1024). lia. }
    eapply (IH _ k1 F); [done|by rewrite Hm1|lia|done|lia|lia| |].
    + intros []. rewrite Z.add_mod, Hq0; done.
    + intros k2 F2 [M1 M2 M3 M4]. rewrite Hm1 in *. apply (HQ _ F2). split; [done| | |done].
      * intros q' Hq'. rewrite M2 by done. repeat case_decide; try done || lia. apply Hnone. lia.
      * intros v. rewrite M3. apply or_iff_compat_l. unfold frame_in. split; intros (q' & e & Hq' & He & ->); exists q', e; split_and!; try done; try lia.
        destruct (decide (q' < q + 1024)); [|lia]. by rewrite Hnone in He by lia.
Qed.

(** The loop of freevm() over the directory, from entry [i] on. *)
Lemma free_tables_spec n i k F pgdir pd (Q : unit → kmem → Prop) :
  free_list k F → km_ready k held en → page pgdir → km_mem k !! pgdir = Some pd → (pgdir ∉ F) → 0 ≤ i → i + Z.of_nat n = 1024 →
  (∀ j, i ≤ j < 1024 → flag (ent pd j) PTE_P = true → page (tab (ent pd j)) ∧ (tab (ent pd j) ∉ F) ∧ tab (ent pd j) ≠ pgdir) →
  (∀ j j', i ≤ j < 1024 → i ≤ j' < 1024 → flag (ent pd j) PTE_P = true → flag (ent pd j') PTE_P = true →
    tab (ent pd j) = tab (ent pd j') → j = j') →
  (∀ k' F', free_list k' F' → km_ready k' held en → km_mem k' !! pgdir = Some pd →
    (∀ v, v ∈ F' ↔ v ∈ F ∨ ∃ j, i ≤ j < 1024 ∧ flag (ent pd j) PTE_P = true ∧ v = tab (ent pd j)) →
    (∀ v, v ∉ F' → km_mem k' !! v = km_mem k !! v) → Q tt k') →
  wp (free_tables kend n pgdir i) Q k.
Proof.
  revert i k F. induction n as [|n IH]; intros i k F Hf Hr Hp Hpd HpF Hi Hn Ht Hinj HQ; cbn [free_tables].
  { apply wp_ret. apply (HQ _ F); [done..| |done]. intros v. split; [by left|]. intros [?|(j & ? & _)]; [done|lia]. }
  destruct (page_pos _ _ Hp) as [_ Hpa]. apply wp_bind. eapply wp_rd32; [done|lia|exact Hpd|]. apply wp_bind.
  destruct (flag (ent pd i) PTE_P) eqn:Hfl; cbn [when].
  - destruct (Ht i ltac:(lia) Hfl) as (H1 & H2 & H3). fold (tab (ent pd i)). eapply kfree_spec; [exact Hf|exact Hr|done|done|].
    intros k1 Hf1 Hfr Hm1. eapply (IH _ k1); [exact Hf1|apply Hfr|done|by rewrite Hm1|set_solver|lia|lia| | |].
    + intros j Hj Hfj. destruct (Ht j ltac:(lia) Hfj) as (H4 & H5 & H6). split_and!; [done| |done].
      rewrite not_elem_of_cons. split; [|done]. intros He. assert (j = i) by (apply Hinj; done || lia). lia.
    + intros j j' Hj Hj'. apply Hinj; lia.
    + intros k2 F2 Hf2 Hr2 Hp2 HF2 Hm2. apply (HQ _ F2); [done..| |].
      * intros v. rewrite HF2, elem_of_cons. split.
        -- intros [[->|?]|(j & ? & ? & ->)]; [right; exists i; split_and!; [lia..|done|done]|by left|right; exists j; split_and!; [lia..|done|done]].
        -- intros [?|(j & ? & ? & ->)]; [by left; right|]. destruct (decide (j = i)) as [->|]; [by left; left|].
           right. exists j. split_and!; [lia..|done|done].
      * intros v Hv. rewrite Hm2 by done. apply Hm1. intros ->. apply Hv, HF2. left. set_solver.
  - apply wp_ret. eapply (IH _ k); [exact Hf|exact Hr|done|done|done|lia|lia| | |].
    + intros j Hj. apply Ht. lia.
    + intros j j' Hj Hj'. apply Hinj; lia.
    + intros k2 F2 Hf2 Hr2 Hp2 HF2 Hm2. apply (HQ _ F2); [done..| |done]. intros v. rewrite HF2. apply or_iff_compat_l. split.
      * intros (j & ? & ? & ->). exists j. split_and!; [lia..|done|done].
      * intros (j & ? & ? & ->). exists j. split_and!; [|lia|done|done]. destruct (decide (j = i)) as [->|]; [congruence|lia].
Qed.

(** freevm(): exactly the frames of the user pages, the page tables and the
    directory are added to the free list, and no other page changes. *)
Lemma freevm_spec k F pgdir pd (Q : unit → kmem → Prop) :
  space k F pgdir pd → user_ok (km_mem k) pgdir pd F →
  (∀ k' F', free_list k' F' → km_ready k' held en →
    (∀ v, v ∈ F' ↔ v ∈ F ∨ own_page pgdir pd v ∨ frame_in (km_mem k) pd 0 UPAGES v) →
    (∀ v, v ∉ F' → km_mem k' !! v = km_mem k !! v) → Q tt k') →
  wp (freevm kend pgdir) Q k.
Proof.
  intros S U HQ. pose proof S as [Sf Sr Sd]. pose proof (dr_page _ _ _ _ _ Sd) as Hp. destruct (page_pos _ _ Hp) as [Hp0 _].
  unfold freevm. apply wp_bind, wp_panic_if; [by apply Z.eqb_neq|]. apply wp_bind. unfold deallocuvm.
  change (KERNBASE <=? 0) with false. cbv iota. apply wp_bind.
  change (PGROUNDUP 0) with (PGSIZE * 0). change KERNBASE with (PGSIZE * UPAGES) at 2.
  assert (Hfuel : (Z.to_nat (UPAGES - 0) < Z.to_nat (KERNBASE / PGSIZE + 1))%nat).
  { apply Z2Nat.inj_lt; [done|done|]. by change (KERNBASE / PGSIZE) with UPAGES. }
  revert Hfuel. generalize (Z.to_nat (KERNBASE / PGSIZE + 1)). intros fuel Hfuel.
  eapply (dealloc_loop_spec fuel 0 UPAGES k F); [done|done|lia|done|done|exact Hfuel|done|].
  intros k1 F1 [S1 P1 FF1 K1]. apply wp_ret. pose proof S1 as [Sf1 Sr1 Sd1]. apply wp_bind.
  eapply free_tables_spec; [exact Sf1|exact Sr1|done|apply Sd1|apply Sd1|lia|done| | |].
  - intros j Hj Hf. destruct (dr_tab _ _ _ _ _ Sd1 j ltac:(lia) Hf) as (? & ? & ? & _). done.
  - apply Sd1.
  - intros k2 F2 Sf2 Sr2 Hpd2 FF2 K2. assert (HpF : pgdir ∉ F2).
    { rewrite FF2. intros [?|(j & Hj & Hf & He)]; [by apply (dr_used _ _ _ _ _ Sd1)|]. symmetry in He. by apply (dr_tab _ _ _ _ _ Sd1) in He. }
    eapply kfree_spec; [exact Sf2|exact Sr2|done|done|]. intros k3 Sf3 Hfr3 K3.
    apply (HQ _ (pgdir :: F2)); [done|apply Hfr3| |].
    + intros v. rewrite elem_of_cons, FF2, FF1. unfold own_page. naive_solver.
    + intros v Hv. rewrite K3 by set_solver. rewrite K2 by set_solver. apply K1.
      * intros Hin. apply Hv, elem_of_cons. right. apply FF2. by left.
      * intros Ho. apply Hv, elem_of_cons. destruct Ho as [->|(j & ? & ? & ->)]; [by left|]. right. apply FF2. right. by exists j.
Qed.
End free.
