(* ===== verification/VmCopy.v ===== *)
(** * Copying an address space: setupkvm() and copyuvm()

    The kernel part that every address space has, [kernel_pte], and the copy
    that fork() makes of the user part. *)

From S2P Require Import Prelude Bytes Mem Spinlock Kalloc Vm VmMap VmFree.

(** ** The kernel part of an address space *)

(** The pages of an entry of kmap[]: first page, number of pages. *)
Definition kfirst (x : Z * Z * Z * Z) : Z := x.1.1.1 / PGSIZE.
Definition kcount (x : Z * Z * Z * Z) : Z := u32 (x.1.2 - x.1.1.2) / PGSIZE.

(** The entry that a list of ranges gives page [q]. *)
Fixpoint kmap_pte (l : list (Z * Z * Z * Z)) (q : Z) : option Z :=
  match l with
  | [] => None
  | x :: l =>
    if decide (kfirst x ≤ q < kfirst x + kcount x) then Some (entry_for (kfirst x) x.1.1.2 x.2 q) else kmap_pte l q
  end.

(** Ranges of whole pages, in order, from page [lo] on. *)
Fixpoint kmap_ok (lo : Z) (l : list (Z * Z * Z * Z)) : Prop :=
  match l with
  | [] => True
  | (virt, start, stop, perm) as x :: l =>
    let size := u32 (stop - start) in
    (lo ≤ kfirst x ∧ 0 ≤ virt ∧ virt mod PGSIZE = 0 ∧ 0 < size ∧ size mod PGSIZE = 0 ∧ virt + size ≤ 2 ^ 32) ∧
    (0 ≤ start ∧ start mod PGSIZE = 0 ∧ start + size ≤ 2 ^ 32 ∧ 0 ≤ perm < PGSIZE) ∧ kmap_ok (kfirst x + kcount x) l
  end.

Lemma kmap_pte_below lo l q : kmap_ok lo l → q < lo → kmap_pte l q = None.
Proof.
  revert lo. induction l as [|[[[virt start] stop] perm] l IH]; intros lo; cbn [kmap_ok kmap_pte]; [done|].
  intros ((Hlo & _ & _ & Hs & _) & _ & Hl) Hq. rewrite decide_False by lia. eapply IH; [exact Hl|].
  assert (0 ≤ kcount (virt, start, stop, perm)) by (apply Z.div_pos; [simpl; lia|done]). lia.
Qed.

Section copy.
Context (kend kdata : Z) (Hkend : KERNBASE < kend) (held : list lockid) (en : bool).
(** The data of the kernel starts on a page of its own, after the text. *)
Context (Hkdata : KERNLINK < kdata < KERNBASE + PHYSTOP) (Hkalign : kdata mod PGSIZE = 0).
Abbreviation page := (page kend).
Abbreviation free_list := (free_list kend).
Abbreviation space := (space kend held en).
Abbreviation dir_ok := (dir_ok kend).
Abbreviation user_ok := (user_ok kend).
Implicit Types (m : memory) (k : kmem) (F : list Z) (q v e : Z).

Definition kernel_pte (q : Z) : option Z := kmap_pte (kmap kdata) q.

Lemma kmap_kdata : kmap_ok UPAGES (kmap kdata).
Proof.
  assert (Hp : PHYSTOP = 234881024) by done. assert (Hl : KERNLINK = 2148532224) by done. assert (Hb : KERNBASE = 2147483648) by done.
  assert (Hv : v2p kdata = kdata - 2147483648) by (unfold v2p; rewrite u32_small; lia).
  assert (Hs1 : u32 (v2p kdata - v2p KERNLINK) = kdata - 2148532224) by (change (v2p KERNLINK) with 1048576; rewrite u32_small; lia).
  assert (Hs2 : u32 (PHYSTOP - v2p kdata) = 2382364672 - kdata) by (rewrite u32_small; lia).
  apply Z.mod_divide in Hkalign as [c Hc]; [|done]. unfold PGSIZE in Hc.
  change UPAGES with 524288. cbn [kmap_ok kmap]. unfold kfirst, kcount. cbn [fst snd]. rewrite Hs1, Hs2, Hv.
  change (u32 (0 - DEVSPACE)) with 33554432. change (u32 (EXTMEM - 0)) with 1048576. change (v2p KERNLINK) with 1048576.
  unfold DEVSPACE, PTE_W, PGSIZE. rewrite Hl, Hb. split_and!; try (Z.to_euclidean_division_equations; lia).
Qed.

(** What growing the structure leaves as it is. *)
Record grown k F pgdir pd k' F' pd' : Prop := {
  gr_space : space k' F' pgdir pd';
  gr_free : F' `suffix_of` F;
  gr_own : ∀ v, own_page pgdir pd' v → own_page pgdir pd v ∨ v ∈ F;
  gr_all : ∀ v, own_page pgdir pd v ∨ v ∈ F → own_page pgdir pd' v ∨ v ∈ F';
  gr_kept : kept k k' F pgdir pd;
}.

Lemma grown_refl k F pgdir pd : space k F pgdir pd → grown k F pgdir pd k F pd.
Proof. intros S. split; [done|done|by left|done|done]. Qed.

Lemma mapped_grown k F pgdir pd q n pa perm k' F' pd' :
  mapped_to kend held en k F pgdir pd q n pa perm k' F' pd' → grown k F pgdir pd k' F' pd'.
Proof. intros [M1 M2 M3 M4 M5 M6]. by split. Qed.

Lemma suffix_elem (F F' : list Z) v : F' `suffix_of` F → v ∈ F' → v ∈ F.
Proof. intros [z ->] Hv. set_solver. Qed.

Lemma grown_trans k F pgdir pd k1 F1 pd1 k2 F2 pd2 :
  grown k F pgdir pd k1 F1 pd1 → grown k1 F1 pgdir pd1 k2 F2 pd2 → grown k F pgdir pd k2 F2 pd2.
Proof.
  intros [S1 G1 O1 A1 K1] [S2 G2 O2 A2 K2]. split; [done|by etrans| |auto|].
  - intros v Hv. destruct (O2 v Hv) as [Hv1|Hv1]; [by apply O1|right; by eapply suffix_elem].
  - intros v HvF Hno. rewrite K2; [by apply K1|by intros ?%(suffix_elem F)|]. intros [?|?]%O1; done.
Qed.

Lemma kmap_loop_spec l lo k F pgdir pd (Q : bool → kmem → Prop) :
  space k F pgdir pd → 0 ≤ lo → kmap_ok lo l → (∀ q, lo ≤ q < 2 ^ 20 → pte_at (km_mem k) pd q = None) →
  (∀ b k' F' pd', grown k F pgdir pd k' F' pd' → (if (b : bool) then ∀ q, 0 ≤ q < 2 ^ 20 →
      pte_at (km_mem k') pd' q = if decide (lo ≤ q) then kmap_pte l q else pte_at (km_mem k) pd q
    else F' = []) → Q b k') →
  wp (kmap_loop l pgdir) Q k.
Proof.
  revert lo k F pd. induction l as [|[[[virt start] stop] perm] l IH]; intros lo k F pd S H0 Hok Hnone HQ; cbn [kmap_loop].
  { apply wp_ret. eapply HQ; [by apply grown_refl|]. intros q Hq. case_decide; [apply Hnone; lia|done]. }
  cbn [kmap_ok] in Hok. set (x := (virt, start, stop, perm)) in *. set (size := u32 (stop - start)) in *.
  destruct Hok as ((Hlo & Hv0 & Hva & Hs0 & Hsa & Hve) & (Hp0 & Hpa & Hpe & Hperm) & Hl).
  assert (Hn : (virt + size - 1) / PGSIZE - virt / PGSIZE + 1 = kcount x).
  { unfold kcount, x. cbn [fst snd]. fold size. unfold PGSIZE in *. Z.to_euclidean_division_equations; lia. }
  assert (Hc : 1 ≤ kcount x ∧ PGSIZE * kcount x = size ∧ kfirst x + kcount x ≤ 2 ^ 20).
  { unfold kcount, kfirst, x. cbn [fst snd]. fold size. unfold PGSIZE in *. Z.to_euclidean_division_equations; lia. }
  destruct Hc as (Hc1 & Hc2 & Hc3). apply wp_bind.
  eapply (mappages_spec kend (Z.lt_le_incl _ _ Hkend) held en k F pgdir pd); rewrite ?Hn; [exact S|done|done|done|done| |done|done| |].
  { unfold PGSIZE in *. lia. }
  { intros q Hq. apply Hnone. change (virt / PGSIZE) with (kfirst x) in Hq. lia. }
  change (virt / PGSIZE) with (kfirst x). intros r k1 F1 pd1 j M Hr. destruct Hr as [[-> ->]|(-> & _ & ->)].
  2: { simpl. apply wp_ret. by eapply HQ; [by eapply mapped_grown|]. }
  change (0 <? 0) with false. cbv iota. eapply (IH (kfirst x + kcount x) k1 F1 pd1); [apply M|lia|exact Hl| |].
  - intros q Hq. rewrite (mt_pte _ _ _ _ _ _ _ _ _ _ _ _ _ _ M) by lia. rewrite decide_False by lia. apply Hnone. lia.
  - intros b k2 F2 pd2 G Hb. eapply HQ; [eapply grown_trans; [by eapply mapped_grown|exact G]|]. destruct b; [|done].
    intros q Hq. rewrite Hb by done. rewrite (mt_pte _ _ _ _ _ _ _ _ _ _ _ _ _ _ M) by done. cbn [kmap_pte].
    destruct (decide (kfirst x ≤ q < kfirst x + kcount x)).
    + by rewrite decide_False, decide_True by lia.
    + case_decide; [by rewrite decide_True by lia|]. destruct (decide (lo ≤ q)); [|done]. rewrite Hnone by lia.
      symmetry. eapply kmap_pte_below; [exact Hl|lia].
Qed.

(** The pages of a directory are at most 1025. *)
Lemma own_few d pd l F : NoDup F → (∀ v, v ∈ F → own_page d pd v ∨ v ∈ l) → (length F ≤ 1025 + length l)%nat.
Proof.
  intros Hnd Hall. set (o := d :: ((λ i, tab (ent pd i)) <$> seqZ 0 1024)).
  assert (Ho : length o = 1025%nat) by (unfold o; cbn [length]; rewrite length_fmap, length_seqZ; lia).
  rewrite <- Ho, <- length_app. apply submseteq_length, NoDup_submseteq; [done|]. intros v Hv. apply elem_of_app.
  destruct (Hall v Hv) as [[->|(i & Hi & _ & ->)]|?]; [left; by apply elem_of_cons; left| |by right].
  left. apply elem_of_cons. right. apply list_elem_of_fmap. exists i. split; [done|]. apply elem_of_seqZ. lia.
Qed.

(** setupkvm(): a new directory with the kernel part and nothing else, made of
    pages that were free. *)
Lemma setupkvm_spec k F (Q : Z → kmem → Prop) :
  free_list k F → km_ready k held en →
  (∀ k', free_list k' [] → km_ready k' held en → (∀ v, v ∉ F → km_mem k' !! v = km_mem k !! v) → (length F ≤ 1025)%nat → Q 0 k') →
  (∀ d k' F' pd, space k' F' d pd → d ∈ F → F' `suffix_of` F →
    (∀ v, own_page d pd v → v ∈ F) → (∀ v, v ∈ F → own_page d pd v ∨ v ∈ F') →
    (∀ v, v ∉ F → km_mem k' !! v = km_mem k !! v) →
    (∀ q, 0 ≤ q < 2 ^ 20 → pte_at (km_mem k') pd q = kernel_pte q) → Q d k') →
  wp (setupkvm kdata) Q k.
Proof.
  intros Hf Hr Hfail Hok. unfold setupkvm. apply wp_bind. eapply kalloc_spec; [exact Hf|exact Hr|]. intros k1 Hf1 Hfr Hm1.
  destruct F as [|d F]; cbn [hd tail] in *.
  { change (0 =? 0) with true. cbv iota. apply wp_ret, Hfail; [done|apply Hfr| |simpl; lia]. intros v _. by rewrite Hm1. }
  pose proof Hf as [(_ & Hp & pg & Hpg & Hlen & _) [HdF Hnd]%NoDup_cons]. destruct (page_pos _ d Hp) as [Hd0 _].
  rewrite (proj2 (Z.eqb_neq d 0)) by done. apply wp_bind. eapply wp_wr_page; [by rewrite Hm1|]. apply wp_bind, wp_panic_if; [done|].
  set (k2 := k1 <| km_mem ::= λ m, <[d := zero_page]> m |>). assert (S2 : space k2 F d zero_page).
  { split; [|apply Hfr|].
    - eapply free_list_ext; [exact Hf1|done|]. intros v Hv. simpl. apply lookup_insert_ne. intros ->. done.
    - split; [done|simpl; apply lookup_insert_eq|apply length_zero_page|done| |]; intros i; rewrite ent_zero; done. }
  assert (Hz : ∀ q, pte_at (km_mem k2) zero_page q = None) by (intros q; unfold pte_at, table; by rewrite ent_zero).
  assert (Hown : ∀ v, own_page d zero_page v → v = d) by (intros v [->|(i & _ & Hi & _)]; [done|by rewrite ent_zero in Hi]).
  apply wp_bind. eapply kmap_loop_spec; [exact S2| |apply kmap_kdata|done|]; [done|].
  intros b k3 F3 pd3 [S3 G3 O3 A3 K3] Hb.
  assert (Hk : ∀ v, v ∉ d :: F → km_mem k3 !! v = km_mem k !! v).
  { intros v [Hvd HvF]%not_elem_of_cons. rewrite K3; [|done|by intros ?%Hown]. simpl. rewrite lookup_insert_ne by done. by rewrite Hm1. }
  destruct b; apply wp_ret.
  - eapply Hok; [exact S3|by apply elem_of_cons; left|by apply suffix_cons_r| | |exact Hk|].
    + intros v Hv. apply elem_of_cons. destruct (O3 v Hv) as [->%Hown|?]; [by left|by right].
    + intros v [->|Hv]%elem_of_cons; apply A3; [by left; left|by right].
    + intros q Hq. rewrite Hb by done. unfold kernel_pte. case_decide; [done|]. rewrite Hz. symmetry. eapply kmap_pte_below; [apply kmap_kdata|lia].
  - subst F3. apply Hfail; [apply S3|apply S3|exact Hk|]. apply (own_few d pd3 [] (d :: F)); [apply Hf|].
    intros v [->|Hv]%elem_of_cons; apply A3; [by left; left|by right].
Qed.

(** ** Copying the user part *)

Lemma PTE_FLAGS_mod e : PTE_FLAGS e = e mod PGSIZE.
Proof.
  unfold PTE_FLAGS, u32. change 4095 with (Z.ones 12). rewrite Z.land_ones by lia. change (2 ^ 12) with PGSIZE.
  change (2 ^ 32) with (PGSIZE * 2 ^ 20). rewrite Z.rem_mul_r by done. rewrite Z.mul_comm, Z.mod_add by done. by apply Z.mod_mod.
Qed.

Lemma PTE_FLAGS_entry p f : p mod PGSIZE = 0 → 0 ≤ f < PGSIZE → PTE_FLAGS (p + f) = f.
Proof. intros Hp Hf. rewrite PTE_FLAGS_mod, Z.add_mod, Hp by done. rewrite Z.add_0_l, Z.mod_mod by done. by apply Z.mod_small. Qed.

(** The flags of a present entry have PTE_P. *)
Lemma present_flags e : flag e PTE_P = true → Z.lor (PTE_FLAGS e) PTE_P = PTE_FLAGS e.
Proof.
  intros Hf. rewrite PTE_FLAGS_mod. assert (H0 : Z.testbit (e mod PGSIZE) 0 = true).
  { change PGSIZE with (2 ^ 12). rewrite Z.mod_pow2_bits_low by lia. unfold flag in Hf. change PTE_P with (Z.ones 1) in Hf.
    rewrite Z.land_ones in Hf by lia. change (2 ^ 1) with 2 in Hf. rewrite <- Z.bit0_mod in Hf. by destruct (Z.testbit e 0). }
  apply Z.bits_inj'. intros n Hn. rewrite Z.lor_spec. destruct (decide (n = 0)) as [->|]; [by rewrite H0|].
  change PTE_P with (2 ^ 0). rewrite Z.pow2_bits_false by lia. apply orb_false_r.
Qed.

(** The user part that is copied: [n] pages, each present with a frame of its own
    bytes. *)
Definition parent_ok m pd F (n : Z) : Prop :=
  ∀ q, 0 ≤ q < n → ∃ e pg, pte_at m pd q = Some e ∧ (tab e ∉ F) ∧ m !! tab e = Some pg ∧ length pg = Z.to_nat PGSIZE.

(** Page [q] of the new directory is a copy, with the same flags, in a page that
    was free. *)
Definition page_copied (m0 : memory) pd F0 m pd2 F d q : Prop :=
  ∃ e e', pte_at m0 pd q = Some e ∧ pte_at m pd2 q = Some e' ∧ PTE_FLAGS e' = PTE_FLAGS e ∧
    (tab e' ∈ F0) ∧ (tab e' ∉ F) ∧ ¬ own_page d pd2 (tab e') ∧ m !! tab e' = m0 !! tab e.

Section loop.
Context (k0 : kmem) (F0 : list Z) (pgdir : Z) (pd : list Z).
Context (S0 : space k0 F0 pgdir pd).

(** The first [q] pages are copied; the pages of [lost] belong to nobody. *)
Record copying d k F pd2 (q : Z) (lost : list Z) : Prop := {
  cp_space : space k F d pd2;
  cp_kept : ∀ v, v ∉ F0 → km_mem k !! v = km_mem k0 !! v;
  cp_free : ∀ v, v ∈ F → v ∈ F0;
  cp_own : ∀ v, own_page d pd2 v → v ∈ F0;
  cp_copied : ∀ q', 0 ≤ q' < q → page_copied (km_mem k0) pd F0 (km_mem k) pd2 F d q';
  cp_inj : ∀ q1 q2 e1 e2, 0 ≤ q1 < q → 0 ≤ q2 < q → pte_at (km_mem k) pd2 q1 = Some e1 → pte_at (km_mem k) pd2 q2 = Some e2 →
    tab e1 = tab e2 → q1 = q2;
  cp_rest : ∀ q', q ≤ q' < 2 ^ 20 → pte_at (km_mem k) pd2 q' = kernel_pte q';
  cp_all : ∀ v, v ∈ F0 → v ∈ F ∨ own_page d pd2 v ∨ frame_in (km_mem k) pd2 0 q v ∨ v ∈ lost;
  cp_lost : ∀ v, v ∈ lost → v ∈ F0 ∧ (v ∉ F) ∧ ¬ own_page d pd2 v ∧ ¬ frame_in (km_mem k) pd2 0 q v;
}.

Lemma kernel_user q : q < UPAGES → kernel_pte q = None.
Proof. intros Hq. eapply kmap_pte_below; [apply kmap_kdata|done]. Qed.

(** The directory that is copied stays as it is. *)
Lemma copying_parent d k F pd2 q lost : copying d k F pd2 q lost →
  space k F pgdir pd ∧ ∀ q', 0 ≤ q' < 2 ^ 20 → pte_at (km_mem k) pd q' = pte_at (km_mem k0) pd q'.
Proof.
  intros [S K Fr _ _ _ _ _ _]. destruct S0 as [_ _ D0].
  assert (Ho : ∀ v, own_page pgdir pd v → v ∉ F0).
  { intros v [->|(i & Hi & Hf & ->)]; [apply D0|by apply (dr_tab _ _ _ _ _ D0)]. }
  assert (Hm : ∀ v, own_page pgdir pd v → km_mem k !! v = km_mem k0 !! v) by (intros v Hv; by apply K, Ho).
  split; [|intros q' Hq'; by eapply pte_at_ext]. split; [apply S|apply S|]. eapply dir_ok_ext; [exact D0|exact Hm|].
  intros v Hv. left. by apply Fr.
Qed.

(** The frames of the copy are pages of its own. *)
Lemma copying_user d k F pd2 q lost : copying d k F pd2 q lost → q ≤ UPAGES → user_ok (km_mem k) d pd2 F.
Proof.
  intros [S K Fr O C I R A L] Hq. assert (HU : UPAGES < 2 ^ 20) by done.
  assert (Hlt : ∀ q' e, 0 ≤ q' < UPAGES → pte_at (km_mem k) pd2 q' = Some e → q' < q).
  { intros q' e Hq' He. destruct (decide (q' < q)); [done|]. rewrite R, kernel_user in He by lia. done. }
  split.
  - intros q' e Hq' He. pose proof (Hlt q' e Hq' He). destruct (C q' ltac:(lia)) as (e0 & e' & _ & He' & _ & H1 & H2 & H3 & _).
    rewrite He in He'. injection He' as <-. split_and!; [|done|done]. destruct S0 as [[Hl _] _ _]. by eapply linked_page.
  - intros q1 q2 e1 e2 H1 H2 He1 He2. pose proof (Hlt _ _ H1 He1). pose proof (Hlt _ _ H2 He2). apply I; done || lia.
Qed.

Lemma frame_in_more m m' pd1 pd2 q0 q1 q2 w : (∀ q, q0 ≤ q < q1 → pte_at m' pd2 q = pte_at m pd1 q) → q1 ≤ q2 →
  frame_in m pd1 q0 q1 w → frame_in m' pd2 q0 q2 w.
Proof. intros Hp Hq (q & e & Hqq & He & ->). exists q, e. rewrite Hp by done. split_and!; try done; lia. Qed.

(** One more page: [v] is taken, filled and mapped at [q] ([j] is 1), or [v] is
    lost because there was no page for the table ([j] is 0). *)
Lemma copying_step d k v F pd2 q e pg k2 j k3 F3 pd3 :
  copying d k (v :: F) pd2 q [] → 0 ≤ q < UPAGES → pte_at (km_mem k0) pd q = Some e → flag e PTE_P = true →
  km_mem k0 !! tab e = Some pg → km_mem k2 = <[v := pg]> (km_mem k) → 0 ≤ j ≤ 1 →
  mapped_to kend held en k2 F d pd2 q j (v2p v) (PTE_FLAGS e) k3 F3 pd3 →
  copying d k3 F3 pd3 (q + j) (if decide (j = 1) then [] else [v]).
Proof.
  intros [S K Fr O C I R A L] Hq He Hfl Hpg Hk2 Hj [S3 M1 M2 M3 M4 M5]. assert (HU : UPAGES < 2 ^ 20) by done.
  pose proof S as [[Hl [HvF Hnd]%NoDup_cons] _ D].
  assert (Hpv : page v) by (eapply linked_page; [exact Hl|set_solver]).
  assert (Hown : ∀ w, own_page d pd2 w → w ∉ v :: F).
  { intros w [->|(i & Hi & Hf & ->)]; [apply D|by apply (dr_tab _ _ _ _ _ D)]. }
  assert (Hvo : ¬ own_page d pd2 v) by (intros ?%Hown; set_solver).
  assert (HF3 : ∀ w, w ∈ F3 → w ∈ F) by (intros w; by apply suffix_elem).
  assert (Hvo3 : ¬ own_page d pd3 v) by (intros [?|?]%M3; done).
  assert (Hp2 : ∀ q', 0 ≤ q' < 2 ^ 20 → pte_at (km_mem k2) pd2 q' = pte_at (km_mem k) pd2 q').
  { intros q' Hq'. eapply pte_at_ext; [exact D|done|]. intros w Hw. rewrite Hk2. apply lookup_insert_ne. intros ->. done. }
  assert (Hold : ∀ q', 0 ≤ q' < q → pte_at (km_mem k3) pd3 q' = pte_at (km_mem k) pd2 q').
  { intros q' Hq'. rewrite M2 by lia. rewrite decide_False by lia. apply Hp2. lia. }
  assert (Hnew : j = 1 → ∃ e', pte_at (km_mem k3) pd3 q = Some e' ∧ tab e' = v ∧ PTE_FLAGS e' = PTE_FLAGS e).
  { intros ->. destruct (page_v2p _ (Z.lt_le_incl _ _ Hkend) v Hpv) as (Hb & Ha & _).
    assert (Hfb : 0 ≤ PTE_FLAGS e < PGSIZE) by (rewrite PTE_FLAGS_mod; by apply Z.mod_pos_bound).
    exists (v2p v + PTE_FLAGS e). rewrite M2, decide_True by lia. unfold entry_for. rewrite present_flags by done.
    split; [f_equal; lia|]. split; [by apply (tab_entry kend (Z.lt_le_incl _ _ Hkend))|by apply PTE_FLAGS_entry]. }
  assert (Hmem : ∀ w, w ∉ v :: F → ¬ own_page d pd2 w → km_mem k3 !! w = km_mem k !! w).
  { intros w [Hwv HwF]%not_elem_of_cons Hwo. rewrite M5 by done. rewrite Hk2. by apply lookup_insert_ne. }
  assert (Hfr : ∀ q', 0 ≤ q' < q → ∃ e', pte_at (km_mem k) pd2 q' = Some e' ∧ (tab e' ∉ v :: F)).
  { intros q' Hq'. destruct (C q' Hq') as (? & e' & _ & He' & _ & _ & HF' & _). by exists e'. }
  split.
  - done.
  - intros w Hw. rewrite Hmem; [by apply K|by intros ?%Fr|by intros ?%O].
  - intros w Hw%HF3. apply Fr. set_solver.
  - intros w [Hw|Hw]%M3; [by apply O|apply Fr; set_solver].
  - intros q' Hq'. destruct (decide (q' < q)) as [Hlt|Hge].
    + destruct (C q' ltac:(lia)) as (e0 & e' & H1 & H2 & H3 & H4 & H5 & H6 & H7). exists e0, e'. rewrite Hold by lia.
      split_and!; [done..| | |]; [intros ?%HF3; set_solver|intros [?|?]%M3; set_solver|by rewrite Hmem].
    + replace q' with q by lia. destruct (Hnew ltac:(lia)) as (e' & H1 & H2 & H3). exists e, e'. rewrite H2.
      split_and!; [done..|apply Fr; set_solver|by intros ?%HF3|done|]. rewrite M5 by done. by rewrite Hk2, lookup_insert_eq, Hpg.
  - assert (Hvf : ∀ q' e', 0 ≤ q' < q → pte_at (km_mem k3) pd3 q' = Some e' → tab e' ≠ v).
    { intros q' e' Hq'. rewrite Hold by done. destruct (Hfr q' Hq') as (e1 & -> & Hn). intros [= <-] Ht. rewrite Ht in Hn. set_solver. }
    intros q1 q2 e1 e2 Hq1 Hq2 He1 He2 Ht. destruct (decide (q1 < q)), (decide (q2 < q)).
    + rewrite Hold in He1, He2 by lia. by apply (I q1 q2 e1 e2); [lia|lia|..].
    + exfalso. replace q2 with q in He2 by lia. destruct (Hnew ltac:(lia)) as (e' & H1 & H2 & _). apply (Hvf q1 e1); [lia|done|congruence].
    + exfalso. replace q1 with q in He1 by lia. destruct (Hnew ltac:(lia)) as (e' & H1 & H2 & _). apply (Hvf q2 e2); [lia|done|congruence].
    + lia.
  - intros q' Hq'. rewrite M2 by lia. rewrite decide_False by lia. rewrite Hp2 by lia. apply R. lia.
  - intros w Hw. destruct (A w Hw) as [[->|HwF]%elem_of_cons|[Ho|[Hf|?%not_elem_of_nil]]]; [| | | |done].
    + case_decide as Hd; [|right; right; right; set_solver]. right; right; left. destruct (Hnew Hd) as (e' & H1 & H2 & _).
      exists q, e'. split_and!; [lia..|done|done].
    + destruct (M4 w (or_intror HwF)); [by right; left|by left].
    + destruct (M4 w (or_introl Ho)); [by right; left|by left].
    + right; right; left. eapply frame_in_more; [apply Hold|lia|done].
  - intros w Hw. case_decide as Hd; [by apply not_elem_of_nil in Hw|]. apply list_elem_of_singleton in Hw as ->.
    split_and!; [apply Fr; set_solver|by intros ?%HF3|done|]. intros (q' & e' & Hq' & He' & Ht).
    rewrite Hold in He' by lia. destruct (Hfr q' ltac:(lia)) as (e1 & He1 & Hn). rewrite He' in He1. injection He1 as <-. rewrite <- Ht in Hn. set_solver.
Qed.

Lemma flag_present m pd' q e : pte_at m pd' q = Some e → flag e PTE_P = true.
Proof. intros (t & tb & _ & _ & _ & H)%present_table. done. Qed.

(** kalloc() and memmove() of a turn of the loop: the page [v] and its bytes. *)
Lemma space_took d k v F pd2 k1 pg : space k (v :: F) d pd2 → free_list k1 F → km_ready k1 held en → km_mem k1 = km_mem k →
  space (k1 <| km_mem ::= λ m, <[v := pg]> m |>) F d pd2.
Proof.
  intros [[_ [HvF _]%NoDup_cons] _ D] Hf1 Hr1 Hm1. split; [|done|].
  - eapply free_list_ext; [exact Hf1|done|]. intros w Hw. simpl. apply lookup_insert_ne. intros ->. done.
  - simpl. rewrite Hm1. eapply dir_ok_ext; [exact D| |by left; set_solver].
    intros w Hw. apply lookup_insert_ne. intros <-. destruct Hw as [->|(i & Hi & Hf & ->)].
    + apply (dr_used _ _ _ _ _ D). set_solver.
    + destruct (dr_tab _ _ _ _ _ D i Hi Hf) as (_ & H & _). set_solver.
Qed.

Lemma one_page q : (PGSIZE * q + PGSIZE - 1) / PGSIZE - PGSIZE * q / PGSIZE + 1 = 1.
Proof. unfold PGSIZE. Z.to_euclidean_division_equations; lia. Qed.

Lemma own_not_free d k F pd2 w : space k F d pd2 → own_page d pd2 w → w ∉ F.
Proof. intros [_ _ D] [->|(i & Hi & Hf & ->)]; [apply D|by apply (dr_tab _ _ _ _ _ D)]. Qed.

(** The second half of a turn: the page [v] taken from the free list is filled
    and mapped. *)
Lemma copy_into_spec d k v F pd2 q e pg k1 (rest : M kmem bool) (Q : bool → kmem → Prop) :
  copying d k (v :: F) pd2 q [] → 0 ≤ q < UPAGES → pte_at (km_mem k0) pd q = Some e → (tab e ∉ F0) → km_mem k0 !! tab e = Some pg →
  free_list k1 F → km_ready k1 held en → km_mem k1 = km_mem k →
  (∀ k' F' pd', copying d k' F' pd' (q + 1) [] → wp rest Q k') →
  (∀ k' pd', copying d k' [] pd' q [v] → Q false k') →
  wp (pg ← rd_page (tab e); wr_page v pg;; r ← mappages d (PGSIZE * q) PGSIZE (v2p v) (PTE_FLAGS e);
      if r <? 0 then mret false else rest) Q k1.
Proof.
  intros Hc Hq He HeF Hpg Hf1 Hr1 Hm1 Hok Hbad. pose proof (cp_space _ _ _ _ _ _ Hc) as S. assert (HU : UPAGES = 2 ^ 19) by done.
  pose proof (sp_free _ _ _ _ _ _ _ S) as [(_ & Hpv & pgv & Hpgv & _) _].
  apply wp_bind. eapply wp_rd_page; [rewrite Hm1, (cp_kept _ _ _ _ _ _ Hc) by done; exact Hpg|].
  apply wp_bind. eapply wp_wr_page; [rewrite Hm1; exact Hpgv|].
  set (k2 := k1 <| km_mem ::= λ m, <[v := pg]> m |>). assert (S2 : space k2 F d pd2) by (eapply space_took; done).
  destruct (page_v2p _ (Z.lt_le_incl _ _ Hkend) v Hpv) as (Hb & Ha & _).
  assert (Hfb : 0 ≤ PTE_FLAGS e < PGSIZE) by (rewrite PTE_FLAGS_mod; by apply Z.mod_pos_bound).
  assert (Hdiv : PGSIZE * q / PGSIZE = q) by (rewrite Z.mul_comm; by apply Z.div_mul).
  assert (Hk2 : km_mem k2 = <[v := pg]> (km_mem k)) by (simpl; by rewrite Hm1).
  assert (Hun : pte_at (km_mem k2) pd2 q = None).
  { rewrite <- (kernel_user q), <- (cp_rest _ _ _ _ _ _ Hc q) by lia. eapply pte_at_ext; [apply S|lia|].
    intros w Hw. rewrite Hk2. apply lookup_insert_ne. intros <-. apply (own_not_free _ _ _ _ _ S Hw). set_solver. }
  pose proof (one_page q) as Hcnt.
  apply wp_bind. eapply (mappages_spec kend (Z.lt_le_incl _ _ Hkend) held en k2 F d pd2); rewrite ?Hcnt, ?Hdiv; [exact S2| |done| | | |done|done| |].
  all: try (clear -Hq HU Hb; unfold PGSIZE in *; lia).
  { intros q' Hq'. by replace q' with q by lia. }
  intros r k3 F3 pd3 j M Hr. assert (Hj : 0 ≤ j ≤ 1) by lia.
  pose proof (copying_step d k v F pd2 q e pg k2 j k3 F3 pd3 Hc Hq He (flag_present _ _ _ _ He) Hpg Hk2 Hj M) as Hc3.
  destruct Hr as [[-> ->]|(-> & Hj0 & ->)].
  - rewrite decide_True in Hc3 by done. by eapply Hok.
  - apply wp_ret. replace j with 0 in Hc3 by lia. rewrite Z.add_0_r in Hc3. by eapply Hbad.
Qed.

(** A turn of the loop. *)
Lemma copy_turn_spec d k F pd2 q e pg (rest : M kmem bool) (Q : bool → kmem → Prop) :
  copying d k F pd2 q [] → 0 ≤ q < UPAGES → pte_at (km_mem k0) pd q = Some e → (tab e ∉ F0) → km_mem k0 !! tab e = Some pg →
  (∀ k' F' pd', copying d k' F' pd' (q + 1) [] → wp rest Q k') →
  (∀ k' pd' lost, copying d k' [] pd' q lost → (length lost ≤ 1)%nat → Q false k') →
  wp (pte ← walkpgdir pgdir (PGSIZE * q) false;
      panic_if (pte =? 0) "copyuvm: pte should exist";;
      e ← rd32 pte;
      panic_if (negb (flag e PTE_P)) "copyuvm: page not present";;
      mem ← kalloc;
      if mem =? 0 then mret false
      else
        pg ← rd_page (p2v (PTE_ADDR e));
        wr_page mem pg;;
        r ← mappages d (PGSIZE * q) PGSIZE (v2p mem) (PTE_FLAGS e);
        if r <? 0 then mret false else rest) Q k.
Proof.
  intros Hc Hq He HeF Hpg Hok Hbad. assert (HU : UPAGES = 2 ^ 19) by done. destruct (copying_parent _ _ _ _ _ _ Hc) as [Sp Hpp].
  assert (Hq20 : 0 ≤ q < 2 ^ 20) by lia. pose proof He as He1. rewrite <- Hpp in He1 by done.
  destruct (present_table _ _ _ _ He1) as (t & tb & Ht & Htb & Hent & Hfl).
  assert (Hdiv : PGSIZE * q / PGSIZE = q) by (rewrite Z.mul_comm; by apply Z.div_mul).
  assert (Hva : 0 ≤ PGSIZE * q < 2 ^ 32) by (unfold PGSIZE; lia).
  destruct (PTX_page _ Hva) as [Hptx Hptr]. rewrite Hdiv in Hptx. apply wp_bind.
  eapply (walk_spec kend (Z.lt_le_incl _ _ Hkend) held en k F pgdir pd); rewrite ?Hdiv; [exact Sp|exact Hva| |by rewrite Ht|by rewrite Ht].
  intros t' Ht'. rewrite Ht in Ht'. injection Ht' as <-.
  destruct (table_own _ _ _ _ _ _ _ (sp_dir _ _ _ _ _ _ _ Sp) Hq20 Ht) as (_ & Hpt & _). destruct (page_pos _ t Hpt) as [_ Hta], Hpt as [Htr _].
  apply wp_bind, wp_panic_if; [apply Z.eqb_neq; lia|]. apply wp_bind. eapply wp_rd32; [done|done|exact Htb|]. rewrite Hptx, Hent.
  apply wp_bind, wp_panic_if; [by rewrite Hfl|]. apply wp_bind. pose proof (cp_space _ _ _ _ _ _ Hc) as S.
  eapply kalloc_spec; [apply S|apply S|]. intros k1 Hf1 Hfr Hm1. destruct F as [|v F]; cbn [hd tail] in *.
  - change (0 =? 0) with true. cbv iota. apply wp_ret. eapply (Hbad _ pd2 []); [|simpl; lia].
    destruct Hc as [[C1 C1' C1''] C2 C3 C4 C5 C6 C7 C8 C9]. split; rewrite ?Hm1; try done. split; [done|apply Hfr|by rewrite Hm1].
  - pose proof (sp_free _ _ _ _ _ _ _ S) as [(_ & Hpv & _) _]. destruct (page_pos _ v Hpv) as [Hv0 _].
    rewrite (proj2 (Z.eqb_neq v 0)) by done. fold (tab e). eapply copy_into_spec; [exact Hc|done|done|done|done|done|apply Hfr|done|done|].
    intros k' pd' H. by eapply Hbad.
Qed.

Lemma copy_loop_spec fuel d k F pd2 q sz (Q : bool → kmem → Prop) :
  copying d k F pd2 q [] → 0 ≤ q → 0 ≤ sz ≤ KERNBASE → q ≤ (sz + PGSIZE - 1) / PGSIZE → sz / PGSIZE - q < Z.of_nat fuel →
  parent_ok (km_mem k0) pd F0 ((sz + PGSIZE - 1) / PGSIZE) →
  (∀ k' F' pd', copying d k' F' pd' ((sz + PGSIZE - 1) / PGSIZE) [] → Q true k') →
  (∀ k' pd' q' lost, copying d k' [] pd' q' lost → 0 ≤ q' < (sz + PGSIZE - 1) / PGSIZE → (length lost ≤ 1)%nat → Q false k') →
  wp (copy_loop fuel pgdir d (PGSIZE * q) sz) Q k.
Proof.
  set (n := (sz + PGSIZE - 1) / PGSIZE). revert k F pd2 q. induction fuel as [|fuel IH]; intros k F pd2 q Hc Hq Hsz Hqn Hfuel Hpar Hok Hbad; cbn [copy_loop].
  all: assert (Hn : n ≤ UPAGES) by (clear -Hsz; unfold n, UPAGES, PGSIZE, KERNBASE in *; Z.to_euclidean_division_equations; lia).
  all: assert (Hlt : PGSIZE * q < sz ↔ q < n) by (clear; unfold n, PGSIZE in *; Z.to_euclidean_division_equations; lia).
  all: destruct (Z.ltb_spec (PGSIZE * q) sz) as [Hl|Hl]; [|apply wp_ret; replace n with q in Hok by lia; by eapply Hok].
  { clear -Hl Hfuel. unfold PGSIZE in *. Z.to_euclidean_division_equations; lia. }
  destruct (Hpar q ltac:(lia)) as (e & pg & He & HeF & Hpg & Hlen). assert (HU : UPAGES = 2 ^ 19) by done.
  eapply copy_turn_spec; [exact Hc|lia|exact He|done|done| |].
  - intros k' F' pd' Hc'. replace (u32 (PGSIZE * q + PGSIZE)) with (PGSIZE * (q + 1)) by (rewrite u32_small; unfold PGSIZE in *; lia).
    eapply (IH k' F' pd'); [exact Hc'|lia|done|lia|lia|done|exact Hok|exact Hbad].
  - intros k' pd' lost Hc' Hlost. eapply Hbad; [exact Hc'|fold n; lia|done].
Qed.

(** Freeing the copy gives back every page it was made of. *)
Lemma copying_freed d k F pd2 q lost (Q : unit → kmem → Prop) :
  copying d k F pd2 q lost → q ≤ UPAGES → NoDup lost →
  (∀ k' F', free_list k' F' → km_ready k' held en → F' ++ lost ≡ₚ F0 → (∀ v, v ∉ F0 → km_mem k' !! v = km_mem k0 !! v) → Q tt k') →
  wp (freevm kend d) Q k.
Proof.
  intros Hc Hq Hnd HQ. pose proof (copying_user _ _ _ _ _ _ Hc Hq) as U. destruct Hc as [S K Fr O C I R A L].
  assert (HU : UPAGES < 2 ^ 20) by done.
  assert (Hfr : ∀ v, frame_in (km_mem k) pd2 0 UPAGES v ↔ frame_in (km_mem k) pd2 0 q v).
  { intros v. split; intros (q' & e & Hq' & He & ->); exists q', e; (split; [|done]); [|lia].
    destruct (decide (q' < q)); [lia|]. rewrite R, kernel_user in He by lia. done. }
  eapply freevm_spec; [exact Hkend|exact S|exact U|]. intros k' F' Hf' Hr' HF' Hm'.
  assert (Hsub : ∀ v, v ∈ F' → v ∈ F0).
  { intros v. rewrite HF'. intros [?|[?|Hv%Hfr]]; [by apply Fr|by apply O|]. destruct Hv as (q' & e & Hq' & He & ->).
    destruct (C q' ltac:(lia)) as (e0 & e' & _ & He' & _ & HF & _). by simplify_eq. }
  eapply HQ; [exact Hf'|done| |].
  - apply NoDup_Permutation; [|apply S0|].
    + apply NoDup_app. split_and!; [apply Hf'| |done]. intros v Hv%HF' Hl. destruct (L v Hl) as (_ & H1 & H2 & H3).
      destruct Hv as [?|[?|?%Hfr]]; done.
    + intros v. rewrite elem_of_app. split; [intros [?|?]; [by apply Hsub|by apply L]|]. intros Hv. rewrite HF', Hfr.
      destruct (A v Hv) as [?|[?|[?|?]]]; auto.
  - intros v Hv. rewrite Hm'; [by apply K|]. by intros ?%Hsub.
Qed.

(** A copy that has used up the free list is large. *)
Lemma copying_few d k pd2 q lost : copying d k [] pd2 q lost → 0 ≤ q → Z.of_nat (length F0) ≤ 1025 + q + Z.of_nat (length lost).
Proof.
  intros Hc Hq. set (fr := (λ i, tab (default 0 (pte_at (km_mem k) pd2 i))) <$> seqZ 0 q).
  assert (Hfr : length fr = Z.to_nat q) by (unfold fr; rewrite length_fmap, length_seqZ; lia).
  assert (H : (length F0 ≤ 1025 + length (fr ++ lost))%nat); [|rewrite length_app in H; lia].
  apply (own_few d pd2); [apply S0|]. intros v Hv. rewrite elem_of_app.
  destruct (cp_all _ _ _ _ _ _ Hc v Hv) as [?%not_elem_of_nil|[?|[(q' & e & Hq' & He & ->)|?]]]; [done|by left| |by right; right].
  right; left. apply list_elem_of_fmap. exists q'. rewrite He. split; [done|]. apply elem_of_seqZ. lia.
Qed.

(** copyuvm() makes a copy, or fails and gives back what it took, apart from a
    page. When setupkvm() fails nothing is given back. *)
Lemma copyuvm_spec sz (Q : Z → kmem → Prop) :
  0 ≤ sz ≤ KERNBASE → parent_ok (km_mem k0) pd F0 ((sz + PGSIZE - 1) / PGSIZE) →
  (∀ d k' F' pd', copying d k' F' pd' ((sz + PGSIZE - 1) / PGSIZE) [] → d ≠ 0 → Q d k') →
  (∀ k' F' lost, free_list k' F' → km_ready k' held en → (∀ v, v ∉ F0 → km_mem k' !! v = km_mem k0 !! v) →
    F' = [] ∨ (F' ++ lost ≡ₚ F0 ∧ (length lost ≤ 1)%nat) →
    Z.of_nat (length F0) ≤ 1025 + (sz + PGSIZE - 1) / PGSIZE → Q 0 k') →
  wp (copyuvm kend kdata pgdir sz) Q k0.
Proof.
  intros Hsz Hpar Hok Hbad. unfold copyuvm. apply wp_bind. eapply setupkvm_spec; [apply S0|apply S0| |].
  { intros k1 Hf1 Hr1 Hm1 Hfew. change (0 =? 0) with true. cbv iota. apply wp_ret. eapply (Hbad _ [] []); [done|done|done|by left|].
    pose proof (Z.div_pos (sz + PGSIZE - 1) PGSIZE ltac:(unfold PGSIZE; lia) ltac:(done)). lia. }
  intros d k1 F1 pd1 S1 Hd HF1 O1 A1 K1 P1. destruct (page_pos _ _ (dr_page _ _ _ _ _ (sp_dir _ _ _ _ _ _ _ S1))) as [Hd0 _].
  rewrite (proj2 (Z.eqb_neq d 0)) by done. apply wp_bind. change 0 with (PGSIZE * 0) at 1.
  assert (Hc : copying d k1 F1 pd1 0 []).
  { split; [done|done|intros v; by apply suffix_elem|done|lia|lia|intros q Hq; apply P1; lia| |].
    - intros v Hv. destruct (A1 v Hv); auto.
    - intros v ?%not_elem_of_nil. done. }
  eapply copy_loop_spec; [exact Hc|done|done| | |done| |].
  - apply Z.div_pos; [unfold PGSIZE; lia|done].
  - rewrite Z2Nat.id; [lia|]. pose proof (Z.div_pos sz PGSIZE ltac:(lia) ltac:(done)). lia.
  - intros k' F' pd' Hc'. apply wp_ret. by eapply Hok.
  - intros k' pd' q lost Hc' Hq Hlost. apply wp_bind. pose proof (copying_few _ _ _ _ _ Hc' ltac:(lia)) as Hfew.
    eapply copying_freed; [exact Hc'| | |].
    + clear -Hq Hsz. unfold UPAGES, PGSIZE, KERNBASE in *. Z.to_euclidean_division_equations; lia.
    + destruct lost as [|v [|? ?]]; [constructor|repeat constructor; set_solver|simpl in Hlost; lia].
    + intros k2 F2 Hf2 Hr2 Hp2 Hm2. apply wp_ret. eapply (Hbad _ F2 lost); [done|done|done|by right|lia].
Qed.
End loop.
End copy.
