(* ===== verification/VmFork.v ===== *)
(** * The theorems about copying and freeing address spaces

    copyuvm(), with which fork() makes the memory of the child, and freevm(),
    which wait() and exec() use. [page_copied], [user_ok] and [kernel_pte] are
    the contract; an address space with one page is the instance. *)

From S2P Require Import Prelude Bytes Mem Spinlock Kalloc Vm VmMap VmFree VmCopy.

Section thms.
Context (kend kdata : Z) (Hkend : KERNBASE < kend) (held : list lockid) (en : bool).
Context (Hkdata : KERNLINK < kdata < KERNBASE + PHYSTOP) (Hkalign : kdata mod PGSIZE = 0).

(** C13: copyuvm() isolates the child. It never panics and never changes a page
    that was not free, so the memory and the page tables of the parent stay as
    they are. If it succeeds, each of the pages below [sz] is a copy of the
    parent's page, with the same flags, in a frame of its own that was free
    before; the new page tables are pages that were free, the kernel part is
    that of kmap[], and nothing else is mapped. If it fails, it gives back
    every page it took but at most one, unless the free list is empty; and it
    succeeds when more pages are free than the page tables and [sz] can need. *)
Theorem copyuvm_isolates k F pgdir pd sz :
  let n := (sz + PGSIZE - 1) / PGSIZE in
  space kend held en k F pgdir pd → 0 ≤ sz ≤ KERNBASE → parent_ok (km_mem k) pd F n →
  wp (copyuvm kend kdata pgdir sz) (λ d k',
    (∀ v, v ∉ F → km_mem k' !! v = km_mem k !! v) ∧ (1025 + n < Z.of_nat (length F) → d ≠ 0) ∧
    ∃ F', free_list kend k' F' ∧ km_ready k' held en ∧
    if d =? 0 then F' = [] ∨ ∃ lost, F' ++ lost ≡ₚ F ∧ (length lost ≤ 1)%nat
    else ∃ pd', space kend held en k' F' d pd' ∧ user_ok kend (km_mem k') d pd' F' ∧ (∀ v, own_page d pd' v → v ∈ F) ∧
      (∀ q, 0 ≤ q < n → page_copied (km_mem k) pd F (km_mem k') pd' F' d q) ∧
      (∀ q, n ≤ q < 2 ^ 20 → pte_at (km_mem k') pd' q = kernel_pte kdata q)) k.
Proof.
  intros n S Hsz Hpar. eapply (copyuvm_spec kend kdata Hkend held en Hkdata Hkalign k F pgdir pd S); [done|done| |].
  - intros d k' F' pd' Hc Hd. rewrite (proj2 (Z.eqb_neq d 0)) by done. assert (Hn : n ≤ UPAGES).
    { clear -Hsz. unfold n, UPAGES, PGSIZE, KERNBASE in *. Z.to_euclidean_division_equations; lia. }
    pose proof (copying_user _ _ _ _ Hkdata Hkalign _ _ _ _ S _ _ _ _ _ _ Hc Hn) as U. destruct Hc as [S' K Fr O C I R A L].
    split; [done|]. split; [done|]. exists F'. split; [apply S'|]. split; [apply S'|]. by exists pd'.
  - intros k' F' lost Hf Hr Hm Hl Hfew. split; [done|]. split; [fold n in Hfew; lia|]. exists F'. split; [done|]. split; [done|]. simpl.
    destruct Hl as [?|[? ?]]; [by left|right; by exists lost].
Qed.

(** C34: freevm() undoes copyuvm(): when copyuvm() has made a directory, freevm()
    of it completes and the free list has the same pages as before, every one
    once, and no other page of memory has changed. *)
Theorem copyuvm_freevm k F pgdir pd sz :
  space kend held en k F pgdir pd → 0 ≤ sz ≤ KERNBASE → parent_ok (km_mem k) pd F ((sz + PGSIZE - 1) / PGSIZE) →
  wp (copyuvm kend kdata pgdir sz) (λ d k', d ≠ 0 →
    wp (freevm kend d) (λ _ k'', ∃ F', free_list kend k'' F' ∧ km_ready k'' held en ∧ F' ≡ₚ F ∧
      ∀ v, v ∉ F → km_mem k'' !! v = km_mem k !! v) k') k.
Proof.
  intros S Hsz Hpar. eapply (copyuvm_spec kend kdata Hkend held en Hkdata Hkalign k F pgdir pd S); [done|done| |done].
  intros d k' F' pd' Hc _ _. eapply (copying_freed kend kdata Hkend held en Hkdata Hkalign k F pgdir pd S); [exact Hc| |constructor|].
  - clear -Hsz. unfold UPAGES, PGSIZE, KERNBASE in *. Z.to_euclidean_division_equations; lia.
  - intros k2 F2 Hf2 Hr2 Hp2 Hm2. exists F2. rewrite app_nil_r in Hp2. done.
Qed.
End thms.

(** ** A parent with one page and a free list *)

(** The free pages [p], [p] + PGSIZE, ... linked in this order. *)
Fixpoint chain (n : nat) (p : Z) (m : memory) : memory :=
  match n with
  | O => m
  | S n => <[p := put_le 4 zero_page 0 (match n with O => 0 | _ => p + PGSIZE end)]> (chain n (p + PGSIZE) m)
  end.

Lemma chain_other n p m v : v ∉ pages p n → chain n p m !! v = m !! v.
Proof.
  revert p. induction n as [|n IH]; intros p; [done|]. rewrite pages_S, not_elem_of_cons. intros [Hv Hp]. cbn [chain].
  rewrite lookup_insert_ne by done. by apply IH.
Qed.

Lemma chain_linked kend n p m : (∀ v, v ∈ pages p n → page kend v) → linked kend (chain n p m) (match n with O => 0 | _ => p end) (pages p n).
Proof.
  revert p. induction n as [|n IH]; intros p Hp; [done|]. rewrite pages_S in *. cbn [chain linked].
  assert (Hz : length zero_page = Z.to_nat PGSIZE) by apply length_zero_page.
  split; [done|]. split; [apply Hp; set_solver|]. eexists. split; [apply lookup_insert_eq|].
  split; [by rewrite length_put_le by (rewrite Hz; unfold PGSIZE; lia)|]. rewrite get_put; [|rewrite Hz; unfold PGSIZE; lia|].
  - eapply linked_ext; [|apply (IH (p + PGSIZE)); set_solver]. intros v Hv. apply lookup_insert_ne. intros <-.
    apply elem_of_pages in Hv as (i & _ & Hv). unfold PGSIZE in Hv. lia.
  - destruct n as [|n]; [lia|]. destruct (Hp (p + PGSIZE)) as [? _]; [rewrite pages_S; set_solver|]. lia.
Qed.

Lemma pages_nodup p n : NoDup (pages p n).
Proof. apply NoDup_fmap_2_strong; [|apply NoDup_seq]. intros i j _ _ H. unfold PGSIZE in H. lia. Qed.

Definition tab_page : Z := 2149588992.
Definition user_page : Z := 2149593088.
Definition free0 : Z := 2149597184.
Definition free_pages : list Z := pages free0 1100.
Definition data_page : list Z := replicate (Z.to_nat PGSIZE) 42.
Definition parent_pd : list Z := set_ent zero_page 0 (v2p tab_page + 7).
Definition parent_tb : list Z := set_ent zero_page 0 (v2p user_page + 7).
Definition parent_own : memory := <[dir_page := parent_pd]> (<[tab_page := parent_tb]> (<[user_page := data_page]> ∅)).
Definition parent_kmem : kmem := mkKmem hw0 true free0 (chain 1100 free0 parent_own).

Lemma free_pages_length : length free_pages = 1100%nat.
Proof. unfold free_pages, pages. by rewrite length_fmap, length_seq. Qed.

Lemma parent_at v : v < free0 → (v ∉ free_pages) ∧ km_mem parent_kmem !! v = parent_own !! v.
Proof.
  intros Hv. assert (H : v ∉ free_pages).
  { intros (i & _ & Hi)%elem_of_pages. unfold PGSIZE in Hi. lia. }
  split; [exact H|]. by apply chain_other.
Qed.
#[local] Opaque free_pages chain.

Lemma parent_ent j : 0 ≤ j < 1024 → ent parent_pd j = if decide (j = 0) then v2p tab_page + 7 else 0.
Proof. intros Hj. unfold parent_pd. rewrite ent_set; [by rewrite ent_zero|apply length_zero_page|lia|lia|done]. Qed.

Lemma parent_dir j : 0 ≤ j < 1024 → flag (ent parent_pd j) PTE_P = true → j = 0 ∧ tab (ent parent_pd j) = tab_page.
Proof. intros Hj. rewrite parent_ent by done. case_decide as H; [subst; done|done]. Qed.

Lemma parent_space : space kend0 [] true parent_kmem free_pages dir_page parent_pd.
Proof.
  assert (Hz : length zero_page = Z.to_nat PGSIZE) by apply length_zero_page.
  destruct (parent_at dir_page ltac:(done)) as [Hd1 Hd2]. destruct (parent_at tab_page ltac:(done)) as [Ht1 Ht2]. split.
  - split; [|apply (pages_nodup free0 1100)]. apply (chain_linked kend0 1100 free0 parent_own). intros v (i & Hi & ->)%elem_of_pages.
    unfold page, v2p, PHYSTOP, KERNBASE, kend0, free0, PGSIZE. rewrite u32_small by lia. split_and!; try lia.
    replace (2149597184 + 4096 * Z.of_nat i) with ((524804 + Z.of_nat i) * 4096) by lia. by apply Z.mod_mul.
  - apply hw0_ready.
  - split.
    + apply page_ab. by right.
    + rewrite Hd2. apply lookup_insert_eq.
    + apply length_set_ent; [exact Hz|lia].
    + exact Hd1.
    + intros i Hi Hf. destruct (parent_dir i Hi Hf) as [_ ->]. split; [repeat split; done|]. split; [exact Ht1|]. split; [done|].
      exists parent_tb. split; [|apply length_set_ent; [exact Hz|lia]]. rewrite Ht2. unfold parent_own. rewrite lookup_insert_ne by done. apply lookup_insert_eq.
    + intros i j Hi Hj Hfi Hfj _. destruct (parent_dir i Hi Hfi), (parent_dir j Hj Hfj). lia.
Qed.

Lemma user_page_at : km_mem parent_kmem !! user_page = Some data_page.
Proof. rewrite (proj2 (parent_at user_page ltac:(done))). unfold parent_own. rewrite !lookup_insert_ne by done. apply lookup_insert_eq. Qed.

Lemma parent_pages : parent_ok (km_mem parent_kmem) parent_pd free_pages 1.
Proof.
  intros q Hq. replace q with 0 by lia. exists (v2p user_page + 7), data_page. change (tab (v2p user_page + 7)) with user_page.
  destruct (parent_at tab_page ltac:(done)) as [_ Ht2]. destruct (parent_at user_page ltac:(done)) as [Hu1 _].
  split; [|split; [exact Hu1|split; [apply user_page_at|apply length_replicate]]].
  unfold pte_at, table. change (0 / 1024) with 0. rewrite parent_ent by lia. rewrite decide_True by done.
  change (tab (v2p tab_page + 7)) with tab_page. change (flag (v2p tab_page + 7) PTE_P) with true. cbv iota. cbn [mbind option_bind].
  rewrite Ht2. unfold parent_own. rewrite lookup_insert_ne by done. rewrite lookup_insert_eq. cbn [mbind option_bind].
  clear. change (0 mod 1024) with 0. unfold parent_tb. rewrite ent_set; [reflexivity|apply length_zero_page|lia|lia|done].
Qed.

(** The copy succeeds and the page of the parent is untouched. *)
Lemma copyuvm_isolates_witness :
  wp (copyuvm kend0 2148597760 dir_page PGSIZE) (λ d k', d ≠ 0 ∧ km_mem k' !! user_page = Some data_page) parent_kmem.
Proof.
  eapply wp_mono; [apply (copyuvm_isolates kend0 2148597760 ltac:(done) [] true ltac:(done) ltac:(done) parent_kmem free_pages dir_page parent_pd PGSIZE parent_space)|].
  - done.
  - exact parent_pages.
  - intros d k' (Hm & Hs & _). split; [apply Hs; by rewrite free_pages_length|].
    rewrite Hm; [apply user_page_at|by apply parent_at].
Defined.

Lemma copyuvm_freevm_witness :
  wp (copyuvm kend0 2148597760 dir_page PGSIZE) (λ d k', d ≠ 0 → wp (freevm kend0 d) (λ _ k'', ∃ F', free_list kend0 k'' F' ∧ F' ≡ₚ free_pages) k') parent_kmem.
Proof.
  eapply wp_mono; [apply (copyuvm_freevm kend0 2148597760 ltac:(done) [] true ltac:(done) ltac:(done) parent_kmem free_pages dir_page parent_pd PGSIZE parent_space)|].
  - done.
  - exact parent_pages.
  - intros d k' H Hd. eapply wp_mono; [by apply H|]. intros _ k2 (F' & H1 & _ & H2 & _). by exists F'.
Defined.
