(* ===== verification/Bio.v ===== *)
(** * The buffer cache and the disk driver (bio.c, ide.c, buf.h)

    The NBUF buffers are linked into a circular list through prev and next,
    most recently used first, with bcache.head as sentinel (index NBUF). The
    driver's request queue is the list of buffer indices linked by qnext. The
    disks are the sequence of block writes they received, so that what is on
    them after a crash at any moment can be stated; a stretch of code under
    bcache.lock or idelock is atomic, and waiting for a busy buffer gives
    [Blocked]. *)

From S2P Require Import Prelude.

Definition BSIZE : nat := 512.
Definition NBUF : nat := 30.
Definition FSSIZE : Z := 2000.
Definition B_BUSY : Z := 1.
Definition B_VALID : Z := 2.
Definition B_DIRTY : Z := 4.

(** struct buf. *)
Record buf : Type := mkBuf {
  b_flags : Z;
  b_dev : Z;
  b_blockno : Z;
  b_prev : nat;
  b_next : nat;
  b_data : list Z;
}.
#[export] Instance buf_eta : Eta buf := λ b,
  mkBuf (b_flags b) (b_dev b) (b_blockno b) (b_prev b) (b_next b) (b_data b).

Definition bbusy (b : buf) : bool := negb (Z.land (b_flags b) B_BUSY =? 0).
Definition bvalid (b : buf) : bool := negb (Z.land (b_flags b) B_VALID =? 0).
Definition bdirty (b : buf) : bool := negb (Z.land (b_flags b) B_DIRTY =? 0).
Definition set_flag (f : Z) (b : buf) : buf := b <| b_flags ::= λ x, Z.lor x f |>.
Definition clear_flag (f : Z) (b : buf) : buf := b <| b_flags ::= λ x, Z.ldiff x f |>.

(** The writes a disk received, the latest first, by drive and block. *)
Abbreviation disk := (list (Z * Z * list Z)).

(** bcache (buffers 0..NBUF-1, then the sentinel), the driver's queue, and
    the disks. *)
Record bio : Type := mkBio {
  bio_bufs : list buf;
  bio_queue : list nat;
  bio_disk : disk;
  bio_havedisk1 : bool;
}.
#[export] Instance bio_eta : Eta bio := λ s,
  mkBio (bio_bufs s) (bio_queue s) (bio_disk s) (bio_havedisk1 s).

Abbreviation B := (M bio).

Definition rdb (i : nat) : B buf := λ s,
  match bio_bufs s !! i with Some b => Done b s | None => Fault s end.
Definition wrb (i : nat) (f : buf → buf) : B unit := λ s,
  match bio_bufs s !! i with
  | Some b => Done tt (s <| bio_bufs ::= <[i := f b]> |>)
  | None => Fault s
  end.
Definition bhead : nat := NBUF.

(** ** The driver (ide.c) *)

Definition zero_block : list Z := replicate BSIZE 0.
(** The block of a drive; the drive is chosen by the low bit of dev. *)
Definition disk_key (b : buf) : Z * Z := (Z.land (b_dev b) 1, b_blockno b).
Fixpoint disk_at (d : disk) (k : Z * Z) : list Z :=
  match d with
  | [] => zero_block
  | (k', b) :: d => if decide (k = k') then b else disk_at d k
  end.
Definition on_disk (s : bio) (k : Z * Z) : list Z := disk_at (bio_disk s) k.

(** idestart(): a write request sends the data to the drive. *)
Definition idestart (i : nat) : B unit :=
  b ← rdb i;
  panic_if (FSSIZE <=? b_blockno b) "incorrect blockno";;
  when (bdirty b) (modify (λ s, s <| bio_disk ::= λ d, (disk_key b, b_data b) :: d |>)).

(** ideintr(): the request at the head of the queue is complete. *)
Definition ideintr : B unit :=
  q ← gets bio_queue;
  match q with
  | [] => mret tt
  | i :: q =>
    modify (λ s, s <| bio_queue := q |>);;
    b ← rdb i;
    s ← get;
    when (negb (bdirty b)) (wrb i (λ b, b <| b_data := on_disk s (disk_key b) |>));;
    wrb i (set_flag B_VALID);;
    wrb i (clear_flag B_DIRTY);;
    match q with [] => mret tt | j :: _ => idestart j end
  end.

(** The wait loop of iderw(): the drive interrupts once per request. *)
Fixpoint ide_wait (fuel : nat) (i : nat) : B unit :=
  b ← rdb i;
  if bvalid b && negb (bdirty b) then mret tt
  else match fuel with O => nofuel | S n => ideintr;; ide_wait n i end.

Definition iderw (i : nat) : B unit :=
  b ← rdb i;
  panic_if (negb (bbusy b)) "iderw: buf not busy";;
  panic_if (bvalid b && negb (bdirty b)) "iderw: nothing to do";;
  h ← gets bio_havedisk1;
  panic_if (negb (b_dev b =? 0) && negb h) "iderw: ide disk 1 not present";;
  modify (λ s, s <| bio_queue ::= λ q, q ++ [i] |>);;
  q ← gets bio_queue;
  (if decide (head q = Some i) then idestart i else mret tt);;
  ide_wait (length q) i.

(** ** The cache (bio.c) *)

(** The body of binit()'s loop. *)
Definition binit_one (i : nat) : B unit :=
  h ← rdb bhead;
  wrb i (λ b, b <| b_next := b_next h |> <| b_prev := bhead |> <| b_dev := u32 (-1) |>);;
  wrb (b_next h) (λ b, b <| b_prev := i |>);;
  wrb bhead (λ b, b <| b_next := i |>).

Fixpoint binit_loop (i n : nat) : B unit :=
  match n with O => mret tt | S n => binit_one i;; binit_loop (S i) n end.

Definition binit : B unit :=
  wrb bhead (λ b, b <| b_prev := bhead |>);;
  wrb bhead (λ b, b <| b_next := bhead |>);;
  binit_loop 0 NBUF.

(** [for(b = head.next; b != &head; b = b->next)], looking for the block. *)
Fixpoint find_cached (fuel : nat) (i : nat) (dev blockno : Z) : B (option nat) :=
  if decide (i = bhead) then mret None
  else
    b ← rdb i;
    if (b_dev b =? dev) && (b_blockno b =? blockno) then mret (Some i)
    else match fuel with O => nofuel | S n => find_cached n (b_next b) dev blockno end.

(** [for(b = head.prev; b != &head; b = b->prev)], looking for a buffer that
    is neither busy nor dirty. *)
Fixpoint find_clean (fuel : nat) (i : nat) : B (option nat) :=
  if decide (i = bhead) then mret None
  else
    b ← rdb i;
    if negb (bbusy b) && negb (bdirty b) then mret (Some i)
    else match fuel with O => nofuel | S n => find_clean n (b_prev b) end.

Definition bget (dev blockno : Z) : B nat :=
  h ← rdb bhead;
  r ← find_cached NBUF (b_next h) dev blockno;
  match r with
  | Some i =>
    b ← rdb i;
    if bbusy b then block (WaitChan (ChBuf i))
    else wrb i (set_flag B_BUSY);; mret i
  | None =>
    h ← rdb bhead;
    r ← find_clean NBUF (b_prev h);
    match r with
    | Some i =>
      wrb i (λ b, b <| b_dev := dev |> <| b_blockno := blockno |> <| b_flags := B_BUSY |>);;
      mret i
    | None => panic "bget: no buffers"
    end
  end.

Definition bread (dev blockno : Z) : B nat :=
  i ← bget dev blockno;
  b ← rdb i;
  when (negb (bvalid b)) (iderw i);;
  mret i.

Definition bwrite (i : nat) : B unit :=
  b ← rdb i;
  panic_if (negb (bbusy b)) "bwrite";;
  wrb i (set_flag B_DIRTY);;
  iderw i.

(** brelse(): to the head of the list; returns the channel it wakes. *)
Definition brelse (i : nat) : B (list chan) :=
  b ← rdb i;
  panic_if (negb (bbusy b)) "brelse";;
  wrb (b_next b) (λ c, c <| b_prev := b_prev b |>);;
  b ← rdb i;
  wrb (b_prev b) (λ c, c <| b_next := b_next b |>);;
  h ← rdb bhead;
  wrb i (λ c, c <| b_next := b_next h |>);;
  wrb i (λ c, c <| b_prev := bhead |>);;
  h ← rdb bhead;
  wrb (b_next h) (λ c, c <| b_prev := i |>);;
  wrb bhead (λ c, c <| b_next := i |>);;
  wrb i (clear_flag B_BUSY);;
  mret [ChBuf i].

Lemma disk_at_eq d k b : disk_at ((k, b) :: d) k = b.
Proof. simpl. by rewrite decide_True. Qed.
Lemma disk_at_ne d k k' b : k ≠ k' → disk_at ((k', b) :: d) k = disk_at d k.
Proof. intros. simpl. by rewrite decide_False. Qed.

(** ** Flags *)

Lemma flag_bit x n : 0 ≤ n → negb (Z.land x (2 ^ n) =? 0) = Z.testbit x n.
Proof.
  intros Hn. destruct (Z.testbit x n) eqn:Hb.
  - apply negb_true_iff, Z.eqb_neq. intros H. apply (f_equal (λ z, Z.testbit z n)) in H.
    rewrite Z.land_spec, Z.pow2_bits_true, Hb, Z.bits_0 in H by done. done.
  - apply negb_false_iff, Z.eqb_eq, Z.bits_inj'. intros m Hm. rewrite Z.land_spec, Z.bits_0.
    destruct (decide (m = n)) as [->|]; [by rewrite Hb|]. rewrite Z.pow2_bits_false by done. apply andb_false_r.
Qed.

Lemma bbusy_bit b : bbusy b = Z.testbit (b_flags b) 0.
Proof. apply (flag_bit _ 0). done. Qed.
Lemma bvalid_bit b : bvalid b = Z.testbit (b_flags b) 1.
Proof. apply (flag_bit _ 1). done. Qed.
Lemma bdirty_bit b : bdirty b = Z.testbit (b_flags b) 2.
Proof. apply (flag_bit _ 2). done. Qed.

Lemma flag_set b f n : 0 ≤ n → Z.testbit (b_flags (set_flag f b)) n = Z.testbit (b_flags b) n || Z.testbit f n.
Proof. intros. apply Z.lor_spec. Qed.
Lemma flag_clear b f n : 0 ≤ n →
  Z.testbit (b_flags (clear_flag f b)) n = Z.testbit (b_flags b) n && negb (Z.testbit f n).
Proof. intros. apply Z.ldiff_spec. Qed.

(** [bflags] computes the flags of an updated buffer. *)
Ltac bflags :=
  rewrite ?bbusy_bit, ?bvalid_bit, ?bdirty_bit, ?flag_clear, ?flag_set, ?flag_clear, ?flag_set by lia;
  unfold B_BUSY, B_VALID, B_DIRTY;
  repeat match goal with |- context [Z.testbit ?z ?n] =>
    let r := eval vm_compute in (Z.testbit z n) in
    lazymatch r with true => idtac | false => idtac end; change (Z.testbit z n) with r end;
  cbn [negb orb andb]; rewrite ?orb_false_r, ?orb_true_r, ?andb_false_r, ?andb_true_r.

(** ** The circular list *)

(** Following next from [a] visits [l] and arrives at [c], and prev is the
    way back. *)
Fixpoint path (bs : list buf) (a : nat) (l : list nat) (c : nat) : Prop :=
  match l with
  | [] => b_next <$> bs !! a = Some c ∧ b_prev <$> bs !! c = Some a
  | b :: l => b_next <$> bs !! a = Some b ∧ b_prev <$> bs !! b = Some a ∧ path bs b l c
  end.

Lemma path_app bs a l1 b l2 c : path bs a (l1 ++ b :: l2) c ↔ path bs a l1 b ∧ path bs b l2 c.
Proof. revert a. induction l1 as [|x l1 IH]; intros a; simpl; [naive_solver|]. rewrite IH. naive_solver. Qed.

(** Only the next fields of [a :: l] and the prev fields of [l ++ [c]] matter. *)
Lemma path_ext bs bs' a l c :
  (∀ i, i ∈ a :: l → b_next <$> bs' !! i = b_next <$> bs !! i) →
  (∀ i, i ∈ l ++ [c] → b_prev <$> bs' !! i = b_prev <$> bs !! i) →
  path bs a l c → path bs' a l c.
Proof.
  revert a. induction l as [|b l IH]; intros a Hn Hp; simpl.
  - intros [H1 H2]. rewrite Hn, Hp by set_solver. done.
  - intros (H1 & H2 & H3). rewrite Hn, Hp by set_solver. split_and!; [done|done|].
    apply IH; [| |done]; intros i Hi; [apply Hn|apply Hp]; set_solver.
Qed.

Lemma path_next_first bs a l c : path bs a l c → b_next <$> bs !! a = Some (hd c l).
Proof. destruct l; simpl; naive_solver. Qed.

Lemma path_prev_last bs a l c : path bs a l c → b_prev <$> bs !! c = Some (default a (last l)).
Proof.
  revert a. induction l as [|b l IH]; intros a; simpl; [naive_solver|].
  intros (_ & _ & H%IH). rewrite last_cons, H. by destruct (last l).
Qed.

(** The same path entered from another node. *)
Lemma path_rehead bs bs' a a' l c :
  NoDup (a' :: l) → c ∉ l → path bs a l c →
  b_next <$> bs' !! a' = Some (hd c l) → b_prev <$> bs' !! hd c l = Some a' →
  (∀ i, i ∈ l → b_next <$> bs' !! i = b_next <$> bs !! i) →
  (∀ i, i ∈ tail l ++ [c] → i ≠ hd c l → b_prev <$> bs' !! i = b_prev <$> bs !! i) →
  path bs' a' l c.
Proof.
  intros Hd Hc Hp Hn' Hp' Hn Hpr. destruct l as [|b l]; simpl in *; [done|]. split_and!; [done|done|].
  destruct Hp as (_ & _ & Hp). eapply path_ext; [done| |done]. intros i Hi. apply Hpr; [done|].
  intros ->. apply NoDup_cons in Hd as [_ Hd]. apply NoDup_cons in Hd as [Hd _]. set_solver.
Qed.

(** Unlinking [i] joins its two neighbours. *)
Lemma path_unlink bs bs' n l1 i l2 :
  NoDup (n :: l1 ++ i :: l2) → path bs n (l1 ++ i :: l2) n →
  b_next <$> bs' !! default n (last l1) = Some (hd n l2) →
  b_prev <$> bs' !! hd n l2 = Some (default n (last l1)) →
  (∀ j, j ≠ default n (last l1) → b_next <$> bs' !! j = b_next <$> bs !! j) →
  (∀ j, j ≠ hd n l2 → b_prev <$> bs' !! j = b_prev <$> bs !! j) →
  path bs' n (l1 ++ l2) n.
Proof.
  intros Hd [Hp1 Hp2]%path_app Hn' Hp' Hn Hpr.
  assert (Hd2 : ∀ a, a ∈ n :: l1 → NoDup (a :: l2) ∧ n ∉ l2).
  { apply NoDup_cons in Hd as [Hd1 Hd]. apply NoDup_app in Hd as (Hd2 & Hd3 & Hd4).
    apply NoDup_cons in Hd4 as [_ Hd4]. intros a Ha. split; [constructor; [|done]|set_solver].
    apply elem_of_cons in Ha as [->|Ha]; [set_solver|]. intros ?. apply (Hd3 a Ha). set_solver. }
  assert (Hre : ∀ a, default n (last l1) = a → a ∈ n :: l1 → path bs' a l2 n).
  { intros a Ha Hin. destruct (Hd2 a Hin) as [Hda Hnl]. rewrite Ha in *.
    eapply path_rehead; [done|done|exact Hp2|done|done| |].
    - intros j Hj. apply Hn. intros ->. apply NoDup_cons in Hda as [? _]. done.
    - intros j _ Hj. by apply Hpr. }
  destruct (snoc_or_nil l1) as [->|(l1' & a & ->)].
  - apply (Hre n); [done|set_solver].
  - rewrite last_snoc in *. simpl in *. rewrite <- (assoc_L (++)). simpl.
    apply path_app in Hp1 as [Hp1 _]. apply path_app. split; [|apply Hre; [done|set_solver]].
    apply NoDup_cons in Hd as [Hd1 Hd]. apply NoDup_app in Hd as (Hd3 & Hd4 & Hd5).
    assert (Hc : hd n l2 = n ∨ hd n l2 ∈ l2) by (destruct l2; simpl; [by left|right; set_solver]).
    eapply path_ext; [| |exact Hp1].
    + intros j Hj. apply Hn. intros ->. apply elem_of_cons in Hj as [->|Hj]; [set_solver|].
      apply NoDup_app in Hd3 as (_ & Hd3 & _). apply (Hd3 a Hj). set_solver.
    + intros j Hj. apply Hpr. intros ->. destruct Hc as [Hc|Hc]; [rewrite Hc in Hj; set_solver|].
      apply (Hd4 _ Hj). set_solver.
Qed.

(** Linking [i] in front. *)
Lemma path_push bs bs' n i l :
  NoDup (n :: l) → i ∉ n :: l → path bs n l n →
  b_next <$> bs' !! n = Some i → b_prev <$> bs' !! i = Some n →
  b_next <$> bs' !! i = Some (hd n l) → b_prev <$> bs' !! hd n l = Some i →
  (∀ j, j ∈ l → b_next <$> bs' !! j = b_next <$> bs !! j) →
  (∀ j, j ∈ n :: l → j ≠ hd n l → b_prev <$> bs' !! j = b_prev <$> bs !! j) →
  path bs' n (i :: l) n.
Proof.
  intros Hd Hi Hp H1 H2 H3 H4 Hn Hpr. apply NoDup_cons in Hd as [Hd1 Hd2]. simpl. split_and!; [done|done|].
  eapply path_rehead; [|done|exact Hp|done|done|done|].
  - constructor; [set_solver|done].
  - intros j Hj Hne. apply Hpr; [|done]. destruct l; simpl in *; set_solver.
Qed.

(** ** The invariant of the cache *)

Definition bkey (b : buf) : Z * Z := (b_dev b, b_blockno b).
Definition nodev : Z := u32 (-1).

(** The devices are 0 and 1. *)
Definition realdev (k : Z * Z) : Prop := fst k = 0 ∨ fst k = 1.

(** Every buffer is linked once; no block has two buffers; a valid buffer
    that is neither dirty nor in use equals the disk; the driver is idle. *)
Record cache_ok (s : bio) (lru : list nat) : Prop := {
  ck_len : length (bio_bufs s) = S NBUF;
  ck_path : path (bio_bufs s) bhead lru bhead;
  ck_lru : lru ≡ₚ seq 0 NBUF;
  ck_uniq : ∀ i j b c, (i < NBUF)%nat → (j < NBUF)%nat → bio_bufs s !! i = Some b → bio_bufs s !! j = Some c →
    bkey b = bkey c → b_dev b ≠ nodev → i = j;
  ck_disk : ∀ i b, (i < NBUF)%nat → bio_bufs s !! i = Some b → bbusy b = false → bvalid b = true →
    bdirty b = false → b_data b = on_disk s (disk_key b);
  ck_dirty : ∀ i b, (i < NBUF)%nat → bio_bufs s !! i = Some b → bdirty b = true → bvalid b = true;
  ck_real : ∀ i b, (i < NBUF)%nat → bio_bufs s !! i = Some b → bvalid b = true → realdev (bkey b);
  ck_queue : bio_queue s = [];
}.

(** The contents of a block: the cached copy if there is a valid one. *)
Definition block_is (s : bio) (k : Z * Z) (d : list Z) : Prop :=
  (∃ i b, (i < NBUF)%nat ∧ bio_bufs s !! i = Some b ∧ bkey b = k ∧ bvalid b = true ∧ b_data b = d) ∨
  ((∀ i b, (i < NBUF)%nat → bio_bufs s !! i = Some b → bkey b = k → bvalid b = false) ∧
   on_disk s (Z.land (fst k) 1, snd k) = d).

Lemma cache_lru s lru : cache_ok s lru → NoDup (bhead :: lru) ∧ ∀ i, i ∈ lru ↔ (i < NBUF)%nat.
Proof.
  intros H. assert (Hi : ∀ i, i ∈ lru ↔ (i < NBUF)%nat).
  { intros i. rewrite (ck_lru _ _ H), elem_of_seq. lia. }
  split; [|done]. constructor; [rewrite Hi; unfold bhead; lia|].
  rewrite (ck_lru _ _ H). apply NoDup_seq.
Qed.

Lemma cache_buf s lru i : cache_ok s lru → (i ≤ NBUF)%nat → ∃ b, bio_bufs s !! i = Some b.
Proof. intros H Hi. apply lookup_lt_is_Some. rewrite (ck_len _ _ H). lia. Qed.

Lemma wp_rdb s i b (Q : buf → bio → Prop) : bio_bufs s !! i = Some b → Q b s → wp (rdb i) Q s.
Proof. intros Hb HQ. unfold wp, rdb. by rewrite Hb. Qed.
Lemma wp_wrb s i f b (Q : unit → bio → Prop) :
  bio_bufs s !! i = Some b → Q tt (s <| bio_bufs ::= <[i := f b]> |>) → wp (wrb i f) Q s.
Proof. intros Hb HQ. unfold wp, wrb. by rewrite Hb. Qed.

(** ** The scans *)

Definition has_key (s : bio) (dev blockno : Z) (i : nat) : bool :=
  match bio_bufs s !! i with Some b => (b_dev b =? dev) && (b_blockno b =? blockno) | None => false end.
Definition clean (s : bio) (i : nat) : bool :=
  match bio_bufs s !! i with Some b => negb (bbusy b) && negb (bdirty b) | None => false end.

Lemma find_cached_done s a l fuel dev blockno :
  path (bio_bufs s) a l bhead → bhead ∉ l → (length l ≤ fuel)%nat →
  find_cached fuel (hd bhead l) dev blockno s = Done (find (has_key s dev blockno) l) s.
Proof.
  revert a fuel. induction l as [|i l IH]; intros a fuel Hp Hn Hf.
  { by destruct fuel. }
  destruct fuel as [|fuel]; simpl in Hf; [lia|]. destruct Hp as (_ & Hpi & Hp).
  assert (Hi : ∃ b, bio_bufs s !! i = Some b) by (destruct (bio_bufs s !! i); [by eexists|done]).
  destruct Hi as [b Hb]. pose proof (path_next_first _ _ _ _ Hp) as Hnx. rewrite Hb in Hnx. simpl in Hnx.
  injection Hnx as Hnx. cbn [find_cached hd find]. rewrite decide_False by set_solver.
  erewrite bind_done by (unfold rdb; by rewrite Hb). unfold has_key at 1. rewrite Hb.
  destruct (_ && _); [done|]. rewrite Hnx. eapply IH; [exact Hp|set_solver|lia].
Qed.

Lemma find_clean_done s l c fuel :
  path (bio_bufs s) bhead l c → bhead ∉ l → (length l ≤ fuel)%nat →
  find_clean fuel (default bhead (last l)) s = Done (find (clean s) (reverse l)) s.
Proof.
  revert c fuel. induction l as [|i l IH] using rev_ind; intros c fuel Hp Hn Hf.
  { by destruct fuel. }
  rewrite length_app in Hf. simpl in Hf. destruct fuel as [|fuel]; [lia|].
  apply path_app in Hp as [Hp Hpi]. pose proof (path_prev_last _ _ _ _ Hp) as Hpv.
  destruct Hpi as [Hnx _].
  assert (Hi : ∃ b, bio_bufs s !! i = Some b) by (destruct (bio_bufs s !! i); [by eexists|done]).
  destruct Hi as [b Hb]. rewrite Hb in Hpv. simpl in Hpv. injection Hpv as Hpv.
  rewrite last_snoc, reverse_snoc. cbn [find_clean default find]. simpl. rewrite decide_False by set_solver.
  erewrite bind_done by (unfold rdb; by rewrite Hb). unfold clean at 1. rewrite Hb.
  destruct (_ && _); [done|]. rewrite Hpv. eapply IH; [exact Hp|set_solver|lia].
Qed.

(** ** Requests to an idle driver *)

Definition drive_ok (s : bio) (b : buf) : Prop :=
  b_blockno b < FSSIZE ∧ (b_dev b = 0 ∨ bio_havedisk1 s = true).

Definition fetched (s : bio) (b : buf) : buf :=
  clear_flag B_DIRTY (set_flag B_VALID (b <| b_data := on_disk s (disk_key b) |>)).
Definition stored (b : buf) : buf := clear_flag B_DIRTY (set_flag B_VALID b).

Lemma list_insert_twice {A} (l : list A) i x y : <[i := x]> (<[i := y]> l) = <[i := x]> l.
Proof. apply list_insert_insert_eq. Qed.

Lemma ideintr_one bs d h i b :
  bs !! i = Some b →
  ideintr (mkBio bs [i] d h) =
    Done tt (mkBio (<[i := if bdirty b then stored b else fetched (mkBio bs [] d h) b]> bs) [] d h).
Proof.
  intros Hb. assert (Hlt : (i < length bs)%nat) by (by eapply lookup_lt_Some).
  eassert (H : wp ideintr (λ _ s', s' = _) _); [|apply wp_done in H as ([] & s' & -> & ->); reflexivity].
  unfold ideintr. wp_steps. simpl. wp_steps. eapply wp_rdb; [done|]. wp_step. apply wp_get. wp_step.
  apply wp_when; intros Hd.
  - eapply wp_wrb; [done|]. wp_step. eapply wp_wrb; [simpl; by rewrite list_lookup_insert_eq|].
    wp_step. eapply wp_wrb; [simpl; rewrite list_insert_twice; by rewrite list_lookup_insert_eq|].
    wp_step. unfold field_upd. simpl. rewrite !list_insert_twice. apply negb_true_iff in Hd. by rewrite Hd.
  - wp_step. eapply wp_wrb; [done|]. wp_step. eapply wp_wrb; [simpl; by rewrite list_lookup_insert_eq|].
    wp_step. unfold field_upd. simpl. rewrite !list_insert_twice. apply negb_false_iff in Hd. by rewrite Hd.
Qed.

(** A request that is due completes; a dirty buffer is written, another one
    read. *)
Definition served (s : bio) (b : buf) : buf := if bdirty b then stored b else fetched s b.
Definition served_disk (b : buf) (d : disk) : disk :=
  if bdirty b then (disk_key b, b_data b) :: d else d.

Lemma served_flags s b : bvalid (served s b) = true ∧ bdirty (served s b) = false ∧
  bbusy (served s b) = bbusy b ∧ bkey (served s b) = bkey b ∧ b_next (served s b) = b_next b ∧
  b_prev (served s b) = b_prev b.
Proof. unfold served, stored, fetched. destruct (bdirty b); split_and!; try done; by bflags. Qed.

Lemma iderw_done s i b :
  bio_queue s = [] → bio_bufs s !! i = Some b → drive_ok s b →
  bbusy b = true → bvalid b && negb (bdirty b) = false →
  iderw i s = Done tt (s <| bio_bufs ::= <[i := served s b]> |> <| bio_disk ::= served_disk b |>).
Proof.
  intros Hq Hb [Hbn Hdev] Hbu Hdo. destruct s as [bs q d h]. simpl in *. subst q.
  assert (Hlt : (i < length bs)%nat) by (by eapply lookup_lt_Some).
  eassert (H : wp (iderw i) (λ _ s', s' = _) _); [|apply wp_done in H as ([] & s' & -> & ->); reflexivity].
  unfold iderw. wp_step. eapply wp_rdb; [done|]. rewrite Hbu, Hdo. wp_step. apply wp_panic_if; [done|].
  wp_step. apply wp_panic_if; [done|]. do 2 wp_step. wp_step. apply wp_panic_if.
  { destruct Hdev as [->| ->]; [done|]. by rewrite andb_false_r. }
  wp_steps. simpl. rewrite decide_True by done.
  unfold idestart. wp_step. eapply wp_rdb; [done|]. wp_step. apply wp_panic_if; [zlia|].
  assert (Hw : ∀ d' (Q : unit → bio → Prop),
    Q tt (mkBio (<[i := if bdirty b then stored b else fetched (mkBio bs [] d' h) b]> bs) [] d' h) →
    wp (ide_wait 1 i) Q (mkBio bs [i] d' h)).
  { intros d' Q HQ. unfold wp. cbn [ide_wait]. erewrite bind_done by (unfold rdb; simpl; by rewrite Hb). rewrite Hdo.
    erewrite bind_done by (by apply ideintr_one).
    erewrite bind_done by (unfold rdb; simpl; by rewrite list_lookup_insert_eq).
    pose proof (served_flags (mkBio bs [] d' h) b) as (Hv & Hd & _). unfold served in Hv, Hd. by rewrite Hv, Hd. }
  apply wp_when; intros Hd; [wp_step; apply (Hw ((disk_key b, b_data b) :: d))|apply (Hw d)];
    unfold served, served_disk, field_upd; simpl; by rewrite Hd.
Qed.

(** ** One buffer changes *)

Lemma lookup_insert_buf s i b' j : (i < length (bio_bufs s))%nat →
  <[i := b']> (bio_bufs s) !! j = if decide (j = i) then Some b' else bio_bufs s !! j.
Proof.
  intros Hi. case_decide as Hj; [subst; by apply list_lookup_insert_eq|]. by rewrite list_lookup_insert_ne.
Qed.

Lemma path_update bs i b b' a l c :
  bs !! i = Some b → b_next b' = b_next b → b_prev b' = b_prev b → path bs a l c → path (<[i := b']> bs) a l c.
Proof.
  intros Hb Hn Hp. apply path_ext; intros j _; (destruct (decide (j = i)) as [->|];
    [rewrite list_lookup_insert_eq by (by eapply lookup_lt_Some); rewrite Hb; simpl; by f_equal|
     by rewrite list_lookup_insert_ne]).
Qed.

Lemma cache_update s lru i b b' d' :
  cache_ok s lru → (i < NBUF)%nat → bio_bufs s !! i = Some b →
  b_next b' = b_next b → b_prev b' = b_prev b →
  (∀ j c, (j < NBUF)%nat → j ≠ i → bio_bufs s !! j = Some c → bkey c = bkey b' → b_dev b' = nodev) →
  (bdirty b' = true → bvalid b' = true) → (bvalid b' = true → realdev (bkey b')) →
  (bbusy b' = false → bvalid b' = true → bdirty b' = false → b_data b' = disk_at d' (disk_key b')) →
  (∀ j c, (j < NBUF)%nat → j ≠ i → bio_bufs s !! j = Some c → bvalid c = true →
     disk_at d' (disk_key c) = on_disk s (disk_key c)) →
  cache_ok (s <| bio_bufs ::= <[i := b']> |> <| bio_disk := d' |>) lru.
Proof.
  intros H Hi Hb Hn Hp Hu Hv Hr Hd Ho. assert (Hlt : (i < length (bio_bufs s))%nat) by (by eapply lookup_lt_Some).
  split; simpl.
  - rewrite length_insert. apply (ck_len _ _ H).
  - eapply path_update; [done|done|done|]. apply (ck_path _ _ H).
  - apply (ck_lru _ _ H).
  - intros j1 j2 c1 c2 Hj1 Hj2. rewrite !lookup_insert_buf by done. intros H1 H2 Hk Hnd.
    destruct (decide (j1 = i)) as [->|], (decide (j2 = i)) as [->|]; simplify_eq; [done| | |].
    + exfalso. apply Hnd. eapply (Hu j2 c2); [done..|]. unfold bkey. congruence.
    + exfalso. apply Hnd. etrans; [exact Hk|]. eapply (Hu j1 c1); [done..|]. unfold bkey. congruence.
    + eapply (ck_uniq _ _ H); [done..|unfold bkey; congruence|done].
  - intros j c Hj. rewrite lookup_insert_buf by done. unfold on_disk. simpl.
    case_decide; [intros [= <-]; by apply Hd|]. intros Hc Hbz Hvc Hdc. rewrite (Ho j c) by done.
    by eapply (ck_disk _ _ H).
  - intros j c Hj. rewrite lookup_insert_buf by done. case_decide; [by intros [= <-]|]. by apply (ck_dirty _ _ H).
  - intros j c Hj. rewrite lookup_insert_buf by done. case_decide; [by intros [= <-]|]. by apply (ck_real _ _ H).
  - apply (ck_queue _ _ H).
Qed.

Lemma realdev_nodev k : realdev k → fst k ≠ nodev.
Proof. unfold realdev, nodev, u32. intros [-> | ->]; done. Qed.

Lemma cache_same s lru k i j b c :
  cache_ok s lru → realdev k → (i < NBUF)%nat → (j < NBUF)%nat → bio_bufs s !! i = Some b →
  bio_bufs s !! j = Some c → bkey b = k → bkey c = k → i = j ∧ b = c.
Proof.
  intros H Hk%realdev_nodev Hi Hj Hb Hc Hkb Hkc. assert (i = j) as ->; [|by simplify_eq].
  eapply (ck_uniq _ _ H); [done..|congruence|]. rewrite <- Hkb in Hk. exact Hk.
Qed.

Lemma realdev_key b : realdev (bkey b) → disk_key b = bkey b.
Proof. unfold realdev, disk_key, bkey. simpl. intros [-> | ->]; done. Qed.

(** The contents of the blocks when buffer [i] changes: a block it held and
    the block it holds now have the contents given, others keep theirs. *)
Lemma block_update s lru i b b' d' k d :
  cache_ok s lru → (i < NBUF)%nat → bio_bufs s !! i = Some b → realdev k → block_is s k d →
  (bkey b' = k → bvalid b' = true → b_data b' = d) →
  (bkey b' = k → bvalid b' = false → on_disk s k = d ∧
     ∀ j c, (j < NBUF)%nat → j ≠ i → bio_bufs s !! j = Some c → bkey c ≠ k) →
  (bkey b' ≠ k → bkey b = k → bvalid b = true → b_data b = on_disk s k) →
  (bkey b' ≠ k ∨ bvalid b' = false → disk_at d' k = on_disk s k) →
  block_is (s <| bio_bufs ::= <[i := b']> |> <| bio_disk := d' |>) k d.
Proof.
  intros H Hi Hb Hk Hd Hv Hnv Hold Hdisk. assert (Hlt : (i < length (bio_bufs s))%nat) by (by eapply lookup_lt_Some).
  assert (Hkk : (Z.land (fst k) 1, snd k) = k) by (destruct k as [k1 k2]; destruct Hk as [Hk|Hk]; simpl in *; by subst).
  destruct (decide (bkey b' = k)) as [Hbk|Hbk].
  - destruct (bvalid b') eqn:Hbv.
    + left. exists i, b'. simpl. rewrite lookup_insert_buf by done. rewrite decide_True by done. split_and!; auto.
    + right. destruct (Hnv Hbk eq_refl) as [Hod Hoth]. split.
      * intros j c Hj. simpl. rewrite lookup_insert_buf by done. case_decide; [by intros [= <-]|].
        intros Hc Hkc. exfalso. by eapply Hoth.
      * unfold on_disk. simpl. rewrite Hkk, Hdisk by auto. done.
  - destruct Hd as [(j & c & Hj & Hc & Hkc & Hvc & Hdc)|[Hno Hod]].
    + destruct (decide (j = i)) as [->|Hji].
      * assert (c = b) as -> by congruence. right. split.
        -- intros j' c' Hj'. simpl. rewrite lookup_insert_buf by done. case_decide; [by intros [= <-]|].
           intros Hc' Hk'. by destruct (cache_same s lru k j' i c' b).
        -- unfold on_disk. simpl. rewrite Hkk, Hdisk by auto. rewrite <- Hdc. symmetry. by apply Hold.
      * left. exists j, c. simpl. rewrite lookup_insert_buf by done. rewrite decide_False by done. done.
    + right. split.
      * intros j c Hj. simpl. rewrite lookup_insert_buf by done. case_decide; [by intros [= <-]|].
        intros Hc Hkc. by eapply Hno.
      * unfold on_disk in *. simpl. rewrite Hkk in *. rewrite Hdisk by auto. done.
Qed.

(** ** bread() *)

(** bread() can have the block at once: the buffer that holds it is free, or
    no buffer holds it and one can be recycled. *)
Definition available (s : bio) (k : Z * Z) : Prop :=
  (∃ i b, (i < NBUF)%nat ∧ bio_bufs s !! i = Some b ∧ bkey b = k ∧ bbusy b = false) ∨
  ((∀ i b, (i < NBUF)%nat → bio_bufs s !! i = Some b → bkey b ≠ k) ∧
   ∃ i b, (i < NBUF)%nat ∧ bio_bufs s !! i = Some b ∧ bbusy b = false ∧ bdirty b = false).

(** What bread() did to the buffer [b] it returns, now [b']. *)
Record acquired (s : bio) (k : Z * Z) (b b' : buf) : Prop := {
  aq_next : b_next b' = b_next b;
  aq_prev : b_prev b' = b_prev b;
  aq_key : bkey b' = k;
  aq_busy : bbusy b' = true;
  aq_valid : bvalid b' = true;
  aq_free : bbusy b = false;
  aq_dirty : bkey b = k → bdirty b' = bdirty b;
  aq_hit : bkey b = k → bvalid b = true → b_data b' = b_data b;
  aq_read : bkey b = k → bvalid b = false → b_data b' = on_disk s k;
  aq_miss : bkey b ≠ k → b_data b' = on_disk s k ∧ bdirty b = false ∧ bdirty b' = false ∧
    ∀ j c, (j < NBUF)%nat → bio_bufs s !! j = Some c → bkey c ≠ k;
}.

Lemma has_key_spec s dev blockno i b : bio_bufs s !! i = Some b →
  has_key s dev blockno i = true ↔ bkey b = (dev, blockno).
Proof.
  intros Hb. unfold has_key. rewrite Hb, andb_true_iff, !Z.eqb_eq. unfold bkey. split; [by intros [-> ->]|].
  by intros [= -> ->].
Qed.

Lemma clean_spec s i b : bio_bufs s !! i = Some b → clean s i = true ↔ bbusy b = false ∧ bdirty b = false.
Proof. intros Hb. unfold clean. by rewrite Hb, andb_true_iff, !negb_true_iff. Qed.

(** The two scans of bget(). *)
Lemma scan_cached s lru h dev blockno :
  cache_ok s lru → bio_bufs s !! bhead = Some h →
  find_cached NBUF (b_next h) dev blockno s = Done (find (has_key s dev blockno) lru) s.
Proof.
  intros H Hh. destruct (cache_lru _ _ H) as [Hnd _]. apply NoDup_cons in Hnd as [Hn _].
  pose proof (path_next_first _ _ _ _ (ck_path _ _ H)) as Hf. rewrite Hh in Hf. injection Hf as ->.
  eapply find_cached_done; [apply (ck_path _ _ H)|done|]. by rewrite (ck_lru _ _ H), length_seq.
Qed.

Lemma scan_clean s lru h :
  cache_ok s lru → bio_bufs s !! bhead = Some h →
  find_clean NBUF (b_prev h) s = Done (find (clean s) (reverse lru)) s.
Proof.
  intros H Hh. destruct (cache_lru _ _ H) as [Hnd _]. apply NoDup_cons in Hnd as [Hn _].
  pose proof (path_prev_last _ _ _ _ (ck_path _ _ H)) as Hf. rewrite Hh in Hf. injection Hf as ->.
  eapply find_clean_done; [apply (ck_path _ _ H)|done|]. by rewrite (ck_lru _ _ H), length_seq.
Qed.

Lemma find_some_lru s lru (f : nat → bool) l i :
  cache_ok s lru → l ≡ₚ lru → find f l = Some i → ∃ b, (i < NBUF)%nat ∧ bio_bufs s !! i = Some b ∧ f i = true.
Proof.
  intros H Hl [Hin Hf]%find_some. apply list_elem_of_In in Hin. rewrite Hl in Hin.
  apply (cache_lru _ _ H) in Hin. destruct (cache_buf s lru i H) as [b Hb]; [lia|]. by exists b.
Qed.

Lemma find_none_lru s lru (f : nat → bool) l i :
  cache_ok s lru → l ≡ₚ lru → find f l = None → (i < NBUF)%nat → f i = false.
Proof.
  intros H Hl Hf Hi. apply (find_none _ _ Hf), list_elem_of_In. rewrite Hl. by apply (cache_lru _ _ H).
Qed.

(** What bget() leaves in the buffer it returns. *)
Definition gotten (k : Z * Z) (b : buf) : buf :=
  if decide (bkey b = k) then set_flag B_BUSY b
  else b <| b_dev := fst k |> <| b_blockno := snd k |> <| b_flags := B_BUSY |>.

Lemma bget_done s lru dev blockno :
  cache_ok s lru → realdev (dev, blockno) → available s (dev, blockno) →
  ∃ i b, (i < NBUF)%nat ∧ bio_bufs s !! i = Some b ∧ bbusy b = false ∧
    bget dev blockno s = Done i (s <| bio_bufs ::= <[i := gotten (dev, blockno) b]> |>) ∧
    (bkey b ≠ (dev, blockno) → bdirty b = false ∧
       ∀ j c, (j < NBUF)%nat → bio_bufs s !! j = Some c → bkey c ≠ (dev, blockno)).
Proof.
  intros H Hk Hav. destruct (cache_buf s lru bhead H) as [h Hh]; [unfold bhead; lia|].
  unfold bget. erewrite bind_done by (unfold rdb; by rewrite Hh).
  erewrite bind_done by (by eapply scan_cached).
  destruct (find _ lru) as [i|] eqn:Hf.
  - destruct (find_some_lru _ _ _ _ _ H (Permutation_refl _) Hf) as (b & Hi & Hb & Hkey).
    apply (has_key_spec _ _ _ _ _ Hb) in Hkey.
    assert (Hfree : bbusy b = false).
    { destruct Hav as [(j & c & Hj & Hc & Hkc & Hbz)|[Hno _]]; [|by destruct (Hno i b)].
      by destruct (cache_same _ _ _ _ _ _ _ H Hk Hj Hi Hc Hb Hkc Hkey) as [_ <-]. }
    exists i, b. split_and!; [done|done|done| |done]. erewrite bind_done by (unfold rdb; by rewrite Hb).
    rewrite Hfree. unfold gotten. rewrite decide_True by done.
    by erewrite bind_done by (unfold wrb; by rewrite Hb).
  - assert (Hno : ∀ j c, (j < NBUF)%nat → bio_bufs s !! j = Some c → bkey c ≠ (dev, blockno)).
    { intros j c Hj Hc Hkc. apply (has_key_spec _ _ _ _ _ Hc) in Hkc.
      rewrite (find_none_lru _ _ _ _ _ H (Permutation_refl _) Hf Hj) in Hkc. done. }
    erewrite bind_done by (unfold rdb; by rewrite Hh). erewrite bind_done by (by eapply scan_clean).
    destruct (find _ (reverse lru)) as [i|] eqn:Hc.
    + destruct (find_some_lru _ _ _ _ _ H (reverse_Permutation _) Hc) as (b & Hi & Hb & Hcl).
      apply (clean_spec _ _ _ Hb) in Hcl as [Hbz Hdt]. exists i, b. split_and!; [done|done|done| |done].
      erewrite bind_done by (unfold wrb; by rewrite Hb). unfold gotten. by rewrite decide_False by eauto.
    + exfalso. destruct Hav as [(j & c & Hj & Hcj & Hkc & _)|(_ & j & c & Hj & Hcj & Hbz & Hdt)];
        [by eapply Hno|]. pose proof (find_none_lru _ _ _ _ j H (reverse_Permutation _) Hc Hj) as Hn.
      assert (clean s j = true) by (by apply (clean_spec _ _ _ Hcj)). congruence.
Qed.

(** Buffer [i] holds the block and somebody has it. *)
Definition in_use (s : bio) (k : Z * Z) (i : nat) : Prop :=
  ∃ b, (i < NBUF)%nat ∧ bio_bufs s !! i = Some b ∧ bkey b = k ∧ bbusy b = true.

(** No buffer holds the block, and none can be recycled. *)
Definition exhausted (s : bio) (k : Z * Z) : Prop :=
  ∀ i b, (i < NBUF)%nat → bio_bufs s !! i = Some b → bkey b ≠ k ∧ (bbusy b = true ∨ bdirty b = true).

(** bget() in the states in which the block is not available. *)
Lemma bget_cases s lru dev blockno : cache_ok s lru →
  available s (dev, blockno) ∨
  (∃ i, in_use s (dev, blockno) i ∧ bget dev blockno s = Blocked (WaitChan (ChBuf i)) s) ∨
  (exhausted s (dev, blockno) ∧ bget dev blockno s = Panic "bget: no buffers" s).
Proof.
  intros H. destruct (cache_buf s lru bhead H) as [h Hh]; [unfold bhead; lia|].
  unfold bget. erewrite bind_done by (unfold rdb; by rewrite Hh). erewrite bind_done by (by eapply scan_cached).
  destruct (find _ lru) as [i|] eqn:Hf.
  - destruct (find_some_lru _ _ _ _ _ H (Permutation_refl _) Hf) as (b & Hi & Hb & Hkey). apply (has_key_spec _ _ _ _ _ Hb) in Hkey.
    destruct (bbusy b) eqn:Hbz; [|left; left; by exists i, b]. right. left. exists i. split; [by exists b|].
    erewrite bind_done by (unfold rdb; by rewrite Hb). by rewrite Hbz.
  - assert (Hno : ∀ j c, (j < NBUF)%nat → bio_bufs s !! j = Some c → bkey c ≠ (dev, blockno)).
    { intros j c Hj Hc Hkc. apply (has_key_spec _ _ _ _ _ Hc) in Hkc.
      rewrite (find_none_lru _ _ _ _ _ H (Permutation_refl _) Hf Hj) in Hkc. done. }
    erewrite bind_done by (unfold rdb; by rewrite Hh). erewrite bind_done by (by eapply scan_clean).
    destruct (find _ (reverse lru)) as [i|] eqn:Hc.
    + destruct (find_some_lru _ _ _ _ _ H (reverse_Permutation _) Hc) as (b & Hi & Hb & Hcl).
      apply (clean_spec _ _ _ Hb) in Hcl as [Hbz Hdt]. left. right. split; [done|]. by exists i, b.
    + right. right. split; [|done]. intros j c Hj Hcj. split; [by eapply Hno|].
      pose proof (find_none_lru _ _ _ _ j H (reverse_Permutation _) Hc Hj) as Hn. pose proof (clean_spec _ _ _ Hcj) as Hcl.
      destruct (bbusy c), (bdirty c); auto. destruct Hcl as [_ Hcl]. rewrite Hcl in Hn by done. done.
Qed.

(** What bread() leaves in it. *)
Definition loaded (s : bio) (k : Z * Z) (b : buf) : buf :=
  if bvalid (gotten k b) then gotten k b else fetched s (gotten k b).

Lemma gotten_facts k b :
  b_next (gotten k b) = b_next b ∧ b_prev (gotten k b) = b_prev b ∧ bkey (gotten k b) = k ∧
  bbusy (gotten k b) = true ∧ b_data (gotten k b) = b_data b ∧
  (bkey b = k → bvalid (gotten k b) = bvalid b ∧ bdirty (gotten k b) = bdirty b) ∧
  (bkey b ≠ k → bvalid (gotten k b) = false ∧ bdirty (gotten k b) = false).
Proof.
  unfold gotten. case_decide as Hk.
  - split_and!; [done|done|done|by bflags|done| |done]. intros _. split; by bflags.
  - split_and!; [done|done|by destruct k|done|done|done|done].
Qed.

Lemma loaded_acquired s lru k i b :
  cache_ok s lru → realdev k → (i < NBUF)%nat → bio_bufs s !! i = Some b → bbusy b = false →
  (bkey b ≠ k → bdirty b = false ∧ ∀ j c, (j < NBUF)%nat → bio_bufs s !! j = Some c → bkey c ≠ k) →
  acquired s k b (loaded s k b).
Proof.
  intros H Hk Hi Hb Hfree Hmiss. destruct (gotten_facts k b) as (Hn & Hp & Hkey & Hbz & Hd & Hsame & Hdiff).
  assert (Hdk : disk_key (gotten k b) = k) by (by rewrite realdev_key by (by rewrite Hkey)).
  unfold loaded. destruct (bvalid (gotten k b)) eqn:Hv.
  - assert (bkey b = k) as Hbk.
    { destruct (decide (bkey b = k)) as [|Hne]; [done|]. destruct (Hdiff Hne). congruence. }
    destruct (Hsame Hbk) as [Hv' Hd']. split; try done; try congruence.
  - unfold fetched. split; simpl; rewrite ?Hdk; try done.
    + bflags. by rewrite bbusy_bit in Hbz.
    + by bflags.
    + intros Hbk. destruct (Hsame Hbk) as [Hv' _]. bflags. destruct (Z.testbit (b_flags b) 2) eqn:Hd2; [|done].
      rewrite <- bdirty_bit in Hd2. rewrite (ck_dirty _ _ H i b) in Hv' by done. congruence.
    + intros Hbk Hbv. destruct (Hsame Hbk). congruence.
    + intros Hbk. split_and!; [done|by apply Hmiss|by bflags|by apply Hmiss].
Qed.

Lemma bread_done s lru dev blockno :
  cache_ok s lru → realdev (dev, blockno) → available s (dev, blockno) → blockno < FSSIZE →
  (dev = 0 ∨ bio_havedisk1 s = true) →
  ∃ i b b', (i < NBUF)%nat ∧ bio_bufs s !! i = Some b ∧ acquired s (dev, blockno) b b' ∧
    bread dev blockno s = Done i (s <| bio_bufs ::= <[i := b']> |>).
Proof.
  intros H Hk Hav Hbn Hdr. destruct (bget_done s lru dev blockno H Hk Hav) as (i & b & Hi & Hb & Hfree & Hget & Hmiss).
  exists i, b, (loaded s (dev, blockno) b). split_and!; [done|done|by eapply loaded_acquired|].
  unfold bread. rewrite (bind_done _ _ _ _ _ Hget). destruct (gotten_facts (dev, blockno) b) as (_ & _ & Hkey & Hbz & _ & Hsame & Hdiff).
  assert (Hlk : <[i := gotten (dev, blockno) b]> (bio_bufs s) !! i = Some (gotten (dev, blockno) b)).
  { apply list_lookup_insert_eq. by eapply lookup_lt_Some. }
  set (s1 := s <| bio_bufs ::= _ |>). erewrite bind_done by (unfold rdb, s1; simpl; by rewrite Hlk).
  unfold loaded. destruct (bvalid (gotten (dev, blockno) b)) eqn:Hv; [done|].
  assert (Hdt : bdirty (gotten (dev, blockno) b) = false).
  { destruct (decide (bkey b = (dev, blockno))) as [Hbk|Hbk]; [|by apply Hdiff].
    destruct (Hsame Hbk) as [Hv' ->]. destruct (bdirty b) eqn:Hd; [|done].
    rewrite (ck_dirty _ _ H i b) in Hv' by done. congruence. }
  change (when (negb false) (iderw i)) with (iderw i).
  assert (b_dev (gotten (dev, blockno) b) = dev ∧ b_blockno (gotten (dev, blockno) b) = blockno) as [Hd1 Hd2]
    by (unfold bkey in Hkey; by simplify_eq).
  rewrite (bind_done _ _ _ _ _ (iderw_done s1 i (gotten (dev, blockno) b) (ck_queue _ _ H) Hlk
    (conj (eq_ind_r (λ z, z < FSSIZE) Hbn Hd2) (eq_ind_r (λ z, z = 0 ∨ _) Hdr Hd1)) Hbz (eq_trans (f_equal2 andb Hv eq_refl) eq_refl))).
  unfold served, served_disk. rewrite Hdt. destruct s; simpl. unfold s1. f_equal. simpl.
  unfold field_upd. simpl. by rewrite list_insert_twice.
Qed.

(** A state reads as before, block by block. *)
Definition same_blocks (s s' : bio) : Prop := ∀ k d, realdev k → block_is s k d → block_is s' k d.

Lemma same_state (s : bio) i b' :
  s <| bio_bufs ::= <[i := b']> |> = s <| bio_bufs ::= <[i := b']> |> <| bio_disk := bio_disk s |>.
Proof. by destruct s. Qed.

Lemma acquired_cache s lru k i b b' :
  cache_ok s lru → realdev k → (i < NBUF)%nat → bio_bufs s !! i = Some b → acquired s k b b' →
  cache_ok (s <| bio_bufs ::= <[i := b']> |>) lru ∧ same_blocks s (s <| bio_bufs ::= <[i := b']> |>) ∧
  block_is s k (b_data b').
Proof.
  intros H Hk Hi Hb Ha. pose proof (aq_key _ _ _ _ Ha) as Hbk.
  assert (Hother : ∀ j c, (j < NBUF)%nat → j ≠ i → bio_bufs s !! j = Some c → bkey c ≠ k).
  { intros j c Hj Hji Hc Hkc. destruct (decide (bkey b = k)) as [Hkb|Hkb].
    - by destruct (cache_same s lru k j i c b).
    - by eapply (aq_miss _ _ _ _ Ha). }
  assert (Hkk : (Z.land (fst k) 1, snd k) = k) by (destruct k as [k1 k2]; destruct Hk as [Hk|Hk]; simpl in *; by subst).
  assert (Hread : block_is s k (b_data b')).
  { destruct (decide (bkey b = k ∧ bvalid b = true)) as [[Hkb Hv]|Hnv].
    - left. exists i, b. rewrite (aq_hit _ _ _ _ Ha) by done. done.
    - right. rewrite Hkk. split.
      + intros j c Hj Hc Hkc. destruct (decide (j = i)) as [->|]; [|by exfalso; eapply Hother].
        assert (c = b) as -> by congruence. destruct (bvalid b) eqn:?; [|done]. by exfalso; apply Hnv.
      + destruct (decide (bkey b = k)) as [Hkb|Hkb].
        * rewrite (aq_read _ _ _ _ Ha); [done..|]. destruct (bvalid b) eqn:?; [|done]. by exfalso; apply Hnv.
        * symmetry. by apply (aq_miss _ _ _ _ Ha). }
  split_and!; [| |done].
  - rewrite same_state. eapply cache_update; [done|done|done|apply Ha|apply Ha| | | | |done].
    + intros j c Hj Hji Hc Hkc. exfalso. eapply Hother; [done..|congruence].
    + intros _. apply Ha.
    + by rewrite Hbk.
    + rewrite (aq_busy _ _ _ _ Ha). done.
  - intros k' d Hk' Hd. rewrite same_state. eapply block_update; [done..| | | |done].
    + intros Hkb' _. assert (k' = k) as -> by congruence.
      destruct Hread as [(j & c & Hj & Hc & Hkc & Hvc & Hdc)|[Hno Hod]],
        Hd as [(j' & c' & Hj' & Hc' & Hkc' & Hvc' & Hdc')|[Hno' Hod']]; [| | |congruence].
      * destruct (cache_same s lru k j j' c c') as [_ <-]; congruence.
      * rewrite (Hno' j c) in Hvc by done. done.
      * rewrite (Hno j' c') in Hvc' by done. done.
    + rewrite (aq_valid _ _ _ _ Ha). done.
    + intros Hne Hkb Hv. rewrite <- Hkb. assert (bkey b ≠ k) as Hbk' by congruence.
      rewrite (ck_disk _ _ H i b) by (try apply Ha; done). rewrite realdev_key; [done|]. by rewrite Hkb.
Qed.

(** ** brelse() *)

Section fields.
Context {A : Type} (g : buf → A).

Lemma field_alter f i j (bs : list buf) :
  (∀ b, g (f b) = g b) → g <$> alter f i bs !! j = g <$> bs !! j.
Proof.
  intros Hg. destruct (decide (i = j)) as [<-|Hne]; [|by rewrite list_lookup_alter_ne].
  rewrite list_lookup_alter_eq. destruct (bs !! i); simpl; [by rewrite Hg|done].
Qed.

Lemma field_alter_ne f i j (bs : list buf) : i ≠ j → g <$> alter f i bs !! j = g <$> bs !! j.
Proof. intros Hne. by rewrite list_lookup_alter_ne. Qed.

Lemma field_alter_eq f i v (bs : list buf) :
  (i < length bs)%nat → (∀ b, g (f b) = v) → g <$> alter f i bs !! i = Some v.
Proof.
  intros Hi Hg. rewrite list_lookup_alter_eq. apply lookup_lt_is_Some in Hi as [b ->]. simpl. by rewrite Hg.
Qed.
End fields.

(** What does not change when a buffer moves in the list. *)
Definition content (b : buf) : Z * Z * Z * list Z := (b_flags b, b_dev b, b_blockno b, b_data b).

(** The writes of brelse() and of one turn of binit(), on the buffers. *)
Definition unlinked (p n : nat) (bs : list buf) : list buf :=
  alter (λ c, c <| b_next := n |>) p (alter (λ c, c <| b_prev := p |>) n bs).
Definition linked_front (i f : nat) (bs : list buf) : list buf :=
  alter (λ c, c <| b_next := i |>) bhead (alter (λ c, c <| b_prev := i |>) f
    (alter (λ c, c <| b_prev := bhead |>) i (alter (λ c, c <| b_next := f |>) i bs))).

Lemma wrb_alter s i f : (i < length (bio_bufs s))%nat →
  wrb i f s = Done tt (s <| bio_bufs := alter f i (bio_bufs s) |>).
Proof.
  intros [b Hb]%lookup_lt_is_Some. unfold wrb. rewrite Hb. destruct s; simpl in *. unfold field_upd. simpl.
  do 2 f_equal. rewrite list_insert_alter. apply list_alter_ext; [|done]. intros x Hx. congruence.
Qed.

Lemma length_unlinked p n bs : length (unlinked p n bs) = length bs.
Proof. unfold unlinked. by rewrite !length_alter. Qed.
Lemma length_linked_front i f bs : length (linked_front i f bs) = length bs.
Proof. unfold linked_front. by rewrite !length_alter. Qed.

Lemma unlinked_content p n bs j : content <$> unlinked p n bs !! j = content <$> bs !! j.
Proof. unfold unlinked. by rewrite !field_alter. Qed.
Lemma linked_front_content i f bs j : content <$> linked_front i f bs !! j = content <$> bs !! j.
Proof. unfold linked_front. by rewrite !field_alter. Qed.

Lemma unlinked_path bs l1 i l2 :
  NoDup (bhead :: l1 ++ i :: l2) → (∀ j, j ∈ bhead :: l1 ++ i :: l2 → (j < length bs)%nat) →
  path bs bhead (l1 ++ i :: l2) bhead →
  path (unlinked (default bhead (last l1)) (hd bhead l2) bs) bhead (l1 ++ l2) bhead.
Proof.
  intros Hd Hlt Hp. assert (Hp1 : default bhead (last l1) ∈ bhead :: l1).
  { destruct (last l1) as [x|] eqn:Hl; simpl; [|set_solver]. apply last_Some in Hl as [l' ->]. set_solver. }
  assert (Hn1 : hd bhead l2 ∈ bhead :: l2) by (destruct l2; set_solver).
  eapply path_unlink; [done|exact Hp|..]; unfold unlinked.
  - apply field_alter_eq; [|done]. rewrite length_alter. apply Hlt. set_solver.
  - rewrite field_alter by done. apply field_alter_eq; [|done]. apply Hlt. set_solver.
  - intros j Hj. rewrite field_alter_ne by done. by rewrite field_alter.
  - intros j Hj. rewrite field_alter by done. by rewrite field_alter_ne.
Qed.

Lemma linked_front_path bs i l :
  NoDup (bhead :: l) → i ∉ bhead :: l → (∀ j, j ∈ i :: bhead :: l → (j < length bs)%nat) → path bs bhead l bhead →
  path (linked_front i (hd bhead l) bs) bhead (i :: l) bhead.
Proof.
  intros Hd Hi Hlt Hp. assert (Hf : hd bhead l ∈ bhead :: l) by (destruct l; set_solver).
  assert (Hfi : hd bhead l ≠ i) by set_solver. assert (Hib : i ≠ bhead) by set_solver.
  assert (Hbl : bhead ∉ l) by (by apply NoDup_cons in Hd as [? _]).
  eapply path_push; [done|done|exact Hp|..]; unfold linked_front.
  - apply field_alter_eq; [|done]. rewrite !length_alter. apply Hlt. set_solver.
  - rewrite field_alter by done. rewrite field_alter_ne by done. apply field_alter_eq; [|done].
    rewrite length_alter. apply Hlt. set_solver.
  - rewrite field_alter_ne by done. rewrite !field_alter by done. apply field_alter_eq; [|done].
    apply Hlt. set_solver.
  - rewrite field_alter by done. apply field_alter_eq; [|done]. rewrite !length_alter. apply Hlt. set_solver.
  - intros j Hj. rewrite field_alter_ne by set_solver. rewrite !field_alter by done.
    by rewrite field_alter_ne by set_solver.
  - intros j Hj Hne. rewrite field_alter by done. rewrite field_alter_ne by done.
    rewrite field_alter_ne by set_solver. by rewrite field_alter.
Qed.

(** The list after brelse(i), where [i] was between [l1] and [l2]. *)
Definition refronted (i : nat) (l1 l2 : list nat) (bs : list buf) : list buf :=
  linked_front i (hd bhead (l1 ++ l2)) (unlinked (default bhead (last l1)) (hd bhead l2) bs).

Lemma refronted_path bs l1 i l2 :
  NoDup (bhead :: l1 ++ i :: l2) → (∀ j, j ∈ bhead :: l1 ++ i :: l2 → (j < length bs)%nat) →
  path bs bhead (l1 ++ i :: l2) bhead → path (refronted i l1 l2 bs) bhead (i :: l1 ++ l2) bhead.
Proof.
  intros Hd Hlt Hp. assert (Hnd : NoDup (i :: bhead :: l1 ++ l2)).
  { eapply NoDup_Permutation_proper; [|exact Hd]. rewrite <- Permutation_middle. by constructor. }
  apply NoDup_cons in Hnd as [Hi Hnd].
  apply linked_front_path; [done|done| |by apply (unlinked_path _ _ i)].
  intros j Hj. rewrite length_unlinked. apply Hlt. set_solver.
Qed.

Lemma brelse_done s l1 i l2 b :
  cache_ok s (l1 ++ i :: l2) → (i < NBUF)%nat → bio_bufs s !! i = Some b → bbusy b = true →
  brelse i s = Done [ChBuf i] (s <| bio_bufs := alter (clear_flag B_BUSY) i (refronted i l1 l2 (bio_bufs s)) |>).
Proof.
  intros H Hi Hb Hbz. pose proof (ck_len _ _ H) as Hlen. destruct (cache_lru _ _ H) as [Hnd Hin].
  pose proof (ck_path _ _ H) as Hp. assert (Hall : ∀ j, j ∈ bhead :: l1 ++ i :: l2 → (j < length (bio_bufs s))%nat).
  { intros j. rewrite elem_of_cons, Hin, Hlen. unfold bhead. lia. }
  assert (Hpn : b_prev b = default bhead (last l1) ∧ b_next b = hd bhead l2).
  { apply path_app in Hp as [Hp1%path_prev_last Hp2%path_next_first]. rewrite Hb in Hp1, Hp2. simpl in *.
    by simplify_eq. }
  destruct Hpn as [Hpv Hnx].
  assert (Hp1 : default bhead (last l1) ∈ bhead :: l1 ++ i :: l2).
  { destruct (last l1) as [x|] eqn:Hl; simpl; [|set_solver]. apply last_Some in Hl as [l' ->]. set_solver. }
  assert (Hn1 : hd bhead l2 ∈ bhead :: l1 ++ i :: l2) by (destruct l2; set_solver).
  pose proof (unlinked_path _ _ _ _ Hnd Hall Hp) as Hup. pose proof (path_next_first _ _ _ _ Hup) as Hh.
  assert (Hf : hd bhead (l1 ++ l2) ∈ bhead :: l1 ++ i :: l2) by (destruct l1, l2; set_solver).
  assert (Hni : hd bhead l2 ≠ i).
  { apply NoDup_cons in Hnd as [Hb1 Hnd]. apply NoDup_app in Hnd as (_ & _ & [Hi2 _]%NoDup_cons).
    destruct l2; simpl; set_solver. }
  assert (Hib : i ≠ bhead) by (unfold bhead; lia).
  destruct s as [bs q d hd1]. simpl in *. unfold brelse.
  erewrite bind_done by (unfold rdb; simpl; by rewrite Hb). rewrite Hbz.
  erewrite bind_done by done. rewrite Hnx.
  erewrite bind_done by (apply wrb_alter; by apply Hall).
  erewrite bind_done by (unfold rdb; simpl; rewrite list_lookup_alter_ne by done; by rewrite Hb).
  rewrite Hpv, Hnx. erewrite bind_done by (apply wrb_alter; simpl; rewrite length_alter; by apply Hall). simpl.
  destruct (unlinked (default bhead (last l1)) (hd bhead l2) bs !! bhead) as [h|] eqn:Hbh; [|done].
  simpl in Hh. injection Hh as Hh. unfold unlinked in Hbh.
  erewrite bind_done by (unfold rdb; simpl; by rewrite Hbh).
  do 2 (erewrite bind_done by (apply wrb_alter; simpl; rewrite !length_alter; apply Hall; set_solver); simpl).
  erewrite bind_done by (unfold rdb; simpl; rewrite !list_lookup_alter_ne by done; by rewrite Hbh). rewrite Hh.
  do 3 (erewrite bind_done by (apply wrb_alter; simpl; rewrite !length_alter; apply Hall; set_solver); simpl).
  done.
Qed.

(** Moving buffers in the list changes no block. *)
Lemma content_inv (bs bs' : list buf) j c :
  content <$> bs' !! j = content <$> bs !! j → bs' !! j = Some c →
  ∃ b, bs !! j = Some b ∧ content c = content b.
Proof. intros Hc Hj. rewrite Hj in Hc. destruct (bs !! j) as [b|]; [|done]. exists b. split; [done|]. exact (inj Some _ _ Hc). Qed.

Lemma content_eq b c : content c = content b →
  bkey c = bkey b ∧ b_dev c = b_dev b ∧ disk_key c = disk_key b ∧ bbusy c = bbusy b ∧ bvalid c = bvalid b ∧
  bdirty c = bdirty b ∧ b_data c = b_data b.
Proof. unfold content, bkey, disk_key, bbusy, bvalid, bdirty. intros [= -> -> -> ->]. done. Qed.

Lemma relink s lru lru' bs' :
  cache_ok s lru → lru' ≡ₚ lru → path bs' bhead lru' bhead → length bs' = length (bio_bufs s) →
  (∀ j, content <$> bs' !! j = content <$> bio_bufs s !! j) →
  cache_ok (s <| bio_bufs := bs' |>) lru' ∧ same_blocks s (s <| bio_bufs := bs' |>).
Proof.
  intros H Hl Hp Hlen Hc. split; [split; simpl|].
  - rewrite Hlen. apply (ck_len _ _ H).
  - done.
  - rewrite Hl. apply (ck_lru _ _ H).
  - intros i j b c Hi Hj Hb Hcj. destruct (content_inv _ _ _ _ (Hc i) Hb) as (b0 & Hb0 & (-> & -> & _)%content_eq).
    destruct (content_inv _ _ _ _ (Hc j) Hcj) as (c0 & Hc0 & (-> & _)%content_eq). by apply (ck_uniq _ _ H).
  - intros i b Hi Hb. destruct (content_inv _ _ _ _ (Hc i) Hb) as (b0 & Hb0 & He).
    apply content_eq in He as (_ & _ & -> & -> & -> & -> & ->). by apply (ck_disk _ _ H i).
  - intros i b Hi Hb. destruct (content_inv _ _ _ _ (Hc i) Hb) as (b0 & Hb0 & He).
    apply content_eq in He as (_ & _ & _ & _ & -> & -> & _). by apply (ck_dirty _ _ H i).
  - intros i b Hi Hb. destruct (content_inv _ _ _ _ (Hc i) Hb) as (b0 & Hb0 & He).
    apply content_eq in He as (-> & _ & _ & _ & -> & _). by apply (ck_real _ _ H i).
  - apply (ck_queue _ _ H).
  - intros k d _ [(i & b & Hi & Hb & Hk & Hv & Hd)|[Hno Hod]].
    + destruct (content_inv bs' (bio_bufs s) i b) as (c & Hcb & He); [by rewrite Hc|done|].
      apply content_eq in He as (Hk' & _ & _ & _ & Hv' & _ & Hd'). left. exists i, c. simpl. split_and!; congruence.
    + right. split; [|done]. intros i b Hi Hb. destruct (content_inv _ _ _ _ (Hc i) Hb) as (b0 & Hb0 & He).
      apply content_eq in He as (-> & _ & _ & _ & -> & _ & _). by apply (Hno i).
Qed.

(** ** The operations keep the invariant *)

(** A buffer that is in use may be released when it is dirty, to be written
    later, or equals the disk. *)
Definition settled (s : bio) (b : buf) : Prop :=
  bvalid b = true → bdirty b = false → b_data b = on_disk s (disk_key b).

Lemma block_edit s lru i b b' :
  cache_ok s lru → (i < NBUF)%nat → bio_bufs s !! i = Some b →
  b_next b' = b_next b → b_prev b' = b_prev b → bkey b' = bkey b → bvalid b' = bvalid b →
  (bdirty b' = true → bvalid b' = true) → (bbusy b' = false → settled s b') →
  cache_ok (s <| bio_bufs ::= <[i := b']> |>) lru ∧
  (∀ k d, realdev k → k ≠ bkey b ∨ b_data b' = b_data b → block_is s k d → block_is (s <| bio_bufs ::= <[i := b']> |>) k d).
Proof.
  intros H Hi Hb Hn Hp Hk Hv Hdv Hs. split.
  - rewrite same_state. eapply cache_update; [done..| |done| | |done].
    + intros j c Hj Hji Hc Hkc. destruct (decide (b_dev b' = nodev)) as [|Hnd]; [done|]. exfalso. apply Hji.
      eapply (ck_uniq _ _ H); [done..|congruence|]. unfold bkey in Hkc, Hk. congruence.
    + rewrite Hv, Hk. by apply (ck_real _ _ H i).
    + intros Hbz Hv' Hd'. by apply Hs.
  - intros k d Hrk Hkd Hbk. rewrite same_state. eapply block_update; [done..| | | |done].
    + intros Hk' Hv'. destruct Hkd as [Hkd|Hkd]; [congruence|]. rewrite Hkd.
      destruct Hbk as [(j & c & Hj & Hc & Hkc & Hvc & Hdc)|[Hno _]].
      * destruct (cache_same s lru k j i c b) as [_ <-]; congruence.
      * rewrite (Hno i b) in Hv by congruence. congruence.
    + intros Hk' Hv'. destruct Hbk as [(j & c & Hj & Hc & Hkc & Hvc & Hdc)|[Hno Hod]].
      * destruct (cache_same s lru k j i c b) as [_ <-]; congruence.
      * split.
        -- destruct k as [k1 k2]. destruct Hrk as [Hrk|Hrk]; simpl in *; by subst.
        -- intros j c Hj Hji Hc Hkc. destruct (cache_same s lru k j i c b); congruence.
    + congruence.
Qed.

Lemma bread_spec s lru dev blockno :
  cache_ok s lru → realdev (dev, blockno) → available s (dev, blockno) → blockno < FSSIZE →
  (dev = 0 ∨ bio_havedisk1 s = true) →
  wp (bread dev blockno) (λ i s', ∃ b, (i < NBUF)%nat ∧ bio_bufs s' !! i = Some b ∧
    bkey b = (dev, blockno) ∧ bbusy b = true ∧ bvalid b = true ∧ block_is s (dev, blockno) (b_data b) ∧
    cache_ok s' lru ∧ same_blocks s s' ∧ bio_disk s' = bio_disk s ∧ bio_havedisk1 s' = bio_havedisk1 s ∧
    ∀ j, j ≠ i → bio_bufs s' !! j = bio_bufs s !! j) s.
Proof.
  intros H Hk Hav Hbn Hdr. destruct (bread_done s lru dev blockno H Hk Hav Hbn Hdr) as (i & b & b' & Hi & Hb & Ha & Hrun).
  destruct (acquired_cache s lru _ i b b' H Hk Hi Hb Ha) as (Hc & Hsb & Hbl).
  unfold wp. rewrite Hrun. exists b'. split_and!; try done; try apply Ha.
  - simpl. apply list_lookup_insert_eq. by eapply lookup_lt_Some.
  - intros j Hj. by apply list_lookup_insert_ne.
Qed.

Lemma bwrite_spec s lru i b :
  cache_ok s lru → (i < NBUF)%nat → bio_bufs s !! i = Some b → bbusy b = true → bvalid b = true →
  realdev (bkey b) → drive_ok s b →
  wp (bwrite i) (λ _ s', ∃ b', bio_bufs s' = <[i := b']> (bio_bufs s) ∧ bkey b' = bkey b ∧ bbusy b' = true ∧
    bvalid b' = true ∧ bdirty b' = false ∧ b_data b' = b_data b ∧ cache_ok s' lru ∧ same_blocks s s' ∧
    bio_disk s' = (bkey b, b_data b) :: bio_disk s ∧ bio_havedisk1 s' = bio_havedisk1 s) s.
Proof.
  intros H Hi Hb Hbz Hv Hk Hdr. assert (Hlt : (i < length (bio_bufs s))%nat) by (by eapply lookup_lt_Some).
  set (b1 := set_flag B_DIRTY b).
  assert (Hb1 : bbusy b1 = true ∧ bvalid b1 = true ∧ bdirty b1 = true).
  { split_and!; unfold b1; bflags; [by rewrite bbusy_bit in Hbz|by rewrite bvalid_bit in Hv|done]. }
  destruct Hb1 as (Hbz1 & Hv1 & Hd1). unfold bwrite, wp.
  erewrite bind_done by (unfold rdb; by rewrite Hb). rewrite Hbz. erewrite bind_done by done.
  erewrite bind_done by (unfold wrb; by rewrite Hb). fold b1.
  erewrite iderw_done; [|apply (ck_queue _ _ H)|by apply list_lookup_insert_eq|done|done|by rewrite Hv1, Hd1].
  assert (Hdk : disk_key b1 = bkey b) by (by rewrite <- (realdev_key b)).
  unfold served, served_disk. rewrite Hd1, Hdk. exists (stored b1).
  assert (Hst : bbusy (stored b1) = true ∧ bvalid (stored b1) = true ∧ bdirty (stored b1) = false).
  { unfold stored. split_and!; bflags; [by rewrite bbusy_bit in Hbz1|done|done]. }
  destruct Hst as (Hbz2 & Hv2 & Hd2).
  assert (He : s <| bio_bufs ::= <[i := b1]> |> <| bio_bufs ::= <[i := stored b1]> |> <| bio_disk ::= λ d, (bkey b, b_data b1) :: d |>
    = s <| bio_bufs ::= <[i := stored b1]> |> <| bio_disk := (bkey b, b_data b) :: bio_disk s |>).
  { destruct s. unfold field_upd. simpl. by rewrite list_insert_twice. }
  rewrite He. split_and!; try done.
  - eapply cache_update; [done..| |done|done|by rewrite Hbz2|].
    + intros j c Hj Hji Hc Hkc. by destruct (cache_same s lru (bkey b) j i c b).
    + intros j c Hj Hji Hc Hvc. rewrite disk_at_ne; [done|]. intros Hkc.
      pose proof (ck_real _ _ H j c Hj Hc Hvc) as Hr. rewrite (realdev_key c Hr) in Hkc.
      by destruct (cache_same s lru (bkey b) j i c b).
  - intros k d Hrk Hd. eapply block_update; [done..| |by rewrite Hv2|done|].
    + intros Hkb _. destruct Hd as [(j & c & Hj & Hc & Hkc & Hvc & Hdc)|[Hno _]].
      * destruct (cache_same s lru k j i c b) as [_ <-]; done.
      * rewrite (Hno i b) in Hv by done. done.
    + rewrite Hv2. intros [Hne|]; [|done]. by rewrite disk_at_ne by done.
Qed.

Lemma brelse_spec s lru i b :
  cache_ok s lru → (i < NBUF)%nat → bio_bufs s !! i = Some b → bbusy b = true → settled s b →
  wp (brelse i) (λ w s', w = [ChBuf i] ∧ ∃ b', bio_bufs s' !! i = Some b' ∧
    bkey b' = bkey b ∧ bbusy b' = false ∧ bvalid b' = bvalid b ∧ bdirty b' = bdirty b ∧ b_data b' = b_data b ∧
    cache_ok s' (i :: without i lru) ∧ same_blocks s s' ∧ bio_disk s' = bio_disk s ∧
    bio_havedisk1 s' = bio_havedisk1 s ∧
    ∀ j, j ≠ i → content <$> bio_bufs s' !! j = content <$> bio_bufs s !! j) s.
Proof.
  intros H Hi Hb Hbz Hset. destruct (cache_lru _ _ H) as [Hnd Hin].
  assert (i ∈ lru) as Hil by (by apply Hin). apply list_elem_of_split in Hil as (l1 & l2 & ->).
  assert (Hi1 : (i ∉ l1) ∧ (i ∉ l2)).
  { apply NoDup_cons in Hnd as [_ Hnd2]. rewrite <- Permutation_middle in Hnd2. apply NoDup_cons in Hnd2. set_solver. }
  rewrite without_split by apply Hi1.
  unfold wp. rewrite (brelse_done s l1 i l2 b) by done. split; [done|].
  set (bs' := refronted i l1 l2 (bio_bufs s)).
  assert (Hc : ∀ j, content <$> bs' !! j = content <$> bio_bufs s !! j).
  { intros j. unfold bs', refronted. by rewrite linked_front_content, unlinked_content. }
  assert (Hlen : length bs' = length (bio_bufs s)).
  { unfold bs', refronted. by rewrite length_linked_front, length_unlinked. }
  destruct (relink s (l1 ++ i :: l2) (i :: l1 ++ l2) bs' H) as [Hck Hsb]; [by rewrite Permutation_middle| |done|done|].
  { apply refronted_path; [done| |apply (ck_path _ _ H)]. intros j. rewrite elem_of_cons, Hin, (ck_len _ _ H).
    unfold bhead. lia. }
  destruct (content_inv bs' (bio_bufs s) i b) as (c & Hci & He); [by rewrite Hc|done|].
  pose proof (content_eq _ _ (eq_sym He)) as (Hk & _ & Hdk & Hbz' & Hv & Hd & Hdat).
  assert (Hlt : (i < length bs')%nat) by (by eapply lookup_lt_Some).
  assert (Hfin : s <| bio_bufs := alter (clear_flag B_BUSY) i bs' |> =
    s <| bio_bufs := bs' |> <| bio_bufs ::= <[i := clear_flag B_BUSY c]> |>).
  { unfold field_upd. destruct s; simpl. f_equal. rewrite list_insert_alter. apply list_alter_ext; [|done].
    intros x Hx. congruence. }
  assert (Hfl : bbusy (clear_flag B_BUSY c) = false ∧ bvalid (clear_flag B_BUSY c) = bvalid c ∧
    bdirty (clear_flag B_BUSY c) = bdirty c) by (split_and!; by bflags).
  destruct Hfl as (Hf1 & Hf2 & Hf3).
  destruct (block_edit (s <| bio_bufs := bs' |>) (i :: l1 ++ l2) i c (clear_flag B_BUSY c)) as [Hck2 Hbe]; try done.
  { intros Hdd. rewrite Hf3 in Hdd. rewrite Hf2. by apply (ck_dirty _ _ Hck i c). }
  { intros _. unfold settled. rewrite Hf2, Hf3, Hv, Hd. intros H1 H2. unfold disk_key. simpl.
    change (b_data c = on_disk s (disk_key c)). rewrite Hdat, Hdk. by apply Hset. }
  rewrite Hfin. exists (clear_flag B_BUSY c). split_and!; try congruence; try done.
  - simpl. by apply list_lookup_insert_eq.
  - intros k d Hrk Hd0. apply Hbe; [done|by right|by apply Hsb].
  - intros j Hj. simpl. by rewrite list_lookup_insert_ne.
Qed.

(** ** binit() *)

(** The memory binit() finds: zeroed, so no buffer is valid, and the driver
    has no request. *)
Definition unused_bufs (s : bio) : Prop :=
  length (bio_bufs s) = S NBUF ∧ bio_queue s = [] ∧
  ∀ i b, bio_bufs s !! i = Some b → b_flags b = 0.

Lemma binit_one_done s l i :
  length (bio_bufs s) = S NBUF → (i < NBUF)%nat → path (bio_bufs s) bhead l bhead →
  (∀ j, j ∈ l → (j < NBUF)%nat) →
  binit_one i s = Done tt (s <| bio_bufs := linked_front i (hd bhead l) (alter (λ b, b <| b_dev := nodev |>) i (bio_bufs s)) |>).
Proof.
  intros Hlen Hi Hp Hl. pose proof (path_next_first _ _ _ _ Hp) as Hh.
  destruct (bio_bufs s !! bhead) as [h|] eqn:Hbh; [|done]. injection Hh as Hh.
  assert (Hf : (hd bhead l < S NBUF)%nat).
  { destruct l as [|j l]; simpl; [unfold bhead; lia|]. specialize (Hl j). set_solver by lia. }
  unfold binit_one. erewrite bind_done by (unfold rdb; by rewrite Hbh). rewrite Hh.
  destruct s as [bs q d hd1]. simpl in *.
  do 2 (erewrite bind_done by (apply wrb_alter; simpl; rewrite ?length_alter, Hlen; lia); simpl).
  rewrite wrb_alter by (simpl; rewrite ?length_alter, Hlen; unfold bhead; lia). simpl.
  unfold linked_front. by rewrite !list_alter_alter_eq.
Qed.

Lemma alter_dev_path bs i l :
  path bs bhead l bhead → path (alter (λ b, b <| b_dev := nodev |>) i bs) bhead l bhead.
Proof. apply path_ext; intros j _; by rewrite field_alter. Qed.

Lemma binit_loop_spec n s l i :
  length (bio_bufs s) = S NBUF → (i + n ≤ NBUF)%nat → path (bio_bufs s) bhead l bhead →
  NoDup l → (∀ j, j ∈ l → (j < i)%nat) → (∀ j, j ∈ l → b_dev <$> bio_bufs s !! j = Some nodev) →
  wp (binit_loop i n) (λ _ s', length (bio_bufs s') = S NBUF ∧ bio_queue s' = bio_queue s ∧
    bio_disk s' = bio_disk s ∧ bio_havedisk1 s' = bio_havedisk1 s ∧
    path (bio_bufs s') bhead (reverse (seq i n) ++ l) bhead ∧
    (∀ j, j ∈ reverse (seq i n) ++ l → b_dev <$> bio_bufs s' !! j = Some nodev) ∧
    ∀ j, b_flags <$> bio_bufs s' !! j = b_flags <$> bio_bufs s !! j) s.
Proof.
  revert s l i. induction n as [|n IH]; intros s l i Hlen Hin Hp Hnd Hl Hdv; [by unfold wp|].
  unfold wp. cbn [binit_loop]. erewrite bind_done by (eapply binit_one_done; [done|lia|done|intros j Hj%Hl; lia]).
  set (bs1 := linked_front _ _ _). assert (Hlen1 : length bs1 = S NBUF).
  { unfold bs1. by rewrite length_linked_front, length_alter. }
  assert (Hp1 : path bs1 bhead (i :: l) bhead).
  { apply linked_front_path; [| | |by apply alter_dev_path].
    - constructor; [|done]. intros Hj%Hl. unfold bhead in Hj. lia.
    - apply not_elem_of_cons. split; [unfold bhead; lia|]. intros Hj%Hl. lia.
    - intros j. rewrite length_alter, Hlen, !elem_of_cons. unfold bhead. intros [->|[->|Hj%Hl]]; lia. }
  assert (Hf1 : ∀ j, b_flags <$> bs1 !! j = b_flags <$> bio_bufs s !! j).
  { intros j. unfold bs1, linked_front. by rewrite !field_alter. }
  assert (H1 := IH (s <| bio_bufs := bs1 |>) (i :: l) (S i) Hlen1 ltac:(lia) Hp1). eapply wp_mono; [apply H1|].
  - constructor; [|done]. intros Hj%Hl. lia.
  - intros j. rewrite elem_of_cons. intros [->|Hj%Hl]; lia.
  - intros j. rewrite elem_of_cons. unfold bs1, linked_front. simpl. rewrite !(field_alter b_dev) by done.
    intros [->|Hj]; [apply field_alter_eq; [rewrite Hlen; lia|done]|].
    rewrite field_alter_ne; [by apply Hdv|]. apply Hl in Hj. lia.
  - intros _ s' (Ha & Hb & Hc & Hd & He & Hv & Hf). cbn [seq]. rewrite reverse_cons, <- (assoc_L (++)).
    split_and!; try done.
    + intros j. rewrite Hf. apply Hf1.
Qed.

Lemma unused_flags s s' : unused_bufs s →
  (∀ j, b_flags <$> bio_bufs s' !! j = b_flags <$> bio_bufs s !! j) →
  ∀ i b, bio_bufs s' !! i = Some b → b_flags b = 0.
Proof.
  intros (_ & _ & Hu) Hf i b Hb. specialize (Hf i). rewrite Hb in Hf. destruct (bio_bufs s !! i) as [c|] eqn:Hc; [|done].
  injection Hf as ->. by eapply Hu.
Qed.

Lemma binit_spec s : unused_bufs s →
  wp binit (λ _ s', cache_ok s' (reverse (seq 0 NBUF)) ∧ bio_disk s' = bio_disk s ∧
    bio_havedisk1 s' = bio_havedisk1 s ∧ ∀ i b, bio_bufs s' !! i = Some b → b_flags b = 0) s.
Proof.
  intros Hu. assert (Hu' := Hu). destruct Hu' as (Hlen & Hq & _). unfold binit, wp.
  do 2 (erewrite bind_done by (apply wrb_alter; simpl; rewrite ?length_alter, Hlen; unfold bhead; lia)).
  set (s1 := s <| bio_bufs := _ |> <| bio_bufs := _ |>).
  assert (Hlen1 : length (bio_bufs s1) = S NBUF) by (unfold s1; simpl; by rewrite !length_alter).
  assert (Hp1 : path (bio_bufs s1) bhead [] bhead).
  { unfold s1. simpl. split; [|rewrite field_alter by done]; (apply field_alter_eq; [|done]);
      rewrite ?length_alter, Hlen; unfold bhead; lia. }
  eapply wp_mono; [apply (binit_loop_spec NBUF s1 [] 0 Hlen1 ltac:(lia) Hp1); [constructor|set_solver|set_solver]|].
  intros _ s' (Ha & Hb & Hc & Hd & He & Hv & Hf). rewrite app_nil_r in He, Hv.
  assert (Hz : ∀ i b, bio_bufs s' !! i = Some b → b_flags b = 0).
  { apply (unused_flags s); [done|]. intros j. rewrite Hf. unfold s1. simpl. by rewrite !field_alter. }
  assert (Hinv : ∀ i b, bio_bufs s' !! i = Some b → bvalid b = false ∧ bdirty b = false).
  { intros i b Hib. unfold bvalid, bdirty. by rewrite (Hz i b Hib). }
  split; [|by rewrite Hc, Hd]. split; try done.
  - apply reverse_Permutation.
  - intros i j b c Hi _ Hb' _ _ Hnd. exfalso. apply Hnd. assert (i ∈ reverse (seq 0 NBUF)) as Hin.
    { rewrite elem_of_reverse, elem_of_seq. lia. }
    apply Hv in Hin. rewrite Hb' in Hin. by injection Hin.
  - intros i b _ Hib _ Hbv. destruct (Hinv i b Hib). congruence.
  - intros i b _ Hib Hbd. destruct (Hinv i b Hib). congruence.
  - intros i b _ Hib Hbv. destruct (Hinv i b Hib). congruence.
  - by rewrite Hb.
Qed.

(** ** The cache as a store of blocks *)

Lemma block_det s lru k d1 d2 : cache_ok s lru → realdev k → block_is s k d1 → block_is s k d2 → d1 = d2.
Proof.
  intros H Hk [(i & b & Hi & Hb & Hkb & Hv & <-)|[Hno Hod]] [(j & c & Hj & Hc & Hkc & Hvc & <-)|[Hno' Hod']].
  - by destruct (cache_same s lru k i j b c) as [_ <-].
  - rewrite (Hno' i b) in Hv by done. done.
  - rewrite (Hno j c) in Hvc by done. done.
  - congruence.
Qed.

(** The contents of the blocks, as a function. *)
Abbreviation store := (Z * Z → list Z).
Definition store_set (a : store) (k : Z * Z) (d : list Z) : store := λ k', if decide (k' = k) then d else a k'.

Definition holds (s : bio) (a : store) : Prop :=
  (∃ lru, cache_ok s lru) ∧ ∀ k, realdev k → block_is s k (a k).

(** What the kernel does with the cache: it reads a block, changes the data
    of a buffer it holds, marks it dirty (log_write), writes it, releases it. *)
Inductive cstep : bio * store → bio * store → Prop :=
  | c_bread s a dev blockno i s' :
      realdev (dev, blockno) → available s (dev, blockno) → blockno < FSSIZE →
      dev = 0 ∨ bio_havedisk1 s = true → bread dev blockno s = Done i s' → cstep (s, a) (s', a)
  | c_edit s a i b d :
      (i < NBUF)%nat → bio_bufs s !! i = Some b → bbusy b = true → bvalid b = true →
      cstep (s, a) (s <| bio_bufs ::= <[i := b <| b_data := d |>]> |>, store_set a (bkey b) d)
  | c_dirty s a i b :
      (i < NBUF)%nat → bio_bufs s !! i = Some b → bbusy b = true → bvalid b = true →
      cstep (s, a) (s <| bio_bufs ::= <[i := set_flag B_DIRTY b]> |>, a)
  | c_bwrite s a i b s' :
      (i < NBUF)%nat → bio_bufs s !! i = Some b → bbusy b = true → bvalid b = true → drive_ok s b →
      bwrite i s = Done tt s' → cstep (s, a) (s', a)
  | c_brelse s a i b w s' :
      (i < NBUF)%nat → bio_bufs s !! i = Some b → bbusy b = true → settled s b →
      brelse i s = Done w s' → cstep (s, a) (s', a).

Lemma cstep_holds s a s' a' : holds s a → cstep (s, a) (s', a') → holds s' a'.
Proof.
  intros [[lru H] Hb] Hs. inversion Hs; subst.
  - assert (Hw : wp (bread dev blockno) (λ _ s', holds s' a') s).
    { eapply wp_mono; [by eapply bread_spec|]. intros j s2 (b & Hj & _ & _ & _ & _ & _ & Hc & Hsb & _).
      split; [by exists lru|]. intros k Hk. by apply Hsb, Hb. }
    by eapply (wp_inv _ _ _ _ _ Hw).
  - destruct (block_edit s lru i b (b <| b_data := d |>)) as [Hck Hbe]; try done.
    { intros Hbz. change (bbusy b = false) in Hbz. congruence. }
    split; [by exists lru|]. intros k Hk. unfold store_set. case_decide as Hkk.
    + left. exists i, (b <| b_data := d |>). split_and!; try done. simpl. apply list_lookup_insert_eq.
      by eapply lookup_lt_Some.
    + apply Hbe; [done|by left|by apply Hb].
  - destruct (block_edit s lru i b (set_flag B_DIRTY b)) as [Hck Hbe]; try done.
    { by bflags. }
    { intros _. bflags. match goal with H : bvalid b = true |- _ => by rewrite bvalid_bit in H end. }
    { intros Hbz. revert Hbz. bflags. match goal with H : bbusy b = true |- _ => rewrite bbusy_bit in H; congruence end. }
    split; [by exists lru|]. intros k Hk. apply Hbe; [done|by right|by apply Hb].
  - assert (Hw : wp (bwrite i) (λ _ s', holds s' a') s).
    { eapply wp_mono; [eapply (bwrite_spec s lru i b); try done; by apply (ck_real _ _ H i)|].
      intros j s2 (b' & _ & _ & _ & _ & _ & _ & Hc & Hsb & _).
      split; [by exists lru|]. intros k Hk. by apply Hsb, Hb. }
    by eapply (wp_inv _ _ _ _ _ Hw).
  - assert (Hw : wp (brelse i) (λ _ s', holds s' a') s).
    { eapply wp_mono; [by eapply (brelse_spec s lru i b)|]. intros j s2 (_ & b' & _ & _ & _ & _ & _ & _ & Hc & Hsb & _).
      split; [by eexists|]. intros k Hk. by apply Hsb, Hb. }
    by eapply (wp_inv _ _ _ _ _ Hw).
Qed.

Lemma binit_holds s0 s1 : unused_bufs s0 → binit s0 = Done tt s1 →
  holds s1 (λ k, on_disk s0 (Z.land (fst k) 1, snd k)).
Proof.
  intros Hu Hi. destruct (wp_inv _ _ _ _ _ (binit_spec s0 Hu) Hi) as (Hc & Hd & _ & Hf).
  split; [by eexists|]. intros k Hk. right. unfold on_disk. rewrite Hd. split; [|done].
  intros i b _ Hb _. unfold bvalid. by rewrite (Hf i b Hb).
Qed.

(** C30: whatever sequence of reads, changes, writes and releases of buffers
    runs after binit(), a bread() of a block of a disk that is present has one
    of three outcomes. When the buffer of the block is free, or none holds it
    and some buffer is neither busy nor dirty, it completes and returns a
    buffer, busy and valid, that holds what was last put in the block (what the
    disk held at first if nothing was), no matter which buffers were recycled
    and when blocks went to the disk in between. When somebody has the buffer of
    the block, it waits for that buffer. When none holds the block and all are
    busy or dirty, it panics. *)
Theorem cache_reads_last_write s0 s1 s a dev blockno :
  unused_bufs s0 → binit s0 = Done tt s1 →
  rtc cstep (s1, λ k, on_disk s0 (Z.land (fst k) 1, snd k)) (s, a) →
  realdev (dev, blockno) → blockno < FSSIZE → dev = 0 ∨ bio_havedisk1 s = true →
  (available s (dev, blockno) ∧
   wp (bread dev blockno) (λ i s', ∃ b, bio_bufs s' !! i = Some b ∧ bkey b = (dev, blockno) ∧
     bbusy b = true ∧ bvalid b = true ∧ b_data b = a (dev, blockno)) s) ∨
  (∃ i, in_use s (dev, blockno) i ∧ bread dev blockno s = Blocked (WaitChan (ChBuf i)) s) ∨
  (exhausted s (dev, blockno) ∧ bread dev blockno s = Panic "bget: no buffers" s).
Proof.
  intros Hu Hi Hr Hk Hbn Hdr. assert (Hh : holds s a).
  { change (holds (s, a).1 (s, a).2). eapply (rtc_invariant cstep (λ x, holds x.1 x.2)); [|..|exact Hr].
    - by apply binit_holds.
    - intros [] []. apply cstep_holds. }
  destruct Hh as [[lru H] Hb]. destruct (bget_cases s lru dev blockno H) as [Hav|[(i & Hin & Hg)|[Hex Hg]]].
  - left. split; [done|]. eapply wp_mono; [by eapply bread_spec|].
    intros i s' (b & _ & Hbi & Hkb & Hbz & Hv & Hbl & _). exists b. split_and!; try done.
    eapply block_det; [done|done|done|by apply Hb].
  - right. left. exists i. split; [done|]. unfold bread, mbind, M_bind. by rewrite Hg.
  - right. right. split; [done|]. unfold bread, mbind, M_bind. by rewrite Hg.
Qed.

(** Bwrite() of a buffer the caller holds puts its data on the disk, and
    nothing else, before it returns, and keeps the buffer. *)
Theorem bwrite_durable s lru i b :
  cache_ok s lru → (i < NBUF)%nat → bio_bufs s !! i = Some b → bbusy b = true → bvalid b = true →
  drive_ok s b →
  wp (bwrite i) (λ _ s', bio_disk s' = (bkey b, b_data b) :: bio_disk s ∧ cache_ok s' lru ∧ same_blocks s s' ∧
    ∃ b', bio_bufs s' = <[i := b']> (bio_bufs s) ∧ bkey b' = bkey b ∧ b_data b' = b_data b ∧
      bbusy b' = true ∧ settled s' b') s.
Proof.
  intros H Hi Hb Hbz Hv Hdr. assert (Hr := ck_real _ _ H i b Hi Hb Hv).
  eapply wp_mono; [by apply (bwrite_spec s lru i b)|].
  intros _ s' (b' & Hbs & Hk & Hbz' & Hv' & Hd' & Hdat & Hc & Hsb & Hdk & _). split_and!; try done.
  exists b'. split_and!; try done. intros _ _. unfold on_disk. rewrite realdev_key, Hk, Hdk, Hdat by (by rewrite Hk).
  by rewrite disk_at_eq.
Qed.

(** ** Examples *)

Definition fresh_bio : bio :=
  mkBio (replicate (S NBUF) (mkBuf 0 0 0 0 0 zero_block)) [] [((0, 7), replicate BSIZE 9)] false.
Definition ran {A} (m : B A) (s : bio) : bio := match m s with Done _ s' => s' | _ => s end.

Lemma fresh_unused : unused_bufs fresh_bio.
Proof. split_and!; [done|done|]. intros i b [-> _]%lookup_replicate. done. Qed.

(** Block 7 is read, changed, written and released; the next reader has the
    new contents. *)
Definition demo_bio1 : bio := ran binit fresh_bio.
Definition demo_bio2 : bio := ran (bread 0 7) demo_bio1.
Definition demo_buf : buf := default (mkBuf 0 0 0 0 0 []) (bio_bufs demo_bio2 !! 0%nat).
Definition demo_bio3 : bio := demo_bio2 <| bio_bufs ::= <[0%nat := demo_buf <| b_data := replicate BSIZE 4 |>]> |>.
Definition demo_bio4 : bio := ran (bwrite 0) demo_bio3.
Definition demo_bio5 : bio := ran (brelse 0) demo_bio4.

Ltac bio_run := vm_compute; reflexivity.

Abbreviation demo_store0 := (λ k, on_disk fresh_bio (Z.land (fst k) 1, snd k)).
Definition demo_store : store := store_set demo_store0 (bkey demo_buf) (replicate BSIZE 4).

Lemma demo_bio_edit : rtc cstep (demo_bio1, demo_store0) (demo_bio3, demo_store).
Proof.
  eapply rtc_l; [eapply (c_bread demo_bio1 _ 0 7 0 demo_bio2)|].
  { by left. }
  { right. split.
    - intros i b Hi Hb. assert (Hall : forallb (λ b, b_dev b =? nodev) (take NBUF (bio_bufs demo_bio1)) = true) by bio_run.
      rewrite forallb_forall in Hall. specialize (Hall b). intros Hk. unfold bkey in Hk. injection Hk as Hk _.
      rewrite Hk in Hall. discriminate Hall. apply list_elem_of_In, (list_elem_of_lookup_2 _ i).
      by rewrite lookup_take_lt.
    - exists 0%nat. eexists. split_and!; [unfold NBUF; lia|bio_run|bio_run|bio_run]. }
  { done. }
  { by left. }
  { bio_run. }
  apply rtc_once, c_edit; [unfold NBUF; lia|bio_run..].
Qed.

Lemma demo_bio_trace : rtc cstep (demo_bio1, demo_store0) (demo_bio5, demo_store).
Proof.
  etrans; [apply demo_bio_edit|]. eapply rtc_l; [eapply (c_bwrite demo_bio3 _ 0 _ demo_bio4)|].
  { unfold NBUF; lia. }
  { bio_run. }
  { bio_run. }
  { bio_run. }
  { split; [done|by left]. }
  { bio_run. }
  apply rtc_once, (c_brelse demo_bio4 _ 0 (default demo_buf (bio_bufs demo_bio4 !! 0%nat)) [ChBuf 0] demo_bio5).
  { unfold NBUF; lia. }
  { bio_run. }
  { bio_run. }
  { intros _ _. bio_run. }
  { bio_run. }
Qed.

Lemma demo_bio3_ok : ∃ lru, cache_ok demo_bio3 lru.
Proof.
  assert (Hh : holds demo_bio3 demo_store); [|by destruct Hh].
  change (holds (demo_bio3, demo_store).1 (demo_bio3, demo_store).2).
  eapply (rtc_invariant cstep (λ x, holds x.1 x.2)); [|..|exact demo_bio_edit].
  - apply binit_holds; [apply fresh_unused|bio_run].
  - intros [] []. apply cstep_holds.
Qed.

(** The block is available, so the first outcome is the one. *)
Lemma cache_reads_last_write_witness :
  wp (bread 0 7) (λ i s', ∃ b, bio_bufs s' !! i = Some b ∧ bkey b = (0, 7) ∧
    bbusy b = true ∧ bvalid b = true ∧ b_data b = replicate BSIZE 4) demo_bio5.
Proof.
  assert (Hi : binit fresh_bio = Done tt demo_bio1) by bio_run.
  destruct (cache_reads_last_write fresh_bio demo_bio1 demo_bio5 _ 0 7 fresh_unused Hi demo_bio_trace
    (or_introl eq_refl) eq_refl (or_introl eq_refl)) as [[_ H]|[(i & _ & H)|[_ H]]].
  - exact H.
  - exfalso. vm_compute in H. discriminate H.
  - exfalso. vm_compute in H. discriminate H.
Defined.

Lemma bwrite_durable_witness :
  wp (bwrite 0) (λ _ s', disk_at (bio_disk s') (0, 7) = replicate BSIZE 4) demo_bio3.
Proof.
  destruct demo_bio3_ok as [lru Hok].
  eapply wp_mono; [eapply (bwrite_durable demo_bio3 lru 0 (demo_buf <| b_data := replicate BSIZE 4 |>) Hok)|].
  - unfold NBUF; lia.
  - bio_run.
  - bio_run.
  - bio_run.
  - split; [done|by left].
  - intros [] s' [Hd _]. rewrite Hd. bio_run.
Defined.
