(* ===== verification/BioView.v ===== *)
(** * What the buffer cache promises its clients

    The log and the file system see a store of blocks [a], the buffers they
    hold, and the blocks pinned in the cache because they are dirty. [view]
    says that a state of the cache is such a store; each routine of bio.c has
    one lemma here, and clients are proved with these lemmas alone. *)

From S2P Require Import Prelude Bio.

Abbreviation key := (Z * Z)%type.

Record view (s : bio) (a : store) (held : list (nat * key)) (P : list key) : Prop := {
  vw_holds : holds s a;
  vw_busy : ∀ i b, (i < NBUF)%nat → bio_bufs s !! i = Some b → bbusy b = true ↔ (i, bkey b) ∈ held;
  vw_held : ∀ i k, (i, k) ∈ held → (i < NBUF)%nat ∧ ∃ b, bio_bufs s !! i = Some b ∧ bkey b = k ∧ bvalid b = true;
  vw_dirty : ∀ i b, (i < NBUF)%nat → bio_bufs s !! i = Some b → bdirty b = true → bkey b ∈ P;
  vw_pin : ∀ k, k ∈ P → ∃ i b, (i < NBUF)%nat ∧ bio_bufs s !! i = Some b ∧ bkey b = k ∧ bdirty b = true;
  vw_nodup : NoDup held.*2;
}.

(** The blocks a client may use. *)
Definition block_ok (s : bio) (k : key) : Prop :=
  realdev k ∧ snd k < FSSIZE ∧ (fst k = 0 ∨ bio_havedisk1 s = true).

Section view.
Context (s : bio) (a : store) (held : list (nat * key)) (P : list key) (V : view s a held P).

Lemma view_cache : ∃ lru, cache_ok s lru.
Proof. apply (vw_holds _ _ _ _ V). Qed.

Lemma view_block k : realdev k → block_is s k (a k).
Proof. apply (vw_holds _ _ _ _ V). Qed.

(** A buffer that is held shows its block. *)
Lemma view_buf i k : (i, k) ∈ held → (i < NBUF)%nat ∧ realdev k ∧ ∃ b, bio_bufs s !! i = Some b ∧ bkey b = k ∧
  bbusy b = true ∧ bvalid b = true ∧ b_data b = a k.
Proof.
  intros Hin. destruct (vw_held _ _ _ _ V i k Hin) as (Hi & b & Hb & Hk & Hv). destruct view_cache as [lru H].
  assert (Hr : realdev k) by (rewrite <- Hk; by eapply (ck_real _ _ H)). split_and!; [done|done|].
  exists b. split_and!; [done|done| |done|].
  - apply (vw_busy _ _ _ _ V i b Hi Hb). by rewrite Hk.
  - eapply (block_det s lru k); [done|done| |by apply view_block]. left. by exists i, b.
Qed.

Lemma held_key i k : (i, k) ∈ held → k ∈ held.*2.
Proof. intros Hin. apply list_elem_of_fmap. by exists (i, k). Qed.

Lemma view_pinned i b : (i < NBUF)%nat → bio_bufs s !! i = Some b → realdev (bkey b) → bdirty b = true ↔ bkey b ∈ P.
Proof.
  intros Hi Hb Hr. split; [by apply (vw_dirty _ _ _ _ V i)|].
  intros (j & c & Hj & Hcj & Hkc & Hd)%(vw_pin _ _ _ _ V). destruct view_cache as [lru H].
  by destruct (cache_same s lru (bkey b) j i c b) as [_ <-].
Qed.

(** A block that is neither held nor pinned is on the disk. *)
Lemma view_disk k : realdev k → k ∉ held.*2 → k ∉ P → on_disk s k = a k.
Proof.
  intros Hr Hh HP. destruct view_cache as [lru H].
  destruct (view_block k Hr) as [(i & b & Hi & Hb & Hk & Hv & <-)|[_ Hd]].
  - rewrite <- Hk in Hr |- *. rewrite <- (realdev_key b Hr). symmetry. eapply (ck_disk _ _ H); [done|done| |done|].
    + destruct (bbusy b) eqn:Hbz; [|done]. apply (vw_busy _ _ _ _ V i b Hi Hb), held_key in Hbz. congruence.
    + destruct (bdirty b) eqn:Hd; [|done]. apply (vw_dirty _ _ _ _ V i b Hi Hb) in Hd. congruence.
  - rewrite <- Hd. destruct k as [k1 k2]. destruct Hr as [Hr|Hr]; simpl in *; by subst.
Qed.

(** The buffers in use and the pinned ones have different blocks, so with
    fewer of them than buffers one is free. *)
Lemma view_clean : (length P + length held < NBUF)%nat →
  ∃ i b, (i < NBUF)%nat ∧ bio_bufs s !! i = Some b ∧ bbusy b = false ∧ bdirty b = false.
Proof.
  intros Hlen. destruct view_cache as [lru H].
  destruct (decide (Exists (λ i, clean s i = true) (seq 0 NBUF))) as [He|Hne].
  { apply Exists_exists in He as (i & Hi & Hc). apply elem_of_seq in Hi.
    destruct (cache_buf s lru i H) as [b Hb]; [lia|]. pose proof (proj1 (clean_spec _ _ _ Hb) Hc) as [Hc1 Hc2]. exists i, b.
    split_and!; [lia|done..]. }
  exfalso. apply not_Exists_Forall in Hne; [|apply _]. rewrite Forall_forall in Hne.
  set (kf := λ i, match bio_bufs s !! i with Some b => bkey b | None => (0, 0) end).
  assert (Hin : ∀ i, (i < NBUF)%nat → ∃ b, bio_bufs s !! i = Some b ∧ bkey b ∈ P ++ held.*2 ∧ bvalid b = true).
  { intros i Hi. destruct (cache_buf s lru i H) as [b Hb]; [lia|]. exists b. split; [done|].
    specialize (Hne i ltac:(apply elem_of_seq; lia)). simpl in Hne. rewrite (clean_spec _ _ _ Hb) in Hne.
    destruct (bdirty b) eqn:Hd.
    - split; [|by eapply (ck_dirty _ _ H)]. apply elem_of_app. left. by eapply (vw_dirty _ _ _ _ V).
    - destruct (bbusy b) eqn:Hbz; [|tauto]. apply (vw_busy _ _ _ _ V i b Hi Hb) in Hbz. split.
      + apply elem_of_app. right. by eapply held_key.
      + destruct (vw_held _ _ _ _ V _ _ Hbz) as (_ & c & Hc & _ & Hv). congruence. }
  assert (Hnd : NoDup (kf <$> seq 0 NBUF)).
  { apply NoDup_fmap_2_strong; [|apply NoDup_seq]. intros i j Hi%elem_of_seq Hj%elem_of_seq Hk.
    destruct (Hin i) as (b & Hb & _ & Hv); [lia|]. destruct (Hin j) as (c & Hc & _ & _); [lia|].
    unfold kf in Hk. rewrite Hb, Hc in Hk. eapply (cache_same s lru (bkey b) i j b c); try done; try lia.
    eapply (ck_real _ _ H i); [lia|done|done]. }
  assert (Hsub : kf <$> seq 0 NBUF ⊆ P ++ held.*2).
  { intros k (i & -> & Hi%elem_of_seq)%list_elem_of_fmap. destruct (Hin i) as (b & Hb & Hm & _); [lia|].
    unfold kf. by rewrite Hb. }
  pose proof (submseteq_length _ _ (NoDup_submseteq _ _ Hnd Hsub)) as Hl.
  rewrite length_fmap, length_seq, length_app, length_fmap in Hl. lia.
Qed.

Lemma view_available k : realdev k → k ∉ held.*2 → k ∈ P ∨ (length P + length held < NBUF)%nat → available s k.
Proof.
  intros Hr Hh Hor. destruct view_cache as [lru H].
  destruct (decide (Exists (λ i, has_key s (fst k) (snd k) i = true) (seq 0 NBUF))) as [He|Hne].
  - apply Exists_exists in He as (i & Hi%elem_of_seq & Hc). destruct (cache_buf s lru i H) as [b Hb]; [lia|].
    pose proof (proj1 (has_key_spec _ _ _ _ _ Hb) Hc) as Hk. rewrite <- surjective_pairing in Hk. left. exists i, b.
    split_and!; [lia|done|done|]. destruct (bbusy b) eqn:Hbz; [|done].
    apply (vw_busy _ _ _ _ V i b) in Hbz; [|lia|done]. apply held_key in Hbz. congruence.
  - apply not_Exists_Forall in Hne; [|apply _]. rewrite Forall_forall in Hne.
    assert (Hno : ∀ i b, (i < NBUF)%nat → bio_bufs s !! i = Some b → bkey b ≠ k).
    { intros i b Hi Hb Hk. apply (Hne i); [apply elem_of_seq; lia|]. apply (has_key_spec _ _ _ _ _ Hb).
      by rewrite <- surjective_pairing. }
    right. split; [done|]. apply view_clean. destruct Hor as [HP|]; [|done].
    destruct (vw_pin _ _ _ _ V k HP) as (i & b & Hi & Hb & Hk & _). by destruct (Hno i b).
Qed.
End view.

(** ** The routines *)

(** Buffer [i] changes, and others at most move in the list. *)
Lemma view_update s s' a a' held held' P P' i b b' :
  view s a held P → holds s' a' → (i < NBUF)%nat → bio_bufs s !! i = Some b → bio_bufs s' !! i = Some b' →
  (∀ j, j ≠ i → content <$> bio_bufs s' !! j = content <$> bio_bufs s !! j) →
  (∀ j k, j ≠ i → (j, k) ∈ held' ↔ (j, k) ∈ held) →
  (bbusy b' = true ↔ (i, bkey b') ∈ held') → (∀ k, (i, k) ∈ held' → k = bkey b' ∧ bvalid b' = true) →
  NoDup held'.*2 → (bdirty b' = true ↔ bkey b' ∈ P') →
  (∀ k, k ≠ bkey b' → k ∈ P' ↔ k ∈ P) → (bkey b ≠ bkey b' → bkey b ∉ P) →
  view s' a' held' P'.
Proof.
  intros V Hh Hi Hb Hb' Hc Hheld Hbz Hi' Hnd Hdt HP Hold. destruct Hh as [[lru' H'] Hblk].
  assert (Hother : ∀ j c, j ≠ i → bio_bufs s' !! j = Some c → ∃ c0, bio_bufs s !! j = Some c0 ∧ content c = content c0).
  { intros j c Hj. apply content_inv. by apply Hc. }
  split; [by split; [exists lru'|]|..|done].
  - intros j c Hj Hcj. destruct (decide (j = i)) as [->|Hne]; [by simplify_eq|].
    destruct (Hother j c Hne Hcj) as (c0 & Hc0 & (Hk & _ & _ & Hz & _)%content_eq).
    rewrite Hheld, Hz, Hk by done. by apply (vw_busy _ _ _ _ V).
  - intros j k Hjk. destruct (decide (j = i)) as [->|Hne].
    + destruct (Hi' k Hjk) as [-> Hv]. split; [done|]. by exists b'.
    + apply Hheld in Hjk; [|done]. destruct (vw_held _ _ _ _ V j k Hjk) as (Hj & c0 & Hc0 & Hk & Hv).
      destruct (content_inv (bio_bufs s') (bio_bufs s) j c0) as (c & Hcj & He); [by rewrite Hc|done|].
      split; [done|]. exists c. apply content_eq in He as (Hk' & _ & _ & _ & Hv' & _). split_and!; congruence.
  - intros j c Hj Hcj Hd. destruct (decide (j = i)) as [->|Hne]; [simplify_eq; by apply Hdt|].
    destruct (Hother j c Hne Hcj) as (c0 & Hc0 & He). pose proof (content_eq _ _ He) as (Hk & _ & _ & _ & _ & Hd' & _).
    apply HP.
    + intros Hkk. apply Hne. pose proof (ck_dirty _ _ H' j c Hj Hcj Hd) as Hv.
      eapply (cache_same s' lru' (bkey c) j i c b'); try done. by eapply (ck_real _ _ H' j).
    + rewrite Hk. apply (vw_dirty _ _ _ _ V j c0); congruence.
  - intros k Hk. destruct (decide (k = bkey b')) as [->|Hne].
    + exists i, b'. split_and!; try done. by apply Hdt.
    + apply HP in Hk; [|done]. destruct (vw_pin _ _ _ _ V k Hk) as (j & c0 & Hj & Hc0 & Hkc & Hd).
      assert (j ≠ i) as Hji.
      { intros ->. assert (c0 = b) as -> by congruence. subst k. by apply Hold. }
      destruct (content_inv (bio_bufs s') (bio_bufs s) j c0) as (c & Hcj & He); [by rewrite Hc|done|].
      exists j, c. apply content_eq in He as (Hk' & _ & _ & _ & _ & Hd' & _). split_and!; congruence.
Qed.

Lemma same_holds s s' a : holds s a → (∃ lru, cache_ok s' lru) → same_blocks s s' → holds s' a.
Proof. intros [_ Hb] Hc Hs. split; [done|]. intros k Hk. by apply Hs, Hb. Qed.

Definition frame (s s' : bio) : Prop := bio_havedisk1 s' = bio_havedisk1 s.

Lemma view_bread s a held P dev blockno :
  view s a held P → block_ok s (dev, blockno) → (dev, blockno) ∉ held.*2 →
  (dev, blockno) ∈ P ∨ (length P + length held < NBUF)%nat →
  wp (bread dev blockno) (λ i s', view s' a ((i, (dev, blockno)) :: held) P ∧ (i ∉ held.*1) ∧
    bio_disk s' = bio_disk s ∧ frame s s') s.
Proof.
  intros V (Hr & Hbn & Hdr) Hh Hor. destruct (view_cache _ _ _ _ V) as [lru H].
  pose proof (view_available _ _ _ _ V _ Hr Hh Hor) as Hav.
  destruct (bread_done s lru dev blockno H Hr Hav Hbn Hdr) as (i & b & b' & Hi & Hb & Ha & Hrun).
  destruct (acquired_cache s lru _ i b b' H Hr Hi Hb Ha) as (Hc & Hsb & Hbl).
  assert (Hfree : ∀ k, (i, k) ∉ held).
  { intros k Hin. destruct (view_buf _ _ _ _ V i k Hin) as (_ & _ & c & Hcc & _ & Hz & _).
    pose proof (aq_free _ _ _ _ Ha). congruence. }
  pose proof (aq_key _ _ _ _ Ha) as Hk. pose proof (aq_valid _ _ _ _ Ha) as Hv.
  unfold wp. rewrite Hrun. split_and!; [|by intros ([j k] & -> & Hin)%list_elem_of_fmap; eapply Hfree|done|done].
  eapply (view_update s _ a a held _ P P i b b'); [done| |done|done| | | | | | | | |].
  - eapply same_holds; [apply V|by exists lru|done].
  - simpl. apply list_lookup_insert_eq. by eapply lookup_lt_Some.
  - intros j Hj. simpl. by rewrite list_lookup_insert_ne.
  - intros j k Hj. rewrite elem_of_cons. naive_solver.
  - rewrite Hk, (aq_busy _ _ _ _ Ha). set_solver.
  - intros k. rewrite elem_of_cons. intros [[= ->]|Hin]; [by rewrite Hk|by destruct (Hfree k)].
  - simpl. constructor; [done|apply V].
  - rewrite Hk. destruct (decide (bkey b = (dev, blockno))) as [Hbk|Hbk].
    + rewrite (aq_dirty _ _ _ _ Ha Hbk), <- Hbk. apply (view_pinned _ _ _ _ V i); [done|done|by rewrite Hbk].
    + destruct (aq_miss _ _ _ _ Ha Hbk) as (_ & _ & -> & Hno). split; [done|].
      intros (j & c & Hj & Hcj & Hkc & Hd)%(vw_pin _ _ _ _ V). by destruct (Hno j c).
  - done.
  - rewrite Hk. intros Hbk (j & c & Hj & Hcj & Hkc & Hd)%(vw_pin _ _ _ _ V).
    destruct (aq_miss _ _ _ _ Ha Hbk) as (_ & Hclean & _ & _).
    pose proof (ck_dirty _ _ H j c Hj Hcj Hd) as Hvc. pose proof (ck_real _ _ H j c Hj Hcj Hvc) as Hrc. rewrite Hkc in Hrc.
    destruct (cache_same s lru (bkey b) j i c b) as [_ <-]; try done. congruence.
Qed.

(** Writing b->data of a buffer that is held. *)
Definition put_data (i : nat) (d : list Z) : B unit := wrb i (λ b, b <| b_data := d |>).

Lemma view_put s a held P i k d :
  view s a held P → (i, k) ∈ held →
  wp (put_data i d) (λ _ s', view s' (store_set a k d) held P ∧ bio_disk s' = bio_disk s ∧ frame s s') s.
Proof.
  intros V Hin. destruct (view_buf _ _ _ _ V i k Hin) as (Hi & Hr & b & Hb & Hk & Hz & Hv & _).
  eapply wp_wrb; [done|]. split_and!; [|done|done].
  assert (Hh : holds (s <| bio_bufs ::= <[i := b <| b_data := d |>]> |>) (store_set a k d)).
  { eapply cstep_holds; [apply V|]. subst k. by apply c_edit. }
  eapply (view_update s _ a _ held held P P i b (b <| b_data := d |>)); [done|exact Hh|done|done| | |done| | |apply V| |done|done].
  - simpl. apply list_lookup_insert_eq. by eapply lookup_lt_Some.
  - intros j Hj. simpl. by rewrite list_lookup_insert_ne.
  - by apply (vw_busy _ _ _ _ V i b).
  - intros k' Hk'. destruct (view_buf _ _ _ _ V i k' Hk') as (_ & _ & c & Hc & Hkc & _).
    assert (c = b) as -> by congruence. done.
  - subst k. by apply (view_pinned _ _ _ _ V i b).
Qed.

(** bwrite() writes the block and unpins it. *)
Lemma view_bwrite s a held P i k :
  view s a held P → (i, k) ∈ held → block_ok s k →
  wp (bwrite i) (λ _ s', view s' a held (without k P) ∧ bio_disk s' = (k, a k) :: bio_disk s ∧ frame s s') s.
Proof.
  intros V Hin (Hr & Hbn & Hdr). destruct (view_buf _ _ _ _ V i k Hin) as (Hi & _ & b & Hb & Hk & Hz & Hv & Hd).
  destruct (view_cache _ _ _ _ V) as [lru H]. subst k.
  eapply wp_mono; [by eapply (bwrite_spec s lru i b)|].
  intros _ s' (b' & Hbs & Hk' & Hz' & Hv' & Hd' & Hdat & Hc & Hsb & Hdk & Hfr). rewrite <- Hd. split_and!; [|done|done].
  assert (Hlt : (i < length (bio_bufs s))%nat) by (by eapply lookup_lt_Some).
  eapply (view_update s _ a _ held held P _ i b b'); [done| |done|done| | |done| | |apply V| | |congruence].
  - eapply same_holds; [apply V|by exists lru|done].
  - rewrite Hbs. by apply list_lookup_insert_eq.
  - intros j Hj. rewrite Hbs. by rewrite list_lookup_insert_ne.
  - rewrite Hz', Hk'. done.
  - intros k' Hk2. destruct (view_buf _ _ _ _ V i k' Hk2) as (_ & _ & c & Hc' & Hkc & _).
    assert (c = b) as -> by congruence. by rewrite Hk'.
  - rewrite Hd', Hk', elem_of_without. naive_solver.
  - intros k' Hne. rewrite Hk' in Hne. rewrite elem_of_without. naive_solver.
Qed.

(** brelse() of a block that is pinned or on the disk. *)
Lemma view_brelse s a held1 held2 P i k :
  view s a (held1 ++ (i, k) :: held2) P → k ∈ P ∨ on_disk s k = a k →
  wp (brelse i) (λ w s', w = [ChBuf i] ∧ view s' a (held1 ++ held2) P ∧ bio_disk s' = bio_disk s ∧ frame s s') s.
Proof.
  intros V Hor. set (held := held1 ++ (i, k) :: held2) in *. assert (Hin : (i, k) ∈ held) by set_solver.
  destruct (view_buf _ _ _ _ V i k Hin) as (Hi & Hr & b & Hb & Hk & Hz & Hv & Hd).
  destruct (view_cache _ _ _ _ V) as [lru H].
  assert (Hpin : bdirty b = true ↔ k ∈ P).
  { rewrite <- Hk in Hr |- *. by apply (view_pinned _ _ _ _ V i b). }
  assert (Hset : settled s b).
  { intros _ Hnd. rewrite realdev_key, Hk, Hd by congruence. destruct Hor as [HP%Hpin|Hor]; congruence. }
  assert (Hnd : NoDup held.*2) by apply V. unfold held in Hnd. rewrite fmap_app, fmap_cons, <- Permutation_middle in Hnd.
  simpl in Hnd. apply NoDup_cons in Hnd as [Hnk Hnd].
  assert (Hhi : ∀ k', (i, k') ∉ held1 ++ held2).
  { intros k' Hk'. assert (k' = k) as ->.
    { destruct (view_buf _ _ _ _ V i k') as (_ & _ & c & Hc & Hkc & _); [unfold held; set_solver|]. congruence. }
    apply Hnk. rewrite <- fmap_app. by eapply held_key. }
  eapply wp_mono; [by eapply (brelse_spec s lru i b)|].
  intros w s' (-> & b' & Hb' & Hk' & Hz' & Hv' & Hd' & Hdat & Hc & Hsb & Hdk & Hfr & Hoth). split_and!; [done| |done|done].
  eapply (view_update s _ a _ held (held1 ++ held2) P P i b b'); [done| |done|done|done|done| | | | | |done|congruence].
  - eapply same_holds; [apply V|by eexists|done].
  - intros j k' Hj. unfold held. set_solver.
  - rewrite Hz'. split; [done|]. intros Hx. by destruct (Hhi (bkey b')).
  - intros k' Hx. by destruct (Hhi k').
  - by rewrite fmap_app.
  - by rewrite Hd', Hk', Hk.
Qed.

(** Marking a held buffer dirty pins its block. *)
Lemma view_pin s a held P P' i k :
  view s a held P → (i, k) ∈ held → k ∈ P' → (∀ k', k' ≠ k → k' ∈ P' ↔ k' ∈ P) →
  wp (wrb i (set_flag B_DIRTY)) (λ _ s', view s' a held P' ∧ bio_disk s' = bio_disk s ∧ frame s s') s.
Proof.
  intros V Hin HkP HP. destruct (view_buf _ _ _ _ V i k Hin) as (Hi & Hr & b & Hb & Hk & Hz & Hv & _).
  eapply wp_wrb; [done|]. split_and!; [|done|done].
  assert (Hfl : bbusy (set_flag B_DIRTY b) = true ∧ bvalid (set_flag B_DIRTY b) = true ∧ bdirty (set_flag B_DIRTY b) = true).
  { rewrite bbusy_bit in Hz. rewrite bvalid_bit in Hv. split_and!; bflags; done. }
  destruct Hfl as (Hz' & Hv' & Hd').
  eapply (view_update s _ a _ held held P P' i b (set_flag B_DIRTY b)); [done| |done|done| | |done| | |apply V| | |done].
  - eapply cstep_holds; [apply V|]. by apply c_dirty.
  - simpl. apply list_lookup_insert_eq. by eapply lookup_lt_Some.
  - intros j Hj. simpl. by rewrite list_lookup_insert_ne.
  - rewrite Hz'. change (bkey (set_flag B_DIRTY b)) with (bkey b). by rewrite Hk.
  - intros k' Hk'. destruct (view_buf _ _ _ _ V i k' Hk') as (_ & _ & c & Hc & Hkc & _).
    assert (c = b) as -> by congruence. done.
  - rewrite Hd'. change (bkey (set_flag B_DIRTY b)) with (bkey b). by rewrite Hk.
  - change (bkey (set_flag B_DIRTY b)) with (bkey b). by rewrite Hk.
Qed.

(** After binit() the store is what is on the disks. *)
Lemma view_binit s :
  unused_bufs s →
  wp binit (λ _ s', view s' (λ k, on_disk s (Z.land (fst k) 1, snd k)) [] [] ∧ bio_disk s' = bio_disk s ∧ frame s s') s.
Proof.
  intros Hu. pose proof (binit_spec s Hu) as Hw. apply wp_done in Hw as ([] & s' & Hrun & Hc & Hd & Hh & Hf).
  unfold wp. rewrite Hrun. split_and!; [|done|done].
  assert (Hfl : ∀ i b, bio_bufs s' !! i = Some b → bbusy b = false ∧ bdirty b = false).
  { intros i b Hb. unfold bbusy, bdirty. by rewrite (Hf i b Hb). }
  split; [by apply binit_holds|..].
  - intros i b Hi Hb. destruct (Hfl i b Hb) as [-> _]. set_solver.
  - set_solver.
  - intros i b Hi Hb Hdb. destruct (Hfl i b Hb). congruence.
  - set_solver.
  - constructor.
Qed.
