(* ===== verification/Log.v ===== *)
(** * The redo log (log.c)

    A transaction collects the blocks that were changed, in lh.block; commit
    copies them to the log area of the disk, writes the header, copies them
    home and clears the header. The definitions run on the buffer cache of
    Bio.v. A stretch under log.lock is atomic; begin_op() that has to wait is
    [Blocked]. *)

From S2P Require Import Prelude Bytes Bio BioView.

Definition MAXOPBLOCKS : Z := 10.
Definition LOGSIZE : Z := MAXOPBLOCKS * 3.

(** struct log with its header: n and block[LOGSIZE]. *)
Record log : Type := mkLog {
  lg_bio : bio;
  lg_start : Z;
  lg_size : Z;
  lg_outstanding : Z;
  lg_committing : bool;
  lg_dev : Z;
  lg_n : Z;
  lg_block : list Z;
}.
#[export] Instance log_eta : Eta log := λ s,
  mkLog (lg_bio s) (lg_start s) (lg_size s) (lg_outstanding s) (lg_committing s) (lg_dev s) (lg_n s) (lg_block s).

Abbreviation L := (M log).

(** The buffer cache, from the log. *)
Definition lb {A} (m : B A) : L A := lift lg_bio (λ t s, s <| lg_bio := t |>) m.
Definition data (i : nat) : L (list Z) := b ← lb (rdb i); mret (b_data b).
Definition lrelse (i : nat) : L unit := _ ← lb (brelse i); mret tt.

Definition get_block (i : Z) : L Z := λ s,
  match lg_block s !! Z.to_nat i with Some b => if i <? 0 then Fault s else Done b s | None => Fault s end.
Definition set_block (i b : Z) : L unit := λ s,
  if (0 <=? i) && (i <? Z.of_nat (length (lg_block s)))
  then Done tt (s <| lg_block ::= <[Z.to_nat i := b]> |>) else Fault s.

(** [memmove(dst->data, src->data, BSIZE)] between two buffers. *)
Definition copy_block (dst src : nat) : L unit :=
  x ← data src;
  d ← data dst;
  lb (put_data dst (splice d 0 (take BSIZE x))).

(** ** install_trans() *)

Definition install_one (tail : Z) : L unit :=
  s ← get;
  lbuf ← lb (bread (lg_dev s) (u32 (lg_start s + tail + 1)));
  b ← get_block tail;
  dbuf ← lb (bread (lg_dev s) (u32 b));
  copy_block dbuf lbuf;;
  lb (bwrite dbuf);;
  lrelse lbuf;;
  lrelse dbuf.

Fixpoint install_loop (tail : Z) (n : nat) : L unit :=
  match n with O => mret tt | S n => install_one tail;; install_loop (tail + 1) n end.

Definition install_trans : L unit := n ← gets lg_n; install_loop 0 (Z.to_nat n).

(** ** The header *)

(** The header in a block: n, then block[0], block[1], ... *)
Definition block_off (i : nat) : nat := 4 + 4 * i.

Fixpoint read_blocks (buf : list Z) (i n : nat) : L unit :=
  match n with
  | O => mret tt
  | S n => set_block (Z.of_nat i) (s32 (get_le 4 buf (block_off i)));; read_blocks buf (S i) n
  end.

Definition read_head : L unit :=
  s ← get;
  buf ← lb (bread (lg_dev s) (u32 (lg_start s)));
  lh ← data buf;
  modify (λ s, s <| lg_n := s32 (get_le 4 lh 0) |>);;
  read_blocks lh 0 (Z.to_nat (s32 (get_le 4 lh 0)));;
  lrelse buf.

Fixpoint put_blocks (d : list Z) (i : nat) (l : list Z) : list Z :=
  match l with [] => d | b :: l => put_blocks (put_le 4 d (block_off i) b) (S i) l end.

(** The header block after n and block[0..n) have been stored in it. *)
Definition head_bytes (d : list Z) (l : list Z) : list Z := put_blocks (put_le 4 d 0 (Z.of_nat (length l))) 0 l.

Definition write_head : L unit :=
  s ← get;
  buf ← lb (bread (lg_dev s) (u32 (lg_start s)));
  hb ← data buf;
  (if (Z.of_nat (length (lg_block s)) <? lg_n s) then fault
   else lb (put_data buf (put_blocks (put_le 4 hb 0 (lg_n s)) 0 (take (Z.to_nat (lg_n s)) (lg_block s)))));;
  lb (bwrite buf);;
  lrelse buf.

Definition recover_from_log : L unit :=
  read_head;;
  install_trans;;
  modify (λ s, s <| lg_n := 0 |>);;
  write_head.

(** ** The super block (fs.h, fs.c) *)

Record superblock : Type := mkSb {
  sb_size : Z; sb_nblocks : Z; sb_ninodes : Z; sb_nlog : Z; sb_logstart : Z; sb_inodestart : Z; sb_bmapstart : Z;
}.

(** The super block in the first bytes of a block. *)
Definition sb_of (d : list Z) : superblock :=
  let w i := get_le 4 d (4 * i) in mkSb (w 0%nat) (w 1%nat) (w 2%nat) (w 3%nat) (w 4%nat) (w 5%nat) (w 6%nat).

Definition readsb (dev : Z) : B superblock :=
  bp ← bread dev 1;
  b ← rdb bp;
  _ ← brelse bp;
  mret (sb_of (b_data b)).

(** sizeof(struct logheader) = 4 + 4 * LOGSIZE. *)
Definition initlog (dev : Z) : L unit :=
  panic_if (Z.of_nat BSIZE <=? 4 + 4 * LOGSIZE) "initlog: too big logheader";;
  sb ← lb (readsb dev);
  modify (λ s, s <| lg_start := s32 (sb_logstart sb) |> <| lg_size := s32 (sb_nlog sb) |> <| lg_dev := dev |>);;
  recover_from_log.

(** ** Operations *)

Definition begin_op : L unit :=
  s ← get;
  if lg_committing s then block (WaitChan ChLog)
  else if LOGSIZE <? lg_n s + (lg_outstanding s + 1) * MAXOPBLOCKS then block (WaitChan ChLog)
  else modify (λ s, s <| lg_outstanding ::= λ o, o + 1 |>).

Definition write_one (tail : Z) : L unit :=
  s ← get;
  to ← lb (bread (lg_dev s) (u32 (lg_start s + tail + 1)));
  b ← get_block tail;
  from ← lb (bread (lg_dev s) (u32 b));
  copy_block to from;;
  lb (bwrite to);;
  lrelse from;;
  lrelse to.

Fixpoint write_loop (tail : Z) (n : nat) : L unit :=
  match n with O => mret tt | S n => write_one tail;; write_loop (tail + 1) n end.

Definition write_log : L unit := n ← gets lg_n; write_loop 0 (Z.to_nat n).

Definition commit : L unit :=
  n ← gets lg_n;
  when (0 <? n) (
    write_log;;
    write_head;;
    install_trans;;
    modify (λ s, s <| lg_n := 0 |>);;
    write_head).

(** end_op(); returns the channels it wakes. *)
Definition end_op : L (list chan) :=
  modify (λ s, s <| lg_outstanding ::= λ o, o - 1 |>);;
  s ← get;
  panic_if (lg_committing s) "log.committing";;
  if lg_outstanding s =? 0 then
    modify (λ s, s <| lg_committing := true |>);;
    commit;;
    modify (λ s, s <| lg_committing := false |>);;
    mret [ChLog]
  else mret [ChLog].

(** The index of a logged block, or n ("log absorbtion"). *)
Fixpoint find_block (l : list Z) (b : Z) (i : nat) : nat :=
  match l with [] => i | x :: l => if u32 x =? b then i else find_block l b (S i) end.

Definition log_write (i : nat) : L unit :=
  s ← get;
  panic_if ((LOGSIZE <=? lg_n s) || (lg_size s - 1 <=? lg_n s)) "too big a transaction";;
  panic_if (lg_outstanding s <? 1) "log_write outside of trans";;
  b ← lb (rdb i);
  let j := Z.of_nat (find_block (take (Z.to_nat (lg_n s)) (lg_block s)) (b_blockno b) 0) in
  set_block j (s32 (b_blockno b));;
  when (j =? lg_n s) (modify (λ s, s <| lg_n ::= λ n, n + 1 |>));;
  lb (wrb i (set_flag B_DIRTY)).

(** ** One block copied *)

(** Every block of the store has its size. *)
Definition full (a : store) : Prop := ∀ k, length (a k) = BSIZE.

Lemma full_set a k d : full a → length d = BSIZE → full (store_set a k d).
Proof. intros Ha Hd k'. unfold store_set. by case_decide. Qed.

Lemma store_set_eq a k d : store_set a k d k = d.
Proof. unfold store_set. by rewrite decide_True. Qed.
Lemma store_set_ne a k d k' : k' ≠ k → store_set a k d k' = a k'.
Proof. intros. unfold store_set. by rewrite decide_False. Qed.

Lemma splice_whole (d x : list Z) : length d = BSIZE → length x = BSIZE → splice d 0 (take BSIZE x) = x.
Proof.
  intros Hd Hx. unfold splice. rewrite (take_ge x) by lia. simpl. rewrite drop_ge by lia. apply app_nil_r.
Qed.

(** Only the buffer cache changes. *)
Definition same_log (s s' : log) : Prop := s' = s <| lg_bio := lg_bio s' |>.

Lemma wp_lb {A} (m : B A) (Q : A → log → Prop) s :
  wp m (λ a t, Q a (s <| lg_bio := t |>)) (lg_bio s) → wp (lb m) Q s.
Proof. intros H. unfold lb. by apply wp_lift. Qed.

Lemma wp_lrelse i (Q : unit → log → Prop) s :
  wp (brelse i) (λ _ t, Q tt (s <| lg_bio := t |>)) (lg_bio s) → wp (lrelse i) Q s.
Proof. intros H. apply wp_bind, wp_lb. eapply wp_mono; [exact H|]. done. Qed.

Lemma wp_data a held P i k (Q : list Z → log → Prop) s :
  view (lg_bio s) a held P → (i, k) ∈ held → Q (a k) s → wp (data i) Q s.
Proof.
  intros V Hin HQ. destruct (view_buf _ _ _ _ V i k Hin) as (_ & _ & b & Hb & _ & _ & _ & Hd).
  apply wp_bind, wp_lb. eapply wp_rdb; [done|]. apply wp_ret. rewrite Hd. by destruct s.
Qed.

Lemma wp_copy a held P i j k k' (Q : unit → log → Prop) s :
  view (lg_bio s) a held P → (i, k) ∈ held → (j, k') ∈ held → full a →
  (∀ t, view t (store_set a k (a k')) held P → bio_disk t = bio_disk (lg_bio s) → frame (lg_bio s) t →
     Q tt (s <| lg_bio := t |>)) →
  wp (copy_block i j) Q s.
Proof.
  intros V Hi Hj Hf HQ. apply wp_bind. eapply wp_data; [exact V|exact Hj|]. apply wp_bind.
  eapply wp_data; [exact V|exact Hi|]. apply wp_lb. eapply wp_mono; [by eapply view_put|].
  intros [] t (V' & Hd & Hfr). rewrite splice_whole in V' by apply Hf. by apply HQ.
Qed.

Lemma wp_get_block (i : nat) b (Q : Z → log → Prop) s :
  lg_block s !! i = Some b → Q b s → wp (get_block (Z.of_nat i)) Q s.
Proof. intros Hb HQ. unfold wp, get_block. rewrite Nat2Z.id, Hb. by rewrite (proj2 (Z.ltb_ge _ _)) by lia. Qed.

Lemma block_ok_frame s s' k : frame s s' → block_ok s k → block_ok s' k.
Proof. unfold frame, block_ok. intros ->. done. Qed.

Lemma u32_block k : 0 ≤ k < FSSIZE → u32 k = k.
Proof. intros. apply u32_small. unfold FSSIZE in *. lia. Qed.

Section one.
Context (d st : Z) (t : nat) (b : Z) (s : log) (a : store) (P : list key).
Context (V : view (lg_bio s) a [] P) (Hfull : full a) (Hdev : lg_dev s = d) (Hst : lg_start s = st)
  (Hb : lg_block s !! t = Some b) (Hb0 : 0 ≤ b) (Hst0 : 0 ≤ st)
  (Hlog : block_ok (lg_bio s) (d, st + Z.of_nat t + 1)) (Hhome : block_ok (lg_bio s) (d, b))
  (Hne : b ≠ st + Z.of_nat t + 1) (HlP : (d, st + Z.of_nat t + 1) ∉ P).
Let kl : key := (d, st + Z.of_nat t + 1).
Let kh : key := (d, b).

Lemma key_ne : kh ≠ kl.
Proof. unfold kl, kh. congruence. Qed.

Lemma write_one_spec :
  (length P < NBUF)%nat → kh ∈ P →
  wp (write_one (Z.of_nat t)) (λ _ s', view (lg_bio s') (store_set a kl (a kh)) [] P ∧
    bio_disk (lg_bio s') = (kl, a kh) :: bio_disk (lg_bio s) ∧ same_log s s' ∧ frame (lg_bio s) (lg_bio s')) s.
Proof.
  intros HP HkP. pose proof key_ne as Hk. unfold write_one. apply wp_bind, wp_get. cbv beta.
  rewrite Hdev, Hst. rewrite u32_block by (destruct Hlog as (_ & Hl & _); simpl in Hl; lia).
  apply wp_bind, wp_lb. eapply wp_mono; [eapply (view_bread _ _ [] P); [exact V|done|set_solver|right; simpl; lia]|].
  intros i1 s1 (V1 & _ & D1 & F1). apply wp_bind. eapply wp_get_block; [done|].
  rewrite u32_block by (destruct Hhome as (_ & Hl & _); simpl in Hl; lia).
  apply wp_bind, wp_lb. eapply wp_mono; [eapply (view_bread _ _ [(i1, kl)] P); [exact V1|by eapply block_ok_frame| |by left]|].
  { apply not_elem_of_cons. split; [done|set_solver]. }
  intros i2 s2 (V2 & _ & D2 & F2). apply wp_bind.
  eapply (wp_copy a [(i2, kh); (i1, kl)] P i1 i2 kl kh); [exact V2|set_solver|set_solver|done|]. intros s3 V3 D3 F3.
  assert (F13 : frame (lg_bio s) s3) by (unfold frame in *; simpl in *; congruence).
  apply wp_bind, wp_lb. eapply wp_mono; [eapply (view_bwrite _ _ _ _ i1 kl); [exact V3|set_solver|by eapply block_ok_frame]|].
  intros [] s4 (V4 & D4 & F4). rewrite without_not_in in V4 by done. rewrite store_set_eq in D4.
  apply wp_bind, wp_lrelse. eapply wp_mono; [eapply (view_brelse _ _ [] [(i1, kl)] P i2 kh); [exact V4|by left]|].
  intros w5 s5 (_ & V5 & D5 & F5). simpl in *.
  apply wp_lrelse. eapply wp_mono; [eapply (view_brelse _ _ [] [] P i1 kl); [exact V5|right]|].
  { unfold on_disk. simpl. rewrite D5, D4, disk_at_eq. by rewrite store_set_eq. }
  intros w6 s6 (_ & V6 & D6 & F6). split_and!; [done| |by destruct s|unfold frame in *; simpl in *; congruence].
  simpl in *. rewrite D6, D5, D4. f_equal. congruence.
Qed.

Lemma install_one_spec :
  (length P < NBUF)%nat → kh ∈ P ∨ (length P + 1 < NBUF)%nat →
  wp (install_one (Z.of_nat t)) (λ _ s', view (lg_bio s') (store_set a kh (a kl)) [] (without kh P) ∧
    bio_disk (lg_bio s') = (kh, a kl) :: bio_disk (lg_bio s) ∧ same_log s s' ∧ frame (lg_bio s) (lg_bio s')) s.
Proof.
  intros HP HkP. pose proof key_ne as Hk. unfold install_one. apply wp_bind, wp_get. cbv beta.
  pose proof (view_disk _ _ _ _ V kl (proj1 Hlog) ltac:(set_solver) HlP) as Hdisk.
  rewrite Hdev, Hst. rewrite u32_block by (destruct Hlog as (_ & Hl & _); simpl in Hl; lia).
  apply wp_bind, wp_lb. eapply wp_mono; [eapply (view_bread _ _ [] P); [exact V|done|set_solver|right; simpl; lia]|].
  intros i1 s1 (V1 & _ & D1 & F1). apply wp_bind. eapply wp_get_block; [done|].
  rewrite u32_block by (destruct Hhome as (_ & Hl & _); simpl in Hl; lia).
  apply wp_bind, wp_lb. eapply wp_mono; [eapply (view_bread _ _ [(i1, kl)] P); [exact V1|by eapply block_ok_frame| |done]|].
  { apply not_elem_of_cons. split; [done|set_solver]. }
  intros i2 s2 (V2 & _ & D2 & F2). apply wp_bind.
  eapply (wp_copy a [(i2, kh); (i1, kl)] P i2 i1 kh kl); [exact V2|set_solver|set_solver|done|]. intros s3 V3 D3 F3.
  assert (F13 : frame (lg_bio s) s3) by (unfold frame in *; simpl in *; congruence).
  apply wp_bind, wp_lb. eapply wp_mono; [eapply (view_bwrite _ _ _ _ i2 kh); [exact V3|set_solver|by eapply block_ok_frame]|].
  intros [] s4 (V4 & D4 & F4). rewrite store_set_eq in D4. simpl in *.
  apply wp_bind, wp_lrelse. eapply wp_mono; [eapply (view_brelse _ _ [(i2, kh)] [] _ i1 kl); [exact V4|right]|].
  { unfold on_disk in *. simpl. rewrite D4, disk_at_ne, store_set_ne by done. rewrite D3, D2, D1. exact Hdisk. }
  intros w5 s5 (_ & V5 & D5 & F5). simpl in *.
  apply wp_lrelse. eapply wp_mono; [eapply (view_brelse _ _ [] [] _ i2 kh); [exact V5|right]|].
  { unfold on_disk. simpl. rewrite D5, D4, disk_at_eq. by rewrite store_set_eq. }
  intros w6 s6 (_ & V6 & D6 & F6). split_and!; [done| |by destruct s|unfold frame in *; simpl in *; congruence].
  simpl in *. rewrite D6, D5, D4. f_equal. congruence.
Qed.
End one.

(** ** Sequences of block writes *)

Abbreviation writes := (list (key * list Z)).
Definition apply_writes (ws : writes) (a : store) : store := foldl (λ a w, store_set a w.1 w.2) a ws.

Lemma apply_writes_app ws1 ws2 a : apply_writes (ws1 ++ ws2) a = apply_writes ws2 (apply_writes ws1 a).
Proof. apply foldl_app. Qed.

Lemma apply_writes_other ws a k : k ∉ ws.*1 → apply_writes ws a k = a k.
Proof.
  revert a. induction ws as [|[k' d] ws IH]; intros a Hk; [done|]. simpl in *. apply not_elem_of_cons in Hk as [Hk1 Hk2].
  change (apply_writes ws (store_set a k' d) k = a k). by rewrite IH, store_set_ne by done.
Qed.

Lemma apply_writes_in ws a k d : NoDup ws.*1 → (k, d) ∈ ws → apply_writes ws a k = d.
Proof.
  revert a. induction ws as [|[k' d'] ws IH]; intros a Hnd Hin; [set_solver|]. simpl in Hnd.
  apply NoDup_cons in Hnd as [Hk Hnd]. change (apply_writes ws (store_set a k' d') k = d).
  apply elem_of_cons in Hin as [[= -> ->]|Hin]; [|by apply IH].
  by rewrite apply_writes_other, store_set_eq.
Qed.

Lemma full_writes ws a : full a → (∀ w, w ∈ ws → length w.2 = BSIZE) → full (apply_writes ws a).
Proof.
  revert a. induction ws as [|[k d] ws IH]; intros a Ha Hw; [done|]. apply IH; [|set_solver].
  apply full_set; [done|]. by apply (Hw (k, d)); left.
Qed.

(** The disk after the writes [ws]. *)
Lemma disk_at_writes ws d k : disk_at (reverse ws ++ d) k = apply_writes ws (disk_at d) k.
Proof.
  induction ws as [|[k' x] ws IH] using rev_ind; [done|].
  rewrite reverse_snoc, apply_writes_app. simpl. unfold store_set. case_decide; [done|]. by apply IH.
Qed.

Lemma same_log_trans s1 s2 s3 : same_log s1 s2 → same_log s2 s3 → same_log s1 s3.
Proof. unfold same_log. intros H1 H2. rewrite H2, H1. by destruct s1. Qed.

(** The blocks of a transaction and the log area, header included. *)
Record layout (d st : Z) (n : nat) (bl : list Z) : Prop := {
  ly_dev : d = 0 ∨ d = 1;
  ly_start : 0 ≤ st;
  ly_end : st + Z.of_nat n < FSSIZE;
  ly_home : ∀ b, b ∈ bl → 0 ≤ b < FSSIZE ∧ (b < st ∨ st + Z.of_nat n < b);
}.

Definition drive (d : Z) (s : bio) : Prop := d = 0 ∨ bio_havedisk1 s = true.

Section area.
Context (d st : Z).

Definition lkey (t : nat) : key := (d, st + Z.of_nat t + 1).
Definition hkey (b : Z) : key := (d, b).

(** What write_log() and install_trans() write. *)
Fixpoint log_writes (a : store) (t : nat) (bl : list Z) : writes :=
  match bl with [] => [] | b :: bl => (lkey t, a (hkey b)) :: log_writes a (S t) bl end.
Fixpoint home_writes (a : store) (t : nat) (bl : list Z) : writes :=
  match bl with [] => [] | b :: bl => (hkey b, a (lkey t)) :: home_writes a (S t) bl end.

Lemma log_writes_ext a a' t bl : (∀ b, b ∈ bl → a' (hkey b) = a (hkey b)) → log_writes a' t bl = log_writes a t bl.
Proof.
  revert t. induction bl as [|b bl IH]; intros t H; [done|]. simpl. rewrite H by set_solver. f_equal. apply IH. set_solver.
Qed.
Lemma home_writes_ext a a' t bl :
  (∀ j, (t ≤ j < t + length bl)%nat → a' (lkey j) = a (lkey j)) → home_writes a' t bl = home_writes a t bl.
Proof.
  revert t. induction bl as [|b bl IH]; intros t H; [done|]. simpl in *. rewrite H by lia. f_equal. apply IH.
  intros j Hj. apply H. lia.
Qed.

Lemma layout_block n bl s b : layout d st n bl → drive d s → b ∈ bl → block_ok s (hkey b).
Proof. intros Y Hd Hb. destruct (ly_home _ _ _ _ Y b Hb). split_and!; [apply Y|simpl; lia|done]. Qed.
Lemma layout_log n bl s t : layout d st n bl → drive d s → (t < n)%nat → block_ok s (lkey t).
Proof. intros Y Hd Ht. pose proof (ly_end _ _ _ _ Y). split_and!; [apply Y|simpl; lia|done]. Qed.
Lemma layout_ne n bl b t : layout d st n bl → b ∈ bl → (t < n)%nat → b ≠ st + Z.of_nat t + 1.
Proof. intros Y Hb Ht. destruct (ly_home _ _ _ _ Y b Hb). lia. Qed.
Lemma layout_cons n b bl : layout d st n (b :: bl) → layout d st n bl.
Proof. intros Y. split; try apply Y. intros x Hx. apply (ly_home _ _ _ _ Y). set_solver. Qed.

Lemma write_loop_spec n bl t s a P :
  layout d st n bl → (t + length bl ≤ n)%nat → view (lg_bio s) a [] P → full a →
  lg_dev s = d → lg_start s = st → (∀ i b, bl !! i = Some b → lg_block s !! (t + i)%nat = Some b) →
  drive d (lg_bio s) → (length P < NBUF)%nat → (∀ b, b ∈ bl → hkey b ∈ P) → (∀ j, (j < n)%nat → lkey j ∉ P) →
  wp (write_loop (Z.of_nat t) (length bl)) (λ _ s', view (lg_bio s') (apply_writes (log_writes a t bl) a) [] P ∧
    bio_disk (lg_bio s') = reverse (log_writes a t bl) ++ bio_disk (lg_bio s) ∧ same_log s s' ∧
    frame (lg_bio s) (lg_bio s')) s.
Proof.
  revert t s a. induction bl as [|b bl IH]; intros t s a Y Ht V Hf Hdev Hst Hbl Hdr HP Hin Hout.
  { split_and!; [done|done|by destruct s|done]. }
  simpl in Ht. cbn [length write_loop]. pose proof (ly_home _ _ _ _ Y b ltac:(set_solver)) as Hb.
  apply wp_bind. eapply wp_mono; [eapply (write_one_spec d st t b s a P); try done|].
  { specialize (Hbl 0%nat b eq_refl). by rewrite Nat.add_0_r in Hbl. }
  { lia. }
  { apply Y. }
  { eapply layout_log; [done|done|lia]. }
  { eapply layout_block; [done|done|set_solver]. }
  { eapply layout_ne; [done|set_solver|lia]. }
  { apply Hout. lia. }
  { apply Hin. set_solver. }
  intros [] s1 (V1 & D1 & S1 & F1). replace (Z.of_nat t + 1) with (Z.of_nat (S t)) by lia.
  change (view (lg_bio s1) (store_set a (lkey t) (a (hkey b))) [] P) in V1.
  assert (Hlw : log_writes (store_set a (lkey t) (a (hkey b))) (S t) bl = log_writes a (S t) bl).
  { apply log_writes_ext. intros x Hx. apply store_set_ne. unfold hkey, lkey.
    pose proof (layout_ne n (b :: bl) x t Y ltac:(set_solver) ltac:(lia)). congruence. }
  eapply wp_mono; [apply (IH (S t) s1); try done|].
  { by eapply layout_cons. }
  { lia. }
  { apply full_set; [done|apply Hf]. }
  { by rewrite S1. }
  { by rewrite S1. }
  { intros i x Hx. rewrite S1. simpl. specialize (Hbl (S i) x Hx). by rewrite <- Nat.add_succ_comm in Hbl. }
  { unfold drive. by rewrite F1. }
  { set_solver. }
  intros [] s2 (V2 & D2 & S2 & F2). rewrite Hlw in V2, D2. split_and!.
  - exact V2.
  - rewrite D2, D1. simpl. by rewrite reverse_cons, <- (assoc_L (++)).
  - by eapply same_log_trans.
  - unfold frame in *. congruence.
Qed.

Fixpoint unpin (bl : list Z) (P : list key) : list key :=
  match bl with [] => P | b :: bl => unpin bl (without (hkey b) P) end.

Lemma length_without (k : key) P : (length (without k P) ≤ length P)%nat.
Proof. unfold without. apply length_filter. Qed.

Lemma elem_of_unpin bl P k : k ∈ unpin bl P ↔ k ∈ P ∧ k ∉ hkey <$> bl.
Proof.
  revert P. induction bl as [|b bl IH]; intros P; simpl; [set_solver|]. rewrite IH, elem_of_without. set_solver.
Qed.

Lemma unpin_all bl P : (∀ k, k ∈ P → k ∈ hkey <$> bl) → unpin bl P = [].
Proof. intros H. apply elem_of_nil_inv. intros k. rewrite elem_of_unpin. intros [Hk Hn]. by apply Hn, H. Qed.

Lemma install_loop_spec n bl t s a P :
  layout d st n bl → NoDup bl → (t + length bl ≤ n)%nat → view (lg_bio s) a [] P → full a →
  lg_dev s = d → lg_start s = st → (∀ i b, bl !! i = Some b → lg_block s !! (t + i)%nat = Some b) →
  drive d (lg_bio s) → (length P < NBUF)%nat → (∀ b, b ∈ bl → hkey b ∈ P ∨ (length P + 1 < NBUF)%nat) →
  (∀ j, (j < n)%nat → lkey j ∉ P) →
  wp (install_loop (Z.of_nat t) (length bl)) (λ _ s',
    view (lg_bio s') (apply_writes (home_writes a t bl) a) [] (unpin bl P) ∧
    bio_disk (lg_bio s') = reverse (home_writes a t bl) ++ bio_disk (lg_bio s) ∧ same_log s s' ∧
    frame (lg_bio s) (lg_bio s')) s.
Proof.
  revert t s a P. induction bl as [|b bl IH]; intros t s a P Y Hnd Ht V Hf Hdev Hst Hbl Hdr HP Hin Hout.
  { split_and!; [done|done|by destruct s|done]. }
  simpl in Ht. cbn [length install_loop]. pose proof (ly_home _ _ _ _ Y b ltac:(set_solver)) as Hb.
  apply NoDup_cons in Hnd as [Hnb Hnd].
  apply wp_bind. eapply wp_mono; [eapply (install_one_spec d st t b s a P); try done|].
  { specialize (Hbl 0%nat b eq_refl). by rewrite Nat.add_0_r in Hbl. }
  { lia. }
  { apply Y. }
  { eapply layout_log; [done|done|lia]. }
  { eapply layout_block; [done|done|set_solver]. }
  { eapply layout_ne; [done|set_solver|lia]. }
  { apply Hout. lia. }
  { apply Hin. set_solver. }
  intros [] s1 (V1 & D1 & S1 & F1). replace (Z.of_nat t + 1) with (Z.of_nat (S t)) by lia.
  change (view (lg_bio s1) (store_set a (hkey b) (a (lkey t))) [] (without (hkey b) P)) in V1.
  assert (Hlw : home_writes (store_set a (hkey b) (a (lkey t))) (S t) bl = home_writes a (S t) bl).
  { apply home_writes_ext. intros j Hj. apply store_set_ne. unfold hkey, lkey.
    pose proof (layout_ne n (b :: bl) b j Y ltac:(set_solver) ltac:(lia)). congruence. }
  pose proof (length_without (hkey b) P) as HlP.
  eapply wp_mono; [apply (IH (S t) s1 (store_set a (hkey b) (a (lkey t))) (without (hkey b) P)); try done|].
  { by eapply layout_cons. }
  { lia. }
  { apply full_set; [done|apply Hf]. }
  { by rewrite S1. }
  { by rewrite S1. }
  { intros i x Hx. rewrite S1. simpl. specialize (Hbl (S i) x Hx). by rewrite <- Nat.add_succ_comm in Hbl. }
  { unfold drive. by rewrite F1. }
  { lia. }
  { intros x Hx. destruct (Hin x) as [HxP|Hl]; [set_solver| |right; lia]. left. apply elem_of_without.
    split; [|done]. intros [= ->]. done. }
  { intros j Hj. rewrite elem_of_without. intros [_ ?]. by eapply Hout. }
  intros [] s2 (V2 & D2 & S2 & F2). rewrite Hlw in V2, D2. split_and!.
  - exact V2.
  - rewrite D2, D1. simpl. by rewrite reverse_cons, <- (assoc_L (++)).
  - by eapply same_log_trans.
  - unfold frame in *. congruence.
Qed.

(** ** The header *)

Lemma length_put_blocks x i l : (block_off i + 4 * length l ≤ length x)%nat → length (put_blocks x i l) = length x.
Proof.
  revert x i. induction l as [|b l IH]; intros x i H; [done|]. simpl in *. unfold block_off in *.
  rewrite IH; rewrite length_put_le; unfold block_off; lia.
Qed.

Lemma get_put_blocks_before x i l o : (block_off i + 4 * length l ≤ length x)%nat → (o + 4 ≤ block_off i)%nat →
  get_le 4 (put_blocks x i l) o = get_le 4 x o.
Proof.
  revert x i. induction l as [|b l IH]; intros x i H Ho; [done|]. simpl in *. unfold block_off in *.
  rewrite IH by (try rewrite length_put_le; unfold block_off in *; lia). apply get_put_ne; unfold block_off; lia.
Qed.

Lemma get_put_blocks x i l j b : (block_off i + 4 * length l ≤ length x)%nat → l !! j = Some b → 0 ≤ b < 2 ^ 32 →
  get_le 4 (put_blocks x i l) (block_off (i + j)) = b.
Proof.
  revert x i j. induction l as [|c l IH]; intros x i j H Hj Hb; [done|]. simpl in H. destruct j as [|j].
  - injection Hj as ->. simpl. rewrite Nat.add_0_r. rewrite get_put_blocks_before.
    + apply get_put; [unfold block_off in *; lia|done].
    + rewrite length_put_le; unfold block_off in *; lia.
    + unfold block_off in *; lia.
  - simpl. rewrite <- Nat.add_succ_comm. apply IH; [|done|done]. rewrite length_put_le; unfold block_off in *; lia.
Qed.

(** What a header block says. *)
Definition head_of (x : list Z) (bl : list Z) : Prop :=
  get_le 4 x 0 = Z.of_nat (length bl) ∧ ∀ i b, bl !! i = Some b → get_le 4 x (block_off i) = b.

Lemma head_bytes_of x bl : length x = BSIZE → (length bl ≤ Z.to_nat LOGSIZE)%nat → (∀ b, b ∈ bl → 0 ≤ b < FSSIZE) →
  head_of (head_bytes x bl) bl ∧ length (head_bytes x bl) = BSIZE.
Proof.
  intros Hx Hl Hb. change (Z.to_nat LOGSIZE) with 30%nat in Hl. unfold head_bytes, BSIZE in *.
  assert (Hp : length (put_le 4 x 0 (Z.of_nat (length bl))) = 512%nat) by (rewrite length_put_le; lia).
  split; [split|].
  - rewrite get_put_blocks_before; [|rewrite Hp; unfold block_off; lia|unfold block_off; lia].
    apply get_put; lia.
  - intros i b Hi. apply (get_put_blocks _ 0 bl i b); [rewrite Hp; unfold block_off; lia|done|].
    apply list_elem_of_lookup_2, Hb in Hi. unfold FSSIZE in Hi. lia.
  - rewrite length_put_blocks; [done|]. rewrite Hp. unfold block_off. lia.
Qed.

(** The fields of the log that a transaction [bl] is in. *)
Definition log_at (s : log) (bl : list Z) : Prop :=
  lg_dev s = d ∧ lg_start s = st ∧ lg_n s = Z.of_nat (length bl) ∧
  length (lg_block s) = Z.to_nat LOGSIZE ∧ take (length bl) (lg_block s) = bl.

Definition hdr : key := (d, st).

Lemma log_at_len s bl : log_at s bl → (length bl ≤ Z.to_nat LOGSIZE)%nat.
Proof. intros (_ & _ & _ & Hl & Ht). rewrite <- Ht, length_take. lia. Qed.

Lemma log_at_lookup s bl i b : log_at s bl → bl !! i = Some b → lg_block s !! i = Some b.
Proof.
  intros (_ & _ & _ & _ & Ht) Hi. assert (Hlt := lookup_lt_Some _ _ _ Hi). rewrite <- Ht, lookup_take_lt in Hi by done. done.
Qed.

Lemma log_at_same s s' bl : same_log s s' → log_at s bl → log_at s' bl.
Proof. unfold same_log. intros ->. done. Qed.

Lemma layout_hdr n bl s : layout d st n bl → drive d s → block_ok s hdr.
Proof. intros Y Hd. pose proof (ly_end _ _ _ _ Y). split_and!; [apply Y|simpl; lia|done]. Qed.

Lemma write_head_spec n bl s a P :
  layout d st n [] → log_at s bl → view (lg_bio s) a [] P → drive d (lg_bio s) → (length P < NBUF)%nat → hdr ∉ P →
  wp write_head (λ _ s', view (lg_bio s') (store_set a hdr (head_bytes (a hdr) bl)) [] P ∧
    bio_disk (lg_bio s') = (hdr, head_bytes (a hdr) bl) :: bio_disk (lg_bio s) ∧ same_log s s' ∧
    frame (lg_bio s) (lg_bio s')) s.
Proof.
  intros Y HL V Hdr HP Hh. pose proof (log_at_len _ _ HL) as Hlen. destruct HL as (Hd & Hs & Hn & Hlb & Ht).
  unfold write_head. apply wp_bind, wp_get. cbv beta. rewrite Hd, Hs.
  pose proof (ly_start _ _ _ _ Y). pose proof (ly_end _ _ _ _ Y). rewrite u32_block by lia.
  pose proof (layout_hdr n [] (lg_bio s) Y Hdr) as Hok.
  apply wp_bind, wp_lb. eapply wp_mono; [eapply (view_bread _ _ [] P); [exact V|exact Hok|set_solver|right; simpl; lia]|].
  intros i s1 (V1 & _ & D1 & F1). apply wp_bind. eapply wp_data; [exact V1|by left|].
  rewrite Hlb, Hn, Nat2Z.id, Ht. rewrite (proj2 (Z.ltb_ge _ _)) by lia.
  apply wp_bind, wp_lb. eapply wp_mono; [eapply (view_put _ _ _ _ i hdr); [exact V1|by left]|].
  intros [] s2 (V2 & D2 & F2). assert (F12 : frame (lg_bio s) s2) by (unfold frame in *; simpl in *; congruence).
  apply wp_bind, wp_lb. eapply wp_mono; [eapply (view_bwrite _ _ _ _ i hdr); [exact V2|by left|by eapply block_ok_frame]|].
  intros [] s3 (V3 & D3 & F3). rewrite without_not_in in V3 by done. rewrite store_set_eq in D3.
  apply wp_lrelse. eapply wp_mono; [eapply (view_brelse _ _ [] [] P i hdr); [exact V3|right]|].
  { unfold on_disk. simpl. rewrite D3, disk_at_eq, store_set_eq. done. }
  intros w s4 (_ & V4 & D4 & F4). split_and!; [exact V4| |by destruct s|unfold frame in *; simpl in *; congruence].
  simpl in *. rewrite D4, D3, D2, D1. done.
Qed.

Lemma s32_nat (n : nat) : (n ≤ Z.to_nat LOGSIZE)%nat → s32 (Z.of_nat n) = Z.of_nat n.
Proof. change (Z.to_nat LOGSIZE) with 30%nat. intros. unfold s32. rewrite Z.mod_small; lia. Qed.

Lemma read_blocks_done buf i bl s :
  (i + length bl ≤ length (lg_block s))%nat →
  (∀ j b, bl !! j = Some b → s32 (get_le 4 buf (block_off (i + j))) = b) →
  read_blocks buf i (length bl) s = Done tt (s <| lg_block := splice (lg_block s) i bl |>).
Proof.
  revert i s. induction bl as [|b bl IH]; intros i s Hi Hb.
  { destruct s. unfold splice. simpl. by rewrite Nat.add_0_r, take_drop. }
  simpl in Hi. cbn [length read_blocks].
  assert (H0 : s32 (get_le 4 buf (block_off i)) = b) by (specialize (Hb 0%nat b eq_refl); by rewrite Nat.add_0_r in Hb).
  rewrite H0. set (s1 := s <| lg_block ::= <[i := b]> |>).
  assert (Hs1 : set_block (Z.of_nat i) b s = Done tt s1).
  { unfold set_block. rewrite (proj2 (Z.leb_le _ _)), (proj2 (Z.ltb_lt _ _)) by lia. simpl. by rewrite Nat2Z.id. }
  rewrite (bind_done _ _ _ _ _ Hs1).
  rewrite IH.
  - f_equal. destruct s as [bi st' sz o c dv nn lbk]. unfold s1, field_upd. simpl in *. f_equal.
    apply splice_intro; [simpl; lia|]. intros j. case_decide as Hj.
    + destruct (decide (j = i)) as [->|].
      * rewrite lookup_splice_out by (rewrite ?length_insert; lia). rewrite list_lookup_insert_eq by lia.
        by rewrite Nat.sub_diag.
      * simpl in Hj. rewrite lookup_splice_in by (rewrite ?length_insert; lia).
        replace (j - i)%nat with (S (j - S i)) by lia. done.
    + simpl in Hj. rewrite lookup_splice_out by (rewrite ?length_insert; lia). apply list_lookup_insert_ne. lia.
  - unfold s1. simpl. rewrite length_insert. lia.
  - intros j x Hj. rewrite Nat.add_succ_comm. by apply Hb.
Qed.

Lemma read_head_spec n bl s a :
  layout d st n bl → lg_dev s = d → lg_start s = st → length (lg_block s) = Z.to_nat LOGSIZE →
  view (lg_bio s) a [] [] → drive d (lg_bio s) → head_of (a hdr) bl → (length bl ≤ Z.to_nat LOGSIZE)%nat →
  wp read_head (λ _ s', log_at s' bl ∧ view (lg_bio s') a [] [] ∧ bio_disk (lg_bio s') = bio_disk (lg_bio s) ∧
    frame (lg_bio s) (lg_bio s')) s.
Proof.
  intros Y Hd Hs Hlb V Hdr [Hn Hbl] Hlen. unfold read_head. apply wp_bind, wp_get. cbv beta. rewrite Hd, Hs.
  pose proof (ly_start _ _ _ _ Y). pose proof (ly_end _ _ _ _ Y). rewrite u32_block by lia.
  apply wp_bind, wp_lb. eapply wp_mono; [eapply (view_bread _ _ [] []);
    [exact V|by eapply layout_hdr|set_solver|right; unfold NBUF; simpl; lia]|].
  intros i s1 (V1 & _ & D1 & F1). apply wp_bind. eapply wp_data; [exact V1|by left|].
  change (a (d, st)) with (a hdr). rewrite Hn, s32_nat, Nat2Z.id by done.
  apply wp_bind, wp_modify. set (s2 := s <| lg_bio := s1 |> <| lg_n := _ |>). unfold wp.
  erewrite bind_done; [|apply (read_blocks_done (a hdr) 0 bl s2); [unfold s2; simpl; lia|]].
  2:{ intros j b Hj. rewrite Nat.add_0_l, (Hbl j b Hj). apply list_elem_of_lookup_2, (ly_home _ _ _ _ Y) in Hj.
      unfold s32, FSSIZE in *. rewrite Z.mod_small; lia. }
  set (s3 := s2 <| lg_block := _ |>). fold (wp (lrelse i) (λ _ s', log_at s' bl ∧ view (lg_bio s') a [] [] ∧
    bio_disk (lg_bio s') = bio_disk (lg_bio s) ∧ frame (lg_bio s) (lg_bio s')) s3).
  apply wp_lrelse. eapply wp_mono; [eapply (view_brelse s1 a [] [] [] i hdr); [exact V1|right]|].
  { unfold on_disk. rewrite D1. apply (view_disk _ _ _ _ V); [apply Y|set_solver|set_solver]. }
  intros w s4 (_ & V4 & D4 & F4). split_and!; [|done|simpl; congruence|unfold frame in *; simpl in *; congruence].
  unfold log_at. simpl. split_and!; [done|done|done|by rewrite length_splice by (simpl; lia)|].
  unfold splice. simpl. by rewrite take_app_length.
Qed.

(** ** Recovery *)

Lemma hdr_lkey t : hdr ≠ lkey t.
Proof. unfold hdr, lkey. intros [=]. lia. Qed.

Lemma home_writes_keys a t bl : (home_writes a t bl).*1 = hkey <$> bl.
Proof. revert t. induction bl as [|b bl IH]; intros t; [done|]. simpl. by rewrite IH. Qed.

Lemma elem_of_log_writes a t bl k x : (k, x) ∈ log_writes a t bl ↔
  ∃ i b, bl !! i = Some b ∧ k = lkey (t + i) ∧ x = a (hkey b).
Proof.
  revert t. induction bl as [|b bl IH]; intros t; simpl; [set_solver|]. rewrite elem_of_cons, IH. split.
  - intros [[= -> ->]|(i & c & Hi & -> & ->)].
    + exists 0%nat, b. by rewrite Nat.add_0_r.
    + exists (S i), c. by rewrite Nat.add_succ_r.
  - intros ([|i] & c & Hi & -> & ->).
    + injection Hi as ->. left. by rewrite Nat.add_0_r.
    + right. exists i, c. by rewrite Nat.add_succ_r.
Qed.

Lemma elem_of_home_writes a t bl k x : (k, x) ∈ home_writes a t bl ↔
  ∃ i b, bl !! i = Some b ∧ k = hkey b ∧ x = a (lkey (t + i)).
Proof.
  revert t. induction bl as [|b bl IH]; intros t; simpl; [set_solver|]. rewrite elem_of_cons, IH. split.
  - intros [[= -> ->]|(i & c & Hi & -> & ->)].
    + exists 0%nat, b. by rewrite Nat.add_0_r.
    + exists (S i), c. by rewrite Nat.add_succ_r.
  - intros ([|i] & c & Hi & -> & ->).
    + injection Hi as ->. left. by rewrite Nat.add_0_r.
    + right. exists i, c. by rewrite Nat.add_succ_r.
Qed.

Lemma log_writes_nodup a t bl : NoDup (log_writes a t bl).*1.
Proof.
  revert t. induction bl as [|b bl IH]; intros t; simpl; [constructor|]. constructor; [|apply IH].
  intros ([k x] & Hk & (i & c & _ & Hk' & _)%elem_of_log_writes)%list_elem_of_fmap.
  simpl in Hk. unfold lkey in Hk, Hk'. rewrite Hk' in Hk. injection Hk. lia.
Qed.

Lemma home_writes_nodup a t bl : NoDup bl → NoDup (home_writes a t bl).*1.
Proof. intros H. rewrite home_writes_keys. apply NoDup_fmap_2; [|done]. by intros x y [= ->]. Qed.

Lemma log_at_end s bl : log_at s bl → log_at (s <| lg_n := 0 |>) [].
Proof. intros (Hd & Hs & _ & Hl & _). by split_and!. Qed.

Lemma layout_nil n bl : layout d st n bl → layout d st n [].
Proof. intros Y. split; try apply Y. set_solver. Qed.

(** The store that recovery leaves, and what it writes. *)
Definition recovery (a : store) (bl : list Z) : writes :=
  home_writes a 0 bl ++ [(hdr, head_bytes (apply_writes (home_writes a 0 bl) a hdr) [])].

Lemma recover_spec n bl s a :
  layout d st n bl → (length bl ≤ n)%nat → NoDup bl → (length bl ≤ Z.to_nat LOGSIZE)%nat →
  lg_dev s = d → lg_start s = st → length (lg_block s) = Z.to_nat LOGSIZE →
  view (lg_bio s) a [] [] → full a → drive d (lg_bio s) → head_of (a hdr) bl →
  wp recover_from_log (λ _ s', log_at s' [] ∧ view (lg_bio s') (apply_writes (recovery a bl) a) [] [] ∧
    bio_disk (lg_bio s') = reverse (recovery a bl) ++ bio_disk (lg_bio s) ∧ frame (lg_bio s) (lg_bio s')) s.
Proof.
  intros Y Hn Hnd Hlen Hd Hs Hlb V Hf Hdr Hh. unfold recover_from_log. apply wp_bind.
  eapply wp_mono; [by eapply read_head_spec|]. intros [] s1 (HL1 & V1 & D1 & F1).
  assert (Hdr1 : drive d (lg_bio s1)) by (unfold drive; by rewrite F1).
  pose proof HL1 as (Hd1 & Hs1 & Hn1 & _ & _). apply wp_bind. unfold install_trans. apply wp_bind, wp_gets.
  rewrite Hn1, Nat2Z.id. eapply wp_mono; [eapply (install_loop_spec n bl 0 s1 a []); try done|].
  { intros i b Hi. by eapply log_at_lookup. }
  { unfold NBUF. simpl. lia. }
  { intros. right. unfold NBUF. simpl. lia. }
  { set_solver. }
  intros [] s2 (V2 & D2 & S2 & F2). apply wp_bind, wp_modify.
  assert (HL2 : log_at (s2 <| lg_n := 0 |>) []) by (eapply log_at_end, log_at_same; done).
  rewrite unpin_all in V2 by set_solver. eapply wp_mono; [eapply (write_head_spec n []); [by eapply layout_nil|exact HL2|exact V2|..]|].
  { unfold drive. simpl. by rewrite F2. }
  { unfold NBUF. simpl. lia. }
  { set_solver. }
  intros [] s3 (V3 & D3 & S3 & F3). split_and!.
  - by eapply log_at_same.
  - unfold recovery. by rewrite apply_writes_app.
  - rewrite D3. simpl. rewrite D2, D1. unfold recovery. by rewrite reverse_app.
  - unfold frame in *. simpl in *. congruence.
Qed.

(** ** commit() *)

(** A transaction that is ready to commit: its blocks are pinned. *)
Record txn (s : log) (a : store) (n : nat) (bl : list Z) : Prop := {
  tx_layout : layout d st n bl;
  tx_n : (length bl ≤ n)%nat;
  tx_nbuf : (length bl < NBUF)%nat;
  tx_nodup : NoDup bl;
  tx_log : log_at s bl;
  tx_view : view (lg_bio s) a [] (hkey <$> bl);
  tx_full : full a;
  tx_drive : drive d (lg_bio s);
}.

(** The blocks of a commit in the order in which they reach the disk. *)
Definition head_write (a : store) (bl : list Z) : writes := [(hdr, head_bytes (a hdr) bl)].
Definition install_writes (a : store) (bl : list Z) : writes := (λ b, (hkey b, a (hkey b))) <$> bl.
Definition clear_write (a : store) (bl : list Z) : writes := [(hdr, head_bytes (head_bytes (a hdr) bl) [])].
Definition commit_writes (a : store) (bl : list Z) : writes :=
  log_writes a 0 bl ++ head_write a bl ++ install_writes a bl ++ clear_write a bl.

Lemma hkey_not_log n a bl b : layout d st n bl → (length bl ≤ n)%nat → b ∈ bl → hkey b ∉ (log_writes a 0 bl).*1.
Proof.
  intros Y Hn Hb ([k x] & Hk & (i & c & Hi & Hk' & _)%elem_of_log_writes)%list_elem_of_fmap. simpl in Hk. subst k.
  apply lookup_lt_Some in Hi. unfold hkey, lkey in Hk'. injection Hk' as Hk'.
  pose proof (layout_ne n bl b i Y Hb ltac:(lia)). lia.
Qed.

Lemma hdr_not_log a bl : hdr ∉ (log_writes a 0 bl).*1.
Proof. intros ([k x] & Hk & (i & c & Hi & Hk' & _)%elem_of_log_writes)%list_elem_of_fmap. simpl in Hk. subst k. by eapply hdr_lkey. Qed.

Lemma hdr_not_home n bl : layout d st n bl → hdr ∉ hkey <$> bl.
Proof.
  intros Y (b & Hb & Hin)%list_elem_of_fmap. apply (ly_home _ _ _ _ Y) in Hin. unfold hdr, hkey in Hb. injection Hb. lia.
Qed.

Lemma lkey_not_home n bl t : layout d st n bl → (t < n)%nat → lkey t ∉ hkey <$> bl.
Proof.
  intros Y Ht (b & Hb & Hin)%list_elem_of_fmap. unfold lkey, hkey in Hb. injection Hb as Hb.
  pose proof (layout_ne n bl b t Y Hin Ht). lia.
Qed.

Lemma log_copy n a bl i b x : layout d st n bl → (length bl ≤ n)%nat → bl !! i = Some b →
  store_set (apply_writes (log_writes a 0 bl) a) hdr x (lkey i) = a (hkey b).
Proof.
  intros Y Hn Hi. rewrite store_set_ne by (intros He; by eapply hdr_lkey). apply apply_writes_in; [apply log_writes_nodup|].
  apply elem_of_log_writes. by exists i, b.
Qed.

Lemma home_writes_install a a' bl t : (∀ i b, bl !! i = Some b → a' (lkey (t + i)) = a (hkey b)) →
  home_writes a' t bl = install_writes a bl.
Proof.
  revert t. induction bl as [|b bl IH]; intros t H; [done|]. simpl. rewrite (IH (S t)).
  - f_equal. specialize (H 0%nat b eq_refl). rewrite Nat.add_0_r in H. by rewrite H.
  - intros i c Hi. specialize (H (S i) c Hi). by rewrite <- Nat.add_succ_comm in H.
Qed.

Lemma log_writes_full a t bl w : full a → w ∈ log_writes a t bl → length w.2 = BSIZE.
Proof. destruct w as [k x]. intros Hf (i & b & _ & _ & ->)%elem_of_log_writes. apply Hf. Qed.

Lemma commit_spec s a n bl :
  txn s a n bl → bl ≠ [] →
  wp commit (λ _ s', log_at s' [] ∧ view (lg_bio s') (apply_writes (commit_writes a bl) a) [] [] ∧
    bio_disk (lg_bio s') = reverse (commit_writes a bl) ++ bio_disk (lg_bio s) ∧
    lg_outstanding s' = lg_outstanding s ∧ lg_committing s' = lg_committing s ∧ lg_size s' = lg_size s ∧
    frame (lg_bio s) (lg_bio s')) s.
Proof.
  intros [Y Hn Hnb Hnd HL V Hf Hdr] Hne. pose proof HL as (_ & _ & Hln & _). unfold commit. apply wp_bind, wp_gets.
  rewrite Hln. apply wp_when; [intros _|intros Hz; destruct bl; [done|discriminate]].
  set (P := hkey <$> bl) in *. assert (HlP : (length P < NBUF)%nat) by (unfold P; by rewrite length_fmap).
  pose proof (log_at_len _ _ HL) as Hlen.
  (* write_log *)
  apply wp_bind. unfold write_log. apply wp_bind, wp_gets. rewrite Hln, Nat2Z.id. pose proof HL as (Hd1 & Hs1 & _).
  eapply wp_mono; [eapply (write_loop_spec n bl 0 s a P); try done|].
  { intros i b Hi. by eapply log_at_lookup. }
  { intros b Hb. by apply list_elem_of_fmap_2. }
  { intros j Hj. by eapply lkey_not_home. }
  intros [] s1 (V1 & D1 & S1 & F1). set (a1 := apply_writes (log_writes a 0 bl) a) in *.
  assert (HL1 : log_at s1 bl) by (by eapply log_at_same).
  assert (Ha1 : a1 hdr = a hdr) by (apply apply_writes_other, hdr_not_log).
  (* write_head *)
  apply wp_bind. eapply wp_mono; [eapply (write_head_spec n bl s1 a1 P); try done|].
  { by eapply layout_nil. }
  { unfold drive. by rewrite F1. }
  { by eapply hdr_not_home. }
  intros [] s2 (V2 & D2 & S2 & F2). rewrite Ha1 in V2, D2. set (a2 := store_set a1 hdr _) in *.
  assert (HL2 : log_at s2 bl) by (by eapply log_at_same). pose proof HL2 as (Hd2 & Hs2 & Hln2 & _).
  (* install_trans *)
  assert (Hhb : length (head_bytes (a hdr) bl) = BSIZE).
  { apply head_bytes_of; [apply Hf|done|]. intros b Hb. apply (ly_home _ _ _ _ Y b Hb). }
  apply wp_bind. unfold install_trans. apply wp_bind, wp_gets. rewrite Hln2, Nat2Z.id.
  eapply wp_mono; [eapply (install_loop_spec n bl 0 s2 a2 P); try done|].
  { apply full_set; [|done]. apply full_writes; [done|]. intros w. by apply log_writes_full. }
  { intros i b Hi. by eapply log_at_lookup. }
  { unfold drive. by rewrite F2, F1. }
  { intros b Hb. left. by apply list_elem_of_fmap_2. }
  { intros j Hj. by eapply lkey_not_home. }
  intros [] s3 (V3 & D3 & S3 & F3). rewrite (unpin_all bl P) in V3 by done.
  assert (Hiw : home_writes a2 0 bl = install_writes a bl).
  { apply home_writes_install. intros i b Hi. by eapply log_copy. }
  rewrite Hiw in V3, D3. set (a3 := apply_writes (install_writes a bl) a2) in *.
  assert (Ha3 : a3 hdr = head_bytes (a hdr) bl).
  { unfold a3. rewrite apply_writes_other; [apply store_set_eq|]. rewrite <- Hiw, home_writes_keys. by eapply hdr_not_home. }
  (* the header is cleared *)
  apply wp_bind, wp_modify. assert (HL3 : log_at (s3 <| lg_n := 0 |>) []) by (eapply log_at_end, log_at_same; done).
  eapply wp_mono; [eapply (write_head_spec n [] _ a3 []); try done|].
  { by eapply layout_nil. }
  { unfold drive. simpl. by rewrite F3, F2, F1. }
  { unfold NBUF. simpl. lia. }
  { set_solver. }
  intros [] s4 (V4 & D4 & S4 & F4). rewrite Ha3 in V4, D4. split_and!.
  - by eapply log_at_same.
  - unfold commit_writes. by rewrite !apply_writes_app.
  - rewrite D4. simpl. rewrite D3, D2, D1. unfold commit_writes. rewrite !reverse_app, <- !(assoc_L (++)). done.
  - rewrite S4. simpl. by rewrite S3, S2, S1.
  - rewrite S4. simpl. by rewrite S3, S2, S1.
  - rewrite S4. simpl. by rewrite S3, S2, S1.
  - unfold frame in *. simpl in *. congruence.
Qed.
End area.

(** ** log_write() *)

Lemma find_block_spec l b i :
  (∀ x, x ∈ l → u32 x = x) →
  (b ∈ l ∧ ∃ j, find_block l b i = (i + j)%nat ∧ l !! j = Some b) ∨ ((b ∉ l) ∧ find_block l b i = (i + length l)%nat).
Proof.
  revert i. induction l as [|x l IH]; intros i Hx; simpl; [right; split; [set_solver|lia]|].
  rewrite Hx by set_solver. destruct (Z.eqb_spec x b) as [->|Hne].
  - left. split; [set_solver|]. exists 0%nat. split; [lia|done].
  - destruct (IH (S i) ltac:(set_solver)) as [(Hin & j & Hj & Hl)|[Hin Hl]].
    + left. split; [set_solver|]. exists (S j). split; [lia|done].
    + right. split; [set_solver|lia].
Qed.

(** The blocks of the transaction after a log_write() of block [b]. *)
Definition logged (bl : list Z) (b : Z) : list Z := if decide (b ∈ bl) then bl else bl ++ [b].

Lemma elem_of_logged bl b x : x ∈ logged bl b ↔ x ∈ bl ∨ x = b.
Proof. unfold logged. case_decide; set_solver. Qed.

Lemma NoDup_logged bl b : NoDup bl → NoDup (logged bl b).
Proof. intros H. unfold logged. case_decide; [done|]. rewrite NoDup_app. split_and!; [done|set_solver|apply NoDup_singleton]. Qed.

Lemma set_block_done s j b : (j < length (lg_block s))%nat →
  set_block (Z.of_nat j) b s = Done tt (s <| lg_block ::= <[j := b]> |>).
Proof.
  intros Hj. unfold set_block. rewrite (proj2 (Z.leb_le _ _)), (proj2 (Z.ltb_lt _ _)) by lia. simpl. by rewrite Nat2Z.id.
Qed.

Lemma take_logged (lb : list Z) bl b j :
  take (length bl) lb = bl → (length bl < length lb)%nat →
  (b ∈ bl ∧ bl !! j = Some b) ∨ ((b ∉ bl) ∧ j = length bl) →
  take (length (logged bl b)) (<[j := b]> lb) = logged bl b ∧
  length (logged bl b) = if decide (j = length bl) then S (length bl) else length bl.
Proof.
  intros Ht Hl Hor. unfold logged. destruct Hor as [[Hin Hj]|[Hn ->]].
  - assert (Hlt := lookup_lt_Some _ _ _ Hj). rewrite decide_True, decide_False by (done || lia). split; [|done].
    assert (lb !! j = Some b) as Hlj by (rewrite <- Ht, lookup_take_lt in Hj by done; done).
    by rewrite list_insert_id.
  - rewrite decide_False, decide_True by done. rewrite length_app. simpl. split; [|lia].
    apply list_eq. intros i. rewrite lookup_take. case_decide as Hi.
    + destruct (decide (i = length bl)) as [->|].
      * rewrite list_lookup_insert_eq by lia. by rewrite list_lookup_middle.
      * rewrite list_lookup_insert_ne by lia. rewrite lookup_app_l by lia. rewrite <- Ht.
        by rewrite lookup_take_lt by lia.
    + symmetry. apply lookup_ge_None. rewrite length_app. simpl. lia.
Qed.

Lemma log_write_spec d st s a held bl i b :
  view (lg_bio s) a held (hkey d <$> bl) → log_at d st s bl → (i, hkey d b) ∈ held → 0 ≤ b < FSSIZE →
  (∀ x, x ∈ bl → 0 ≤ x < FSSIZE) → Z.of_nat (length bl) < LOGSIZE → Z.of_nat (length bl) < lg_size s - 1 →
  1 ≤ lg_outstanding s →
  wp (log_write i) (λ _ s', view (lg_bio s') a held (hkey d <$> logged bl b) ∧ log_at d st s' (logged bl b) ∧
    bio_disk (lg_bio s') = bio_disk (lg_bio s) ∧ lg_size s' = lg_size s ∧ lg_outstanding s' = lg_outstanding s ∧
    lg_committing s' = lg_committing s ∧ frame (lg_bio s) (lg_bio s')) s.
Proof.
  intros V (Hd & Hs & Hn & Hlb & Ht) Hin Hb Hbl Hlen Hsz Ho. unfold log_write. apply wp_bind, wp_get.
  rewrite Hn. apply wp_bind, wp_panic_if; [zlia|]. apply wp_bind, wp_panic_if; [zlia|].
  destruct (view_buf _ _ _ _ V i _ Hin) as (_ & _ & c & Hc & Hk & _). apply wp_bind, wp_lb. eapply wp_rdb; [done|].
  unfold bkey, hkey in Hk. injection Hk as _ ->. rewrite Nat2Z.id, Ht.
  assert (Hu : ∀ x, x ∈ bl → u32 x = x) by (intros x Hx; apply u32_block; auto).
  set (j := find_block bl b 0).
  assert (Hj : (b ∈ bl ∧ bl !! j = Some b) ∨ ((b ∉ bl) ∧ j = length bl)).
  { destruct (find_block_spec bl b 0 Hu) as [(H1 & j' & H2 & H3)|[H1 H2]]; unfold j; rewrite H2; simpl; auto. }
  assert (Hs32 : s32 b = b) by (unfold s32, FSSIZE in *; rewrite Z.mod_small; lia). rewrite Hs32.
  assert (Hjl : (j ≤ length bl)%nat) by (destruct Hj as [[_ Hj]|[_ ->]]; [apply lookup_lt_Some in Hj; lia|done]).
  unfold LOGSIZE, MAXOPBLOCKS in *. assert (Hll : (length bl < length (lg_block s))%nat) by lia.
  destruct (take_logged (lg_block s) bl b j Ht Hll Hj) as [Htl Hln].
  apply wp_bind. unfold wp at 1. rewrite set_block_done by (simpl; lia).
  assert (Hpin : ∀ t, view t a held (hkey d <$> bl) → wp (wrb i (set_flag B_DIRTY)) (λ _ t',
    view t' a held (hkey d <$> logged bl b) ∧ bio_disk t' = bio_disk t ∧ frame t t') t).
  { intros t Vt. eapply (view_pin _ _ _ _ _ i (hkey d b)); [exact Vt|done| |].
    - apply list_elem_of_fmap_2, elem_of_logged. by right.
    - intros k Hk. clear -Hk. rewrite !list_elem_of_fmap. setoid_rewrite elem_of_logged. naive_solver. }
  assert (Hlen' : length (<[j := b]> (lg_block s)) = Z.to_nat (10 * 3)) by (by rewrite length_insert).
  apply wp_bind. apply wp_when.
  - intros Hjn%Z.eqb_eq. apply wp_modify, wp_lb. eapply wp_mono; [apply Hpin, V|].
    intros [] t (V' & D' & F'). split_and!; try done. rewrite decide_True in Hln by lia.
    unfold log_at. simpl. split_and!; try done. rewrite Hn, Hln. lia.
  - intros Hjn%Z.eqb_neq. apply wp_lb. eapply wp_mono; [apply Hpin, V|].
    intros [] t (V' & D' & F'). split_and!; try done. rewrite decide_False in Hln by lia.
    unfold log_at. simpl. split_and!; try done. by rewrite Hn, Hln.
Qed.
