(* ===== verification/LogCrash.v ===== *)
(** * Crash safety of the log

    A crash leaves some of the block writes of a commit on the disk, in
    order, and the kernel then boots from it: binit(), initlog(). Boots may
    crash as well. The blocks outside the log area end as they were before
    the commit, or as the transaction left them, all together. *)

From S2P Require Import Prelude Bytes Bio BioView Log.

Create HintDb keeps.

(** The memory of a machine that boots from the disk [D]. *)
Definition booting (D : disk) (h : bool) : log :=
  mkLog (mkBio (replicate (S NBUF) (mkBuf 0 0 0 0 0 zero_block)) [] D h) 0 0 0 false 0 0 (replicate (Z.to_nat LOGSIZE) 0).

Definition boot (dev : Z) : L unit := lb binit;; initlog dev.

(** ** What the log code leaves alone *)

(** [m] changes the state only as the preorder [R] allows. *)
Definition preserves (R : log → log → Prop) {A} (m : L A) : Prop := ∀ s x s', m s = Done x s' → R s s'.

Section preserves.
Context (R : log → log → Prop) `{!PreOrder R} (Hbio : ∀ s t, R s (s <| lg_bio := t |>)).

Lemma keeps_ret {A} (x : A) : preserves R (mret x).
Proof. intros s y s' [= _ <-]. reflexivity. Qed.
Lemma keeps_get : preserves R get.
Proof. intros s y s' [= _ <-]. reflexivity. Qed.
Lemma keeps_gets {A} (f : log → A) : preserves R (gets f).
Proof. intros s y s' [= _ <-]. reflexivity. Qed.
Lemma keeps_fault {A} : preserves R (fault : L A).
Proof. by intros s y s'. Qed.
Lemma keeps_lb {A} (m : B A) : preserves R (lb m).
Proof. intros s y s'. unfold lb, lift. destruct (m (lg_bio s)); intros [= _ <-]. apply Hbio. Qed.
Lemma keeps_get_block i : preserves R (get_block i).
Proof. intros s y s'. unfold get_block. destruct (_ !! _); [|done]. destruct (i <? 0); intros [= _ <-]. reflexivity. Qed.
Lemma keeps_bind {A B} (m : L A) (f : A → L B) : preserves R m → (∀ x, preserves R (f x)) → preserves R (m ≫= f).
Proof.
  intros Hm Hf s y s'. unfold mbind, M_bind. destruct (m s) as [x s1| | | |] eqn:Hms; try done.
  intros Hfs. transitivity s1; [by eapply Hm|by eapply Hf].
Qed.
Lemma keeps_if {A} (c : bool) (m1 m2 : L A) : preserves R m1 → preserves R m2 → preserves R (if c then m1 else m2).
Proof. by destruct c. Qed.

#[local] Hint Resolve keeps_ret keeps_get keeps_gets keeps_fault keeps_lb keeps_get_block keeps_bind keeps_if : keeps.

Lemma keeps_copy i j : preserves R (copy_block i j).
Proof. unfold copy_block, data. eauto 10 with keeps. Qed.
Lemma keeps_lrelse i : preserves R (lrelse i).
Proof. unfold lrelse. eauto with keeps. Qed.
#[local] Hint Resolve keeps_copy keeps_lrelse : keeps.

Lemma keeps_write_log : preserves R write_log.
Proof.
  assert (Hl : ∀ n t, preserves R (write_loop t n)).
  { induction n as [|n IH]; intros t; cbn [write_loop]; [auto with keeps|]. unfold write_one. eauto 20 with keeps. }
  unfold write_log. eauto with keeps.
Qed.
Lemma keeps_install_trans : preserves R install_trans.
Proof.
  assert (Hl : ∀ n t, preserves R (install_loop t n)).
  { induction n as [|n IH]; intros t; cbn [install_loop]; [auto with keeps|]. unfold install_one. eauto 20 with keeps. }
  unfold install_trans. eauto with keeps.
Qed.
Lemma keeps_write_head : preserves R write_head.
Proof. unfold write_head, data. eauto 20 with keeps. Qed.

(** The header and the blocks it names may change. *)
Lemma keeps_recover : (∀ s n, R s (s <| lg_n := n |>)) → (∀ s l, R s (s <| lg_block := l |>)) → preserves R recover_from_log.
Proof.
  intros Hn Hblk. assert (Hset : ∀ i b, preserves R (set_block i b)).
  { intros i b s y s'. unfold set_block. destruct (_ && _); intros [= _ <-]. apply (Hblk s). }
  assert (Hmod : ∀ n, preserves R (modify (λ s, s <| lg_n := n |>))) by (intros n s y s' [= _ <-]; apply Hn).
  assert (Hl : ∀ l n i, preserves R (read_blocks l i n)).
  { induction n as [|n IH]; intros i; cbn [read_blocks]; auto with keeps. }
  unfold recover_from_log, read_head, data.
  eauto 20 using keeps_install_trans, keeps_write_head with keeps.
Qed.
End preserves.

(** What initlog() sets. *)
Definition settings (s : log) : Z * Z * bool := (lg_size s, lg_outstanding s, lg_committing s).
Definition same_settings (s s' : log) : Prop := settings s' = settings s.
#[local] Instance same_settings_preorder : PreOrder same_settings.
Proof. split; [done|]. intros s1 s2 s3 H1 H2. unfold same_settings in *. congruence. Qed.

Lemma recover_settings : preserves same_settings recover_from_log.
Proof. apply (keeps_recover same_settings); by intros []. Qed.

Lemma wp_preserves {A} (R : log → log → Prop) (m : L A) (Q : A → log → Prop) s : preserves R m → wp m Q s → wp m (λ r s', Q r s' ∧ R s s') s.
Proof. intros Hk. unfold wp. destruct (m s) as [r s'| | | |] eqn:E; try done. intros HQ. split; [done|]. by eapply Hk. Qed.

(** A prefix of an appended list. *)
Lemma prefix_app_cases {A} (ws l1 l2 : list A) :
  ws `prefix_of` l1 ++ l2 → ws `prefix_of` l1 ∨ ∃ ws', ws = l1 ++ ws' ∧ ws' ≠ [] ∧ ws' `prefix_of` l2.
Proof.
  revert ws. induction l1 as [|x l1 IH]; intros ws Hp; simpl in *.
  - destruct ws as [|y ws]; [by left|right]. by exists (y :: ws).
  - destruct ws as [|y ws]; [left; apply prefix_nil|]. pose proof (prefix_cons_inv_1 _ _ _ _ Hp) as ->.
    apply prefix_cons_inv_2, IH in Hp as [Hp|(ws' & -> & Hne & Hp)]; [left; by apply prefix_cons|right]. by exists ws'.
Qed.

Lemma prefix_singleton {A} (ws : list A) x : ws ≠ [] → ws `prefix_of` [x] → ws = [x].
Proof.
  intros Hne Hp. destruct ws as [|y [|z ws]]; [done| |].
  - by rewrite (prefix_cons_inv_1 _ _ _ _ Hp).
  - apply prefix_length in Hp. simpl in Hp. lia.
Qed.

Section crash.
Context (d st : Z) (n : nat).

(** A block outside the log area. *)
Definition outside (k : key) : Prop := realdev k ∧ (fst k = d → snd k < st ∨ st + Z.of_nat n < snd k).

(** The disk [D] stands for the contents [T]: the header names the blocks
    [bl], whose contents are in the log, and others are in place. *)
Record means (D : disk) (bl : list Z) (T : store) : Prop := {
  ms_layout : layout d st n bl;
  ms_nodup : NoDup bl;
  ms_n : (length bl ≤ n)%nat;
  ms_size : (length bl ≤ Z.to_nat LOGSIZE)%nat;
  ms_head : head_of (disk_at D (hdr d st)) bl;
  ms_log : ∀ i b, bl !! i = Some b → disk_at D (lkey d st i) = T (hkey d b);
  ms_home : ∀ k, outside k → k ∉ hkey d <$> bl → disk_at D k = T k;
  ms_full : full (disk_at D);
  ms_start : s32 (sb_logstart (sb_of (disk_at D (d, 1)))) = st;
  ms_sb : 1 < st ∧ 1 ∉ bl;
}.

Lemma means_outside_home D bl T b : means D bl T → b ∈ bl → outside (hkey d b).
Proof. intros H Hb. split; [apply (ms_layout _ _ _ H)|]. intros _. apply (ly_home _ _ _ _ (ms_layout _ _ _ H) b Hb). Qed.

(** ** Booting *)

Lemma booting_unused D h : unused_bufs (lg_bio (booting D h)).
Proof. split_and!; [done|done|]. intros i b [-> _]%lookup_replicate. done. Qed.

Lemma view_ext s a a' held P : (∀ k, realdev k → a' k = a k) → view s a held P → view s a' held P.
Proof.
  intros He V. split; try apply V. destruct (vw_holds _ _ _ _ V) as [Hc Hb]. split; [done|].
  intros k Hk. rewrite He by done. by apply Hb.
Qed.

Lemma readsb_spec s a :
  view s a [] [] → realdev (d, 1) → drive d s →
  wp (readsb d) (λ sb s', sb = sb_of (a (d, 1)) ∧ view s' a [] [] ∧ bio_disk s' = bio_disk s ∧ frame s s') s.
Proof.
  intros V Hr Hdr. unfold readsb. apply wp_bind.
  eapply wp_mono; [eapply (view_bread _ _ [] []); [exact V|by split_and!|set_solver|right; unfold NBUF; simpl; lia]|].
  intros i s1 (V1 & _ & D1 & F1). destruct (view_buf _ _ _ _ V1 i (d, 1)) as (_ & _ & b & Hb & _ & _ & _ & Hd); [by left|].
  apply wp_bind. eapply wp_rdb; [done|]. apply wp_bind.
  eapply wp_mono; [eapply (view_brelse _ _ [] [] [] i (d, 1)); [exact V1|right]|].
  { unfold on_disk. rewrite D1. apply (view_disk _ _ _ _ V); [done|set_solver|set_solver]. }
  intros w s2 (_ & V2 & D2 & F2). apply wp_ret. rewrite Hd. split_and!; [done|done|congruence|unfold frame in *; congruence].
Qed.

Lemma boot_spec D h bl T :
  means D bl T → d = 0 ∨ h = true →
  wp (boot d) (λ _ s', bio_disk (lg_bio s') = reverse (recovery d st (disk_at D) bl) ++ D ∧ log_at d st s' [] ∧
    view (lg_bio s') (disk_at (bio_disk (lg_bio s'))) [] [] ∧ frame (lg_bio (booting D h)) (lg_bio s') ∧
    settings s' = (s32 (sb_nlog (sb_of (disk_at D (d, 1)))), 0, false)) (booting D h).
Proof.
  intros H Hdr. pose proof (ms_layout _ _ _ H) as Y. unfold boot. apply wp_bind, wp_lb.
  eapply wp_mono; [apply view_binit, booting_unused|]. intros [] b1 (V1 & D1 & F1).
  apply (view_ext _ _ (disk_at D)) in V1.
  2:{ intros [k1 k2] [Hk|Hk]; simpl in *; by subst. }
  unfold initlog. apply wp_bind, wp_panic_if; [done|]. apply wp_bind, wp_lb.
  eapply wp_mono; [eapply readsb_spec; [exact V1|apply Y|unfold drive; simpl; by rewrite F1]|].
  intros sb b2 (-> & V2 & D2 & F2). apply wp_bind, wp_modify. rewrite (ms_start _ _ _ H).
  eapply wp_mono; [eapply (wp_preserves same_settings); [apply recover_settings|eapply (recover_spec d st n bl); try done]|].
  - apply H.
  - apply H.
  - apply H.
  - apply H.
  - unfold drive. simpl in *. by rewrite F2, F1.
  - apply H.
  - intros [] s3 ((HL & V3 & D3 & F3) & Hset). simpl in D1, D2, D3. rewrite D2, D1 in D3. split_and!; [done|done| | |exact Hset].
    + eapply view_ext; [|exact V3]. intros k _. rewrite D3. apply disk_at_writes.
    + unfold frame in *. simpl in *. congruence.
Qed.

(** ** What disks mean *)

Lemma hdr_not_outside : ¬ outside (hdr d st).
Proof. intros [_ H]. destruct (H eq_refl); simpl in *; lia. Qed.
Lemma lkey_not_outside t : (t < n)%nat → ¬ outside (lkey d st t).
Proof. intros Ht [_ H]. destruct (H eq_refl); simpl in *; lia. Qed.

Lemma means_sb D bl T : means D bl T → outside (d, 1) ∧ (d, 1) ∉ hkey d <$> bl.
Proof.
  intros H. destruct (ms_sb _ _ _ H) as [H1 H2]. split.
  - split; [apply (ms_layout _ _ _ H)|]. simpl. lia.
  - intros (b & Hb & Hin)%list_elem_of_fmap. unfold hkey in Hb. by injection Hb as <-.
Qed.

(** Writes to blocks that the header names keep the meaning. *)
Lemma means_install D bl T ws :
  means D bl T → (∀ w, w ∈ ws → length w.2 = BSIZE) → (∀ k, k ∈ ws.*1 → k ∈ hkey d <$> bl) →
  means (reverse ws ++ D) bl T.
Proof.
  intros H Hws Hk. assert (Hat : ∀ k, k ∉ hkey d <$> bl → disk_at (reverse ws ++ D) k = disk_at D k).
  { intros k Hn. rewrite disk_at_writes. apply apply_writes_other. set_solver. }
  pose proof (ms_layout _ _ _ H) as Y. destruct (means_sb _ _ _ H) as [_ Hsb].
  split; try apply H.
  - rewrite Hat by (by eapply hdr_not_home). apply H.
  - intros i b Hi. assert (Hlt := lookup_lt_Some _ _ _ Hi). pose proof (ms_n _ _ _ H).
    rewrite Hat by (eapply lkey_not_home; [exact Y|lia]). by apply (ms_log _ _ _ H).
  - intros k Ho Hn. rewrite Hat by done. by apply (ms_home _ _ _ H).
  - intros k. rewrite disk_at_writes. apply full_writes; [apply H|done].
  - rewrite Hat by done. apply H.
Qed.

Lemma means_cleared D bl T ws x :
  means D bl T → (∀ k, outside k → disk_at (reverse ws ++ D) k = T k) → full (disk_at (reverse ws ++ D)) →
  head_of x [] → length x = BSIZE →
  means (reverse (ws ++ [(hdr d st, x)]) ++ D) [] T.
Proof.
  intros H Ho Hf Hx Hlx. assert (Hat : ∀ k, k ≠ hdr d st → disk_at (reverse (ws ++ [(hdr d st, x)]) ++ D) k = disk_at (reverse ws ++ D) k).
  { intros k Hk. rewrite !disk_at_writes, apply_writes_app. simpl. by apply store_set_ne. }
  assert (Hout : ∀ k, outside k → k ≠ hdr d st) by (intros k Hk ->; by apply hdr_not_outside).
  destruct (means_sb _ _ _ H) as [Hsb1 Hsb2].
  split; simpl; try lia.
  - eapply layout_nil, H.
  - constructor.
  - rewrite disk_at_writes, apply_writes_app. simpl. by rewrite store_set_eq.
  - done.
  - intros k Hk _. rewrite Hat by auto. by apply Ho.
  - intros k. rewrite disk_at_writes, apply_writes_app. simpl. unfold store_set. case_decide; [done|].
    rewrite <- disk_at_writes. apply Hf.
  - rewrite Hat by auto. rewrite Ho by done. rewrite <- (ms_home _ _ _ H) by done. apply H.
  - split; [apply H|set_solver].
Qed.

Lemma recovered_home D bl T k : means D bl T → outside k →
  disk_at (reverse (home_writes d st (disk_at D) 0 bl) ++ D) k = T k.
Proof.
  intros H Ho. rewrite disk_at_writes. destruct (decide (k ∈ hkey d <$> bl)) as [Hin|Hn].
  - apply list_elem_of_fmap in Hin as (b & -> & Hb). apply list_elem_of_lookup in Hb as [i Hi].
    apply apply_writes_in; [apply home_writes_nodup, H|]. apply elem_of_home_writes. exists i, b.
    split_and!; [done|done|]. symmetry. by apply (ms_log _ _ _ H).
  - rewrite apply_writes_other by (by rewrite home_writes_keys). by apply (ms_home _ _ _ H).
Qed.

Lemma home_writes_full a t bl w : full a → w ∈ home_writes d st a t bl → length w.2 = BSIZE.
Proof. destruct w as [k x]. intros Hf (i & b & _ & _ & ->)%elem_of_home_writes. apply Hf. Qed.

(** A boot that crashes half way leaves a disk of the same meaning, and one
    that completes puts every block in place. *)
Lemma means_recovery D bl T ws :
  means D bl T → ws `prefix_of` recovery d st (disk_at D) bl → ∃ bl', means (reverse ws ++ D) bl' T.
Proof.
  intros H Hp. unfold recovery in Hp. set (hw := home_writes d st (disk_at D) 0 bl) in *.
  assert (Hhw : ∀ w, w ∈ hw → length w.2 = BSIZE) by (intros w; apply home_writes_full, H).
  apply prefix_app_cases in Hp as [[l Hl]|(ws' & -> & Hne & Hp)].
  - exists bl. apply means_install; [done|intros w Hw; apply Hhw; rewrite Hl; set_solver|].
    intros k Hk. rewrite <- (home_writes_keys d st (disk_at D) 0 bl). change (k ∈ hw.*1). rewrite Hl, fmap_app. set_solver.
  - apply prefix_singleton in Hp as ->; [|done]. exists [].
    assert (Hf : full (apply_writes hw (disk_at D))) by (apply full_writes; [apply H|done]).
    destruct (head_bytes_of (apply_writes hw (disk_at D) (hdr d st)) []) as [Hh Hl]; [apply Hf|simpl; lia|set_solver|].
    eapply means_cleared; [done|intros k; by apply recovered_home| |done|done].
    intros k. rewrite disk_at_writes. apply Hf.
Qed.

(** ** What the disk means while commit() runs *)

Section commit.
Context (s : log) (a : store) (bl : list Z) (TX : txn d st s a n bl).
Let D := bio_disk (lg_bio s).
Context (Hempty : head_of (disk_at D (hdr d st)) []) (Hfull : full (disk_at D))
  (Hstart : s32 (sb_logstart (sb_of (disk_at D (d, 1)))) = st) (Hsb : 1 < st) (Hsb' : 1 ∉ bl).

Lemma before_means : means D [] (disk_at D).
Proof.
  split; try done; simpl; try lia.
  - eapply layout_nil, TX.
  - constructor.
  - split; [done|set_solver].
Qed.

(** While the log is written the old contents are in place. *)
Lemma logging_means ws : ws `prefix_of` log_writes d st a 0 bl → means (reverse ws ++ D) [] (disk_at D).
Proof.
  intros [l Hl]. assert (Hk : ∀ k, k ∈ ws.*1 → k ∈ (log_writes d st a 0 bl).*1).
  { intros k Hk. rewrite Hl, fmap_app. set_solver. }
  assert (Hno : ∀ k, outside k ∨ k = hdr d st → k ∉ ws.*1).
  { intros k Hor Hin%Hk. destruct Hor as [Ho| ->]; [|by eapply hdr_not_log].
    apply list_elem_of_fmap in Hin as ([k' x] & -> & (i & b & Hi & -> & _)%elem_of_log_writes).
    apply lookup_lt_Some in Hi. pose proof (tx_n _ _ _ _ _ _ TX). apply (lkey_not_outside i); [lia|done]. }
  pose proof before_means as H. destruct (means_sb _ _ _ H) as [Hs1 _].
  split; try apply H.
  - rewrite disk_at_writes, apply_writes_other by (apply Hno; by right). done.
  - done.
  - intros k Ho _. rewrite disk_at_writes, apply_writes_other by (apply Hno; by left). done.
  - intros k. rewrite disk_at_writes. apply full_writes; [done|]. intros w Hw. eapply log_writes_full; [apply TX|].
    rewrite Hl. set_solver.
  - rewrite disk_at_writes, apply_writes_other by (apply Hno; by left). done.
Qed.

(** Once the header is written the new contents are in the log. *)
Lemma committed_means : means (reverse (log_writes d st a 0 bl ++ head_write d st a bl) ++ D) bl a.
Proof.
  pose proof (tx_layout _ _ _ _ _ _ TX) as Y. pose proof (log_at_len _ _ _ _ (tx_log _ _ _ _ _ _ TX)) as Hlen.
  pose proof (tx_n _ _ _ _ _ _ TX) as Hn. destruct (means_sb _ _ _ before_means) as [Hs1 _].
  set (lw := log_writes d st a 0 bl).
  assert (Hat : ∀ k, disk_at (reverse (lw ++ head_write d st a bl) ++ D) k =
    if decide (k = hdr d st) then head_bytes (a (hdr d st)) bl else apply_writes lw (disk_at D) k).
  { intros k. by rewrite disk_at_writes, apply_writes_app. }
  assert (Hne : ∀ k, outside k → k ≠ hdr d st) by (intros k Hk ->; by apply hdr_not_outside).
  assert (Hlw : ∀ k, outside k → k ∉ lw.*1).
  { intros k Ho ([k' x] & -> & (i & b & Hi & -> & _)%elem_of_log_writes)%list_elem_of_fmap.
    apply lookup_lt_Some in Hi. apply (lkey_not_outside i); [lia|done]. }
  assert (Hold : ∀ k, outside k → k ∉ hkey d <$> bl → disk_at D k = a k).
  { intros k [Hr _] Hk. apply (view_disk _ _ _ _ (tx_view _ _ _ _ _ _ TX)); [done|set_solver|done]. }
  destruct (head_bytes_of (a (hdr d st)) bl) as [Hh1 Hh2]; [apply TX|done|intros b Hb; apply (ly_home _ _ _ _ Y b Hb)|].
  split; try done; try apply TX.
  - by rewrite Hat, decide_True.
  - intros i b Hi. rewrite Hat, decide_False by (intros He; by eapply hdr_lkey).
    apply apply_writes_in; [apply log_writes_nodup|]. apply elem_of_log_writes. by exists i, b.
  - intros k Ho Hk. rewrite Hat, decide_False, apply_writes_other by auto. by apply Hold.
  - intros k. rewrite Hat. case_decide; [done|]. apply full_writes; [done|]. intros w. apply log_writes_full, TX.
  - rewrite Hat, decide_False, apply_writes_other by auto. done.
Qed.

Lemma install_keys : (install_writes d a bl).*1 = hkey d <$> bl.
Proof. unfold install_writes. rewrite <- list_fmap_compose. done. Qed.

Lemma length_log_writes t l : length (log_writes d st a t l) = length l.
Proof. revert t. induction l as [|b l IH]; intros t; simpl; [done|]. by rewrite IH. Qed.

Lemma installed_means Dc : means Dc bl a →
  means (reverse (install_writes d a bl ++ clear_write d st a bl) ++ Dc) [] a.
Proof.
  intros H. pose proof (tx_layout _ _ _ _ _ _ TX) as Y. pose proof (log_at_len _ _ _ _ (tx_log _ _ _ _ _ _ TX)) as Hlen.
  assert (Hiw : ∀ w, w ∈ install_writes d a bl → length w.2 = BSIZE).
  { intros w (b & -> & _)%list_elem_of_fmap. apply TX. }
  destruct (head_bytes_of (a (hdr d st)) bl) as [_ Hl1]; [apply TX|done|intros b Hb; apply (ly_home _ _ _ _ Y b Hb)|].
  destruct (head_bytes_of (head_bytes (a (hdr d st)) bl) []) as [Hh2 Hl2]; [done|simpl; lia|set_solver|].
  eapply means_cleared; [done| | |done|done].
  - intros k Ho. rewrite disk_at_writes. destruct (decide (k ∈ hkey d <$> bl)) as [Hin|Hn].
    + apply apply_writes_in.
      * rewrite install_keys. apply NoDup_fmap_2; [by intros x y [= ->]|apply TX].
      * apply list_elem_of_fmap in Hin as (b & -> & Hb). apply list_elem_of_fmap. by exists b.
    + rewrite apply_writes_other by (by rewrite install_keys). by apply (ms_home _ _ _ H).
  - intros k. rewrite disk_at_writes. apply full_writes; [apply H|done].
Qed.

Lemma commit_means ws : ws `prefix_of` commit_writes d st a bl →
  ∃ bl', means (reverse ws ++ D) bl' (if decide (length ws ≤ length bl)%nat then disk_at D else a).
Proof.
  unfold commit_writes. set (lw := log_writes d st a 0 bl).
  assert (Hlw : length lw = length bl) by apply length_log_writes.
  intros [Hp|(w1 & -> & Hne1 & Hp)]%prefix_app_cases.
  { rewrite decide_True by (apply prefix_length in Hp; lia). exists []. by apply logging_means. }
  rewrite decide_False by (rewrite length_app; destruct w1; [done|simpl; lia]).
  apply prefix_app_cases in Hp as [Hp|(w2 & -> & Hne2 & Hp)].
  { apply prefix_singleton in Hp as ->; [|done]. exists bl. apply committed_means. }
  assert (Hre : ∀ w, reverse (lw ++ head_write d st a bl ++ w) ++ D = reverse w ++ (reverse (lw ++ head_write d st a bl) ++ D)).
  { intros w. by rewrite !reverse_app, <- !(assoc_L (++)). }
  rewrite Hre. pose proof committed_means as Hc. apply prefix_app_cases in Hp as [[l Hl]|(w3 & -> & Hne3 & Hp)].
  - exists bl. apply means_install; [done|..].
    + intros w Hw. assert (Hin : w ∈ install_writes d a bl) by (rewrite Hl; set_solver).
      apply list_elem_of_fmap in Hin as (b & -> & _). apply TX.
    + intros k Hk. rewrite <- install_keys, Hl, fmap_app. set_solver.
  - apply prefix_singleton in Hp as ->; [|done]. exists []. by apply installed_means.
Qed.
End commit.
End crash.

(** ** Crash safety *)

(** A boot from [D] that crashes and leaves the disk [D']. *)
Definition crashed_boot (dev : Z) (h : bool) (D D' : disk) : Prop :=
  ∃ s', boot dev (booting D h) = Done tt s' ∧ D `suffix_of` D' ∧ D' `suffix_of` bio_disk (lg_bio s').

(** The disk between two moments of a run. *)
Lemma suffix_between (D Dc : disk) ws :
  D `suffix_of` Dc → Dc `suffix_of` reverse ws ++ D → ∃ ws', Dc = reverse ws' ++ D ∧ ws' `prefix_of` ws.
Proof.
  intros [x ->] [y Hy]. exists (reverse x). rewrite reverse_involutive. split; [done|].
  rewrite (assoc_L (++)) in Hy. apply app_inv_tail in Hy. exists (reverse y).
  rewrite <- reverse_app, <- Hy. by rewrite reverse_involutive.
Qed.

Lemma crashed_boot_means d st n h D D' bl T :
  means d st n D bl T → d = 0 ∨ h = true → crashed_boot d h D D' → ∃ bl', means d st n D' bl' T.
Proof.
  intros H Hdr (s' & Hrun & H1 & H2). destruct (wp_inv _ _ _ _ _ (boot_spec d st n D h bl T H Hdr) Hrun) as (Hd & _).
  rewrite Hd in H2. destruct (suffix_between _ _ _ H1 H2) as (ws & -> & Hp). by eapply means_recovery.
Qed.

(** C4: commit() is atomic. The machine crashes at any moment of commit(), so
    that the disk is [Dc]; it then boots any number of times, each boot
    crashing at any moment. When a boot completes, every block outside the
    log holds what it held before the commit, if the crash came before the
    header was written, or else what the transaction put in it. *)
Theorem commit_crash_safe d st n s a bl s' Dc De :
  let D := bio_disk (lg_bio s) in
  let h := bio_havedisk1 (lg_bio s) in
  txn d st s a n bl → bl ≠ [] → head_of (disk_at D (hdr d st)) [] → full (disk_at D) →
  s32 (sb_logstart (sb_of (disk_at D (d, 1)))) = st → 1 < st → 1 ∉ bl →
  commit s = Done tt s' → D `suffix_of` Dc → Dc `suffix_of` bio_disk (lg_bio s') →
  rtc (crashed_boot d h) Dc De →
  wp (boot d) (λ _ s'', ∀ k, outside d st n k → disk_at (bio_disk (lg_bio s'')) k =
    if decide (length Dc ≤ length D + length bl)%nat then disk_at D k else a k) (booting De h).
Proof.
  intros D h TX Hne He Hf Hst Hsb Hsb' Hrun H1 H2 Hr. pose proof (tx_drive _ _ _ _ _ _ TX) as Hdr.
  destruct (wp_inv _ _ _ _ _ (commit_spec d st s a n bl TX Hne) Hrun) as (_ & _ & Hd & _). rewrite Hd in H2.
  destruct (suffix_between _ _ _ H1 H2) as (ws & -> & Hp).
  set (T := if decide (length ws ≤ length bl)%nat then disk_at D else a).
  assert (HT : ∃ bl', means d st n (reverse ws ++ D) bl' T) by (by eapply commit_means).
  assert (HT' : ∃ bl', means d st n De bl' T).
  { eapply (rtc_invariant (crashed_boot d h) (λ D, ∃ bl', means d st n D bl' T)); [exact HT| |exact Hr].
    intros D1 D2 [bl1 HD1] Hc. by eapply crashed_boot_means. }
  destruct HT' as [bl' HD]. eapply wp_mono; [by eapply boot_spec|]. intros [] s'' (Hds & _ & _ & _) k Ho.
  rewrite Hds. unfold recovery. rewrite disk_at_writes, apply_writes_app. simpl.
  rewrite store_set_ne by (intros ->; by eapply hdr_not_outside).
  rewrite <- disk_at_writes, (recovered_home d st n De bl' T k HD Ho). unfold T.
  rewrite length_app, length_reverse. repeat case_decide; done || lia.
Qed.

(** ** An example: a transaction of one block *)

Definition demo_sb : list Z := put_le 4 (put_le 4 zero_block 12 30) 16 2.
Definition demo_disk : disk := [((1, 1), demo_sb)].
Definition after {A} (m : L A) (s : log) : log := match m s with Done _ s' => s' | _ => s end.
Definition demo_log1 : log := after (boot 1) (booting demo_disk true).
Definition demo_txn : L unit :=
  begin_op;;
  i ← lb (bread 1 50);
  lb (put_data i (replicate BSIZE 5));;
  log_write i;;
  lrelse i.
Definition demo_log2 : log := after demo_txn demo_log1.
Definition demo_log3 : log := after commit demo_log2.
(** The log and the header are written, the block is not in place. *)
Definition demo_crash : disk := drop 2 (bio_disk (lg_bio demo_log3)).
Definition demo_after : store := store_set (disk_at (bio_disk (lg_bio demo_log1))) (1, 50) (replicate BSIZE 5).

Lemma zero_full : length zero_block = BSIZE.
Proof. apply length_replicate. Qed.

Lemma head_of_nil x : get_le 4 x 0 = 0 → head_of x [].
Proof. intros H. split; [exact H|]. intros i b Hi. rewrite lookup_nil in Hi. discriminate Hi. Qed.

Lemma demo_means : means 1 2 29 demo_disk [] (disk_at demo_disk).
Proof.
  split.
  - split; [by right|lia|unfold FSSIZE; lia|set_solver].
  - constructor.
  - simpl; lia.
  - simpl; lia.
  - apply head_of_nil. vm_compute; reflexivity.
  - done.
  - done.
  - intros k. simpl. case_decide; [vm_compute; reflexivity|apply zero_full].
  - vm_compute; reflexivity.
  - split; [lia|set_solver].
Qed.

Lemma demo_booted : log_at 1 2 demo_log1 [] ∧
  view (lg_bio demo_log1) (disk_at (bio_disk (lg_bio demo_log1))) [] [].
Proof.
  assert (Hb := boot_spec 1 2 29 demo_disk true [] _ demo_means (or_intror eq_refl)).
  assert (Hr : boot 1 (booting demo_disk true) = Done tt demo_log1) by (vm_compute; reflexivity).
  destruct (wp_inv _ _ _ _ _ Hb Hr) as (_ & HL & V & _). exact (conj HL V).
Qed.

Lemma demo_log1_full : full (disk_at (bio_disk (lg_bio demo_log1))).
Proof.
  intros k. assert (Hd : bio_disk (lg_bio demo_log1) = [((1, 2), zero_block); ((1, 1), demo_sb)]) by (vm_compute; reflexivity).
  rewrite Hd. simpl. repeat case_decide; [apply zero_full|vm_compute; reflexivity|apply zero_full].
Qed.

Lemma demo_txn_spec s a :
  log_at 1 2 s [] → view (lg_bio s) a [] [] → full a → lg_committing s = false → lg_outstanding s = 0 → lg_size s = 30 →
  bio_havedisk1 (lg_bio s) = true →
  wp demo_txn (λ _ s', txn 1 2 s' (store_set a (1, 50) (replicate BSIZE 5)) 29 [50]) s.
Proof.
  intros HL V Hf Hc Ho Hsz Hh. pose proof HL as (_ & _ & Hn & _). unfold demo_txn. apply wp_bind.
  unfold begin_op. apply wp_bind, wp_get. rewrite Hc, Ho, Hn. apply wp_modify.
  apply wp_bind, wp_lb. eapply wp_mono; [eapply (view_bread _ _ [] []); [exact V| |set_solver|right; unfold NBUF; simpl; lia]|].
  { split_and!; [by right|unfold FSSIZE; simpl; lia|by right]. }
  intros i s1 (V1 & _ & D1 & F1). apply wp_bind, wp_lb.
  eapply wp_mono; [eapply (view_put _ _ _ _ i (1, 50)); [exact V1|by left]|]. intros [] s2 (V2 & D2 & F2).
  apply wp_bind. eapply wp_mono; [eapply (log_write_spec 1 2 _ _ _ [] i 50); simpl; try done|].
  - by left.
  - set_solver.
  - rewrite Hsz. lia.
  - rewrite Ho. lia.
  - intros [] s3 (V3 & HL3 & D3 & _ & _ & _ & F3). apply wp_lrelse.
    eapply wp_mono; [eapply (view_brelse _ _ [] [] _ i (1, 50)); [exact V3|left; by left]|].
    intros w s4 (_ & V4 & D4 & F4). split; try done.
    + split; [by right|lia|unfold FSSIZE; lia|]. intros b Hb%list_elem_of_singleton. subst. unfold FSSIZE. lia.
    + simpl. lia.
    + unfold NBUF. simpl. lia.
    + apply NoDup_singleton.
    + apply full_set; [done|apply length_replicate].
    + right. unfold frame in *. simpl in *. by rewrite F4, F3, F2, F1.
Qed.

Lemma demo_log2_txn : txn 1 2 demo_log2 demo_after 29 [50].
Proof.
  destruct demo_booted as [HL V].
  assert (Hw := demo_txn_spec demo_log1 _ HL V demo_log1_full
    ltac:(vm_compute; reflexivity) ltac:(vm_compute; reflexivity) ltac:(vm_compute; reflexivity) ltac:(vm_compute; reflexivity)).
  assert (Hr : demo_txn demo_log1 = Done tt demo_log2) by (vm_compute; reflexivity).
  exact (wp_inv _ _ _ _ _ Hw Hr).
Qed.

Lemma commit_crash_safe_witness :
  wp (boot 1) (λ _ s, disk_at (bio_disk (lg_bio s)) (1, 50) = replicate BSIZE 5) (booting demo_crash true).
Proof.
  assert (Hd : bio_disk (lg_bio demo_log2) = bio_disk (lg_bio demo_log1)) by (vm_compute; reflexivity).
  eapply wp_mono; [eapply (commit_crash_safe 1 2 29 demo_log2 demo_after [50] demo_log3 demo_crash demo_crash demo_log2_txn)|].
  - discriminate.
  - apply head_of_nil. vm_compute; reflexivity.
  - rewrite Hd. apply demo_log1_full.
  - vm_compute; reflexivity.
  - lia.
  - intros Hx%list_elem_of_singleton. lia.
  - vm_compute; reflexivity.
  - exists (take 2 demo_crash). vm_compute; reflexivity.
  - exists (take 2 (bio_disk (lg_bio demo_log3))). vm_compute; reflexivity.
  - apply rtc_refl.
  - intros [] s Hs. rewrite Hs; [vm_compute; reflexivity|]. split; [by right|]. intros _. simpl. lia.
Defined.
