(* ===== verification/LogSpace.v ===== *)
(** * The space begin_op() reserves in the log

    Each file system call may log MAXOPBLOCKS blocks. begin_op() admits a call
    only when that many fit for every call in progress, so a call that stays
    within its share should never meet the panic of log_write(). *)

From S2P Require Import Prelude Bytes Bio BioView Log LogCrash.

(** ** commit() changes the counters only by emptying the log *)

#[local] Instance same_log_preorder : PreOrder same_log.
Proof. split; [intros s; by destruct s|]. intros s1 s2 s3. apply same_log_trans. Qed.

Lemma same_log_bio s t : same_log s (s <| lg_bio := t |>).
Proof. by destruct s. Qed.

Lemma bind_inv {S A B} (m : M S A) (f : A → M S B) s b s' :
  (m ≫= f) s = Done b s' → ∃ a s1, m s = Done a s1 ∧ f a s1 = Done b s'.
Proof. unfold mbind, M_bind. destruct (m s) as [a s1| | | |]; try done. intros H. by exists a, s1. Qed.

Lemma commit_counters s s' : commit s = Done tt s' → 0 ≤ lg_n s →
  lg_n s' = 0 ∧ lg_outstanding s' = lg_outstanding s ∧ lg_committing s' = lg_committing s ∧ lg_size s' = lg_size s ∧
  lg_block s' = lg_block s.
Proof.
  unfold commit. intros (n & s1 & [= <- <-] & H)%bind_inv Hn. destruct (Z.ltb_spec 0 (lg_n s)) as [Hlt|Hge].
  - simpl in H. apply bind_inv in H as ([] & s1 & H1 & H). apply bind_inv in H as ([] & s2 & H2 & H).
    apply bind_inv in H as ([] & s3 & H3 & H). apply bind_inv in H as ([] & s4 & [= <-] & H).
    pose proof same_log_bio as Hb. apply (keeps_write_log same_log Hb) in H1. apply (keeps_write_head same_log Hb) in H2.
    apply (keeps_install_trans same_log Hb) in H3. apply (keeps_write_head same_log Hb) in H.
    rewrite H, H3, H2, H1. done.
  - injection H as <-. split; [lia|done].
Qed.

(** ** Calls in progress *)

(** What each call in progress may still log. *)
Inductive ostep : log * list Z → log * list Z → Prop :=
  | o_begin s rs s' : begin_op s = Done tt s' → ostep (s, rs) (s', MAXOPBLOCKS :: rs)
  | o_write s r1 r r2 i s' :
      1 ≤ r → log_write i s = Done tt s' → ostep (s, r1 ++ r :: r2) (s', r1 ++ (r - 1) :: r2)
  | o_end s r1 r r2 w s' : end_op s = Done w s' → ostep (s, r1 ++ r :: r2) (s', r1 ++ r2).

Definition sum (l : list Z) : Z := foldr Z.add 0 l.

Lemma sum_app l1 l2 : sum (l1 ++ l2) = sum l1 + sum l2.
Proof. induction l1 as [|x l1 IH]; [done|]. simpl. unfold sum in *. simpl. lia. Qed.

Record reserved (z : Z) (x : log * list Z) : Prop := {
  rv_out : lg_outstanding x.1 = Z.of_nat (length x.2);
  rv_each : Forall (λ r, 0 ≤ r ≤ MAXOPBLOCKS) x.2;
  rv_n : 0 ≤ lg_n x.1;
  rv_sum : lg_n x.1 + sum x.2 ≤ LOGSIZE;
  rv_com : lg_committing x.1 = false;
  rv_size : lg_size x.1 = z;
  rv_block : length (lg_block x.1) = Z.to_nat LOGSIZE;
}.

Lemma sum_bound l : Forall (λ r, 0 ≤ r ≤ MAXOPBLOCKS) l → 0 ≤ sum l ≤ Z.of_nat (length l) * MAXOPBLOCKS.
Proof. induction 1 as [|r l Hr Hl IH]; [done|]. unfold sum in *. cbn [foldr length]. lia. Qed.

Lemma log_write_counters i s s' : log_write i s = Done tt s' →
  lg_outstanding s' = lg_outstanding s ∧ lg_committing s' = lg_committing s ∧ lg_size s' = lg_size s ∧
  length (lg_block s') = length (lg_block s) ∧ (lg_n s' = lg_n s ∨ lg_n s' = lg_n s + 1).
Proof.
  unfold log_write. intros (x & s1 & [= <- <-] & H)%bind_inv. apply bind_inv in H as ([] & s1 & H1 & H).
  unfold panic_if in H1. destruct (_ || _); [done|]. injection H1 as <-.
  apply bind_inv in H as ([] & s1 & H1 & H). unfold panic_if in H1. destruct (_ <? _); [done|]. injection H1 as <-.
  apply bind_inv in H as (b & s1 & H1%(keeps_lb same_log same_log_bio) & H). apply bind_inv in H as ([] & s2 & H2 & H).
  unfold set_block in H2. destruct (_ && _); [|done]. injection H2 as <-.
  apply bind_inv in H as ([] & s3 & H3 & H%(keeps_lb same_log same_log_bio)). rewrite H. clear H.
  unfold when in H3. destruct (_ =? _); injection H3 as <-; rewrite H1; simpl; rewrite length_insert; auto 10.
Qed.

Lemma ostep_reserved z x y : reserved z x → ostep x y → reserved z y.
Proof.
  intros [Ho He Hn Hs Hc Hz Hb] Hst. inversion Hst; subst; simpl in *.
  - unfold begin_op in H. apply bind_inv in H as (s0 & s1 & [= <- <-] & H). rewrite Hc in H.
    destruct (Z.ltb_spec LOGSIZE (lg_n s + (lg_outstanding s + 1) * MAXOPBLOCKS)) as [|Hle]; [done|]. injection H as <-.
    pose proof (sum_bound _ He). split; simpl; try done.
    + rewrite Ho. lia.
    + constructor; [unfold MAXOPBLOCKS; lia|done].
    + unfold sum in *. simpl. rewrite Ho in Hle. lia.
  - apply log_write_counters in H0 as (H1 & H2 & H3 & H4 & H5).
    rewrite Forall_app, Forall_cons in He. destruct He as (He1 & He2 & He3).
    rewrite sum_app in Hs. unfold sum in Hs. simpl in Hs. fold (sum r1) (sum r2) in Hs.
    split; simpl; try congruence.
    + rewrite H1, Ho, !length_app. done.
    + rewrite Forall_app, Forall_cons. split_and!; [done|lia|lia|done].
    + destruct H5 as [-> | ->]; lia.
    + rewrite sum_app. unfold sum at 2. simpl. fold (sum r2). destruct H5 as [-> | ->]; lia.
  - unfold end_op in H. apply bind_inv in H as ([] & s1 & [= <-] & H). apply bind_inv in H as (s0 & s1 & [= <- <-] & H).
    simpl in H. rewrite Hc in H. apply bind_inv in H as ([] & s1 & [= <-] & H).
    rewrite Forall_app, Forall_cons in He. destruct He as (He1 & He2 & He3). pose proof (sum_bound _ He1). pose proof (sum_bound _ He3).
    rewrite sum_app in Hs. unfold sum in Hs. simpl in Hs. fold (sum r1) (sum r2) in Hs. rewrite length_app in Ho. simpl in Ho.
    destruct (Z.eqb_spec (lg_outstanding s - 1) 0) as [Hz0|Hnz].
    + apply bind_inv in H as ([] & s1 & [= <-] & H). apply bind_inv in H as ([] & s2 & H2 & H).
      apply bind_inv in H as ([] & s3 & [= <-] & [= <- <-]). apply commit_counters in H2 as (H3 & H4 & H5 & H6 & H7); [|done].
      simpl in *. split; simpl; try congruence.
      * rewrite H4, length_app. lia.
      * by rewrite Forall_app.
      * lia.
      * rewrite H3, sum_app. lia.
    + injection H as <- <-. split; simpl; try done.
      * rewrite length_app. lia.
      * by rewrite Forall_app.
      * rewrite sum_app. lia.
Qed.

Lemma find_block_le l b i : (find_block l b i ≤ i + length l)%nat.
Proof. revert i. induction l as [|x l IH]; intros i; simpl; [lia|]. destruct (_ =? _); [lia|]. specialize (IH (S i)). lia. Qed.

(** A log with no call in progress. *)
Definition idle_log (z : Z) (s : log) : Prop :=
  lg_n s = 0 ∧ lg_outstanding s = 0 ∧ lg_committing s = false ∧ lg_size s = z ∧ length (lg_block s) = Z.to_nat LOGSIZE.

Lemma idle_reserved z s : idle_log z s → reserved z (s, []).
Proof. intros (? & ? & ? & ? & ?). split; simpl; [lia|constructor|lia|unfold sum, LOGSIZE, MAXOPBLOCKS; simpl; lia|done..]. Qed.

(** C32: whatever calls run concurrently, if the log area has room for more than
    LOGSIZE blocks besides its header, log_write() of a buffer never panics
    for a call that begin_op() admitted and that has logged fewer than
    MAXOPBLOCKS blocks: it completes and grows the log by at most one block,
    and the blocks the other calls may still log fit in the log after it. *)
Theorem log_space_reserved z s0 s rs r1 r r2 i b :
  idle_log z s0 → LOGSIZE < z → rtc ostep (s0, []) (s, rs) → rs = r1 ++ r :: r2 → 1 ≤ r →
  bio_bufs (lg_bio s) !! i = Some b →
  wp (log_write i) (λ _ s', lg_n s' ≤ lg_n s + 1 ∧ lg_n s' + sum (r1 ++ (r - 1) :: r2) ≤ LOGSIZE) s.
Proof.
  intros H0 Hz Hr Hrs Hr1 Hb. assert (HR : reserved z (s, rs)).
  { eapply (rtc_invariant ostep (reserved z)); [by apply idle_reserved| |exact Hr]. intros x y. apply ostep_reserved. }
  assert (Hdone : ∃ s', log_write i s = Done tt s').
  { destruct HR as [Ho He Hn Hs Hc Hsz Hlb]. simpl in *. subst rs. pose proof (sum_bound _ He) as Hsum.
    rewrite Forall_app, Forall_cons in He. destruct He as (He1 & He2 & He3). pose proof (sum_bound _ He1). pose proof (sum_bound _ He3).
    rewrite sum_app in Hs. unfold sum in Hs. simpl in Hs. fold (sum r1) (sum r2) in Hs. rewrite length_app in Ho. simpl in Ho.
    unfold log_write. erewrite bind_done by done. cbv beta. unfold panic_if.
    replace ((LOGSIZE <=? lg_n s) || (lg_size s - 1 <=? lg_n s)) with false by (symmetry; zlia).
    erewrite bind_done by done. replace (lg_outstanding s <? 1) with false by (symmetry; zlia).
    erewrite bind_done by done. erewrite bind_done by (unfold lb, lift, rdb; by rewrite Hb).
    pose proof (find_block_le (take (Z.to_nat (lg_n s)) (lg_block s)) (b_blockno b) 0) as Hf. rewrite length_take in Hf.
    assert (Hj : (find_block (take (Z.to_nat (lg_n s)) (lg_block s)) (b_blockno b) 0 < length (lg_block s))%nat) by lia.
    erewrite bind_done by (apply set_block_done; exact Hj).
    unfold when. destruct (_ =? _); (erewrite bind_done by done); unfold lb, lift, wrb; simpl; rewrite Hb; eauto. }
  destruct Hdone as [s' Hd]. unfold wp. rewrite Hd. apply log_write_counters in Hd as Hcnt.
  destruct Hcnt as (_ & _ & _ & _ & Hn). split; [lia|]. subst rs.
  apply (ostep_reserved z _ _ HR (o_write s r1 r r2 i s' Hr1 Hd)).
Qed.

(** ** The size mkfs gives the log *)

(** mkfs.c: nlog = LOGSIZE, header included. *)
Definition nlog : Z := LOGSIZE.

(** A log of that size, and a cache that holds blocks 100, 101, ... *)
Definition mkfs_log : log :=
  mkLog (mkBio ((λ i, mkBuf B_BUSY 1 (100 + Z.of_nat i) 0 0 []) <$> seq 0 (S NBUF)) [] [] true)
    2 nlog 0 false 1 0 (replicate (Z.to_nat LOGSIZE) 0).

Fixpoint log_all (l : list nat) (s : log) : option log :=
  match l with
  | [] => Some s
  | i :: l => match log_write i s with Done _ s' => log_all l s' | _ => None end
  end.

Lemma log_all_steps l s s' r1 r r2 : log_all l s = Some s' → Z.of_nat (length l) ≤ r →
  rtc ostep (s, r1 ++ r :: r2) (s', r1 ++ (r - Z.of_nat (length l)) :: r2).
Proof.
  revert s r. induction l as [|i l IH]; intros s r Hs Hr; simpl in *.
  - injection Hs as <-. rewrite Z.sub_0_r. apply rtc_refl.
  - destruct (log_write i s) as [[] s1| | | |] eqn:Hw; try done.
    eapply rtc_l; [apply (o_write s r1 r r2 i s1); [lia|done]|].
    replace (r - Z.of_nat (S (length l))) with (r - 1 - Z.of_nat (length l)) by lia. apply IH; [done|lia].
Qed.

(** With the log that mkfs makes the reservation is one block short: three
    calls are admitted together, log ten, ten and nine different blocks, and
    the tenth block of the third call, which is within its share, panics. *)
Theorem mkfs_log_one_short : ∃ s i,
  idle_log nlog mkfs_log ∧ rtc ostep (mkfs_log, []) (s, [1; 0; 0]) ∧
  log_write i s = Panic "too big a transaction" s.
Proof.
  pose (s3 := match (begin_op;; begin_op;; begin_op) mkfs_log with Done _ s => s | _ => mkfs_log end).
  pose (s4 := default s3 (log_all (seq 0 10) s3)). pose (s5 := default s4 (log_all (seq 10 10) s4)).
  pose (s6 := default s5 (log_all (seq 20 9) s5)).
  exists s6, 29%nat. split_and!; [split_and!; vm_compute; reflexivity| |vm_compute; reflexivity].
  assert (H1 : rtc ostep (mkfs_log, []) (s3, [10; 10; 10])).
  { do 3 (eapply rtc_l; [apply o_begin; vm_compute; reflexivity|]). vm_compute. apply rtc_refl. }
  assert (H2 : rtc ostep (s3, [10; 10; 10]) (s4, [10; 10; 0])).
  { apply (log_all_steps (seq 0 10) s3 s4 [10; 10] 10 []); [vm_compute; reflexivity|simpl; lia]. }
  assert (H3 : rtc ostep (s4, [10; 10; 0]) (s5, [10; 0; 0])).
  { apply (log_all_steps (seq 10 10) s4 s5 [10] 10 [0]); [vm_compute; reflexivity|simpl; lia]. }
  assert (H4 : rtc ostep (s5, [10; 0; 0]) (s6, [1; 0; 0])).
  { apply (log_all_steps (seq 20 9) s5 s6 [] 10 [0; 0]); [vm_compute; reflexivity|simpl; lia]. }
  clearbody s3 s4 s5 s6. etrans; [exact H1|]. etrans; [exact H2|]. etrans; [exact H3|exact H4].
Qed.

Lemma log_space_reserved_witness :
  ∃ s, wp (log_write 3) (λ _ s', lg_n s' ≤ lg_n s + 1 ∧ lg_n s' + sum [9; 10] ≤ LOGSIZE) s.
Proof.
  pose (s0 := mkfs_log <| lg_size := LOGSIZE + 1 |>).
  pose (s2 := match (begin_op;; begin_op) s0 with Done _ s => s | _ => s0 end).
  exists s2. eapply (log_space_reserved (LOGSIZE + 1) s0 s2 [10; 10] [] 10 [10] 3).
  - split_and!; vm_compute; reflexivity.
  - lia.
  - do 2 (eapply rtc_l; [apply o_begin; vm_compute; reflexivity|]). vm_compute. apply rtc_refl.
  - reflexivity.
  - lia.
  - vm_compute; reflexivity.
Defined.
