(* ===== verification/Tx.v ===== *)
(** * Blocks within a transaction: the interface of the file system to the log

    fs.c reads and changes blocks through bread(), log_write() and brelse().
    [TxOps] are these operations, [TxLaws] what they promise about the store
    of blocks [a], whether a transaction is open, the buffers held, and the
    blocks [L] logged so far. The file system is proved against the laws; the
    log and the buffer cache implement them (LogTx.v). *)

From S2P Require Import Prelude Bio BioView Log.

Class TxOps (S : Type) : Type := {
  tx_bread : Z → Z → M S nat;
  tx_data : nat → M S (list Z);        (* b->data *)
  tx_put : nat → list Z → M S unit;    (* a store into b->data *)
  tx_log_write : nat → M S unit;
  tx_brelse : nat → M S unit;
  tx_begin_op : M S unit;
  tx_end_op : M S unit;
}.

(** Every change fs.c makes to a buffer is followed by log_write(). *)
Definition tx_update {S} `{!TxOps S} (i : nat) (d : list Z) : M S unit := tx_put i d;; tx_log_write i.

Class TxLaws (S : Type) `{!TxOps S} : Type := {
  tx_dev : Z;
  tx_cap : nat;              (* log_write() needs room, even for a block that is in the log *)
  tx_home : Z → Prop;        (* blocks outside the log area *)
  tx_view : S → store → bool → list (nat * key) → list Z → Prop;
  tx_full s a w held L : tx_view s a w held L → full a;
  tx_ext s a a' w held L : tx_view s a w held L → (∀ k, a' k = a k) → tx_view s a' w held L;
  tx_logged s a w held L : tx_view s a w held L → NoDup L ∧ ∀ b, b ∈ L → tx_home b;
  tx_bound s a w held L : tx_view s a w held L → (length L ≤ tx_cap)%nat;
  tx_bread_law s a w held L b :
    tx_view s a w held L → 0 ≤ b < FSSIZE → (tx_dev, b) ∉ held.*2 →
    b ∈ L ∨ (length L + length held ≤ tx_cap)%nat →
    wp (tx_bread tx_dev b) (λ i s', tx_view s' a w ((i, (tx_dev, b)) :: held) L) s;
  tx_data_law s a w held L i k :
    tx_view s a w held L → (i, k) ∈ held → wp (tx_data i) (λ d s', d = a k ∧ s' = s) s;
  tx_update_law s a held L i b d :
    tx_view s a true held L → (i, (tx_dev, b)) ∈ held → tx_home b → length d = BSIZE → (length L < tx_cap)%nat →
    wp (tx_update i d) (λ _ s', tx_view s' (store_set a (tx_dev, b) d) true held (logged L b)) s;
  tx_brelse_law s a w held1 held2 L i k :
    tx_view s a w (held1 ++ (i, k) :: held2) L →
    wp (tx_brelse i) (λ _ s', tx_view s' a w (held1 ++ held2) L) s;
  tx_begin_law s a :
    tx_view s a false [] [] → wp tx_begin_op (λ _ s', tx_view s' a true [] []) s;
  tx_end_law s a L :
    tx_view s a true [] L →
    wp tx_end_op (λ _ s', ∃ a', tx_view s' a' false [] [] ∧ ∀ b, tx_home b → a' (tx_dev, b) = a (tx_dev, b)) s;
}.
