(* ===== verification/LogTx.v ===== *)
(** * The log implements transactions

    The operations of log.c and bio.c as an instance of the interface of
    Tx.v, one file system call at a time. *)

From S2P Require Import Prelude Bytes Bio BioView Log Tx.

#[export] Instance log_ops : TxOps log := {
  tx_bread dev b := lb (bread dev b);
  tx_data := data;
  tx_put i d := lb (put_data i d);
  tx_log_write := log_write;
  tx_brelse := lrelse;
  tx_begin_op := begin_op;
  tx_end_op := _ ← end_op; mret tt;
}.

Section laws.
(** The device, the start of the log and the number of its data blocks. *)
Context (d st : Z) (n : nat) (Hd : d = 0 ∨ d = 1) (Hst : 0 ≤ st) (Hend : st + Z.of_nat n < FSSIZE)
  (Hn : Z.of_nat n < LOGSIZE).

Definition home_block (b : Z) : Prop := 0 ≤ b < FSSIZE ∧ (b < st ∨ st + Z.of_nat n < b).

Record log_view (s : log) (a : store) (w : bool) (held : list (nat * key)) (bl : list Z) : Prop := {
  lv_view : view (lg_bio s) a held (hkey d <$> bl);
  lv_log : log_at d st s bl;
  lv_full : full a;
  lv_settled : ∀ i k, (i, k) ∈ held → k ∈ hkey d <$> bl ∨ on_disk (lg_bio s) k = a k;
  lv_drive : drive d (lg_bio s);
  lv_nodup : NoDup bl;
  lv_home : ∀ b, b ∈ bl → home_block b;
  lv_n : (length bl ≤ n)%nat;
  lv_size : lg_size s = Z.of_nat n + 1;
  lv_open : lg_outstanding s = if w then 1 else 0;
  lv_com : lg_committing s = false;
}.

Lemma lv_layout s a w held bl : log_view s a w held bl → layout d st n bl.
Proof. intros V. split; try done. apply (lv_home _ _ _ _ _ V). Qed.

Lemma log_bread_law s a w held bl b :
  log_view s a w held bl → 0 ≤ b < FSSIZE → (d, b) ∉ held.*2 → b ∈ bl ∨ (length bl + length held ≤ n)%nat →
  wp (lb (bread d b)) (λ i s', log_view s' a w ((i, (d, b)) :: held) bl) s.
Proof.
  intros V Hb Hh Hor. apply wp_lb. eapply wp_mono; [eapply view_bread; [apply V|..]|].
  - split_and!; [done|simpl; lia|apply V].
  - done.
  - destruct Hor as [Hin|Hl]; [left; by apply list_elem_of_fmap_2|right].
    rewrite length_fmap. unfold NBUF, LOGSIZE, MAXOPBLOCKS in *. lia.
  - intros i t (V' & _ & D' & F'). destruct V as [V HL Hf Hse Hdr Hnd Hho Hln Hsz Ho Hc]. split; try done.
    + intros j k. unfold on_disk in *. simpl. rewrite D', elem_of_cons. intros [[= -> ->]|Hin]; [|by eapply Hse].
      destruct (decide ((d, b) ∈ hkey d <$> bl)); [by left|right]. by apply (view_disk _ _ _ _ V).
    + unfold drive in *. simpl. by rewrite F'.
Qed.

Lemma log_data_law s a w held bl i k :
  log_view s a w held bl → (i, k) ∈ held → wp (data i) (λ x s', x = a k ∧ s' = s) s.
Proof. intros V Hin. by eapply wp_data; [apply V|done|]. Qed.

Lemma log_update_law s a held bl i b x :
  log_view s a true held bl → (i, (d, b)) ∈ held → home_block b → length x = BSIZE → (length bl < n)%nat →
  wp (lb (put_data i x);; log_write i) (λ _ s', log_view s' (store_set a (d, b) x) true held (logged bl b)) s.
Proof.
  intros V Hin Hb Hx Hor. apply wp_bind, wp_lb. eapply wp_mono; [eapply view_put; [apply V|exact Hin]|].
  intros [] t (V1 & D1 & F1). destruct V as [V HL Hf Hse Hdr Hnd Hh Hln Hsz Ho Hc].
  eapply wp_mono; [eapply (log_write_spec d st _ _ held bl i b); try done; simpl; try lia|].
  - apply Hb.
  - intros y Hy. apply (Hh y Hy).
  - intros [] s' (V2 & HL2 & D2 & Hs2 & Ho2 & Hc2 & F2). split; try done.
    + by apply full_set.
    + intros j k Hjk. destruct (decide (k = (d, b))) as [->|Hk].
      * left. apply list_elem_of_fmap_2, elem_of_logged. by right.
      * rewrite store_set_ne by done. unfold on_disk in *. rewrite D2. simpl. rewrite D1.
        destruct (Hse j k Hjk) as [(y & -> & Hy)%list_elem_of_fmap|?]; [left|by right].
        apply list_elem_of_fmap_2, elem_of_logged. by left.
    + unfold drive, frame in *. simpl in *. by rewrite F2, F1.
    + by apply NoDup_logged.
    + intros y. rewrite elem_of_logged. intros [Hy| ->]; [by apply Hh|done].
    + unfold logged. case_decide; [done|]. rewrite length_app. simpl. lia.
    + rewrite Hs2. done.
    + rewrite Ho2. done.
    + rewrite Hc2. done.
Qed.

Lemma log_brelse_law s a w held1 held2 bl i k :
  log_view s a w (held1 ++ (i, k) :: held2) bl → wp (lrelse i) (λ _ s', log_view s' a w (held1 ++ held2) bl) s.
Proof.
  intros V. apply wp_lrelse. eapply wp_mono; [eapply view_brelse; [apply V|]|].
  { apply (lv_settled _ _ _ _ _ V i). set_solver. }
  intros _ t (_ & V' & D' & F'). destruct V as [V HL Hf Hse Hdr Hnd Hho Hln Hsz Ho Hc]. split; try done.
  - intros j k' Hin. unfold on_disk in *. simpl. rewrite D'. apply (Hse j). set_solver.
  - unfold drive in *. simpl. by rewrite F'.
Qed.

Lemma log_begin_law s a : log_view s a false [] [] → wp begin_op (λ _ s', log_view s' a true [] []) s.
Proof.
  intros [V HL Hf Hse Hdr Hnd Hho Hln Hsz Ho Hc]. pose proof HL as (_ & _ & Hn0 & _). unfold begin_op. apply wp_bind, wp_get.
  rewrite Hc, Hn0, Ho. apply wp_modify. split; try done. simpl. by rewrite Ho.
Qed.

Lemma apply_writes_same ws a k : (∀ x, (k, x) ∈ ws → x = a k) → apply_writes ws a k = a k.
Proof.
  induction ws as [|[k' x] ws IH] using rev_ind; intros H; [done|]. rewrite apply_writes_app. simpl.
  destruct (decide (k = k')) as [->|Hk].
  - rewrite store_set_eq. apply H. set_solver.
  - rewrite store_set_ne by done. apply IH. set_solver.
Qed.

(** commit() changes no block outside the log area. *)
Lemma commit_home a bl b : layout d st n bl → (length bl ≤ n)%nat → home_block b →
  apply_writes (commit_writes d st a bl) a (d, b) = a (d, b).
Proof.
  intros Y Hln [_ Hb]. apply apply_writes_same. intros x. unfold commit_writes, head_write, clear_write, install_writes.
  rewrite !elem_of_app, !list_elem_of_singleton, list_elem_of_fmap.
  intros [(i & c & Hi & Hk & _)%elem_of_log_writes|[[= Hk _]|[(c & [= -> ->] & _)|[= Hk _]]]].
  - apply lookup_lt_Some in Hi. unfold lkey in Hk. injection Hk as Hk. lia.
  - lia.
  - done.
  - lia.
Qed.

Lemma commit_full a bl : layout d st n bl → full a → (length bl ≤ Z.to_nat LOGSIZE)%nat →
  full (apply_writes (commit_writes d st a bl) a).
Proof.
  intros Y Hf Hl. destruct (head_bytes_of (a (hdr d st)) bl) as [_ Hl1]; [apply Hf|done|intros b Hb; apply (ly_home _ _ _ _ Y b Hb)|].
  destruct (head_bytes_of (head_bytes (a (hdr d st)) bl) []) as [_ Hl2]; [done|simpl; lia|set_solver|].
  apply full_writes; [done|]. intros w. unfold commit_writes, head_write, clear_write, install_writes.
  rewrite !elem_of_app, !list_elem_of_singleton, list_elem_of_fmap.
  intros [Hw|[-> |[(c & -> & _)| ->]]]; [by eapply log_writes_full|done|apply Hf|done].
Qed.

Lemma log_end_law s a bl : log_view s a true [] bl →
  wp (_ ← end_op; mret tt) (λ _ s', ∃ a', log_view s' a' false [] [] ∧ ∀ b, home_block b → a' (d, b) = a (d, b)) s.
Proof.
  intros V. pose proof (lv_layout _ _ _ _ _ V) as Y. destruct V as [V HL Hf Hse Hdr Hnd Hho Hln Hsz Ho Hc].
  unfold end_op. apply wp_bind, wp_bind, wp_modify, wp_bind, wp_get. simpl. rewrite Hc, Ho.
  apply wp_bind, wp_panic_if; [done|]. simpl. apply wp_bind, wp_modify, wp_bind.
  destruct (decide (bl = [])) as [->|Hne].
  - pose proof HL as (_ & _ & Hn0 & _). unfold commit. apply wp_bind, wp_gets. simpl. rewrite Hn0. simpl.
    apply wp_bind, wp_modify, wp_ret. exists a. split; [|done]. split; try done. simpl. by rewrite Ho.
  - eapply wp_mono; [eapply (commit_spec d st _ a n bl); [split; try done|done]|].
    + unfold NBUF, LOGSIZE, MAXOPBLOCKS in *. lia.
    + intros [] s' (HL' & V' & D' & Ho' & Hc' & Hs' & F'). apply wp_bind, wp_modify, wp_ret. exists (apply_writes (commit_writes d st a bl) a).
      split; [|intros b Hb; by apply commit_home]. split; try done.
      * apply commit_full; [done|done|]. by apply (log_at_len d st s).
      * set_solver.
      * unfold drive, frame in *. simpl in *. by rewrite F'.
      * constructor.
      * set_solver.
      * simpl. lia.
      * simpl. by rewrite Hs'.
      * simpl. rewrite Ho'. simpl. by rewrite Ho.
Qed.

Lemma log_ext s a a' w held bl : log_view s a w held bl → (∀ k, a' k = a k) → log_view s a' w held bl.
Proof.
  intros [V HL Hf Hse Hdr Hnd Hh Hln Hsz Ho Hc] He. split; try done.
  - split; try apply V. destruct (vw_holds _ _ _ _ V) as [Hck Hb]. split; [done|]. intros k Hk. rewrite He. by apply Hb.
  - intros k. rewrite He. apply Hf.
  - intros i k Hin. rewrite He. by eapply Hse.
Qed.

#[refine] Instance log_laws : TxLaws log := {
  tx_dev := d; tx_cap := n; tx_home := home_block; tx_view := log_view;
}.
Proof.
  - intros s a w held L V. apply V.
  - apply log_ext.
  - intros s a w held L V. split; [apply V|]. intros b Hb. by apply (lv_home _ _ _ _ _ V).
  - intros s a w held L V. apply V.
  - apply log_bread_law.
  - apply log_data_law.
  - apply log_update_law.
  - apply log_brelse_law.
  - apply log_begin_law.
  - apply log_end_law.
Defined.
End laws.
