(* ===== verification/Fs.v ===== *)
(** * The file system (fs.c, fs.h, file.h)

    Blocks, inodes, file contents, directories and path names, over the
    transactions of Tx.v. Inodes of the cache are indices into icache.inode.
    A stretch under icache.lock is atomic, and waiting for a busy inode is
    [Blocked]. The device functions of devsw, which are not part of fs.c, are
    parameters. *)

From S2P Require Import Prelude Bytes Str Bio BioView Log Tx.

Definition NDIRECT : nat := 10.
Definition NINDIRECT : nat := 128.       (* BSIZE / sizeof(uint) *)
Definition MAXFILE : Z := 138.           (* NDIRECT + NINDIRECT *)
Definition IPB : Z := 8.                 (* BSIZE / sizeof(struct dinode) *)
Definition DINODE : nat := 64.           (* sizeof(struct dinode) *)
Definition BPB : Z := 4096.              (* BSIZE * 8 *)
Definition DIRSIZ : nat := 14.
Definition DIRENT : Z := 16.             (* sizeof(struct dirent) *)
Definition NINODE : nat := 50.
Definition NDEV : Z := 10.
Definition ROOTDEV : Z := 1.
Definition ROOTINO : Z := 1.
Definition T_DIR : Z := 1.
Definition T_FILE : Z := 2.
Definition T_DEV : Z := 3.
Definition DEFAULTUID : Z := 0.
Definition DEFAULTGID : Z := 0.
Definition DEFAULTMODE : Z := 493.       (* 0755 *)

Definition IBLOCK (i : Z) (sb : superblock) : Z := i / IPB + sb_inodestart sb.
Definition BBLOCK (b : Z) (sb : superblock) : Z := b / BPB + sb_bmapstart sb.

(** struct dinode, and the part of struct inode that copies it. *)
Record dinode : Type := mkDinode {
  di_type : Z; di_major : Z; di_minor : Z; di_nlink : Z;
  di_uid : Z; di_gid : Z; di_mode : Z; di_size : Z; di_addrs : list Z;
}.
#[export] Instance dinode_eta : Eta dinode := λ x,
  mkDinode (di_type x) (di_major x) (di_minor x) (di_nlink x) (di_uid x) (di_gid x) (di_mode x) (di_size x) (di_addrs x).

(** struct inode: I_BUSY and I_VALID are the two flags. *)
Record inode : Type := mkInode {
  i_dev : Z; i_inum : Z; i_ref : Z; i_busy : bool; i_valid : bool; i_d : dinode;
}.
#[export] Instance inode_eta : Eta inode := λ x,
  mkInode (i_dev x) (i_inum x) (i_ref x) (i_busy x) (i_valid x) (i_d x).

(** The dinode at offset [o] of a block. *)
Definition get_addrs (d : list Z) (o : nat) : list Z := (λ j, get_le 4 d (o + 4 * j)) <$> seq 0 (S NDIRECT).
Definition get_dinode (d : list Z) (o : nat) : dinode :=
  mkDinode (s16 (get_le 2 d o)) (s16 (get_le 2 d (o + 2))) (s16 (get_le 2 d (o + 4))) (s16 (get_le 2 d (o + 6)))
    (get_le 2 d (o + 8)) (get_le 2 d (o + 10)) (get_le 4 d (o + 12)) (get_le 4 d (o + 16)) (get_addrs d (o + 20)).

Fixpoint put_words (d : list Z) (o : nat) (l : list Z) : list Z :=
  match l with [] => d | x :: l => put_words (put_le 4 d o x) (o + 4) l end.
Definition put_dinode (d : list Z) (o : nat) (x : dinode) : list Z :=
  let d := put_le 2 d o (di_type x) in
  let d := put_le 2 d (o + 2) (di_major x) in
  let d := put_le 2 d (o + 4) (di_minor x) in
  let d := put_le 2 d (o + 6) (di_nlink x) in
  let d := put_le 4 d (o + 16) (di_size x) in
  let d := put_le 2 d (o + 8) (di_uid x) in
  let d := put_le 2 d (o + 10) (di_gid x) in
  let d := put_le 4 d (o + 12) (di_mode x) in
  put_words d (o + 20) (di_addrs x).

(** The offset of inode [inum] in its block. *)
Definition dinode_off (inum : Z) : nat := DINODE * Z.to_nat (inum mod IPB).

Record fs (T : Type) : Type := mkFs { f_tx : T; f_sb : superblock; f_inodes : list inode }.
Arguments mkFs {T}.
Arguments f_tx {T}.
Arguments f_sb {T}.
Arguments f_inodes {T}.
#[export] Instance fs_eta {T} : Eta (fs T) := λ s, mkFs (f_tx s) (f_sb s) (f_inodes s).

Section fs.
Context {T : Type} `{!TxOps T}.
Abbreviation F := (M (fs T)).

Definition ft {A} (m : M T A) : F A := lift f_tx (λ t s, s <| f_tx := t |>) m.
Definition rdi (i : nat) : F inode := λ s,
  match f_inodes s !! i with Some ip => Done ip s | None => Fault s end.
Definition wri (i : nat) (f : inode → inode) : F unit := λ s,
  match f_inodes s !! i with
  | Some ip => Done tt (s <| f_inodes ::= <[i := f ip]> |>)
  | None => Fault s
  end.

(** ** Blocks *)

Definition fs_readsb (dev : Z) : F superblock :=
  bp ← ft (tx_bread dev 1);
  d ← ft (tx_data bp);
  ft (tx_brelse bp);;
  mret (sb_of d).

Definition bzero (dev bno : Z) : F unit :=
  bp ← ft (tx_bread dev bno);
  d ← ft (tx_data bp);
  ft (tx_update bp (replicate BSIZE 0));;
  ft (tx_brelse bp).

(** [(data[bi/8] & (1 << (bi%8))) == 0] *)
Definition bit_clear (d : list Z) (bi : Z) : bool :=
  Z.land (default 0 (d !! Z.to_nat (bi / 8))) (Z.shiftl 1 (bi mod 8)) =? 0.
Definition set_bit (d : list Z) (bi : Z) : list Z :=
  alter (λ x, Z.lor x (Z.shiftl 1 (bi mod 8))) (Z.to_nat (bi / 8)) d.
Definition clear_bit (d : list Z) (bi : Z) : list Z :=
  alter (λ x, Z.land x (Z.lnot (Z.shiftl 1 (bi mod 8)))) (Z.to_nat (bi / 8)) d.

(** The inner loop of balloc(): the first free bit. *)
Fixpoint free_bit (fuel : nat) (d : list Z) (b size bi : Z) : option Z :=
  match fuel with
  | O => None
  | S n =>
    if (bi <? BPB) && (b + bi <? size)
    then if bit_clear d bi then Some bi else free_bit n d b size (bi + 1)
    else None
  end.

Fixpoint balloc_loop (fuel : nat) (dev b : Z) : F Z :=
  match fuel with
  | O => nofuel
  | S n =>
    sb ← gets f_sb;
    if b <? sb_size sb then
      bp ← ft (tx_bread dev (BBLOCK b sb));
      d ← ft (tx_data bp);
      match free_bit (Z.to_nat BPB) d b (sb_size sb) 0 with
      | Some bi =>
        ft (tx_update bp (set_bit d bi));;
        ft (tx_brelse bp);;
        bzero dev (b + bi);;
        mret (b + bi)
      | None => ft (tx_brelse bp);; balloc_loop n dev (b + BPB)
      end
    else panic "balloc: out of blocks"
  end.

Definition balloc (dev : Z) : F Z :=
  sb ← gets f_sb;
  balloc_loop (S (Z.to_nat (sb_size sb / BPB + 1))) dev 0.

Definition bfree (dev b : Z) : F unit :=
  sb ← fs_readsb dev;
  modify (λ s, s <| f_sb := sb |>);;
  bp ← ft (tx_bread dev (BBLOCK b sb));
  let bi := b mod BPB in
  d ← ft (tx_data bp);
  panic_if (bit_clear d bi) "freeing free block";;
  ft (tx_update bp (clear_bit d bi));;
  ft (tx_brelse bp).

(** ** Inodes *)

Definition iinit (dev : Z) : F unit :=
  sb ← fs_readsb dev;
  modify (λ s, s <| f_sb := sb |>).

(** The loop of iget(): a cached entry, and the first empty one. *)
Fixpoint iget_scan (l : list inode) (i : nat) (dev inum : Z) (empty : option nat) : nat + option nat :=
  match l with
  | [] => inr empty
  | ip :: l =>
    if (0 <? i_ref ip) && (i_dev ip =? dev) && (i_inum ip =? inum) then inl i
    else iget_scan l (S i) dev inum
           (match empty with None => if i_ref ip =? 0 then Some i else None | _ => empty end)
  end.

Definition iget (dev inum : Z) : F nat :=
  l ← gets f_inodes;
  match iget_scan l 0 dev inum None with
  | inl i => wri i (λ ip, ip <| i_ref ::= λ r, r + 1 |>);; mret i
  | inr None => panic "iget: no inodes"
  | inr (Some i) =>
    wri i (λ ip, ip <| i_dev := dev |> <| i_inum := inum |> <| i_ref := 1 |> <| i_busy := false |>
      <| i_valid := false |>
      <| i_d ::= λ d, d <| di_uid := DEFAULTUID |> <| di_gid := DEFAULTGID |> <| di_mode := DEFAULTMODE |> |>);;
    mret i
  end.

Fixpoint ialloc_loop (fuel : nat) (dev type inum : Z) : F nat :=
  match fuel with
  | O => nofuel
  | S n =>
    sb ← gets f_sb;
    if inum <? sb_ninodes sb then
      bp ← ft (tx_bread dev (IBLOCK inum sb));
      d ← ft (tx_data bp);
      let o := dinode_off inum in
      if s16 (get_le 2 d o) =? 0 then
        ft (tx_update bp (put_le 2 (splice d o (replicate DINODE 0)) o type));;
        ft (tx_brelse bp);;
        iget dev inum
      else ft (tx_brelse bp);; ialloc_loop n dev type (inum + 1)
    else panic "ialloc: no inodes"
  end.

Definition ialloc (dev type : Z) : F nat :=
  sb ← gets f_sb;
  ialloc_loop (S (Z.to_nat (sb_ninodes sb))) dev type 1.

Definition iupdate (i : nat) : F unit :=
  ip ← rdi i;
  sb ← gets f_sb;
  bp ← ft (tx_bread (i_dev ip) (IBLOCK (i_inum ip) sb));
  d ← ft (tx_data bp);
  ft (tx_update bp (put_dinode d (dinode_off (i_inum ip)) (i_d ip)));;
  ft (tx_brelse bp).

Definition idup (i : nat) : F nat := wri i (λ ip, ip <| i_ref ::= λ r, r + 1 |>);; mret i.

Definition ilock (i : nat) : F unit :=
  ip ← rdi i;
  panic_if (i_ref ip <? 1) "ilock";;
  if i_busy ip then block (WaitChan (ChInode i))
  else
    wri i (λ ip, ip <| i_busy := true |>);;
    if i_valid ip then mret tt
    else
      sb ← gets f_sb;
      bp ← ft (tx_bread (i_dev ip) (IBLOCK (i_inum ip) sb));
      d ← ft (tx_data bp);
      let x := get_dinode d (dinode_off (i_inum ip)) in
      wri i (λ ip, ip <| i_d := x |>);;
      ft (tx_brelse bp);;
      wri i (λ ip, ip <| i_valid := true |>);;
      panic_if (di_type x =? 0) "ilock: no type".

Definition iunlock (i : nat) : F unit :=
  ip ← rdi i;
  panic_if (negb (i_busy ip) || (i_ref ip <? 1)) "iunlock";;
  wri i (λ ip, ip <| i_busy := false |>).

(** ** Contents *)

Definition get_addr (i bn : nat) : F Z :=
  ip ← rdi i;
  match di_addrs (i_d ip) !! bn with Some a => mret a | None => fault end.
Definition set_addr (i bn : nat) (a : Z) : F unit :=
  wri i (λ ip, ip <| i_d ::= λ d, d <| di_addrs ::= <[bn := a]> |> |>).

Definition bmap (i : nat) (bn : Z) : F Z :=
  ip ← rdi i;
  if bn <? Z.of_nat NDIRECT then
    addr ← get_addr i (Z.to_nat bn);
    if addr =? 0 then
      addr ← balloc (i_dev ip);
      set_addr i (Z.to_nat bn) addr;;
      mret addr
    else mret addr
  else
    let bn := bn - Z.of_nat NDIRECT in
    if bn <? Z.of_nat NINDIRECT then
      addr ← get_addr i NDIRECT;
      addr ← (if addr =? 0 then
                addr ← balloc (i_dev ip);
                set_addr i NDIRECT addr;;
                mret addr
              else mret addr);
      bp ← ft (tx_bread (i_dev ip) addr);
      a ← ft (tx_data bp);
      addr ← (if get_le 4 a (4 * Z.to_nat bn) =? 0 then
                addr ← balloc (i_dev ip);
                a ← ft (tx_data bp);
                ft (tx_update bp (put_le 4 a (4 * Z.to_nat bn) addr));;
                mret addr
              else mret (get_le 4 a (4 * Z.to_nat bn)));
      ft (tx_brelse bp);;
      mret addr
    else panic "bmap: out of range".

(** The loop of itrunc() over the direct blocks. *)
Fixpoint trunc_direct (i : nat) (j n : nat) : F unit :=
  match n with
  | O => mret tt
  | S n =>
    addr ← get_addr i j;
    when (negb (addr =? 0)) (ip ← rdi i; bfree (i_dev ip) addr;; set_addr i j 0);;
    trunc_direct i (S j) n
  end.

(** The loop over the indirect block [a]. *)
Fixpoint trunc_indirect (dev : Z) (a : list Z) (j n : nat) : F unit :=
  match n with
  | O => mret tt
  | S n =>
    when (negb (get_le 4 a (4 * j) =? 0)) (bfree dev (get_le 4 a (4 * j)));;
    trunc_indirect dev a (S j) n
  end.

Definition itrunc (i : nat) : F unit :=
  trunc_direct i 0 NDIRECT;;
  addr ← get_addr i NDIRECT;
  when (negb (addr =? 0)) (
    ip ← rdi i;
    bp ← ft (tx_bread (i_dev ip) addr);
    a ← ft (tx_data bp);
    trunc_indirect (i_dev ip) a 0 NINDIRECT;;
    ft (tx_brelse bp);;
    bfree (i_dev ip) addr;;
    set_addr i NDIRECT 0);;
  wri i (λ ip, ip <| i_d ::= λ d, d <| di_size := 0 |> |>);;
  iupdate i.

Definition iput (i : nat) : F unit :=
  ip ← rdi i;
  when ((i_ref ip =? 1) && i_valid ip && (di_nlink (i_d ip) =? 0)) (
    panic_if (i_busy ip) "iput busy";;
    wri i (λ ip, ip <| i_busy := true |>);;
    itrunc i;;
    wri i (λ ip, ip <| i_d ::= λ d, d <| di_type := 0 |> |>);;
    iupdate i;;
    wri i (λ ip, ip <| i_busy := false |> <| i_valid := false |>));;
  wri i (λ ip, ip <| i_ref ::= λ r, r - 1 |>).

Definition iunlockput (i : nat) : F unit := iunlock i;; iput i.

(** struct stat. *)
Record stat : Type := mkStat {
  st_type : Z; st_dev : Z; st_ino : Z; st_nlink : Z; st_size : Z; st_uid : Z; st_gid : Z; st_mode : Z;
}.

Definition stati (i : nat) : F stat :=
  ip ← rdi i;
  let d := i_d ip in
  mret (mkStat (di_type d) (s32 (i_dev ip)) (i_inum ip) (di_nlink d) (di_size d) (di_uid d) (di_gid d) (di_mode d)).

(** ** Reading and writing *)

Section devices.
(** devsw[major].read and write, where they are not null. *)
Context (dev_read : Z → option (nat → Z → F (Z * list Z))) (dev_write : Z → option (nat → list Z → F Z)).

Definition major_ok (major : Z) : bool := (0 <=? major) && (major <? NDEV).

(** The loop of readi(); the bytes are those stored at dst. *)
Fixpoint read_loop (fuel : nat) (i : nat) (off n tot : Z) : F (list Z) :=
  if tot <? n then
    match fuel with
    | O => nofuel
    | S fuel =>
      ip ← rdi i;
      b ← bmap i (off / Z.of_nat BSIZE);
      bp ← ft (tx_bread (i_dev ip) b);
      let m := Z.min (n - tot) (Z.of_nat BSIZE - off mod Z.of_nat BSIZE) in
      d ← ft (tx_data bp);
      let bytes := take (Z.to_nat m) (drop (Z.to_nat (off mod Z.of_nat BSIZE)) d) in
      ft (tx_brelse bp);;
      rest ← read_loop fuel i (off + m) n (tot + m);
      mret (bytes ++ rest)
    end
  else mret [].

Definition chunks (n : Z) : nat := Z.to_nat (n / Z.of_nat BSIZE + 2).

(** readi(); returns the result and the bytes read. *)
Definition readi (i : nat) (off n : Z) : F (Z * list Z) :=
  ip ← rdi i;
  let d := i_d ip in
  if di_type d =? T_DEV then
    match (if major_ok (di_major d) then dev_read (di_major d) else None) with
    | None => mret (-1, [])
    | Some f => f i n
    end
  else if (di_size d <? off) || (u32 (off + n) <? off) then mret (-1, [])
  else
    let n := if di_size d <? off + n then di_size d - off else n in
    bytes ← read_loop (chunks n) i off n 0;
    mret (s32 n, bytes).

(** The loop of writei(). *)
Fixpoint write_loop (fuel : nat) (i : nat) (src : list Z) (off n tot : Z) : F unit :=
  if tot <? n then
    match fuel with
    | O => nofuel
    | S fuel =>
      ip ← rdi i;
      b ← bmap i (off / Z.of_nat BSIZE);
      bp ← ft (tx_bread (i_dev ip) b);
      let m := Z.min (n - tot) (Z.of_nat BSIZE - off mod Z.of_nat BSIZE) in
      d ← ft (tx_data bp);
      ft (tx_update bp (splice d (Z.to_nat (off mod Z.of_nat BSIZE)) (take (Z.to_nat m) src)));;
      ft (tx_brelse bp);;
      write_loop fuel i (drop (Z.to_nat m) src) (off + m) n (tot + m)
    end
  else mret tt.

(** writei() of the n bytes [src]. *)
Definition writei (i : nat) (src : list Z) (off : Z) : F Z :=
  ip ← rdi i;
  let d := i_d ip in
  let n := Z.of_nat (length src) in
  if di_type d =? T_DEV then
    match (if major_ok (di_major d) then dev_write (di_major d) else None) with
    | None => mret (-1)
    | Some f => f i src
    end
  else if (di_size d <? off) || (u32 (off + n) <? off) then mret (-1)
  else if MAXFILE * Z.of_nat BSIZE <? off + n then mret (-1)
  else
    write_loop (chunks n) i src off n 0;;
    ip ← rdi i;
    when ((0 <? n) && (di_size (i_d ip) <? off + n)) (
      wri i (λ ip, ip <| i_d ::= λ d, d <| di_size := off + n |> |>);;
      iupdate i);;
    mret (s32 n).

(** ** Directories *)

Definition namecmp (s t : list Z) : option Z := strncmp s t DIRSIZ.

(** The directory entry in 16 bytes. *)
Definition de_inum (de : list Z) : Z := get_le 2 de 0.
Definition de_name (de : list Z) : list Z := drop 2 de.
Definition mk_dirent (inum : Z) (name : list Z) : list Z := le_bytes 2 inum ++ name.

Definition read_dirent (dp : nat) (off : Z) (msg : string) : F (list Z) :=
  r ← readi dp off DIRENT;
  panic_if (negb (r.1 =? DIRENT)) msg;;
  mret r.2.

Fixpoint lookup_loop (fuel : nat) (dp : nat) (name : list Z) (off : Z) : F (option (Z * Z)) :=
  ip ← rdi dp;
  if off <? di_size (i_d ip) then
    match fuel with
    | O => nofuel
    | S fuel =>
      de ← read_dirent dp off "dirlink read";
      if de_inum de =? 0 then lookup_loop fuel dp name (off + DIRENT)
      else
        match namecmp name (de_name de) with
        | None => fault
        | Some c => if c =? 0 then mret (Some (de_inum de, off)) else lookup_loop fuel dp name (off + DIRENT)
        end
    end
  else mret None.

(** The entries of a directory of this size. *)
Definition entries (size : Z) : nat := Z.to_nat (size / DIRENT + 1).

(** dirlookup(); returns the inode and the offset stored in *poff. *)
Definition dirlookup (dp : nat) (name : list Z) : F (option (nat * Z)) :=
  ip ← rdi dp;
  panic_if (negb (di_type (i_d ip) =? T_DIR)) "dirlookup not DIR";;
  r ← lookup_loop (entries (di_size (i_d ip))) dp name 0;
  match r with
  | None => mret None
  | Some (inum, off) => i ← iget (i_dev ip) inum; mret (Some (i, off))
  end.

(** The first empty entry, or the end of the directory. *)
Fixpoint empty_loop (fuel : nat) (dp : nat) (off : Z) : F Z :=
  ip ← rdi dp;
  if off <? di_size (i_d ip) then
    match fuel with
    | O => nofuel
    | S fuel =>
      de ← read_dirent dp off "dirlink read";
      if de_inum de =? 0 then mret off else empty_loop fuel dp (off + DIRENT)
    end
  else mret off.

Definition dirlink (dp : nat) (name : list Z) (inum : Z) : F Z :=
  r ← dirlookup dp name;
  match r with
  | Some (ip, _) => iput ip;; mret (-1)
  | None =>
    ip ← rdi dp;
    off ← empty_loop (entries (di_size (i_d ip))) dp 0;
    match strncpy (replicate DIRSIZ 0) name DIRSIZ with
    | None => fault
    | Some nm =>
      r ← writei dp (mk_dirent inum nm) off;
      panic_if (negb (r =? DIRENT)) "dirlink";;
      mret 0
    end
  end.

(** ** Paths *)

(** A path is the bytes of the string up to its NUL. *)
Definition slash : Z := 47.

Fixpoint skip_slashes (p : list Z) : list Z :=
  match p with c :: p' => if c =? slash then skip_slashes p' else p | [] => [] end.

(** The bytes up to the next slash or the end: the element and what follows. *)
Fixpoint span_elem (p : list Z) : list Z * list Z :=
  match p with
  | [] => ([], [])
  | c :: p' => if c =? slash then ([], p) else let '(e, r) := span_elem p' in (c :: e, r)
  end.

(** skipelem(path, name) with the old contents of name. *)
Definition skipelem (path name : list Z) : option (list Z * list Z) :=
  match skip_slashes path with
  | [] => None
  | p =>
    let '(e, r) := span_elem p in
    let name := if (DIRSIZ <=? length e)%nat then splice name 0 (take DIRSIZ e) else splice name 0 (e ++ [0]) in
    Some (skip_slashes r, name)
  end.

Fixpoint namex_loop (fuel : nat) (ip : nat) (path : list Z) (nameiparent : bool) (name : list Z) :
    F (option nat * list Z) :=
  match skipelem path name with
  | None =>
    if nameiparent then iput ip;; mret (None, name) else mret (Some ip, name)
  | Some (path, name) =>
    match fuel with
    | O => nofuel
    | S fuel =>
      ilock ip;;
      x ← rdi ip;
      if negb (di_type (i_d x) =? T_DIR) then iunlockput ip;; mret (None, name)
      else if nameiparent && bool_decide (path = []) then iunlock ip;; mret (Some ip, name)
      else
        next ← dirlookup ip name;
        match next with
        | None => iunlockput ip;; mret (None, name)
        | Some (next, _) => iunlockput ip;; namex_loop fuel next path nameiparent name
        end
    end
  end.

(** namex(); [cwd] is proc->cwd. *)
Definition namex (cwd : nat) (path : list Z) (nameiparent : bool) (name : list Z) : F (option nat * list Z) :=
  ip ← (if bool_decide (head path = Some slash) then iget ROOTDEV ROOTINO else idup cwd);
  namex_loop (S (length path)) ip path nameiparent name.

Definition namei (cwd : nat) (path : list Z) : F (option nat) :=
  r ← namex cwd path false (replicate DIRSIZ 0); mret r.1.

Definition nameiparent (cwd : nat) (path name : list Z) : F (option nat * list Z) := namex cwd path true name.

(** ** chmod(), chown(), chgrp() *)

(** Their common shape: find the inode, check the argument, change a field. *)
Definition chmod (cwd : nat) (path : list Z) (mode : Z) : F Z :=
  ft tx_begin_op;;
  r ← namei cwd path;
  match r with
  | None => ft tx_end_op;; mret (-1)
  | Some ip =>
    if 1023 <? mode then ft tx_end_op;; mret (-1)
    else
      ilock ip;;
      wri ip (λ x, x <| i_d ::= λ d, d <| di_mode := u32 mode |> |>);;
      iupdate ip;;
      iunlock ip;;
      ft tx_end_op;;
      mret 0
  end.

Definition chown (cwd : nat) (path : list Z) (uid : Z) : F Z :=
  ft tx_begin_op;;
  r ← namei cwd path;
  match r with
  | None => ft tx_end_op;; mret (-1)
  | Some ip =>
    if (uid <? 0) || (32767 <? uid) then ft tx_end_op;; mret (-1)
    else
      ilock ip;;
      wri ip (λ x, x <| i_d ::= λ d, d <| di_uid := u16 uid |> |>);;
      iupdate ip;;
      iunlock ip;;
      ft tx_end_op;;
      mret 0
  end.

Definition chgrp (cwd : nat) (path : list Z) (gid : Z) : F Z :=
  ft tx_begin_op;;
  r ← namei cwd path;
  match r with
  | None => ft tx_end_op;; mret (-1)
  | Some ip =>
    if (gid <? 0) || (32767 <? gid) then ft tx_end_op;; mret (-1)
    else
      ilock ip;;
      wri ip (λ x, x <| i_d ::= λ d, d <| di_gid := u16 gid |> |>);;
      iupdate ip;;
      iunlock ip;;
      ft tx_end_op;;
      mret 0
  end.
End devices.
End fs.
