(* ===== verification/FsBlock.v ===== *)
(** * What is stored in blocks: inodes and the free map

    The inodes in a block as bytes and back, and then balloc() and bfree(). *)

From S2P Require Import Prelude Bytes Str Bio BioView Log Tx Fs.

(** ** Inodes in a block *)

Lemma get_put_mod n m o v : (o + n ≤ length m)%nat → get_le n (put_le n m o v) o = v mod 2 ^ (8 * Z.of_nat n).
Proof.
  intros Ho. unfold get_le, put_le. rewrite <- (length_le_bytes n v) at 1.
  rewrite take_drop_splice by (by rewrite length_le_bytes). apply le_val_bytes.
Qed.

Lemma s16_mod v : - 2 ^ 15 ≤ v < 2 ^ 15 → s16 (v mod 2 ^ 16) = v.
Proof. intros. unfold s16. rewrite Zplus_mod_idemp_l, Z.mod_small; lia. Qed.

(** [plen] proves bounds on the length of a block after writes. *)
Ltac plen := repeat (rewrite length_put_le; [|solve [plen]]); lia.

Lemma length_put_words d o l : (o + 4 * length l ≤ length d)%nat → length (put_words d o l) = length d.
Proof.
  revert d o. induction l as [|x l IH]; intros d o H; [done|]. simpl in *. rewrite IH; rewrite length_put_le; lia.
Qed.

Lemma get_put_words_ne d o l k o' : (o + 4 * length l ≤ length d)%nat → (o' + k ≤ o ∨ o + 4 * length l ≤ o')%nat →
  get_le k (put_words d o l) o' = get_le k d o'.
Proof.
  revert d o. induction l as [|x l IH]; intros d o H Ho; [done|]. simpl in *.
  rewrite IH by (try rewrite length_put_le; lia). apply get_put_ne; lia.
Qed.

Lemma get_put_words d o l : (o + 4 * length l ≤ length d)%nat → Forall (λ x, 0 ≤ x < 2 ^ 32) l →
  (λ j, get_le 4 (put_words d o l) (o + 4 * j)) <$> seq 0 (length l) = l.
Proof.
  intros H Hl. revert d o H. induction Hl as [|x l Hx Hl IH]; intros d o H; [done|]. cbn [length seq put_words].
  rewrite fmap_cons. simpl in H. f_equal.
  - rewrite Nat.mul_0_r, Nat.add_0_r. rewrite get_put_words_ne by plen. apply get_put; lia.
  - rewrite <- fmap_S_seq, <- list_fmap_compose. rewrite <- (IH (put_le 4 d o x) (o + 4)%nat) at 2 by (rewrite length_put_le; lia).
    apply list_fmap_ext. intros j y _. unfold compose. f_equal. lia.
Qed.

(** The values the fields of a dinode can have. *)
Record dinode_ok (x : dinode) : Prop := {
  dk_type : - 2 ^ 15 ≤ di_type x < 2 ^ 15;
  dk_major : - 2 ^ 15 ≤ di_major x < 2 ^ 15;
  dk_minor : - 2 ^ 15 ≤ di_minor x < 2 ^ 15;
  dk_nlink : - 2 ^ 15 ≤ di_nlink x < 2 ^ 15;
  dk_uid : 0 ≤ di_uid x < 2 ^ 16;
  dk_gid : 0 ≤ di_gid x < 2 ^ 16;
  dk_mode : 0 ≤ di_mode x < 2 ^ 32;
  dk_size : 0 ≤ di_size x < 2 ^ 32;
  dk_addrs : Forall (λ a, 0 ≤ a < 2 ^ 32) (di_addrs x);
  dk_len : length (di_addrs x) = S NDIRECT;
}.

Lemma length_put_dinode d o x : (o + DINODE ≤ length d)%nat → length (di_addrs x) = S NDIRECT →
  length (put_dinode d o x) = length d.
Proof.
  unfold DINODE, NDIRECT, put_dinode. intros Ho Hl. rewrite length_put_words; plen.
Qed.

(** A dinode read back is the one written. *)
Lemma get_put_dinode d o x : (o + DINODE ≤ length d)%nat → dinode_ok x → get_dinode (put_dinode d o x) o = x.
Proof.
  unfold DINODE. intros Ho H. pose proof (dk_len _ H) as Hl. unfold NDIRECT in Hl.
  destruct x as [ty ma mi nl ui gi mo si ad]. destruct H. simpl in *. unfold get_dinode, put_dinode.
  cbn [di_type di_major di_minor di_nlink di_uid di_gid di_mode di_size di_addrs].
  set (d8 := put_le 4 _ (o + 12) mo).
  assert (Hd8 : length d8 = length d) by (unfold d8; plen).
  f_equal.
  5-8: rewrite get_put_words_ne by lia; unfold d8;
    repeat (rewrite get_put_ne by plen); (apply get_put; [plen|lia]).
  5: unfold get_addrs, NDIRECT; rewrite <- Hl; apply get_put_words; [lia|done].
  all: rewrite get_put_words_ne by lia; unfold d8; repeat (rewrite get_put_ne by plen);
    rewrite get_put_mod by plen; by apply s16_mod.
Qed.

(** Writing a dinode changes no other part of the block. *)
Lemma get_put_dinode_ne k d o x o' : (o + DINODE ≤ length d)%nat → length (di_addrs x) = S NDIRECT →
  (o' + k ≤ o ∨ o + DINODE ≤ o')%nat → get_le k (put_dinode d o x) o' = get_le k d o'.
Proof.
  unfold DINODE, NDIRECT. intros Ho Hl Hd. unfold put_dinode. simpl.
  rewrite get_put_words_ne by plen.
  repeat (rewrite get_put_ne by plen). done.
Qed.

Lemma get_dinode_ext d d' o : (∀ k o', (o ≤ o')%nat → (o' + k ≤ o + DINODE)%nat → get_le k d' o' = get_le k d o') →
  get_dinode d' o = get_dinode d o.
Proof.
  unfold DINODE. intros H. unfold get_dinode, get_addrs. rewrite !H by lia. f_equal.
  apply list_fmap_ext. intros j y Hj%lookup_seq. unfold NDIRECT in Hj. apply H; lia.
Qed.

Lemma get_other_dinode d o x o' : (o + DINODE ≤ length d)%nat → length (di_addrs x) = S NDIRECT →
  (o' + DINODE ≤ o ∨ o + DINODE ≤ o')%nat → get_dinode (put_dinode d o x) o' = get_dinode d o'.
Proof. intros Ho Hl Hd. apply get_dinode_ext. intros k o'' H1 H2. apply get_put_dinode_ne; [done|done|lia]. Qed.

(** What get_dinode reads from bytes is a dinode. *)
Lemma get_le_range k d o : byte_list d → 0 ≤ get_le k d o < 2 ^ (8 * Z.of_nat k).
Proof.
  intros Hb. unfold get_le. assert (Hf : byte_list (take k (drop o d))) by (by apply Forall_take, Forall_drop).
  pose proof (le_val_range _ Hf) as Hr. assert (Hl : (length (take k (drop o d)) ≤ k)%nat) by (rewrite length_take; lia).
  split; [lia|]. eapply Z.lt_le_trans; [apply Hr|]. apply Z.pow_le_mono_r; lia.
Qed.

Lemma s16_range z : - 2 ^ 15 ≤ s16 z < 2 ^ 15.
Proof. unfold s16. pose proof (Z.mod_pos_bound (z + 2 ^ 15) (2 ^ 16)). lia. Qed.

Lemma get_dinode_ok d o : byte_list d → dinode_ok (get_dinode d o).
Proof.
  intros Hb. split; simpl; try apply s16_range; try (by apply get_le_range); try done.
  apply Forall_fmap, Forall_true. intros j. by apply (get_le_range 4).
Qed.

Lemma dinode_off_bound inum : (dinode_off inum + DINODE ≤ BSIZE)%nat.
Proof. unfold dinode_off, DINODE, BSIZE, IPB. pose proof (Z.mod_pos_bound inum 8). lia. Qed.

(** Two inodes of a block do not overlap. *)
Lemma dinode_off_ne x y : 0 ≤ x → 0 ≤ y → x / IPB = y / IPB → x ≠ y →
  (dinode_off y + DINODE ≤ dinode_off x ∨ dinode_off x + DINODE ≤ dinode_off y)%nat.
Proof.
  unfold dinode_off, DINODE, IPB. intros Hx Hy Hd Hne. pose proof (Z.mod_pos_bound x 8). pose proof (Z.mod_pos_bound y 8).
  assert (x mod 8 ≠ y mod 8). { intros He. apply Hne. rewrite (Z.div_mod x 8), (Z.div_mod y 8) by lia. congruence. }
  lia.
Qed.

(** ** Allocating and freeing blocks *)

(** ** Bits of the free map *)

Definition bit (d : list Z) (b : Z) : bool := Z.testbit (default 0 (d !! Z.to_nat (b / 8))) (b mod 8).

Lemma bit_clear_spec d b : bit_clear d b = negb (bit d b).
Proof.
  unfold bit_clear, bit. pose proof (Z.mod_pos_bound b 8). rewrite Z.shiftl_1_l.
  rewrite <- (flag_bit _ (b mod 8)) by lia. by rewrite negb_involutive.
Qed.

Lemma same_byte b c : 0 ≤ b → 0 ≤ c → Z.to_nat (b / 8) = Z.to_nat (c / 8) → b mod 8 = c mod 8 → b = c.
Proof.
  intros Hb Hc Hd Hm. rewrite (Z.div_mod b 8), (Z.div_mod c 8) by lia.
  pose proof (Z.div_pos b 8). pose proof (Z.div_pos c 8). lia.
Qed.

Lemma bit_set d b c : 0 ≤ b → 0 ≤ c → (Z.to_nat (b / 8) < length d)%nat →
  bit (set_bit d b) c = bool_decide (c = b) || bit d c.
Proof.
  intros Hb Hc Hl. unfold bit, set_bit. rewrite list_lookup_alter. pose proof (Z.mod_pos_bound b 8). pose proof (Z.mod_pos_bound c 8).
  case_decide as Hbyte.
  - rewrite <- Hbyte. apply lookup_lt_is_Some in Hl as [x Hx]. rewrite Hx. simpl.
    rewrite Z.lor_spec, Z.shiftl_1_l, Z.pow2_bits_eqb by lia. rewrite orb_comm. f_equal.
    case_bool_decide as Hcb; [subst; apply Z.eqb_refl|]. apply Z.eqb_neq. intros He. apply Hcb. symmetry. by apply same_byte.
  - case_bool_decide as Hcb; [by subst|done].
Qed.

Lemma bit_cleared d b c : 0 ≤ b → 0 ≤ c → bit (clear_bit d b) c = negb (bool_decide (c = b)) && bit d c.
Proof.
  intros Hb Hc. unfold bit, clear_bit. rewrite list_lookup_alter. pose proof (Z.mod_pos_bound b 8). pose proof (Z.mod_pos_bound c 8).
  case_decide as Hbyte.
  - rewrite <- Hbyte. destruct (d !! Z.to_nat (b / 8)) as [x|]; simpl; [|by rewrite !Z.bits_0, andb_false_r].
    rewrite Z.land_spec, Z.lnot_spec, Z.shiftl_1_l, Z.pow2_bits_eqb by lia. rewrite andb_comm. do 2 f_equal.
    case_bool_decide as Hcb; [subst; apply Z.eqb_refl|]. apply Z.eqb_neq. intros He. apply Hcb. symmetry. by apply same_byte.
  - case_bool_decide as Hcb; [by subst|done].
Qed.

(** The inner loop finds the first clear bit. *)
Lemma free_bit_spec fuel d b size bi :
  match free_bit fuel d b size bi with
  | Some x => bi ≤ x ∧ x < BPB ∧ b + x < size ∧ bit d x = false ∧ ∀ y, bi ≤ y < x → bit d y = true
  | None => BPB - bi ≤ Z.of_nat fuel → ∀ y, bi ≤ y < BPB → b + y < size → bit d y = true
  end.
Proof.
  revert bi. induction fuel as [|n IH]; intros bi; cbn [free_bit]; [lia|].
  destruct ((bi <? BPB) && (b + bi <? size)) eqn:Hc; [|zbool; lia].
  apply andb_true_iff in Hc as [Hc1%Z.ltb_lt Hc2%Z.ltb_lt]. rewrite bit_clear_spec.
  destruct (bit d bi) eqn:Hb; simpl; [|split_and!; [lia|lia|lia|done|lia]].
  specialize (IH (bi + 1)). destruct (free_bit n d b size (bi + 1)) as [x|].
  - destruct IH as (H1 & H2 & H3 & H4 & H5). split_and!; [lia|lia|lia|done|].
    intros y Hy. destruct (decide (y = bi)) as [->|]; [done|]. apply H5. lia.
  - intros Hf y Hy Hs. destruct (decide (y = bi)) as [->|]; [done|]. apply IH; lia.
Qed.

Lemma bind_gets {S A B} (f : S → A) (k : A → M S B) s : (gets f ≫= k) s = k (f s) s.
Proof. done. Qed.

Section alloc.
Context {T : Type} `{!TxOps T} `{!TxLaws T}.
Implicit Types (s : fs T) (a : store).

Definition fview s a (w : bool) (held : list (nat * key)) (L : list Z) : Prop := tx_view (f_tx s) a w held L.

Lemma wp_ft {A} (m : M T A) (Q : A → fs T → Prop) s :
  wp m (λ x t, Q x (s <| f_tx := t |>)) (f_tx s) → wp (ft m) Q s.
Proof. intros H. unfold ft. by apply wp_lift. Qed.

Lemma wp_fbread s a w held L b (Q : nat → fs T → Prop) :
  fview s a w held L → 0 ≤ b < FSSIZE → (tx_dev, b) ∉ held.*2 → b ∈ L ∨ (length L + length held ≤ tx_cap)%nat →
  (∀ i s', fview s' a w ((i, (tx_dev, b)) :: held) L → f_sb s' = f_sb s → f_inodes s' = f_inodes s → Q i s') →
  wp (ft (tx_bread tx_dev b)) Q s.
Proof.
  intros V Hb Hh Hor HQ. apply wp_ft. eapply wp_mono; [by apply (tx_bread_law _ a w held L)|].
  intros i t Ht. by apply HQ.
Qed.

Lemma wp_fdata s a w held L i k (Q : list Z → fs T → Prop) :
  fview s a w held L → (i, k) ∈ held → Q (a k) s → wp (ft (tx_data i)) Q s.
Proof.
  intros V Hin HQ. apply wp_ft. eapply wp_mono; [by apply (tx_data_law _ a w held L)|].
  intros d t [-> ->]. by destruct s.
Qed.

Lemma wp_fupdate s a held L i b d (Q : unit → fs T → Prop) :
  fview s a true held L → (i, (tx_dev, b)) ∈ held → tx_home b → length d = BSIZE → (length L < tx_cap)%nat →
  (∀ s', fview s' (store_set a (tx_dev, b) d) true held (logged L b) → f_sb s' = f_sb s → f_inodes s' = f_inodes s → Q tt s') →
  wp (ft (tx_update i d)) Q s.
Proof.
  intros V Hin Hh Hd Hl HQ. apply wp_ft. eapply wp_mono; [by apply (tx_update_law _ a held L)|].
  intros [] t Ht. by apply HQ.
Qed.

Lemma wp_fbrelse s a w held1 held2 L i k (Q : unit → fs T → Prop) :
  fview s a w (held1 ++ (i, k) :: held2) L →
  (∀ s', fview s' a w (held1 ++ held2) L → f_sb s' = f_sb s → f_inodes s' = f_inodes s → Q tt s') →
  wp (ft (tx_brelse i)) Q s.
Proof.
  intros V HQ. apply wp_ft. eapply wp_mono; [by apply (tx_brelse_law _ a w held1 held2 L i k)|].
  intros [] t Ht. by apply HQ.
Qed.

Lemma wp_fbegin s a (Q : unit → fs T → Prop) :
  fview s a false [] [] → (∀ s', fview s' a true [] [] → f_sb s' = f_sb s → f_inodes s' = f_inodes s → Q tt s') →
  wp (ft tx_begin_op) Q s.
Proof. intros V HQ. apply wp_ft. eapply wp_mono; [by apply (tx_begin_law _ a)|]. intros [] t Ht. by apply HQ. Qed.

Lemma wp_fend s a L (Q : unit → fs T → Prop) :
  fview s a true [] L →
  (∀ s' a', fview s' a' false [] [] → (∀ b, tx_home b → a' (tx_dev, b) = a (tx_dev, b)) →
     f_sb s' = f_sb s → f_inodes s' = f_inodes s → Q tt s') →
  wp (ft tx_end_op) Q s.
Proof.
  intros V HQ. apply wp_ft. eapply wp_mono; [by apply (tx_end_law _ a L)|]. intros [] t (a' & Ht & Ha). by apply (HQ _ a').
Qed.

(** ** The free map of a file system *)

Definition bm (sb : superblock) : Z := sb_bmapstart sb.
Definition used (a : store) (sb : superblock) (b : Z) : bool := bit (a (tx_dev, bm sb)) b.

(** The map is one block, and every block that is free may be used for data. *)
Record map_ok (a : store) (sb : superblock) : Prop := {
  mo_size : 0 < sb_size sb ≤ FSSIZE;
  mo_bm : tx_home (bm sb) ∧ 0 ≤ bm sb < FSSIZE;
  mo_free : ∀ b, 0 ≤ b < sb_size sb → used a sb b = false → tx_home b ∧ b ≠ bm sb ∧ b ≠ 0;
}.

Lemma length_set_bit d b : length (set_bit d b) = length d.
Proof. apply length_alter. Qed.
Lemma length_clear_bit d b : length (clear_bit d b) = length d.
Proof. apply length_alter. Qed.

Lemma length_logged L b : (length (logged L b) ≤ S (length L))%nat.
Proof. unfold logged. case_decide; [lia|]. rewrite length_app. simpl. lia. Qed.

(** The store after balloc() of block [b]. *)
Definition allocated (a : store) (sb : superblock) (b : Z) : store :=
  store_set (store_set a (tx_dev, bm sb) (set_bit (a (tx_dev, bm sb)) b)) (tx_dev, b) (replicate BSIZE 0).

Lemma bzero_spec s a held L b (Q : unit → fs T → Prop) :
  fview s a true held L → 0 ≤ b < FSSIZE → tx_home b → (tx_dev, b) ∉ held.*2 →
  (length L + length held ≤ tx_cap)%nat → (length L < tx_cap)%nat →
  (∀ s', fview s' (store_set a (tx_dev, b) (replicate BSIZE 0)) true held (logged L b) →
     f_sb s' = f_sb s → f_inodes s' = f_inodes s → Q tt s') →
  wp (bzero tx_dev b) Q s.
Proof.
  intros V Hb Hh Hn Hl1 Hl2 HQ. unfold bzero. apply wp_bind. eapply wp_fbread; [exact V|done|done|by right|].
  intros i s1 V1 E1 F1. apply wp_bind. eapply wp_fdata; [exact V1|by left|].
  apply wp_bind. eapply wp_fupdate; [exact V1|by left|done|apply length_replicate|done|]. intros s2 V2 E2 F2.
  eapply (wp_fbrelse _ _ _ []); [exact V2|]. intros s3 V3 E3 F3. apply HQ; [exact V3|congruence|congruence].
Qed.

Lemma balloc_spec s a held L (Q : Z → fs T → Prop) :
  fview s a true held L → map_ok a (f_sb s) → (tx_dev, bm (f_sb s)) ∉ held.*2 →
  (∀ b, 0 ≤ b < sb_size (f_sb s) → used a (f_sb s) b = false → (tx_dev, b) ∉ held.*2) →
  (length L + length held + 2 ≤ tx_cap)%nat →
  (∃ b, 0 ≤ b < sb_size (f_sb s) ∧ used a (f_sb s) b = false) →
  (∀ b s', 0 ≤ b < sb_size (f_sb s) → used a (f_sb s) b = false →
     (∀ c, 0 ≤ c < b → used a (f_sb s) c = true) →
     fview s' (allocated a (f_sb s) b) true held (logged (logged L (bm (f_sb s))) b) →
     f_sb s' = f_sb s → f_inodes s' = f_inodes s → Q b s') →
  wp (balloc tx_dev) Q s.
Proof.
  intros V [Hsz Hbm Hfree] Hnh Hfh Hcap (x & Hx & Hxf) HQ. unfold FSSIZE in Hsz.
  unfold balloc. apply wp_bind, wp_gets. cbn [balloc_loop]. apply wp_bind, wp_gets.
  rewrite (proj2 (Z.ltb_lt _ _)) by lia. unfold BBLOCK. rewrite Z.div_0_l, Z.add_0_l by done.
  change (sb_bmapstart (f_sb s)) with (bm (f_sb s)).
  apply wp_bind. eapply wp_fbread; [exact V|apply Hbm|done|right; lia|]. intros i s1 V1 E1 F1.
  apply wp_bind. eapply wp_fdata; [exact V1|by left|].
  pose proof (free_bit_spec (Z.to_nat BPB) (a (tx_dev, bm (f_sb s))) 0 (sb_size (f_sb s)) 0) as Hfb.
  unfold used in *.
  destruct (free_bit _ _ _ _ _) as [b|].
  - destruct Hfb as (H1 & H2 & H3 & H4 & H5). rewrite Z.add_0_l in *. destruct (Hfree b) as (Hhb & Hbb & _); [lia|done|].
    apply wp_bind. eapply wp_fupdate; [exact V1|by left|apply Hbm|rewrite length_set_bit; by eapply tx_full|lia|].
    intros s2 V2 E2 F2. apply wp_bind. eapply (wp_fbrelse _ _ _ []); [exact V2|]. intros s3 V3 E3 F3.
    pose proof (length_logged L (bm (f_sb s))). apply wp_bind.
    eapply bzero_spec; [exact V3|unfold FSSIZE; lia|done|apply Hfh; [lia|done]|simpl; lia|lia|].
    intros s4 V4 E4 F4. apply wp_ret. apply HQ; [lia|done|intros c Hc; apply H5; lia|exact V4|congruence|congruence].
  - exfalso. rewrite (Hfb ltac:(unfold BPB; lia) x) in Hxf; [done|unfold BPB; lia|lia].
Qed.

(** balloc() panics when every block is in use. *)
Lemma balloc_full s a held L :
  fview s a true held L → map_ok a (f_sb s) → (tx_dev, bm (f_sb s)) ∉ held.*2 →
  (length L + length held ≤ tx_cap)%nat →
  (∀ b, 0 ≤ b < sb_size (f_sb s) → used a (f_sb s) b = true) →
  ∃ s', balloc tx_dev s = Panic "balloc: out of blocks" s'.
Proof.
  intros V [Hsz Hbm Hfree] Hnh Hcap Hall. unfold FSSIZE in Hsz. unfold balloc. rewrite bind_gets.
  cbn [balloc_loop]. rewrite bind_gets. rewrite (proj2 (Z.ltb_lt _ _)) by lia.
  unfold BBLOCK. rewrite Z.div_0_l, Z.add_0_l by done.
  assert (Hrd : wp (ft (tx_bread tx_dev (bm (f_sb s)))) (λ i s1, fview s1 a true ((i, (tx_dev, bm (f_sb s))) :: held) L ∧ f_sb s1 = f_sb s) s).
  { eapply wp_fbread; [exact V|apply Hbm|done|by right|done]. }
  apply wp_done in Hrd as (i & s1 & Hrun & V1 & E1). change (sb_bmapstart (f_sb s)) with (bm (f_sb s)).
  rewrite (bind_done _ _ _ _ _ Hrun).
  assert (Hdt : wp (ft (tx_data i)) (λ d s2, d = a (tx_dev, bm (f_sb s)) ∧ s2 = s1) s1) by (by eapply wp_fdata; [exact V1|by left|]).
  apply wp_done in Hdt as (d & s2 & Hdat & -> & ->). rewrite (bind_done _ _ _ _ _ Hdat).
  pose proof (free_bit_spec (Z.to_nat BPB) (a (tx_dev, bm (f_sb s))) 0 (sb_size (f_sb s)) 0) as Hfb.
  destruct (free_bit _ _ _ _ _) as [b|].
  { destruct Hfb as (H1 & H2 & H3 & H4 & _). unfold used in Hall. rewrite Hall in H4 by lia. done. }
  assert (Hre : wp (ft (tx_brelse i)) (λ _ s3, f_sb s3 = f_sb s1) s1) by (eapply (wp_fbrelse _ _ _ []); [exact V1|done]).
  apply wp_done in Hre as ([] & s3 & Hrel & E3). rewrite (bind_done _ _ _ _ _ Hrel).
  set (n := Z.to_nat (sb_size (f_sb s) / BPB + 1)).
  assert (Hn : ∃ n', n = S n').
  { exists (Z.to_nat (sb_size (f_sb s) / BPB)). unfold n. pose proof (Z.div_pos (sb_size (f_sb s)) BPB). unfold BPB in *. lia. }
  destruct Hn as [n' ->]. cbn [balloc_loop]. rewrite bind_gets.
  rewrite (proj2 (Z.ltb_ge _ _)) by (rewrite E3, E1; unfold BPB; lia). by eexists.
Qed.

(** bfree() of a block in use frees it and changes no other. *)
Definition freed (a : store) (sb : superblock) (b : Z) : store :=
  store_set a (tx_dev, bm sb) (clear_bit (a (tx_dev, bm sb)) b).

Lemma fs_readsb_spec s a w held L (Q : superblock → fs T → Prop) :
  fview s a w held L → (tx_dev, 1) ∉ held.*2 → 1 ∈ L ∨ (length L + length held ≤ tx_cap)%nat →
  (∀ s', fview s' a w held L → f_sb s' = f_sb s → f_inodes s' = f_inodes s → Q (sb_of (a (tx_dev, 1))) s') →
  wp (fs_readsb tx_dev) Q s.
Proof.
  intros V Hh Hor HQ. unfold fs_readsb. apply wp_bind. eapply wp_fbread; [exact V|done|done|done|].
  intros i s1 V1 E1 F1. apply wp_bind. eapply wp_fdata; [exact V1|by left|].
  apply wp_bind. eapply (wp_fbrelse _ _ _ []); [exact V1|]. intros s2 V2 E2 F2. apply wp_ret, HQ; [exact V2|congruence|congruence].
Qed.

Lemma bfree_spec s a held L b (Q : unit → fs T → Prop) :
  fview s a true held L → map_ok a (f_sb s) → sb_of (a (tx_dev, 1)) = f_sb s →
  (tx_dev, 1) ∉ held.*2 → (tx_dev, bm (f_sb s)) ∉ held.*2 → (length L + length held + 1 ≤ tx_cap)%nat →
  0 ≤ b < sb_size (f_sb s) → used a (f_sb s) b = true →
  (∀ s', fview s' (freed a (f_sb s) b) true held (logged L (bm (f_sb s))) →
     f_sb s' = f_sb s → f_inodes s' = f_inodes s → Q tt s') →
  wp (bfree tx_dev b) Q s.
Proof.
  intros V [Hsz Hbm Hfree] Hsb Hh1 Hhb Hcap Hb Hu HQ. unfold FSSIZE in Hsz. unfold bfree. apply wp_bind.
  eapply fs_readsb_spec; [exact V|done|right; lia|]. intros s1 V1 E1 F1. rewrite Hsb.
  apply wp_bind, wp_modify. unfold BBLOCK. rewrite Z.div_small by (unfold BPB; lia). rewrite Z.add_0_l.
  change (sb_bmapstart (f_sb s)) with (bm (f_sb s)).
  apply wp_bind. eapply wp_fbread; [exact V1|apply Hbm|done|right; lia|]. intros i s2 V2 E2 F2.
  apply wp_bind. eapply wp_fdata; [exact V2|by left|]. rewrite Z.mod_small by (unfold BPB; lia). apply wp_bind, wp_panic_if.
  { rewrite bit_clear_spec. unfold used in Hu. by rewrite Hu. }
  apply wp_bind. eapply wp_fupdate; [exact V2|by left|apply Hbm|rewrite length_clear_bit; by eapply tx_full|lia|].
  intros s3 V3 E3 F3. eapply (wp_fbrelse _ _ _ []); [exact V3|]. intros s4 V4 E4 F4. simpl in *.
  apply HQ; [exact V4|congruence|congruence].
Qed.
End alloc.
