(* ===== verification/FsFile.v ===== *)
(** * The contents of files: bmap(), readi()

    The bytes of a file and what readi() returns of them, and then how a file
    grows by a block that bmap() allocates. *)

From S2P Require Import Prelude Bytes Str Bio BioView Log Tx Fs FsBlock.

(** A range of a list, element by element. *)
Lemma take_drop_seq (d : list Z) o m : (o + m ≤ length d)%nat →
  take m (drop o d) = (λ j, default 0 (d !! (o + j)%nat)) <$> seq 0 m.
Proof.
  intros H. apply list_eq. intros j. rewrite lookup_take, lookup_drop, list_lookup_fmap.
  case_decide as Hj; [|by rewrite lookup_seq_ge by lia].
  rewrite lookup_seq_lt by lia. simpl. destruct (lookup_lt_is_Some_2 d (o + j)) as [x ->]; [lia|done].
Qed.

Section file.
Context {T : Type} `{!TxOps T} `{!TxLaws T}.
Implicit Types (s : fs T) (a : store) (x : dinode).

(** The block that holds block [bn] of a file, 0 if there is none. *)
Definition addr x (j : nat) : Z := default 0 (di_addrs x !! j).
Definition blk a x (bn : Z) : Z :=
  if bn <? Z.of_nat NDIRECT then addr x (Z.to_nat bn)
  else if addr x NDIRECT =? 0 then 0
  else get_le 4 (a (tx_dev, addr x NDIRECT)) (4 * Z.to_nat (bn - Z.of_nat NDIRECT)).

(** The first [nb] blocks of the file exist. *)
Record mapped a x (nb : Z) : Prop := {
  mp_len : length (di_addrs x) = S NDIRECT;
  mp_max : nb ≤ MAXFILE;
  mp_blk : ∀ bn, 0 ≤ bn < nb → 0 < blk a x bn < FSSIZE;
  mp_ind : Z.of_nat NDIRECT < nb → 0 < addr x NDIRECT < FSSIZE;
}.

Definition BS : Z := Z.of_nat BSIZE.
Lemma BS_val : BS = 512.
Proof. done. Qed.

(** The bytes of a file. *)
Definition fbyte a x (o : Z) : Z := default 0 (a (tx_dev, blk a x (o / BS)) !! Z.to_nat (o mod BS)).
Definition content a x (off : Z) (n : nat) : list Z := (λ j, fbyte a x (off + Z.of_nat j)) <$> seq 0 n.

Lemma content_app a x off n m : content a x off (n + m) = content a x off n ++ content a x (off + Z.of_nat n) m.
Proof.
  unfold content. rewrite seq_app, fmap_app. f_equal. rewrite Nat.add_0_l.
  rewrite <- (Nat.add_0_r n) at 1. rewrite <- fmap_add_seq, <- list_fmap_compose. apply list_fmap_ext.
  intros j y _. unfold compose. f_equal. lia.
Qed.

Lemma length_content a x off n : length (content a x off n) = n.
Proof. unfold content. by rewrite length_fmap, length_seq. Qed.

(** A stretch of a file within one block. *)
Lemma content_chunk a x off (m : nat) : 0 ≤ off → off mod BS + Z.of_nat m ≤ BS → full a →
  take m (drop (Z.to_nat (off mod BS)) (a (tx_dev, blk a x (off / BS)))) = content a x off m.
Proof.
  rewrite BS_val. intros Ho Hm Hf. pose proof (Z.mod_pos_bound off 512). rewrite take_drop_seq by (rewrite Hf; unfold BSIZE; lia).
  unfold content. apply list_fmap_ext. intros j y [-> Hj]%lookup_seq. unfold fbyte. rewrite BS_val.
  assert (Hd : (off + Z.of_nat j) / 512 = off / 512).
  { symmetry. apply Z.div_unique with (off mod 512 + Z.of_nat j); [left; lia|]. rewrite (Z.div_mod off 512) at 1 by lia. lia. }
  assert (Hmod : (off + Z.of_nat j) mod 512 = off mod 512 + Z.of_nat j).
  { symmetry. apply Z.mod_unique with (off / 512); [left; lia|]. rewrite (Z.div_mod off 512) at 1 by lia. lia. }
  simpl. rewrite Hd, Hmod. do 3 f_equal. lia.
Qed.

(** ** Reading *)

Lemma wp_rdi s i ip (Q : inode → fs T → Prop) : f_inodes s !! i = Some ip → Q ip s → wp (rdi i) Q s.
Proof. intros Hi HQ. unfold wp, rdi. by rewrite Hi. Qed.
Lemma wp_wri s i f ip (Q : unit → fs T → Prop) :
  f_inodes s !! i = Some ip → Q tt (s <| f_inodes ::= <[i := f ip]> |>) → wp (wri i f) Q s.
Proof. intros Hi HQ. unfold wp, wri. by rewrite Hi. Qed.

Lemma wp_get_addr s i ip j (Q : Z → fs T → Prop) :
  f_inodes s !! i = Some ip → length (di_addrs (i_d ip)) = S NDIRECT → (j ≤ NDIRECT)%nat →
  Q (addr (i_d ip) j) s → wp (get_addr i j) Q s.
Proof.
  intros Hi Hl Hj HQ. unfold get_addr. apply wp_bind. eapply wp_rdi; [done|]. unfold addr in HQ.
  destruct (lookup_lt_is_Some_2 (di_addrs (i_d ip)) j) as [z Hz]; [lia|]. rewrite Hz in *. by apply wp_ret.
Qed.

(** bmap() of a block that exists. *)
Lemma bmap_mapped s a w held L i ip nb bn (Q : Z → fs T → Prop) :
  fview s a w held L → f_inodes s !! i = Some ip → i_dev ip = tx_dev → mapped a (i_d ip) nb → 0 ≤ bn < nb →
  (tx_dev, addr (i_d ip) NDIRECT) ∉ held.*2 → (length L + length held ≤ tx_cap)%nat →
  (∀ s', fview s' a w held L → f_sb s' = f_sb s → f_inodes s' = f_inodes s → Q (blk a (i_d ip) bn) s') →
  wp (bmap i bn) Q s.
Proof.
  intros V Hi Hd M Hbn Hh Hcap HQ. pose proof (mp_blk _ _ _ M bn Hbn) as Hb. pose proof (mp_max _ _ _ M) as Hmax.
  unfold bmap. apply wp_bind. eapply wp_rdi; [done|]. rewrite Hd. unfold blk in *.
  destruct (Z.ltb_spec bn (Z.of_nat NDIRECT)) as [Hlt|Hge].
  - apply wp_bind. eapply wp_get_addr; [done|apply M|lia|]. rewrite (proj2 (Z.eqb_neq _ _)) by lia. apply wp_ret. by apply HQ.
  - unfold NINDIRECT, MAXFILE, NDIRECT in *. rewrite (proj2 (Z.ltb_lt _ _)) by lia.
    pose proof (mp_ind _ _ _ M) as Hind. unfold NDIRECT in Hind. specialize (Hind ltac:(lia)).
    rewrite (proj2 (Z.eqb_neq (addr (i_d ip) 10) 0)) in * by lia.
    apply wp_bind. eapply wp_get_addr; [done|apply M|unfold NDIRECT; lia|]. rewrite (proj2 (Z.eqb_neq _ _)) by lia.
    apply wp_bind, wp_ret. apply wp_bind. eapply wp_fbread; [exact V|lia|done|by right|]. intros j s1 V1 E1 F1.
    apply wp_bind. eapply wp_fdata; [exact V1|by left|]. rewrite (proj2 (Z.eqb_neq _ _)) by lia.
    apply wp_bind, wp_ret. apply wp_bind. eapply (wp_fbrelse _ _ _ []); [exact V1|]. intros s2 V2 E2 F2.
    apply wp_ret, HQ; [exact V2|congruence|congruence].
Qed.

Definition nblocks (size : Z) : Z := (size + BS - 1) / BS.

Lemma nblocks_covers off size : 0 ≤ off < size → 0 ≤ off / BS < nblocks size.
Proof.
  intros H. unfold nblocks. rewrite BS_val. split; [apply Z.div_pos; lia|].
  pose proof (Z.div_mod off 512 ltac:(lia)). pose proof (Z.mod_pos_bound off 512).
  apply Z.lt_le_trans with (off / 512 + 1); [lia|]. apply Z.div_le_lower_bound; lia.
Qed.

Lemma readi_loop_spec fuel s a w L i ip off n tot (Q : list Z → fs T → Prop) :
  fview s a w [] L → f_inodes s !! i = Some ip → i_dev ip = tx_dev →
  mapped a (i_d ip) (nblocks (di_size (i_d ip))) → (length L ≤ tx_cap)%nat →
  0 ≤ off → 0 ≤ tot ≤ n → off + (n - tot) ≤ di_size (i_d ip) →
  (tot < n → (n - tot) + off mod BS ≤ Z.of_nat fuel * BS) →
  (∀ s', fview s' a w [] L → f_sb s' = f_sb s → f_inodes s' = f_inodes s →
     Q (content a (i_d ip) off (Z.to_nat (n - tot))) s') →
  wp (read_loop fuel i off n tot) Q s.
Proof.
  revert s off tot Q. induction fuel as [|fuel IH]; intros s off tot Q V Hi Hd M Hcap Ho Ht Hsz Hfuel HQ;
    cbn [read_loop]; (destruct (Z.ltb_spec tot n) as [Hlt|Hge];
      [|replace (n - tot) with 0 in HQ by lia; apply wp_ret; by apply HQ]).
  { exfalso. specialize (Hfuel Hlt). pose proof (Z.mod_pos_bound off BS ltac:(done)). lia. }
  change (Z.of_nat BSIZE) with BS. apply wp_bind. eapply wp_rdi; [done|]. pose proof (nblocks_covers off (di_size (i_d ip)) ltac:(lia)) as Hcov.
  apply wp_bind. eapply bmap_mapped; [exact V|done|done|exact M|exact Hcov|set_solver|simpl; lia|].
  intros s1 V1 E1 F1. rewrite Hd. pose proof (mp_blk _ _ _ M _ Hcov) as Hb.
  apply wp_bind. eapply wp_fbread; [exact V1|lia|set_solver|right; simpl; lia|]. intros j s2 V2 E2 F2.
  apply wp_bind. eapply wp_fdata; [exact V2|by left|].
  set (m := Z.min (n - tot) (BS - off mod BS)). pose proof (Z.mod_pos_bound off BS ltac:(done)) as Hmod.
  assert (Hm : 0 < m ∧ m ≤ n - tot ∧ off mod BS + m ≤ BS) by (unfold m; lia).
  rewrite content_chunk by (by eapply tx_full || lia).
  apply wp_bind. eapply (wp_fbrelse _ _ _ []); [exact V2|]. intros s3 V3 E3 F3.
  apply wp_bind. eapply IH; [exact V3|congruence|done|exact M|done|lia|lia|lia| |].
  - intros Hlt'. assert (Hmm : m = BS - off mod BS) by (unfold m; lia).
    assert (Hz : (off + m) mod BS = 0).
    { rewrite Hmm. symmetry. apply Z.mod_unique with (off / BS + 1); [lia|].
      rewrite (Z.div_mod off BS) at 1 by done. lia. }
    specialize (Hfuel Hlt). lia.
  - intros s4 V4 E4 F4. apply wp_ret. rewrite <- (Z2Nat.id m) at 2 by lia. rewrite <- content_app.
    replace (Z.to_nat m + Z.to_nat (n - (tot + m)))%nat with (Z.to_nat (n - tot)) by lia.
    apply HQ; [exact V4|congruence|congruence].
Qed.

Section devices.
Context (dev_read : Z → option (nat → Z → M (fs T) (Z * list Z))) (dev_write : Z → option (nat → list Z → M (fs T) Z)).

(** readi() of a file: an error if off is beyond the end or off+n wraps
    around, otherwise the bytes from off up to off+n or the end. *)
Lemma readi_spec s a w L i ip off n (Q : Z * list Z → fs T → Prop) :
  fview s a w [] L → f_inodes s !! i = Some ip → i_dev ip = tx_dev → di_type (i_d ip) ≠ T_DEV →
  mapped a (i_d ip) (nblocks (di_size (i_d ip))) → (length L ≤ tx_cap)%nat →
  0 ≤ di_size (i_d ip) < 2 ^ 31 → 0 ≤ off < 2 ^ 32 → 0 ≤ n < 2 ^ 32 →
  (∀ s', fview s' a w [] L → f_sb s' = f_sb s → f_inodes s' = f_inodes s →
     Q (if bool_decide (di_size (i_d ip) < off ∨ 2 ^ 32 ≤ off + n) then (-1, [])
        else let k := Z.min n (di_size (i_d ip) - off) in (k, content a (i_d ip) off (Z.to_nat k))) s') →
  wp (readi dev_read i off n) Q s.
Proof.
  intros V Hi Hd Hty M Hcap Hsz Hoff Hn HQ. unfold readi. apply wp_bind. eapply wp_rdi; [done|].
  rewrite (proj2 (Z.eqb_neq _ _)) by done. pose proof (u32_range (off + n)) as Hu.
  assert (Hw : u32 (off + n) < off ↔ 2 ^ 32 ≤ off + n).
  { unfold u32. destruct (decide (2 ^ 32 ≤ off + n)) as [Hle|Hgt].
    - rewrite <- (Z_mod_plus_full _ (-1)), Z.mod_small; lia.
    - rewrite Z.mod_small; lia. }
  destruct ((di_size (i_d ip) <? off) || (u32 (off + n) <? off)) eqn:Herr.
  - rewrite bool_decide_eq_true_2 in HQ by (apply orb_true_iff in Herr as [Herr%Z.ltb_lt|Herr%Z.ltb_lt]; [by left|right; by apply Hw]).
    by apply wp_ret, HQ.
  - apply orb_false_iff in Herr as [He1%Z.ltb_ge He2%Z.ltb_ge].
    rewrite bool_decide_eq_false_2 in HQ by lia.
    assert (Hk : (if di_size (i_d ip) <? off + n then di_size (i_d ip) - off else n) = Z.min n (di_size (i_d ip) - off))
      by (destruct (Z.ltb_spec (di_size (i_d ip)) (off + n)); lia).
    rewrite Hk. set (k := Z.min n (di_size (i_d ip) - off)) in *.
    apply wp_bind. eapply readi_loop_spec; [exact V|done|done|exact M|done|lia|lia|lia| |].
    + intros _. unfold chunks. pose proof (Z.mod_pos_bound off BS ltac:(done)). rewrite BS_val in *.
      pose proof (Z.div_mod k 512 ltac:(lia)). pose proof (Z.mod_pos_bound k 512). pose proof (Z.div_pos k 512).
      rewrite Z2Nat.id by (change (Z.of_nat BSIZE) with 512; lia). change (Z.of_nat BSIZE) with 512. lia.
    + intros s1 V1 E1 F1. rewrite Z.sub_0_r. apply wp_ret. replace (s32 k) with k; [by apply HQ|].
      unfold s32. rewrite Z.mod_small; lia.
Qed.
End devices.
End file.

(** ** The blocks of a file: what bmap() allocates *)

(** The address of the indirect block. *)
Abbreviation ind x := (addr x NDIRECT).

Section grow.
Context {T : Type} `{!TxOps T} `{!TxLaws T}.
Implicit Types (a : store) (x : dinode) (sb : superblock).

(** The blocks that belong to the file: its data blocks and the indirect block. *)
Definition owns a x (nb b : Z) : Prop := (∃ bn, 0 ≤ bn < nb ∧ b = blk a x bn) ∨ (b = ind x ∧ b ≠ 0).

(** A file of [nb] blocks: they are different, allocated, and there is none
    after them. *)
Record file_ok a sb x (nb : Z) : Prop := {
  fo_mapped : mapped a x nb;
  fo_nb : 0 ≤ nb;
  fo_none : ∀ bn, nb ≤ bn < MAXFILE → blk a x bn = 0;
  fo_inj : ∀ bn bn', 0 ≤ bn < nb → 0 ≤ bn' < nb → blk a x bn = blk a x bn' → bn = bn';
  fo_ind : ∀ bn, 0 ≤ bn < nb → blk a x bn ≠ ind x ∨ ind x = 0;
  fo_owned : ∀ b, owns a x nb b → 0 < b < sb_size sb ∧ tx_home b ∧ b ≠ bm sb ∧ used a sb b = true;
}.

(** The file grew from [a], [x] to [a'], [x']: blocks it gained were free, and
    besides the free map only blocks it owns may differ. *)
Record extends sb a x nb a' x' nb' : Prop := {
  ex_nb : nb ≤ nb';
  ex_blk : ∀ bn, 0 ≤ bn < nb → blk a' x' bn = blk a x bn;
  ex_own : ∀ b, owns a x nb b → owns a' x' nb' b;
  ex_new : ∀ b, owns a' x' nb' b → owns a x nb b ∨ used a sb b = false;
  ex_used : ∀ b, 0 ≤ b → used a' sb b = true ↔ used a sb b = true ∨ owns a' x' nb' b;
  ex_same : ∀ b, b ≠ bm sb → ¬ owns a' x' nb' b → a' (tx_dev, b) = a (tx_dev, b);
  ex_dev : ∀ k, fst k ≠ tx_dev → a' k = a k;
  ex_x : x' = x <| di_addrs := di_addrs x' |>;
}.

Lemma extends_refl sb a x nb : file_ok a sb x nb → extends sb a x nb a x nb.
Proof.
  intros F. split; try done; try lia.
  - by left.
  - intros b Hb. split; [by left|]. intros [?|Ho]; [done|]. by apply (fo_owned _ _ _ _ F).
  - by destruct x.
Qed.

Lemma extends_trans sb a1 x1 nb1 a2 x2 nb2 a3 x3 nb3 :
  (∀ b, owns a2 x2 nb2 b → 0 ≤ b) → extends sb a1 x1 nb1 a2 x2 nb2 → extends sb a2 x2 nb2 a3 x3 nb3 →
  (∀ b, owns a3 x3 nb3 b → 0 ≤ b) → extends sb a1 x1 nb1 a3 x3 nb3.
Proof.
  intros Hpos E1 E2 Hpos3. split.
  - etrans; [apply E1|apply E2].
  - intros bn Hbn. rewrite (ex_blk _ _ _ _ _ _ _ E2), (ex_blk _ _ _ _ _ _ _ E1) by (pose proof (ex_nb _ _ _ _ _ _ _ E1); lia). done.
  - intros b Hb. by apply E2, E1.
  - intros b Hb. destruct (ex_new _ _ _ _ _ _ _ E2 b Hb) as [Ho|Hf]; [by apply E1|]. right.
    destruct (used a1 sb b) eqn:Hu; [|done]. assert (used a2 sb b = true); [|congruence].
    apply (ex_used _ _ _ _ _ _ _ E1); [by apply Hpos3|by left].
  - intros b Hb. rewrite (ex_used _ _ _ _ _ _ _ E2 b Hb), (ex_used _ _ _ _ _ _ _ E1 b Hb). split.
    + intros [[?|Ho]|Ho]; [by left|right; by apply E2|by right].
    + intros [?|Ho]; [by left; left|by right].
  - intros b Hb Hn. rewrite (ex_same _ _ _ _ _ _ _ E2 b Hb Hn). apply E1; [done|]. intros Ho. by apply Hn, E2.
  - intros k Hk. rewrite (ex_dev _ _ _ _ _ _ _ E2 k Hk). by apply E1.
  - rewrite (ex_x _ _ _ _ _ _ _ E2), (ex_x _ _ _ _ _ _ _ E1). by destruct x1.
Qed.

(** ** The free map after an allocation *)

Section alloc.
Context a sb (b : Z) (MO : map_ok a sb) (Hfull : full a) (Hb : 0 ≤ b < sb_size sb) (Hfree : used a sb b = false).

Lemma alloc_ne : b ≠ bm sb ∧ b ≠ 0 ∧ tx_home b.
Proof. destruct (mo_free _ _ MO b Hb Hfree) as (? & ? & ?). done. Qed.

Lemma alloc_at_bm : allocated a sb b (tx_dev, bm sb) = set_bit (a (tx_dev, bm sb)) b.
Proof. unfold allocated. rewrite store_set_ne, store_set_eq; [done|]. intros [= He]. destruct alloc_ne. congruence. Qed.
Lemma alloc_at_new : allocated a sb b (tx_dev, b) = replicate BSIZE 0.
Proof. apply store_set_eq. Qed.
Lemma alloc_at_other k : k ≠ (tx_dev, bm sb) → k ≠ (tx_dev, b) → allocated a sb b k = a k.
Proof. intros H1 H2. unfold allocated. by rewrite !store_set_ne. Qed.

Lemma alloc_used c : 0 ≤ c → used (allocated a sb b) sb c = bool_decide (c = b) || used a sb c.
Proof.
  intros Hc. unfold used. rewrite alloc_at_bm. apply bit_set; [lia|done|]. rewrite Hfull. pose proof (mo_size _ _ MO).
  unfold FSSIZE, BSIZE in *. apply Nat2Z.inj_lt. rewrite Z2Nat.id by (apply Z.div_pos; lia). apply Z.div_lt_upper_bound; lia.
Qed.

Lemma alloc_map : map_ok (allocated a sb b) sb.
Proof.
  split; try apply MO. intros c Hc. rewrite alloc_used by lia. intros [_ Hu]%orb_false_iff. by apply (mo_free _ _ MO).
Qed.

Lemma alloc_full : full (allocated a sb b).
Proof. apply full_set; [|apply length_replicate]. apply full_set; [done|]. rewrite length_set_bit. apply Hfull. Qed.
End alloc.

(** The store written at a block that is in use. *)
Lemma used_set a sb k d c : k ≠ (tx_dev, bm sb) → used (store_set a k d) sb c = used a sb c.
Proof. intros Hk. unfold used. by rewrite store_set_ne. Qed.

Lemma map_ok_set a sb k d : k ≠ (tx_dev, bm sb) → map_ok a sb → map_ok (store_set a k d) sb.
Proof. intros Hk M. split; try apply M. intros b. rewrite used_set by done. apply M. Qed.

Lemma addr_insert x j v j' : length (di_addrs x) = S NDIRECT → (j ≤ NDIRECT)%nat →
  addr (x <| di_addrs ::= <[j := v]> |>) j' = if decide (j' = j) then v else addr x j'.
Proof.
  intros Hl Hj. unfold addr. simpl. case_decide as Hd.
  - subst. by rewrite list_lookup_insert_eq by lia.
  - by rewrite list_lookup_insert_ne.
Qed.

Lemma get_zeros k o : get_le k (replicate BSIZE 0) o = 0.
Proof.
  unfold get_le. rewrite drop_replicate, take_replicate. induction (k `min` _)%nat as [|m IH]; [done|]. simpl. by rewrite IH.
Qed.

(** ** One block more *)

(** The file gains the free block [b], as data block [nb] or as its indirect
    block. *)
Lemma grow_core a sb x nb b a' x' nb' :
  file_ok a sb x nb → map_ok a sb → 0 ≤ b < sb_size sb → used a sb b = false → nb' ≤ MAXFILE →
  length (di_addrs x') = S NDIRECT → x' = x <| di_addrs := di_addrs x' |> →
  (∀ bn, 0 ≤ bn < nb → blk a' x' bn = blk a x bn) → (∀ bn, nb' ≤ bn < MAXFILE → blk a' x' bn = 0) →
  (nb' = nb + 1 ∧ blk a' x' nb = b ∧ ind x' = ind x ∧ (Z.of_nat NDIRECT < nb' → ind x ≠ 0)) ∨
    (nb' = nb ∧ ind x = 0 ∧ ind x' = b) →
  (∀ c, 0 ≤ c → used a' sb c = bool_decide (c = b) || used a sb c) →
  (∀ c, c ≠ bm sb → c ≠ b → (c = ind x → c = 0) → a' (tx_dev, c) = a (tx_dev, c)) → (∀ k, fst k ≠ tx_dev → a' k = a k) →
  file_ok a' sb x' nb' ∧ extends sb a x nb a' x' nb'.
Proof.
  intros F MO Hb Hu Hmax Hlen Hx Hblk Hnone Hcase Hused Hsame Hdev.
  pose proof (fo_nb _ _ _ _ F) as Hnb0. pose proof (fo_mapped _ _ _ _ F) as M. pose proof (mo_size _ _ MO) as Hsz.
  destruct (alloc_ne a sb b MO Hb Hu) as (Hbb & Hb0 & Hhome).
  assert (Hnu : ∀ c, owns a x nb c → c ≠ b) by (intros c Hc ->; apply (fo_owned _ _ _ _ F) in Hc as (_ & _ & _ & Hc); congruence).
  assert (Hdat : ∀ bn, 0 ≤ bn < nb → blk a x bn ≠ b) by (intros bn Hbn; apply Hnu; left; by exists bn).
  assert (Hown : ∀ c, owns a' x' nb' c ↔ owns a x nb c ∨ c = b).
  { intros c. unfold owns. destruct Hcase as [(-> & Hnew & Hi & _)|(-> & Hi & Hi')].
    - rewrite Hi. split.
      + intros [(bn & Hbn & ->)|?]; [|by left; right]. destruct (decide (bn = nb)) as [->|]; [by right|].
        left. left. exists bn. split; [lia|]. apply Hblk. lia.
      + intros [[(bn & Hbn & ->)|?]| ->]; [|by right|left; exists nb; split; [lia|done]].
        left. exists bn. split; [lia|]. symmetry. by apply Hblk.
    - rewrite Hi, Hi'. split.
      + intros [(bn & Hbn & ->)|[-> _]]; [|by right]. left. left. exists bn. split; [done|]. by apply Hblk.
      + intros [[(bn & Hbn & ->)|[-> ?]]| ->]; [|done|by right]. left. exists bn. split; [done|]. symmetry. by apply Hblk. }
  assert (Hindne : ∀ bn, 0 ≤ bn < nb → blk a x bn ≠ ind x' ∨ ind x' = 0).
  { intros bn Hbn. destruct Hcase as [(_ & _ & -> & _)|(_ & _ & ->)]; [by apply F|left; by apply Hdat]. }
  split; split; try done; try (destruct Hcase as [(-> & _)|(-> & _)]; lia).
  - split; [done|done| |].
    + intros bn Hbn. destruct (decide (bn < nb)); [rewrite Hblk by lia; apply (mp_blk _ _ _ M); lia|].
      destruct Hcase as [(-> & Hnew & _)|(-> & _)]; [|lia]. replace bn with nb by lia. rewrite Hnew. lia.
    + intros Hlt. destruct Hcase as [(-> & _ & -> & Hi)|(-> & _ & ->)]; [|lia]. specialize (Hi Hlt).
      assert (Ho : owns a x nb (ind x)) by (by right). apply (fo_owned _ _ _ _ F) in Ho. lia.
  - intros bn bn' H1 H2. destruct Hcase as [(-> & Hnew & _)|(-> & _)]; [|rewrite !Hblk by lia; apply F; lia].
    destruct (decide (bn = nb)) as [->|], (decide (bn' = nb)) as [->|]; [done| | |].
    + rewrite Hnew, Hblk by lia. intros He. by destruct (Hdat bn'); [lia|].
    + rewrite Hnew, Hblk by lia. intros He. by destruct (Hdat bn); [lia|].
    + rewrite !Hblk by lia. apply F; lia.
  - intros bn Hbn. destruct (decide (bn < nb)); [rewrite Hblk by lia; apply Hindne; lia|].
    destruct Hcase as [(-> & Hnew & -> & _)|(-> & _)]; [|lia]. replace bn with nb by lia. rewrite Hnew.
    destruct (decide (ind x = 0)); [by right|left]. intros ->. by apply (Hnu (ind x)); [right|].
  - intros c [Ho| ->]%Hown.
    + destruct (fo_owned _ _ _ _ F c Ho) as (H1 & H2 & H3 & H4). split_and!; [lia|lia|done|done|].
      rewrite Hused, H4 by lia. apply orb_true_r.
    + split_and!; [lia|lia|done|done|]. rewrite Hused by lia. by rewrite bool_decide_true.
  - intros c Hc. apply Hown. by left.
  - intros c [Ho| ->]%Hown; [by left|by right].
  - intros c Hc. rewrite Hown, Hused by done. case_bool_decide; simpl; [naive_solver|].
    split; [by left|]. intros [?|[Ho|?]]; [done| |done]. by apply (fo_owned _ _ _ _ F).
  - intros c Hc Hn. rewrite Hown in Hn. apply Hsame; [done|naive_solver|]. intros ->.
    destruct (decide (ind x = 0)); [done|]. exfalso. apply Hn. left. by right.
Qed.

Lemma grow_direct a sb x nb b :
  file_ok a sb x nb → map_ok a sb → full a → 0 ≤ b < sb_size sb → used a sb b = false → nb < Z.of_nat NDIRECT →
  let a' := allocated a sb b in
  let x' := x <| di_addrs ::= <[Z.to_nat nb := b]> |> in
  file_ok a' sb x' (nb + 1) ∧ extends sb a x nb a' x' (nb + 1) ∧ blk a' x' nb = b.
Proof.
  intros F MO Hf Hb Hu Hnb a' x'. pose proof (fo_nb _ _ _ _ F) as Hnb0. pose proof (fo_mapped _ _ _ _ F) as M.
  destruct (alloc_ne a sb b MO Hb Hu) as (Hbb & Hb0 & Hhome).
  assert (Haddr : ∀ j, addr x' j = if decide (j = Z.to_nat nb) then b else addr x j).
  { intros j. apply addr_insert; [apply M|lia]. }
  assert (Hind : ind x' = ind x) by (rewrite Haddr, decide_False by lia; done).
  assert (Hi : ind x ≠ 0 → ind x ≠ bm sb ∧ ind x ≠ b).
  { intros Hi. assert (Ho : owns a x nb (ind x)) by (by right). apply (fo_owned _ _ _ _ F) in Ho as (_ & _ & ? & ?).
    split; [done|]. intros He. congruence. }
  assert (Hblk : ∀ bn, 0 ≤ bn → blk a' x' bn = if decide (bn = nb) then b else blk a x bn).
  { intros bn Hbn. unfold blk. rewrite Hind, Haddr. destruct (Z.ltb_spec bn (Z.of_nat NDIRECT)).
    - destruct (decide (bn = nb)) as [->|]; [by rewrite decide_True|by rewrite decide_False by lia].
    - rewrite (decide_False (P := bn = nb)) by lia. destruct (Z.eqb_spec (ind x) 0) as [|Hi0]; [done|].
      destruct (Hi Hi0). unfold a'. rewrite alloc_at_other; [done|congruence..]. }
  assert (Hnew : blk a' x' nb = b) by (by rewrite Hblk, decide_True by lia).
  apply and_assoc. split; [|done]. apply (grow_core a sb x nb b); try done.
  - unfold MAXFILE, NDIRECT in *. lia.
  - unfold x'. simpl. rewrite length_insert. apply M.
  - intros bn Hbn. by rewrite Hblk, decide_False by lia.
  - intros bn Hbn. rewrite Hblk, decide_False by lia. apply F. lia.
  - left. split_and!; [done|done|done|lia].
  - intros c Hc. by apply alloc_used.
  - intros c H1 H2 _. apply alloc_at_other; congruence.
  - intros k Hk. apply alloc_at_other; intros ->; by apply Hk.
Qed.

(** The indirect block. *)
Lemma grow_ind a sb x nb b :
  file_ok a sb x nb → map_ok a sb → full a → 0 ≤ b < sb_size sb → used a sb b = false → ind x = 0 →
  let a' := allocated a sb b in
  let x' := x <| di_addrs ::= <[NDIRECT := b]> |> in
  file_ok a' sb x' nb ∧ extends sb a x nb a' x' nb ∧ ind x' = b.
Proof.
  intros F MO Hf Hb Hu Hi a' x'. pose proof (fo_nb _ _ _ _ F) as Hnb0. pose proof (fo_mapped _ _ _ _ F) as M.
  destruct (alloc_ne a sb b MO Hb Hu) as (Hbb & Hb0 & Hhome).
  assert (Haddr : ∀ j, addr x' j = if decide (j = NDIRECT) then b else addr x j).
  { intros j. apply addr_insert; [apply M|lia]. }
  assert (Hind : ind x' = b) by (by rewrite Haddr, decide_True).
  assert (Hnb : nb ≤ Z.of_nat NDIRECT).
  { destruct (decide (nb ≤ Z.of_nat NDIRECT)); [done|]. pose proof (mp_ind _ _ _ M). lia. }
  assert (Hblk : ∀ bn, 0 ≤ bn → blk a' x' bn = blk a x bn).
  { intros bn Hbn. unfold blk. rewrite Hind, Hi. destruct (Z.ltb_spec bn (Z.of_nat NDIRECT)).
    - by rewrite Haddr, decide_False by lia.
    - rewrite (proj2 (Z.eqb_neq b 0)) by done. unfold a'. rewrite alloc_at_new. apply get_zeros. }
  apply and_assoc. split; [|done]. apply (grow_core a sb x nb b); try done.
  - apply M.
  - unfold x'. simpl. rewrite length_insert. apply M.
  - intros bn Hbn. apply Hblk. lia.
  - intros bn Hbn. rewrite Hblk by lia. by apply F.
  - by right.
  - intros c Hc. by apply alloc_used.
  - intros c H1 H2 _. apply alloc_at_other; congruence.
  - intros k Hk. apply alloc_at_other; intros ->; by apply Hk.
Qed.

(** A data block listed in the indirect block. *)
Lemma grow_indirect a sb x nb b :
  file_ok a sb x nb → map_ok a sb → full a → 0 ≤ b < sb_size sb → used a sb b = false →
  ind x ≠ 0 → Z.of_nat NDIRECT ≤ nb < MAXFILE →
  let j := Z.to_nat (nb - Z.of_nat NDIRECT) in
  let a' := store_set (allocated a sb b) (tx_dev, ind x) (put_le 4 (a (tx_dev, ind x)) (4 * j) b) in
  file_ok a' sb x (nb + 1) ∧ extends sb a x nb a' x (nb + 1) ∧ blk a' x nb = b ∧
  a' (tx_dev, b) = replicate BSIZE 0 ∧ map_ok a' sb ∧ full a'.
Proof.
  intros F MO Hf Hb Hu Hi Hnb j a'. pose proof (fo_mapped _ _ _ _ F) as M. pose proof (mo_size _ _ MO) as Hsz.
  destruct (alloc_ne a sb b MO Hb Hu) as (Hbb & Hb0 & Hhome).
  assert (Ho : owns a x nb (ind x)) by (by right). apply (fo_owned _ _ _ _ F) in Ho as (_ & _ & Hibm & Hiu).
  assert (Hib : ind x ≠ b) by congruence. unfold MAXFILE, NDIRECT in Hnb.
  assert (Hlen : (4 * j + 4 ≤ length (a (tx_dev, ind x)))%nat) by (rewrite Hf; unfold j, NDIRECT, BSIZE; lia).
  assert (Hat : a' (tx_dev, ind x) = put_le 4 (a (tx_dev, ind x)) (4 * j) b) by apply store_set_eq.
  assert (Hblk : ∀ bn, 0 ≤ bn < MAXFILE → blk a' x bn = if decide (bn = nb) then b else blk a x bn).
  { intros bn Hbn. unfold MAXFILE in Hbn. unfold blk. rewrite Hat. unfold NDIRECT in *. destruct (Z.ltb_spec bn (Z.of_nat 10)) as [Hlt|Hge].
    - by rewrite decide_False by lia.
    - rewrite (proj2 (Z.eqb_neq (addr x 10) 0)) by done. case_decide as Hd.
      + subst bn. apply get_put; [done|]. unfold FSSIZE in Hsz. lia.
      + apply get_put_ne; [done|]. unfold j, NDIRECT. lia. }
  assert (Hused : ∀ c, 0 ≤ c → used a' sb c = bool_decide (c = b) || used a sb c).
  { intros c Hc. unfold a'. rewrite used_set by congruence. by apply alloc_used. }
  assert (Hnew : blk a' x nb = b) by (by rewrite Hblk, decide_True by (unfold MAXFILE; lia)).
  assert (Hcore : file_ok a' sb x (nb + 1) ∧ extends sb a x nb a' x (nb + 1)).
  { apply (grow_core a sb x nb b); try done.
    - unfold MAXFILE. lia.
    - apply M.
    - by destruct x.
    - intros bn Hbn. rewrite Hblk, decide_False by (unfold MAXFILE; lia). done.
    - intros bn Hbn. rewrite Hblk, decide_False by lia. apply F. lia.
    - by left.
    - intros c H1 H2 H3. unfold a'. rewrite store_set_ne, alloc_at_other; congruence || (intros [= ->]; tauto).
    - intros k Hk. unfold a'. rewrite store_set_ne, alloc_at_other; try done; intros ->; by apply Hk. }
  split_and!; [apply Hcore|apply Hcore|done| | |].
  - unfold a'. rewrite store_set_ne by congruence. apply alloc_at_new.
  - apply map_ok_set; [congruence|]. by apply alloc_map.
  - apply full_set; [by apply alloc_full|]. rewrite length_put_le by done. apply Hf.
Qed.
End grow.
