(* ===== verification/FsInv.v ===== *)
(** * The invariant of a file system

    The inodes that are in use describe files whose blocks are allocated and
    shared with no other file; what an operation on one file leaves alone. *)

From S2P Require Import Prelude Bytes Str Bio BioView Log Tx Fs FsBlock FsFile.

Section inv.
Context {T : Type} `{!TxOps T} `{!TxLaws T}.
Implicit Types (s : fs T) (a : store) (x : dinode) (ip : inode) (L : list Z) (sb : superblock) (X : Z → dinode) (live : Z → Prop).

(** The inode as it is on disk. *)
Definition inode_at a sb (i : Z) : dinode := get_dinode (a (tx_dev, IBLOCK i sb)) (dinode_off i).

Definition nb x : Z := nblocks (di_size x).
Definition own a X (i b : Z) : Prop := owns a (X i) (nb (X i)) b.

Record fs_inv a sb live X : Prop := {
  fv_map : map_ok a sb;
  fv_file : ∀ i, live i → file_ok a sb (X i) (nb (X i));
  fv_size : ∀ i, live i → 0 ≤ di_size (X i) ≤ MAXFILE * BS;
  fv_inum : ∀ i, live i → 0 ≤ i;
  fv_block : ∀ i, live i → 0 < IBLOCK i sb < sb_size sb ∧ tx_home (IBLOCK i sb) ∧ IBLOCK i sb ≠ bm sb ∧ used a sb (IBLOCK i sb) = true;
  fv_meta : ∀ i j, live i → live j → ¬ own a X j (IBLOCK i sb);
  fv_disjoint : ∀ i j b, live i → live j → i ≠ j → own a X i b → ¬ own a X j b;
  fv_dinode : ∀ i, live i → dinode_ok (X i);
}.

(** The inodes on disk are those in [X]. *)
Definition synced a sb live X : Prop := ∀ i, live i → inode_at a sb i = X i.

(** The contents of a file. *)
Definition fdata a x : list Z := content a x 0 (Z.to_nat (di_size x)).

(** Slot [i] of the inode cache holds a file in use, as it is on disk. *)
Record opened s a w L sb live X (i : nat) ip : Prop := {
  op_view : fview s a w [] L;
  op_sb : f_sb s = sb;
  op_inv : fs_inv a sb live X;
  op_sync : synced a sb live X;
  op_live : live (i_inum ip);
  op_ip : f_inodes s !! i = Some ip;
  op_dev : i_dev ip = tx_dev;
  op_d : i_d ip = X (i_inum ip);
}.

(** ** Frames *)

Lemma blk_frame a a' x n : (∀ b, owns a x n b → a' (tx_dev, b) = a (tx_dev, b)) → ∀ bn, blk a' x bn = blk a x bn.
Proof.
  intros H bn. unfold blk. destruct (_ <? _); [done|]. destruct (Z.eqb_spec (ind x) 0); [done|].
  rewrite H; [done|]. by right.
Qed.

Lemma owns_frame a a' x n : (∀ b, owns a x n b → a' (tx_dev, b) = a (tx_dev, b)) → ∀ b, owns a' x n b ↔ owns a x n b.
Proof. intros H b. unfold owns. by setoid_rewrite (blk_frame a a' x n H). Qed.

Lemma file_frame a a' sb x n : file_ok a sb x n → (∀ b, owns a x n b → a' (tx_dev, b) = a (tx_dev, b)) →
  (∀ b, owns a x n b → used a' sb b = true) → file_ok a' sb x n.
Proof.
  intros F H Hu. pose proof (blk_frame _ _ _ _ H) as Hb. pose proof (fo_mapped _ _ _ _ F) as M. split.
  - split; try apply M. intros bn. rewrite Hb. apply M.
  - apply F.
  - intros bn. rewrite Hb. apply F.
  - intros bn bn'. rewrite !Hb. apply F.
  - intros bn. rewrite Hb. apply F.
  - intros b Ho%(owns_frame a); [|done]. destruct (fo_owned _ _ _ _ F b Ho) as (? & ? & ? & _). by auto.
Qed.

Lemma fbyte_frame a a' x n o : (∀ b, owns a x n b → a' (tx_dev, b) = a (tx_dev, b)) → 0 ≤ o → o / BS < n →
  fbyte a' x o = fbyte a x o.
Proof.
  intros H Ho Hn. assert (0 ≤ o / BS) by (apply Z.div_pos; [done|rewrite BS_val; lia]).
  unfold fbyte. rewrite (blk_frame _ _ _ _ H), H; [done|]. left. by exists (o / BS).
Qed.

Lemma fdata_frame a a' x : 0 ≤ di_size x → (∀ b, owns a x (nb x) b → a' (tx_dev, b) = a (tx_dev, b)) → fdata a' x = fdata a x.
Proof.
  intros Hs H. unfold fdata, content. apply list_fmap_ext. intros j y [-> Hj]%lookup_seq.
  eapply fbyte_frame; [exact H|lia|]. apply nblocks_covers. lia.
Qed.

(** Only the addresses of the inode matter. *)
Lemma blk_addrs a x y bn : di_addrs y = di_addrs x → blk a y bn = blk a x bn.
Proof. intros H. unfold blk, addr. by rewrite H. Qed.
Lemma owns_addrs a x y n b : di_addrs y = di_addrs x → owns a y n b ↔ owns a x n b.
Proof. intros H. unfold owns, addr. rewrite H. by setoid_rewrite (blk_addrs a x y _ H). Qed.

Lemma file_addrs a sb x y n : di_addrs y = di_addrs x → file_ok a sb x n → file_ok a sb y n.
Proof.
  intros H F. pose proof (fo_mapped _ _ _ _ F) as M. pose proof (λ bn, blk_addrs a x y bn H) as Hb.
  assert (Hi : ind y = ind x) by (unfold addr; by rewrite H). split.
  - split; rewrite ?H, ?Hi; try apply M. intros bn. rewrite Hb. apply M.
  - apply F.
  - intros bn. rewrite Hb. apply F.
  - intros bn bn'. rewrite !Hb. apply F.
  - intros bn. rewrite Hb, Hi. apply F.
  - intros b Ho%(owns_addrs a x); [|done]. by apply F.
Qed.

Lemma file_addrs_ok a sb x n : file_ok a sb x n → map_ok a sb → Forall (λ z, 0 ≤ z < 2 ^ 32) (di_addrs x).
Proof.
  intros F MO. pose proof (fo_mapped _ _ _ _ F) as M. pose proof (mo_size _ _ MO) as Hsz. unfold FSSIZE in Hsz.
  assert (Hown : ∀ z, z = 0 ∨ owns a x n z → 0 ≤ z < 2 ^ 32).
  { intros z [->|Ho]; [lia|]. apply (fo_owned _ _ _ _ F) in Ho. lia. }
  apply Forall_lookup. intros j z Hz. apply Hown. assert (Haz : addr x j = z) by (unfold addr; by rewrite Hz).
  assert (Hl : (j < S NDIRECT)%nat) by (rewrite <- (mp_len _ _ _ M); by eapply lookup_lt_Some).
  destruct (decide (j = NDIRECT)) as [->|Hj].
  { destruct (decide (z = 0)); [by left|]. right. right. by rewrite Haz. }
  assert (Hbj : blk a x (Z.of_nat j) = z).
  { unfold blk. rewrite (proj2 (Z.ltb_lt _ _)) by lia. by rewrite Nat2Z.id. }
  destruct (decide (Z.of_nat j < n)).
  - right. left. exists (Z.of_nat j). split; [lia|done].
  - left. rewrite <- Hbj. apply (fo_none _ _ _ _ F). unfold MAXFILE, NDIRECT in *. lia.
Qed.

(** ** One file changes *)

Definition upd X (i : Z) x : Z → dinode := λ j, if decide (j = i) then x else X j.

Lemma upd_eq X i x : upd X i x i = x.
Proof. unfold upd. by rewrite decide_True. Qed.
Lemma upd_ne X i x j : j ≠ i → upd X i x j = X j.
Proof. intros H. unfold upd. by rewrite decide_False. Qed.

Section extend.
Context a sb live X (I : fs_inv a sb live X) (i : Z) (Hi : live i).
Context a' x' n' (F' : file_ok a' sb x' n') (E : extends sb a (X i) (nb (X i)) a' x' n') (M' : map_ok a' sb).

Lemma extend_other b : 0 ≤ b → used a sb b = true → ¬ own a X i b → ¬ owns a' x' n' b.
Proof. intros Hb Hu Hn Ho. destruct (ex_new _ _ _ _ _ _ _ E b Ho) as [?|?]; [done|congruence]. Qed.

Lemma extend_frame j b : live j → j ≠ i → own a X j b → a' (tx_dev, b) = a (tx_dev, b).
Proof.
  intros Hj Hne Ho. destruct (fo_owned _ _ _ _ (fv_file _ _ _ _ I j Hj) b Ho) as (H1 & H2 & H3 & H4).
  apply (ex_same _ _ _ _ _ _ _ E); [done|]. apply extend_other; [lia|done|]. by apply (fv_disjoint _ _ _ _ I j i).
Qed.

Lemma extend_used b : 0 ≤ b → used a sb b = true → used a' sb b = true.
Proof. intros Hb Hu. apply (ex_used _ _ _ _ _ _ _ E); [done|by left]. Qed.

Lemma extend_inode j : live j → a' (tx_dev, IBLOCK j sb) = a (tx_dev, IBLOCK j sb).
Proof.
  intros Hj. destruct (fv_block _ _ _ _ I j Hj) as (H1 & H2 & H3 & H4). apply (ex_same _ _ _ _ _ _ _ E); [done|].
  apply extend_other; [lia|done|]. by apply (fv_meta _ _ _ _ I).
Qed.

(** The file has [n'] blocks and gets the size [sz]. *)
Lemma extend_inv sz : 0 ≤ sz ≤ MAXFILE * BS → n' = nblocks sz →
  fs_inv a' sb live (upd X i (x' <| di_size := sz |>)) ∧
  (∀ j, live j → j ≠ i → fdata a' (X j) = fdata a (X j)) ∧
  (∀ j, live j → inode_at a' sb j = inode_at a sb j).
Proof.
  intros Hsz Hn. set (y := x' <| di_size := sz |>).
  assert (Hother : ∀ j b, live j → j ≠ i → own a' (upd X i y) j b ↔ own a X j b).
  { intros j b Hj Hne. unfold own. rewrite upd_ne by done. apply owns_frame. intros c. by apply extend_frame. }
  assert (Hself : ∀ b, own a' (upd X i y) i b ↔ owns a' x' n' b).
  { intros b. unfold own. rewrite upd_eq. rewrite Hn. by apply owns_addrs. }
  assert (Hd : ∀ j b, live j → j ≠ i → owns a' x' n' b → ¬ own a X j b).
  { intros j b Hj Hne Ho Hoj. destruct (fo_owned _ _ _ _ (fv_file _ _ _ _ I j Hj) b Hoj) as (H1 & _ & _ & H4).
    apply (extend_other b); [lia|done| |done]. by apply (fv_disjoint _ _ _ _ I j i). }
  assert (Hm : ∀ j, live j → ¬ owns a' x' n' (IBLOCK j sb)).
  { intros j Hj. destruct (fv_block _ _ _ _ I j Hj) as (H1 & _ & _ & H4). apply extend_other; [lia|done|]. by apply (fv_meta _ _ _ _ I). }
  split_and!; [split| |].
  - done.
  - intros j Hj. destruct (decide (j = i)) as [->|Hne]; [rewrite upd_eq; change (nb y) with (nblocks sz); rewrite <- Hn; by apply (file_addrs _ _ x')|].
    rewrite upd_ne by done. pose proof (fv_file _ _ _ _ I j Hj) as Fj.
    eapply file_frame; [exact Fj|intros b; by apply extend_frame|]. intros b Ho.
    destruct (fo_owned _ _ _ _ Fj b Ho) as (H1 & _ & _ & H4). apply extend_used; [lia|done].
  - intros j Hj. destruct (decide (j = i)) as [->|Hne]; [by rewrite upd_eq|rewrite upd_ne by done; by apply I].
  - apply I.
  - intros j Hj. destruct (fv_block _ _ _ _ I j Hj) as (? & ? & ? & ?). split_and!; try done; try lia. apply extend_used; [lia|done].
  - intros j k Hj Hk. destruct (decide (k = i)) as [->|Hne]; [rewrite Hself; by apply Hm|rewrite Hother by done; by apply I].
  - intros j k b Hj Hk Hjk. destruct (decide (j = i)) as [->|Hj'], (decide (k = i)) as [->|Hk']; [done| | |].
    + rewrite Hself, Hother by done. by apply Hd.
    + rewrite Hself, Hother by done. intros H1 H2. by apply (Hd j b).
    + rewrite !Hother by done. by apply I.
  - intros j Hj. destruct (decide (j = i)) as [->|Hne]; [|rewrite upd_ne by done; by apply I].
    rewrite upd_eq. pose proof (fv_dinode _ _ _ _ I i Hj) as D. pose proof (file_addrs_ok _ _ _ _ F' M') as Ha.
    pose proof (mp_len _ _ _ (fo_mapped _ _ _ _ F')) as Hl. unfold y. rewrite (ex_x _ _ _ _ _ _ _ E).
    split; try apply D; simpl; try done. unfold MAXFILE, NDIRECT, BS, BSIZE in *. lia.
  - intros j Hj Hne. apply fdata_frame; [by apply I|]. intros b. by apply extend_frame.
  - intros j Hj. unfold inode_at. by rewrite extend_inode.
Qed.
End extend.

(** The inode is written to its block. *)
Definition put_inode a sb (i : Z) x : store :=
  store_set a (tx_dev, IBLOCK i sb) (put_dinode (a (tx_dev, IBLOCK i sb)) (dinode_off i) x).

Lemma put_inode_at a sb i x : full a → dinode_ok x → inode_at (put_inode a sb i x) sb i = x.
Proof.
  intros Hf Hx. unfold inode_at, put_inode. rewrite store_set_eq. apply get_put_dinode; [|done].
  rewrite Hf. apply dinode_off_bound.
Qed.

Lemma put_inode_other a sb i j x : full a → 0 ≤ i → 0 ≤ j → i ≠ j → length (di_addrs x) = S NDIRECT →
  inode_at (put_inode a sb i x) sb j = inode_at a sb j.
Proof.
  intros Hf Hi Hj Hne Hx. unfold inode_at, put_inode. destruct (decide (IBLOCK j sb = IBLOCK i sb)) as [He|He].
  - rewrite He, store_set_eq. apply get_other_dinode; [rewrite Hf; apply dinode_off_bound|done|].
    apply dinode_off_ne; [done|done| |done]. unfold IBLOCK in He. lia.
  - rewrite store_set_ne; [done|]. congruence.
Qed.

Lemma put_inode_inv a sb live X i x : fs_inv a sb live X → live i →
  fs_inv (put_inode a sb i x) sb live X ∧ ∀ j, live j → fdata (put_inode a sb i x) (X j) = fdata a (X j).
Proof.
  intros I Hi. destruct (fv_block _ _ _ _ I i Hi) as (Hb1 & Hb2 & Hb3 & Hb4).
  assert (Hfr : ∀ j b, live j → own a X j b → put_inode a sb i x (tx_dev, b) = a (tx_dev, b)).
  { intros j b Hj Ho. apply store_set_ne. intros [= ->]. by apply (fv_meta _ _ _ _ I i j). }
  assert (Hu : ∀ b, used (put_inode a sb i x) sb b = used a sb b) by (intros b; apply used_set; congruence).
  assert (Hown : ∀ j b, live j → own (put_inode a sb i x) X j b ↔ own a X j b).
  { intros j b Hj. apply owns_frame. intros c. by apply Hfr. }
  split.
  - split.
    + apply map_ok_set; [congruence|apply I].
    + intros j Hj. eapply file_frame; [by apply I|intros b; by apply Hfr|]. intros b Ho. rewrite Hu.
      by apply (fo_owned _ _ _ _ (fv_file _ _ _ _ I j Hj)).
    + apply I.
    + apply I.
    + intros j Hj. rewrite Hu. by apply I.
    + intros j k Hj Hk. rewrite Hown by done. by apply I.
    + intros j k b Hj Hk Hjk. rewrite !Hown by done. by apply I.
    + apply I.
  - intros j Hj. apply fdata_frame; [by apply I|]. intros b. by apply Hfr.
Qed.

(** Only blocks outside the log matter, so the invariant survives end_op(). *)
Lemma inv_home a a' sb live X : fs_inv a sb live X → (∀ b, tx_home b → a' (tx_dev, b) = a (tx_dev, b)) →
  fs_inv a' sb live X ∧ (∀ j, live j → inode_at a' sb j = inode_at a sb j ∧ fdata a' (X j) = fdata a (X j)).
Proof.
  intros I H. assert (Hu : ∀ b, used a' sb b = used a sb b) by (intros b; unfold used; rewrite H; [done|apply I]).
  assert (Hfr : ∀ j b, live j → own a X j b → a' (tx_dev, b) = a (tx_dev, b)).
  { intros j b Hj Ho. apply H. by apply (fo_owned _ _ _ _ (fv_file _ _ _ _ I j Hj) b). }
  assert (Hown : ∀ j b, live j → own a' X j b ↔ own a X j b).
  { intros j b Hj. apply owns_frame. intros c. by apply Hfr. }
  split; [|intros j Hj; split].
  - split; try apply I.
    + split; try apply I. intros b. rewrite Hu. apply (fv_map _ _ _ _ I).
    + intros j Hj. eapply file_frame; [by apply I|intros b; by apply Hfr|]. intros b Ho. rewrite Hu.
      by apply (fo_owned _ _ _ _ (fv_file _ _ _ _ I j Hj)).
    + intros j Hj. rewrite Hu. by apply I.
    + intros j k Hj Hk. rewrite Hown by done. by apply I.
    + intros j k b Hj Hk Hjk. rewrite !Hown by done. by apply I.
  - unfold inode_at. rewrite H; [done|]. by apply (fv_block _ _ _ _ I).
  - apply fdata_frame; [by apply I|]. intros b. by apply Hfr.
Qed.

(** An inode changes, but not its size or its blocks. *)
Lemma inv_attr a sb live X i x : fs_inv a sb live X → live i → dinode_ok x → di_addrs x = di_addrs (X i) → di_size x = di_size (X i) →
  fs_inv a sb live (upd X i x).
Proof.
  intros I Hi Hx Ha Hs. assert (Hnb : ∀ j, nb (upd X i x j) = nb (X j)).
  { intros j. unfold upd. case_decide; [|done]. subst. unfold nb. by rewrite Hs. }
  assert (Haddr : ∀ j, di_addrs (upd X i x j) = di_addrs (X j)) by (intros j; unfold upd; case_decide; congruence).
  assert (Hown : ∀ j b, own a (upd X i x) j b ↔ own a X j b) by (intros j b; unfold own; rewrite Hnb; by apply owns_addrs).
  split; try apply I.
  - intros j Hj. rewrite Hnb. eapply file_addrs; [apply Haddr|by apply I].
  - intros j Hj. unfold upd. case_decide; [subst; rewrite Hs; by apply I|by apply I].
  - intros j k Hj Hk. rewrite Hown. by apply I.
  - intros j k b Hj Hk Hjk. rewrite !Hown. by apply I.
  - intros j Hj. unfold upd. case_decide; [done|by apply I].
Qed.

Lemma fdata_attr a x y : di_addrs y = di_addrs x → di_size y = di_size x → fdata a y = fdata a x.
Proof.
  intros Ha Hs. unfold fdata, content. rewrite Hs. apply list_fmap_ext. intros k z _. unfold fbyte. by rewrite (blk_addrs _ x y).
Qed.
End inv.
