(* ===== verification/FsWritei.v ===== *)
(** * Writing files: bmap() with allocation, and writei() *)

From S2P Require Import Prelude Bytes Str Bio BioView Log Tx Fs FsBlock FsFile FsInv.

Section write.
Context {T : Type} `{!TxOps T} `{!TxLaws T}.
Implicit Types (s : fs T) (a : store) (x : dinode) (sb : superblock) (L : list Z).

(** At least [k] blocks are free. *)
Definition enough (k : nat) a sb : Prop :=
  ∃ Fr, NoDup Fr ∧ (k ≤ length Fr)%nat ∧ ∀ b, b ∈ Fr → 0 ≤ b < sb_size sb ∧ used a sb b = false.

Lemma enough_free k a sb : enough (S k) a sb → ∃ b, 0 ≤ b < sb_size sb ∧ used a sb b = false.
Proof. intros (Fr & _ & Hl & Hf). destruct Fr as [|b Fr]; simpl in Hl; [lia|]. exists b. apply Hf. set_solver. Qed.

Lemma enough_alloc k a a' sb b : enough (S k) a sb → (∀ c, 0 ≤ c → used a' sb c = bool_decide (c = b) || used a sb c) →
  enough k a' sb.
Proof.
  intros (Fr & Hnd & Hl & Hf) Hu. exists (without b Fr). split_and!.
  - by apply NoDup_without.
  - destruct (decide (b ∈ Fr)) as [Hin|Hn].
    + pose proof (Permutation_length (without_perm b Fr Hnd Hin)) as Hp. simpl in Hp. lia.
    + rewrite without_not_in by done. lia.
  - intros c [Hne Hc]%elem_of_without. destruct (Hf c Hc) as [Hr Hfr]. split; [done|].
    rewrite Hu by lia. rewrite bool_decide_false by done. done.
Qed.

Lemma enough_weaken k k' a sb : (k' ≤ k)%nat → enough k a sb → enough k' a sb.
Proof. intros Hk (Fr & Hnd & Hl & Hf). exists Fr. split_and!; [done|lia|done]. Qed.

(** balloc() when there is a free block. *)
Lemma wp_balloc s a held L k sb (Q : Z → fs T → Prop) :
  fview s a true held L → f_sb s = sb → map_ok a sb → enough (S k) a sb → (tx_dev, bm sb) ∉ held.*2 →
  (∀ i c, (i, (tx_dev, c)) ∈ held → used a sb c = true) → (length L + length held + 2 ≤ tx_cap)%nat →
  (∀ b s', 0 ≤ b < sb_size sb → used a sb b = false → fview s' (allocated a sb b) true held (logged (logged L (bm sb)) b) →
     enough k (allocated a sb b) sb → f_sb s' = sb → f_inodes s' = f_inodes s → Q b s') →
  wp (balloc tx_dev) Q s.
Proof.
  intros V <- MO He Hh Hu Hcap HQ. eapply balloc_spec; [exact V|done|done| |done|by eapply enough_free|].
  - intros b Hb Hf ([i k'] & Hk & Hin)%list_elem_of_fmap. simpl in Hk. subst k'. apply Hu in Hin. congruence.
  - intros b s' Hb Hf _ V' E' F'. apply HQ; try done. eapply enough_alloc; [exact He|]. intros c Hc.
    apply alloc_used; [done|by eapply tx_full|done|done|done].
Qed.

(** Installing an address in the inode. *)
Lemma wp_set_addr s i ip j v (Q : unit → fs T → Prop) :
  f_inodes s !! i = Some ip →
  (∀ s', s' = s <| f_inodes := <[i := ip <| i_d := (i_d ip) <| di_addrs ::= <[j := v]> |> |>]> (f_inodes s) |> → Q tt s') →
  wp (set_addr i j v) Q s.
Proof. intros Hi HQ. unfold set_addr. eapply wp_wri; [done|]. apply HQ. destruct s, ip. done. Qed.

Lemma elem_logged2 L b c y : y ∈ logged (logged L b) c ↔ y ∈ L ∨ y = b ∨ y = c.
Proof. rewrite !elem_of_logged. tauto. Qed.
Lemma length_logged2 L b c : (length (logged (logged L b) c) ≤ length L + 2)%nat.
Proof. pose proof (length_logged (logged L b) c). pose proof (length_logged L b). lia. Qed.

(** ** bmap() of the next block *)

(** The effect of bmap() on the store, the inode and the log. *)
Record grown sb a x nb (bn : Z) L a' x' nb' L' : Prop := {
  gr_file : file_ok a' sb x' nb';
  gr_ext : extends sb a x nb a' x' nb';
  gr_map : map_ok a' sb;
  gr_nb : nb' = Z.max nb (bn + 1);
  gr_data : ∀ c, 0 ≤ c < nb → a' (tx_dev, blk a x c) = a (tx_dev, blk a x c);
  gr_log : ∀ c, c ∈ L' → c ∈ L ∨ c = bm sb ∨ (c = ind x' ∧ c ≠ 0) ∨ c = blk a' x' bn;
  gr_ind : ind x ≠ 0 → ind x' = ind x;
  gr_same : bn < nb → x' = x;
}.

Definition with_d (i : nat) (ip : inode) x' (l : list inode) : list inode := <[i := ip <| i_d := x' |>]> l.

Lemma alloc_data a sb x nb b c : file_ok a sb x nb → used a sb b = false → 0 ≤ c < nb →
  allocated a sb b (tx_dev, blk a x c) = a (tx_dev, blk a x c).
Proof.
  intros F Hu Hc. assert (Ho : owns a x nb (blk a x c)) by (left; by exists c).
  apply (fo_owned _ _ _ _ F) in Ho as (_ & _ & H1 & H2). apply alloc_at_other; congruence.
Qed.

(** The end of bmap() for an indirect block: entry [nb - NDIRECT] is empty. *)
Definition bmap_tail (dev addr : Z) (bn : Z) : M (fs T) Z :=
  bp ← ft (tx_bread dev addr);
  a ← ft (tx_data bp);
  addr ← (if get_le 4 a (4 * Z.to_nat bn) =? 0 then
            addr ← balloc dev;
            a ← ft (tx_data bp);
            ft (tx_update bp (put_le 4 a (4 * Z.to_nat bn) addr));;
            mret addr
          else mret (get_le 4 a (4 * Z.to_nat bn)));
  ft (tx_brelse bp);;
  mret addr.

Lemma bmap_tail_spec s a L i ip sb nb k (Q : Z → fs T → Prop) :
  fview s a true [] L → f_inodes s !! i = Some ip → f_sb s = sb → file_ok a sb (i_d ip) nb → map_ok a sb →
  Z.of_nat NDIRECT ≤ nb < MAXFILE → ind (i_d ip) ≠ 0 → enough (S k) a sb →
  ind (i_d ip) ∈ L ∨ (length L ≤ tx_cap)%nat → (length L + 3 ≤ tx_cap)%nat →
  (∀ s' a' L', fview s' a' true [] L' → f_sb s' = sb → f_inodes s' = f_inodes s →
     grown sb a (i_d ip) nb nb L a' (i_d ip) (nb + 1) L' → enough k a' sb → Q (blk a' (i_d ip) nb) s') →
  wp (bmap_tail tx_dev (ind (i_d ip)) (nb - Z.of_nat NDIRECT)) Q s.
Proof.
  intros V Hi Hsb F MO Hnb Hind He Hor Hcap HQ. assert (Hf : full a) by (by eapply tx_full).
  assert (Ho : owns a (i_d ip) nb (ind (i_d ip))) by (by right).
  pose proof (fo_owned _ _ _ _ F _ Ho) as (Hr & Hhome & Hbm & Huse). pose proof (mo_size _ _ MO) as Hsz.
  unfold bmap_tail. apply wp_bind. eapply wp_fbread; [exact V|lia|set_solver|by rewrite Nat.add_0_r|]. intros bp s1 V1 E1 F1.
  apply wp_bind. eapply wp_fdata; [exact V1|by left|].
  assert (Hz : get_le 4 (a (tx_dev, ind (i_d ip))) (4 * Z.to_nat (nb - Z.of_nat NDIRECT)) = 0).
  { pose proof (fo_none _ _ _ _ F nb ltac:(lia)) as Hn. unfold blk in Hn.
    rewrite (proj2 (Z.ltb_ge _ _)), (proj2 (Z.eqb_neq (ind (i_d ip)) 0)) in Hn by lia. exact Hn. }
  rewrite Hz. simpl (0 =? 0). apply wp_bind, wp_bind.
  eapply (wp_balloc _ a _ L k sb); [exact V1|congruence|done|done| | |simpl; lia|].
  { simpl. intros [= He']%list_elem_of_singleton. congruence. }
  { intros j c [= _ ->]%list_elem_of_singleton. done. }
  intros b s2 Hb Hbf V2 He2 E2 F2. apply wp_bind. eapply wp_fdata; [exact V2|by left|].
  rewrite alloc_at_other by congruence.
  destruct (grow_indirect a sb (i_d ip) nb b F MO Hf Hb Hbf Hind Hnb) as (G1 & G2 & G3 & G4 & G5 & G6).
  apply wp_bind. eapply wp_fupdate; [exact V2|by left|done| | |].
  { rewrite length_put_le; [apply Hf|]. rewrite Hf. unfold BSIZE, MAXFILE, NDIRECT in *. lia. }
  { pose proof (length_logged2 L (bm sb) b). lia. }
  intros s3 V3 E3 F3. apply wp_ret. apply wp_bind. eapply (wp_fbrelse _ _ _ []); [exact V3|]. intros s4 V4 E4 F4.
  rewrite <- G3 at 1. apply wp_ret. eapply HQ; [exact V4|congruence|congruence| |].
  - split; [exact G1|exact G2|exact G5|lia| | | |done].
    + intros c Hc. rewrite store_set_ne.
      * by apply (alloc_data a sb (i_d ip) nb).
      * intros [= Hc']. destruct (fo_ind _ _ _ _ F c Hc); congruence.
    + intros c. rewrite elem_of_logged, elem_logged2, G3. intros [[?|[?|?]]| ->]; tauto.
    + done.
  - eapply enough_weaken; [|]; [reflexivity|]. destruct He2 as (Fr & H1 & H2 & H3). exists Fr. split_and!; [done|done|].
    intros c Hc. destruct (H3 c Hc). split; [done|]. by rewrite used_set by congruence.
Qed.

Lemma bmap_next s a L i ip sb nb k (Q : Z → fs T → Prop) :
  fview s a true [] L → f_inodes s !! i = Some ip → i_dev ip = tx_dev → f_sb s = sb → file_ok a sb (i_d ip) nb →
  map_ok a sb → nb < MAXFILE → (length L + 5 ≤ tx_cap)%nat → enough (S (S k)) a sb →
  (∀ s' a' x' L', fview s' a' true [] L' → f_sb s' = sb → f_inodes s' = with_d i ip x' (f_inodes s) →
     grown sb a (i_d ip) nb nb L a' x' (nb + 1) L' → enough k a' sb → Q (blk a' x' nb) s') →
  wp (bmap i nb) Q s.
Proof.
  intros V Hi Hd Hsb F MO Hmax Hcap He HQ. assert (Hf : full a) by (by eapply tx_full).
  pose proof (fo_nb _ _ _ _ F) as Hnb0. pose proof (fo_mapped _ _ _ _ F) as M.
  assert (Hlt : (i < length (f_inodes s))%nat) by (by eapply lookup_lt_Some).
  unfold bmap. apply wp_bind. eapply wp_rdi; [done|]. rewrite Hd.
  destruct (Z.ltb_spec nb (Z.of_nat NDIRECT)) as [Hdir|Hge].
  - apply wp_bind. eapply wp_get_addr; [done|apply M|lia|].
    assert (Hz : addr (i_d ip) (Z.to_nat nb) = 0).
    { pose proof (fo_none _ _ _ _ F nb ltac:(lia)) as Hn. unfold blk in Hn. by rewrite (proj2 (Z.ltb_lt _ _)) in Hn by lia. }
    rewrite Hz. simpl (0 =? 0). apply wp_bind.
    eapply (wp_balloc _ a _ L (S k) sb); [exact V|done|done|done|set_solver|set_solver|simpl; lia|].
    intros b s1 Hb Hbf V1 He1 E1 F1. apply wp_bind. eapply wp_set_addr; [by rewrite F1|]. intros s2 ->.
    destruct (grow_direct a sb (i_d ip) nb b F MO Hf Hb Hbf Hdir) as (G1 & G2 & G3).
    rewrite <- G3 at 1. apply wp_ret. eapply HQ; [exact V1|done|by rewrite <- F1| |by eapply enough_weaken; [|exact He1]; lia].
    split; [exact G1|exact G2|by apply alloc_map|lia|intros c Hc; by apply (alloc_data a sb (i_d ip) nb)| | |lia].
    + intros c. rewrite elem_logged2, G3. tauto.
    + intros _. rewrite addr_insert, decide_False by (apply M || lia). done.
  - unfold NINDIRECT. rewrite (proj2 (Z.ltb_lt _ _)) by (unfold MAXFILE, NDIRECT in *; lia).
    apply wp_bind. eapply wp_get_addr; [done|apply M|lia|].
    destruct (Z.eqb_spec (ind (i_d ip)) 0) as [Hi0|Hi0].
    + apply wp_bind, wp_bind. eapply (wp_balloc _ a _ L (S k) sb); [exact V|done|done|done|set_solver|set_solver|simpl; lia|].
      intros b s1 Hb Hbf V1 He1 E1 F1. apply wp_bind. eapply wp_set_addr; [by rewrite F1|]. intros s2 ->. apply wp_ret.
      destruct (grow_ind a sb (i_d ip) nb b F MO Hf Hb Hbf Hi0) as (G1 & G2 & G3).
      destruct (alloc_ne a sb b MO Hb Hbf) as (Hbb & Hb0 & _).
      set (ip1 := ip <| i_d := (i_d ip) <| di_addrs ::= <[NDIRECT := b]> |> |>) in *.
      change (wp (bmap_tail tx_dev b (nb - Z.of_nat NDIRECT)) Q (s1 <| f_inodes := <[i := ip1]> (f_inodes s1) |>)).
      rewrite <- G3. pose proof (length_logged2 L (bm sb) b).
      eapply (bmap_tail_spec _ (allocated a sb b) (logged (logged L (bm sb)) b) i ip1 sb nb k); [exact V1| |done|exact G1|by apply alloc_map|lia|simpl; congruence|done| |lia|].
      { simpl. apply list_lookup_insert_eq. by rewrite F1. }
      { left. simpl. rewrite G3. apply elem_of_logged. by right. }
      intros s3 a3 L3 V3 E3 F3 G He3. eapply HQ; [exact V3|done|rewrite F3; simpl; by rewrite F1| |done].
      destruct G as [H1 H2 H3 H4 H5 H6 H7 _]. split; [exact H1| |exact H3|lia| | |done|lia].
      * eapply extends_trans; [|exact G2|exact H2|]; intros c Hc; [apply (fo_owned _ _ _ _ G1) in Hc|apply (fo_owned _ _ _ _ H1) in Hc]; lia.
      * intros c Hc. rewrite <- (alloc_data a sb (i_d ip) nb b c F Hbf Hc).
        rewrite <- (ex_blk _ _ _ _ _ _ _ G2 c Hc). by apply H5.
      * intros c Hc. apply H6 in Hc. rewrite elem_logged2 in Hc. simpl in *. rewrite G3 in *. naive_solver.
    + apply wp_bind, wp_ret.
      change (wp (bmap_tail tx_dev (ind (i_d ip)) (nb - Z.of_nat NDIRECT)) Q s).
      eapply (bmap_tail_spec _ a L i ip sb nb k); [exact V|done|done|done|done|lia|done|by eapply enough_weaken; [|exact He]; lia|right; lia|lia|].
      intros s3 a3 L3 V3 E3 F3 G He3. eapply HQ; [exact V3|done| |exact G|done].
      rewrite F3. unfold with_d. rewrite list_insert_id; [done|]. rewrite Hi. by destruct ip.
Qed.

(** ** Data written into a block of the file *)

Lemma write_data a sb x nb bn d :
  file_ok a sb x nb → map_ok a sb → 0 ≤ bn < nb →
  let a' := store_set a (tx_dev, blk a x bn) d in
  (∀ c, 0 ≤ c < nb → blk a' x c = blk a x c) ∧ file_ok a' sb x nb ∧ extends sb a x nb a' x nb ∧ map_ok a' sb.
Proof.
  intros F MO Hbn a'. pose proof (fo_mapped _ _ _ _ F) as M.
  assert (Ho : owns a x nb (blk a x bn)) by (left; by exists bn).
  pose proof (fo_owned _ _ _ _ F _ Ho) as (Hr & Hh & Hbm & Hu).
  assert (Hblk : ∀ c, blk a' x c = blk a x c).
  { intros c. unfold blk. destruct (_ <? _); [done|]. destruct (Z.eqb_spec (ind x) 0); [done|].
    unfold a'. rewrite store_set_ne; [done|]. intros [= He]. destruct (fo_ind _ _ _ _ F bn Hbn); congruence. }
  assert (Hown : ∀ c, owns a' x nb c ↔ owns a x nb c).
  { intros c. unfold owns. by setoid_rewrite Hblk. }
  assert (Hused : ∀ c, used a' sb c = used a sb c) by (intros c; apply used_set; congruence).
  split; [intros c _; apply Hblk|]. split_and!; [split|split|apply map_ok_set; [congruence|done]]; try done; try apply F.
  - split; try apply M. intros c Hc. rewrite Hblk. by apply M.
  - intros c Hc. rewrite Hblk. by apply F.
  - intros c c' Hc Hc'. rewrite !Hblk. by apply F.
  - intros c Hc. rewrite Hblk. by apply F.
  - intros c Hc. rewrite Hused. apply F. by apply Hown.
  - intros c Hc. by apply Hown.
  - intros c Hc. left. by apply Hown.
  - intros c Hc. rewrite Hused, Hown. split; [by left|]. intros [?|Hoc]; [done|]. by apply F.
  - intros c Hc Hn. unfold a'. apply store_set_ne. intros [= ->]. by apply Hn, Hown.
  - intros k Hk. unfold a'. apply store_set_ne. intros ->. by apply Hk.
  - by destruct x.
Qed.

Lemma fbyte_write a sb x nb bn d o :
  file_ok a sb x nb → 0 ≤ bn < nb → 0 ≤ o → o / BS < nb → (∀ c, 0 ≤ c < nb → blk (store_set a (tx_dev, blk a x bn) d) x c = blk a x c) →
  fbyte (store_set a (tx_dev, blk a x bn) d) x o =
    if decide (o / BS = bn) then default 0 (d !! Z.to_nat (o mod BS)) else fbyte a x o.
Proof.
  intros F Hbn Ho Hob Hblk. assert (0 ≤ o / BS) by (apply Z.div_pos; [done|rewrite BS_val; lia]).
  unfold fbyte. rewrite Hblk by lia. case_decide as Hd; [subst bn; by rewrite store_set_eq|].
  rewrite store_set_ne; [done|]. intros [= He]. apply Hd. eapply (fo_inj _ _ _ _ F); [lia|lia|done].
Qed.

(** Bytes of a file that was extended. *)
Lemma fbyte_grown sb a x nb bn L a' x' nb' L' o :
  grown sb a x nb bn L a' x' nb' L' → 0 ≤ o → o / BS < nb → fbyte a' x' o = fbyte a x o.
Proof.
  intros G Ho Hob. assert (0 ≤ o / BS) by (apply Z.div_pos; [done|rewrite BS_val; lia]).
  unfold fbyte. rewrite (ex_blk _ _ _ _ _ _ _ (gr_ext _ _ _ _ _ _ _ _ _ _ G)) by lia.
  by rewrite (gr_data _ _ _ _ _ _ _ _ _ _ G) by lia.
Qed.

(** bmap() of a block of the file or the next one. *)
Lemma bmap_spec s a L i ip sb nb bn k (Q : Z → fs T → Prop) :
  fview s a true [] L → f_inodes s !! i = Some ip → i_dev ip = tx_dev → f_sb s = sb → file_ok a sb (i_d ip) nb →
  map_ok a sb → 0 ≤ bn ≤ nb → bn < MAXFILE → (length L + 5 ≤ tx_cap)%nat → enough (S (S k)) a sb →
  (∀ s' a' x' nb' L', fview s' a' true [] L' → f_sb s' = sb → f_inodes s' = with_d i ip x' (f_inodes s) →
     grown sb a (i_d ip) nb bn L a' x' nb' L' → enough k a' sb → Q (blk a' x' bn) s') →
  wp (bmap i bn) Q s.
Proof.
  intros V Hi Hd Hsb F MO Hbn Hmax Hcap He HQ. destruct (decide (bn = nb)) as [->|Hne].
  - eapply bmap_next; [exact V|done|done|done|exact F|done|done|done|exact He|].
    intros s' a' x' L' V' E' F' G He'. by eapply HQ.
  - eapply (bmap_mapped s a true [] L i ip nb bn); [exact V|done|done|apply F|lia|set_solver|simpl; lia|].
    intros s' V' E' F'. eapply (HQ _ _ (i_d ip) nb L); [exact V'|congruence| | |eapply enough_weaken; [|exact He]; lia].
    + rewrite F'. unfold with_d. rewrite list_insert_id; [done|]. rewrite Hi. by destruct ip.
    + split; [done|by apply extends_refl|done|lia|done|by left|done|done].
Qed.
End write.

(** ** writei() *)

Section writei.
Context {T : Type} `{!TxOps T} `{!TxLaws T}.
Implicit Types (s : fs T) (a : store) (x : dinode) (sb : superblock) (L : list Z).

Definition byte_at (l : list Z) (j : Z) : Z := default 0 (l !! Z.to_nat j).

Lemma with_d_same i ip (l : list inode) : l !! i = Some ip → with_d i ip (i_d ip) l = l.
Proof. intros Hi. unfold with_d. rewrite list_insert_id; [done|]. rewrite Hi. by destruct ip. Qed.

(** What writing [src] at [off] does to a file: the bytes written are there,
    the others are as before. *)
Record written sb a x nb (off : Z) (src : list Z) a' x' nb' : Prop := {
  wt_file : file_ok a' sb x' nb';
  wt_ext : extends sb a x nb a' x' nb';
  wt_map : map_ok a' sb;
  wt_nb : nb' = Z.max nb (nblocks (off + Z.of_nat (length src)));
  wt_in : ∀ o, off ≤ o < off + Z.of_nat (length src) → fbyte a' x' o = byte_at src (o - off);
  wt_out : ∀ o, 0 ≤ o → o / BS < nb → o < off ∨ off + Z.of_nat (length src) ≤ o → fbyte a' x' o = fbyte a x o;
  wt_x : nb' = nb → x' = x;
}.

(** The blocks a transaction has logged: those it had before, the free map,
    the indirect block and the data blocks [D]. *)
Definition logs_only L0 L sb x (D : list Z) : Prop :=
  ∀ c, c ∈ L → c ∈ L0 ∨ c = bm sb ∨ (c = ind x ∧ c ≠ 0) ∨ c ∈ D.

Lemma logs_length L0 L sb x D : NoDup L → logs_only L0 L sb x D → (length L ≤ length L0 + 2 + length D)%nat.
Proof.
  intros Hnd Hl. transitivity (length (L0 ++ [bm sb; ind x] ++ D)); [|rewrite !length_app; simpl; lia].
  apply submseteq_length, NoDup_submseteq; [done|]. intros c Hc. destruct (Hl c Hc) as [?|[?|[[? _]|?]]]; set_solver.
Qed.

Lemma owns_pos a sb x nb b : file_ok a sb x nb → owns a x nb b → 0 ≤ b.
Proof. intros F Ho. apply (fo_owned _ _ _ _ F) in Ho. lia. Qed.

Lemma nblocks_bound off nb : 0 ≤ off → off ≤ nb * BS → nblocks off ≤ nb.
Proof. unfold nblocks. rewrite BS_val. intros H1 H2. apply Z.lt_succ_r, Z.div_lt_upper_bound; lia. Qed.

(** One chunk, of [m] bytes within block [off / BS]. *)
Lemma chunk_bytes a x sb nb off (m : nat) (src : list Z) o d :
  file_ok a sb x nb → full a → 0 ≤ off → off mod BS + Z.of_nat m ≤ BS → (m ≤ length src)%nat → off / BS < nb →
  d = splice (a (tx_dev, blk a x (off / BS))) (Z.to_nat (off mod BS)) (take m src) →
  0 ≤ o → o / BS < nb →
  let a' := store_set a (tx_dev, blk a x (off / BS)) d in
  (∀ c, 0 ≤ c < nb → blk a' x c = blk a x c) →
  fbyte a' x o = if bool_decide (off ≤ o < off + Z.of_nat m) then byte_at src (o - off) else fbyte a x o.
Proof.
  intros F Hf Hoff Hm Hsrc Hbn -> Ho Hob a' Hblk. rewrite BS_val in *.
  pose proof (Z.mod_pos_bound off 512). pose proof (Z.mod_pos_bound o 512). pose proof (Z.div_mod off 512). pose proof (Z.div_mod o 512).
  assert (Hlen : (Z.to_nat (off mod 512) + length (take m src) ≤ length (a (tx_dev, blk a x (off / 512))))%nat).
  { rewrite Hf, length_take. unfold BSIZE. lia. }
  assert (Htl : length (take m src) = m) by (rewrite length_take; lia).
  unfold a'. rewrite (fbyte_write a sb x nb); rewrite ?BS_val; try done; [|split; [apply Z.div_pos; lia|done]].
  destruct (decide (o / 512 = off / 512)) as [He|Hne].
  - case_bool_decide as Hin.
    + rewrite lookup_splice_in by (rewrite ?Htl; lia). rewrite lookup_take_lt by lia. unfold byte_at. do 2 f_equal. lia.
    + rewrite lookup_splice_out by (rewrite ?Htl; lia). unfold fbyte. rewrite BS_val, He. done.
  - rewrite bool_decide_false; [done|]. intros Hin. apply Hne. apply Z.div_unique with (o mod 512); [left; lia|].
    assert (o / 512 = off / 512); [|lia]. symmetry. apply Z.div_unique with (o - 512 * (off / 512)); [left; lia|lia].
Qed.

Lemma extends_ok_trans sb a1 x1 nb1 a2 x2 nb2 a3 x3 nb3 : file_ok a2 sb x2 nb2 → file_ok a3 sb x3 nb3 →
  extends sb a1 x1 nb1 a2 x2 nb2 → extends sb a2 x2 nb2 a3 x3 nb3 → extends sb a1 x1 nb1 a3 x3 nb3.
Proof. intros F2 F3 E1 E2. eapply extends_trans; [|exact E1|exact E2|]; intros b; by eapply owns_pos. Qed.

Lemma written_nil sb a x nb off : file_ok a sb x nb → map_ok a sb → 0 ≤ off ≤ nb * BS → written sb a x nb off [] a x nb.
Proof.
  intros F MO Ho. split; [done|by apply extends_refl|done| |simpl; lia|done|done].
  rewrite Z.add_0_r. pose proof (nblocks_bound off nb). lia.
Qed.

(** A chunk of [m] bytes written after bmap(), then the rest. *)
Lemma written_step sb a x nb off m src L a1 x1 nb1 L1 a2 a3 x3 nb3 :
  0 ≤ off ≤ nb * BS → 0 < m → off mod BS + m ≤ BS → m ≤ Z.of_nat (length src) →
  grown sb a x nb (off / BS) L a1 x1 nb1 L1 → file_ok a2 sb x1 nb1 → extends sb a1 x1 nb1 a2 x1 nb1 →
  (∀ o, 0 ≤ o → o / BS < nb1 → fbyte a2 x1 o =
     if bool_decide (off ≤ o < off + m) then byte_at src (o - off) else fbyte a1 x1 o) →
  written sb a2 x1 nb1 (off + m) (drop (Z.to_nat m) src) a3 x3 nb3 → written sb a x nb off src a3 x3 nb3.
Proof.
  intros Hoff Hm Hmod Hlen G WF WE Hchunk [TF TE TM Tnb Tin Tout Tx]. rewrite length_drop in *.
  pose proof G as [GF GE GM Gnb _ _ _ Gx]. pose proof (Z.mod_pos_bound off BS ltac:(done)). pose proof (Z.div_mod off BS ltac:(done)).
  replace (off + m + Z.of_nat (length src - Z.to_nat m)) with (off + Z.of_nat (length src)) in * by lia.
  assert (Hcov : off + m ≤ nb1 * BS).
  { transitivity ((off / BS + 1) * BS); [rewrite BS_val in *; lia|]. apply Z.mul_le_mono_nonneg_r; [done|lia]. }
  assert (Hnbs : nb3 = Z.max nb (nblocks (off + Z.of_nat (length src)))).
  { rewrite Tnb, Gnb. pose proof (nblocks_covers off (off + Z.of_nat (length src)) ltac:(lia)). lia. }
  split; [done| |done|done| | |].
  - eapply extends_ok_trans; [exact GF|exact TF|exact GE|]. by eapply (extends_ok_trans _ a1 x1 nb1 a2).
  - intros o Ho. destruct (decide (o < off + m)).
    + assert (o / BS < nb1) by (apply Z.div_lt_upper_bound; [done|lia]).
      rewrite Tout, Hchunk by (done || lia). by rewrite bool_decide_true by lia.
    + rewrite Tin by lia. unfold byte_at. rewrite lookup_drop. do 2 f_equal. lia.
  - intros o Ho Hob Hor. rewrite Tout by lia. rewrite Hchunk, bool_decide_false by lia. by eapply fbyte_grown.
  - intros ->. assert (nb1 = nb) as -> by lia. by rewrite Tx, Gx by lia.
Qed.

Lemma writei_loop_spec fuel s a L L0 D i ip sb nb src off n tot k (Q : unit → fs T → Prop) :
  fview s a true [] L → f_inodes s !! i = Some ip → i_dev ip = tx_dev → f_sb s = sb → file_ok a sb (i_d ip) nb → map_ok a sb →
  0 ≤ off ≤ nb * BS → Z.of_nat (length src) = n - tot → off + (n - tot) ≤ MAXFILE * BS →
  (tot < n → (n - tot) + off mod BS ≤ Z.of_nat fuel * BS) →
  logs_only L0 L sb (i_d ip) D → (length L0 + length D + fuel + 6 ≤ tx_cap)%nat → enough (2 * fuel + k) a sb →
  (∀ s' a' x' nb' L' D', fview s' a' true [] L' → f_sb s' = sb → f_inodes s' = with_d i ip x' (f_inodes s) →
     written sb a (i_d ip) nb off src a' x' nb' → enough k a' sb → logs_only L0 L' sb x' D' →
     (length D' ≤ length D + fuel)%nat → Q tt s') →
  wp (write_loop fuel i src off n tot) Q s.
Proof.
  revert s a L D ip nb src off tot. induction fuel as [|fuel IH];
    intros s a L D ip nb src off tot V Hi Hd Hsb F MO Hoff Hsrc Hmax Hfuel Hlog Hcap He HQ;
    cbn [write_loop]; (destruct (Z.ltb_spec tot n) as [Hlt|Hge];
      [|assert (src = []) as -> by (destruct src; [done|simpl in Hsrc; lia]); apply wp_ret;
        eapply (HQ s a (i_d ip) nb L D);
          [exact V|done|by rewrite with_d_same|by apply written_nil|eapply enough_weaken; [|exact He]; lia|done|lia]]).
  { exfalso. specialize (Hfuel Hlt). pose proof (Z.mod_pos_bound off BS ltac:(done)). lia. }
  change (Z.of_nat BSIZE) with BS. apply wp_bind. eapply wp_rdi; [done|].
  assert (Hnd : NoDup L) by (by eapply tx_logged). pose proof (logs_length _ _ _ _ _ Hnd Hlog) as HlL.
  pose proof (Z.mod_pos_bound off BS ltac:(done)) as Hmod. pose proof (Z.div_mod off BS ltac:(done)) as Hdm.
  assert (Hbn : 0 ≤ off / BS ≤ nb ∧ off / BS < MAXFILE).
  { rewrite BS_val in *. unfold MAXFILE in *. split_and!; [apply Z.div_pos; lia|apply Z.lt_succ_r, Z.div_lt_upper_bound; lia|].
    apply Z.div_lt_upper_bound; lia. }
  apply wp_bind. eapply (bmap_spec s a L i ip sb nb (off / BS) (2 * fuel + k)); [exact V|done|done|done|exact F|done|lia|lia|lia| |].
  { eapply enough_weaken; [|exact He]. lia. }
  intros s1 a1 x1 nb1 L1 V1 E1 F1 G He1. pose proof G as [GF GE GM Gnb Gdat Glog Gind _]. rewrite Hd.
  assert (Hb1 : 0 ≤ off / BS < nb1) by lia.
  assert (Ho1 : owns a1 x1 nb1 (blk a1 x1 (off / BS))) by (left; by exists (off / BS)).
  pose proof (fo_owned _ _ _ _ GF _ Ho1) as (Hr1 & Hh1 & _ & _). pose proof (mo_size _ _ GM) as Hsz1.
  assert (Hlog1 : logs_only L0 L1 sb x1 (blk a1 x1 (off / BS) :: D)).
  { intros c Hc. destruct (Glog c Hc) as [Hc'|[?|[?| ->]]]; [|by auto|by auto|right; right; right; by left].
    destruct (Hlog c Hc') as [?|[?|[[-> Hn0]|?]]]; [by auto|by auto|right; right; left; by rewrite Gind|right; right; right; by right]. }
  assert (Hnd1 : NoDup L1) by (by eapply tx_logged). pose proof (logs_length _ _ _ _ _ Hnd1 Hlog1) as HlL1. simpl in HlL1.
  apply wp_bind. eapply wp_fbread; [exact V1|lia|set_solver|right; simpl; lia|]. intros bp s2 V2 E2 F2.
  apply wp_bind. eapply wp_fdata; [exact V2|by left|].
  set (m := Z.min (n - tot) (BS - off mod BS)).
  assert (Hm : 0 < m ∧ m ≤ n - tot ∧ off mod BS + m ≤ BS) by (unfold m; lia).
  assert (Hf1 : full a1) by (by eapply tx_full).
  set (d := splice (a1 (tx_dev, blk a1 x1 (off / BS))) (Z.to_nat (off mod BS)) (take (Z.to_nat m) src)).
  destruct (write_data a1 sb x1 nb1 (off / BS) d GF GM Hb1) as (Wblk & WF & WE & WM).
  apply wp_bind. eapply wp_fupdate; [exact V2|by left|done| |lia|].
  { unfold d. rewrite length_splice; [apply Hf1|]. rewrite Hf1, length_take. rewrite BS_val in *. unfold BSIZE. lia. }
  intros s3 V3 E3 F3. apply wp_bind. eapply (wp_fbrelse _ _ _ []); [exact V3|]. intros s4 V4 E4 F4.
  set (a2 := store_set a1 (tx_dev, blk a1 x1 (off / BS)) d) in *.
  assert (Hchunk : ∀ o, 0 ≤ o → o / BS < nb1 → fbyte a2 x1 o =
    if bool_decide (off ≤ o < off + m) then byte_at src (o - off) else fbyte a1 x1 o).
  { intros o Ho Hob. pose proof (chunk_bytes a1 x1 sb nb1 off (Z.to_nat m) src o d GF Hf1 ltac:(lia) ltac:(lia) ltac:(lia) ltac:(lia) eq_refl Ho Hob Wblk) as Hc.
    rewrite Z2Nat.id in Hc by lia. exact Hc. }
  assert (Hcov : off + m ≤ nb1 * BS).
  { transitivity ((off / BS + 1) * BS); [rewrite BS_val in *; lia|]. apply Z.mul_le_mono_nonneg_r; [done|lia]. }
  eapply (IH s4 a2 (logged L1 (blk a1 x1 (off / BS))) (blk a1 x1 (off / BS) :: D) (ip <| i_d := x1 |>) nb1);
    [exact V4| |done|congruence|exact WF|exact WM|lia|rewrite length_drop; lia|lia| | |simpl; lia| |].
  - rewrite F4, F3, F2, F1. apply list_lookup_insert_eq. by eapply lookup_lt_Some.
  - intros Hlt'. assert (Hmm : m = BS - off mod BS) by (unfold m; lia).
    assert (Hz : (off + m) mod BS = 0).
    { rewrite Hmm. symmetry. apply Z.mod_unique with (off / BS + 1); [lia|]. lia. }
    specialize (Hfuel Hlt). lia.
  - intros c. rewrite elem_of_logged. intros [Hc| ->]; [by apply Hlog1|right; right; right; by left].
  - eapply enough_weaken; [|destruct He1 as (Fr & H1 & H2 & H3); exists Fr; split_and!; [done|exact H2|]]; [lia|].
    intros c Hc. destruct (H3 c Hc). split; [done|]. unfold a2. rewrite used_set; [done|].
    apply (fo_owned _ _ _ _ GF) in Ho1. intros [= Hx]. tauto.
  - intros s5 a5 x5 nb5 L5 D5 V5 E5 F5 W He5 Hl5 HD5. simpl in *.
    eapply (HQ s5 a5 x5 nb5 L5 D5); [exact V5|done| | |done|done|lia].
    + rewrite F5, F4, F3, F2, F1. unfold with_d. by rewrite list_insert_insert_eq.
    + eapply (written_step sb a (i_d ip) nb off m src); [lia|lia|lia|lia|exact G|exact WF|exact WE|exact Hchunk|exact W].
Qed.

(** ** The inode is written through *)

Lemma iupdate_spec s a L i ip sb (Q : unit → fs T → Prop) :
  fview s a true [] L → f_inodes s !! i = Some ip → i_dev ip = tx_dev → f_sb s = sb →
  0 ≤ IBLOCK (i_inum ip) sb < FSSIZE → tx_home (IBLOCK (i_inum ip) sb) → length (di_addrs (i_d ip)) = S NDIRECT →
  (length L < tx_cap)%nat →
  (∀ s', fview s' (put_inode a sb (i_inum ip) (i_d ip)) true [] (logged L (IBLOCK (i_inum ip) sb)) →
     f_sb s' = sb → f_inodes s' = f_inodes s → Q tt s') →
  wp (iupdate i) Q s.
Proof.
  intros V Hi Hd Hsb Hb Hh Hl Hcap HQ. unfold iupdate. apply wp_bind. eapply wp_rdi; [done|]. apply wp_bind, wp_gets. rewrite Hd, Hsb.
  apply wp_bind. eapply wp_fbread; [exact V|done|set_solver|right; simpl; lia|]. intros bp s1 V1 E1 F1.
  apply wp_bind. eapply wp_fdata; [exact V1|by left|]. assert (Hf : full a) by (by eapply tx_full).
  apply wp_bind. eapply wp_fupdate; [exact V1|by left|done| |done|].
  { rewrite length_put_dinode; [apply Hf| |done]. rewrite Hf. apply dinode_off_bound. }
  intros s2 V2 E2 F2. eapply (wp_fbrelse _ _ _ []); [exact V2|]. intros s3 V3 E3 F3.
  apply HQ; [exact V3|congruence|congruence].
Qed.

(** ** writei() *)

(** The bytes [src] take the place of those from [off] on. *)
Definition overwrite (l : list Z) (off : nat) (src : list Z) : list Z := take off l ++ src ++ drop (off + length src) l.

Lemma lookup_content a x n j : content a x 0 n !! j = if decide (j < n)%nat then Some (fbyte a x (Z.of_nat j)) else None.
Proof.
  unfold content. rewrite list_lookup_fmap. case_decide as Hj; [by rewrite lookup_seq_lt|by rewrite lookup_seq_ge by lia].
Qed.

Lemma lookup_overwrite l off src j : (off ≤ length l)%nat →
  overwrite l off src !! j =
    if decide (off ≤ j < off + length src)%nat then src !! (j - off)%nat else l !! j.
Proof.
  intros Ho. unfold overwrite. destruct (decide (j < off)%nat).
  - rewrite lookup_app_l by (rewrite length_take; lia). rewrite lookup_take_lt, decide_False by lia. done.
  - rewrite lookup_app_r by (rewrite length_take; lia). rewrite length_take, Nat.min_l by lia.
    case_decide; [by rewrite lookup_app_l by lia|]. rewrite lookup_app_r by lia. rewrite lookup_drop. f_equal. lia.
Qed.

Lemma written_content sb a x off src a' x' nb' sz :
  written sb a x (nblocks sz) off src a' x' nb' → 0 ≤ off ≤ sz →
  content a' x' 0 (Z.to_nat (Z.max sz (off + Z.of_nat (length src)))) = overwrite (content a x 0 (Z.to_nat sz)) (Z.to_nat off) src.
Proof.
  intros [_ _ _ _ Hin Hout _] Ho. apply list_eq. intros j. rewrite lookup_overwrite by (rewrite length_content; lia).
  rewrite !lookup_content. destruct (decide (Z.to_nat off ≤ j < Z.to_nat off + length src)%nat) as [Hj|Hj].
  - rewrite decide_True by lia. rewrite Hin by lia. unfold byte_at.
    replace (Z.to_nat (Z.of_nat j - off)) with (j - Z.to_nat off)%nat by lia.
    destruct (lookup_lt_is_Some_2 src (j - Z.to_nat off)) as [v ->]; [lia|done].
  - destruct (decide (j < Z.to_nat sz)%nat) as [Hs|Hs]; [|by rewrite decide_False by lia].
    rewrite decide_True by lia. f_equal. apply Hout; [lia| |lia]. apply nblocks_covers. lia.
Qed.

Lemma nblocks_mono z z' : z ≤ z' → nblocks z ≤ nblocks z'.
Proof. intros H. unfold nblocks. apply Z.div_le_mono; rewrite ?BS_val; lia. Qed.

Lemma nblocks_ge z : 0 ≤ z → z ≤ nblocks z * BS.
Proof.
  intros H. unfold nblocks. rewrite BS_val. pose proof (Z.div_mod (z + 512 - 1) 512). pose proof (Z.mod_pos_bound (z + 512 - 1) 512). lia.
Qed.

(** The store and the inode after [src] was written at [off] of file [i]. *)
Record wrote a sb live X (i off : Z) (src : list Z) a' x' : Prop := {
  wr_inv : fs_inv a' sb live (upd X i x');
  wr_sync : synced a' sb live (upd X i x');
  wr_x : x' = (X i) <| di_addrs := di_addrs x' |> <| di_size := Z.max (di_size (X i)) (off + Z.of_nat (length src)) |>;
  wr_data : fdata a' x' = overwrite (fdata a (X i)) (Z.to_nat off) src;
  wr_other : ∀ j, live j → j ≠ i → fdata a' (X j) = fdata a (X j);
}.

(** The size did not change: the inode is as it was. *)
Lemma wrote_inside a sb live X i off src a' x' nb' :
  fs_inv a sb live X → synced a sb live X → live i → 0 ≤ off ≤ di_size (X i) →
  off + Z.of_nat (length src) ≤ di_size (X i) → written sb a (X i) (nb (X i)) off src a' x' nb' →
  x' = X i ∧ wrote a sb live X i off src a' x'.
Proof.
  intros I S Hi Ho Hn W. pose proof W as [F' E' M' Hnb _ _ Hx]. pose proof (nblocks_mono _ _ Hn) as Hm.
  assert (nb' = nb (X i)) as -> by (unfold nb in *; lia). specialize (Hx eq_refl) as ->.
  pose proof (extend_inv a sb live X I i Hi a' (X i) _ F' E' M' (di_size (X i)) (fv_size _ _ _ _ I i Hi) eq_refl) as (I' & D & N).
  assert (Hsame : (X i) <| di_size := di_size (X i) |> = X i) by (by destruct (X i)). rewrite Hsame in I'.
  split; [done|]. split; [done| | | |done].
  - intros j Hj. rewrite N, S by done. unfold upd. case_decide; [by subst|done].
  - rewrite Z.max_l by lia. by destruct (X i).
  - unfold fdata. rewrite <- (written_content sb a (X i) off src a' (X i) (nb (X i))) by done.
    by rewrite Z.max_l by lia.
Qed.

(** The file grew, and iupdate() wrote its inode. *)
Lemma wrote_grown a sb live X i off src a' x' nb' :
  let sz := off + Z.of_nat (length src) in let y := x' <| di_size := sz |> in
  fs_inv a sb live X → synced a sb live X → live i → full a' → 0 ≤ off ≤ di_size (X i) → di_size (X i) < sz ≤ MAXFILE * BS →
  written sb a (X i) (nb (X i)) off src a' x' nb' →
  wrote a sb live X i off src (put_inode a' sb i y) y.
Proof.
  intros sz y I S Hi Hf Ho Hn W. pose proof W as [F' E' M' Hnb _ _ _]. pose proof (nblocks_mono (di_size (X i)) sz) as Hm.
  assert (nb' = nblocks sz) as -> by (unfold nb, sz in *; lia).
  pose proof (extend_inv a sb live X I i Hi a' x' _ F' E' M' sz ltac:(lia) eq_refl) as (I' & D & N).
  destruct (put_inode_inv a' sb live (upd X i y) i y I' Hi) as [I2 D2].
  pose proof (fv_dinode _ _ _ _ I' i Hi) as Hy. rewrite upd_eq in Hy. pose proof (fv_inum _ _ _ _ I i Hi).
  split; [done| | | |].
  - intros j Hj. pose proof (fv_inum _ _ _ _ I j Hj). destruct (decide (j = i)) as [->|Hne].
    + rewrite upd_eq. by apply put_inode_at.
    + rewrite put_inode_other by (done || apply Hy). rewrite upd_ne, N by done. by apply S.
  - unfold y. rewrite (ex_x _ _ _ _ _ _ _ E'). rewrite Z.max_r by (fold sz; lia). by destruct (X i).
  - rewrite <- (upd_eq X i y) at 2. rewrite D2, upd_eq by done. unfold fdata.
    rewrite <- (written_content sb a (X i) off src a' x' (nblocks sz)) by done. fold sz. rewrite Z.max_r by lia.
    unfold content. apply list_fmap_ext. intros k z _. unfold fbyte. by rewrite (blk_addrs _ x').
  - intros j Hj Hne. rewrite <- (upd_ne X i y j Hne) at 1. rewrite D2, upd_ne by done. by apply D.
Qed.

Section devices.
Context (dev_write : Z → option (nat → list Z → M (fs T) Z)).

(** The errors of writei(). *)
Definition write_refused x (off n : Z) : Prop := di_size x < off ∨ 2 ^ 32 ≤ off + n ∨ MAXFILE * BS < off + n.

Lemma wrap_u32 off n : 0 ≤ off < 2 ^ 32 → 0 ≤ n < 2 ^ 32 → u32 (off + n) < off ↔ 2 ^ 32 ≤ off + n.
Proof.
  intros Ho Hn. unfold u32. destruct (decide (2 ^ 32 ≤ off + n)) as [Hle|Hgt].
  - rewrite <- (Z_mod_plus_full _ (-1)), Z.mod_small; lia.
  - rewrite Z.mod_small; lia.
Qed.

Lemma enough_put_inode k a sb i x : IBLOCK i sb ≠ bm sb → enough k a sb → enough k (put_inode a sb i x) sb.
Proof.
  intros Hne (Fr & H1 & H2 & H3). exists Fr. split_and!; [done|done|]. intros b Hb. destruct (H3 b Hb) as [Hr Hu]. split; [done|].
  rewrite <- Hu. unfold used, put_inode. by rewrite store_set_ne by congruence.
Qed.

(** [m] blocks more than writei() may need are left afterwards. *)
Lemma writei_more s a L i ip sb live X off src m (Q : Z → fs T → Prop) :
  let n := Z.of_nat (length src) in
  opened s a true L sb live X i ip → di_type (i_d ip) ≠ T_DEV →
  0 ≤ off < 2 ^ 32 → n < 2 ^ 31 → (length L + chunks n + 7 ≤ tx_cap)%nat → enough (2 * chunks n + m) a sb →
  (write_refused (i_d ip) off n → Q (-1) s) →
  (¬ write_refused (i_d ip) off n → ∀ s' a' L' x', fview s' a' true [] L' → f_sb s' = sb →
     f_inodes s' = with_d i ip x' (f_inodes s) → wrote a sb live X (i_inum ip) off src a' x' → enough m a' sb → Q n s') →
  wp (writei dev_write i src off) Q s.
Proof.
  intros n [V Hsb I S Hlive Hi Hd Hx] Hty Hoff Hn Hcap He Herr HQ. unfold writei. fold n.
  pose proof (wrap_u32 off n Hoff ltac:(lia)) as Hw. unfold write_refused in *.
  apply wp_bind. eapply wp_rdi; [done|]. rewrite (proj2 (Z.eqb_neq _ _)) by done. change (Z.of_nat BSIZE) with BS.
  destruct ((di_size (i_d ip) <? off) || (u32 (off + n) <? off)) eqn:E1; [apply wp_ret, Herr; zbool; lia|].
  destruct (Z.ltb_spec (MAXFILE * BS) (off + n)); [apply wp_ret, Herr; by right; right|].
  apply orb_false_iff in E1 as [E1%Z.ltb_ge E2%Z.ltb_ge]. specialize (HQ ltac:(lia)). clear Herr.
  pose proof (fv_file _ _ _ _ I _ Hlive) as F. pose proof (fv_size _ _ _ _ I _ Hlive) as Hsz. rewrite <- Hx in F, Hsz.
  apply wp_bind. eapply (writei_loop_spec (chunks n) s a L L [] i ip sb (nb (i_d ip)) src off n 0 m);
    [exact V|done|done|done|exact F|apply I| |lia|lia| |by intros c; left|simpl; lia|exact He|].
  { split; [lia|]. pose proof (nblocks_ge (di_size (i_d ip))). unfold nb. lia. }
  { intros _. unfold chunks. change (Z.of_nat BSIZE) with BS. pose proof (Z.mod_pos_bound off BS ltac:(done)). rewrite BS_val in *.
    pose proof (Z.div_mod n 512 ltac:(lia)). pose proof (Z.mod_pos_bound n 512). pose proof (Z.div_pos n 512).
    rewrite Z2Nat.id by lia. lia. }
  intros s1 a1 x1 nb1 L1 D1 V1 E3 F1 W He1 Hl1 HD1.
  assert (Hi1 : f_inodes s1 !! i = Some (ip <| i_d := x1 |>)).
  { rewrite F1. apply list_lookup_insert_eq. by eapply lookup_lt_Some. }
  assert (Hret : s32 n = n) by (unfold s32; rewrite Z.mod_small; lia). rewrite Hret.
  apply wp_bind. eapply wp_rdi; [exact Hi1|]. cbn [i_d].
  assert (Hs1 : di_size x1 = di_size (i_d ip)) by (rewrite (ex_x _ _ _ _ _ _ _ (wt_ext _ _ _ _ _ _ _ _ _ W)); done). simpl. rewrite Hs1.
  rewrite Hx in *. destruct (decide (di_size (X (i_inum ip)) < off + n)) as [Hgrow|Hin].
  - assert (Hnd : NoDup L1) by (by eapply tx_logged). pose proof (logs_length _ _ _ _ _ Hnd Hl1). simpl in HD1.
    destruct (fv_block _ _ _ _ I _ Hlive) as (Hb1 & Hb2 & _). pose proof (mo_size _ _ (fv_map _ _ _ _ I)).
    replace ((0 <? n) && (di_size (X (i_inum ip)) <? off + n)) with true by (symmetry; zlia).
    apply wp_bind, wp_bind. eapply wp_wri; [exact Hi1|].
    eapply (iupdate_spec _ a1 L1 i (ip <| i_d := x1 <| di_size := off + n |> |>) sb); [exact V1| |done|done|simpl; lia|done| |lia|].
    + simpl. rewrite F1. unfold with_d. rewrite list_insert_insert_eq. apply list_lookup_insert_eq. by eapply lookup_lt_Some.
    + simpl. apply (mp_len _ _ _ (fo_mapped _ _ _ _ (wt_file _ _ _ _ _ _ _ _ _ W))).
    + intros s2 V2 E4 F2. simpl in *. apply wp_ret. eapply (HQ _ _ _ (x1 <| di_size := off + n |>)); [exact V2|done| | |].
      * rewrite F2, F1. unfold with_d. by rewrite list_insert_insert_eq.
      * eapply wrote_grown; try done; [by eapply tx_full|lia].
      * apply enough_put_inode; [|done]. apply (fv_block _ _ _ _ I _ Hlive).
  - replace ((0 <? n) && (di_size (X (i_inum ip)) <? off + n)) with false by (symmetry; zlia).
    apply wp_bind, wp_ret. apply wp_ret. destruct (wrote_inside a sb live X (i_inum ip) off src a1 x1 nb1) as [-> Hw']; try done; [lia|lia|].
    by eapply HQ.
Qed.

Lemma writei_spec s a L i ip sb live X off src (Q : Z → fs T → Prop) :
  let n := Z.of_nat (length src) in
  opened s a true L sb live X i ip → di_type (i_d ip) ≠ T_DEV →
  0 ≤ off < 2 ^ 32 → n < 2 ^ 31 → (length L + chunks n + 7 ≤ tx_cap)%nat → enough (2 * chunks n) a sb →
  (write_refused (i_d ip) off n → Q (-1) s) →
  (¬ write_refused (i_d ip) off n → ∀ s' a' L' x', fview s' a' true [] L' → f_sb s' = sb →
     f_inodes s' = with_d i ip x' (f_inodes s) → wrote a sb live X (i_inum ip) off src a' x' → Q n s') →
  wp (writei dev_write i src off) Q s.
Proof.
  intros n O Hty Hoff Hn Hcap He Herr HQ. eapply (writei_more s a L i ip sb live X off src 0); try done; [by rewrite Nat.add_0_r|].
  intros Hr s' a' L' x' H1 H2 H3 H4 _. by eapply HQ.
Qed.
End devices.
End writei.
