(* ===== verification/FsDir.v ===== *)
(** * Directories

    The 16-byte entries of a directory as a map from names to inode numbers;
    dirlookup() reads the map and dirlink() adds to it. *)

From S2P Require Import Prelude Bytes Str Bio BioView Log Tx Fs FsBlock FsFile FsInv FsWritei.

(** ** Entries *)

Definition DE : nat := 16.

(** Entry [j] of the bytes of a directory. *)
Definition dent (l : list Z) (j : nat) : list Z := take DE (drop (DE * j) l).
Definition dcount (l : list Z) : nat := (length l / DE)%nat.

(** A name counts up to its NUL and to DIRSIZ bytes. *)
Definition dkey (name : list Z) : list Z := take DIRSIZ (cstr name).

Definition hit (name de : list Z) : bool := negb (de_inum de =? 0) && bool_decide (dkey name = dkey (de_name de)).
Definition empty_ent (de : list Z) : bool := de_inum de =? 0.

(** The first of the [n] entries from [j] on that satisfies [P]. *)
Fixpoint find_ent (P : list Z → bool) (l : list Z) (j n : nat) : option nat :=
  match n with
  | O => None
  | S n => if P (dent l j) then Some j else find_ent P l (S j) n
  end.

(** The directory as a map: the entry of a name, and its inode number. *)
Definition dir_get (l name : list Z) : option nat := find_ent (hit name) l 0 (dcount l).
Definition dir_inum (l name : list Z) : option Z := (λ j, de_inum (dent l j)) <$> dir_get l name.

Lemma find_ent_spec P l j n :
  match find_ent P l j n with
  | Some k => (j ≤ k < j + n)%nat ∧ P (dent l k) = true ∧ ∀ i, (j ≤ i < k)%nat → P (dent l i) = false
  | None => ∀ i, (j ≤ i < j + n)%nat → P (dent l i) = false
  end.
Proof.
  revert j. induction n as [|n IH]; intros j; cbn [find_ent]; [intros i Hi; lia|].
  destruct (P (dent l j)) eqn:Hp; [split_and!; [lia|lia|done|intros i Hi; lia]|].
  specialize (IH (S j)). destruct (find_ent P l (S j) n) as [k|].
  - destruct IH as (H1 & H2 & H3). split_and!; [lia|lia|done|]. intros i Hi. destruct (decide (i = j)) as [->|]; [done|]. apply H3. lia.
  - intros i Hi. destruct (decide (i = j)) as [->|]; [done|]. apply IH. lia.
Qed.

(** Another predicate or list with the same answer at every entry. *)
Lemma find_ent_ext P l P' l' j n : (∀ i, (j ≤ i < j + n)%nat → P' (dent l' i) = P (dent l i)) →
  find_ent P' l' j n = find_ent P l j n.
Proof.
  revert j. induction n as [|n IH]; intros j H; cbn [find_ent]; [done|]. rewrite H by lia.
  destruct (P (dent l j)); [done|]. apply IH. intros i Hi. apply H. lia.
Qed.

Lemma find_ent_app P l j n m : find_ent P l j (n + m) = match find_ent P l j n with Some k => Some k | None => find_ent P l (j + n) m end.
Proof.
  revert j. induction n as [|n IH]; intros j; cbn [find_ent Nat.add]; [by rewrite Nat.add_0_r|].
  destruct (P (dent l j)); [done|]. rewrite IH. by replace (S j + n)%nat with (j + S n)%nat by lia.
Qed.

Lemma find_ent_none P l j n : (∀ i, (j ≤ i < j + n)%nat → P (dent l i) = false) → find_ent P l j n = None.
Proof.
  intros H. pose proof (find_ent_spec P l j n) as Hs. destruct (find_ent P l j n) as [k|]; [|done].
  destruct Hs as (H1 & H2 & _). rewrite H in H2 by lia. done.
Qed.

(** ** Adding an entry *)

Lemma de_inum_mk inum nm : 0 ≤ inum < 2 ^ 16 → de_inum (mk_dirent inum nm) = inum.
Proof.
  intros H. unfold de_inum, mk_dirent, get_le. rewrite drop_0. rewrite take_app_length' by done.
  rewrite le_val_bytes. by apply Z.mod_small.
Qed.

Lemma length_mk_dirent inum nm : length (mk_dirent inum nm) = (2 + length nm)%nat.
Proof. done. Qed.

(** Slot [j], the first empty entry or the end. *)
Definition slot_of (l : list Z) : nat := default (dcount l) (find_ent empty_ent l 0 (dcount l)).

Lemma slot_bound l : (slot_of l ≤ dcount l)%nat.
Proof.
  unfold slot_of. pose proof (find_ent_spec empty_ent l 0 (dcount l)) as H. destruct (find_ent _ _ _ _); simpl; lia.
Qed.

Lemma slot_empty l : (slot_of l < dcount l)%nat → empty_ent (dent l (slot_of l)) = true.
Proof.
  unfold slot_of. pose proof (find_ent_spec empty_ent l 0 (dcount l)) as H.
  destruct (find_ent _ _ _ _); simpl; [intros _; apply H|lia].
Qed.

Section add.
Context (l : list Z) (Hl : length l = (DE * dcount l)%nat) (de : list Z) (Hde : length de = DE).

Lemma slot_le : (DE * slot_of l ≤ length l)%nat.
Proof. pose proof (slot_bound l). unfold DE in *. lia. Qed.

Definition added : list Z := overwrite l (DE * slot_of l) de.

Lemma length_added : length added = (DE * Nat.max (dcount l) (S (slot_of l)))%nat.
Proof.
  unfold added, overwrite. rewrite !length_app, length_take, length_drop. pose proof (slot_bound l). unfold DE in *. lia.
Qed.

Lemma dcount_added : dcount added = Nat.max (dcount l) (S (slot_of l)).
Proof. unfold dcount at 1. rewrite length_added, Nat.mul_comm. by apply Nat.div_mul. Qed.

Lemma dent_added i : (i < Nat.max (dcount l) (S (slot_of l)))%nat → dent added i = if decide (i = slot_of l) then de else dent l i.
Proof.
  intros Hi. pose proof slot_le as Hs. apply list_eq. intros k. unfold dent, added. rewrite lookup_take.
  destruct (decide (k < DE)%nat) as [Hk|Hk].
  - rewrite lookup_drop, lookup_overwrite by done. rewrite Hde. case_decide as H1; case_decide as H2.
    + subst. f_equal. lia.
    + exfalso. apply H2. unfold DE in *. lia.
    + exfalso. apply H1. subst. unfold DE in *. lia.
    + rewrite lookup_take_lt, lookup_drop by done. done.
  - case_decide; [subst; rewrite lookup_ge_None_2 by (rewrite Hde; unfold DE in *; lia); done|].
    by rewrite lookup_take_ge by (unfold DE in *; lia).
Qed.

(** The new name is found at the slot; other names are found where they were. *)
Lemma dir_added name : de_inum de ≠ 0 → (∀ i, dkey name = dkey (de_name de) → (i < dcount l)%nat → hit name (dent l i) = false) →
  dir_inum added name = if decide (dkey name = dkey (de_name de)) then Some (de_inum de) else dir_inum l name.
Proof.
  intros Hn Hnew. unfold dir_inum, dir_get. rewrite dcount_added. pose proof (slot_bound l) as Hb.
  assert (Hhit : hit name de = bool_decide (dkey name = dkey (de_name de))).
  { unfold hit. rewrite (proj2 (Z.eqb_neq _ _)) by done. done. }
  assert (Hslot : (slot_of l < dcount l)%nat → hit name (dent l (slot_of l)) = false).
  { intros H%slot_empty. unfold hit, empty_ent in *. by rewrite H. }
  case_decide as Hk.
  - replace (Nat.max (dcount l) (S (slot_of l))) with (slot_of l + (S (Nat.max (dcount l) (S (slot_of l)) - S (slot_of l))))%nat by lia.
    rewrite find_ent_app, find_ent_none.
    + cbn [find_ent Nat.add]. rewrite dent_added, decide_True by lia. rewrite Hhit, bool_decide_true by done. simpl.
      by rewrite dent_added, decide_True by lia.
    + intros i Hi. rewrite dent_added, decide_False by lia. apply Hnew; [done|lia].
  - assert (Hsame : ∀ i, (i < dcount l)%nat → hit name (dent added i) = hit name (dent l i)).
    { intros i Hi. rewrite dent_added by lia. case_decide; [|done]. subst. rewrite Hhit, bool_decide_false by done.
      symmetry. by apply Hslot. }
    replace (Nat.max (dcount l) (S (slot_of l))) with (dcount l + (Nat.max (dcount l) (S (slot_of l)) - dcount l))%nat by lia.
    rewrite find_ent_app, (find_ent_ext (hit name) l (hit name)) by (intros i Hi; apply Hsame; lia).
    pose proof (find_ent_spec (hit name) l 0 (dcount l)) as Hs.
    destruct (find_ent (hit name) l 0 (dcount l)) as [k|] eqn:Ef; simpl.
    + destruct Hs as (H1 & H2 & _). rewrite dent_added by lia. case_decide; [|done]. subst.
      rewrite Hslot in H2 by lia. done.
    + rewrite find_ent_none; [done|]. intros i Hi. rewrite dent_added by lia. rewrite decide_True by lia.
      rewrite Hhit. by apply bool_decide_false.
Qed.
End add.

(** ** The inode cache *)

Section cache.
Context {T : Type} `{!TxOps T}.
Implicit Types (s : fs T) (l : list inode).

Definition holds_inode (dev inum : Z) (ip : inode) : Prop := 0 < i_ref ip ∧ i_dev ip = dev ∧ i_inum ip = inum.

Lemma iget_scan_spec l i dev inum e :
  match iget_scan l i dev inum e with
  | inl k => (i ≤ k)%nat ∧ ∃ ip, l !! (k - i)%nat = Some ip ∧ holds_inode dev inum ip
  | inr r => (∀ j ip, l !! j = Some ip → ¬ holds_inode dev inum ip) ∧
      (r = e ∧ (e = None → ∀ j ip, l !! j = Some ip → i_ref ip ≠ 0) ∨
       e = None ∧ ∃ k ip, r = Some k ∧ (i ≤ k)%nat ∧ l !! (k - i)%nat = Some ip ∧ i_ref ip = 0)
  end.
Proof.
  revert i e. induction l as [|ip l IH]; intros i e; cbn [iget_scan]; [split; [done|by left]|].
  destruct ((0 <? i_ref ip) && (i_dev ip =? dev) && (i_inum ip =? inum)) eqn:Hc.
  { split; [done|]. exists ip. rewrite Nat.sub_diag. split; [done|]. unfold holds_inode. zbool; lia. }
  assert (Hn : ¬ holds_inode dev inum ip) by (unfold holds_inode; zbool; lia).
  specialize (IH (S i) (match e with None => if i_ref ip =? 0 then Some i else None | _ => e end)).
  destruct (iget_scan _ _ _ _ _) as [k|r].
  - destruct IH as (Hk & ip' & Hl & Hh). split; [lia|]. exists ip'. split; [|done].
    by replace (k - i)%nat with (S (k - S i)) by lia.
  - destruct IH as [Hnone Hr]. split; [intros [|j] ip' H; [by simplify_eq/=|by eapply Hnone]|].
    destruct e as [e|].
    + destruct Hr as [[-> _]|[? _]]; [by left|done].
    + destruct (Z.eqb_spec (i_ref ip) 0) as [Hz|Hz].
      * destruct Hr as [[-> _]|[? _]]; [|done]. right. split; [done|]. exists i, ip. rewrite Nat.sub_diag. done.
      * destruct Hr as [[-> Hr]|(_ & k & ip' & -> & Hk & Hl & H0)].
        -- left. split; [done|]. intros _ [|j] ip' H; [by simplify_eq/=|by eapply Hr].
        -- right. split; [done|]. exists k, ip'. split_and!; [done|lia| |done]. by replace (k - i)%nat with (S (k - S i)) by lia.
Qed.

(** The slot iget() returns: a cached inode with one more reference, or an
    empty slot that it takes. *)
Inductive got (dev inum : Z) l (i : nat) : inode → Prop :=
  | got_cached ip : l !! i = Some ip → holds_inode dev inum ip → got dev inum l i (ip <| i_ref := i_ref ip + 1 |>)
  | got_fresh ip ip' : l !! i = Some ip → i_ref ip = 0 → (∀ j ip, l !! j = Some ip → ¬ holds_inode dev inum ip) →
      i_dev ip' = dev → i_inum ip' = inum → i_ref ip' = 1 → i_valid ip' = false → i_busy ip' = false → got dev inum l i ip'.

Lemma iget_spec s dev inum (Q : nat → fs T → Prop) :
  (∃ j ip, f_inodes s !! j = Some ip ∧ i_ref ip = 0) →
  (∀ i ip', got dev inum (f_inodes s) i ip' → Q i (s <| f_inodes ::= <[i := ip']> |>)) →
  wp (iget dev inum) Q s.
Proof.
  intros (j & ip & Hj & H0) HQ. unfold iget. apply wp_bind, wp_gets.
  pose proof (iget_scan_spec (f_inodes s) 0 dev inum None) as Hs. destruct (iget_scan _ _ _ _ _) as [k|r].
  - destruct Hs as (_ & ip' & Hk & Hh). rewrite Nat.sub_0_r in Hk. apply wp_bind. eapply wp_wri; [done|]. apply wp_ret.
    apply HQ. by apply got_cached.
  - destruct Hs as [Hn [[-> Hz]|(_ & k & ip' & -> & _ & Hk & Hz)]].
    { exfalso. by eapply (Hz eq_refl). }
    rewrite Nat.sub_0_r in Hk. apply wp_bind. eapply wp_wri; [done|]. apply wp_ret, HQ. eapply got_fresh; done.
Qed.

Lemma got_inode dev inum l i ip' : got dev inum l i ip' → i_dev ip' = dev ∧ i_inum ip' = inum ∧ 0 < i_ref ip' ∧ (i < length l)%nat.
Proof. intros [ip Hl (? & ? & ?)|ip ip'' Hl]; simpl; split_and!; try done; try lia; by eapply lookup_lt_Some. Qed.
End cache.

(** ** dirlookup() and dirlink() *)

Section dir.
Context {T : Type} `{!TxOps T} `{!TxLaws T}.
Context (dev_read : Z → option (nat → Z → M (fs T) (Z * list Z))) (dev_write : Z → option (nat → list Z → M (fs T) Z)).
Implicit Types (s : fs T) (a : store) (x : dinode) (sb : superblock) (L : list Z) (ip : inode).

Definition is_dir x : Prop := di_type x = T_DIR ∧ di_size x mod DIRENT = 0.

Lemma dir_size x : 0 ≤ di_size x → is_dir x → di_size x = DIRENT * (di_size x / DIRENT) ∧ 0 ≤ di_size x / DIRENT.
Proof. intros H [_ Hm]. unfold DIRENT in *. pose proof (Z.div_mod (di_size x) 16). pose proof (Z.div_pos (di_size x) 16). lia. Qed.

Lemma dir_count a x : 0 ≤ di_size x → is_dir x → di_size x = DIRENT * Z.of_nat (dcount (fdata a x)).
Proof.
  intros H Hd. destruct (dir_size x H Hd) as [H1 H2]. unfold dcount, fdata. rewrite length_content.
  rewrite Nat2Z.inj_div, Z2Nat.id by done. apply H1.
Qed.

Lemma content_within a x off n m : 0 ≤ off → (Z.to_nat off + n ≤ m)%nat → content a x off n = take n (drop (Z.to_nat off) (content a x 0 m)).
Proof.
  intros Ho Hm. replace m with (Z.to_nat off + (n + (m - Z.to_nat off - n)))%nat by lia.
  rewrite !content_app, drop_app_length' by (by rewrite length_content).
  rewrite take_app_length' by (by rewrite length_content). by rewrite Z.add_0_l, Z2Nat.id.
Qed.

(** An entry of an open directory. *)
Lemma read_dirent_spec s a w L sb live X i ip j msg (Q : list Z → fs T → Prop) :
  opened s a w L sb live X i ip → is_dir (i_d ip) → (length L ≤ tx_cap)%nat → (j < dcount (fdata a (i_d ip)))%nat →
  (∀ s', fview s' a w [] L → f_sb s' = f_sb s → f_inodes s' = f_inodes s → Q (dent (fdata a (i_d ip)) j) s') →
  wp (read_dirent dev_read i (DIRENT * Z.of_nat j) msg) Q s.
Proof.
  intros [V Hsb I S Hlive Hi Hd Hx] Hdir Hcap Hj HQ. pose proof (fv_size _ _ _ _ I _ Hlive) as Hsz.
  pose proof (fv_file _ _ _ _ I _ Hlive) as F. rewrite <- Hx in Hsz, F.
  pose proof (dir_count a (i_d ip) ltac:(lia) Hdir) as Hc. unfold MAXFILE, NDIRECT in Hsz. rewrite BS_val in Hsz. assert (HD : DIRENT = 16) by done.
  unfold read_dirent. apply wp_bind. eapply readi_spec; [exact V|done|done|destruct Hdir; unfold T_DIR, T_DEV in *; lia|apply F|done|lia|lia|lia|].
  intros s' V' E' F'. rewrite bool_decide_eq_false_2 by lia. rewrite Z.min_l by lia. apply wp_bind, wp_panic_if; [done|]. apply wp_ret.
  cbn [snd]. rewrite (content_within _ _ _ _ (Z.to_nat (di_size (i_d ip)))) by lia.
  replace (Z.to_nat (DIRENT * Z.of_nat j)) with (DE * j)%nat by (unfold DE; lia). by apply HQ.
Qed.

Lemma opened_same s s' a w L sb live X i ip : opened s a w L sb live X i ip →
  fview s' a w [] L → f_sb s' = f_sb s → f_inodes s' = f_inodes s → opened s' a w L sb live X i ip.
Proof. intros [] V E F. split; congruence || done. Qed.

Lemma dent_name l j : (j < dcount l)%nat → length (de_name (dent l j)) = DIRSIZ.
Proof.
  intros Hj. unfold de_name, dent, dcount, DE, DIRSIZ in *. rewrite length_drop, length_take, length_drop.
  pose proof (Nat.div_mod (length l) 16). lia.
Qed.

Lemma lookup_loop_spec s a w L sb live X dp ip name fuel j (Q : option (Z * Z) → fs T → Prop) :
  let l := fdata a (i_d ip) in
  opened s a w L sb live X dp ip → is_dir (i_d ip) → (length L ≤ tx_cap)%nat → readable DIRSIZ name →
  (j ≤ dcount l)%nat → (dcount l - j ≤ fuel)%nat →
  (∀ s', opened s' a w L sb live X dp ip → f_inodes s' = f_inodes s →
     Q ((λ k, (de_inum (dent l k), DIRENT * Z.of_nat k)) <$> find_ent (hit name) l j (dcount l - j)) s') →
  wp (lookup_loop dev_read fuel dp name (DIRENT * Z.of_nat j)) Q s.
Proof.
  intros l O Hdir Hcap Hname Hj Hf HQ. revert s j O Hj Hf HQ. induction fuel as [|fuel IH]; intros s j O Hj Hf HQ; cbn [lookup_loop];
    apply wp_bind; (eapply wp_rdi; [by eapply op_ip|]); pose proof (fv_size _ _ _ _ (op_inv _ _ _ _ _ _ _ _ _ O) _ (op_live _ _ _ _ _ _ _ _ _ O)) as Hsz;
    rewrite <- (op_d _ _ _ _ _ _ _ _ _ O) in Hsz; pose proof (dir_count a (i_d ip) ltac:(lia) Hdir) as Hc; fold l in Hc; rewrite Hc;
    destruct (Z.ltb_spec (DIRENT * Z.of_nat j) (DIRENT * Z.of_nat (dcount l))) as [Hlt|Hge];
    try (replace (dcount l - j)%nat with 0%nat in HQ by (unfold DIRENT in *; lia); by apply wp_ret, HQ).
  { unfold DIRENT in *. lia. }
  assert (Hjl : (j < dcount l)%nat) by (unfold DIRENT in *; lia).
  apply wp_bind. eapply read_dirent_spec; [exact O|done|done|exact Hjl|]. fold l. intros s1 V1 E1 F1.
  assert (O1 : opened s1 a w L sb live X dp ip) by (by eapply opened_same).
  assert (Hstep : ∀ b, hit name (dent l j) = b →
    find_ent (hit name) l j (dcount l - j) = if b then Some j else find_ent (hit name) l (S j) (dcount l - S j)).
  { intros b <-. by replace (dcount l - j)%nat with (S (dcount l - S j)) by lia. }
  assert (Hnext : DIRENT * Z.of_nat j + DIRENT = DIRENT * Z.of_nat (S j)) by lia. rewrite Hnext.
  assert (Hrec : hit name (dent l j) = false → wp (lookup_loop dev_read fuel dp name (DIRENT * Z.of_nat (S j))) Q s1).
  { intros Hh. apply IH; [exact O1|lia|lia|]. intros s2 O2 F2. rewrite (Hstep false Hh) in HQ. apply HQ; [done|congruence]. }
  destruct (de_inum (dent l j) =? 0) eqn:Hz; [apply Hrec; unfold hit; by rewrite Hz|].
  destruct (strncmp_zero name (de_name (dent l j)) DIRSIZ) as (r & Hr & Hiff); [done|right; by rewrite dent_name|].
  unfold namecmp. rewrite Hr. destruct (Z.eqb_spec r 0) as [->|Hr0].
  - apply wp_ret. rewrite (Hstep true) in HQ by (unfold hit; rewrite Hz; apply bool_decide_eq_true; by apply Hiff). by apply HQ.
  - apply Hrec. unfold hit. rewrite Hz. apply bool_decide_eq_false. intros He. by apply Hr0, Hiff.
Qed.

Lemma entries_fuel a x : 0 ≤ di_size x → is_dir x → (dcount (fdata a x) ≤ entries (di_size x))%nat.
Proof.
  intros H Hd. pose proof (dir_count a x H Hd) as Hc. unfold entries. rewrite Hc, Z.mul_comm, Z.div_mul by done. lia.
Qed.

Lemma opened_size s a w L sb live X i ip : opened s a w L sb live X i ip → 0 ≤ di_size (i_d ip) ≤ MAXFILE * BS.
Proof. intros [_ _ I _ Hl _ _ ->]. by apply (fv_size _ _ _ _ I). Qed.

(** dirlookup(): the inode of the entry, with one more reference. *)
Lemma dirlookup_spec s a w L sb live X dp ip name (Q : option (nat * Z) → fs T → Prop) :
  let l := fdata a (i_d ip) in
  opened s a w L sb live X dp ip → is_dir (i_d ip) → (length L ≤ tx_cap)%nat → readable DIRSIZ name →
  (∃ j ip, f_inodes s !! j = Some ip ∧ i_ref ip = 0) →
  (dir_get l name = None → ∀ s', opened s' a w L sb live X dp ip → f_inodes s' = f_inodes s → Q None s') →
  (∀ k i ip' s', dir_get l name = Some k → got tx_dev (de_inum (dent l k)) (f_inodes s) i ip' →
     fview s' a w [] L → f_sb s' = sb → f_inodes s' = <[i := ip']> (f_inodes s) → Q (Some (i, DIRENT * Z.of_nat k)) s') →
  wp (dirlookup dev_read dp name) Q s.
Proof.
  intros l O Hdir Hcap Hname Hfree HN HS. pose proof (opened_size _ _ _ _ _ _ _ _ _ O) as Hsz. unfold dirlookup.
  apply wp_bind. eapply wp_rdi; [by eapply op_ip|]. apply wp_bind, wp_panic_if; [destruct Hdir as [-> _]; done|].
  apply wp_bind. eapply (lookup_loop_spec s a w L sb live X dp ip name _ 0); [exact O|done|done|done|lia| |].
  { pose proof (entries_fuel a _ (proj1 Hsz) Hdir). lia. }
  fold l. rewrite Nat.sub_0_r. change (find_ent (hit name) l 0 (dcount l)) with (dir_get l name). intros s1 O1 F1.
  destruct (dir_get l name) as [k|] eqn:Hg; simpl; [|apply wp_ret; by apply HN].
  apply wp_bind. rewrite (op_dev _ _ _ _ _ _ _ _ _ O). eapply iget_spec; [by rewrite F1|]. intros i ip' Hgot. apply wp_ret.
  rewrite F1 in Hgot. eapply HS; [done|exact Hgot|apply O1|apply O1|]. simpl. by rewrite F1.
Qed.

Lemma empty_loop_spec s a w L sb live X dp ip fuel j (Q : Z → fs T → Prop) :
  let l := fdata a (i_d ip) in
  opened s a w L sb live X dp ip → is_dir (i_d ip) → (length L ≤ tx_cap)%nat → (j ≤ dcount l)%nat → (dcount l - j ≤ fuel)%nat →
  (∀ s', opened s' a w L sb live X dp ip → f_inodes s' = f_inodes s →
     Q (DIRENT * Z.of_nat (default (dcount l) (find_ent empty_ent l j (dcount l - j)))) s') →
  wp (empty_loop dev_read fuel dp (DIRENT * Z.of_nat j)) Q s.
Proof.
  intros l O Hdir Hcap Hj Hf HQ. revert s j O Hj Hf HQ. induction fuel as [|fuel IH]; intros s j O Hj Hf HQ; cbn [empty_loop];
    apply wp_bind; (eapply wp_rdi; [by eapply op_ip|]); pose proof (opened_size _ _ _ _ _ _ _ _ _ O) as Hsz;
    pose proof (dir_count a (i_d ip) ltac:(lia) Hdir) as Hc; fold l in Hc; rewrite Hc;
    destruct (Z.ltb_spec (DIRENT * Z.of_nat j) (DIRENT * Z.of_nat (dcount l))) as [Hlt|Hge];
    try (assert (j = dcount l) as -> by (unfold DIRENT in *; lia); rewrite Nat.sub_diag in HQ; by apply wp_ret, HQ).
  { unfold DIRENT in *. lia. }
  assert (Hjl : (j < dcount l)%nat) by (unfold DIRENT in *; lia).
  apply wp_bind. eapply read_dirent_spec; [exact O|done|done|exact Hjl|]. fold l. intros s1 V1 E1 F1.
  assert (O1 : opened s1 a w L sb live X dp ip) by (by eapply opened_same).
  replace (dcount l - j)%nat with (S (dcount l - S j)) in HQ by lia. cbn [find_ent] in HQ. unfold empty_ent at 1 in HQ.
  destruct (de_inum (dent l j) =? 0); [apply wp_ret; by apply HQ|].
  replace (DIRENT * Z.of_nat j + DIRENT) with (DIRENT * Z.of_nat (S j)) by lia.
  apply IH; [exact O1|lia|lia|]. intros s2 O2 F2. apply HQ; [done|congruence].
Qed.

(** The directory after dirlink() added [name]. *)
Definition linked (l name : list Z) (inum : Z) l' : Prop :=
  ∀ q, dir_inum l' q = if decide (dkey q = dkey name) then Some inum else dir_inum l q.

(** dirlink() of a name that is not there. *)
Lemma dirlink_spec s a L sb live X dp ip name inum (Q : Z → fs T → Prop) :
  let l := fdata a (i_d ip) in
  opened s a true L sb live X dp ip → is_dir (i_d ip) → (length L + 9 ≤ tx_cap)%nat → readable DIRSIZ name → enough 4 a sb →
  0 < inum < 2 ^ 16 → di_size (i_d ip) + DIRENT ≤ MAXFILE * BS →
  (∃ j ip, f_inodes s !! j = Some ip ∧ i_ref ip = 0) → dir_get l name = None →
  (∀ s' a' L' x', opened s' a' true L' sb live (upd X (i_inum ip) x') dp (ip <| i_d := x' |>) →
     (∀ j, live j → j ≠ i_inum ip → fdata a' (X j) = fdata a (X j)) →
     is_dir x' → linked l name inum (fdata a' x') → f_inodes s' = with_d dp ip x' (f_inodes s) → Q 0 s') →
  wp (dirlink dev_read dev_write dp name inum) Q s.
Proof.
  intros l O Hdir Hcap Hname He Hin Hmax Hfree Hnone HQ. pose proof (opened_size _ _ _ _ _ _ _ _ _ O) as Hsz.
  pose proof (dir_count a (i_d ip) ltac:(lia) Hdir) as Hc. fold l in Hc. assert (HD : DIRENT = 16) by done.
  assert (Hl : length l = (DE * dcount l)%nat).
  { transitivity (Z.to_nat (di_size (i_d ip))); [apply length_content|]. rewrite Hc. unfold DE. lia. }
  unfold dirlink. apply wp_bind. eapply dirlookup_spec; [exact O|done|lia|done|done| |intros k i ip' s1 Hg; fold l in Hg; congruence].
  intros _ s1 O1 F1. apply wp_bind. eapply wp_rdi; [by eapply op_ip|].
  apply wp_bind. eapply (empty_loop_spec s1 a true L sb live X dp ip _ 0); [exact O1|done|lia|lia| |].
  { pose proof (entries_fuel a _ (proj1 Hsz) Hdir). lia. }
  fold l. rewrite Nat.sub_0_r. fold (slot_of l). intros s2 O2 F2. pose proof (slot_bound l) as Hslot.
  destruct (strncpy_field (replicate DIRSIZ 0) name DIRSIZ) as (nm & -> & Hnl & Hnm); [done|done|].
  assert (Hde : length (mk_dirent inum nm) = DE) by (by rewrite length_mk_dirent, Hnl).
  assert (Hch : chunks (Z.of_nat (length (mk_dirent inum nm))) = 2%nat) by (by rewrite Hde).
  apply wp_bind. unfold MAXFILE, NDIRECT in Hsz, Hmax. rewrite BS_val in Hsz, Hmax.
  eapply (writei_spec dev_write s2 a L dp ip sb live X); rewrite ?Hch, ?Hde; [exact O2|destruct Hdir as [-> _]; done|lia|done|lia|done| |].
  { intros [Hr|Hr]; exfalso; unfold MAXFILE, NDIRECT, DE in *; rewrite ?BS_val in Hr; lia. }
  intros _ s3 a3 L3 x3 V3 E3 F3 [WI WS Wx Wd Wo]. apply wp_bind, wp_panic_if; [done|]. apply wp_ret.
  assert (Hx : i_d ip = X (i_inum ip)) by apply O. rewrite <- Hx in *.
  assert (Hd3 : fdata a3 x3 = added l (mk_dirent inum nm)).
  { rewrite Wd. unfold added. f_equal. unfold DE. lia. }
  assert (Hmk : de_name (mk_dirent inum nm) = nm) by done. assert (Hkn : dkey nm = dkey name) by exact Hnm.
  eapply (HQ _ a3 L3 x3); [|exact Wo| | |rewrite F3; congruence].
  - split; [exact V3|done|done|done|apply O| |apply O|by rewrite upd_eq].
    rewrite F3. apply list_lookup_insert_eq. rewrite F2, F1. eapply lookup_lt_Some, O.
  - rewrite Wx. split; [apply Hdir|]. cbn [di_size field_upd fs_eta dinode_eta]. rewrite Hde. destruct (dir_size _ (proj1 Hsz) Hdir) as [Hs1 Hs2].
    replace (Z.max _ _) with (Z.max (di_size (i_d ip) / DIRENT) (Z.of_nat (slot_of l) + 1) * DIRENT) by (unfold DE; lia).
    by apply Z.mod_mul.
  - intros q. rewrite Hd3, dir_added; rewrite ?Hmk, ?de_inum_mk, ?Hkn by lia; [done|done|done|lia|].
    intros k Hq Hk. pose proof (find_ent_spec (hit name) l 0 (dcount l)) as Hs. fold (dir_get l name) in Hs. rewrite Hnone in Hs.
    specialize (Hs k ltac:(lia)). unfold hit in *. by rewrite Hq.
Qed.
End dir.
