(* ===== verification/FsPath.v ===== *)
(** * Paths

    skipelem() and namex(): a path is resolved by looking up its components
    one after the other, and the inode cache holds one more reference to the
    result than before. *)

From S2P Require Import Prelude Bytes Str Bio BioView Log Tx Fs FsBlock FsFile FsInv FsWritei FsDir.

(** ** Components *)

(** The pieces between slashes. *)
Fixpoint split_path (p : list Z) : list (list Z) :=
  match p with
  | [] => [[]]
  | c :: p =>
    if c =? slash then [] :: split_path p
    else match split_path p with e :: r => (c :: e) :: r | [] => [[c]] end
  end.

(** The components of a path: the pieces that are not empty. *)
Definition components (p : list Z) : list (list Z) := filter (λ e, e ≠ []) (split_path p).

Lemma split_path_cons p : ∃ e r, split_path p = e :: r.
Proof. destruct p as [|c p]; simpl; [by eexists _, _|]. destruct (c =? slash); [by eexists _, _|]. destruct (split_path p); by eexists _, _. Qed.

Lemma components_slash p : components (slash :: p) = components p.
Proof. done. Qed.

Lemma components_skip p : components (skip_slashes p) = components p.
Proof.
  induction p as [|c p IH]; simpl; [done|]. destruct (Z.eqb_spec c slash) as [->|Hc]; [by rewrite IH|done].
Qed.

Lemma skip_head p : match skip_slashes p with [] => True | c :: _ => c ≠ slash end.
Proof. induction p as [|c p IH]; simpl; [done|]. destruct (Z.eqb_spec c slash); done. Qed.

Lemma skip_length p : (length (skip_slashes p) ≤ length p)%nat.
Proof. induction p as [|c p IH]; simpl; [done|]. destruct (c =? slash); simpl; lia. Qed.

Lemma skip_in p c : c ∈ skip_slashes p → c ∈ p.
Proof. induction p as [|d p IH]; simpl; [done|]. destruct (d =? slash); set_solver. Qed.

(** span_elem cuts off the first piece. *)
Lemma span_split p : match span_elem p with
  | (e, []) => split_path p = [e] ∧ p = e
  | (e, c :: r) => c = slash ∧ split_path p = e :: split_path r ∧ p = e ++ slash :: r
  end.
Proof.
  induction p as [|c p IH]; simpl; [done|]. destruct (Z.eqb_spec c slash) as [->|Hc]; [done|].
  destruct (span_elem p) as [e [|d r]].
  - destruct IH as [-> ->]. done.
  - destruct IH as (-> & -> & ->). done.
Qed.

Lemma components_nil p : skip_slashes p = [] → components p = [].
Proof. intros H. rewrite <- components_skip, H. done. Qed.

Lemma components_head c p : c ≠ slash → components (c :: p) ≠ [].
Proof.
  intros Hc. unfold components. simpl. rewrite (proj2 (Z.eqb_neq _ _)) by done.
  destruct (split_path p); rewrite filter_cons_True by done; done.
Qed.

(** skipelem() takes one component off the path. *)
Lemma skipelem_spec path name : length name = DIRSIZ → 0 ∉ path →
  match skipelem path name with
  | None => components path = []
  | Some (path', name') => ∃ e, components path = e :: components path' ∧ dkey name' = dkey e ∧ length name' = DIRSIZ ∧
      (path' = [] ↔ components path' = []) ∧ (0 ∉ path') ∧ (length path' < length path)%nat
  end.
Proof.
  intros Hn H0. unfold skipelem. pose proof (skip_head path) as Hh. pose proof (skip_length path) as Hlen.
  destruct (skip_slashes path) as [|c p] eqn:Hs; [by apply components_nil|].
  assert (H0p : 0 ∉ c :: p) by (intros Hin; apply H0, skip_in; by rewrite Hs).
  pose proof (span_split (c :: p)) as Hsp. destruct (span_elem (c :: p)) as [e r] eqn:He.
  assert (Hcomp : components path = e :: components (skip_slashes r) ∧ c :: p = e ++ r ∧ e ≠ []).
  { assert (Hne : e ≠ []).
    { cbn [span_elem] in He. rewrite (proj2 (Z.eqb_neq c slash)) in He by done. destruct (span_elem p). by simplify_eq. }
    rewrite components_skip, <- components_skip, Hs. destruct r as [|d r].
    - destruct Hsp as [Hsp Hpe]. split_and!; [|by rewrite app_nil_r|done]. unfold components. rewrite Hsp. by rewrite filter_cons_True.
    - destruct Hsp as (-> & Hsp & Hpe). split_and!; [|done|done]. unfold components at 1. rewrite Hsp, filter_cons_True by done.
      by rewrite components_slash. }
  destruct Hcomp as (Hc1 & Hc2 & Hne). exists e. split; [done|].
  assert (He0 : 0 ∉ e) by (rewrite Hc2 in H0p; set_solver).
  assert (Hlene : (length (c :: p) = length e + length r)%nat) by (by rewrite Hc2, length_app).
  assert (0 < length e)%nat by (destruct e; [done|simpl; lia]). pose proof (skip_length r). simpl in Hlen, Hlene.
  assert (Hname : let nm := if (DIRSIZ <=? length e)%nat then splice name 0 (take DIRSIZ e) else splice name 0 (e ++ [0]) in
    dkey nm = dkey e ∧ length nm = DIRSIZ).
  { destruct (Nat.leb_spec DIRSIZ (length e)) as [Hge|Hlt]; unfold splice, dkey; simpl.
    - rewrite length_take, Nat.min_l by done. rewrite drop_ge by lia. rewrite app_nil_r. split; [|rewrite length_take; lia].
      rewrite !cstr_id; [|done|intros Hin; by apply subseteq_take in Hin]. rewrite take_take. by rewrite Nat.min_id.
    - rewrite <- app_assoc. simpl. rewrite cstr_app_0 by done. rewrite cstr_id by done. split; [done|].
      rewrite !length_app. simpl. rewrite length_drop. lia. }
  destruct Hname as [Hk Hl]. split_and!; [done|done| | |lia].
  - split; [by intros ->|]. pose proof (skip_head r) as Hr. destruct (skip_slashes r) as [|d r']; [done|]. intros Hx. by apply components_head in Hx.
  - intros Hin. apply skip_in in Hin. apply H0p. rewrite Hc2. set_solver.
Qed.

(** ** Counting the inode cache *)

Fixpoint sumf (f : inode → Z) (l : list inode) : Z := match l with [] => 0 | ip :: l => f ip + sumf f l end.

Lemma sumf_insert f l i ip ip' : l !! i = Some ip → sumf f (<[i := ip']> l) = sumf f l - f ip + f ip'.
Proof.
  revert i. induction l as [|x l IH]; intros [|i] H; simpl in *; try done; [injection H as ->; lia|].
  rewrite (IH i) by done. lia.
Qed.

(** The references to inode [k], and the empty slots. *)
Definition refs (k : Z) : list inode → Z := sumf (λ ip, if i_inum ip =? k then i_ref ip else 0).
Definition nfree : list inode → Z := sumf (λ ip, if i_ref ip =? 0 then 1 else 0).

Lemma nfree_slot l : 0 < nfree l → ∃ j ip, l !! j = Some ip ∧ i_ref ip = 0.
Proof.
  unfold nfree. induction l as [|x l IH]; simpl; [lia|]. destruct (Z.eqb_spec (i_ref x) 0) as [Hx|Hx]; intros H.
  - by exists 0%nat, x.
  - destruct IH as (j & ip & Hj & Hr); [lia|]. by exists (S j), ip.
Qed.

(** The list with one reference to slot [i] dropped. *)
Definition dropped (i : nat) (l : list inode) : list inode := alter (λ ip, ip <| i_ref ::= λ r, r - 1 |>) i l.

Lemma dropped_eq i l ip : l !! i = Some ip → dropped i l = <[i := ip <| i_ref ::= λ r, r - 1 |>]> l.
Proof.
  intros H. unfold dropped. revert i H. induction l as [|x l IH]; intros [|i] H; simpl in *; try done; [by injection H as ->|].
  f_equal. by apply IH.
Qed.

Section cache.
Context {T : Type} `{!TxOps T} `{!TxLaws T}.
Implicit Types (s : fs T) (a : store) (x : dinode) (sb : superblock) (L : list Z) (ip : inode) (l : list inode).
Context (live : Z → Prop) (X : Z → dinode).

(** The inode cache: at most one slot per inode, valid ones as on disk, and
    slot [b], if any, locked. *)
Record ic_ok (b : option nat) l : Prop := {
  ic_ref : ∀ i ip, l !! i = Some ip → 0 ≤ i_ref ip;
  ic_uniq : ∀ i j ip jp, l !! i = Some ip → l !! j = Some jp → 0 < i_ref ip → 0 < i_ref jp → i_inum ip = i_inum jp → i = j;
  ic_dev : ∀ i ip, l !! i = Some ip → 0 < i_ref ip → i_dev ip = tx_dev ∧ live (i_inum ip);
  ic_valid : ∀ i ip, l !! i = Some ip → 0 < i_ref ip → i_valid ip = true → i_d ip = X (i_inum ip);
  ic_busy : ∀ i ip, l !! i = Some ip → 0 < i_ref ip → i_busy ip = bool_decide (b = Some i);
}.

Lemma ic_insert b b' l i ip ip' :
  ic_ok b l → l !! i = Some ip → 0 ≤ i_ref ip' →
  (0 < i_ref ip' → (0 < i_ref ip ∧ i_inum ip' = i_inum ip ∨ ∀ j jp, l !! j = Some jp → 0 < i_ref jp → i_inum jp ≠ i_inum ip') ∧
     i_dev ip' = tx_dev ∧ live (i_inum ip') ∧ (i_valid ip' = true → i_d ip' = X (i_inum ip')) ∧ i_busy ip' = bool_decide (b' = Some i)) →
  (∀ j jp, j ≠ i → l !! j = Some jp → 0 < i_ref jp → bool_decide (b' = Some j) = bool_decide (b = Some j)) →
  ic_ok b' (<[i := ip']> l).
Proof.
  intros I Hi Hr Hip Hother.
  assert (Hcase : ∀ j jp, <[i := ip']> l !! j = Some jp → j = i ∧ jp = ip' ∨ j ≠ i ∧ l !! j = Some jp).
  { intros j jp Hj. destruct (decide (j = i)) as [->|Hne].
    - rewrite list_lookup_insert_eq in Hj by (by eapply lookup_lt_Some). left. split; [done|congruence].
    - rewrite list_lookup_insert_ne in Hj by done. by right. }
  assert (Huniq : ∀ j jp, j ≠ i → l !! j = Some jp → 0 < i_ref jp → 0 < i_ref ip' → i_inum jp ≠ i_inum ip').
  { intros j jp Hne Hj Hp Hp' He. destruct (Hip Hp') as ([[Hp0 Hinum]|Hfresh] & _); [|by eapply Hfresh].
    apply Hne. eapply (ic_uniq _ _ I); [done..|congruence]. }
  split.
  - intros j jp [[-> ->]|[_ Hj]]%Hcase; [done|]. by eapply ic_ref.
  - intros j k jp kp [[-> ->]|[Hnj Hj]]%Hcase [[-> ->]|[Hnk Hk]]%Hcase Hpj Hpk He; [done| | |by eapply (ic_uniq _ _ I)].
    + exfalso. by eapply (Huniq k kp).
    + exfalso. by eapply (Huniq j jp).
  - intros j jp [[-> ->]|[_ Hj]]%Hcase Hp; [by destruct (Hip Hp) as (_ & ? & ? & _)|]. by eapply ic_dev.
  - intros j jp [[-> ->]|[_ Hj]]%Hcase Hp Hv; [by apply (Hip Hp)|]. by eapply ic_valid.
  - intros j jp [[-> ->]|[Hne Hj]]%Hcase Hp; [by apply (Hip Hp)|]. rewrite (Hother j jp) by done. by eapply ic_busy.
Qed.

(** iget() of a live inode; dropping the reference again gives the counts
    from before. *)
Lemma got_ok b l i ip' k : ic_ok b l → (∀ j, b = Some j → ∃ jp, l !! j = Some jp ∧ 0 < i_ref jp) → live k → got tx_dev k l i ip' →
  ic_ok b (<[i := ip']> l) ∧ nfree (dropped i (<[i := ip']> l)) = nfree l ∧ ∀ q, refs q (dropped i (<[i := ip']> l)) = refs q l.
Proof.
  intros I Hb Hk Hg. pose proof (got_inode _ _ _ _ _ Hg) as (Hd & Hn & Hp & Hlt).
  assert (Hat : <[i := ip']> l !! i = Some ip') by (by apply list_lookup_insert_eq).
  rewrite (dropped_eq _ _ ip') by done. rewrite list_insert_insert_eq. unfold nfree, refs.
  destruct Hg as [ip Hi Hh|ip ip' Hi H0 Hnone Hd' Hn' Hr Hv Hbz].
  - split_and!.
    + destruct Hh as (Hp0 & Hdd & Hnn). eapply ic_insert; [done|done|simpl; lia| |done]. intros _. simpl. split_and!; [by left|by subst| | |].
      * by subst.
      * intros Hv. by eapply ic_valid.
      * by eapply ic_busy.
    + rewrite (sumf_insert _ _ _ ip) by done. simpl. replace (i_ref ip + 1 - 1) with (i_ref ip) by lia. lia.
    + intros q. rewrite (sumf_insert _ _ _ ip) by done. simpl. replace (i_ref ip + 1 - 1) with (i_ref ip) by lia. lia.
  - split_and!.
    + eapply ic_insert; [done|done|lia| |done]. intros _. split_and!; [|done|by subst|congruence|].
      * right. intros j jp Hj Hpj He. apply (Hnone j jp Hj). split; [done|]. destruct (ic_dev _ _ I j jp Hj Hpj). split; congruence.
      * rewrite Hbz. symmetry. apply bool_decide_eq_false. intros ->. destruct (Hb i eq_refl) as (jp & Hj & Hpj). simplify_eq. lia.
    + rewrite (sumf_insert _ _ _ ip) by done. simpl. rewrite Hr, H0. simpl. lia.
    + intros q. rewrite (sumf_insert _ _ _ ip) by done. simpl. rewrite Hr, H0. simpl. destruct (_ =? q), (_ =? q); lia.
Qed.

(** How the counts change when a reference is dropped. *)
Definition freed_by (r : Z) : Z := (if r - 1 =? 0 then 1 else 0) - (if r =? 0 then 1 else 0).

Lemma dropped_counts i l ip : l !! i = Some ip →
  nfree (dropped i l) = nfree l + freed_by (i_ref ip) ∧
  ∀ q, refs q (dropped i l) = refs q l - (if i_inum ip =? q then 1 else 0).
Proof.
  intros H. rewrite (dropped_eq _ _ ip) by done. unfold nfree, refs, freed_by. split; [|intros q]; rewrite (sumf_insert _ _ _ ip) by done; simpl.
  - lia.
  - destruct (_ =? q); lia.
Qed.

(** A slot is changed, but not its inode number or its references. *)
Lemma counts_insert i l ip ip' : l !! i = Some ip → i_inum ip' = i_inum ip → i_ref ip' = i_ref ip →
  nfree (<[i := ip']> l) = nfree l ∧ ∀ q, refs q (<[i := ip']> l) = refs q l.
Proof. intros H Hn Hr. unfold nfree, refs. split; [|intros q]; rewrite (sumf_insert _ _ _ ip) by done; rewrite ?Hn, Hr; lia. Qed.

Definition same_counts l l' : Prop := nfree l' = nfree l ∧ ∀ q, refs q l' = refs q l.

(** ** Locking and releasing *)

Section ops.
Context a (w : bool) L sb (Hinv : fs_inv a sb live X) (Hsync : synced a sb live X) (Hcap : (length L ≤ tx_cap)%nat).
Context (Htype : ∀ k, live k → di_type (X k) ≠ 0) (Hlink : ∀ k, live k → di_nlink (X k) ≠ 0).

Definition idle s : Prop := fview s a w [] L ∧ f_sb s = sb ∧ ic_ok None (f_inodes s).

Lemma ilock_spec s i ip (Q : unit → fs T → Prop) :
  idle s → f_inodes s !! i = Some ip → 0 < i_ref ip →
  (∀ s' ip', opened s' a w L sb live X i ip' → ic_ok (Some i) (f_inodes s') → f_inodes s' = <[i := ip']> (f_inodes s) →
     i_inum ip' = i_inum ip → i_ref ip' = i_ref ip → i_busy ip' = true → i_valid ip' = true → Q tt s') →
  wp (ilock i) Q s.
Proof.
  intros (V & Hsb & I) Hi Hp HQ. destruct (ic_dev _ _ I i ip Hi Hp) as [Hdev Hlive].
  assert (Hlt : (i < length (f_inodes s))%nat) by (by eapply lookup_lt_Some).
  unfold ilock. apply wp_bind. eapply wp_rdi; [done|]. apply wp_bind, wp_panic_if; [zlia|].
  rewrite (ic_busy _ _ I i ip Hi Hp), bool_decide_eq_false_2 by done. apply wp_bind. eapply wp_wri; [done|].
  set (ip1 := ip <| i_busy := true |>).
  assert (Hok : ∀ ip', i_dev ip' = tx_dev → i_inum ip' = i_inum ip → i_ref ip' = i_ref ip → i_d ip' = X (i_inum ip) → i_busy ip' = true →
    ic_ok (Some i) (<[i := ip']> (f_inodes s))).
  { intros ip' H1 H2 H3 H4 H5. eapply ic_insert; [done|done|lia| |].
    - intros _. rewrite H2. split_and!; [by left|done|done|done|]. rewrite H5. symmetry. by apply bool_decide_eq_true.
    - intros j jp Hne _ _. rewrite !bool_decide_eq_false_2; [done|done|congruence]. }
  destruct (i_valid ip) eqn:Hv.
  - apply wp_ret. assert (Hd : i_d ip = X (i_inum ip)) by (by eapply ic_valid). apply (HQ _ ip1); [|by apply Hok|done..].
    split; try done. simpl. by apply list_lookup_insert_eq.
  - apply wp_bind, wp_gets. rewrite Hdev. change (f_sb (s <| f_inodes ::= _ |>)) with (f_sb s). rewrite Hsb. destruct (fv_block _ _ _ _ Hinv _ Hlive) as (Hb & _).
    pose proof (mo_size _ _ (fv_map _ _ _ _ Hinv)).
    apply wp_bind. eapply wp_fbread; [exact V|lia|set_solver|right; simpl; lia|]. intros bp s1 V1 E1 F1. simpl in E1, F1.
    apply wp_bind. eapply wp_fdata; [exact V1|by left|]. fold (inode_at a sb (i_inum ip)). rewrite (Hsync _ Hlive).
    assert (H1 : f_inodes s1 !! i = Some ip1) by (rewrite F1; by apply list_lookup_insert_eq).
    apply wp_bind. eapply wp_wri; [exact H1|]. apply wp_bind. eapply (wp_fbrelse _ _ _ []); [exact V1|]. intros s2 V2 E2 F2. simpl in E2, F2.
    rewrite F1, list_insert_insert_eq in F2.
    apply wp_bind. eapply wp_wri; [rewrite F2; by apply list_lookup_insert_eq|]. apply wp_panic_if; [apply Z.eqb_neq; by apply Htype|].
    eapply (HQ _ (ip <| i_busy := true |> <| i_d := X (i_inum ip) |> <| i_valid := true |>)); simpl; rewrite ?F2, ?list_insert_insert_eq; try done.
    + split; try done; simpl; [congruence|]. rewrite F2, list_insert_insert_eq. by apply list_lookup_insert_eq.
    + by apply Hok.
Qed.

Lemma iunlock_spec s i ip (Q : unit → fs T → Prop) :
  fview s a w [] L → f_sb s = sb → ic_ok (Some i) (f_inodes s) → f_inodes s !! i = Some ip → 0 < i_ref ip →
  (∀ s' ip', idle s' → f_inodes s' = <[i := ip']> (f_inodes s) → i_inum ip' = i_inum ip → i_ref ip' = i_ref ip → Q tt s') →
  wp (iunlock i) Q s.
Proof.
  intros V Hsb I Hi Hp HQ. unfold iunlock. apply wp_bind. eapply wp_rdi; [done|].
  rewrite (ic_busy _ _ I i ip Hi Hp), bool_decide_eq_true_2 by done. simpl. apply wp_bind, wp_panic_if; [zlia|].
  destruct (ic_dev _ _ I i ip Hi Hp) as [Hdev Hlive].
  eapply wp_wri; [done|]. eapply (HQ _ (ip <| i_busy := false |>)); try done. split_and!; [done|done|].
  eapply ic_insert; [done|done|simpl; lia| |].
  - intros _. split_and!; [by left|done|done| |done]. intros Hv. exact (ic_valid _ _ I i ip Hi Hp Hv).
  - intros j jp Hne _ _. rewrite !bool_decide_eq_false_2; [done|congruence|done].
Qed.

(** iput() of an inode that has a link. *)
Lemma iput_linked s i ip (Q : unit → fs T → Prop) :
  idle s → f_inodes s !! i = Some ip → 0 < i_ref ip →
  (∀ s', idle s' → f_inodes s' = dropped i (f_inodes s) → Q tt s') →
  wp (iput i) Q s.
Proof.
  intros (V & Hsb & I) Hi Hp HQ. destruct (ic_dev _ _ I i ip Hi Hp) as [Hdev Hlive].
  unfold iput. apply wp_bind. eapply wp_rdi; [done|]. apply wp_bind.
  replace ((i_ref ip =? 1) && i_valid ip && (di_nlink (i_d ip) =? 0)) with false.
  2:{ symmetry. destruct (i_valid ip) eqn:Hv; [|by rewrite andb_false_r].
      rewrite (ic_valid _ _ I i ip Hi Hp Hv), (proj2 (Z.eqb_neq (di_nlink _) 0)) by (by apply Hlink). apply andb_false_r. }
  apply wp_ret. eapply wp_wri; [done|]. apply HQ; [|simpl; by erewrite dropped_eq]. split_and!; [done|done|]. simpl.
  eapply ic_insert; [done|done|simpl; lia| |done]. intros _. simpl. split_and!; [by left|done|done| |].
  - intros Hv. exact (ic_valid _ _ I i ip Hi Hp Hv).
  - exact (ic_busy _ _ I i ip Hi Hp).
Qed.

Lemma iunlockput_spec s i ip (Q : unit → fs T → Prop) :
  fview s a w [] L → f_sb s = sb → ic_ok (Some i) (f_inodes s) → f_inodes s !! i = Some ip → 0 < i_ref ip →
  (∀ s' ip', idle s' → f_inodes s' = <[i := ip']> (f_inodes s) → i_inum ip' = i_inum ip → i_ref ip' = i_ref ip - 1 →
     same_counts (dropped i (f_inodes s)) (f_inodes s') → Q tt s') →
  wp (iunlockput i) Q s.
Proof.
  intros V Hsb I Hi Hp HQ. unfold iunlockput. apply wp_bind. eapply iunlock_spec; [done..|]. intros s1 ip1 J1 F1 N1 R1.
  assert (H1 : f_inodes s1 !! i = Some ip1) by (rewrite F1; apply list_lookup_insert_eq; by eapply lookup_lt_Some).
  eapply iput_linked; [exact J1|exact H1|lia|]. intros s2 J2 F2.
  rewrite (dropped_eq _ _ _ H1), F1, list_insert_insert_eq in F2. eapply HQ; [done|exact F2|done|simpl; lia|].
  rewrite F2. destruct (dropped_counts i _ _ Hi) as [D1 D2]. split; [|intros q]; rewrite ?D1, ?D2; unfold nfree, refs, freed_by;
    rewrite (sumf_insert _ _ _ ip) by done; simpl; rewrite ?N1, R1; [lia|]. destruct (_ =? q); lia.
Qed.

(** ** Resolving a path *)

Context (Htree : ∀ k, live k → di_type (X k) = T_DIR →
  is_dir (X k) ∧ ∀ q j, dir_inum (fdata a (X k)) q = Some j → live j).
Context (dev_read : Z → option (nat → Z → M (fs T) (Z * list Z))).

(** The inode that the components lead to from inode [k]; with [np], its
    parent directory. *)
Fixpoint resolve (np : bool) (k : Z) (cs : list (list Z)) : option Z :=
  match cs with
  | [] => if np then None else Some k
  | c :: cs =>
    if negb (di_type (X k) =? T_DIR) then None
    else if np && bool_decide (cs = []) then Some k
    else j ← dir_inum (fdata a (X k)) c; resolve np j cs
  end.

(** The result [r] of a call that had a reference to slot [i]. *)
Definition result (l : list inode) (i : nat) (k : option Z) (r : option nat) (l' : list inode) : Prop :=
  match k with
  | None => r = None ∧ same_counts (dropped i l) l'
  | Some k => ∃ j jp, r = Some j ∧ l' !! j = Some jp ∧ 0 < i_ref jp ∧ i_inum jp = k ∧ same_counts (dropped i l) (dropped j l')
  end.

Lemma dir_get_key d q q' : dkey q = dkey q' → dir_get d q = dir_get d q'.
Proof. intros H. apply find_ent_ext. intros i _. unfold hit. by rewrite H. Qed.

Lemma same_counts_trans l1 l2 l3 : same_counts l1 l2 → same_counts l2 l3 → same_counts l1 l3.
Proof. intros [H1 H2] [H3 H4]. split; [congruence|]. intros q. by rewrite H4. Qed.

Lemma result_trans l l2 i i2 k r l' : same_counts (dropped i l) (dropped i2 l2) → result l2 i2 k r l' → result l i k r l'.
Proof.
  intros S. destruct k as [k|]; simpl.
  - intros (j & jp & -> & Hj & Hp & Hn & S2). exists j, jp. split_and!; try done. by eapply same_counts_trans.
  - intros [-> S2]. split; [done|]. by eapply same_counts_trans.
Qed.

(** Locked, slot [i] still counts the same. *)
Lemma locked_counts i l ip ip' : l !! i = Some ip → i_inum ip' = i_inum ip → i_ref ip' = i_ref ip →
  same_counts (dropped i l) (dropped i (<[i := ip']> l)).
Proof.
  intros Hi Hn Hr. assert (H' : <[i := ip']> l !! i = Some ip') by (apply list_lookup_insert_eq; by eapply lookup_lt_Some).
  destruct (dropped_counts i l ip Hi) as [D1 D2], (dropped_counts i _ ip' H') as [D3 D4], (counts_insert i l ip ip' Hi Hn Hr) as [C1 C2].
  split; [rewrite D3, D1, C1, Hr; done|]. intros q. by rewrite D4, D2, C2, Hn.
Qed.

(** The next inode was fetched and the old one released. *)
Lemma step_counts i n l1 ip1 np l3 ip3 :
  l1 !! i = Some ip1 → 0 < i_ref ip1 → (n < length l1)%nat → (n = i → i_ref np = i_ref ip1 + 1 ∧ i_inum np = i_inum ip1) →
  same_counts l1 (dropped n (<[n := np]> l1)) →
  (if decide (n = i) then i_inum ip3 = i_inum np ∧ i_ref ip3 = i_ref np - 1 else i_inum ip3 = i_inum ip1 ∧ i_ref ip3 = i_ref ip1 - 1) →
  l3 = <[i := ip3]> (<[n := np]> l1) → same_counts (dropped i l1) (dropped n l3).
Proof.
  intros Hi Hp Hn Hni [S1 S2] H3 ->. set (l2 := <[n := np]> l1) in *.
  assert (H2n : l2 !! n = Some np) by (by apply list_lookup_insert_eq). destruct (dropped_counts n l2 np H2n) as [D1 D2].
  destruct (dropped_counts i l1 ip1 Hi) as [D3 D4].
  assert (Hlen : (i < length l2)%nat) by (unfold l2; rewrite length_insert; by eapply lookup_lt_Some).
  case_decide as Hd.
  - subst n. destruct (Hni eq_refl) as [Hr Hm], H3 as [N3 R3].
    assert (H3n : <[i := ip3]> l2 !! i = Some ip3) by (by apply list_lookup_insert_eq). destruct (dropped_counts i _ ip3 H3n) as [D5 D6].
    split; [rewrite D5, D3|intros q; rewrite D6, D4; specialize (S2 q); specialize (D2 q)];
      unfold nfree, refs, freed_by in *; rewrite (sumf_insert _ l2 i np) by done; rewrite ?N3, ?Hm, R3, Hr in *.
    + replace (i_ref ip1 + 1 - 1) with (i_ref ip1) in * by lia. lia.
    + replace (i_ref ip1 + 1 - 1) with (i_ref ip1) in * by lia. destruct (_ =? q); lia.
  - destruct H3 as [N3 R3]. assert (H2i : l2 !! i = Some ip1) by (unfold l2; by rewrite list_lookup_insert_ne).
    assert (H3n : <[i := ip3]> l2 !! n = Some np) by (by rewrite list_lookup_insert_ne). destruct (dropped_counts n _ np H3n) as [D5 D6].
    split; [rewrite D5, D3|intros q; rewrite D6, D4; specialize (S2 q); specialize (D2 q)];
      unfold nfree, refs, freed_by in *; rewrite (sumf_insert _ l2 i ip1) by done; rewrite ?N3, R3; [lia|].
    destruct (i_inum ip1 =? q), (i_inum np =? q); lia.
Qed.

Lemma namex_loop_spec fuel s i ip path np name (Q : option nat * list Z → fs T → Prop) :
  idle s → f_inodes s !! i = Some ip → 0 < i_ref ip → 2 ≤ nfree (dropped i (f_inodes s)) →
  length name = DIRSIZ → 0 ∉ path → (length path < fuel)%nat →
  (∀ r s', idle s' → result (f_inodes s) i (resolve np (i_inum ip) (components path)) r.1 (f_inodes s') → Q r s') →
  wp (namex_loop dev_read fuel i path np name) Q s.
Proof.
  revert s i ip path name. induction fuel as [|fuel IH]; intros s i ip path name J Hi Hp Hfree Hname H0 Hfuel HQ; [lia|].
  cbn [namex_loop]. pose proof (skipelem_spec path name Hname H0) as Hsk.
  destruct (skipelem path name) as [[path' name']|].
  2:{ rewrite Hsk in HQ. destruct np.
      - apply wp_bind. eapply iput_linked; [exact J|done|done|]. intros s1 J1 F1. apply wp_ret, HQ; [done|]. split; [done|]. by rewrite F1.
      - apply wp_ret, HQ; [done|]. by exists i, ip. }
  destruct Hsk as (e & Hcs & Hk & Hname' & Hnil & H0' & Hlen). rewrite Hcs in HQ. cbn [resolve] in HQ.
  apply wp_bind. eapply ilock_spec; [exact J|done|done|]. intros s1 ip1 O1 I1 F1 N1 R1 B1 V1.
  assert (H1 : f_inodes s1 !! i = Some ip1) by apply O1. assert (Hd1 : i_d ip1 = X (i_inum ip)) by (rewrite <- N1; apply O1).
  assert (Hlive : live (i_inum ip)) by (rewrite <- N1; apply O1).
  assert (Hv1 : fview s1 a w [] L) by apply O1. assert (Hs1 : f_sb s1 = sb) by apply O1.
  pose proof (locked_counts i _ ip ip1 Hi N1 R1) as Sl. rewrite <- F1 in Sl.
  assert (Hfail : ∀ s2, fview s2 a w [] L → f_sb s2 = sb → f_inodes s2 = f_inodes s1 →
    (∀ s3, idle s3 → same_counts (dropped i (f_inodes s)) (f_inodes s3) → Q (None, name') s3) →
    wp (iunlockput i;; mret (None, name')) Q s2).
  { intros s2 V2 E2 F2 HQ2. apply wp_bind. eapply iunlockput_spec; [exact V2|exact E2|by rewrite F2|by rewrite F2|lia|].
    intros s3 ip3 J3 _ _ _ S3. apply wp_ret, HQ2; [done|]. eapply same_counts_trans; [exact Sl|]. by rewrite F2 in S3. }
  apply wp_bind. eapply wp_rdi; [exact H1|]. rewrite Hd1.
  destruct (Z.eqb_spec (di_type (X (i_inum ip))) T_DIR) as [Hdir|Hdir]; cbn [negb] in *.
  2:{ apply Hfail; [done..|]. intros s3 J3 S3. by apply HQ. }
  destruct (Htree _ Hlive Hdir) as [Hisdir Hent]. rewrite (bool_decide_ext _ _ Hnil).
  destruct (np && bool_decide (components path' = [])) eqn:Hlast.
  { apply wp_bind. eapply iunlock_spec; [exact Hv1|exact Hs1|exact I1|exact H1|lia|]. intros s2 ip2 J2 F2 N2 R2.
    assert (H2 : f_inodes s2 !! i = Some ip2) by (rewrite F2; apply list_lookup_insert_eq; by eapply lookup_lt_Some).
    apply wp_ret, HQ; [done|]. exists i, ip2. split_and!; [done|done|lia|congruence|].
    eapply same_counts_trans; [exact Sl|]. rewrite F2. by eapply locked_counts. }
  assert (Hslot : ∃ j jp, f_inodes s1 !! j = Some jp ∧ i_ref jp = 0).
  { apply nfree_slot. destruct Sl as [Sl _], (dropped_counts i _ ip1 H1) as [D1 _]. unfold freed_by in D1.
    destruct (i_ref ip1 - 1 =? 0), (i_ref ip1 =? 0); lia. }
  assert (Hget : dir_get (fdata a (X (i_inum ip))) name' = dir_get (fdata a (X (i_inum ip))) e) by (by apply dir_get_key).
  apply wp_bind. eapply dirlookup_spec; [exact O1|by rewrite Hd1|done|right; by rewrite Hname'|exact Hslot| |]; rewrite Hd1, Hget.
  { intros Hg s2 O2 F2. apply Hfail; [apply O2|apply O2|done|]. intros s3 J3 S3. apply HQ; [done|].
    unfold dir_inum. rewrite Hg. done. }
  intros k n nip s2 Hg Hgot V2 E2 F2. set (j := de_inum (dent (fdata a (X (i_inum ip))) k)) in *.
  assert (Hj : dir_inum (fdata a (X (i_inum ip))) e = Some j) by (unfold dir_inum; by rewrite Hg).
  destruct (got_inode _ _ _ _ _ Hgot) as (_ & Nn & Rn & Ln).
  destruct (got_ok (Some i) _ n nip j I1) as (I2 & C1 & C2); [intros ? [= <-]; exists ip1; split; [done|lia]|by eapply Hent|done|].
  rewrite <- F2 in I2. assert (Hni : n = i → i_ref nip = i_ref ip1 + 1 ∧ i_inum nip = i_inum ip1).
  { intros ->. destruct Hgot as [ip' Hx _|ip' nip Hx Hz]; simplify_eq; [done|lia]. }
  assert (H2 : ∃ ip2, f_inodes s2 !! i = Some ip2 ∧ 0 < i_ref ip2 ∧ ip2 = if decide (n = i) then nip else ip1).
  { rewrite F2. destruct (decide (n = i)) as [->|Hne].
    - exists nip. by rewrite list_lookup_insert_eq.
    - exists ip1. rewrite list_lookup_insert_ne by done. split_and!; [done|lia|done]. }
  destruct H2 as (ip2 & H2 & P2 & Hip2).
  apply wp_bind. eapply iunlockput_spec; [exact V2|exact E2|exact I2|exact H2|exact P2|]. intros s3 ip3 J3 F3 N3 R3 _.
  rewrite F2 in F3.
  assert (S3 : same_counts (dropped i (f_inodes s)) (dropped n (f_inodes s3))).
  { eapply same_counts_trans; [exact Sl|]. eapply (step_counts i n _ ip1 nip _ ip3); [exact H1|lia|done|done|by split| |exact F3].
    case_decide; subst ip2; done. }
  assert (H3 : ∃ nip3, f_inodes s3 !! n = Some nip3 ∧ 0 < i_ref nip3 ∧ i_inum nip3 = j).
  { rewrite F3. destruct (decide (n = i)) as [->|Hne].
    - exists ip3. rewrite list_lookup_insert_eq by (by rewrite length_insert). destruct (Hni eq_refl). subst ip2. split_and!; [done|lia|congruence].
    - exists nip. rewrite list_lookup_insert_ne, list_lookup_insert_eq by done. done. }
  destruct H3 as (nip3 & H3 & P3 & M3).
  eapply (IH s3 n nip3); [exact J3|exact H3|exact P3| |done|done|lia|].
  - destruct S3 as [-> _]. done.
  - intros r s4 J4 R4. apply HQ; [done|]. rewrite Hj. simpl. rewrite M3 in R4. by eapply result_trans.
Qed.
End ops.
End cache.
