(* ===== verification/FsThms.v ===== *)
(** * The theorems about the file system

    Contents, directories, paths and attributes, over any implementation of
    transactions; the examples run on the log. *)

From S2P Require Import Prelude Bytes Str Bio BioView Log LogCrash Tx LogTx Fs FsBlock FsFile FsInv FsWritei FsDir FsPath.

Section thms.
Context {T : Type} `{!TxOps T} `{!TxLaws T}.
Context (dev_read : Z → option (nat → Z → M (fs T) (Z * list Z))) (dev_write : Z → option (nat → list Z → M (fs T) Z)).
Implicit Types (s : fs T) (a : store) (x : dinode) (sb : superblock) (L : list Z) (ip : inode) (l : list inode)
  (live : Z → Prop) (X : Z → dinode).

(** C5: writei() implements writing to an array of bytes. It refuses, with -1
    and no effect, an offset beyond the end and a range that wraps around or
    exceeds the largest file. Otherwise the n bytes replace those at the
    offset, the size grows to cover them, the inode is written to disk, no
    other file changes, and the invariant of the file system (every block of
    a file allocated and in no other file) is preserved. *)
Theorem writei_refines s a L i ip sb live X off src :
  let n := Z.of_nat (length src) in
  opened s a true L sb live X i ip → di_type (i_d ip) ≠ T_DEV →
  0 ≤ off < 2 ^ 32 → n < 2 ^ 31 → (length L + chunks n + 7 ≤ tx_cap)%nat → enough (2 * chunks n) a sb →
  wp (writei dev_write i src off) (λ r s',
    (write_refused (i_d ip) off n ∧ r = -1 ∧ s' = s) ∨
    (¬ write_refused (i_d ip) off n ∧ r = n ∧ ∃ a' L' x',
       opened s' a' true L' sb live (upd X (i_inum ip) x') i (ip <| i_d := x' |>) ∧
       di_size x' = Z.max (di_size (i_d ip)) (off + n) ∧
       fdata a' x' = overwrite (fdata a (i_d ip)) (Z.to_nat off) src ∧
       ∀ j, live j → j ≠ i_inum ip → fdata a' (X j) = fdata a (X j))) s.
Proof.
  intros n O Hty Hoff Hn Hcap He. eapply writei_spec; [exact O|done..| |].
  - intros Hr. by left.
  - intros Hr s' a' L' x' V' E' F' [WI WS Wx Wd Wo]. right. split; [done|]. split; [done|]. exists a', L', x'.
    destruct O as [V Hsb I S Hl Hi Hd Hx]. rewrite Hx. split; [|split; [by rewrite Wx|done]]. split; try done; [|by rewrite upd_eq].
    rewrite F'. apply list_lookup_insert_eq. by eapply lookup_lt_Some.
Qed.

(** What was written is what readi() returns: writei() of the bytes [src]
    followed by readi() of as many bytes at the same offset. *)
Theorem writei_readi s a L i ip sb live X off src :
  let n := Z.of_nat (length src) in
  opened s a true L sb live X i ip → di_type (i_d ip) ≠ T_DEV →
  0 ≤ off < 2 ^ 32 → n < 2 ^ 31 → (length L + chunks n + 7 ≤ tx_cap)%nat → enough (2 * chunks n) a sb →
  ¬ write_refused (i_d ip) off n →
  wp (_ ← writei dev_write i src off; readi dev_read i off n) (λ r _, r = (n, src)) s.
Proof.
  intros n O Hty Hoff Hn Hcap He Hok. apply wp_bind. eapply writei_spec; [exact O|done..|].
  intros _ s' a' L' x' V' E' F' [WI WS Wx Wd Wo]. destruct O as [V Hsb I S Hl Hi Hd Hx].
  pose proof (fv_size _ _ _ _ WI _ Hl) as Hsz. pose proof (fv_file _ _ _ _ WI _ Hl) as F. rewrite upd_eq in Hsz, F.
  assert (Hs : di_size x' = Z.max (di_size (X (i_inum ip))) (off + n)) by (by rewrite Wx).
  unfold write_refused in Hok. unfold MAXFILE, NDIRECT in *. rewrite BS_val in *. rewrite Hx in *.
  eapply (readi_spec dev_read s' a' true L' i (ip <| i_d := x' |>)); [exact V'| |done| |apply F| |simpl; lia|lia|lia|].
  - rewrite F'. apply list_lookup_insert_eq. by eapply lookup_lt_Some.
  - simpl. by rewrite Wx.
  - eapply tx_bound; exact V'.
  - intros s2 _ _ _. simpl. rewrite bool_decide_eq_false_2 by lia. rewrite Z.min_l by lia. f_equal.
    rewrite (content_within _ _ _ _ (Z.to_nat (di_size x'))) by lia. unfold fdata in Wd. rewrite Wd.
    unfold overwrite. rewrite drop_app_length' by (rewrite length_take, length_content; lia).
    rewrite take_app_length' by lia. done.
Qed.

(** C31: a directory is a map from names, cut at DIRSIZ bytes, to inode
    numbers. dirlink() of a name that is not in it adds exactly that name:
    looking up any name afterwards gives the new inode number for the new
    name and for every other name what it gave before. *)
Theorem dirlink_adds s a L sb live X dp ip name inum :
  opened s a true L sb live X dp ip → is_dir (i_d ip) → (length L + 9 ≤ tx_cap)%nat → readable DIRSIZ name → enough 4 a sb →
  0 < inum < 2 ^ 16 → di_size (i_d ip) + DIRENT ≤ MAXFILE * BS → 0 < nfree (f_inodes s) →
  dir_inum (fdata a (i_d ip)) name = None →
  wp (dirlink dev_read dev_write dp name inum) (λ r s', r = 0 ∧ ∃ a' L' x',
    opened s' a' true L' sb live (upd X (i_inum ip) x') dp (ip <| i_d := x' |>) ∧ is_dir x' ∧
    (∀ q, dir_inum (fdata a' x') q = if decide (dkey q = dkey name) then Some inum else dir_inum (fdata a (i_d ip)) q) ∧
    ∀ j, live j → j ≠ i_inum ip → fdata a' (X j) = fdata a (X j)) s.
Proof.
  intros O Hdir Hcap Hname He Hin Hmax Hfree%nfree_slot Hnone. unfold dir_inum at 1 in Hnone. apply fmap_None in Hnone.
  eapply dirlink_spec; try done. intros s' a' L' x' O' Ho Hd' Hl _. split; [done|]. by exists a', L', x'.
Qed.

(** A tree of directories on a file system that is in use. *)
Record fs_tree a sb live X : Prop := {
  tr_inv : fs_inv a sb live X;
  tr_sync : synced a sb live X;
  tr_type : ∀ k, live k → di_type (X k) ≠ 0;
  tr_link : ∀ k, live k → di_nlink (X k) ≠ 0;
  tr_dirs : ∀ k, live k → di_type (X k) = T_DIR → is_dir (X k) ∧ ∀ q j, dir_inum (fdata a (X k)) q = Some j → live j;
  tr_root : live ROOTINO;
  tr_dev : ROOTDEV = tx_dev;
}.

(** Where a path starts. *)
Definition start (path : list Z) (cwd : inode) : Z := if bool_decide (head path = Some slash) then ROOTINO else i_inum cwd.

Lemma namex_spec s a w L sb live X cwd ip path np name (Q : option nat * list Z → fs T → Prop) :
  fs_tree a sb live X → idle live X a w L sb s → f_inodes s !! cwd = Some ip → 0 < i_ref ip → 2 ≤ nfree (f_inodes s) →
  length name = DIRSIZ → 0 ∉ path →
  (∀ r s', idle live X a w L sb s' →
     match resolve X a np (start path ip) (components path) with
     | None => r.1 = None ∧ same_counts (f_inodes s) (f_inodes s')
     | Some k => ∃ j jp, r.1 = Some j ∧ f_inodes s' !! j = Some jp ∧ 0 < i_ref jp ∧ i_inum jp = k ∧
         same_counts (f_inodes s) (dropped j (f_inodes s'))
     end → Q r s') →
  wp (namex dev_read cwd path np name) Q s.
Proof.
  intros [I S Hty Hln Hdirs Hroot Hdev] J Hcwd Hp Hfree Hname H0 HQ. unfold namex, start in *. apply wp_bind.
  assert (Hb : (length L ≤ tx_cap)%nat) by (eapply tx_bound, J).
  assert (Hloop : ∀ s1 i ip1, idle live X a w L sb s1 → f_inodes s1 !! i = Some ip1 → 0 < i_ref ip1 →
    i_inum ip1 = (if bool_decide (head path = Some slash) then ROOTINO else i_inum ip) →
    same_counts (f_inodes s) (dropped i (f_inodes s1)) → wp (namex_loop dev_read (length path + 1) i path np name) Q s1).
  { intros s1 i ip1 J1 Hi1 Hp1 Hn1 S1. eapply (namex_loop_spec live X a w L sb); try done; [by destruct S1 as [-> _]|lia|].
    rewrite Hn1. intros r s' J' R'. apply HQ; [done|]. unfold result in R'. destruct (resolve _ _ _ _ _) as [k|].
    - destruct R' as (j & jp & ? & ? & ? & ? & ?). exists j, jp. split_and!; try done. by eapply same_counts_trans.
    - destruct R' as [? ?]. split; [done|]. by eapply same_counts_trans. }
  rewrite Nat.add_1_r in Hloop. destruct J as (V & E & IC). case_bool_decide as Habs.
  - rewrite Hdev. eapply iget_spec; [apply nfree_slot; lia|]. intros i ip' Hgot.
    destruct (got_inode _ _ _ _ _ Hgot) as (_ & Nn & Rn & Ln). destruct (got_ok live X None _ i ip' ROOTINO IC) as (I2 & C1 & C2); [done..|].
    eapply Hloop; [by split_and!|by apply list_lookup_insert_eq|done|done|by split].
  - unfold idup. apply wp_bind. eapply wp_wri; [done|]. apply wp_ret.
    assert (Hgot : got tx_dev (i_inum ip) (f_inodes s) cwd (ip <| i_ref := i_ref ip + 1 |>)).
    { apply got_cached; [done|]. split; [done|]. by destruct (ic_dev _ _ _ _ IC cwd ip Hcwd Hp). }
    destruct (got_ok live X None _ cwd (ip <| i_ref := i_ref ip + 1 |>) (i_inum ip) IC) as (I2 & C1 & C2); [done|by destruct (ic_dev _ _ _ _ IC cwd ip Hcwd Hp)|exact Hgot|].
    eapply Hloop; [by split_and!|apply list_lookup_insert_eq; by eapply lookup_lt_Some|simpl; lia|done|by split].
Qed.

(** C6: namei() follows the path. The components between the slashes are
    looked up one after the other, from the root for a path that starts with
    a slash and from the current directory otherwise. It returns 0 if a
    component is missing or an inode before the last is not a directory, and
    then the reference counts are what they were; otherwise it returns the
    inode that the components lead to, with one more reference. *)
Theorem namei_resolves s a w L sb live X cwd ip path :
  fs_tree a sb live X → idle live X a w L sb s → f_inodes s !! cwd = Some ip → 0 < i_ref ip → 2 ≤ nfree (f_inodes s) → 0 ∉ path →
  wp (namei dev_read cwd path) (λ r s', idle live X a w L sb s' ∧
    match resolve X a false (start path ip) (components path) with
    | None => r = None ∧ ∀ q, refs q (f_inodes s') = refs q (f_inodes s)
    | Some k => ∃ j jp, r = Some j ∧ f_inodes s' !! j = Some jp ∧ i_inum jp = k ∧
        ∀ q, refs q (f_inodes s') = refs q (f_inodes s) + (if k =? q then 1 else 0)
    end) s.
Proof.
  intros HT J Hcwd Hp Hfree H0. unfold namei. apply wp_bind. eapply namex_spec; try done. intros r s' J' R'. apply wp_ret. split; [done|].
  destruct (resolve _ _ _ _ _) as [k|].
  - destruct R' as (j & jp & Hr & Hj & Hpj & Hk & [_ C]). exists j, jp. split_and!; try done. intros q. specialize (C q).
    destruct (dropped_counts j _ jp Hj) as [_ D]. rewrite D, Hk in C. lia.
  - destruct R' as [Hr [_ C]]. done.
Qed.

Lemma tree_home a a' sb live X : fs_tree a sb live X → (∀ b, tx_home b → a' (tx_dev, b) = a (tx_dev, b)) → fs_tree a' sb live X.
Proof.
  intros [I S Hty Hln Hdirs Hroot Hdev] H. destruct (inv_home a a' sb live X I H) as [I' Hj]. split; try done.
  - intros j Hl. destruct (Hj j Hl) as [-> _]. by apply S.
  - intros k Hl Hk. destruct (Hj k Hl) as [_ ->]. by apply Hdirs.
Qed.

(** An attribute of inode [i] is changed and the inode written. *)
Lemma tree_attr a sb live X i x : fs_tree a sb live X → live i → full a → dinode_ok x →
  di_type x = di_type (X i) → di_nlink x = di_nlink (X i) → di_addrs x = di_addrs (X i) → di_size x = di_size (X i) →
  fs_tree (put_inode a sb i x) sb live (upd X i x).
Proof.
  intros [I S Hty Hln Hdirs Hroot Hdev] Hi Hf Hx Ht Hn Ha Hs. pose proof (inv_attr a sb live X i x I Hi Hx Ha Hs) as I1.
  destruct (put_inode_inv a sb live (upd X i x) i x I1 Hi) as [I2 D2]. pose proof (fv_inum _ _ _ _ I) as Hpos. split; try done.
  - intros j Hj. destruct (decide (j = i)) as [->|Hne]; [rewrite upd_eq; by apply put_inode_at|].
    rewrite upd_ne, put_inode_other by (done || by apply Hpos || apply Hx || congruence). by apply S.
  - intros k Hk. unfold upd. case_decide; [subst; rewrite Ht|]; by apply Hty.
  - intros k Hk. unfold upd. case_decide; [subst; rewrite Hn|]; by apply Hln.
  - intros k Hk Hd. rewrite D2 by done. unfold upd in *. case_decide; [|by apply Hdirs]. subst k.
    rewrite Ht in Hd. destruct (Hdirs i Hk Hd) as [[H1 H2] H3]. split; [split; congruence|]. by rewrite (fdata_attr a (X i)).
Qed.

Lemma ic_attr live X b l i ip x : ic_ok live X b l → l !! i = Some ip → 0 < i_ref ip →
  ic_ok live (upd X (i_inum ip) x) b (<[i := ip <| i_d := x |>]> l).
Proof.
  intros I Hi Hp. assert (Hcase : ∀ j jp, <[i := ip <| i_d := x |>]> l !! j = Some jp →
    j = i ∧ jp = ip <| i_d := x |> ∨ j ≠ i ∧ l !! j = Some jp).
  { intros j jp Hj. destruct (decide (j = i)) as [->|Hne].
    - rewrite list_lookup_insert_eq in Hj by (by eapply lookup_lt_Some). left. split; [done|congruence].
    - rewrite list_lookup_insert_ne in Hj by done. by right. }
  split.
  - intros j jp [[-> ->]|[_ Hj]]%Hcase; [simpl; lia|]. by eapply ic_ref.
  - intros j k jp kp [[-> ->]|[Hnj Hj]]%Hcase [[-> ->]|[Hnk Hk]]%Hcase Hpj Hpk He; [done|by eapply (ic_uniq _ _ _ _ I)..].
  - intros j jp [[-> ->]|[_ Hj]]%Hcase Hpj; [exact (ic_dev _ _ _ _ I i ip Hi Hp)|by eapply ic_dev].
  - intros j jp [[-> ->]|[Hne Hj]]%Hcase Hpj Hv; [simpl; by rewrite upd_eq|]. rewrite upd_ne; [by eapply ic_valid|].
    intros He. apply Hne. by eapply (ic_uniq _ _ _ _ I).
  - intros j jp [[-> ->]|[_ Hj]]%Hcase Hpj; [exact (ic_busy _ _ _ _ I i ip Hi Hp)|by eapply ic_busy].
Qed.

(** The inode with another mode. *)
Definition with_mode x (mode : Z) : dinode := x <| di_mode := u32 mode |>.

Lemma with_mode_ok x mode : dinode_ok x → dinode_ok (with_mode x mode).
Proof. intros H. split; try apply H. simpl. apply u32_range. Qed.

(** Chmod() changes the mode of the inode that the path leads to, and
    nothing else on disk, but it never calls iput(): each time the path is
    found, also when the mode is refused, the inode keeps one more
    reference, so that its slot in the cache is never free again. *)
Theorem chmod_keeps_reference s a sb live X cwd ip path mode :
  fs_tree a sb live X → idle live X a false [] sb s → f_inodes s !! cwd = Some ip → 0 < i_ref ip → 2 ≤ nfree (f_inodes s) → 0 ∉ path →
  (0 < tx_cap)%nat →
  wp (chmod dev_read cwd path mode) (λ r s', ∃ a' X', fs_tree a' sb live X' ∧ idle live X' a' false [] sb s' ∧
    match resolve X a false (start path ip) (components path) with
    | None => r = -1 ∧ X' = X ∧ ∀ q, refs q (f_inodes s') = refs q (f_inodes s)
    | Some k => (r = if 1023 <? mode then -1 else 0) ∧
        X' = (if 1023 <? mode then X else upd X k (with_mode (X k) mode)) ∧
        ∀ q, refs q (f_inodes s') = refs q (f_inodes s) + (if k =? q then 1 else 0)
    end) s.
Proof.
  intros HT (V & E & IC) Hcwd Hp Hfree H0 Hcap. pose proof HT as [I S Hty Hln _ _ _]. unfold chmod. apply wp_bind.
  eapply wp_fbegin; [exact V|]. intros s1 V1 E1 F1. rewrite <- F1 in Hcwd, Hfree, IC.
  assert (J1 : idle live X a true [] sb s1) by (split_and!; [done|congruence|done]).
  apply wp_bind. unfold namei. apply wp_bind. eapply namex_spec; try done. intros r s2 J2 R2. apply wp_ret.
  assert (Hend : ∀ (z : Z) s3 a3 L3 X3 (Q : Z → fs T → Prop), fs_tree a3 sb live X3 → idle live X3 a3 true L3 sb s3 →
    (∀ s4 a4, fs_tree a4 sb live X3 → idle live X3 a4 false [] sb s4 → f_inodes s4 = f_inodes s3 → Q z s4) →
    wp (ft tx_end_op;; mret z) Q s3).
  { intros z s3 a3 L3 X3 Q HT3 (V3 & E3 & IC3) HQ. apply wp_bind. eapply wp_fend; [exact V3|]. intros s4 a4 V4 Ha4 E4 F4.
    apply wp_ret. apply (HQ s4 a4); [by eapply tree_home|split_and!; [done|congruence|by rewrite F4]|done]. }
  destruct (resolve X a false (start path ip) (components path)) as [k|].
  2:{ destruct R2 as [-> [_ C]]. rewrite F1 in C. eapply Hend; [exact HT|exact J2|]. intros s3 a3 HT3 J3 F3. exists a3, X.
      rewrite F3. done. }
  destruct R2 as (j & jp & -> & Hj & Hpj & Hk & [_ C]). rewrite F1 in C.
  assert (Hrefs : ∀ q, refs q (f_inodes s2) = refs q (f_inodes s) + (if k =? q then 1 else 0)).
  { intros q. specialize (C q). destruct (dropped_counts j _ jp Hj) as [_ D]. rewrite D, Hk in C. lia. }
  destruct (1023 <? mode).
  { eapply Hend; [exact HT|exact J2|]. intros s3 a3 HT3 J3 F3. exists a3, X. rewrite F3. done. }
  apply wp_bind. eapply (ilock_spec live X a true [] sb I S ltac:(simpl; lia) Hty Hln); [exact J2|exact Hj|done|].
  intros s3 jp3 O3 I3 F3 N3 R3 B3 V3. set (x := with_mode (X k) mode). pose proof O3 as [V3' E3 _ _ Hl3 Hj3 Hd3 Hx3].
  rewrite N3, Hk in Hl3, Hx3. apply wp_bind. eapply wp_wri; [exact Hj3|].
  assert (Hx : jp3 <| i_d ::= λ d, d <| di_mode := u32 mode |> |> = jp3 <| i_d := x |>) by (unfold x, with_mode; by rewrite <- Hx3).
  cbv beta. rewrite Hx.
  pose proof (ic_attr live X _ _ j jp3 x I3 Hj3 ltac:(lia)) as I4. rewrite N3, Hk in I4.
  assert (Hjp4 : <[j := jp3 <| i_d := x |>]> (f_inodes s3) !! j = Some (jp3 <| i_d := x |>)).
  { apply list_lookup_insert_eq. by eapply lookup_lt_Some. }
  pose proof (fv_dinode _ _ _ _ I k Hl3) as Hdk. destruct (fv_block _ _ _ _ I k Hl3) as (Hb1 & Hb2 & _).
  pose proof (mo_size _ _ (fv_map _ _ _ _ I)).
  apply wp_bind. eapply (iupdate_spec _ a [] j (jp3 <| i_d := x |>) sb); [exact V3'|exact Hjp4|done|done| | | |done|];
    cbn [i_inum i_d field_upd inode_eta]; rewrite ?N3, ?Hk; [lia|done|apply Hdk|].
  intros s5 V5 E5 F5. assert (HT5 : fs_tree (put_inode a sb k x) sb live (upd X k x)).
  { apply tree_attr; try done; [by eapply tx_full|by apply with_mode_ok]. }
  apply wp_bind. eapply (iunlock_spec live (upd X k x) (put_inode a sb k x) true); [eapply tx_bound; exact V5|exact V5|exact E5|by rewrite F5|by rewrite F5|simpl; lia|].
  intros s6 jp6 J6 F6 N6 R6. eapply Hend; [exact HT5|exact J6|]. intros s7 a7 HT7 J7 F7. exists a7, (upd X k x).
  split; [done|]. split; [done|]. split; [done|]. split; [done|]. intros q. rewrite F7, F6, F5, <- Hrefs. simpl.
  rewrite list_insert_insert_eq, F3, list_insert_insert_eq. simpl in N6, R6. apply (counts_insert j _ jp); [done|congruence|congruence].
Qed.
End thms.
