(* ===== verification/FsDemo.v ===== *)
(** * A small file system on the log

    The root directory with one file of five bytes: the theorems of FsThms on
    a disk that was booted. *)

From S2P Require Import Prelude Bytes Str Bio BioView Log LogCrash Tx LogTx Fs FsBlock FsFile FsInv FsWritei FsDir FsPath FsThms.

#[local] Instance demo_laws : TxLaws log :=
  log_laws 1 2 29 (or_intror eq_refl) ltac:(done) ltac:(done) ltac:(done).

(** ** The disk *)

Definition pad (n : nat) (l : list Z) : list Z := l ++ replicate (n - length l) 0.
Definition fs_sb : superblock := mkSb 100 60 16 30 2 32 34.
Definition sb_block : list Z := put_words zero_block 0 [100; 60; 16; 30; 2; 32; 34].
Definition root_d : dinode := mkDinode T_DIR 0 0 1 0 0 0 48 (35 :: replicate 10 0).
Definition file_d : dinode := mkDinode T_FILE 0 0 1 0 0 0 5 (36 :: replicate 10 0).
Definition inode_block : list Z := put_dinode (put_dinode zero_block (dinode_off 1) root_d) (dinode_off 2) file_d.
Definition bitmap : list Z := foldl set_bit zero_block (seqZ 0 37).
Definition dir_block : list Z :=
  pad BSIZE (mk_dirent 1 (pad DIRSIZ [46]) ++ mk_dirent 1 (pad DIRSIZ [46; 46]) ++ mk_dirent 2 (pad DIRSIZ [102])).
Definition file_block : list Z := pad BSIZE [104; 101; 108; 108; 111].
Definition fs_disk : disk :=
  [((1, 36), file_block); ((1, 35), dir_block); ((1, 34), bitmap); ((1, 32), inode_block); ((1, 1), sb_block)].

Definition demo_live (k : Z) : Prop := k = 1 ∨ k = 2.
Definition demo_X (k : Z) : dinode := if k =? 1 then root_d else file_d.

(** ** The log after the boot and in a transaction *)

Definition fs_log : log := after (boot 1) (booting fs_disk true).
Definition fs_store : store := disk_at (bio_disk (lg_bio fs_log)).
Definition fs_log1 : log := after begin_op fs_log.

Lemma disk_at_full (D : disk) : forallb (λ w, Nat.eqb (length w.2) BSIZE) D = true → full (disk_at D).
Proof.
  induction D as [|[k x] D IH]; simpl; intros H j; [apply zero_full|].
  apply andb_true_iff in H as [H1%Nat.eqb_eq H2]. simpl. case_decide; [done|]. by apply IH.
Qed.

Lemma fs_means : means 1 2 29 fs_disk [] (disk_at fs_disk).
Proof.
  split.
  - split; [by right|lia|unfold FSSIZE; lia|set_solver].
  - constructor.
  - simpl; lia.
  - simpl; lia.
  - apply head_of_nil. vm_compute; reflexivity.
  - done.
  - done.
  - apply disk_at_full. vm_compute; reflexivity.
  - vm_compute; reflexivity.
  - split; [lia|set_solver].
Qed.

Lemma fs_full : full fs_store.
Proof. apply disk_at_full. vm_compute; reflexivity. Qed.

Lemma fresh_view (s : log) (a : store) : view (lg_bio s) a [] [] → log_at 1 2 s [] → full a →
  bio_havedisk1 (lg_bio s) = true → lg_size s = 30 → lg_outstanding s = 0 → lg_committing s = false → log_view 1 2 29 s a false [] [].
Proof.
  intros V HL Hf Hh Hs Ho Hc. split; [done|done|done|set_solver|by right|constructor|set_solver|simpl; lia|done..].
Qed.

Lemma fs_log_view : log_view 1 2 29 fs_log fs_store false [] [].
Proof.
  assert (Hb := boot_spec 1 2 29 fs_disk true [] _ fs_means (or_intror eq_refl)).
  assert (Hr : boot 1 (booting fs_disk true) = Done tt fs_log) by (vm_compute; reflexivity).
  destruct (wp_inv _ _ _ _ _ Hb Hr) as (_ & HL & V & _).
  apply (fresh_view fs_log fs_store V HL fs_full); vm_compute; reflexivity.
Qed.

Lemma fs_log1_view : log_view 1 2 29 fs_log1 fs_store true [] [].
Proof.
  pose proof (log_begin_law 1 2 29 fs_log fs_store fs_log_view) as Hb.
  assert (Hr : begin_op fs_log = Done tt fs_log1) by (vm_compute; reflexivity).
  exact (wp_inv _ _ _ _ _ Hb Hr).
Qed.

(** ** The invariant *)

(** A file of one block. *)
Lemma one_block a sb x b : map_ok a sb → di_addrs x = b :: replicate NDIRECT 0 → 0 < b < sb_size sb → tx_home b → b ≠ bm sb →
  used a sb b = true → file_ok a sb x 1.
Proof.
  intros MO Ha Hb Hh Hn Hu. pose proof (mo_size _ _ MO) as Hsz.
  assert (H0 : blk a x 0 = b) by (unfold blk, addr; simpl; by rewrite Ha).
  assert (Hi : ind x = 0) by (unfold addr; by rewrite Ha).
  assert (Hz : ∀ bn, 1 ≤ bn → blk a x bn = 0).
  { intros bn Hbn. unfold blk. rewrite Hi. destruct (Z.ltb_spec bn (Z.of_nat NDIRECT)); [|done]. unfold addr. rewrite Ha.
    replace (Z.to_nat bn) with (S (Z.to_nat bn - 1)) by lia.
    change (default 0 (replicate NDIRECT 0 !! (Z.to_nat bn - 1)%nat) = 0). rewrite lookup_replicate_2 by (unfold NDIRECT in *; lia). done. }
  assert (Hone : ∀ bn, 0 ≤ bn < 1 → blk a x bn = b) by (intros bn Hbn; by replace bn with 0 by lia).
  split.
  - split; [by rewrite Ha|unfold MAXFILE, NDIRECT; lia| |unfold NDIRECT; lia]. intros bn Hbn. rewrite Hone by done. lia.
  - lia.
  - intros bn Hbn. apply Hz. lia.
  - intros bn bn' H1 H2 _. lia.
  - intros bn Hbn. by right.
  - intros c [(bn & Hbn & ->)|[-> Hne]]; [|congruence]. by rewrite Hone.
Qed.

Lemma demo_map : map_ok fs_store fs_sb.
Proof.
  split; [unfold FSSIZE; simpl; lia|unfold FSSIZE; simpl; split; [split; unfold FSSIZE; lia|lia]|].
  intros b Hb Hu. assert (Hall : forallb (λ c, used fs_store fs_sb c || (36 <? c)) (seqZ 0 100) = true) by (vm_compute; reflexivity).
  rewrite forallb_forall in Hall. specialize (Hall b). rewrite <- list_elem_of_In, elem_of_seqZ, Hu in Hall. simpl in Hb.
  specialize (Hall ltac:(lia)). apply Z.ltb_lt in Hall. simpl. unfold home_block, FSSIZE, bm. simpl. lia.
Qed.

Lemma demo_file k : demo_live k → file_ok fs_store fs_sb (demo_X k) 1.
Proof.
  pose proof demo_map. intros [->| ->]; [apply (one_block _ _ _ 35)|apply (one_block _ _ _ 36)]; try done;
    try (simpl; unfold home_block, FSSIZE, bm; simpl; lia); vm_compute; reflexivity.
Qed.

Lemma demo_owns k b : demo_live k → own fs_store demo_X k b → b = 34 + k.
Proof.
  intros Hk. assert (Hnb : nb (demo_X k) = 1) by (by destruct Hk as [->| ->]). unfold own. rewrite Hnb.
  intros [(bn & Hbn & ->)|[-> Hne]]; [replace bn with 0 by lia|]; destruct Hk as [->| ->]; try done; vm_compute; reflexivity.
Qed.

Lemma demo_inv : fs_inv fs_store fs_sb demo_live demo_X.
Proof.
  split.
  - exact demo_map.
  - intros k Hk. pose proof (demo_file k Hk) as F. by destruct Hk as [->| ->].
  - intros k [->| ->]; split; vm_compute; discriminate.
  - intros k [->| ->]; lia.
  - intros k Hk. assert (IBLOCK k fs_sb = 32) as -> by (by destruct Hk as [->| ->]).
    split; [simpl; lia|]. split; [simpl; unfold home_block, FSSIZE; lia|]. split; [done|]. vm_compute; reflexivity.
  - intros i j Hi Hj Ho%demo_owns; [|done]. destruct Hi as [->| ->], Hj as [->| ->]; discriminate Ho.
  - intros i j b Hi Hj Hne Ho%demo_owns Ho'%demo_owns; [|done..]. lia.
  - intros k [->| ->]; split; simpl; try lia; try done; repeat constructor; lia.
Qed.

Lemma demo_sync : synced fs_store fs_sb demo_live demo_X.
Proof. intros k [->| ->]; vm_compute; reflexivity. Qed.

Lemma demo_dir q j : dir_inum (fdata fs_store root_d) q = Some j → demo_live j.
Proof.
  unfold dir_inum. pose proof (find_ent_spec (hit q) (fdata fs_store root_d) 0 (dcount (fdata fs_store root_d))) as H.
  fold (dir_get (fdata fs_store root_d) q) in H. destruct (dir_get _ q) as [k|]; [|done]. intros [= <-].
  assert (Hc : dcount (fdata fs_store root_d) = 3%nat) by (vm_compute; reflexivity). rewrite Hc in H.
  destruct H as [Hk _]. destruct k as [|[|[|k]]]; [left; vm_compute; reflexivity|left; vm_compute; reflexivity|right; vm_compute; reflexivity|lia].
Qed.

Lemma demo_tree : fs_tree fs_store fs_sb demo_live demo_X.
Proof.
  split; [exact demo_inv|exact demo_sync|by intros k [->| ->]|by intros k [->| ->]| |by left|done].
  intros k [->| ->]; [|done]. intros _. split; [done|]. exact demo_dir.
Qed.

(** The current directory is the root, in slot 0; slot 1 has the file. *)
Definition free_inode : inode := mkInode 0 0 0 false false (mkDinode 0 0 0 0 0 0 0 0 []).
Definition demo_inodes : list inode :=
  [mkInode 1 1 1 false true root_d; mkInode 1 2 1 false true file_d; free_inode; free_inode].
Definition demo_fs (t : log) : fs log := mkFs t fs_sb demo_inodes.

Lemma demo_ic : ic_ok demo_live demo_X None demo_inodes.
Proof.
  assert (Hcase : ∀ i ip, demo_inodes !! i = Some ip → i_ref ip = 0 ∨ i = 0%nat ∧ ip = mkInode 1 1 1 false true root_d ∨
    i = 1%nat ∧ ip = mkInode 1 2 1 false true file_d).
  { intros [|[|[|[|i]]]] ip [= <-]; auto. }
  split.
  - intros i ip [?|[[-> ->]|[-> ->]]]%Hcase; simpl; lia.
  - intros i j ip jp [?|[[-> ->]|[-> ->]]]%Hcase [?|[[-> ->]|[-> ->]]]%Hcase; simpl; try done; lia.
  - intros i ip [?|[[-> ->]|[-> ->]]]%Hcase; simpl; [lia|by split; [|left]|by split; [|right]].
  - intros i ip [?|[[-> ->]|[-> ->]]]%Hcase; simpl; [lia|done..].
  - intros i ip [?|[[-> ->]|[-> ->]]]%Hcase; simpl; [lia|done..].
Qed.

Lemma demo_fs_idle : idle demo_live demo_X fs_store false [] fs_sb (demo_fs fs_log).
Proof. split; [exact fs_log_view|]. split; [done|exact demo_ic]. Qed.

Lemma demo_opened i ip : demo_inodes !! i = Some ip → demo_live (i_inum ip) → i_dev ip = 1 → i_d ip = demo_X (i_inum ip) →
  opened (demo_fs fs_log1) fs_store true [] fs_sb demo_live demo_X i ip.
Proof. intros Hi Hl Hd Hx. split; [exact fs_log1_view|done|exact demo_inv|exact demo_sync|done|exact Hi|done|done]. Qed.

Lemma demo_enough : enough 4 fs_store fs_sb.
Proof.
  exists [60; 61; 62; 63]. split_and!; [repeat (constructor; [set_solver|]); constructor|simpl; lia|].
  intros b Hb. assert (Hall : forallb (λ c, negb (used fs_store fs_sb c) && (0 <=? c) && (c <? 100)) [60; 61; 62; 63] = true)
    by (vm_compute; reflexivity).
  rewrite forallb_forall in Hall. specialize (Hall b). rewrite <- list_elem_of_In in Hall. specialize (Hall Hb).
  apply andb_true_iff in Hall as [Hall H3%Z.ltb_lt]. apply andb_true_iff in Hall as [H1%negb_true_iff H2%Z.leb_le].
  split; [simpl; lia|exact H1].
Qed.

(** ** The theorems on this file system *)

Definition no_read (_ : Z) : option (nat → Z → M (fs log) (Z * list Z)) := None.
Definition no_write (_ : Z) : option (nat → list Z → M (fs log) Z) := None.

(** Three bytes at offset 3 of the file. *)
Lemma writei_refines_witness :
  wp (writei no_write 1 [1; 2; 3] 3) (λ r s', r = 3 ∧ ∃ a' x', fdata a' x' = [104; 101; 108; 1; 2; 3]) (demo_fs fs_log1).
Proof.
  eapply wp_mono; [apply (writei_refines no_write (demo_fs fs_log1) fs_store [] 1 (mkInode 1 2 1 false true file_d) fs_sb demo_live demo_X 3 [1; 2; 3])|].
  - apply demo_opened; [reflexivity|right; reflexivity|reflexivity|reflexivity].
  - discriminate.
  - lia.
  - simpl; lia.
  - vm_compute. lia.
  - exact demo_enough.
  - assert (Hno : ¬ write_refused file_d 3 3) by (unfold write_refused; vm_compute; intros [H|[H|H]]; congruence).
    intros r s' [[H _]|(_ & -> & a' & L' & x' & _ & _ & Hd & _)]; [destruct (Hno H)|]. split; [reflexivity|].
    exists a', x'. rewrite Hd. vm_compute. reflexivity.
Defined.

Lemma writei_readi_witness :
  wp (_ ← writei no_write 1 [1; 2; 3] 3; readi no_read 1 3 3) (λ r _, r = (3, [1; 2; 3])) (demo_fs fs_log1).
Proof.
  apply (writei_readi no_read no_write (demo_fs fs_log1) fs_store [] 1 (mkInode 1 2 1 false true file_d) fs_sb demo_live demo_X 3 [1; 2; 3]).
  - apply demo_opened; [reflexivity|right; reflexivity|reflexivity|reflexivity].
  - discriminate.
  - lia.
  - simpl; lia.
  - vm_compute. lia.
  - exact demo_enough.
  - unfold write_refused; vm_compute; intros [H|[H|H]]; congruence.
Defined.

(** The name g for the file in the root directory. *)
Lemma dirlink_adds_witness :
  wp (dirlink no_read no_write 0 [103; 0] 2) (λ r s', r = 0 ∧ ∃ a' x', dir_inum (fdata a' x') [103; 0] = Some 2 ∧
    dir_inum (fdata a' x') [102; 0] = Some 2 ∧ dir_inum (fdata a' x') [104; 0] = None) (demo_fs fs_log1).
Proof.
  eapply wp_mono; [apply (dirlink_adds no_read no_write (demo_fs fs_log1) fs_store [] fs_sb demo_live demo_X 0
    (mkInode 1 1 1 false true root_d) [103; 0] 2)|].
  - apply demo_opened; [reflexivity|left; reflexivity|reflexivity|reflexivity].
  - split; reflexivity.
  - vm_compute. lia.
  - left. right. left.
  - exact demo_enough.
  - lia.
  - vm_compute; discriminate.
  - vm_compute; reflexivity.
  - vm_compute; reflexivity.
  - intros r s' (-> & a' & L' & x' & _ & _ & Hd & _). split; [reflexivity|]. exists a', x'. rewrite !Hd.
    split; [|split]; vm_compute; reflexivity.
Defined.

(** The path /f leads to inode 2. *)
Lemma namei_resolves_witness :
  wp (namei no_read 0 [47; 102]) (λ r s', ∃ j jp, r = Some j ∧ f_inodes s' !! j = Some jp ∧ i_inum jp = 2 ∧ refs 2 (f_inodes s') = 2)
    (demo_fs fs_log).
Proof.
  eapply wp_mono; [apply (namei_resolves no_read (demo_fs fs_log) fs_store false [] fs_sb demo_live demo_X 0
    (mkInode 1 1 1 false true root_d) [47; 102] demo_tree demo_fs_idle)|].
  - reflexivity.
  - simpl; lia.
  - vm_compute; discriminate.
  - intros H%list_elem_of_In. simpl in H. lia.
  - assert (Hr : resolve demo_X fs_store false (start [47; 102] (mkInode 1 1 1 false true root_d)) (components [47; 102]) = Some 2)
      by (vm_compute; reflexivity).
    rewrite Hr. intros r s' (_ & j & jp & H1 & H2 & H3 & H4). exists j, jp. split; [exact H1|]. split; [exact H2|]. split; [exact H3|].
    rewrite H4. vm_compute. reflexivity.
Defined.

Lemma chmod_keeps_reference_witness :
  wp (chmod no_read 0 [47; 102] 420) (λ r s', r = 0 ∧ refs 2 (f_inodes s') = 2) (demo_fs fs_log).
Proof.
  eapply wp_mono; [apply (chmod_keeps_reference no_read (demo_fs fs_log) fs_store fs_sb demo_live demo_X 0
    (mkInode 1 1 1 false true root_d) [47; 102] 420 demo_tree demo_fs_idle)|].
  - reflexivity.
  - simpl; lia.
  - vm_compute; discriminate.
  - intros H%list_elem_of_In. simpl in H. lia.
  - vm_compute. lia.
  - assert (Hr : resolve demo_X fs_store false (start [47; 102] (mkInode 1 1 1 false true root_d)) (components [47; 102]) = Some 2)
      by (vm_compute; reflexivity).
    rewrite Hr. intros r s' (a' & X' & _ & _ & H1 & _ & H2). split; [exact H1|]. rewrite H2. vm_compute. reflexivity.
Defined.
