(* ===== verification/Mkfs.v ===== *)
(** * Making a file system (mkfs.c)

    The image is the disk the kernel will find as drive 1, with the number of
    blocks the file has so far; the pieces read() delivers of each file are
    given. xshort() and xint() put the bytes of a number in the order of the
    disk: numbers are stored with [put_le]. A failed assertion and exit(1) are
    [Panic]. *)

From S2P Require Import Prelude Bytes Str Bio BioView Log LogSpace Fs.

Definition NINODES : Z := 200.
Definition nbitmap : Z := FSSIZE / (Z.of_nat BSIZE * 8) + 1.
Definition ninodeblocks : Z := NINODES / IPB + 1.
Definition nmeta : Z := 2 + nlog + ninodeblocks + nbitmap.

Definition mk_sb : superblock :=
  mkSb FSSIZE (FSSIZE - nmeta) NINODES nlog 2 (2 + nlog) (2 + nlog + ninodeblocks).

Record mkfs : Type := mkMkfs { mk_img : disk; mk_len : Z; freeinode : Z; freeblock : Z }.
#[export] Instance mkfs_eta : Eta mkfs := λ s, mkMkfs (mk_img s) (mk_len s) (freeinode s) (freeblock s).

Abbreviation K := (M mkfs).

(** ** Sectors *)

(** write() behind the end of the file extends it. *)
Definition wsect (sec : Z) (buf : list Z) : K unit :=
  modify (λ s, s <| mk_img ::= cons ((ROOTDEV, sec), buf) |> <| mk_len ::= Z.max (sec + 1) |>).

Definition rsect (sec : Z) : K (list Z) :=
  s ← get;
  panic_if (mk_len s <=? sec) "read";;
  mret (disk_at (mk_img s) (ROOTDEV, sec)).

(** ** Inodes *)

Definition winode (inum : Z) (ip : dinode) : K unit :=
  let bn := IBLOCK inum mk_sb in
  buf ← rsect bn;
  wsect bn (put_dinode buf (dinode_off inum) ip).

Definition rinode (inum : Z) : K dinode :=
  buf ← rsect (IBLOCK inum mk_sb);
  mret (get_dinode buf (dinode_off inum)).

Definition new_dinode (type : Z) : dinode :=
  mkDinode type 0 0 1 DEFAULTUID DEFAULTGID DEFAULTMODE 0 (replicate (S NDIRECT) 0).

Definition mk_ialloc (type : Z) : K Z :=
  inum ← gets freeinode;
  modify (λ s, s <| freeinode := u32 (inum + 1) |>);;
  winode inum (new_dinode type);;
  mret inum.

(** [freeblock++] *)
Definition next_block : K Z :=
  b ← gets freeblock;
  modify (λ s, s <| freeblock := u32 (b + 1) |>);;
  mret b.

(** ** Contents *)

(** The block [x] of the file where block [fbn] of its contents goes. *)
Definition data_block (din : dinode) (fbn : Z) : K (dinode * Z) :=
  let at_ (din : dinode) j := default 0 (di_addrs din !! j) in
  if fbn <? Z.of_nat NDIRECT then
    din ← (if at_ din (Z.to_nat fbn) =? 0 then b ← next_block; mret (din <| di_addrs ::= <[Z.to_nat fbn := b]> |>) else mret din);
    mret (din, at_ din (Z.to_nat fbn))
  else
    din ← (if at_ din NDIRECT =? 0 then b ← next_block; mret (din <| di_addrs ::= <[NDIRECT := b]> |>) else mret din);
    indirect ← rsect (at_ din NDIRECT);
    let o := (4 * Z.to_nat (fbn - Z.of_nat NDIRECT))%nat in
    indirect ← (if get_le 4 indirect o =? 0 then
                  b ← next_block;
                  wsect (at_ din NDIRECT) (put_le 4 indirect o b);;
                  mret (put_le 4 indirect o b)
                else mret indirect);
    mret (din, get_le 4 indirect o).

(** The loop of iappend(), on the [n = length p] bytes that are left. *)
Fixpoint append_loop (fuel : nat) (din : dinode) (off : Z) (p : list Z) : K (dinode * Z) :=
  match fuel with
  | O => nofuel
  | S fuel =>
    if 0 <? Z.of_nat (length p) then
      let fbn := off / Z.of_nat BSIZE in
      panic_if (MAXFILE <=? fbn) "assert";;
      '(din, x) ← data_block din fbn;
      let n1 := Z.min (Z.of_nat (length p)) ((fbn + 1) * Z.of_nat BSIZE - off) in
      buf ← rsect x;
      wsect x (splice buf (Z.to_nat (off - fbn * Z.of_nat BSIZE)) (take (Z.to_nat n1) p));;
      append_loop fuel din (off + n1) (drop (Z.to_nat n1) p)
    else mret (din, off)
  end.

Definition iappend (inum : Z) (p : list Z) : K unit :=
  din ← rinode inum;
  '(din, off) ← append_loop (S (length p)) din (di_size din) p;
  winode inum (din <| di_size := off |>).

(** ** The free map *)

Definition mark_used (used : Z) : list Z := foldl set_bit zero_block (seqZ 0 used).

Definition mk_balloc (used : Z) : K unit :=
  panic_if (Z.of_nat BSIZE * 8 <=? used) "assert";;
  wsect (sb_bmapstart mk_sb) (mark_used used).

(** ** main() *)

(** [for(i = 0; i < FSSIZE; i++) wsect(i, zeroes);] *)
Fixpoint zero_loop (fuel : nat) (i : Z) : K unit :=
  match fuel with
  | O => mret tt
  | S fuel => wsect i zero_block;; zero_loop fuel (i + 1)
  end.

(** The entries for . and ..: strcpy() into the zeroed [de.name]. *)
Definition dot_de (inum : Z) (name : list Z) : list Z := mk_dirent inum (splice (replicate DIRSIZ 0) 0 (name ++ [0])).

(** The entry of a file: strncpy() into the zeroed [de.name]. *)
Definition mk_de (inum : Z) (name : list Z) : K (list Z) :=
  match strncpy (replicate DIRSIZ 0) (name ++ [0]) DIRSIZ with
  | Some nm => mret (mk_dirent inum nm)
  | None => fault
  end.

Definition skip_underscore (name : list Z) : list Z := match name with 95 :: name => name | _ => name end.

(** [while((cc = read(fd, buf, sizeof(buf))) > 0) iappend(inum, buf, cc);] *)
Fixpoint pieces_loop (inum : Z) (ps : list (list Z)) : K unit :=
  match ps with
  | [] => mret tt
  | p :: ps => iappend inum p;; pieces_loop inum ps
  end.

(** A file with the pieces that read() delivers. *)
Definition add_file (rootino : Z) (f : list Z * list (list Z)) : K unit :=
  panic_if (bool_decide (47 ∈ f.1)) "assert";;
  let name := skip_underscore f.1 in
  inum ← mk_ialloc T_FILE;
  de ← mk_de inum name;
  iappend rootino de;;
  pieces_loop inum f.2.

Fixpoint files_loop (rootino : Z) (fs : list (list Z * list (list Z))) : K unit :=
  match fs with
  | [] => mret tt
  | f :: fs => add_file rootino f;; files_loop rootino fs
  end.

Definition fix_root (rootino : Z) : K unit :=
  din ← rinode rootino;
  let off := di_size din in
  let off := u32 ((off / Z.of_nat BSIZE + 1) * Z.of_nat BSIZE) in
  winode rootino (din <| di_size := off |>).

Definition mk_main (files : list (list Z * list (list Z))) : K unit :=
  modify (λ s, s <| freeblock := nmeta |>);;
  zero_loop (Z.to_nat FSSIZE) 0;;
  wsect 1 (put_words zero_block 0 [sb_size mk_sb; sb_nblocks mk_sb; sb_ninodes mk_sb; sb_nlog mk_sb; sb_logstart mk_sb; sb_inodestart mk_sb; sb_bmapstart mk_sb]);;
  rootino ← mk_ialloc T_DIR;
  panic_if (negb (rootino =? ROOTINO)) "assert";;
  iappend rootino (dot_de rootino [46]);;
  iappend rootino (dot_de rootino [46; 46]);;
  files_loop rootino files;;
  fix_root rootino;;
  fb ← gets freeblock;
  mk_balloc fb.

(** The static variables at the start, with the file just created. *)
Definition mk_start : mkfs := mkMkfs [] 0 1 0.
