(* ===== verification/MkfsInv.v ===== *)
(** * The image that mkfs builds, as the store of a file system

    [rep]: the blocks of the image, with the free map as mk_balloc() will write
    it, are a store for the theory of fs.c; allocating the next block of the
    image is balloc() on that store, and iappend() is writei() at the end. *)

From S2P Require Import Prelude Bytes Str Bio BioView Log LogCrash LogSpace Tx LogTx Fs FsBlock FsFile FsInv FsWritei Mkfs.

#[local] Instance mk_laws : TxLaws log :=
  log_laws 1 2 29 (or_intror eq_refl) ltac:(done) ltac:(done) ltac:(done).

(** ** The free map *)

Lemma mark_used_S n : 0 ≤ n → mark_used (n + 1) = set_bit (mark_used n) n.
Proof.
  intros Hn. unfold mark_used. rewrite <- (Z2Nat.id n) by done. replace (Z.of_nat (Z.to_nat n) + 1) with (Z.of_nat (S (Z.to_nat n))) by lia.
  rewrite seqZ_S, foldl_app. simpl. by rewrite Z.add_0_l.
Qed.

Lemma length_mark_used n : length (mark_used n) = BSIZE.
Proof.
  unfold mark_used. assert (H : ∀ l d, length d = BSIZE → length (foldl set_bit d l) = BSIZE); [|by apply H].
  induction l as [|x l IH]; intros d Hd; [done|]. simpl. apply IH. by rewrite length_set_bit.
Qed.

Lemma mark_used_bit n c : 0 ≤ n ≤ 4096 → 0 ≤ c → bit (mark_used n) c = bool_decide (c < n).
Proof.
  intros [Hn Hmax] Hc. revert Hmax. pattern n. apply natlike_ind; [|clear n Hn; intros n Hn IH Hmax|done].
  - intros _. rewrite bool_decide_false by lia. unfold bit, mark_used. simpl. unfold zero_block.
    destruct (lookup _ _) as [v|] eqn:Hv; [apply lookup_replicate in Hv as [-> _]|]; apply Z.testbit_0_l.
  - change (Z.succ n) with (n + 1) in *. rewrite mark_used_S by done. rewrite bit_set; [|done|done|].
    + rewrite IH by lia. repeat case_bool_decide; done || lia.
    + rewrite length_mark_used. unfold BSIZE. apply Nat2Z.inj_lt. rewrite Z2Nat.id by (apply Z.div_pos; lia). apply Z.div_lt_upper_bound; lia.
Qed.

(** ** The image as a store *)

Definition low_block (b : Z) : list Z :=
  if decide (b = 1) then put_words zero_block 0 [2000; 1941; 200; 30; 2; 32; 58] else zero_block.

Record rep (s : mkfs) (a : store) : Prop := {
  rp_at : ∀ b, 0 ≤ b < FSSIZE → a (1, b) = if decide (b = 58) then mark_used (freeblock s) else disk_at (mk_img s) (1, b);
  rp_full : full a;
  rp_len : mk_len s = FSSIZE;
  rp_fb : nmeta ≤ freeblock s ≤ FSSIZE;
  rp_zero : ∀ b, freeblock s ≤ b < FSSIZE → disk_at (mk_img s) (1, b) = zero_block;
  rp_low : ∀ b, 0 ≤ b < 32 → disk_at (mk_img s) (1, b) = low_block b;
  rp_img : full (disk_at (mk_img s));
}.

Lemma bm_58 : bm mk_sb = 58.
Proof. done. Qed.
Lemma nmeta_59 : nmeta = 59.
Proof. done. Qed.

Lemma rep_used s a b : rep s a → 0 ≤ b < FSSIZE → used a mk_sb b = bool_decide (b < freeblock s).
Proof.
  intros R Hb. unfold used. rewrite bm_58. change (tx_dev, 58) with (1, 58). rewrite (rp_at _ _ R) by (unfold FSSIZE; lia).
  rewrite decide_True by done. apply mark_used_bit; [|lia]. pose proof (rp_fb _ _ R). rewrite nmeta_59 in *. unfold FSSIZE in *. lia.
Qed.

Lemma home_data b : nmeta ≤ b < FSSIZE → tx_home b.
Proof. rewrite nmeta_59. simpl. unfold home_block. lia. Qed.

Lemma rep_map s a : rep s a → map_ok a mk_sb.
Proof.
  intros R. split.
  - simpl. unfold FSSIZE. lia.
  - rewrite bm_58. simpl. unfold home_block, FSSIZE. lia.
  - intros b Hb Hu. simpl in Hb. rewrite (rep_used s) in Hu by done. apply bool_decide_eq_false in Hu. pose proof (rp_fb _ _ R) as Hfb.
    rewrite bm_58. split; [apply home_data; lia|]. rewrite nmeta_59 in *. lia.
Qed.

Definition took (s : mkfs) : mkfs := s <| freeblock := u32 (freeblock s + 1) |>.

Lemma u32_fb s a : rep s a → u32 (freeblock s + 1) = freeblock s + 1.
Proof. intros R. apply u32_small. pose proof (rp_fb _ _ R). rewrite nmeta_59 in *. unfold FSSIZE in *. lia. Qed.

(** The next block is allocated as balloc() would. *)
Lemma rep_alloc s a : rep s a → freeblock s < FSSIZE →
  used a mk_sb (freeblock s) = false ∧ rep (took s) (allocated a mk_sb (freeblock s)).
Proof.
  intros R Hlt. pose proof (rp_fb _ _ R) as Hfb. rewrite nmeta_59 in Hfb.
  assert (Hu : used a mk_sb (freeblock s) = false) by (rewrite (rep_used s) by (done || lia); apply bool_decide_false; lia).
  split; [done|]. pose proof (u32_fb s a R) as Hu32. unfold took. rewrite Hu32.
  assert (Hb : 0 ≤ freeblock s < sb_size mk_sb) by (simpl; lia).
  split; simpl.
  - intros b Hb'. case_decide as H58.
    + subst b. change (1, 58) with (tx_dev, bm mk_sb). rewrite alloc_at_bm by (try apply (rep_map s); done).
      rewrite bm_58. change (tx_dev, 58) with (1, 58). rewrite (rp_at _ _ R), decide_True by done. symmetry. apply mark_used_S. lia.
    + destruct (decide (b = freeblock s)) as [->|Hne].
      * change (1, freeblock s) with (tx_dev, freeblock s). rewrite alloc_at_new. symmetry. apply (rp_zero _ _ R). lia.
      * rewrite alloc_at_other by (rewrite ?bm_58; intros [= ?]; done). rewrite (rp_at _ _ R) by done. by rewrite decide_False.
  - apply alloc_full, R.
  - apply R.
  - rewrite nmeta_59. lia.
  - intros b Hb'. apply R. lia.
  - apply R.
  - apply R.
Qed.

(** ** Sectors *)

Lemma rsect_spec s a b (Q : list Z → mkfs → Prop) : rep s a → 0 ≤ b < FSSIZE → b ≠ 58 → Q (a (1, b)) s → wp (rsect b) Q s.
Proof.
  intros R Hb Hne HQ. unfold rsect. apply wp_bind, wp_get, wp_bind, wp_panic_if.
  - rewrite (rp_len _ _ R). apply Z.leb_gt. lia.
  - apply wp_ret. rewrite (rp_at _ _ R), decide_False in HQ by done. exact HQ.
Qed.

Definition wrote_sect (s : mkfs) (b : Z) (d : list Z) : mkfs :=
  s <| mk_img ::= cons ((ROOTDEV, b), d) |> <| mk_len ::= Z.max (b + 1) |>.

Lemma rep_wsect s a b d : rep s a → 32 ≤ b < freeblock s → b ≠ 58 → length d = BSIZE → rep (wrote_sect s b d) (store_set a (1, b) d).
Proof.
  intros R Hb Hne Hd. pose proof (rp_fb _ _ R) as Hfb.
  assert (Hoth : ∀ c, c ≠ b → disk_at (((ROOTDEV, b), d) :: mk_img s) (1, c) = disk_at (mk_img s) (1, c)).
  { intros c Hc. simpl. apply decide_False. intros [= ?]. done. }
  split; simpl mk_img; simpl mk_len; simpl freeblock.
  - intros c Hc. destruct (decide (c = b)) as [->|Hcb].
    + rewrite store_set_eq, decide_False by done. simpl. by rewrite decide_True.
    + rewrite store_set_ne by congruence. rewrite (rp_at _ _ R), Hoth by done. done.
  - apply full_set; [apply R|done].
  - rewrite (rp_len _ _ R). lia.
  - done.
  - intros c Hc. rewrite Hoth by lia. by apply R.
  - intros c Hc. rewrite Hoth by lia. by apply R.
  - intros c. simpl. case_decide; [done|apply R].
Qed.

Lemma wsect_spec b d s (Q : unit → mkfs → Prop) : Q tt (wrote_sect s b d) → wp (wsect b d) Q s.
Proof. intros H. by apply wp_modify. Qed.

Lemma next_block_spec s (Q : Z → mkfs → Prop) : Q (freeblock s) (took s) → wp next_block Q s.
Proof. intros H. unfold next_block. apply wp_bind, wp_gets, wp_bind, wp_modify, wp_ret. exact H. Qed.

(** ** Where block [bn] of a file goes *)

(** The blocks of a file of [nb] data blocks, with the indirect block. *)
Definition cost (nb : Z) : Z := if Z.of_nat NDIRECT <? nb then nb + 1 else nb.

Lemma cost_mono n n' : n ≤ n' → cost n ≤ cost n'.
Proof. intros H. unfold cost. destruct (Z.ltb_spec (Z.of_nat NDIRECT) n), (Z.ltb_spec (Z.of_nat NDIRECT) n'); lia. Qed.

Definition in_data (a : store) (din : dinode) (nb : Z) : Prop := ∀ b, owns a din nb b → nmeta ≤ b.

(** The file as mkfs builds it: its blocks are data blocks, and it has an
    indirect block only if it needs one. *)
Record compact (a : store) (din : dinode) (nb : Z) : Prop := {
  cp_file : file_ok a mk_sb din nb;
  cp_data : in_data a din nb;
  cp_ind : nb ≤ Z.of_nat NDIRECT → ind din = 0;
}.

Record block_found (s : mkfs) (a : store) (din : dinode) (nb bn : Z) (s' : mkfs) (a' : store) (din' : dinode) (x nb' : Z) : Prop := {
  bf_rep : rep s' a';
  bf_grown : grown mk_sb a din nb bn [] a' din' nb' [];
  bf_compact : compact a' din' nb';
  bf_x : x = blk a' din' bn;
  bf_new : bn = nb → a' (1, x) = zero_block;
  bf_fb : freeblock s' = freeblock s + cost nb' - cost nb;
  bf_fi : freeinode s' = freeinode s;
}.

Lemma owned_range a din nb b : file_ok a mk_sb din nb → in_data a din nb → owns a din nb b → nmeta ≤ b < FSSIZE ∧ b ≠ 58 ∧ used a mk_sb b = true.
Proof.
  intros F D Ho. pose proof (D b Ho). destruct (fo_owned _ _ _ _ F b Ho) as (H1 & _ & H3 & H4). simpl in H1.
  split; [lia|]. by rewrite bm_58 in H3.
Qed.

Lemma owned_lt s a din nb b : rep s a → file_ok a mk_sb din nb → in_data a din nb → owns a din nb b → 32 ≤ b < freeblock s ∧ b ≠ 58.
Proof.
  intros R F D Ho. destruct (owned_range _ _ _ _ F D Ho) as (Hr & Hne & Hu). rewrite nmeta_59 in Hr.
  rewrite (rep_used s) in Hu by (done || lia). apply bool_decide_eq_true in Hu. lia.
Qed.

(** New blocks are data blocks. *)
Lemma data_grown s a din nb a' din' nb' : rep s a → in_data a din nb → file_ok a' mk_sb din' nb' → extends mk_sb a din nb a' din' nb' →
  in_data a' din' nb'.
Proof.
  intros R D F E b Ho. destruct (ex_new _ _ _ _ _ _ _ E b Ho) as [?|Hu]; [by apply D|].
  pose proof (fo_owned _ _ _ _ F b Ho) as (Hr & _). simpl in Hr. rewrite (rep_used s) in Hu by (done || lia).
  apply bool_decide_eq_false in Hu. pose proof (rp_fb _ _ R). lia.
Qed.

Lemma grown_same a din nb bn : compact a din nb → map_ok a mk_sb → 0 ≤ bn < nb → grown mk_sb a din nb bn [] a din nb [].
Proof. intros C M Hbn. split; try done; [apply C|apply extends_refl, C|lia|set_solver]. Qed.

Lemma blk_direct a din bn : 0 ≤ bn < Z.of_nat NDIRECT → blk a din bn = addr din (Z.to_nat bn).
Proof. intros H. unfold blk. by rewrite (proj2 (Z.ltb_lt _ _)) by lia. Qed.

Lemma blk_indirect a din bn : Z.of_nat NDIRECT ≤ bn → ind din ≠ 0 →
  blk a din bn = get_le 4 (a (1, ind din)) (4 * Z.to_nat (bn - Z.of_nat NDIRECT)).
Proof. intros H Hi. unfold blk. rewrite (proj2 (Z.ltb_ge _ _)) by lia. by rewrite (proj2 (Z.eqb_neq _ _)). Qed.

(** The end of data_block() for a block listed in the indirect block. *)
Definition listed (din : dinode) (bn : Z) : K (dinode * Z) :=
  indirect ← rsect (addr din NDIRECT);
  let o := (4 * Z.to_nat (bn - Z.of_nat NDIRECT))%nat in
  indirect ← (if get_le 4 indirect o =? 0 then
                b ← next_block;
                wsect (addr din NDIRECT) (put_le 4 indirect o b);;
                mret (put_le 4 indirect o b)
              else mret indirect);
  mret (din, get_le 4 indirect o).

Lemma listed_spec s a din nb : rep s a → file_ok a mk_sb din nb → in_data a din nb → Z.of_nat NDIRECT ≤ nb < MAXFILE → ind din ≠ 0 → freeblock s < FSSIZE →
  wp (listed din nb) (λ r s', r.1 = din ∧ ∃ a', rep s' a' ∧ grown mk_sb a din nb nb [] a' din (nb + 1) [] ∧ r.2 = blk a' din nb ∧
    a' (1, r.2) = zero_block ∧ freeblock s' = freeblock s + 1 ∧ freeinode s' = freeinode s) s.
Proof.
  intros R F D Hnb Hi Hfree. assert (Ho : owns a din nb (ind din)) by (by right).
  destruct (owned_range _ _ _ _ F D Ho) as (Hr & Hne & _). destruct (owned_lt s _ _ _ _ R F D Ho) as [Hlt _]. rewrite nmeta_59 in Hr.
  unfold listed. apply wp_bind. eapply rsect_spec; [exact R|lia|done|]. set (o := (4 * Z.to_nat (nb - Z.of_nat NDIRECT))%nat).
  assert (Hz : get_le 4 (a (1, ind din)) o = 0) by (unfold o; rewrite <- blk_indirect by (done || lia); apply (fo_none _ _ _ _ F); lia).
  rewrite Hz. cbn [Z.eqb]. apply wp_bind, wp_bind, next_block_spec, wp_bind, wsect_spec, wp_ret, wp_ret. cbn [fst snd]. split; [done|].
  destruct (rep_alloc s a R Hfree) as [Hu R']. pose proof (rp_fb _ _ R) as Hfb.
  assert (Hb : 0 ≤ freeblock s < sb_size mk_sb) by (rewrite nmeta_59 in Hfb; simpl; lia).
  destruct (grow_indirect a mk_sb din nb (freeblock s) F (rep_map s a R) (rp_full _ _ R) Hb Hu Hi Hnb) as (G1 & G2 & G3 & G4 & G5 & G6).
  fold o in G1, G2, G3, G4, G5, G6. change tx_dev with 1 in G1, G2, G3, G4, G5, G6.
  set (d := put_le 4 (a (1, ind din)) o (freeblock s)) in *. set (a' := store_set (allocated a mk_sb (freeblock s)) (1, ind din) d) in *.
  assert (Hd : length d = BSIZE).
  { unfold d. rewrite length_put_le; [apply R|]. rewrite (rp_full _ _ R). unfold o, MAXFILE, NDIRECT, BSIZE in *. lia. }
  assert (Hx : get_le 4 d o = blk a' din nb).
  { rewrite blk_indirect by (done || lia). unfold a'. by rewrite store_set_eq. }
  assert (Hfb' : freeblock (took s) = freeblock s + 1) by (simpl; by apply (u32_fb s a)).
  exists a'. split; [|split; [|split; [exact Hx|split; [|split; [exact Hfb'|done]]]]].
  - apply rep_wsect; [exact R'|rewrite Hfb'; lia|done|exact Hd].
  - split; [exact G1|exact G2|exact G5|lia| |set_solver|done|lia].
    intros c Hc. assert (Hoc : owns a din nb (blk a din c)) by (left; by exists c). destruct (fo_ind _ _ _ _ F c Hc) as [Hic|Hic]; [|done].
    unfold a'. rewrite store_set_ne by (intros [= ?]; done). by apply (alloc_data a mk_sb din nb).
  - rewrite Hx, G3. exact G4.
Qed.

Section block.
Context (s : mkfs) (a : store) (din : dinode) (nb : Z) (R : rep s a) (C : compact a din nb).

(** One block more in the inode. *)
Lemma direct_spec : nb < Z.of_nat NDIRECT → freeblock s < FSSIZE →
  wp (data_block din nb) (λ r s', ∃ a', block_found s a din nb nb s' a' r.1 r.2 (nb + 1)) s.
Proof.
  intros Hnb Hfree. pose proof (cp_file _ _ _ C) as F. pose proof (fo_nb _ _ _ _ F) as Hnb0. pose proof (fo_mapped _ _ _ _ F) as M.
  unfold data_block. rewrite (proj2 (Z.ltb_lt _ _)) by done.
  assert (Hz : addr din (Z.to_nat nb) = 0).
  { rewrite <- (blk_direct a) by lia. apply (fo_none _ _ _ _ F). unfold MAXFILE, NDIRECT in *. lia. }
  unfold addr in Hz. rewrite Hz. apply wp_bind, wp_bind, next_block_spec, wp_ret, wp_ret. cbn [fst snd].
  destruct (rep_alloc s a R Hfree) as [Hu R']. pose proof (rp_fb _ _ R) as Hfb.
  assert (Hb : 0 ≤ freeblock s < sb_size mk_sb) by (rewrite nmeta_59 in Hfb; simpl; lia).
  destruct (grow_direct a mk_sb din nb (freeblock s) F (rep_map s a R) (rp_full _ _ R) Hb Hu Hnb) as (G1 & G2 & G3).
  set (din' := din <| di_addrs ::= <[Z.to_nat nb := freeblock s]> |>) in *. exists (allocated a mk_sb (freeblock s)).
  assert (Hx : addr din' (Z.to_nat nb) = freeblock s) by (unfold din'; rewrite addr_insert, decide_True by (apply M || lia || done); done).
  assert (Hi : ind din' = ind din) by (unfold din'; rewrite addr_insert, decide_False by (apply M || lia); done).
  split.
  - exact R'.
  - split; [exact G1|exact G2|by eapply rep_map|lia|intros c Hc; by apply (alloc_data a mk_sb din nb)|set_solver|by intros _|lia].
  - split; [exact G1|exact (data_grown s a din nb _ _ _ R (cp_data _ _ _ C) G1 G2)|]. intros _. rewrite Hi. apply (cp_ind _ _ _ C). lia.
  - by rewrite G3.
  - intros _. unfold addr in Hx. rewrite Hx. change (1, freeblock s) with (tx_dev, freeblock s). apply alloc_at_new.
  - simpl. rewrite (u32_fb s a R). unfold cost. rewrite !(proj2 (Z.ltb_ge _ _)) by lia. lia.
  - done.
Qed.

(** A block the file has. *)
Lemma inside_spec bn : 0 ≤ bn < nb → wp (data_block din bn) (λ r s', r = (din, blk a din bn) ∧ s' = s) s.
Proof.
  intros Hbn. pose proof (cp_file _ _ _ C) as F. pose proof (fo_mapped _ _ _ _ F) as M. pose proof (mp_blk _ _ _ M bn Hbn) as Hb.
  unfold data_block. destruct (Z.ltb_spec bn (Z.of_nat NDIRECT)) as [Hd|Hd].
  - rewrite blk_direct in Hb |- * by lia. unfold addr in *. rewrite (proj2 (Z.eqb_neq _ _)) by lia. by apply wp_bind, wp_ret, wp_ret.
  - assert (Hi : ind din ≠ 0) by (pose proof (mp_ind _ _ _ M); lia).
    assert (Ho : owns a din nb (ind din)) by (by right). destruct (owned_range _ _ _ _ F (cp_data _ _ _ C) Ho) as (Hr & Hne & _).
    rewrite nmeta_59 in Hr. rewrite blk_indirect in Hb |- * by (done || lia). unfold addr in *. rewrite (proj2 (Z.eqb_neq _ _)) by done.
    apply wp_bind, wp_ret, wp_bind. eapply rsect_spec; [exact R|lia|done|]. rewrite (proj2 (Z.eqb_neq _ _)) by lia.
    by apply wp_bind, wp_ret, wp_ret.
Qed.

(** The indirect block comes first. *)
Lemma indirect_spec : Z.of_nat NDIRECT ≤ nb < MAXFILE → freeblock s + cost (nb + 1) - cost nb ≤ FSSIZE →
  wp (data_block din nb) (λ r s', ∃ a', block_found s a din nb nb s' a' r.1 r.2 (nb + 1)) s.
Proof.
  intros Hnb Hfree. pose proof (cp_file _ _ _ C) as F. pose proof (fo_mapped _ _ _ _ F) as M. pose proof (cp_data _ _ _ C) as D.
  assert (Hc1 : cost (nb + 1) = nb + 2) by (unfold cost; rewrite (proj2 (Z.ltb_lt _ _)) by lia; lia).
  unfold data_block. rewrite (proj2 (Z.ltb_ge _ _)) by lia. destruct (decide (ind din = 0)) as [Hi|Hi].
  - assert (Hnb' : nb = Z.of_nat NDIRECT) by (pose proof (mp_ind _ _ _ M); lia).
    assert (Hc : cost nb = nb) by (unfold cost; by rewrite (proj2 (Z.ltb_ge _ _)) by lia).
    pose proof Hi as Hi'. unfold addr in Hi'. rewrite Hi'. apply wp_bind, wp_bind, next_block_spec, wp_ret.
    destruct (rep_alloc s a R ltac:(lia)) as [Hu R']. pose proof (rp_fb _ _ R) as Hfb.
    assert (Hb : 0 ≤ freeblock s < sb_size mk_sb) by (rewrite nmeta_59 in Hfb; simpl; lia).
    destruct (grow_ind a mk_sb din nb (freeblock s) F (rep_map s a R) (rp_full _ _ R) Hb Hu Hi) as (G1 & G2 & G3).
    set (din' := din <| di_addrs ::= <[NDIRECT := freeblock s]> |>) in *. set (a1 := allocated a mk_sb (freeblock s)) in *.
    change (wp (listed din' nb) (λ r s', ∃ a', block_found s a din nb nb s' a' r.1 r.2 (nb + 1)) (took s)).
    pose proof (data_grown s a din nb _ _ _ R D G1 G2) as D1. assert (Hfb1 : freeblock (took s) = freeblock s + 1) by (by apply (u32_fb s a)).
    eapply wp_mono; [apply (listed_spec (took s) a1 din' nb R' G1 D1 Hnb); [rewrite G3; rewrite nmeta_59 in Hfb; lia|rewrite Hfb1; lia]|].
    intros [r x] s' (-> & a' & R2 & [H1 H2 H3 H4 H5 H6 H7 _] & Hx & Hz & Hfb2 & Hfi). cbn [fst snd] in *. exists a'.
    assert (E : extends mk_sb a din nb a' din' (nb + 1)) by exact (extends_ok_trans mk_sb _ _ _ a1 _ _ _ _ _ G1 H1 G2 H2).
    split; [exact R2| |split; [exact H1|exact (data_grown s a din nb _ _ _ R D H1 E)|lia]|exact Hx|done|lia|done].
    split; [exact H1|exact E|exact H3|lia| |set_solver|done|lia].
    intros c Hc'. rewrite <- (alloc_data a mk_sb din nb (freeblock s) c F Hu Hc'). rewrite <- (ex_blk _ _ _ _ _ _ _ G2 c Hc'). by apply H5.
  - assert (Hnb' : Z.of_nat NDIRECT < nb) by (destruct (decide (Z.of_nat NDIRECT < nb)); [done|]; destruct Hi; apply (cp_ind _ _ _ C); lia).
    assert (Hc : cost nb = nb + 1) by (unfold cost; by rewrite (proj2 (Z.ltb_lt _ _)) by lia).
    pose proof Hi as Hi'. unfold addr in Hi'. rewrite (proj2 (Z.eqb_neq _ _)) by done. apply wp_bind, wp_ret.
    eapply wp_mono; [apply (listed_spec s a din nb R F D Hnb Hi); lia|].
    intros [r x] s' (-> & a' & R2 & G & Hx & Hz & Hfb2 & Hfi). cbn [fst snd] in *. exists a'. pose proof G as [H1 H2 _ _ _ _ _ _].
    split; [exact R2|exact G|split; [exact H1|exact (data_grown s a din nb _ _ _ R D H1 H2)|lia]|exact Hx|done|lia|done].
Qed.

Lemma data_block_spec bn : 0 ≤ bn ≤ nb → bn < MAXFILE → freeblock s + cost (Z.max nb (bn + 1)) - cost nb ≤ FSSIZE →
  wp (data_block din bn) (λ r s', ∃ a', block_found s a din nb bn s' a' r.1 r.2 (Z.max nb (bn + 1))) s.
Proof.
  intros Hbn Hmax Hfree. destruct (decide (bn < nb)) as [Hlt|Hge].
  - rewrite Z.max_l in * by lia. eapply wp_mono; [apply inside_spec; lia|]. intros r s' [-> ->]. exists a.
    split; [done|apply grown_same; [done|by eapply rep_map|lia]|done|done|lia|lia|done].
  - assert (bn = nb) as -> by lia. rewrite Z.max_r in * by lia. destruct (decide (nb < Z.of_nat NDIRECT)).
    + apply direct_spec; [done|]. unfold cost in Hfree. rewrite !(proj2 (Z.ltb_ge _ _)) in Hfree by lia. lia.
    + apply indirect_spec; [lia|done].
Qed.
End block.

(** ** The loop of iappend() *)

(** The bytes of the last block behind [off] are zero. *)
Definition zero_tail (a : store) (din : dinode) (off nb : Z) : Prop := ∀ o, off ≤ o → o / BS < nb → fbyte a din o = 0.

Record appended (s : mkfs) (a : store) (din : dinode) (nb off : Z) (p : list Z) (s' : mkfs) (a' : store) (din' : dinode) (nb' : Z) : Prop := {
  ap_rep : rep s' a';
  ap_written : written mk_sb a din nb off p a' din' nb';
  ap_compact : compact a' din' nb';
  ap_tail : zero_tail a' din' (off + Z.of_nat (length p)) nb';
  ap_fb : freeblock s' = freeblock s + cost nb' - cost nb;
  ap_fi : freeinode s' = freeinode s;
}.

Lemma fresh_bytes a din nb x o : a (1, x) = zero_block → x = blk a din nb → o / BS = nb → fbyte a din o = 0.
Proof.
  intros Hz Hx Ho. unfold fbyte. rewrite Ho, <- Hx. change (tx_dev, x) with (1, x). rewrite Hz. unfold zero_block.
  destruct (lookup _ _) as [v|] eqn:E; [by apply lookup_replicate in E as [-> _]|done].
Qed.

(** The chunk in the block that was found. *)
Section chunk.
Context (s : mkfs) (a : store) (din : dinode) (nb off : Z) (p : list Z) (s1 : mkfs) (a1 : store) (din1 : dinode) (x nb1 : Z).
Context (C : compact a din nb) (Hoff : 0 ≤ off ≤ nb * BS) (T : zero_tail a din off nb) (B : block_found s a din nb (off / BS) s1 a1 din1 x nb1).
Context (m : Z) (Hm : 0 < m) (Hmod : off mod BS + m ≤ BS) (Hlen : m ≤ Z.of_nat (length p)).

Let d := splice (a1 (1, x)) (Z.to_nat (off mod BS)) (take (Z.to_nat m) p).
Let a2 := store_set a1 (1, x) d.

Lemma found_range : 0 ≤ off / BS < nb1.
Proof. rewrite (gr_nb _ _ _ _ _ _ _ _ _ _ (bf_grown _ _ _ _ _ _ _ _ _ _ B)). pose proof (Z.div_pos off BS ltac:(lia) ltac:(done)). lia. Qed.

Lemma chunk_length : length d = BSIZE.
Proof.
  unfold d. pose proof (rp_full _ _ (bf_rep _ _ _ _ _ _ _ _ _ _ B)) as Hf. pose proof (Z.mod_pos_bound off BS ltac:(done)).
  rewrite length_splice; [apply Hf|]. rewrite Hf, length_take. rewrite BS_val in *. unfold BSIZE. lia.
Qed.

Lemma chunk_rep : rep (wrote_sect s1 x d) a2.
Proof.
  destruct B as [R1 _ C1 Hx _ _ _]. assert (Ho : owns a1 din1 nb1 x) by (left; exists (off / BS); split; [apply found_range|done]).
  destruct (owned_lt s1 _ _ _ _ R1 (cp_file _ _ _ C1) (cp_data _ _ _ C1) Ho). apply rep_wsect; [done|done|done|apply chunk_length].
Qed.

Lemma chunk_written : compact a2 din1 nb1 ∧ extends mk_sb a1 din1 nb1 a2 din1 nb1 ∧ (∀ o, 0 ≤ o → o / BS < nb1 →
  fbyte a2 din1 o = if bool_decide (off ≤ o < off + m) then byte_at p (o - off) else fbyte a1 din1 o).
Proof.
  destruct B as [R1 G [F1 D1 I1] Hx _ _ _]. pose proof found_range as Hr. unfold a2, d. rewrite Hx. change (1, blk a1 din1 (off / BS)) with (tx_dev, blk a1 din1 (off / BS)).
  set (dd := splice _ _ _). destruct (write_data a1 mk_sb din1 nb1 (off / BS) dd F1 (gr_map _ _ _ _ _ _ _ _ _ _ G) Hr) as (Hblk & F2 & E2 & _).
  split; [|split; [done|]].
  - split; [done| |done]. intros b Ho. destruct (ex_new _ _ _ _ _ _ _ E2 b Ho) as [?|Hu]; [by apply D1|].
    pose proof (proj2 (ex_used _ _ _ _ _ _ _ E2 b ltac:(apply (fo_owned _ _ _ _ F2) in Ho; lia)) (or_intror Ho)) as Hu2.
    unfold dd in Hu2. rewrite used_set in Hu2; [congruence|]. intros [= He]. assert (Ho1 : owns a1 din1 nb1 (blk a1 din1 (off / BS))) by (left; by exists (off / BS)).
    apply (fo_owned _ _ _ _ F1) in Ho1. tauto.
  - intros o Ho Hob. pose proof (chunk_bytes a1 din1 mk_sb nb1 off (Z.to_nat m) p o dd F1 (rp_full _ _ R1) ltac:(lia) ltac:(lia) ltac:(lia) ltac:(lia) eq_refl Ho Hob Hblk) as Hc.
    rewrite Z2Nat.id in Hc by lia. exact Hc.
Qed.

Lemma chunk_tail : zero_tail a2 din1 (off + m) nb1.
Proof.
  intros o Ho Hob. destruct chunk_written as (_ & _ & Hb). rewrite Hb, bool_decide_false by lia. destruct B as [_ G _ Hx Hz _ _].
  pose proof (gr_nb _ _ _ _ _ _ _ _ _ _ G) as Hnb. destruct (decide (o / BS < nb)) as [Hlt|Hge].
  - erewrite fbyte_grown; [|exact G|lia|done]. apply T; [lia|done].
  - assert (Hq : off / BS ≤ nb) by (apply Z.lt_succ_r, Z.div_lt_upper_bound; rewrite ?BS_val in *; lia).
    assert (off / BS = nb) as He by lia. rewrite He in *. apply (fresh_bytes a1 din1 nb x); [by apply Hz|done|lia].
Qed.
End chunk.

Lemma append_nil s a din nb off : rep s a → compact a din nb → zero_tail a din off nb → 0 ≤ off ≤ nb * BS → appended s a din nb off [] s a din nb.
Proof. intros R C T Hoff. split; [done|apply written_nil; [apply C|by eapply rep_map|done]|done|by rewrite Z.add_0_r|lia|done]. Qed.

Lemma append_loop_spec fuel s a din nb off p : rep s a → compact a din nb → zero_tail a din off nb → 0 ≤ off ≤ nb * BS →
  off + Z.of_nat (length p) ≤ MAXFILE * BS → (length p < fuel)%nat →
  freeblock s + cost (Z.max nb (nblocks (off + Z.of_nat (length p)))) - cost nb ≤ FSSIZE →
  wp (append_loop fuel din off p) (λ r s', r.2 = off + Z.of_nat (length p) ∧ ∃ a' nb', appended s a din nb off p s' a' r.1 nb') s.
Proof.
  revert s a din nb off p. induction fuel as [|fuel IH]; intros s a din nb off p R C T Hoff Hmax Hfuel Hfree; [lia|]. cbn [append_loop].
  destruct (Z.ltb_spec 0 (Z.of_nat (length p))) as [Hp|Hp].
  2: { assert (p = []) as -> by (destruct p; [done|simpl in Hp; lia]). apply wp_ret. cbn [fst snd length]. split; [lia|]. exists a, nb. by apply append_nil. }
  change (Z.of_nat BSIZE) with BS. set (n := Z.of_nat (length p)) in *.
  pose proof (Z.mod_pos_bound off BS ltac:(done)) as Hmod. pose proof (Z.div_mod off BS ltac:(done)) as Hdm.
  replace ((off / BS + 1) * BS - off) with (BS - off mod BS) by lia. replace (off - off / BS * BS) with (off mod BS) by lia.
  set (m := Z.min n (BS - off mod BS)). assert (Hm : 0 < m ∧ m ≤ n ∧ off mod BS + m ≤ BS) by (unfold m; lia).
  assert (Hbn : 0 ≤ off / BS ≤ nb ∧ off / BS < MAXFILE).
  { rewrite BS_val in *. unfold MAXFILE in *. split_and!; [apply Z.div_pos; lia|apply Z.lt_succ_r, Z.div_lt_upper_bound; lia|].
    apply Z.div_lt_upper_bound; lia. }
  pose proof (nblocks_covers off (off + n) ltac:(lia)) as Hcov.
  apply wp_bind, wp_panic_if; [apply Z.leb_gt; lia|]. apply wp_bind. eapply wp_mono; [apply (data_block_spec s a din nb R C (off / BS)); [lia|lia|]|].
  { pose proof (cost_mono (Z.max nb (off / BS + 1)) (Z.max nb (nblocks (off + n)))). lia. }
  intros [din1 x] s1 (a1 & B). cbn [fst snd] in B. pose proof B as [R1 G C1 Hx Hz Hfb1 Hfi1]. set (nb1 := Z.max nb (off / BS + 1)) in *.
  assert (Ho : owns a1 din1 nb1 x) by (left; exists (off / BS); split; [lia|done]).
  destruct (owned_range _ _ _ _ (cp_file _ _ _ C1) (cp_data _ _ _ C1) Ho) as (Hr & Hne & _). rewrite nmeta_59 in Hr.
  apply wp_bind. eapply rsect_spec; [exact R1|lia|done|]. apply wp_bind, wsect_spec.
  pose proof (chunk_rep s a din nb off p s1 a1 din1 x nb1 Hoff B m ltac:(lia) ltac:(lia)) as R2.
  destruct (chunk_written s a din nb off p s1 a1 din1 x nb1 Hoff B m ltac:(lia) ltac:(lia) ltac:(lia)) as (C2 & E2 & Hb2).
  pose proof (chunk_tail s a din nb off p s1 a1 din1 x nb1 Hoff T B m ltac:(lia) ltac:(lia) ltac:(lia)) as T2.
  set (a2 := store_set a1 (1, x) _) in *. assert (Hc1 : off + m ≤ nb1 * BS).
  { transitivity ((off / BS + 1) * BS); [lia|]. apply Z.mul_le_mono_nonneg_r; [done|unfold nb1; lia]. }
  assert (Hld : Z.of_nat (length (drop (Z.to_nat m) p)) = n - m) by (rewrite length_drop; lia).
  eapply wp_mono; [apply (IH _ a2 din1 nb1 (off + m) (drop (Z.to_nat m) p) R2 C2 T2)|].
  - lia.
  - lia.
  - lia.
  - rewrite Hld. cbn [wrote_sect freeblock]. replace (off + m + (n - m)) with (off + n) by lia.
    replace (Z.max nb1 (nblocks (off + n))) with (Z.max nb (nblocks (off + n))) by (unfold nb1; lia). simpl. lia.
  - intros [din3 off3] s3 (Hoff3 & a3 & nb3 & [R3 W3 C3 T3 Hfb3 Hfi3]). cbn [fst snd] in *. rewrite Hld in *.
    split; [lia|]. exists a3, nb3. split; [done| |done| | |].
    + eapply (written_step mk_sb a din nb off m p); [lia|lia|lia|lia|exact G|apply C2|exact E2|exact Hb2|exact W3].
    + replace (off + Z.of_nat (length p)) with (off + m + (n - m)) by lia. done.
    + rewrite Hfb3. simpl. lia.
    + rewrite Hfi3. done.
Qed.
