(* ===== verification/MkfsFiles.v ===== *)
(** * The files of the image mkfs builds

    [minv]: the image is a consistent file system whose inodes 1, 2, ... have
    the contents [C]; ialloc() adds an empty file and iappend() appends to one. *)

From S2P Require Import Prelude Bytes Str Bio BioView Log LogCrash LogSpace Tx LogTx Fs FsBlock FsFile FsInv FsWritei Mkfs MkfsInv.

#[local] Existing Instance mk_laws.

(** ** A new inode *)

Lemma empty_file a sb x : (∀ j, addr x j = 0) → length (di_addrs x) = S NDIRECT → file_ok a sb x 0 ∧ ∀ b, ¬ owns a x 0 b.
Proof.
  intros H0 Hlen. assert (Hn : ∀ b, ¬ owns a x 0 b) by (intros b [(bn & Hbn & _)|[-> Hne]]; [lia|by rewrite H0 in Hne]).
  split; [|done]. split.
  - split; [done|unfold MAXFILE; lia|lia|unfold NDIRECT; lia].
  - lia.
  - intros bn _. unfold blk. rewrite !H0. by destruct (_ <? _).
  - lia.
  - lia.
  - intros b Hb. by apply Hn in Hb.
Qed.

Section new.
Context (a : store) (live live' : Z → Prop) (X : Z → dinode) (I : fs_inv a mk_sb live X) (i : Z) (x : dinode).
Context (Hl : ∀ j, live' j ↔ j = i ∨ live j) (Hi : ¬ live i) (Hpos : 0 ≤ i).
Context (Hblk : 0 < IBLOCK i mk_sb < sb_size mk_sb ∧ tx_home (IBLOCK i mk_sb) ∧ IBLOCK i mk_sb ≠ bm mk_sb ∧ used a mk_sb (IBLOCK i mk_sb) = true).
Context (Hfree : ∀ j, live j → ¬ own a X j (IBLOCK i mk_sb)).
Context (Hx : dinode_ok x) (Hsz : di_size x = 0) (Hz : ∀ j, addr x j = 0).

Let a' := put_inode a mk_sb i x.

Lemma new_frame j b : live j → own a X j b → a' (tx_dev, b) = a (tx_dev, b).
Proof. intros Hj Ho. apply store_set_ne. intros [= ->]. by apply (Hfree j). Qed.

Lemma new_used b : used a' mk_sb b = used a mk_sb b.
Proof. apply used_set. destruct Hblk as (_ & _ & ? & _). congruence. Qed.

Lemma new_own j b : live' j → own a' (upd X i x) j b ↔ live j ∧ own a X j b.
Proof.
  intros [->|Hj]%Hl.
  - unfold own. rewrite upd_eq. change (nb x) with (nblocks (di_size x)). rewrite Hsz. split; [|tauto].
    intros Ho. by apply (proj2 (empty_file a' mk_sb x Hz (dk_len _ Hx))) in Ho.
  - assert (j ≠ i) by (intros ->; done). unfold own. rewrite upd_ne by done. rewrite (owns_frame a a'); [tauto|].
    intros c. by apply new_frame.
Qed.

Lemma new_inv : fs_inv a' mk_sb live' (upd X i x) ∧ (∀ j, live j → fdata a' (X j) = fdata a (X j)).
Proof.
  assert (Hcase : ∀ (P : Z → Prop), (live' i → P i) → (∀ j, live j → j ≠ i → P j) → ∀ j, live' j → P j).
  { intros P H1 H2 j Hj. destruct (proj1 (Hl j) Hj) as [->|Hj']; [by apply H1|]. apply H2; [done|]. by intros ->. }
  split; [split|].
  - apply map_ok_set; [|apply I]. destruct Hblk as (_ & _ & ? & _). congruence.
  - apply Hcase; [intros _|intros j Hj Hne].
    + rewrite upd_eq. change (nb x) with (nblocks (di_size x)). rewrite Hsz. by apply (empty_file a' mk_sb x Hz (dk_len _ Hx)).
    + rewrite upd_ne by done. eapply file_frame; [by apply I|intros b; by apply new_frame|]. intros b Ho. rewrite new_used.
      by apply (fo_owned _ _ _ _ (fv_file _ _ _ _ I j Hj)).
  - apply Hcase; [intros _; rewrite upd_eq, Hsz; unfold MAXFILE, BS; lia|intros j Hj Hne; rewrite upd_ne by done; by apply I].
  - apply Hcase; [done|intros j Hj _; by apply (fv_inum _ _ _ _ I)].
  - apply Hcase; [intros _|intros j Hj _]; rewrite new_used; [done|by apply I].
  - intros k j Hk Hj. rewrite new_own by done. intros [Hj' Ho]. destruct (proj1 (Hl k) Hk) as [->|Hk']; [by apply (Hfree j)|by apply (fv_meta _ _ _ _ I k j)].
  - intros k j b Hk Hj Hne. rewrite !new_own by done. intros [Hk' Ho] [Hj' Ho']. by apply (fv_disjoint _ _ _ _ I k j b).
  - apply Hcase; [intros _; by rewrite upd_eq|intros j Hj Hne; rewrite upd_ne by done; by apply I].
  - intros j Hj. apply fdata_frame; [by apply (fv_size _ _ _ _ I)|]. intros b. by apply new_frame.
Qed.
End new.

(** ** The image with its files *)

Definition size_cost (c : list Z) : Z := cost (nblocks (Z.of_nat (length c))).
Definition total (C : list (list Z)) : Z := foldr (λ c t, size_cost c + t) 0 C.

Lemma total_blocks_app C C' : total (C ++ C') = total C + total C'.
Proof. unfold total. induction C as [|c C IH]; simpl; lia. Qed.

Lemma total_insert C i c c' : C !! i = Some c → total (<[i := c']> C) = total C - size_cost c + size_cost c'.
Proof.
  intros Hi. rewrite insert_take_drop by (by eapply lookup_lt_Some). rewrite <- (take_drop_middle C i c Hi) at 3.
  rewrite !total_blocks_app. cbn [total foldr]. unfold total. lia.
Qed.

(** The inodes mkfs has made. *)
Definition made (fi i : Z) : Prop := 1 ≤ i < fi.

Definition type_of (i : Z) : Z := if decide (i = 1) then T_DIR else T_FILE.

Record minv (s : mkfs) (a : store) (X : Z → dinode) (C : list (list Z)) : Prop := {
  mv_rep : rep s a;
  mv_inv : fs_inv a mk_sb (made (freeinode s)) X;
  mv_sync : synced a mk_sb (made (freeinode s)) X;
  mv_fi : freeinode s = 1 + Z.of_nat (length C);
  mv_max : freeinode s ≤ NINODES;
  mv_compact : ∀ i, made (freeinode s) i → compact a (X i) (nb (X i));
  mv_tail : ∀ i, made (freeinode s) i → zero_tail a (X i) (di_size (X i)) (nb (X i));
  mv_attr : ∀ i, made (freeinode s) i → X i = (new_dinode (type_of i)) <| di_size := di_size (X i) |> <| di_addrs := di_addrs (X i) |>;
  mv_data : ∀ i c, C !! i = Some c → fdata a (X (1 + Z.of_nat i)) = c;
  mv_fb : freeblock s = nmeta + total C;
  mv_none : ∀ i, freeinode s ≤ i < NINODES → inode_at a mk_sb i = get_dinode zero_block 0;
}.

Lemma inode_sector i : 0 ≤ i < NINODES → 32 ≤ IBLOCK i mk_sb < 58.
Proof.
  unfold NINODES, IBLOCK. change (sb_inodestart mk_sb) with 32. unfold IPB. intros H. split; [pose proof (Z.div_pos i 8 ltac:(lia) ltac:(lia)); lia|].
  assert (i / 8 < 26); [|lia]. apply Z.div_lt_upper_bound; lia.
Qed.

Section ops.
Context (s : mkfs) (a : store) (X : Z → dinode) (C : list (list Z)) (I : minv s a X C).

Lemma made_lookup i c : C !! i = Some c → made (freeinode s) (1 + Z.of_nat i).
Proof. intros Hi%lookup_lt_Some. unfold made. rewrite (mv_fi _ _ _ _ I). lia. Qed.

Lemma made_size i c : C !! i = Some c → di_size (X (1 + Z.of_nat i)) = Z.of_nat (length c).
Proof.
  intros Hi. pose proof (fv_size _ _ _ _ (mv_inv _ _ _ _ I) _ (made_lookup i c Hi)) as Hs.
  rewrite <- (mv_data _ _ _ _ I i c Hi). unfold fdata. rewrite length_content. lia.
Qed.

Lemma rinode_spec i (Q : dinode → mkfs → Prop) : made (freeinode s) i → Q (X i) s → wp (rinode i) Q s.
Proof.
  intros Hi HQ. pose proof (mv_max _ _ _ _ I) as Hmax. unfold made in Hi. pose proof (inode_sector i ltac:(lia)) as Hb.
  unfold rinode. apply wp_bind. eapply rsect_spec; [apply I|unfold FSSIZE; lia|lia|]. apply wp_ret.
  rewrite <- (mv_sync _ _ _ _ I i Hi) in HQ. exact HQ.
Qed.
End ops.

(** The inode is written to its block. *)
Lemma winode_spec s a i x (Q : unit → mkfs → Prop) : rep s a → 0 ≤ i < NINODES → length (di_addrs x) = S NDIRECT →
  (∀ s', rep s' (put_inode a mk_sb i x) → freeinode s' = freeinode s → freeblock s' = freeblock s → Q tt s') → wp (winode i x) Q s.
Proof.
  intros R Hi Hx HQ. pose proof (inode_sector i Hi) as Hb. unfold winode. apply wp_bind. eapply rsect_spec; [exact R|unfold FSSIZE; lia|lia|].
  apply wsect_spec. apply HQ; [|done|done]. pose proof (rp_fb _ _ R) as Hfb. rewrite nmeta_59 in Hfb. apply rep_wsect; [done|lia|lia|].
  rewrite length_put_dinode; [apply R| |done]. rewrite (rp_full _ _ R). apply dinode_off_bound.
Qed.

(** ** What a change elsewhere leaves alone *)

Lemma compact_frame a a' x n off : compact a x n → 0 ≤ off → (∀ b, owns a x n b → a' (tx_dev, b) = a (tx_dev, b)) →
  (∀ b, owns a x n b → used a' mk_sb b = true) → zero_tail a x off n → compact a' x n ∧ zero_tail a' x off n.
Proof.
  intros [F D Hi] Hoff Hfr Hu T. split.
  - split; [by eapply file_frame| |done]. intros b Ho. apply D. by apply (owns_frame a a').
  - intros o Ho Hob. rewrite (fbyte_frame a a' x n o) by (done || lia). by apply T.
Qed.

Lemma inode_unowned a x n i : in_data a x n → 0 ≤ i < NINODES → ¬ owns a x n (IBLOCK i mk_sb).
Proof. intros D Hi Ho. pose proof (inode_sector i Hi). apply D in Ho. rewrite nmeta_59 in Ho. lia. Qed.

Lemma put_frame a x n i y b : in_data a x n → 0 ≤ i < NINODES → owns a x n b → put_inode a mk_sb i y (tx_dev, b) = a (tx_dev, b).
Proof. intros D Hi Ho. apply store_set_ne. intros [= ->]. by eapply inode_unowned. Qed.

Lemma put_used a i y b : 0 ≤ i < NINODES → used (put_inode a mk_sb i y) mk_sb b = used a mk_sb b.
Proof. intros Hi. apply used_set. rewrite bm_58. intros [= He]. pose proof (inode_sector i Hi). lia. Qed.

Lemma compact_put a x n off i y : compact a x n → 0 ≤ off → zero_tail a x off n → 0 ≤ i < NINODES →
  compact (put_inode a mk_sb i y) x n ∧ zero_tail (put_inode a mk_sb i y) x off n.
Proof.
  intros C Hoff T Hi. apply (compact_frame a); try done.
  - intros b. apply put_frame; [apply C|done].
  - intros b Ho. rewrite put_used by done. by apply (fo_owned _ _ _ _ (cp_file _ _ _ C)).
Qed.

(** The size does not matter. *)
Lemma compact_size a x n off y : di_addrs y = di_addrs x → compact a x n → zero_tail a x off n → compact a y n ∧ zero_tail a y off n.
Proof.
  intros Ha [F D Hi] T. split; [split|].
  - by eapply file_addrs.
  - intros b Ho. apply D. by apply (owns_addrs a x y).
  - unfold addr. by rewrite Ha.
  - intros o Ho Hob. unfold fbyte. rewrite (blk_addrs a x y) by done. by apply T.
Qed.

(** ** iappend() *)

Section append.
Context (s : mkfs) (a : store) (X : Z → dinode) (C : list (list Z)) (I : minv s a X C).
Context (k : nat) (c p : list Z) (Hk : C !! k = Some c) (Hp : p ≠ []).

Let i := 1 + Z.of_nat k.
Let off := Z.of_nat (length c).
Let live := made (freeinode s).

Lemma append_pre : live i ∧ di_size (X i) = off ∧ 0 ≤ i < NINODES ∧ nb (X i) = nblocks off.
Proof.
  pose proof (made_lookup _ _ _ _ I k c Hk) as Hi. pose proof (made_size _ _ _ _ I k c Hk) as Hs. fold i off in Hi, Hs.
  pose proof (mv_max _ _ _ _ I). unfold nb. rewrite Hs. unfold live, made in *. lia.
Qed.

(** The loop has run and the inode is written. *)
Context (s1 s2 : mkfs) (a1 : store) (din : dinode) (nb1 : Z) (A : appended s a (X i) (nb (X i)) off p s1 a1 din nb1).
Context (Hmax : off + Z.of_nat (length p) ≤ MAXFILE * BS).

Let y := din <| di_size := off + Z.of_nat (length p) |>.
Let a2 := put_inode a1 mk_sb i y.
Context (R2 : rep s2 a2) (Hfi : freeinode s2 = freeinode s1) (Hfb : freeblock s2 = freeblock s1).

Lemma append_nb : nb1 = nblocks (off + Z.of_nat (length p)).
Proof.
  rewrite (wt_nb _ _ _ _ _ _ _ _ _ (ap_written _ _ _ _ _ _ _ _ _ _ A)). destruct append_pre as (_ & _ & _ & ->).
  pose proof (nblocks_mono off (off + Z.of_nat (length p))). lia.
Qed.

Lemma append_wrote : wrote a mk_sb live X i off p a2 y.
Proof.
  destruct append_pre as (Hi & Hs & Hr & Hnb). assert (0 < Z.of_nat (length p)) by (destruct p; simpl; [done|lia]).
  apply (wrote_grown a mk_sb live X i off p a1 din nb1); [apply I|apply I|done|apply A|lia|lia|apply A].
Qed.

Lemma append_others j : live j → j ≠ i → compact a2 (X j) (nb (X j)) ∧ zero_tail a2 (X j) (di_size (X j)) (nb (X j)).
Proof.
  intros Hj Hne. destruct append_pre as (Hi & Hs & Hr & Hnb). pose proof (ap_written _ _ _ _ _ _ _ _ _ _ A) as W.
  pose proof (fv_size _ _ _ _ (mv_inv _ _ _ _ I) j Hj) as Hsj. pose proof (mv_compact _ _ _ _ I j Hj) as Cj.
  destruct (compact_frame a a1 (X j) (nb (X j)) (di_size (X j)) Cj ltac:(lia)) as [C1 T1].
  - intros b Ho. apply (extend_frame a mk_sb live X (mv_inv _ _ _ _ I) i Hi a1 din nb1 (wt_ext _ _ _ _ _ _ _ _ _ W) j b Hj Hne Ho).
  - intros b Ho. pose proof (fo_owned _ _ _ _ (cp_file _ _ _ Cj) b Ho) as (? & _ & _ & Hu).
    apply (ex_used _ _ _ _ _ _ _ (wt_ext _ _ _ _ _ _ _ _ _ W)); [lia|by left].
  - by apply (mv_tail _ _ _ _ I).
  - apply compact_put; [done|lia|done|done].
Qed.

Lemma append_none j : freeinode s ≤ j < NINODES → inode_at a2 mk_sb j = get_dinode zero_block 0.
Proof.
  intros Hj. destruct append_pre as (Hi & Hs & Hr & Hnb). pose proof (ap_written _ _ _ _ _ _ _ _ _ _ A) as W. unfold live, made in Hi.
  pose proof (mp_len _ _ _ (fo_mapped _ _ _ _ (wt_file _ _ _ _ _ _ _ _ _ W))) as Hl.
  unfold a2. rewrite put_inode_other; [|apply A|lia|lia|lia|done]. rewrite <- (mv_none _ _ _ _ I j Hj). unfold inode_at. f_equal.
  apply (ex_same _ _ _ _ _ _ _ (wt_ext _ _ _ _ _ _ _ _ _ W)).
  - pose proof (inode_sector j ltac:(lia)). rewrite bm_58. lia.
  - apply inode_unowned; [apply A|lia].
Qed.

Lemma append_minv : minv s2 a2 (upd X i y) (<[k := c ++ p]> C).
Proof.
  destruct append_pre as (Hi & Hs & Hr & Hnb). destruct append_wrote as [WI WS Wx Wd Wo].
  pose proof (ap_fi _ _ _ _ _ _ _ _ _ _ A) as Hfi1. assert (Hlive : made (freeinode s2) = live) by (unfold live; congruence).
  assert (Hcase : ∀ (P : Z → dinode → Prop), P i y → (∀ j, live j → j ≠ i → P j (X j)) → ∀ j, live j → P j (upd X i y j)).
  { intros P H1 H2 j Hj. destruct (decide (j = i)) as [->|Hne]; [by rewrite upd_eq|rewrite upd_ne by done; by apply H2]. }
  assert (Hself : compact a2 y nb1 ∧ zero_tail a2 y (di_size y) nb1).
  { apply compact_put; [| |exact (proj2 (compact_size a1 din nb1 _ y eq_refl (ap_compact _ _ _ _ _ _ _ _ _ _ A) (ap_tail _ _ _ _ _ _ _ _ _ _ A)))|done].
    - by eapply compact_size; [|apply A|apply A].
    - simpl. lia. }
  assert (Hny : nb y = nb1) by (rewrite append_nb; done).
  split; rewrite ?Hlive; [done|done|done| | | | | | | |].
  - rewrite length_insert, Hfi, Hfi1. apply I.
  - rewrite Hfi, Hfi1. apply I.
  - apply (Hcase (λ _ x, compact a2 x (nb x))); [rewrite Hny; apply Hself|]. intros j Hj Hne. by apply append_others.
  - apply (Hcase (λ _ x, zero_tail a2 x (di_size x) (nb x))); [rewrite Hny; apply Hself|]. intros j Hj Hne. by apply append_others.
  - apply (Hcase (λ j x, x = (new_dinode (type_of j)) <| di_size := di_size x |> <| di_addrs := di_addrs x |>)).
    + rewrite Wx, (mv_attr _ _ _ _ I i Hi). done.
    + intros j Hj _. by apply I.
  - intros j d. destruct (decide (j = k)) as [->|Hne].
    + rewrite list_lookup_insert_eq by (by eapply lookup_lt_Some). intros [= <-]. fold i. rewrite upd_eq, Wd. unfold i. rewrite (mv_data _ _ _ _ I k c Hk).
      unfold off, overwrite. rewrite Nat2Z.id, firstn_all, drop_ge by lia. by rewrite app_nil_r.
    + rewrite list_lookup_insert_ne by done. intros Hj. rewrite upd_ne by (unfold i; lia).
      rewrite Wo; [by apply I|by apply (made_lookup _ _ _ _ I j d)|unfold i; lia].
  - rewrite Hfb, (ap_fb _ _ _ _ _ _ _ _ _ _ A), (mv_fb _ _ _ _ I), (total_insert C k c) by done. unfold size_cost. rewrite length_app, Nat2Z.inj_add.
    fold off. rewrite append_nb, Hnb. lia.
  - rewrite Hfi, Hfi1. exact append_none.
Qed.
End append.

Lemma iappend_spec s a X C k c p : minv s a X C → C !! k = Some c → p ≠ [] → Z.of_nat (length c + length p) ≤ MAXFILE * BS →
  nmeta + total (<[k := c ++ p]> C) ≤ FSSIZE →
  wp (iappend (1 + Z.of_nat k) p) (λ _ s', ∃ a' X', minv s' a' X' (<[k := c ++ p]> C) ∧ freeinode s' = freeinode s) s.
Proof.
  intros I Hk Hp Hmax Hfree. destruct (append_pre _ _ _ _ I k c Hk) as (Hi & Hs & Hr & Hnb). set (i := 1 + Z.of_nat k) in *.
  unfold iappend. apply wp_bind. eapply rinode_spec; [exact I|done|]. apply wp_bind. rewrite Hs. set (off := Z.of_nat (length c)) in *.
  eapply wp_mono; [apply (append_loop_spec (S (length p)) s a (X i) (nb (X i)) off p); [apply I|by apply I| | |lia|lia|]|].
  - rewrite <- Hs. by apply (mv_tail _ _ _ _ I).
  - rewrite Hnb. split; [lia|]. apply nblocks_ge. lia.
  - rewrite (mv_fb _ _ _ _ I), Hnb. rewrite (total_insert C k c) in Hfree by done. unfold size_cost in Hfree. rewrite length_app, Nat2Z.inj_add in Hfree.
    fold off in Hfree. rewrite Z.max_r by (apply nblocks_mono; lia). lia.
  - intros [din off1] s1 (Hoff1 & a1 & nb1 & A). cbn [fst snd] in *. subst off1.
    pose proof (mp_len _ _ _ (fo_mapped _ _ _ _ (cp_file _ _ _ (ap_compact _ _ _ _ _ _ _ _ _ _ A)))) as Hl.
    eapply winode_spec; [apply A|done|done|]. intros s2 R2 Hfi Hfb. eexists _, _. split.
    + apply (append_minv s a X C I k c p Hk Hp s1 s2 a1 din nb1 A); [lia|exact R2|done|done].
    + rewrite Hfi. apply (ap_fi _ _ _ _ _ _ _ _ _ _ A).
Qed.

(** ** ialloc() *)

Lemma new_dinode_ok t : - 2 ^ 15 ≤ t < 2 ^ 15 → dinode_ok (new_dinode t) ∧ ∀ j, addr (new_dinode t) j = 0.
Proof.
  intros Ht. split.
  - split; try done; simpl; try lia. by repeat constructor.
  - intros j. unfold addr. change (di_addrs (new_dinode t)) with (replicate (S NDIRECT) 0). destruct (lookup j _) as [v|] eqn:E; [by apply lookup_replicate in E as [-> _]|done].
Qed.

Lemma made_S fi j : made (fi + 1) j ↔ j = fi ∧ 1 ≤ fi ∨ made fi j.
Proof. unfold made. lia. Qed.

Lemma ialloc_spec s a X C : minv s a X C → freeinode s < NINODES →
  wp (mk_ialloc (type_of (freeinode s))) (λ r s', r = freeinode s ∧ freeinode s' = freeinode s + 1 ∧ ∃ a' X', minv s' a' X' (C ++ [[]])) s.
Proof.
  intros I Hlt. pose proof (mv_fi _ _ _ _ I) as Hfi0. set (i := freeinode s) in *. set (x := new_dinode (type_of i)).
  assert (Hu32 : u32 (i + 1) = i + 1) by (apply u32_small; unfold NINODES in *; lia).
  destruct (new_dinode_ok (type_of i)) as [Hx Hz]; [unfold type_of; case_decide; done|]. fold x in Hx, Hz.
  assert (Hi : 0 ≤ i < NINODES) by lia. pose proof (inode_sector i Hi) as Hb.
  unfold mk_ialloc. apply wp_bind, wp_gets, wp_bind, wp_modify, wp_bind. fold i x. rewrite Hu32. set (s1 := s <| freeinode := i + 1 |>).
  assert (R1 : rep s1 a) by (destruct (mv_rep _ _ _ _ I) as [? ? ? ? ? ? ?]; by split).
  eapply winode_spec; [exact R1|done|done|]. intros s2 R2 Hfi Hfb. apply wp_ret. split; [done|]. split; [done|]. simpl in Hfi, Hfb.
  exists (put_inode a mk_sb i x), (upd X i x).
  assert (Hl : ∀ j, made (i + 1) j ↔ j = i ∨ made i j) by (intros j; rewrite made_S; unfold made; lia).
  assert (Hnl : ¬ made i i) by (unfold made; lia).
  destruct (new_inv a (made i) (made (i + 1)) X (mv_inv _ _ _ _ I) i x Hl Hnl ltac:(lia)) as [I' D'];
    [| |done|done|done|].
  { split_and!; [lia|change (sb_size mk_sb) with 2000; lia|change (home_block 2 29 (IBLOCK i mk_sb)); unfold home_block, FSSIZE; lia..|rewrite bm_58; lia|].
    rewrite (rep_used s _ _ (mv_rep _ _ _ _ I)) by (unfold FSSIZE; lia). pose proof (rp_fb _ _ (mv_rep _ _ _ _ I)) as Hfb0. rewrite nmeta_59 in Hfb0.
    apply bool_decide_true. lia. }
  { intros j Hj. apply inode_unowned; [by apply (mv_compact _ _ _ _ I)|done]. }
  assert (Hcase : ∀ (P : Z → dinode → Prop), P i x → (∀ j, made i j → P j (X j)) → ∀ j, made (i + 1) j → P j (upd X i x j)).
  { intros P H1 H2 j [->|Hj]%Hl; [by rewrite upd_eq|]. rewrite upd_ne by (intros ->; done). by apply H2. }
  destruct (empty_file (put_inode a mk_sb i x) mk_sb x Hz (dk_len _ Hx)) as [Fx Ox].
  split; rewrite ?Hfi; [done|done| | | | | | | | |].
  - intros j [->|Hj]%Hl; [rewrite upd_eq; apply put_inode_at; [apply I|done]|]. assert (j ≠ i) by (intros ->; done). unfold made in Hj.
    rewrite upd_ne, put_inode_other by (done || lia || apply I). by apply (mv_sync _ _ _ _ I).
  - rewrite length_app. simpl. lia.
  - lia.
  - apply (Hcase (λ _ x, compact _ x (nb x))); [split; [done|intros b Ho; by apply Ox in Ho|done]|].
    intros j Hj. pose proof (fv_size _ _ _ _ (mv_inv _ _ _ _ I) j Hj). eapply compact_put; [by apply I|..]; [|by apply (mv_tail _ _ _ _ I)|done]. lia.
  - apply (Hcase (λ _ x, zero_tail _ x (di_size x) (nb x))); [intros o Ho Hob; exfalso; change (nb x) with 0 in Hob; change (di_size x) with 0 in Ho;
      pose proof (Z.div_pos o BS Ho ltac:(done)); lia|].
    intros j Hj. pose proof (fv_size _ _ _ _ (mv_inv _ _ _ _ I) j Hj). eapply compact_put; [by apply I|..]; [|by apply (mv_tail _ _ _ _ I)|done]. lia.
  - by apply (Hcase (λ j x, x = (new_dinode (type_of j)) <| di_size := di_size x |> <| di_addrs := di_addrs x |>)); [|apply I].
  - intros j c Hj. apply lookup_app_Some in Hj as [Hj|[Hge Hj]].
    + pose proof (made_lookup _ _ _ _ I j c Hj) as Hm. rewrite upd_ne by (intros He; rewrite He in Hm; done). rewrite D' by done. by apply I.
    + apply list_lookup_singleton_Some in Hj as [Hj <-]. replace (1 + Z.of_nat j) with i by lia. by rewrite upd_eq.
  - rewrite Hfb, (mv_fb _ _ _ _ I), total_blocks_app. change (total [[]]) with 0. lia.
  - intros j Hj. rewrite put_inode_other by (done || lia || apply I). apply I. lia.
Qed.
