(* ===== verification/MkfsThms.v ===== *)
(** * mkfs makes a file system that the kernel boots from *)

From S2P Require Import Prelude Bytes Str Bio BioView Log LogCrash LogSpace Tx LogTx Fs FsBlock FsFile FsInv FsWritei FsDir FsPath FsThms Mkfs MkfsInv MkfsFiles.

#[local] Existing Instance mk_laws.

(** ** What the image is to hold *)

Abbreviation input := (list Z * list (list Z))%type.

Definition fname (f : input) : list Z := skip_underscore f.1.
Definition fcontent (f : input) : list Z := concat f.2.

(** The field of a name, and an entry. *)
Definition field (name : list Z) : list Z := take DIRSIZ name ++ replicate (DIRSIZ - length (take DIRSIZ name)) 0.
Definition entry_of (inum : Z) (name : list Z) : list Z := mk_dirent inum (field name).

Definition entries_of (fs : list input) : list (list Z) :=
  entry_of 1 [46] :: entry_of 1 [46; 46] :: imap (λ i f, entry_of (2 + Z.of_nat i) (fname f)) fs.

(** The contents of the inodes 1, 2, ... *)
Definition contents_of (fs : list input) : list (list Z) := concat (entries_of fs) :: (fcontent <$> fs).

Record input_ok (files : list input) : Prop := {
  in_count : Z.of_nat (length files) + 2 ≤ NINODES;
  in_names : ∀ f, f ∈ files → (47 ∉ f.1) ∧ (0 ∉ f.1);
  in_pieces : ∀ f, f ∈ files → Forall (λ p, p ≠ []) f.2;
  in_sizes : ∀ f, f ∈ files → Z.of_nat (length (fcontent f)) ≤ MAXFILE * BS;
  in_space : nmeta + total (contents_of files) ≤ FSSIZE;
}.

(** ** Directory entries *)

Lemma length_field name : length (field name) = DIRSIZ.
Proof. unfold field. rewrite length_app, length_replicate, length_take. lia. Qed.

Lemma length_entry inum name : length (entry_of inum name) = DE.
Proof. unfold entry_of. rewrite length_mk_dirent, length_field. done. Qed.

Lemma entries_length fs : Forall (λ e, length e = DE) (entries_of fs).
Proof.
  unfold entries_of. repeat (constructor; [apply length_entry|]). apply Forall_lookup. intros i e He.
  rewrite list_lookup_imap in He. destruct (fs !! i) as [f|]; [|done]. injection He as <-. apply length_entry.
Qed.

Lemma length_entries fs : length (concat (entries_of fs)) = (DE * (2 + length fs))%nat.
Proof.
  assert (H : ∀ es, Forall (λ e : list Z, length e = DE) es → length (concat es) = (DE * length es)%nat).
  { intros es Hes. induction Hes as [|e es He Hes IH]; [done|]. cbn [concat length]. rewrite length_app, He, IH. unfold DE. lia. }
  rewrite H by apply entries_length. unfold entries_of. cbn [length]. by rewrite length_imap.
Qed.

Lemma entries_snoc fs f : concat (entries_of (fs ++ [f])) = concat (entries_of fs) ++ entry_of (2 + Z.of_nat (length fs)) (fname f).
Proof.
  unfold entries_of. rewrite imap_app. cbn [imap]. rewrite !app_comm_cons, concat_app. f_equal. cbn [concat]. rewrite app_nil_r.
  unfold compose. rewrite Nat.add_0_r. done.
Qed.

Lemma skip_underscore_in name c : c ∈ skip_underscore name → c ∈ name.
Proof. destruct name as [|x name]; [done|]. unfold skip_underscore. destruct x as [|p|p]; try done. repeat (destruct p as [p|p|]; try done). intros H. by right. Qed.

Lemma mk_de_spec inum name s (Q : list Z → mkfs → Prop) : 0 ∉ name → Q (entry_of inum name) s → wp (mk_de inum name) Q s.
Proof.
  intros H0 HQ. unfold mk_de. rewrite strncpy_spec; [|by rewrite length_replicate|left; apply elem_of_app; right; by left].
  rewrite cstr_app_0 by done. rewrite drop_ge, app_nil_r by (by rewrite length_replicate). by apply wp_ret.
Qed.

(** ** The blocks that are needed *)

Lemma size_cost_mono c c' : (length c ≤ length c')%nat → size_cost c ≤ size_cost c'.
Proof. intros H. apply cost_mono, nblocks_mono. lia. Qed.

Lemma size_cost_pos c : 0 ≤ size_cost c.
Proof. change 0 with (size_cost []). apply size_cost_mono. simpl. lia. Qed.

Lemma total_pos C : 0 ≤ total C.
Proof. induction C as [|c C IH]; [done|]. change (total (c :: C)) with (size_cost c + total C). pose proof (size_cost_pos c). lia. Qed.

(** While a file is added, no more blocks are in use than at the end. *)
Lemma total_partial fs f rest r q : (length r ≤ length (concat (entries_of (fs ++ f :: rest))))%nat → (length q ≤ length (fcontent f))%nat →
  total (r :: (fcontent <$> fs) ++ [q]) ≤ total (contents_of (fs ++ f :: rest)).
Proof.
  intros Hr%size_cost_mono Hq%size_cost_mono. unfold contents_of. rewrite fmap_app, fmap_cons.
  change (total (r :: ?l)) with (size_cost r + total l). change (total (concat ?x :: ?l)) with (size_cost (concat x) + total l).
  rewrite !total_blocks_app. change (total [q]) with (size_cost q + 0). change (total (fcontent f :: ?l)) with (size_cost (fcontent f) + total l).
  pose proof (total_pos (fcontent <$> rest)). lia.
Qed.

(** ** Adding files *)

Lemma pieces_loop_spec s a X C k c ps : minv s a X C → C !! k = Some c → Forall (λ p, p ≠ []) ps →
  Z.of_nat (length c + length (concat ps)) ≤ MAXFILE * BS → nmeta + total (<[k := c ++ concat ps]> C) ≤ FSSIZE →
  wp (pieces_loop (1 + Z.of_nat k) ps) (λ _ s', ∃ a' X', minv s' a' X' (<[k := c ++ concat ps]> C) ∧ freeinode s' = freeinode s) s.
Proof.
  intros I Hk Hps. revert s a X C c I Hk. induction Hps as [|p ps Hp Hps IH]; intros s a X C c I Hk Hmax Hfree.
  - apply wp_ret. exists a, X. cbn [concat]. rewrite app_nil_r, list_insert_id by done. done.
  - cbn [pieces_loop concat] in *. rewrite length_app in Hmax. apply wp_bind. eapply wp_mono; [apply (iappend_spec s a X C k c p I Hk Hp); [lia|]|].
    + rewrite (total_insert C k c) in Hfree |- * by done. pose proof (size_cost_mono (c ++ p) (c ++ p ++ concat ps)) as Hm.
      rewrite !length_app in Hm. specialize (Hm ltac:(lia)). lia.
    + intros _ s1 (a1 & X1 & I1 & Hfi). eapply wp_mono; [apply (IH s1 a1 X1 _ (c ++ p) I1)|].
      * apply list_lookup_insert_eq. by eapply lookup_lt_Some.
      * rewrite length_app. lia.
      * rewrite list_insert_insert_eq, <- app_assoc. done.
      * intros _ s2 (a2 & X2 & I2 & Hfi2). rewrite list_insert_insert_eq, <- app_assoc in I2. exists a2, X2. split; [done|congruence].
Qed.

Lemma add_file_spec s a X fs f rest : input_ok (fs ++ f :: rest) → minv s a X (contents_of fs) →
  wp (add_file 1 f) (λ _ s', ∃ a' X', minv s' a' X' (contents_of (fs ++ [f]))) s.
Proof.
  intros Hin I. assert (Hf : f ∈ fs ++ f :: rest) by (apply elem_of_app; right; left).
  destruct (in_names _ Hin f Hf) as [Hslash H0]. pose proof (in_pieces _ Hin f Hf) as Hps. pose proof (in_sizes _ Hin f Hf) as Hsz.
  pose proof (in_count _ Hin) as Hcnt. rewrite length_app in Hcnt. cbn [length] in Hcnt. pose proof (mv_fi _ _ _ _ I) as Hfi.
  unfold contents_of in Hfi. cbn [length] in Hfi. rewrite length_fmap in Hfi.
  assert (Hroot : (length (concat (entries_of fs)) + DE ≤ length (concat (entries_of (fs ++ f :: rest))))%nat).
  { rewrite !length_entries, length_app. cbn [length]. unfold DE. lia. }
  pose proof (in_space _ Hin) as Hspace.
  unfold add_file. apply wp_bind, wp_panic_if; [by apply bool_decide_false|]. apply wp_bind.
  assert (Ht : T_FILE = type_of (freeinode s)) by (unfold type_of; rewrite decide_False by lia; done). rewrite Ht.
  eapply wp_mono; [apply (ialloc_spec s a X _ I); lia|]. intros inum s1 (-> & Hfi1 & a1 & X1 & I1).
  apply wp_bind, mk_de_spec; [intros Hc%skip_underscore_in; done|]. fold (fname f). apply wp_bind.
  replace (freeinode s) with (2 + Z.of_nat (length fs)) by lia.
  set (de := entry_of (2 + Z.of_nat (length fs)) (fname f)). change (contents_of fs ++ [[]]) with (concat (entries_of fs) :: (fcontent <$> fs) ++ [[]]) in I1.
  assert (Hde : length de = DE) by apply length_entry.
  eapply wp_mono; [apply (iappend_spec s1 a1 X1 _ 0 (concat (entries_of fs)) de I1); [done|intros He; rewrite He in Hde; done| |]|].
  { rewrite length_entries, Hde. unfold MAXFILE, BS, BSIZE, NINODES, DE in *. lia. }
  { cbn [insert list_insert]. etrans; [|exact Hspace]. apply Z.add_le_mono_l, total_partial; [rewrite length_app, Hde; lia|simpl; lia]. }
  intros _ s2 (a2 & X2 & I2 & _). cbn [insert list_insert] in I2. unfold de in I2. rewrite <- entries_snoc in I2.
  assert (Hk : (concat (entries_of (fs ++ [f])) :: (fcontent <$> fs) ++ [[]]) !! S (length fs) = Some []).
  { simpl. rewrite lookup_app_r by (by rewrite length_fmap). by rewrite length_fmap, Nat.sub_diag. }
  assert (Hins : <[S (length fs) := [] ++ concat f.2]> (concat (entries_of (fs ++ [f])) :: (fcontent <$> fs) ++ [[]]) = contents_of (fs ++ [f])).
  { unfold contents_of. change (<[S ?n := ?x]> (?h :: ?t)) with (h :: <[n := x]> t). f_equal. rewrite fmap_app. rewrite insert_app_r_alt by (by rewrite length_fmap).
    by rewrite length_fmap, Nat.sub_diag. }
  replace (2 + Z.of_nat (length fs)) with (1 + Z.of_nat (S (length fs))) by lia.
  eapply wp_mono; [apply (pieces_loop_spec s2 a2 X2 _ (S (length fs)) [] f.2 I2 Hk Hps); [simpl; unfold fcontent in Hsz; lia|]|].
  - rewrite Hins. etrans; [|exact Hspace]. apply Z.add_le_mono_l. unfold contents_of at 1. rewrite fmap_app.
    apply total_partial; [rewrite !length_entries, !length_app; cbn [length]; unfold DE; lia|done].
  - intros _ s3 (a3 & X3 & I3 & _). rewrite Hins in I3. by exists a3, X3.
Qed.

Lemma files_loop_spec fs rest s a X : input_ok (fs ++ rest) → minv s a X (contents_of fs) →
  wp (files_loop 1 rest) (λ _ s', ∃ a' X', minv s' a' X' (contents_of (fs ++ rest))) s.
Proof.
  revert fs s a X. induction rest as [|f rest IH]; intros fs s a X Hin I; cbn [files_loop].
  - apply wp_ret. rewrite app_nil_r. by exists a, X.
  - apply wp_bind. eapply wp_mono; [by eapply add_file_spec|]. intros _ s1 (a1 & X1 & I1).
    eapply wp_mono; [apply (IH (fs ++ [f]) s1 a1 X1); [by rewrite <- app_assoc|done]|]. by rewrite <- app_assoc.
Qed.

(** ** The empty image *)

Definition blank (s : mkfs) : Prop := ∀ k, disk_at (mk_img s) k = zero_block.

Lemma zero_loop_spec n i s : 0 ≤ i → blank s → mk_len s = i →
  wp (zero_loop n i) (λ _ s', blank s' ∧ mk_len s' = i + Z.of_nat n ∧ freeinode s' = freeinode s ∧ freeblock s' = freeblock s) s.
Proof.
  revert i s. induction n as [|n IH]; intros i s Hi B Hl; cbn [zero_loop].
  - apply wp_ret. split_and!; [done|lia|done|done].
  - apply wp_bind, wsect_spec. eapply wp_mono; [apply (IH (i + 1) (wrote_sect s i zero_block))|].
    + lia.
    + intros k. simpl. case_decide; [done|apply B].
    + simpl. lia.
    + intros _ s' (H1 & H2 & H3 & H4). split_and!; [done|lia|done|done].
Qed.

Lemma zero_dinode o : get_dinode zero_block o = get_dinode zero_block 0.
Proof. unfold get_dinode, get_addrs, zero_block. rewrite !get_zeros. f_equal. apply list_fmap_ext. intros j y _. by rewrite !get_zeros. Qed.

(** The super block is written, and nothing else. *)
Lemma start_minv s X : blank s → mk_len s = FSSIZE → freeinode s = 1 → freeblock s = nmeta →
  let s1 := wrote_sect s 1 (low_block 1) in
  ∃ a, minv s1 a X [].
Proof.
  intros B Hl Hfi Hfb s1. set (a := λ k : key, if decide (k = (1, 58)) then mark_used nmeta else disk_at (mk_img s1) k).
  assert (Hat : ∀ k, disk_at (mk_img s1) k = if decide (k = (1, 1)) then low_block 1 else zero_block).
  { intros k. simpl. case_decide as H1; [by rewrite decide_True|]. rewrite decide_False by done. apply B. }
  assert (Hlow : length (low_block 1) = BSIZE).
  { unfold low_block. rewrite decide_True, length_put_words by (try done; rewrite ?length_replicate; unfold BSIZE; simpl; lia). apply length_replicate. }
  assert (R : rep s1 a).
  { split; simpl freeblock; rewrite ?Hfb.
    - intros b Hb. unfold a. case_decide as H1; [injection H1 as ->; by rewrite decide_True|]. rewrite decide_False; [done|congruence].
    - intros k. unfold a. case_decide; [apply length_mark_used|]. rewrite Hat. case_decide; [exact Hlow|apply length_replicate].
    - simpl. rewrite Hl. unfold FSSIZE. lia.
    - rewrite nmeta_59. unfold FSSIZE. lia.
    - intros b Hb. rewrite nmeta_59 in Hb. rewrite Hat, decide_False; [done|]. intros [= ->]. lia.
    - intros b Hb. rewrite Hat. unfold low_block. destruct (decide (b = 1)) as [->|]; [by rewrite !decide_True|]. rewrite !decide_False; congruence.
    - intros k. rewrite Hat. case_decide; [exact Hlow|apply length_replicate]. }
  assert (Hno : ∀ i, ¬ made (freeinode s1) i) by (intros i; simpl; rewrite Hfi; unfold made; lia).
  exists a. split; [done| | | |by simpl; rewrite Hfi| | | |done|by simpl; rewrite Hfb|].
  - split; try (intros i Hi; by apply Hno in Hi); [by eapply rep_map| |]; intros i j; [intros Hi|intros b Hi]; by apply Hno in Hi.
  - intros i Hi. by apply Hno in Hi.
  - simpl. by rewrite Hfi.
  - intros i Hi. by apply Hno in Hi.
  - intros i Hi. by apply Hno in Hi.
  - intros i Hi. by apply Hno in Hi.
  - intros i Hi. simpl in Hi. pose proof (inode_sector i ltac:(lia)) as Hb. unfold inode_at, a. rewrite decide_False by (intros [= ?]; lia).
    rewrite Hat, decide_False by (intros [= ?]; lia). apply zero_dinode.
Qed.

(** ** The final size of the root directory *)

Lemma round_up n : (0 < n)%nat → (n mod 32 ≠ 0)%nat →
  let sz := Z.of_nat (DE * n) in let off := (sz / BS + 1) * BS in
  sz < off ∧ nblocks off = nblocks sz ∧ off mod 16 = 0 ∧ off = Z.of_nat (DE * (n + (32 - n mod 32))).
Proof.
  intros Hn Hm. cbv zeta. unfold nblocks. rewrite BS_val. unfold DE. pose proof (Nat.div_mod_eq n 32) as Hd. pose proof (Nat.mod_upper_bound n 32 ltac:(lia)).
  set (q := (n / 32)%nat) in *. set (r := (n mod 32)%nat) in *. assert (Hs : Z.of_nat (16 * n) / 512 = Z.of_nat q).
  { symmetry. apply Z.div_unique with (Z.of_nat (16 * r)); lia. }
  rewrite Hs. split_and!; [lia| | |lia].
  - transitivity (Z.of_nat q + 1); [|]; [symmetry; apply Z.div_unique with 511; lia|apply Z.div_unique with (Z.of_nat (16 * r) - 1); lia].
  - replace ((Z.of_nat q + 1) * 512) with ((Z.of_nat q + 1) * 32 * 16) by lia. apply Z.mod_mul. lia.
Qed.

Lemma content_tail a x n m nb : zero_tail a x (Z.of_nat n) nb → Z.of_nat (n + m) ≤ nb * BS →
  content a x 0 (n + m) = content a x 0 n ++ replicate m 0.
Proof.
  intros T Hnb. rewrite content_app. f_equal. apply list_eq. intros j. unfold content. rewrite list_lookup_fmap. destruct (decide (j < m)%nat) as [Hj|Hj].
  - rewrite lookup_seq_lt, lookup_replicate_2 by done. simpl. rewrite T; [done|lia|]. apply Z.div_lt_upper_bound; [done|]. lia.
  - rewrite lookup_seq_ge by lia. symmetry. apply lookup_ge_None_2. rewrite length_replicate. lia.
Qed.

Section root.
Context (s : mkfs) (a : store) (X : Z → dinode) (files : list input) (I : minv s a X (contents_of files)).
Context (Hin : input_ok files) (Hmod : ((2 + length files) mod 32 ≠ 0)%nat).

Let live := made (freeinode s).
Let n := (2 + length files)%nat.
Let off := Z.of_nat (DE * (n + (32 - n mod 32))).
Let y := (X 1) <| di_size := off |>.

Lemma root_facts : live 1 ∧ di_size (X 1) = Z.of_nat (DE * n) ∧ (di_size (X 1) / BS + 1) * BS = off ∧ di_size (X 1) < off ∧
  nblocks off = nb (X 1) ∧ off mod 16 = 0 ∧ off ≤ MAXFILE * BS.
Proof.
  assert (H0 : contents_of files !! 0%nat = Some (concat (entries_of files))) by done.
  pose proof (made_lookup _ _ _ _ I 0 _ H0) as Hl. pose proof (made_size _ _ _ _ I 0 _ H0) as Hs. rewrite length_entries in Hs. fold n in Hs.
  change (1 + Z.of_nat 0) with 1 in Hl, Hs. destruct (round_up n ltac:(unfold n; lia) Hmod) as (H1 & H2 & H3 & H4). cbv zeta in *.
  rewrite <- Hs in *. rewrite H4 in *. fold off in H1, H2, H3 |- *. pose proof (in_count _ Hin).
  split_and!; try done. unfold off, n, DE, MAXFILE, BS, BSIZE, NINODES in *. pose proof (Nat.mod_upper_bound (2 + length files) 32). lia.
Qed.

Lemma root_inv : fs_inv a mk_sb live (upd X 1 y).
Proof.
  destruct root_facts as (Hl & _ & _ & Hlt & Hnb & _ & Hmax). pose proof (mv_inv _ _ _ _ I) as V. pose proof (fv_file _ _ _ _ V 1 Hl) as F.
  pose proof (fv_size _ _ _ _ V 1 Hl). destruct (extend_inv a mk_sb live X V 1 Hl a (X 1) (nb (X 1)) F (extends_refl _ _ _ _ F) (fv_map _ _ _ _ V) off ltac:(lia) ltac:(done)) as (I' & _ & _).
  exact I'.
Qed.

Let a' := put_inode a mk_sb 1 y.

Lemma root_fixed : fs_inv a' mk_sb live (upd X 1 y) ∧ synced a' mk_sb live (upd X 1 y) ∧
  fdata a' y = concat (entries_of files) ++ replicate (DE * (32 - n mod 32)) 0 ∧
  (∀ j, live j → j ≠ 1 → fdata a' (X j) = fdata a (X j)) ∧ is_dir y.
Proof.
  destruct root_facts as (Hl & Hs & _ & Hlt & Hnb & H16 & Hmax). pose proof root_inv as I1.
  destruct (put_inode_inv a mk_sb live (upd X 1 y) 1 y I1 Hl) as [I2 D2]. pose proof (fv_dinode _ _ _ _ I1 1 Hl) as Hy. rewrite upd_eq in Hy.
  pose proof (rp_full _ _ (mv_rep _ _ _ _ I)) as Hf. split; [done|]. split_and!.
  - intros j Hj. pose proof (fv_inum _ _ _ _ I1 j Hj). destruct (decide (j = 1)) as [->|Hne]; [rewrite upd_eq; by apply put_inode_at|].
    unfold a'. rewrite put_inode_other by (done || lia || apply Hy). rewrite upd_ne by done. by apply (mv_sync _ _ _ _ I).
  - pose proof (D2 1 Hl) as Hd. rewrite upd_eq in Hd. fold a' in Hd. rewrite Hd. unfold fdata. change (di_size y) with off.
    assert (Hoff : Z.to_nat off = (DE * n + DE * (32 - n mod 32))%nat) by (unfold off; lia).
    assert (Hb : ∀ m, content a y 0 m = content a (X 1) 0 m).
    { intros m. unfold content. apply list_fmap_ext. intros k z _. unfold fbyte. by rewrite (blk_addrs a (X 1) y). }
    rewrite Hoff, Hb. rewrite (content_tail a (X 1) (DE * n) (DE * (32 - n mod 32)) (nb (X 1))).
    + f_equal. replace (DE * n)%nat with (Z.to_nat (di_size (X 1))) by lia. by apply (mv_data _ _ _ _ I 0).
    + rewrite <- Hs. by apply (mv_tail _ _ _ _ I).
    + rewrite <- Hoff, Z2Nat.id by (unfold off; lia). rewrite <- Hnb. apply nblocks_ge. unfold off. lia.
  - intros j Hj Hne. pose proof (D2 j Hj) as Hd. by rewrite upd_ne in Hd.
  - split; [|exact H16]. unfold y. simpl. by rewrite (mv_attr _ _ _ _ I 1 Hl).
Qed.
End root.

(** ** Names *)

(** The inode number of the first entry with the name. *)
Definition names_of (files : list input) : list (list Z * Z) :=
  ([46], 1) :: ([46; 46], 1) :: imap (λ i f, (take DIRSIZ (fname f), 2 + Z.of_nat i)) files.
Definition lookup_name (files : list input) (q : list Z) : option Z :=
  snd <$> head (filter (λ e, e.1 = dkey q) (names_of files)).

Lemma dent_app e l j : length e = DE → dent (e ++ l) (S j) = dent l j.
Proof. intros He. unfold dent. rewrite drop_app_ge by (unfold DE in *; lia). do 2 f_equal. rewrite He. unfold DE. lia. Qed.

Lemma dent_head e l : length e = DE → dent (e ++ l) 0 = e.
Proof. intros He. unfold dent. rewrite Nat.mul_0_r, drop_0, take_app_length'; done. Qed.

Lemma find_ent_shift P e l j m : length e = DE → find_ent P (e ++ l) (S j) m = S <$> find_ent P l j m.
Proof.
  intros He. revert j. induction m as [|m IH]; intros j; cbn [find_ent]; [done|]. rewrite dent_app by done.
  destruct (P (dent l j)); [done|]. apply IH.
Qed.

Lemma find_entries P es l m : Forall (λ e, length e = DE) es → (∀ i, (i < m)%nat → P (dent l i) = false) →
  (λ j, de_inum (dent (concat es ++ l) j)) <$> find_ent P (concat es ++ l) 0 (length es + m) = de_inum <$> head (filter (λ e, P e = true) es).
Proof.
  intros Hes Hl. induction Hes as [|e es He Hes IH].
  - simpl. rewrite find_ent_none; [done|]. intros i Hi. apply Hl. lia.
  - cbn [concat length Nat.add find_ent]. rewrite <- app_assoc, dent_head by done. rewrite filter_cons.
    destruct (P e) eqn:Hp; [rewrite decide_True by done; cbn [head fmap option_fmap option_map]; by rewrite dent_head|].
    rewrite decide_False by congruence. rewrite find_ent_shift, <- IH by done. destruct (find_ent P _ 0 _); [|done].
    cbn [fmap option_fmap option_map]. by rewrite dent_app.
Qed.

Lemma dkey_field name : 0 ∉ name → dkey (field name) = take DIRSIZ name.
Proof.
  intros H0. unfold dkey, field. set (k := take DIRSIZ name). assert (Hk : 0 ∉ k) by (intros Hc; apply H0; by eapply subseteq_take).
  assert (Hl : (length k ≤ DIRSIZ)%nat) by (unfold k; rewrite length_take; lia).
  destruct (DIRSIZ - length k)%nat as [|m] eqn:E; simpl.
  - rewrite app_nil_r, cstr_id by done. apply take_ge. lia.
  - rewrite cstr_app_0 by done. by apply take_ge.
Qed.

Lemma hit_entry q inum name : 0 < inum < 2 ^ 16 → 0 ∉ name → hit q (entry_of inum name) = bool_decide (take DIRSIZ name = dkey q).
Proof.
  intros Hi H0. unfold hit, entry_of. rewrite de_inum_mk by lia. rewrite (proj2 (Z.eqb_neq _ _)) by lia. cbn [negb andb].
  change (de_name (mk_dirent inum (field name))) with (field name). rewrite dkey_field by done. apply bool_decide_ext. split; done.
Qed.

Definition names_entry (q e : list Z) (x : list Z * Z) : Prop := hit q e = bool_decide (x.1 = dkey q) ∧ de_inum e = x.2.

Lemma first_of q es l : Forall2 (names_entry q) es l →
  de_inum <$> head (filter (λ e, hit q e = true) es) = snd <$> head (filter (λ x, x.1 = dkey q) l).
Proof.
  intros H. induction H as [|e x es l [Hh Hi] H IH]; [done|]. rewrite !filter_cons. destruct (decide (x.1 = dkey q)) as [Hx|Hx].
  - rewrite decide_True by (rewrite Hh; by apply bool_decide_true). simpl. by rewrite Hi.
  - rewrite decide_False by (rewrite Hh, bool_decide_false; done). exact IH.
Qed.

Lemma entries_names files q : input_ok files → Forall2 (names_entry q) (entries_of files) (names_of files).
Proof.
  intros Hin. pose proof (in_count _ Hin) as Hc. unfold NINODES in Hc.
  assert (Hone : ∀ inum name, 0 < inum < 2 ^ 16 → 0 ∉ name → names_entry q (entry_of inum name) (take DIRSIZ name, inum)).
  { intros inum name Hi H0. split; [by apply hit_entry|]. cbn [snd]. apply de_inum_mk. lia. }
  unfold entries_of, names_of. constructor; [apply (Hone 1 [46]); [lia|set_solver]|]. constructor; [apply (Hone 1 [46; 46]); [lia|set_solver]|].
  apply Forall2_same_length_lookup. split; [by rewrite !length_imap|]. intros i e x He Hx. rewrite list_lookup_imap in He. rewrite list_lookup_imap in Hx.
  destruct (files !! i) as [f|] eqn:Hf; [|done]. injection He as <-. injection Hx as <-. pose proof (lookup_lt_Some _ _ _ Hf).
  apply Hone; [lia|]. intros H0%skip_underscore_in. by destruct (in_names _ Hin f (list_elem_of_lookup_2 _ _ _ Hf)).
Qed.

Lemma dir_names files m q : input_ok files → dir_inum (concat (entries_of files) ++ replicate (DE * m) 0) q = lookup_name files q.
Proof.
  intros Hin. unfold lookup_name. rewrite <- (first_of q (entries_of files)) by (by apply entries_names).
  rewrite <- (find_entries (hit q) (entries_of files) (replicate (DE * m) 0) m); [|apply entries_length|].
  - unfold dir_inum, dir_get. do 2 f_equal. unfold dcount. rewrite length_app, length_entries, length_replicate.
    replace (length (entries_of files)) with (2 + length files)%nat by (unfold entries_of; cbn [length]; by rewrite length_imap).
    rewrite <- Nat.mul_add_distr_l, Nat.mul_comm. by apply Nat.div_mul.
  - intros i Hi. unfold hit. assert (Hz : de_inum (dent (replicate (DE * m) 0) i) = 0).
    { unfold de_inum, get_le, dent. rewrite drop_0, drop_replicate, !take_replicate. by induction (_ `min` _)%nat as [|k IH]; [|simpl; rewrite IH]. }
    by rewrite Hz.
Qed.

Lemma lookup_made files q j : lookup_name files q = Some j → made (2 + Z.of_nat (length files)) j.
Proof.
  unfold lookup_name. intros (x & Hx & ->)%fmap_Some. apply head_Some_elem_of in Hx. apply list_elem_of_filter in Hx as [_ Hx].
  unfold made, names_of in *. rewrite !elem_of_cons in Hx. destruct Hx as [->|[->|Hx]]; [simpl; lia|simpl; lia|].
  apply list_elem_of_lookup in Hx as [i Hi]. rewrite list_lookup_imap in Hi. destruct (files !! i) as [f|] eqn:Hf; [|done]. injection Hi as <-.
  apply lookup_lt_Some in Hf. simpl. lia.
Qed.

(** ** The finished image *)

(** The blocks of the image are those of the store, the free map included. *)
Record image (s : mkfs) (a : store) (X : Z → dinode) (files : list input) : Prop := {
  im_at : ∀ b, 0 ≤ b < FSSIZE → disk_at (mk_img s) (1, b) = a (1, b);
  im_len : mk_len s = FSSIZE;
  im_low : ∀ b, 0 ≤ b < 32 → disk_at (mk_img s) (1, b) = low_block b;
  im_full : full (disk_at (mk_img s));
  im_tree : fs_tree a mk_sb (made (2 + Z.of_nat (length files))) X;
  im_names : ∀ q, dir_inum (fdata a (X 1)) q = lookup_name files q;
  im_files : ∀ i f, files !! i = Some f → let x := X (2 + Z.of_nat i) in
    fdata a x = fcontent f ∧ di_type x = T_FILE ∧ di_mode x = DEFAULTMODE ∧ di_uid x = DEFAULTUID ∧ di_gid x = DEFAULTGID;
  im_free : ∀ i, 2 + Z.of_nat (length files) ≤ i < NINODES → di_type (inode_at a mk_sb i) = 0;
  im_map : ∀ b, 0 ≤ b < FSSIZE → used a mk_sb b = bool_decide (b < nmeta + total (contents_of files));
}.

(** fix_root() and mk_balloc() complete it. *)
Lemma finish_spec s a X files : minv s a X (contents_of files) → input_ok files → ((2 + length files) mod 32 ≠ 0)%nat →
  wp (fix_root 1;; fb ← gets freeblock; mk_balloc fb) (λ _ s', ∃ a' X', image s' a' X' files) s.
Proof.
  intros I Hin Hmod. destruct (root_facts s a X files I Hin Hmod) as (Hl & Hs & Hoff & Hlt & Hnb & H16 & Hmax).
  destruct (root_fixed s a X files I Hin Hmod) as (I1 & S1 & D1 & O1 & Dir1). set (n := (2 + length files)%nat) in *.
  set (off := Z.of_nat (DE * (n + (32 - n mod 32)))) in *. set (y := (X 1) <| di_size := off |>) in *.
  pose proof (mv_fi _ _ _ _ I) as Hfi. unfold contents_of in Hfi. cbn [length] in Hfi. rewrite length_fmap in Hfi.
  assert (Hlive : made (freeinode s) = made (2 + Z.of_nat (length files))) by (f_equal; lia). rewrite Hlive in *.
  apply wp_bind. unfold fix_root. apply wp_bind. eapply rinode_spec; [exact I|by rewrite Hlive|]. change (Z.of_nat BSIZE) with BS. rewrite Hoff.
  rewrite (u32_small off) by (unfold MAXFILE, BS, BSIZE in Hmax; lia). fold y.
  pose proof (dk_len _ (fv_dinode _ _ _ _ I1 1 Hl)) as Hlen. rewrite upd_eq in Hlen.
  eapply winode_spec; [apply I|unfold NINODES; lia|exact Hlen|]. intros s1 R1 Hfi1 Hfb1. apply wp_bind, wp_gets. unfold mk_balloc.
  pose proof (rp_fb _ _ R1) as Hfb. rewrite nmeta_59 in Hfb. apply wp_bind, wp_panic_if; [apply Z.leb_gt; unfold BSIZE, FSSIZE in *; lia|].
  change (sb_bmapstart mk_sb) with 58. apply wsect_spec. set (a1 := put_inode a mk_sb 1 y) in *. exists a1, (upd X 1 y).
  assert (Hat : ∀ b, b ≠ 58 → disk_at (mk_img (wrote_sect s1 58 (mark_used (freeblock s1)))) (1, b) = disk_at (mk_img s1) (1, b)).
  { intros b Hb. simpl. apply decide_False. intros [= ->]. done. }
  assert (Hcases : ∀ j, made (2 + Z.of_nat (length files)) j → upd X 1 y j = (new_dinode (type_of j)) <| di_size := di_size (upd X 1 y j) |> <| di_addrs := di_addrs (upd X 1 y j) |>).
  { intros j Hj. rewrite <- Hlive in Hj. pose proof (mv_attr _ _ _ _ I j Hj) as Ha. unfold upd. case_decide; [|done]. subst j. unfold y. rewrite Ha. done. }
  split.
  - intros b Hb. rewrite (rp_at _ _ R1) by done. case_decide as Hd; [|by apply Hat]. by subst b.
  - simpl. rewrite (rp_len _ _ R1). unfold FSSIZE. lia.
  - intros b Hb. rewrite Hat by lia. by apply R1.
  - intros k. simpl. case_decide; [apply length_mark_used|apply R1].
  - split; [done|done| | | |done|done].
    + intros j Hj. rewrite Hcases by done. simpl. unfold type_of. by case_decide.
    + intros j Hj. rewrite Hcases by done. done.
    + intros j Hj Ht. destruct (decide (j = 1)) as [->|Hne].
      * rewrite upd_eq. split; [exact Dir1|]. intros q k. rewrite D1, dir_names by done. apply lookup_made.
      * exfalso. rewrite Hcases in Ht by done. simpl in Ht. unfold type_of in Ht. by rewrite decide_False in Ht.
  - intros q. rewrite upd_eq, D1. by apply dir_names.
  - intros i f Hf. pose proof (lookup_lt_Some _ _ _ Hf). assert (Hj : made (2 + Z.of_nat (length files)) (2 + Z.of_nat i)) by (unfold made; lia). cbv zeta.
    rewrite (Hcases _ Hj) at 2 3 4 5. unfold type_of. rewrite decide_False by lia. split; [|done].
    rewrite upd_ne, O1 by (done || lia). replace (2 + Z.of_nat i) with (1 + Z.of_nat (S i)) by lia. apply (mv_data _ _ _ _ I).
    unfold contents_of. simpl. rewrite list_lookup_fmap, Hf. done.
  - intros i Hi. unfold a1. rewrite put_inode_other; [|apply I|lia|lia|lia|exact Hlen]. rewrite (mv_none _ _ _ _ I) by lia. by vm_compute.
  - intros b Hb. rewrite (rep_used s1 a1 b R1 Hb), Hfb1, (mv_fb _ _ _ _ I). done.
Qed.

(** ** Booting from the image *)

Lemma image_sb s a X files : image s a X files → sb_of (disk_at (mk_img s) (1, 1)) = mk_sb.
Proof. intros IM. rewrite (im_low _ _ _ _ IM) by lia. vm_compute. reflexivity. Qed.

Lemma image_means s a X files : image s a X files → means 1 2 29 (mk_img s) [] (disk_at (mk_img s)).
Proof.
  intros IM. split.
  - split; [by right|lia|unfold FSSIZE; lia|set_solver].
  - constructor.
  - simpl; lia.
  - simpl; lia.
  - apply head_of_nil. change (hdr 1 2) with (1, 2). rewrite (im_low _ _ _ _ IM) by lia. apply get_zeros.
  - done.
  - done.
  - apply IM.
  - by rewrite (image_sb _ _ _ _ IM).
  - split; [lia|set_solver].
Qed.

Lemma image_boot s a X files : image s a X files →
  wp (boot 1) (λ _ l, ∃ a', log_view 1 2 29 l a' false [] [] ∧ ∀ b, home_block 2 29 b → a' (1, b) = a (1, b)) (booting (mk_img s) true).
Proof.
  intros IM. eapply wp_mono; [apply (boot_spec 1 2 29 (mk_img s) true [] _ (image_means _ _ _ _ IM) (or_intror eq_refl))|].
  intros [] l (Hd & HL & V & Hfr & Hset). rewrite (image_sb _ _ _ _ IM) in Hset. injection Hset as Hsz Ho Hc.
  set (a' := disk_at (bio_disk (lg_bio l))) in *.
  assert (Hat : ∀ k, a' k = apply_writes (recovery 1 2 (disk_at (mk_img s)) []) (disk_at (mk_img s)) k) by (intros k; unfold a'; rewrite Hd; apply disk_at_writes).
  assert (Hw : ∀ w, w ∈ recovery 1 2 (disk_at (mk_img s)) [] → w.1 = (1, 2) ∧ length w.2 = BSIZE).
  { pose proof (im_full _ _ _ _ IM (1, 2)) as Hf. intros w. unfold recovery, install_writes. simpl. rewrite list_elem_of_singleton. intros ->.
    split; [done|]. simpl. change (hdr 1 2) with (1, 2). rewrite length_drop, Hf. done. }
  exists a'. split.
  - split; [exact V|exact HL| |set_solver| |constructor|set_solver|simpl; lia|exact Hsz|exact Ho|exact Hc].
    + intros k. rewrite Hat. apply full_writes; [apply IM|]. intros w Hwin. by apply Hw.
    + right. rewrite Hfr. done.
  - intros b [Hb Hout]. rewrite Hat, apply_writes_other; [by apply (im_at _ _ _ _ IM)|]. intros (w & Hk & Hwin)%list_elem_of_fmap. destruct (Hw w Hwin) as [Hk' _]. rewrite Hk' in Hk. injection Hk as ->. lia.
Qed.

(** ** main() *)

Lemma main_spec files : input_ok files → ((2 + length files) mod 32 ≠ 0)%nat →
  wp (mk_main files) (λ _ s, ∃ a X, image s a X files) mk_start.
Proof.
  intros Hin Hmod. pose proof (in_count _ Hin) as Hcnt. pose proof (in_space _ Hin) as Hspace. unfold mk_main. apply wp_bind, wp_modify, wp_bind.
  eapply wp_mono; [apply (zero_loop_spec (Z.to_nat FSSIZE) 0); [done|by intros k|done]|]. intros _ s0 (B & Hl & Hfi & Hfb).
  apply wp_bind, wsect_spec. destruct (start_minv s0 (λ _, new_dinode 0) B Hl Hfi Hfb) as [a0 I0].
  change (put_words zero_block 0 _) with (low_block 1). set (s1 := wrote_sect s0 1 (low_block 1)) in *. assert (Hfi1 : freeinode s1 = 1) by done.
  apply wp_bind. change T_DIR with (type_of 1). rewrite <- Hfi1 at 1. eapply wp_mono; [apply (ialloc_spec s1 a0 _ [] I0); rewrite Hfi1; done|].
  intros r s2 (-> & Hfi2 & a2 & X2 & I2). rewrite Hfi1. change ([] ++ [[]]) with ([[]] : list (list Z)) in I2. apply wp_bind, wp_panic_if; [done|].
  assert (Hle : ∀ c, (length c ≤ length (concat (entries_of [])))%nat → nmeta + total [c] ≤ FSSIZE).
  { intros c Hc. etrans; [|exact Hspace]. apply Z.add_le_mono_l. unfold contents_of. change (total [c]) with (size_cost c + 0).
    change (total (concat ?x :: ?l)) with (size_cost (concat x) + total l). pose proof (total_pos (fcontent <$> files)).
    pose proof (size_cost_mono c (concat (entries_of files))) as Hm. rewrite length_entries in Hm, Hc. simpl in Hc. specialize (Hm ltac:(unfold DE in *; lia)). lia. }
  apply wp_bind. eapply wp_mono; [apply (iappend_spec s2 a2 X2 [[]] 0 [] (dot_de 1 [46]) I2 eq_refl); [done|vm_compute; done|apply Hle; vm_compute; lia]|].
  intros _ s3 (a3 & X3 & I3 & _). apply wp_bind.
  eapply wp_mono; [apply (iappend_spec s3 a3 X3 _ 0 (dot_de 1 [46]) (dot_de 1 [46; 46]) I3 eq_refl); [done|vm_compute; done|apply Hle; vm_compute; lia]|].
  intros _ s4 (a4 & X4 & I4 & _). apply wp_bind. eapply wp_mono; [apply (files_loop_spec [] files s4 a4 X4 Hin I4)|].
  intros _ s5 (a5 & X5 & I5). by eapply finish_spec.
Qed.

(** ** Theorems *)

(** C9: mkfs makes a file system the kernel can boot from. For files that fit
    (their names have no slash, no file is longer than MAXFILE blocks, there are
    inodes and blocks enough) and whose number does not fill the last block of
    the root directory, main() completes. The kernel that boots from the image
    finds an empty log and a consistent tree of files: every file in the root
    directory under its name, cut to DIRSIZ bytes and without a leading
    underscore, with its bytes, however read() delivered them, and the default
    owner and mode; no other name; and all other inodes free. *)
Theorem mkfs_makes_file_system (files : list input) : input_ok files → ((2 + length files) mod 32 ≠ 0)%nat →
  wp (mk_main files) (λ _ s, sb_of (disk_at (mk_img s) (1, 1)) = mk_sb ∧
    wp (boot 1) (λ _ l, ∃ a X, log_view 1 2 29 l a false [] [] ∧ fs_tree a mk_sb (made (2 + Z.of_nat (length files))) X ∧
      (∀ q, dir_inum (fdata a (X ROOTINO)) q = lookup_name files q) ∧
      (∀ i f, files !! i = Some f → let x := X (2 + Z.of_nat i) in
         fdata a x = concat f.2 ∧ di_type x = T_FILE ∧ di_mode x = DEFAULTMODE ∧ di_uid x = DEFAULTUID ∧ di_gid x = DEFAULTGID) ∧
      (∀ i, 2 + Z.of_nat (length files) ≤ i < NINODES → di_type (inode_at a mk_sb i) = 0))
    (booting (mk_img s) true)) mk_start.
Proof.
  intros Hin Hmod. eapply wp_mono; [by apply main_spec|]. intros _ s (a & X & IM). split; [by eapply image_sb|].
  eapply wp_mono; [by eapply image_boot|]. intros _ l (a' & V & Ha). exists a', X. pose proof (im_tree _ _ _ _ IM) as HT.
  pose proof (in_count _ Hin) as Hcnt. pose proof (tree_home a a' mk_sb _ X HT Ha) as HT'.
  destruct (inv_home a a' mk_sb _ X (tr_inv _ _ _ _ HT) Ha) as [_ Hd].
  split; [done|]. split; [done|]. split; [|split].
  - intros q. rewrite (proj2 (Hd ROOTINO (tr_root _ _ _ _ HT))). apply (im_names _ _ _ _ IM).
  - intros i f Hf. cbv zeta. pose proof (lookup_lt_Some _ _ _ Hf). rewrite (proj2 (Hd (2 + Z.of_nat i) ltac:(unfold made; lia))).
    apply (im_files _ _ _ _ IM i f Hf).
  - intros i Hi. rewrite <- (im_free _ _ _ _ IM i Hi). unfold inode_at. pose proof (inode_sector i ltac:(lia)).
    rewrite Ha by (unfold home_block, FSSIZE; lia). done.
Qed.

(** With 30 files the entries of the root directory fill its block, and the
    rounding of its size in main() adds a block that does not exist: the size is
    1024 bytes, but only the first block is there. *)
Theorem mkfs_root_hole :
  wp (mk_main (replicate 30 ([102], []))) (λ _ s, let x := get_dinode (disk_at (mk_img s) (1, 32)) (dinode_off ROOTINO) in
    di_type x = T_DIR ∧ di_size x = 1024 ∧ di_addrs x = 59 :: replicate NDIRECT 0) mk_start.
Proof. vm_compute. done. Qed.

(** _cat in two pieces and a README. *)
Definition demo_files : list input := [([95; 99; 97; 116], [[1; 2]; [3]]); ([82], [replicate 600 7])].

Lemma demo_input : input_ok demo_files.
Proof.
  split; try (intros f [->|[->|Hf%elem_of_nil]%elem_of_cons]%elem_of_cons; [| |done]).
  - vm_compute. discriminate.
  - simpl. rewrite !elem_of_cons, !elem_of_nil. lia.
  - simpl. rewrite !elem_of_cons, !elem_of_nil. lia.
  - by repeat constructor.
  - by repeat constructor.
  - vm_compute. discriminate.
  - vm_compute. discriminate.
  - vm_compute. discriminate.
Qed.

Lemma mkfs_makes_file_system_witness :
  wp (mk_main demo_files) (λ _ s, wp (boot 1) (λ _ l, ∃ a X, dir_inum (fdata a (X 1)) [99; 97; 116] = Some 2 ∧ fdata a (X 2) = [1; 2; 3])
    (booting (mk_img s) true)) mk_start.
Proof.
  eapply wp_mono; [apply (mkfs_makes_file_system demo_files demo_input); done|]. intros _ s (_ & Hb). eapply wp_mono; [exact Hb|].
  intros _ l (a & X & _ & _ & Hn & Hf & _). exists a, X. split; [rewrite Hn; reflexivity|]. destruct (Hf 0%nat _ eq_refl) as [Hd _]. exact Hd.
Defined.
