(* ===== verification/Syscall.v ===== *)
(** * System call arguments and dispatch (syscall.c)

    The arguments are read from the memory of the calling process, below
    proc->sz. [argptr_in_bounds] is what the kernel relies on; its hypothesis
    that the size is not negative is needed. *)

From S2P Require Import Prelude Bytes Str.

(** The calling process as syscall.c sees it: its size, the memory mapped
    from address 0 on, and two registers of the trap frame. *)
Record user : Type := mkUser {
  u_sz : Z;
  u_mem : list Z;
  u_esp : Z;
  u_eax : Z;
}.
#[export] Instance user_eta : Eta user := λ u, mkUser (u_sz u) (u_mem u) (u_esp u) (u_eax u).

Abbreviation U := (M user).

(** The [n] bytes at a user address, and storing there. *)
Definition get_user (a : Z) (n : nat) : U (list Z) := λ u,
  if bool_decide (0 ≤ a ∧ (Z.to_nat a + n ≤ length (u_mem u))%nat) then Done (take n (drop (Z.to_nat a) (u_mem u))) u
  else Fault u.
Definition put_user (a : Z) (l : list Z) : U unit := λ u,
  if bool_decide (0 ≤ a ∧ (Z.to_nat a + length l ≤ length (u_mem u))%nat) then
    Done tt (u <| u_mem ::= λ m, splice m (Z.to_nat a) l |>)
  else Fault u.

(** fetchint(): None for -1. *)
Definition fetchint (addr : Z) : U (option Z) :=
  sz ← gets u_sz;
  if (sz <=? addr) || (sz <? u32 (addr + 4)) then mret None
  else
    b ← get_user addr 4;
    mret (Some (s32 (le_val b))).

(** The scan of fetchstr() over [n] bytes. *)
Fixpoint scan_str (n : nat) (m : list Z) : option (option (list Z)) :=
  match n, m with
  | O, _ => Some None
  | S _, [] => None
  | S n, c :: m => if c =? 0 then Some (Some []) else option_map (option_map (cons c)) (scan_str n m)
  end.

(** fetchstr(): the string, without its NUL. *)
Definition fetchstr (addr : Z) : U (option (list Z)) :=
  sz ← gets u_sz;
  if sz <=? addr then mret None
  else
    m ← gets u_mem;
    match scan_str (Z.to_nat (sz - addr)) (drop (Z.to_nat addr) m) with
    | Some r => mret r
    | None => fault
    end.

Definition argint (n : Z) : U (option Z) :=
  esp ← gets u_esp;
  fetchint (u32 (esp + 4 + 4 * n)).

(** argptr(); [size] is an int. *)
Definition argptr (n size : Z) : U (option Z) :=
  r ← argint n;
  match r with
  | None => mret None
  | Some i =>
    sz ← gets u_sz;
    if (sz <=? u32 i) || (sz <? u32 (u32 i + size)) then mret None
    else mret (Some (u32 i))
  end.

Definition argstr (n : Z) : U (option (list Z)) :=
  r ← argint n;
  match r with
  | None => mret None
  | Some addr => fetchstr (u32 addr)
  end.

(** ** Dispatch *)

Inductive sysname : Type :=
| SYS_fork | SYS_exit | SYS_wait | SYS_pipe | SYS_read | SYS_kill | SYS_exec | SYS_fstat | SYS_chdir | SYS_dup
| SYS_getpid | SYS_sbrk | SYS_sleep | SYS_uptime | SYS_open | SYS_write | SYS_mknod | SYS_unlink | SYS_link
| SYS_mkdir | SYS_close | SYS_halt | SYS_date | SYS_getuid | SYS_getgid | SYS_getppid | SYS_setuid | SYS_setgid
| SYS_getprocs | SYS_setpriority | SYS_chmod | SYS_chown | SYS_chgrp.

(** The table syscalls[], from number 0 on. *)
Definition syscalls : list (option sysname) :=
  None :: (Some <$> [SYS_fork; SYS_exit; SYS_wait; SYS_pipe; SYS_read; SYS_kill; SYS_exec; SYS_fstat; SYS_chdir; SYS_dup;
    SYS_getpid; SYS_sbrk; SYS_sleep; SYS_uptime; SYS_open; SYS_write; SYS_mknod; SYS_unlink; SYS_link; SYS_mkdir;
    SYS_close; SYS_halt; SYS_date; SYS_getuid; SYS_getgid; SYS_getppid; SYS_setuid; SYS_setgid; SYS_getprocs;
    SYS_setpriority; SYS_chmod; SYS_chown; SYS_chgrp]).

Section dispatch.
(** The state of the kernel, the user part of it, and the handlers. *)
Context {S : Type} (proj : S → user) (put : user → S → S) (run : sysname → M S Z).

Definition syscall : M S unit :=
  num ← gets (λ s, s32 (u_eax (proj s)));
  r ← match (if (0 <? num) && (num <? Z.of_nat (length syscalls)) then syscalls !! Z.to_nat num else None) with
      | Some (Some f) => run f
      | _ => mret (-1)
      end;
  modify (λ s, put ((proj s) <| u_eax := u32 r |>) s).
End dispatch.

(** ** What the checks guarantee *)

Definition user_ok (u : user) : Prop := 0 ≤ u_sz u < 2 ^ 31 ∧ u_sz u ≤ Z.of_nat (length (u_mem u)) ∧ byte_list (u_mem u).

Lemma fetchint_spec u addr (Q : option Z → user → Prop) : user_ok u → 0 ≤ addr < 2 ^ 32 →
  Q (if bool_decide (addr + 4 ≤ u_sz u) then Some (s32 (get_le 4 (u_mem u) (Z.to_nat addr))) else None) u →
  wp (fetchint addr) Q u.
Proof.
  intros (Hs & Hm & _) Ha HQ. unfold fetchint. apply wp_bind, wp_gets.
  destruct ((u_sz u <=? addr) || (u_sz u <? u32 (addr + 4))) eqn:Hc.
  - rewrite bool_decide_eq_false_2 in HQ; [by apply wp_ret|]. intros Hle. rewrite u32_small in Hc by lia. zbool; lia.
  - apply orb_false_iff in Hc as [H1%Z.leb_gt H2%Z.ltb_ge]. rewrite u32_small in H2 by lia.
    rewrite bool_decide_eq_true_2 in HQ by lia. apply wp_bind. unfold wp, get_user. rewrite bool_decide_eq_true_2 by lia.
    by apply wp_ret.
Qed.

(** The scan finds the string up to the first NUL of the window, or reports that
    the window has none; it never leaves a window that is mapped. *)
Lemma scan_str_spec n m : (n ≤ length m)%nat →
  scan_str n m = Some (if bool_decide (0 ∈ take n m) then Some (cstr (take n m)) else None).
Proof.
  revert m. induction n as [|n IH]; intros [|c m] Hn; simpl in *; try lia; [done|done|].
  destruct (Z.eqb_spec c 0) as [->|Hc].
  - rewrite bool_decide_eq_true_2 by set_solver. done.
  - rewrite IH by lia. simpl. destruct (decide (0 ∈ take n m)) as [Hi|Hi].
    + rewrite !bool_decide_eq_true_2 by set_solver. done.
    + rewrite !bool_decide_eq_false_2 by set_solver. done.
Qed.

(** The [n]th argument word on the user stack, where it is in the process. *)
Definition arg_word (u : user) (n : Z) : option Z :=
  let a := u32 (u_esp u + 4 + 4 * n) in
  if bool_decide (a + 4 ≤ u_sz u) then Some (s32 (get_le 4 (u_mem u) (Z.to_nat a))) else None.

Lemma argint_spec u n (Q : option Z → user → Prop) : user_ok u → Q (arg_word u n) u → wp (argint n) Q u.
Proof. intros Hu HQ. apply wp_bind, wp_gets, fetchint_spec; [done|apply u32_range|exact HQ]. Qed.

Lemma fetchstr_spec u addr (Q : option (list Z) → user → Prop) : user_ok u → 0 ≤ addr →
  Q (let w := take (Z.to_nat (u_sz u - addr)) (drop (Z.to_nat addr) (u_mem u)) in
     if bool_decide (0 ∈ w) then Some (cstr w) else None) u →
  wp (fetchstr addr) Q u.
Proof.
  intros (Hs & Hm & _) Ha HQ. cbv zeta in HQ. apply wp_bind, wp_gets. destruct (Z.leb_spec (u_sz u) addr) as [Hc|Hc].
  - replace (Z.to_nat (u_sz u - addr)) with O in HQ by lia. exact HQ.
  - apply wp_bind, wp_gets. rewrite scan_str_spec; [exact HQ|]. rewrite length_drop. lia.
Qed.

(** C21: The argument checks are exact. For a size that is not negative
    argptr() returns the pointer argument if and only if the argument word
    and all bytes of the object, and at least one byte, are below proc->sz,
    and -1 otherwise; the sum does not wrap around. *)
Theorem argptr_in_bounds u n size : user_ok u → 0 ≤ size < 2 ^ 31 →
  wp (argptr n size) (λ r u', u' = u ∧ ∀ p, r = Some p ↔
    ∃ i, arg_word u n = Some i ∧ p = u32 i ∧ p < u_sz u ∧ p + size ≤ u_sz u) u.
Proof.
  intros Hu Hsize. pose proof Hu as (Hs & _ & _). apply wp_bind, argint_spec; [done|].
  destruct (arg_word u n) as [i|]; [|apply wp_ret; naive_solver]. apply wp_bind, wp_gets.
  pose proof (u32_range i) as Hi. destruct (Z.leb_spec (u_sz u) (u32 i)) as [Hc|Hc]; cbn [orb].
  - apply wp_ret. split; [done|]. intros p. split; [done|]. intros (? & [= <-] & -> & ? & ?). lia.
  - rewrite (u32_small (u32 i + size)) by lia. destruct (Z.ltb_spec (u_sz u) (u32 i + size)) as [Hd|Hd]; apply wp_ret; (split; [done|]); intros p.
    + split; [done|]. intros (? & [= <-] & -> & ? & ?). lia.
    + split; [|naive_solver]. intros [= <-]. by exists i.
Qed.

(** A process of 32 bytes with the argument 20 on its stack at 0. *)
Definition user0 : user := mkUser 32 (replicate 4 0 ++ le_bytes 4 20 ++ replicate 24 7) 0 0.

Lemma user0_ok : user_ok user0.
Proof. split; [done|]. split; [done|]. unfold byte_list. repeat constructor; done. Qed.

Lemma argptr_in_bounds_witness : argptr 0 12 user0 = Done (Some 20) user0 ∧ argptr 0 13 user0 = Done None user0 ∧
  wp (argptr 0 12) (λ r u', u' = user0 ∧ ∀ p, r = Some p ↔
    ∃ i, arg_word user0 0 = Some i ∧ p = u32 i ∧ p < u_sz user0 ∧ p + 12 ≤ u_sz user0) user0.
Proof.
  split; [reflexivity|]. split; [reflexivity|]. apply (argptr_in_bounds user0 0 12 user0_ok). lia.
Defined.
