(* ===== verification/File.v ===== *)
(** * Open files and descriptors (file.c, pipealloc of pipe.c)

    [sys] is the state a system call of one process works on. The lock of the
    file table and those of the pipes protect short stretches without waiting,
    which are atomic here; a call that has to wait is [Blocked]. *)

From S2P Require Import Prelude Bytes Mem Spinlock Pipe Kalloc Bio BioView Log Tx Fs Syscall.

Definition NFILE : nat := 100.
Definition NOFILE : nat := 16.

Inductive ftype : Type := FD_NONE | FD_PIPE | FD_INODE.

(** struct file; [fl_pipe] is the page of the pipe, [fl_ip] the cache index. *)
Record file : Type := mkFile {
  fl_type : ftype; fl_ref : Z; fl_readable : bool; fl_writable : bool; fl_pipe : Z; fl_ip : nat; fl_off : Z;
}.
#[export] Instance file_eta : Eta file := λ f,
  mkFile (fl_type f) (fl_ref f) (fl_readable f) (fl_writable f) (fl_pipe f) (fl_ip f) (fl_off f).

(** The kernel as the calls of one process see it: the file system, the page
    allocator, ftable.file, the pipes by their page, proc->ofile, proc->cwd,
    the process's memory and registers, proc->killed, and the channels that
    were woken up, the latest first. *)
Record sys (T : Type) : Type := mkSys {
  y_fs : fs T; y_km : kmem; y_files : list file; y_pipes : gmap Z pipe;
  y_ofile : list (option nat); y_cwd : nat; y_user : user; y_killed : bool; y_wakes : list chan;
}.
Arguments mkSys {T}.
Arguments y_fs {T}.
Arguments y_km {T}.
Arguments y_files {T}.
Arguments y_pipes {T}.
Arguments y_ofile {T}.
Arguments y_cwd {T}.
Arguments y_user {T}.
Arguments y_killed {T}.
Arguments y_wakes {T}.
#[export] Instance sys_eta {T} : Eta (sys T) := λ s,
  mkSys (y_fs s) (y_km s) (y_files s) (y_pipes s) (y_ofile s) (y_cwd s) (y_user s) (y_killed s) (y_wakes s).

Section file.
Context {T : Type} `{!TxOps T} (kend : Z).
Context (dev_read : Z → option (nat → Z → M (fs T) (Z * list Z))) (dev_write : Z → option (nat → list Z → M (fs T) Z)).
Abbreviation Y := (M (sys T)).

Definition fsop {A} (m : M (fs T) A) : Y A := lift y_fs (λ x s, s <| y_fs := x |>) m.
Definition kmop {A} (m : M kmem A) : Y A := lift y_km (λ x s, s <| y_km := x |>) m.
Definition usop {A} (m : M user A) : Y A := lift y_user (λ x s, s <| y_user := x |>) m.
Definition op_begin : Y unit := fsop (ft tx_begin_op).
Definition op_end : Y unit := fsop (ft tx_end_op).

Definition rdf (f : nat) : Y file := λ s,
  match y_files s !! f with Some x => Done x s | None => Fault s end.
Definition wrf (f : nat) (g : file → file) : Y unit := λ s,
  match y_files s !! f with
  | Some x => Done tt (s <| y_files ::= <[f := g x]> |>)
  | None => Fault s
  end.
Definition rdp (a : Z) : Y pipe := λ s,
  match y_pipes s !! a with Some p => Done p s | None => Fault s end.
Definition wrp (a : Z) (p : pipe) : Y unit := modify (λ s, s <| y_pipes ::= <[a := p]> |>).

Definition pipe_chan (a : Z) (c : pchan) : chan := match c with NRead => ChPipeRead a | NWrite => ChPipeWrite a end.
Definition wake (a : Z) (l : list pchan) : Y unit :=
  modify (λ s, s <| y_wakes ::= λ w, reverse (pipe_chan a <$> l) ++ w |>).

(** ** file.c *)

(** The scan of filealloc() for an entry that is not in use. *)
Fixpoint free_file (l : list file) (i : nat) : option nat :=
  match l with
  | [] => None
  | f :: l => if fl_ref f =? 0 then Some i else free_file l (S i)
  end.

Definition filealloc : Y (option nat) :=
  l ← gets y_files;
  match free_file l 0 with
  | None => mret None
  | Some f => wrf f (λ x, x <| fl_ref := 1 |>);; mret (Some f)
  end.

Definition filedup (f : nat) : Y nat :=
  x ← rdf f;
  panic_if (fl_ref x <? 1) "filedup";;
  wrf f (λ x, x <| fl_ref ::= λ r, r + 1 |>);;
  mret f.

(** pipeclose() of pipe.c on the pipe in page [a]. *)
Definition close_pipe (a : Z) (writable : bool) : Y unit :=
  p ← rdp a;
  let '(last, p, w) := pipeclose writable p in
  wrp a p;;
  wake a w;;
  when last (
    modify (λ s, s <| y_pipes ::= delete a |>);;
    kmop (kfree kend a)).

Definition fileclose (f : nat) : Y unit :=
  ff ← rdf f;
  panic_if (fl_ref ff <? 1) "fileclose";;
  wrf f (λ x, x <| fl_ref ::= λ r, r - 1 |>);;
  if 0 <? fl_ref ff - 1 then mret tt
  else
    wrf f (λ x, x <| fl_ref := 0 |> <| fl_type := FD_NONE |>);;
    match fl_type ff with
    | FD_PIPE => close_pipe (fl_pipe ff) (fl_writable ff)
    | FD_INODE => op_begin;; fsop (iput (fl_ip ff));; op_end
    | FD_NONE => mret tt
    end.

(** The fields of struct stat at their offsets; the padding is not written. *)
Definition stat_fields (st : stat) : list (Z * list Z) :=
  [(0, le_bytes 2 (st_type st)); (4, le_bytes 4 (st_dev st)); (8, le_bytes 4 (st_ino st)); (12, le_bytes 2 (st_nlink st));
   (16, le_bytes 4 (st_size st)); (20, le_bytes 2 (st_uid st)); (22, le_bytes 2 (st_gid st)); (24, le_bytes 4 (st_mode st))].
Definition sizeof_stat : Z := 28.

Fixpoint put_fields (a : Z) (l : list (Z * list Z)) : Y unit :=
  match l with
  | [] => mret tt
  | (o, b) :: l => usop (put_user (a + o) b);; put_fields a l
  end.

Definition filestat (f : nat) (st : Z) : Y Z :=
  x ← rdf f;
  match fl_type x with
  | FD_INODE =>
    fsop (ilock (fl_ip x));;
    r ← fsop (stati (fl_ip x));
    put_fields st (stat_fields r);;
    fsop (iunlock (fl_ip x));;
    mret 0
  | _ => mret (-1)
  end.

(** How a section of piperead() or pipewrite() ends. *)
Definition pipe_end {A} (a : Z) (r : pres A) : Y Z :=
  match r with
  | PRet v => mret v
  | PSleep c _ => block (WaitChan (pipe_chan a c))
  end.

(** fileread() into the user address [addr]; readi() takes n as a uint. *)
Definition fileread (f : nat) (addr n : Z) : Y Z :=
  x ← rdf f;
  if negb (fl_readable x) then mret (-1)
  else
    match fl_type x with
    | FD_PIPE =>
      p ← rdp (fl_pipe x);
      killed ← gets y_killed;
      match piperead killed (Z.to_nat n) p with
      | None => fault
      | Some (r, bytes, p, w) =>
        wrp (fl_pipe x) p;;
        usop (put_user addr bytes);;
        wake (fl_pipe x) w;;
        pipe_end (fl_pipe x) r
      end
    | FD_INODE =>
      fsop (ilock (fl_ip x));;
      r ← fsop (readi dev_read (fl_ip x) (fl_off x) (u32 n));
      usop (put_user addr r.2);;
      when (0 <? r.1) (wrf f (λ x, x <| fl_off ::= λ o, u32 (o + r.1) |>));;
      fsop (iunlock (fl_ip x));;
      mret r.1
    | FD_NONE => panic "fileread"
    end.

(** max of filewrite(). *)
Definition write_max : Z := (LOGSIZE - 1 - 1 - 2) / 2 * 512.

(** The loop of filewrite() on an inode; the result is i. *)
Fixpoint filewrite_loop (fuel : nat) (f : nat) (addr n i : Z) : Y Z :=
  if i <? n then
    match fuel with
    | O => nofuel
    | S fuel =>
      let n1 := Z.min (n - i) write_max in
      op_begin;;
      x ← rdf f;
      fsop (ilock (fl_ip x));;
      src ← usop (get_user (u32 (addr + i)) (Z.to_nat n1));
      r ← fsop (writei dev_write (fl_ip x) src (fl_off x));
      when (0 <? r) (wrf f (λ x, x <| fl_off ::= λ o, u32 (o + r) |>));;
      fsop (iunlock (fl_ip x));;
      op_end;;
      if r <? 0 then mret i
      else
        panic_if (negb (r =? n1)) "short filewrite";;
        filewrite_loop fuel f addr n (i + r)
    end
  else mret i.

Definition filewrite (f : nat) (addr n : Z) : Y Z :=
  x ← rdf f;
  if negb (fl_writable x) then mret (-1)
  else
    match fl_type x with
    | FD_PIPE =>
      p ← rdp (fl_pipe x);
      killed ← gets y_killed;
      src ← usop (get_user addr (Z.to_nat n));
      let '(r, p, w) := pipewrite killed n src p in
      wrp (fl_pipe x) p;;
      wake (fl_pipe x) w;;
      pipe_end (fl_pipe x) r
    | FD_INODE =>
      i ← filewrite_loop (Z.to_nat (n / write_max + 1)) f addr n 0;
      mret (if i =? n then n else -1)
    | FD_NONE => panic "filewrite"
    end.

(** ** pipealloc() *)

(** Where data[] is in struct pipe: after the spin lock of 52 bytes. *)
Definition pipe_data_off : nat := 52.

Definition close_opt (f : option nat) : Y unit := match f with Some f => fileclose f | None => mret tt end.

Definition set_end (f : nat) (readable : bool) (p : Z) : Y unit :=
  wrf f (λ x, x <| fl_type := FD_PIPE |> <| fl_readable := readable |> <| fl_writable := negb readable |> <| fl_pipe := p |>).

Definition pipealloc : Y (option (nat * nat)) :=
  f0 ← filealloc;
  f1 ← match f0 with Some _ => filealloc | None => mret None end;
  match f0, f1 with
  | Some g0, Some g1 =>
    p ← kmop kalloc;
    if p =? 0 then close_opt f0;; close_opt f1;; mret None
    else
      m ← gets (λ s, km_mem (y_km s) !! p);
      match m with
      | None => fault
      | Some page =>
        wrp p (pipe_init (take (Z.to_nat PIPESIZE) (drop pipe_data_off page)));;
        set_end g0 true p;;
        set_end g1 false p;;
        mret (Some (g0, g1))
      end
  | _, _ => close_opt f0;; close_opt f1;; mret None
  end.
End file.
