(* ===== verification/FileInv.v ===== *)
(** * The invariant of the file table and the pipes

    [fd_inv] relates the descriptors, the reference counts and types of the
    file table ([ftable]), the ends of the pipes ([ends]) and the pages they are
    in ([pool]). It does not mention the file system, so it is kept whatever the
    file system does. [wlp] is the corresponding judgement: what holds if the
    code returns, and what holds where it waits. *)

From S2P Require Import Prelude Bytes Mem Spinlock Pipe Kalloc Bio BioView Log Tx Fs Syscall File.

(** ** Liberal preconditions *)

Definition wlp {S A} (m : M S A) (Q : A → S → Prop) (B : S → Prop) (s : S) : Prop :=
  match m s with Done a s' => Q a s' | Blocked _ s' => B s' | _ => True end.

Section wlp_rules.
Context {S : Type} (B : S → Prop).

Lemma wlp_bind {A A'} (m : M S A) (f : A → M S A') Q s :
  wlp m (λ a s', wlp (f a) Q B s') B s → wlp (m ≫= f) Q B s.
Proof. unfold wlp, mbind, M_bind. by destruct (m s). Qed.

Lemma wlp_mono {A} (m : M S A) (Q Q' : A → S → Prop) s :
  wlp m Q B s → (∀ a s', Q a s' → Q' a s') → wlp m Q' B s.
Proof. unfold wlp. destruct (m s); auto. Qed.

Lemma wlp_wp {A} (m : M S A) (Q : A → S → Prop) s : wp m Q s → wlp m Q B s.
Proof. unfold wlp, wp. by destruct (m s). Qed.

Lemma wlp_when (c : bool) (m : M S unit) Q s :
  (c = true → wlp m Q B s) → (c = false → Q tt s) → wlp (when c m) Q B s.
Proof. destruct c; intros H1 H2; [by apply H1|by apply H2]. Qed.

Lemma wlp_panic_if (c : bool) msg Q s : (c = false → Q tt s) → wlp (panic_if c msg) Q B s.
Proof. destruct c; [done|]. intros H. by apply H. Qed.
End wlp_rules.

(** ** Reference counts *)

(** How often [f] occurs in a list of references. *)
Definition occ (f : nat) (l : list nat) : nat := length (filter (.= f) l).

#[export] Instance occ_proper f : Proper ((≡ₚ) ==> (=)) (occ f).
Proof. intros l l' H. unfold occ. by rewrite H. Qed.

Lemma occ_cons f g l : occ f (g :: l) = ((if decide (g = f) then 1 else 0) + occ f l)%nat.
Proof. unfold occ. rewrite filter_cons. by destruct (decide (g = f)). Qed.

Lemma occ_app f l l' : occ f (l ++ l') = (occ f l + occ f l')%nat.
Proof. unfold occ. by rewrite filter_app, length_app. Qed.

Lemma occ_in f l : f ∈ l ↔ (0 < occ f l)%nat.
Proof.
  induction l as [|g l IH]; [split; [by intros ?%elem_of_nil|unfold occ; simpl; lia]|].
  rewrite elem_of_cons, IH, occ_cons. case_decide; [split; [lia|by left]|]. split; [intros [?|?]; [congruence|lia]|right; lia].
Qed.

(** The end of a pipe that a file stands for is open. *)
Definition end_open (writable : bool) (p : pipe) : bool := if writable then pi_writeopen p else pi_readopen p.

Definition is_end (files : list file) (a : Z) (w : bool) (f : nat) : Prop :=
  ∃ x, files !! f = Some x ∧ fl_type x = FD_PIPE ∧ fl_pipe x = a ∧ fl_writable x = w.

(** [U]: all references to open files, [N]: files just allocated, without a
    type. *)
Record ftable (N U : list nat) (files : list file) : Prop := {
  tb_len : length files = NFILE;
  tb_in f : f ∈ U → (f < NFILE)%nat;
  tb_ref f x : files !! f = Some x → fl_ref x = Z.of_nat (occ f U);
  tb_new f : f ∈ N → occ f U = 1%nat;
  tb_type f x : files !! f = Some x → fl_type x = FD_NONE ↔ fl_ref x = 0 ∨ f ∈ N;
  tb_side f x : files !! f = Some x → fl_type x = FD_PIPE → fl_readable x = negb (fl_writable x);
}.
Arguments tb_len {_ _ _}.
Arguments tb_in {_ _ _}.
Arguments tb_ref {_ _ _}.
Arguments tb_new {_ _ _}.
Arguments tb_type {_ _ _}.
Arguments tb_side {_ _ _}.

(** Every open end of a pipe is one entry of the table, and the other way
    round; a pipe has an open end. *)
Record ends (files : list file) (pipes : gmap Z pipe) : Prop := {
  en_pipe a w f : is_end files a w f → ∃ p, pipes !! a = Some p ∧ end_open w p = true;
  en_one a w f g : is_end files a w f → is_end files a w g → f = g;
  en_open a p w : pipes !! a = Some p → end_open w p = true → ∃ f, is_end files a w f;
  en_live a p : pipes !! a = Some p → pi_readopen p = true ∨ pi_writeopen p = true;
  en_stream a p : pipes !! a = Some p → ∃ q, refines p q;
}.
Arguments en_pipe {_ _}.
Arguments en_one {_ _}.
Arguments en_open {_ _}.
Arguments en_live {_ _}.
Arguments en_stream {_ _}.

(** ** The table *)

Lemma ftable_perm N U U' fl : U ≡ₚ U' → ftable N U fl → ftable N U' fl.
Proof.
  intros P [H1 H2 H3 H4 H5 H6]. split; try done.
  - intros f Hf. apply H2. by rewrite P.
  - intros f x Hx. rewrite <- P. by apply H3.
  - intros f Hf. rewrite <- P. by apply H4.
Qed.

(** Replacing an entry: what has to be shown of it alone. *)
Lemma ftable_set N U N' U' fl f x y : ftable N U fl → fl !! f = Some x →
  (∀ g, g ≠ f → occ g U' = occ g U ∧ (g ∈ N' ↔ g ∈ N)) → (f ∈ N' → occ f U' = 1%nat) →
  fl_ref y = Z.of_nat (occ f U') → (fl_type y = FD_NONE ↔ fl_ref y = 0 ∨ f ∈ N') →
  (fl_type y = FD_PIPE → fl_readable y = negb (fl_writable y)) → ftable N' U' (<[f := y]> fl).
Proof.
  intros K Hx Hg Hn Hr Ht Hs. pose proof (lookup_lt_Some _ _ _ Hx) as Hlt. pose proof (tb_len K) as Hlen.
  assert (Hc : ∀ g z, <[f := y]> fl !! g = Some z → (g = f ∧ z = y) ∨ (g ≠ f ∧ fl !! g = Some z)).
  { intros g z. destruct (decide (g = f)) as [->|]; [|rewrite list_lookup_insert_ne by done; by right].
    rewrite list_lookup_insert_eq by done. intros [= <-]. by left. }
  split.
  - by rewrite length_insert.
  - intros g Hgu. destruct (decide (g = f)) as [->|Hne]; [lia|]. apply (tb_in K).
    apply occ_in. apply occ_in in Hgu. by rewrite <- (proj1 (Hg g Hne)).
  - intros g z [[-> ->]|[Hne Hz]]%Hc; [done|]. rewrite (proj1 (Hg g Hne)). by apply (tb_ref K).
  - intros g HN. destruct (decide (g = f)) as [->|Hne]; [by apply Hn|]. destruct (Hg g Hne) as [-> HgN].
    apply (tb_new K). by apply HgN.
  - intros g z [[-> ->]|[Hne Hz]]%Hc; [done|]. rewrite (proj2 (Hg g Hne)). by apply (tb_type K).
  - intros g z [[-> ->]|[Hne Hz]]%Hc; [done|]. by eapply (tb_side K).
Qed.

Lemma free_file_spec fl i f : free_file fl i = Some f → ∃ x, (i ≤ f)%nat ∧ fl !! (f - i)%nat = Some x ∧ fl_ref x = 0.
Proof.
  revert i. induction fl as [|x fl IH]; intros i; simpl; [done|]. destruct (Z.eqb_spec (fl_ref x) 0) as [Hx|Hx].
  - intros [= ->]. exists x. by rewrite Nat.sub_diag.
  - intros (y & Hi & Hy & Hr)%IH. exists y. split; [lia|]. split; [|done].
    by replace (f - i)%nat with (S (f - S i)) by lia.
Qed.

Lemma ftable_alloc N U fl f x : ftable N U fl → fl !! f = Some x → fl_ref x = 0 →
  ftable (f :: N) (f :: U) (<[f := x <| fl_ref := 1 |>]> fl).
Proof.
  intros K Hx H0. pose proof (tb_ref K f x Hx) as Hr. pose proof (proj2 (tb_type K f x Hx) (or_introl H0)) as Ht.
  eapply (ftable_set N U); [done|done| | | | |].
  - intros g Hg. rewrite occ_cons, decide_False by done. split; [done|]. rewrite elem_of_cons. naive_solver.
  - intros _. rewrite occ_cons, decide_True by done. lia.
  - simpl. rewrite occ_cons, decide_True by done. lia.
  - simpl. split; [|done]. intros _. right. apply elem_of_cons. by left.
  - simpl. by rewrite Ht.
Qed.

Lemma ftable_dup N U fl f x : ftable N U fl → fl !! f = Some x → f ∈ U → f ∉ N →
  ftable N (f :: U) (<[f := x <| fl_ref ::= λ r, r + 1 |>]> fl).
Proof.
  intros K Hx HU HN. pose proof (tb_ref K f x Hx) as Hr. apply occ_in in HU.
  eapply (ftable_set N U); [done|done| | | | |].
  - intros g Hg. by rewrite occ_cons, decide_False by done.
  - done.
  - simpl. rewrite occ_cons, decide_True by done. lia.
  - simpl. rewrite (tb_type K f x Hx). split; (intros [?|?]; [lia|done]).
  - exact (tb_side K f x Hx).
Qed.

(** A reference is given up, and others are left. *)
Lemma ftable_drop N U fl f x : ftable N (f :: U) fl → fl !! f = Some x → 1 < fl_ref x →
  ftable N U (<[f := x <| fl_ref ::= λ r, r - 1 |>]> fl).
Proof.
  intros K Hx H1. pose proof (tb_ref K f x Hx) as Hr. rewrite occ_cons, decide_True in Hr by done.
  assert (HfN : f ∉ N). { intros HN%(tb_new K). rewrite occ_cons, decide_True in HN by done. lia. }
  eapply (ftable_set N (f :: U)); [done|done| | | | |].
  - intros g Hg. by rewrite occ_cons, decide_False by done.
  - done.
  - simpl. lia.
  - simpl. rewrite (tb_type K f x Hx). split; (intros [?|?]; [lia|done]).
  - exact (tb_side K f x Hx).
Qed.

Definition closed (x : file) : file := x <| fl_ref := 0 |> <| fl_type := FD_NONE |>.

(** The last reference is given up. *)
Lemma ftable_last N U fl f x : ftable N (f :: U) fl → fl !! f = Some x → fl_ref x = 1 →
  ftable (without f N) U (<[f := closed x]> fl).
Proof.
  intros K Hx H1. pose proof (tb_ref K f x Hx) as Hr. rewrite occ_cons, decide_True in Hr by done.
  eapply (ftable_set N (f :: U)); [done|done| | | | |].
  - intros g Hg. rewrite occ_cons, decide_False by done. split; [done|]. rewrite elem_of_without. naive_solver.
  - by intros [? _]%elem_of_without.
  - simpl. lia.
  - simpl. naive_solver.
  - done.
Qed.

(** A new file gets its type. *)
Lemma ftable_typed N U fl f x y : ftable N U fl → fl !! f = Some x → f ∈ N → fl_type y ≠ FD_NONE → fl_ref y = fl_ref x →
  (fl_type y = FD_PIPE → fl_readable y = negb (fl_writable y)) → ftable (without f N) U (<[f := y]> fl).
Proof.
  intros K Hx HN Hy Hr Hs. pose proof (tb_new K f HN) as H1. pose proof (tb_ref K f x Hx) as Hr1.
  eapply (ftable_set N U); [done|done| | | | |].
  - intros g Hg. split; [done|]. rewrite elem_of_without. naive_solver.
  - by intros [? _]%elem_of_without.
  - by rewrite Hr.
  - rewrite elem_of_without. split; [done|]. intros [?|[? _]]; [lia|done].
  - done.
Qed.

Lemma ftable_off N U fl f x o : ftable N U fl → fl !! f = Some x → ftable N U (<[f := x <| fl_off := o |>]> fl).
Proof.
  intros K Hx. eapply (ftable_set N U); [done|done| | | | |].
  - done.
  - apply (tb_new K).
  - exact (tb_ref K f x Hx).
  - exact (tb_type K f x Hx).
  - exact (tb_side K f x Hx).
Qed.

(** ** The ends of pipes *)

Lemma ends_ext fl fl' ps : (∀ a w g, is_end fl' a w g ↔ is_end fl a w g) → ends fl ps → ends fl' ps.
Proof.
  intros He [H1 H2 H3 H4 H5]. split; [| | |done|done].
  - intros a w f. rewrite He. apply H1.
  - intros a w f g. rewrite !He. apply H2.
  - intros a p w Hp Ho. destruct (H3 a p w Hp Ho) as [f Hf]. exists f. by rewrite He.
Qed.

Lemma ends_other fl f x y ps : fl !! f = Some x → fl_type x ≠ FD_PIPE → fl_type y ≠ FD_PIPE →
  ends fl ps → ends (<[f := y]> fl) ps.
Proof.
  intros Hx Hxt Hyt. apply ends_ext. intros a w g. unfold is_end. destruct (decide (g = f)) as [->|Hg].
  - rewrite list_lookup_insert_eq by (by eapply lookup_lt_Some). rewrite Hx. by split; intros (z & [= <-] & ? & ?).
  - by rewrite list_lookup_insert_ne by done.
Qed.

Lemma ends_same fl f x y ps : fl !! f = Some x →
  fl_type y = fl_type x → fl_pipe y = fl_pipe x → fl_writable y = fl_writable x → ends fl ps → ends (<[f := y]> fl) ps.
Proof.
  intros Hx H1 H2 H3. apply ends_ext. intros a w g. unfold is_end. destruct (decide (g = f)) as [->|Hg].
  - rewrite list_lookup_insert_eq by (by eapply lookup_lt_Some). rewrite Hx.
    split; intros (z & [= <-] & ?); eexists; (split; [done|]); by rewrite ?H1, ?H2, ?H3 in *.
  - by rewrite list_lookup_insert_ne by done.
Qed.

(** A section of a reader or writer changes the stream only. *)
Lemma ends_stream fl ps a p p' q : ends fl ps → ps !! a = Some p →
  pi_readopen p' = pi_readopen p → pi_writeopen p' = pi_writeopen p → refines p' q → ends fl (<[a := p']> ps).
Proof.
  intros K Hp Hr Hw Hq.
  assert (Ho : ∀ w, end_open w p' = end_open w p) by (by intros []).
  assert (Hc : ∀ b z, <[a := p']> ps !! b = Some z → ∃ z', ps !! b = Some z' ∧ (∀ w, end_open w z = end_open w z') ∧ ∃ q, refines z q).
  { intros b z. destruct (decide (b = a)) as [->|Hne].
    - rewrite lookup_insert_eq. intros [= <-]. eauto.
    - rewrite lookup_insert_ne by done. intros Hz. pose proof (en_stream K b z Hz). eauto. }
  split; [|apply K| | |].
  - intros b w f He. destruct (en_pipe K b w f He) as (z & Hz & Hoz). destruct (decide (b = a)) as [->|Hne].
    + exists p'. simplify_eq. by rewrite lookup_insert_eq, Ho.
    + exists z. by rewrite lookup_insert_ne by done.
  - intros b z w (z' & Hz & Hoz & _)%Hc. rewrite Hoz. by apply (en_open K).
  - intros b z (z' & Hz & Hoz & _)%Hc. pose proof (Hoz true) as H1. pose proof (Hoz false) as H2. simpl in *.
    rewrite H1, H2. by eapply (en_live K).
  - by intros b z (z' & _ & _ & ?)%Hc.
Qed.

Lemma is_end_closed fl f x a w g : fl !! f = Some x → is_end (<[f := closed x]> fl) a w g ↔ g ≠ f ∧ is_end fl a w g.
Proof.
  intros Hx. unfold is_end. destruct (decide (g = f)) as [->|Hg].
  - rewrite list_lookup_insert_eq by (by eapply lookup_lt_Some). split; [by intros (z & [= <-] & ? & ?)|naive_solver].
  - rewrite list_lookup_insert_ne by done. naive_solver.
Qed.

(** What pipeclose() does. *)
Lemma pipeclose_spec wr p : let '(last, p', _) := pipeclose wr p in
  (∀ w, end_open w p' = end_open w p && negb (bool_decide (w = wr))) ∧
  (last = true ↔ end_open (negb wr) p = false) ∧ ∀ q, refines p q → refines p' q.
Proof.
  unfold pipeclose. destruct wr; simpl.
  - split; [intros []; simpl; by rewrite ?andb_true_r, ?andb_false_r|]. rewrite andb_true_r, negb_true_iff. split; [done|]. by intros q [].
  - split; [intros []; simpl; by rewrite ?andb_true_r, ?andb_false_r|]. rewrite negb_true_iff. split; [done|]. by intros q [].
Qed.

(** The last reference to an end of a pipe is given up: the end is closed, and
    the pipe is gone with its second end. *)
Lemma ends_close fl f x ps p last p1 w :
  ends fl ps → fl !! f = Some x → fl_type x = FD_PIPE → ps !! fl_pipe x = Some p →
  pipeclose (fl_writable x) p = (last, p1, w) →
  ends (<[f := closed x]> fl) (if last then delete (fl_pipe x) ps else <[fl_pipe x := p1]> ps).
Proof.
  intros K Hx Ht Hp Hc. pose proof (pipeclose_spec (fl_writable x) p) as Hs. rewrite Hc in Hs. destruct Hs as (Ho & Hl & Hq).
  assert (Hf : is_end fl (fl_pipe x) (fl_writable x) f) by (by exists x).
  set (ps' := if last then _ else _).
  assert (Hlook : ∀ b z, ps' !! b = Some z → (b = fl_pipe x ∧ z = p1 ∧ last = false) ∨ (b ≠ fl_pipe x ∧ ps !! b = Some z)).
  { intros b z. unfold ps'. destruct (decide (b = fl_pipe x)) as [->|Hb]; destruct last;
      rewrite ?lookup_delete_eq, ?lookup_insert_eq, ?lookup_delete_ne, ?lookup_insert_ne by done; naive_solver. }
  split.
  - intros b w' g [Hg He]%(is_end_closed _ _ _ _ _ _ Hx). destruct (en_pipe K b w' g He) as (z & Hz & Hoz).
    destruct (decide (b = fl_pipe x)) as [->|Hb].
    + simplify_eq. assert (Hw' : w' ≠ fl_writable x) by (intros ->; apply Hg; by eapply (en_one K)).
      exists p1. rewrite Ho, Hoz, bool_decide_eq_false_2 by done. split; [|done]. unfold ps'. destruct last; [|apply lookup_insert_eq].
      assert (Hn : end_open (negb (fl_writable x)) p = false) by (by apply Hl).
      assert (w' = negb (fl_writable x)) as -> by (by destruct w', (fl_writable x)). congruence.
    + exists z. split; [|done]. unfold ps'. destruct last; [by rewrite lookup_delete_ne|by rewrite lookup_insert_ne].
  - intros b w' g h [_ Hg]%(is_end_closed _ _ _ _ _ _ Hx) [_ Hh]%(is_end_closed _ _ _ _ _ _ Hx). by eapply (en_one K).
  - intros b z w' [(-> & -> & _)|[Hb Hz]]%Hlook Hoz.
    + rewrite Ho in Hoz. apply andb_true_iff in Hoz as [Hoz Hw']. destruct (en_open K _ p w' Hp Hoz) as [g Hg]. exists g.
      apply (is_end_closed _ _ _ _ _ _ Hx). split; [|done]. intros ->. destruct Hg as (z & Hz & _ & _ & Hzw). simplify_eq.
      by rewrite bool_decide_eq_true_2 in Hw'.
    + destruct (en_open K b z w' Hz Hoz) as [g Hg]. exists g. apply (is_end_closed _ _ _ _ _ _ Hx). split; [|done].
      intros ->. destruct Hg as (y & Hy & _ & Hyb & _). simplify_eq.
  - intros b z [(-> & -> & Hlast)|[Hb Hz]]%Hlook; [|by eapply (en_live K)].
    assert (H : end_open (negb (fl_writable x)) p1 = true).
    { rewrite Ho, bool_decide_eq_false_2 by (by destruct (fl_writable x)). rewrite andb_true_r.
      destruct (end_open (negb (fl_writable x)) p); [done|]. rewrite (proj2 Hl) in Hlast; done. }
    destruct (fl_writable x); simpl in H; by auto.
  - intros b z [(-> & -> & _)|[Hb Hz]]%Hlook; [|by eapply (en_stream K)].
    destruct (en_stream K _ p Hp) as [q Hpq]. eauto.
Qed.

Lemma is_end_set fl f x y a w g : fl !! f = Some x → fl_type x ≠ FD_PIPE → fl_type y = FD_PIPE →
  is_end (<[f := y]> fl) a w g ↔ (g = f ∧ a = fl_pipe y ∧ w = fl_writable y) ∨ is_end fl a w g.
Proof.
  intros Hx Ht Hy. unfold is_end. destruct (decide (g = f)) as [->|Hg].
  - rewrite list_lookup_insert_eq by (by eapply lookup_lt_Some). split; [intros (z & [= <-] & ? & ? & ?); by left|].
    intros [(_ & -> & ->)|(z & ? & ? & _)]; [eauto|simplify_eq].
  - rewrite list_lookup_insert_ne by done. naive_solver.
Qed.

(** pipealloc(): two new files become the ends of a new pipe. *)
Definition pipe_file (readable : bool) (a : Z) (x : file) : file :=
  x <| fl_type := FD_PIPE |> <| fl_readable := readable |> <| fl_writable := negb readable |> <| fl_pipe := a |>.

Lemma ends_new fl ps f0 f1 x0 x1 a p q : ends fl ps → f0 ≠ f1 → fl !! f0 = Some x0 → fl !! f1 = Some x1 →
  fl_type x0 ≠ FD_PIPE → fl_type x1 ≠ FD_PIPE → ps !! a = None →
  pi_readopen p = true → pi_writeopen p = true → refines p q →
  ends (<[f1 := pipe_file false a x1]> (<[f0 := pipe_file true a x0]> fl)) (<[a := p]> ps).
Proof.
  intros K Hne H0 H1 T0 T1 Ha Hr Hw Hq.
  assert (He : ∀ b w g, is_end (<[f1 := pipe_file false a x1]> (<[f0 := pipe_file true a x0]> fl)) b w g ↔
    (b = a ∧ g = if w then f1 else f0) ∨ is_end fl b w g).
  { intros b w g. rewrite (is_end_set _ f1 x1) by (try done; by rewrite list_lookup_insert_ne).
    rewrite (is_end_set fl f0 x0) by done. simpl. destruct w; naive_solver. }
  assert (Hold : ∀ w g, ¬ is_end fl a w g) by (intros w g (z & Hz & _)%(en_pipe K); congruence).
  split.
  - intros b w g [[-> _]|Hg]%He; [exists p; rewrite lookup_insert_eq; by destruct w|].
    destruct (en_pipe K b w g Hg) as (z & Hz & ?). exists z. by rewrite lookup_insert_ne by naive_solver.
  - intros b w g h [[-> ->]|Hg]%He [[Hb ->]|Hh]%He; simplify_eq; try done; [by apply Hold in Hh|by apply Hold in Hg|by eapply (en_one K)].
  - intros b z w Hz Ho. destruct (decide (b = a)) as [->|Hb]; [eexists; apply He; by left|].
    rewrite lookup_insert_ne in Hz by done. destruct (en_open K b z w Hz Ho) as [g Hg]. exists g. apply He. by right.
  - intros b z Hz. destruct (decide (b = a)) as [->|Hb]; [rewrite lookup_insert_eq in Hz; naive_solver|].
    rewrite lookup_insert_ne in Hz by done. by eapply (en_live K).
  - intros b z Hz. destruct (decide (b = a)) as [->|Hb]; [rewrite lookup_insert_eq in Hz; naive_solver|].
    rewrite lookup_insert_ne in Hz by done. by eapply (en_stream K).
Qed.

(** ** The state of a system call *)

Section sys.
Context {T : Type} `{!TxOps T} (kend : Z) (all : list Z) (Hall : NoDup all) (held : list lockid) (en : bool).
Implicit Types s : sys T.

(** The pages of the pipes and the pages [A] held by others are not free. *)
Definition pool (A : list Z) (ps : gmap Z pipe) (km : kmem) : Prop := kinv kend all held en (km, (map_to_list ps).*1 ++ A).

(** The descriptors of the process, as references. *)
Definition fds (l : list (option nat)) : list nat := omap id l.

(** [R]: the references of other processes, [N]: files without a type yet. *)
Record fd_inv (A : list Z) (N R : list nat) s : Prop := {
  fi_len : length (y_ofile s) = NOFILE;
  fi_table : ftable N (fds (y_ofile s) ++ R) (y_files s);
  fi_ends : ends (y_files s) (y_pipes s);
  fi_pool : pool A (y_pipes s) (y_km s);
}.

(** The same for any collection [U] of references. *)
Definition files_ok (A : list Z) (N U : list nat) s : Prop :=
  ftable N U (y_files s) ∧ ends (y_files s) (y_pipes s) ∧ pool A (y_pipes s) (y_km s).

Lemma fd_inv_files A N R s : fd_inv A N R s ↔ length (y_ofile s) = NOFILE ∧ files_ok A N (fds (y_ofile s) ++ R) s.
Proof. split; [intros [? ? ? ?]; by split_and!|intros (? & ? & ? & ?); by split]. Qed.

(** Nothing of the invariant depends on the rest of the state. *)
Lemma fd_inv_frame A N R s s' : fd_inv A N R s → y_ofile s' = y_ofile s → y_files s' = y_files s →
  y_pipes s' = y_pipes s → y_km s' = y_km s → fd_inv A N R s'.
Proof. intros [H1 H2 H3 H4] E1 E2 E3 E4. split; by rewrite ?E1, ?E2, ?E3, ?E4. Qed.

Lemma pool_stream A ps km a p p' : ps !! a = Some p → pool A ps km → pool A (<[a := p']> ps) km.
Proof.
  intros Hp (l & H1 & H2 & H3 & H4).
  assert (P : (map_to_list (<[a:=p']> ps)).*1 ≡ₚ (map_to_list ps).*1).
  { rewrite <- (insert_delete_id ps a p Hp) at 2. rewrite <- (insert_delete_eq ps a p').
    rewrite !map_to_list_insert by apply lookup_delete_eq. done. }
  exists l. simpl in *. rewrite P. by split_and!.
Qed.

(** kfree() of the page of a pipe that is gone. *)
Lemma pool_free A ps km a p : ps !! a = Some p → pool A ps km → wp (kfree kend a) (λ _ km', pool A (delete a ps) km') km.
Proof.
  intros Hp (l & H1 & H2 & H3 & H4). simpl in *.
  assert (P : (map_to_list ps).*1 ++ A ≡ₚ a :: (map_to_list (delete a ps)).*1 ++ A).
  { by rewrite <- (map_to_list_delete ps a p Hp). }
  rewrite P in H3, H4. apply Forall_cons in H4 as [Hpa H4].
  assert (Hn : NoDup (l ++ a :: (map_to_list (delete a ps)).*1 ++ A)) by (by rewrite H3).
  apply NoDup_app in Hn as (_ & Hd & _). eapply kfree_spec; [done..| |].
  - intros Hl. apply (Hd a Hl). by left.
  - intros k' Hf (Hr & _ & _) _. exists (a :: l). simpl. split_and!; [done|done| |done]. rewrite <- H3. by rewrite <- Permutation_middle.
Qed.

(** kalloc() for a pipe: a page that is no pipe yet. *)
Lemma pool_alloc A ps km : pool A ps km → wp kalloc (λ r km',
  (r = 0 ∧ pool A ps km') ∨
  (r ≠ 0 ∧ ps !! r = None ∧ (∃ pg, km_mem km' !! r = Some pg ∧ length pg = Z.to_nat PGSIZE) ∧ ∀ p, pool A (<[r := p]> ps) km')) km.
Proof.
  intros (l & H1 & H2 & H3 & H4). simpl in *. eapply kalloc_spec; [done..|]. intros k' Hf (Hr & _ & _) Hm.
  destruct l as [|v l]; simpl.
  - left. split; [done|]. by exists [].
  - right. destruct H1 as [(_ & Hv & pg & Hpg & Hlen & _) _]. pose proof Hv as [Hv0 _].
    assert (Hn : NoDup ((v :: l) ++ (map_to_list ps).*1 ++ A)) by (by rewrite H3).
    apply NoDup_app in Hn as (_ & Hd & _).
    assert (Hnone : ps !! v = None).
    { destruct (ps !! v) as [p|] eqn:Hp; [|done]. exfalso. apply (Hd v); [by left|]. apply elem_of_app. left.
      apply list_elem_of_fmap. exists (v, p). split; [done|]. by apply elem_of_map_to_list. }
    split; [lia|]. split; [done|]. split; [exists pg; by rewrite Hm|]. intros p. exists l. simpl. split; [done|]. split; [done|].
    assert (P : (map_to_list (<[v:=p]> ps)).*1 ++ A ≡ₚ v :: (map_to_list ps).*1 ++ A) by (by rewrite map_to_list_insert).
    rewrite P. split; [|by constructor]. rewrite <- H3. symmetry. apply (Permutation_middle l).
Qed.
End sys.
