(* ===== verification/Sysfile.v ===== *)
(** * System calls on files (sysfile.c)

    One definition per call of sysfile.c, apart from sys_exec (Exec.v). *)

From S2P Require Import Prelude Bytes Mem Spinlock Pipe Kalloc Bio BioView Log Tx Fs Syscall File.

Definition O_RDONLY : Z := 0.
Definition O_WRONLY : Z := 1.
Definition O_RDWR : Z := 2.
Definition O_CREATE : Z := 512.

(** The strings of sysfile.c, with their NUL. *)
Definition dot : list Z := [46; 0].
Definition dotdot : list Z := [46; 46; 0].

Section sysfile.
Context {T : Type} `{!TxOps T} (kend : Z).
Context (dev_read : Z → option (nat → Z → M (fs T) (Z * list Z))) (dev_write : Z → option (nat → list Z → M (fs T) Z)).
Abbreviation Y := (M (sys T)).
Abbreviation F := (M (fs T)).

(** char name[DIRSIZ]: skipelem() sets it before it is used. *)
Definition name0 : list Z := replicate DIRSIZ 0.

(** argfd(): the descriptor and its file. *)
Definition argfd (n : Z) : Y (option (Z * nat)) :=
  r ← usop (argint n);
  match r with
  | None => mret None
  | Some fd =>
    if (fd <? 0) || (Z.of_nat NOFILE <=? fd) then mret None
    else
      l ← gets y_ofile;
      match l !! Z.to_nat fd with
      | None => fault
      | Some None => mret None
      | Some (Some f) => mret (Some (fd, f))
      end
  end.

(** The scan of fdalloc() over proc->ofile. *)
Fixpoint free_fd (l : list (option nat)) (i : nat) : option nat :=
  match l with
  | [] => None
  | None :: _ => Some i
  | Some _ :: l => free_fd l (S i)
  end.

(** proc->ofile[fd] = f *)
Definition set_fd (fd : nat) (f : option nat) : Y unit := modify (λ s, s <| y_ofile ::= <[fd := f]> |>).

Definition fdalloc (f : nat) : Y (option nat) :=
  l ← gets y_ofile;
  match free_fd l 0 with
  | None => mret None
  | Some fd => set_fd fd (Some f);; mret (Some fd)
  end.

Definition sys_dup : Y Z :=
  a ← argfd 0;
  match a with
  | None => mret (-1)
  | Some (_, f) =>
    fd ← fdalloc f;
    match fd with
    | None => mret (-1)
    | Some fd => _ ← filedup f; mret (Z.of_nat fd)
    end
  end.

(** The arguments of read() and write(). *)
Definition arg_rw : Y (option (nat * Z * Z)) :=
  a ← argfd 0;
  match a with
  | None => mret None
  | Some (_, f) =>
    n ← usop (argint 2);
    match n with
    | None => mret None
    | Some n =>
      p ← usop (argptr 1 n);
      match p with
      | None => mret None
      | Some p => mret (Some (f, p, n))
      end
    end
  end.

Definition sys_read : Y Z :=
  a ← arg_rw;
  match a with
  | None => mret (-1)
  | Some (f, p, n) => fileread dev_read f p n
  end.

Definition sys_write : Y Z :=
  a ← arg_rw;
  match a with
  | None => mret (-1)
  | Some (f, p, n) => filewrite dev_write f p n
  end.

Definition sys_close : Y Z :=
  a ← argfd 0;
  match a with
  | None => mret (-1)
  | Some (fd, f) =>
    set_fd (Z.to_nat fd) None;;
    fileclose kend f;;
    mret 0
  end.

Definition sys_fstat : Y Z :=
  a ← argfd 0;
  match a with
  | None => mret (-1)
  | Some (_, f) =>
    st ← usop (argptr 1 sizeof_stat);
    match st with
    | None => mret (-1)
    | Some st => filestat f st
    end
  end.

(** ip->nlink += d, a short. *)
Definition add_link (ip : nat) (d : Z) : F unit :=
  wri ip (λ x, x <| i_d ::= λ y, y <| di_nlink ::= λ n, s16 (n + d) |> |>).

(** From the label bad of sys_link(). *)
Definition link_bad (ip : nat) : F Z :=
  ilock ip;;
  add_link ip (-1);;
  iupdate ip;;
  iunlockput ip;;
  ft tx_end_op;;
  mret (-1).

(** The body of sys_link() after its arguments. *)
Definition link_paths (cwd : nat) (old new : list Z) : F Z :=
  ft tx_begin_op;;
  r ← namei dev_read cwd old;
  match r with
  | None => ft tx_end_op;; mret (-1)
  | Some ip =>
    ilock ip;;
    x ← rdi ip;
    if di_type (i_d x) =? T_DIR then iunlockput ip;; ft tx_end_op;; mret (-1)
    else
      add_link ip 1;;
      iupdate ip;;
      iunlock ip;;
      r ← nameiparent dev_read cwd new name0;
      match r with
      | (None, _) => link_bad ip
      | (Some dp, name) =>
        ilock dp;;
        d ← rdi dp;
        x ← rdi ip;
        bad ← (if negb (i_dev d =? i_dev x) then mret true
               else r ← dirlink dev_read dev_write dp name (i_inum x); mret (r <? 0));
        if (bad : bool) then iunlockput dp;; link_bad ip
        else
          iunlockput dp;;
          iput ip;;
          ft tx_end_op;;
          mret 0
      end
  end.

(** Two path arguments, the first at position 0. *)
Definition sys_link : Y Z :=
  a ← usop (argstr 0);
  match a with
  | None => mret (-1)
  | Some old =>
    b ← usop (argstr 1);
    match b with
    | None => mret (-1)
    | Some new => cwd ← gets y_cwd; fsop (link_paths cwd old new)
    end
  end.

(** The loop of isdirempty(). *)
Fixpoint dirempty_loop (fuel : nat) (dp : nat) (off : Z) : F bool :=
  x ← rdi dp;
  if off <? di_size (i_d x) then
    match fuel with
    | O => nofuel
    | S fuel =>
      de ← read_dirent dev_read dp off "isdirempty: readi";
      if negb (de_inum de =? 0) then mret false else dirempty_loop fuel dp (off + DIRENT)
    end
  else mret true.

Definition isdirempty (dp : nat) : F bool :=
  x ← rdi dp;
  dirempty_loop (entries (di_size (i_d x))) dp (2 * DIRENT).

(** namecmp(name, s) == 0 *)
Definition is_name (name s : list Z) : F bool :=
  match namecmp name s with Some c => mret (c =? 0) | None => fault end.

Definition unlink_bad (dp : nat) : F Z := iunlockput dp;; ft tx_end_op;; mret (-1).

(** The body of sys_unlink() after its argument. *)
Definition unlink_path (cwd : nat) (path : list Z) : F Z :=
  ft tx_begin_op;;
  r ← nameiparent dev_read cwd path name0;
  match r with
  | (None, _) => ft tx_end_op;; mret (-1)
  | (Some dp, name) =>
    ilock dp;;
    d1 ← is_name name dot;
    d2 ← is_name name dotdot;
    if (d1 : bool) || d2 then unlink_bad dp
    else
      r ← dirlookup dev_read dp name;
      match r with
      | None => unlink_bad dp
      | Some (ip, off) =>
        ilock ip;;
        x ← rdi ip;
        panic_if (di_nlink (i_d x) <? 1) "unlink: nlink < 1";;
        full ← (if di_type (i_d x) =? T_DIR then e ← isdirempty ip; mret (negb e) else mret false);
        if (full : bool) then iunlockput ip;; unlink_bad dp
        else
          r ← writei dev_write dp (replicate (Z.to_nat DIRENT) 0) off;
          panic_if (negb (r =? DIRENT)) "unlink: writei";;
          when (di_type (i_d x) =? T_DIR) (add_link dp (-1);; iupdate dp);;
          iunlockput dp;;
          add_link ip (-1);;
          iupdate ip;;
          iunlockput ip;;
          ft tx_end_op;;
          mret 0
      end
  end.

Definition sys_unlink : Y Z :=
  a ← usop (argstr 0);
  match a with
  | None => mret (-1)
  | Some path => cwd ← gets y_cwd; fsop (unlink_path cwd path)
  end.

(** create(); the inode is returned locked. *)
Definition create (cwd : nat) (path : list Z) (type major minor : Z) : F (option nat) :=
  r ← nameiparent dev_read cwd path name0;
  match r with
  | (None, _) => mret None
  | (Some dp, name) =>
    ilock dp;;
    r ← dirlookup dev_read dp name;
    match r with
    | Some (ip, _) =>
      iunlockput dp;;
      ilock ip;;
      x ← rdi ip;
      if (type =? T_FILE) && (di_type (i_d x) =? T_FILE) then mret (Some ip)
      else iunlockput ip;; mret None
    | None =>
      d ← rdi dp;
      ip ← ialloc (i_dev d) type;
      ilock ip;;
      wri ip (λ x, x <| i_d ::= λ y, y <| di_major := major |> <| di_minor := minor |> <| di_nlink := 1 |> |>);;
      iupdate ip;;
      x ← rdi ip;
      when (type =? T_DIR) (
        add_link dp 1;;
        iupdate dp;;
        r1 ← dirlink dev_read dev_write ip dot (i_inum x);
        panic_if (r1 <? 0) "create dots";;
        r2 ← dirlink dev_read dev_write ip dotdot (i_inum d);
        panic_if (r2 <? 0) "create dots");;
      r ← dirlink dev_read dev_write dp name (i_inum x);
      panic_if (r <? 0) "create: dirlink";;
      iunlockput dp;;
      mret (Some ip)
    end
  end.

(** The inode sys_open() opens, locked, or None after end_op(). *)
Definition open_path (cwd : nat) (path : list Z) (omode : Z) : F (option nat) :=
  if negb (Z.land omode O_CREATE =? 0) then
    r ← create cwd path T_FILE 0 0;
    match r with
    | None => ft tx_end_op;; mret None
    | Some ip => mret (Some ip)
    end
  else
    r ← namei dev_read cwd path;
    match r with
    | None => ft tx_end_op;; mret None
    | Some ip =>
      ilock ip;;
      x ← rdi ip;
      if (di_type (i_d x) =? T_DIR) && negb (omode =? O_RDONLY) then iunlockput ip;; ft tx_end_op;; mret None
      else mret (Some ip)
    end.

(** sys_open() from filealloc() on. *)
Definition open_file (ip : nat) (omode : Z) : Y Z :=
  f ← filealloc;
  fd ← match f with Some f => fdalloc f | None => mret None end;
  match f, fd with
  | Some f, Some fd =>
    fsop (iunlock ip);;
    op_end;;
    wrf f (λ x, x <| fl_type := FD_INODE |> <| fl_ip := ip |> <| fl_off := 0 |>
      <| fl_readable := Z.land omode O_WRONLY =? 0 |>
      <| fl_writable := negb (Z.land omode O_WRONLY =? 0) || negb (Z.land omode O_RDWR =? 0) |>);;
    mret (Z.of_nat fd)
  | _, _ =>
    close_opt kend f;;
    fsop (iunlockput ip);;
    op_end;;
    mret (-1)
  end.

Definition sys_open : Y Z :=
  a ← usop (argstr 0);
  match a with
  | None => mret (-1)
  | Some path =>
    m ← usop (argint 1);
    match m with
    | None => mret (-1)
    | Some omode =>
      op_begin;;
      cwd ← gets y_cwd;
      r ← fsop (open_path cwd path omode);
      match r with
      | None => mret (-1)
      | Some ip => open_file ip omode
      end
    end
  end.

(** What sys_mkdir() and sys_mknod() do with the result of create(). *)
Definition created (r : option nat) : Y Z :=
  match r with
  | None => op_end;; mret (-1)
  | Some ip => fsop (iunlockput ip);; op_end;; mret 0
  end.

Definition sys_mkdir : Y Z :=
  op_begin;;
  a ← usop (argstr 0);
  cwd ← gets y_cwd;
  r ← match a with None => mret None | Some path => fsop (create cwd path T_DIR 0 0) end;
  created r.

(** create() takes major and minor as shorts. *)
Definition sys_mknod : Y Z :=
  op_begin;;
  a ← usop (argstr 0);
  cwd ← gets y_cwd;
  r ← match a with
      | None => mret None
      | Some path =>
        major ← usop (argint 1);
        match major with
        | None => mret None
        | Some major =>
          minor ← usop (argint 2);
          match minor with
          | None => mret None
          | Some minor => fsop (create cwd path T_DEV (s16 major) (s16 minor))
          end
        end
      end;
  created r.

Definition sys_chdir : Y Z :=
  op_begin;;
  a ← usop (argstr 0);
  cwd ← gets y_cwd;
  r ← match a with None => mret None | Some path => fsop (namei dev_read cwd path) end;
  match r with
  | None => op_end;; mret (-1)
  | Some ip =>
    fsop (ilock ip);;
    x ← fsop (rdi ip);
    if negb (di_type (i_d x) =? T_DIR) then fsop (iunlockput ip);; op_end;; mret (-1)
    else
      fsop (iunlock ip);;
      fsop (iput cwd);;
      op_end;;
      modify (λ s, s <| y_cwd := ip |>);;
      mret 0
  end.

Definition sys_pipe : Y Z :=
  a ← usop (argptr 0 8);
  match a with
  | None => mret (-1)
  | Some p =>
    r ← pipealloc kend;
    match r with
    | None => mret (-1)
    | Some (rf, wf) =>
      fd0 ← fdalloc rf;
      fd1 ← match fd0 with Some _ => fdalloc wf | None => mret None end;
      match fd0, fd1 with
      | Some fd0, Some fd1 =>
        usop (put_user p (le_bytes 4 (Z.of_nat fd0)));;
        usop (put_user (p + 4) (le_bytes 4 (Z.of_nat fd1)));;
        mret 0
      | _, _ =>
        match fd0 with Some fd0 => set_fd fd0 None | None => mret tt end;;
        fileclose kend rf;;
        fileclose kend wf;;
        mret (-1)
      end
    end
  end.

(** sys_chmod(), sys_chown() and sys_chgrp(): the number first, then the path. *)
Definition arg_attr (call : nat → list Z → Z → F Z) : Y Z :=
  m ← usop (argint 1);
  match m with
  | None => mret (-1)
  | Some m =>
    a ← usop (argstr 0);
    match a with
    | None => mret (-1)
    | Some p => cwd ← gets y_cwd; fsop (call cwd p m)
    end
  end.
Definition sys_chmod : Y Z := arg_attr (chmod dev_read).
Definition sys_chown : Y Z := arg_attr (chown dev_read).
Definition sys_chgrp : Y Z := arg_attr (chgrp dev_read).
End sysfile.
