(* ===== verification/FileSpec.v ===== *)
(** * What the operations on open files do to the invariant

    One lemma per operation of file.c, pipealloc() and the descriptor routines
    of sysfile.c, in terms of [fd_inv]. *)

From S2P Require Import Prelude Bytes Mem Spinlock Pipe Kalloc Bio BioView Log Tx Fs Syscall File FileInv Sysfile.

(** [wlp_step] takes one monadic step. *)
Ltac wlp_step :=
  lazymatch goal with
  | |- wlp (mbind _ _) _ _ _ => apply wlp_bind
  | |- wlp (_ ≫= _) _ _ _ => apply wlp_bind
  | |- wlp (mret _) _ _ _ => apply wlp_wp, wp_ret
  | |- wlp (gets _) _ _ _ => apply wlp_wp, wp_gets
  | |- wlp (modify _) _ _ _ => apply wlp_wp, wp_modify
  | |- wlp (when _ _) _ _ _ => apply wlp_when; intros ?
  | |- wlp (panic_if _ _) _ _ _ => apply wlp_panic_if; intros ?
  | |- wlp (panic _) _ _ _ => exact I
  | |- wlp fault _ _ _ => exact I
  | |- wlp nofuel _ _ _ => exact I
  | |- wlp (let _ := _ in _) _ _ _ => cbv zeta
  end; cbv beta match.
Ltac wlp_steps := repeat wlp_step.

Section spec.
Context {T : Type} `{!TxOps T} (kend : Z) (all : list Z) (Hall : NoDup all) (held : list lockid) (en : bool).
Implicit Types s : sys T.
Abbreviation inv := (fd_inv kend all held en).
Abbreviation any := (λ _ : sys T, True).

(** ** Parts of the state *)

Lemma wlp_fsop {X} (m : M (fs T) X) (Q : X → sys T → Prop) B s :
  (∀ r x, Q r (s <| y_fs := x |>)) → (∀ x, B (s <| y_fs := x |>)) → wlp (fsop m) Q B s.
Proof. intros HQ HB. unfold wlp, fsop, lift. destruct (m (y_fs s)); auto. Qed.

Lemma wlp_usop {X} (m : M user X) (Q : X → sys T → Prop) B s :
  (∀ r x, Q r (s <| y_user := x |>)) → (∀ x, B (s <| y_user := x |>)) → wlp (usop m) Q B s.
Proof. intros HQ HB. unfold wlp, usop, lift. destruct (m (y_user s)); auto. Qed.

Lemma wlp_rdf f (Q : file → sys T → Prop) B s : (∀ x, y_files s !! f = Some x → Q x s) → wlp (rdf f) Q B s.
Proof. intros HQ. unfold wlp, rdf. destruct (y_files s !! f); [by apply HQ|done]. Qed.

Lemma wlp_wrf f g (Q : unit → sys T → Prop) B s :
  (∀ x, y_files s !! f = Some x → Q tt (s <| y_files ::= <[f := g x]> |>)) → wlp (wrf f g) Q B s.
Proof. intros HQ. unfold wlp, wrf. destruct (y_files s !! f); [by apply HQ|done]. Qed.

Lemma wlp_rdp a (Q : pipe → sys T → Prop) B s : (∀ p, y_pipes s !! a = Some p → Q p s) → wlp (rdp a) Q B s.
Proof. intros HQ. unfold wlp, rdp. destruct (y_pipes s !! a); [by apply HQ|done]. Qed.

(** ** Allocating, sharing and closing *)

Lemma filealloc_inv A N R s : inv A N R s →
  wlp filealloc (λ r s', match r with
    | None => s' = s
    | Some f => inv A (f :: N) (f :: R) s' ∧ y_ofile s' = y_ofile s
    end) any s.
Proof.
  intros [I1 I2 I3 I4]. unfold filealloc. wlp_steps. destruct (free_file (y_files s) 0) as [f|] eqn:Hf; [|by wlp_steps].
  apply free_file_spec in Hf as (x & _ & Hx & H0). rewrite Nat.sub_0_r in Hx. wlp_step. apply wlp_wrf. intros x' Hx'. simplify_eq.
  wlp_steps. split; [|done]. split; simpl; [done| | |done].
  - eapply ftable_perm; [|by apply (ftable_alloc N)]. apply Permutation_middle.
  - apply (ends_same _ _ x); done.
Qed.

Lemma filedup_inv A N R s f : inv A N R s → f ∈ fds (y_ofile s) ++ R → f ∉ N →
  wlp (filedup f) (λ _ s', inv A N (f :: R) s' ∧ y_ofile s' = y_ofile s) any s.
Proof.
  intros [I1 I2 I3 I4] Hf HN. unfold filedup. wlp_step. apply wlp_rdf. intros x Hx. wlp_steps. apply wlp_wrf. intros x' Hx'. simplify_eq.
  wlp_steps. split; [|done]. split; simpl; [done| | |done].
  - eapply ftable_perm; [|by apply (ftable_dup N)]. apply Permutation_middle.
  - apply (ends_same _ _ x); done.
Qed.

(** close_pipe() after the file was closed. *)
Lemma close_pipe_ok A N U s f x : files_ok kend all held en A N (f :: U) s →
  y_files s !! f = Some x → fl_ref x = 1 → fl_type x = FD_PIPE →
  wlp (close_pipe kend (fl_pipe x) (fl_writable x)) (λ _ s', files_ok kend all held en A (without f N) U s' ∧ y_ofile s' = y_ofile s) any
    (s <| y_files ::= <[f := closed x]> |>).
Proof.
  intros (I2 & I3 & I4) Hx H1 Ht. unfold close_pipe. wlp_step. apply wlp_rdp. intros p Hp. simpl in Hp.
  destruct (pipeclose (fl_writable x) p) as [[last p'] w] eqn:Hc. unfold wrp, wake.
  pose proof (ends_close _ _ _ _ _ _ _ _ I3 Hx Ht Hp Hc) as He. pose proof (ftable_last _ _ _ _ _ I2 Hx H1) as Htab.
  destruct last; wlp_steps; simplify_eq.
  - unfold kmop. apply wlp_wp, wp_lift. simpl.
    eapply wp_mono; [exact (pool_free kend all Hall held en A (y_pipes s) (y_km s) (fl_pipe x) p Hp I4)|]. intros [] km' Hk. split; [|done].
    split_and!; simpl; rewrite ?delete_insert_eq; done.
  - split; [|done]. split_and!; [done..|]. simpl. by eapply pool_stream.
Qed.

Lemma fileclose_ok A N U s f : files_ok kend all held en A N (f :: U) s →
  wlp (fileclose kend f) (λ _ s', files_ok kend all held en A (without f N) U s' ∧ y_ofile s' = y_ofile s) any s.
Proof.
  intros I. pose proof I as (I2 & I3 & I4). unfold fileclose. wlp_step. apply wlp_rdf. intros x Hx. wlp_steps.
  apply wlp_wrf. intros x' Hx'. simplify_eq. assert (Hr : 1 ≤ fl_ref x) by zlia.
  destruct (Z.ltb_spec 0 (fl_ref x - 1)) as [Hl|Hl].
  - wlp_steps. assert (HN : f ∉ N).
    { intros HN%(tb_new I2). pose proof (tb_ref I2 f x Hx). lia. }
    rewrite without_not_in by done. split; [|done]. split_and!; simpl; [apply ftable_drop; [done|done|lia]| |done].
    by apply (ends_same _ _ x).
  - assert (H1 : fl_ref x = 1) by lia. wlp_step. apply wlp_wrf. simpl. intros x1 Hx1.
    rewrite list_lookup_insert_eq in Hx1 by (by eapply lookup_lt_Some). injection Hx1 as <-.
    replace (_ <| y_files ::= _ |>) with (s <| y_files ::= <[f := closed x]> |>)
      by (unfold field_upd; simpl; by rewrite list_insert_insert_eq).
    assert (Hother : fl_type x ≠ FD_PIPE → ∀ t, files_ok kend all held en A (without f N) U (s <| y_files ::= <[f := closed x]> |> <| y_fs := t |>)).
    { intros Ht t. split_and!; simpl; [by apply ftable_last| |done]. by apply (ends_other _ _ x). }
    destruct (fl_type x) eqn:Ht.
    + wlp_steps. split; [|done]. apply (Hother ltac:(done) (y_fs s)).
    + by apply close_pipe_ok.
    + unfold op_begin, op_end. wlp_step. apply wlp_fsop; [|done]. intros _ t1. wlp_step. apply wlp_fsop; [|done]. intros _ t2.
      apply wlp_fsop; [|done]. intros _ t3. split; [|done]. apply (Hother ltac:(done) t3).
Qed.

Lemma files_perm A N U U' s : U ≡ₚ U' → files_ok kend all held en A N U s → files_ok kend all held en A N U' s.
Proof. intros P (H1 & H2 & H3). split_and!; [by eapply ftable_perm|done|done]. Qed.

Lemma fileclose_inv A N R s f : inv A N (f :: R) s →
  wlp (fileclose kend f) (λ _ s', inv A (without f N) R s' ∧ y_ofile s' = y_ofile s) any s.
Proof.
  rewrite fd_inv_files. intros [Hl Hf]. eapply wlp_mono; [apply (fileclose_ok A N (fds (y_ofile s) ++ R))|].
  - eapply files_perm; [|exact Hf]. symmetry. apply Permutation_middle.
  - intros _ s' [H E]. split; [|done]. apply fd_inv_files. by rewrite E.
Qed.

(** ** Descriptors *)

Lemma fds_insert l i f : l !! i = Some None → fds (<[i := Some f]> l) ≡ₚ f :: fds l.
Proof.
  intros (l1 & l2 & -> & ->)%list_elem_of_split_length. unfold fds. rewrite insert_app_r_alt, Nat.sub_diag by lia. simpl.
  rewrite !omap_app. simpl. symmetry. apply Permutation_middle.
Qed.

Lemma fds_remove l i f : l !! i = Some (Some f) → fds l ≡ₚ f :: fds (<[i := None]> l).
Proof.
  intros (l1 & l2 & -> & ->)%list_elem_of_split_length. unfold fds. rewrite insert_app_r_alt, Nat.sub_diag by lia. simpl.
  rewrite !omap_app. simpl. symmetry. apply Permutation_middle.
Qed.

Lemma inv_set_fd A N R s fd f : inv A N (f :: R) s → y_ofile s !! fd = Some None →
  inv A N R (s <| y_ofile ::= <[fd := Some f]> |>).
Proof.
  intros [I1 I2 I3 I4] Hfd. split; simpl; [by rewrite length_insert| |done|done].
  eapply ftable_perm; [|done]. rewrite fds_insert by done. symmetry. apply (Permutation_middle (fds (y_ofile s))).
Qed.

Lemma inv_clear_fd A N R s fd f : inv A N R s → y_ofile s !! fd = Some (Some f) →
  inv A N (f :: R) (s <| y_ofile ::= <[fd := None]> |>).
Proof.
  intros [I1 I2 I3 I4] Hfd. split; simpl; [by rewrite length_insert| |done|done].
  eapply ftable_perm; [|done]. rewrite (fds_remove _ _ _ Hfd). apply (Permutation_middle (fds _)).
Qed.

Lemma free_fd_spec l i fd : free_fd l i = Some fd → (i ≤ fd)%nat ∧ l !! (fd - i)%nat = Some None.
Proof.
  revert i. induction l as [|[f|] l IH]; intros i; simpl; [done| |].
  - intros [H1 H2]%IH. split; [lia|]. by replace (fd - i)%nat with (S (fd - S i)) by lia.
  - intros [= ->]. by rewrite Nat.sub_diag.
Qed.

Lemma fdalloc_spec f s :
  wlp (fdalloc f) (λ r s', match r with
    | None => s' = s
    | Some fd => y_ofile s !! fd = Some None ∧ s' = s <| y_ofile ::= <[fd := Some f]> |>
    end) any s.
Proof.
  unfold fdalloc, set_fd. wlp_steps. destruct (free_fd (y_ofile s) 0) as [fd|] eqn:Hf; wlp_steps; [|done].
  apply free_fd_spec in Hf as [_ Hf]. rewrite Nat.sub_0_r in Hf. done.
Qed.

Lemma argfd_inv A N R s n B : inv A N R s → (∀ u, B (s <| y_user := u |>)) →
  wlp (argfd n) (λ r s', inv A N R s' ∧ (∃ u, s' = s <| y_user := u |>) ∧ ∀ fd f, r = Some (fd, f) → y_ofile s' !! Z.to_nat fd = Some (Some f)) B s.
Proof.
  intros I HB. unfold argfd. wlp_step. apply wlp_usop; [|done]. intros r u. set (s1 := s <| y_user := u |>).
  assert (I' : inv A N R s1 ∧ ∃ u, s1 = s <| y_user := u |>) by (split; [by eapply fd_inv_frame|by exists u]).
  destruct r as [fd|]; [|wlp_steps; naive_solver]. destruct (_ || _); [wlp_steps; naive_solver|].
  wlp_steps. destruct (y_ofile s1 !! Z.to_nat fd) as [[f|]|] eqn:Hf; wlp_steps; naive_solver.
Qed.

(** ** Pipes *)

Lemma ftype_new A N R s f x : inv A N R s → f ∈ N → y_files s !! f = Some x → fl_type x = FD_NONE.
Proof. intros I HN Hx. apply (tb_type (fi_table _ _ _ _ _ _ _ _ I) f x Hx). by right. Qed.

Lemma kmop_kalloc_inv A N R s : inv A N R s →
  wlp (kmop kalloc) (λ r s', y_files s' = y_files s ∧ y_ofile s' = y_ofile s ∧ y_pipes s' = y_pipes s ∧
    ((r = 0 ∧ inv A N R s') ∨ (r ≠ 0 ∧ y_pipes s !! r = None ∧
      (∃ pg, km_mem (y_km s') !! r = Some pg ∧ length pg = Z.to_nat PGSIZE) ∧ ∀ p, pool kend all held en A (<[r := p]> (y_pipes s)) (y_km s')))) any s.
Proof.
  intros [I1 I2 I3 I4]. unfold kmop. apply wlp_wp, wp_lift. eapply wp_mono; [exact (pool_alloc kend all Hall held en A (y_pipes s) (y_km s) I4)|].
  intros r km' H. split_and!; [done..|]. destruct H as [[? ?]|?]; [left; split; [done|by split]|by right].
Qed.

Lemma pipe_init_refines pg : length pg = Z.to_nat PGSIZE →
  refines (pipe_init (take (Z.to_nat PIPESIZE) (drop pipe_data_off pg))) [].
Proof.
  intros H. split; simpl; [|lia|lia|done|done]. rewrite length_take, length_drop, H. unfold PIPESIZE, pipe_data_off, PGSIZE. lia.
Qed.

Lemma without_both (f0 f1 : nat) : f0 ≠ f1 → without f1 (without f0 [f1; f0]) = [].
Proof.
  intros Hne. rewrite (without_cons_ne f0 f1) by done. rewrite (without_cons_eq f0) by apply not_elem_of_nil.
  apply without_cons_eq, not_elem_of_nil.
Qed.

Lemma ftable_new_pipe U fl f0 f1 x0 x1 a : ftable [f1; f0] U fl → f0 ≠ f1 → fl !! f0 = Some x0 → fl !! f1 = Some x1 →
  ftable [] U (<[f1 := pipe_file false a x1]> (<[f0 := pipe_file true a x0]> fl)).
Proof.
  intros K Hne H0 H1. rewrite <- (without_both f0 f1 Hne). apply (ftable_typed _ _ _ _ x1).
  - apply (ftable_typed _ _ _ _ x0); try done. set_solver.
  - by rewrite list_lookup_insert_ne.
  - apply elem_of_without. set_solver.
  - done.
  - done.
  - done.
Qed.

(** Both files are new when there is no page. *)
Lemma pipealloc_nopage A R s f0 f1 : inv A [f1; f0] (f1 :: f0 :: R) s → f0 ≠ f1 →
  wlp (close_opt kend (Some f0);; close_opt kend (Some f1);; mret (None : option (nat * nat)))
    (λ r s', y_ofile s' = y_ofile s ∧ r = None ∧ inv A [] R s') any s.
Proof.
  intros [K1 K2 K3 K4] Hne. assert (J : inv A [f1; f0] (f0 :: f1 :: R) s).
  { split; [done| |done|done]. eapply ftable_perm; [|exact K2]. apply Permutation_app; [done|apply perm_swap]. }
  unfold close_opt. wlp_step. eapply wlp_mono; [by apply fileclose_inv|]. intros _ s4 [J4 E4]. wlp_step.
  eapply wlp_mono; [by apply fileclose_inv|]. intros _ s5 [J5 E5]. wlp_steps. rewrite without_both in J5 by done.
  split_and!; [congruence|done|done].
Qed.

Lemma pipealloc_inv A R s : inv A [] R s →
  wlp (pipealloc kend) (λ r s', y_ofile s' = y_ofile s ∧ match r with
    | None => inv A [] R s'
    | Some (f0, f1) => inv A [] (f0 :: f1 :: R) s'
    end) any s.
Proof.
  intros I. unfold pipealloc. wlp_step. eapply wlp_mono; [by apply filealloc_inv|]. intros f0 s1 H0. wlp_step.
  destruct f0 as [f0|]; [|subst s1; wlp_steps; simpl; by wlp_steps].
  destruct H0 as [J1 E1]. eapply wlp_mono; [by apply filealloc_inv|]. intros f1 s2 H1.
  assert (Hnd : ∀ f1 s2, f1 ∈ [f0] → inv A [f1; f0] (f1 :: f0 :: R) s2 → False).
  { intros g s' ->%list_elem_of_singleton J. pose proof (tb_new (fi_table _ _ _ _ _ _ _ _ J) f0 ltac:(by left)) as Hn.
    rewrite occ_app, !occ_cons, !decide_True in Hn by done. lia. }
  destruct f1 as [f1|]; cycle 1.
  { subst s2. simpl. wlp_step. eapply wlp_mono; [by apply fileclose_inv|]. intros _ s3 [J3 E3]. wlp_steps. split; [congruence|].
    by rewrite without_cons_eq in J3 by set_solver. }
  destruct H1 as [J2 E2]. assert (Hne : f0 ≠ f1) by (intros ->; eapply (Hnd f1 s2); [by left|done]).
  wlp_step. eapply wlp_mono; [by apply kmop_kalloc_inv|]. intros p s3 (F3 & E3 & P3 & [[-> J3]|(Hp & Hnone & (pg & Hpg & Hlen) & Hpool)]).
  - simpl. eapply wlp_mono; [by apply (pipealloc_nopage A R)|]. intros r s4 (E4 & -> & J4). split; [congruence|done].
  - rewrite (proj2 (Z.eqb_neq p 0)) by done. wlp_steps. rewrite Hpg. unfold wrp, set_end. wlp_steps. apply wlp_wrf. simpl. intros x0 Hx0.
    wlp_step. apply wlp_wrf. simpl. intros x1 Hx1. rewrite list_lookup_insert_ne in Hx1 by done. wlp_steps. split; [simpl; congruence|].
    rewrite F3 in Hx0, Hx1. pose proof (ftype_new A [f1; f0] (f1 :: f0 :: R) s2 f0 x0 J2 ltac:(set_solver) Hx0) as T0. pose proof (ftype_new A [f1; f0] (f1 :: f0 :: R) s2 f1 x1 J2 ltac:(set_solver) Hx1) as T1.
    destruct J2 as [K1 K2 K3 K4]. split; simpl; rewrite ?F3, ?P3.
    + congruence.
    + rewrite E3. apply (ftable_perm _ _ _ _ ltac:(apply Permutation_app; [reflexivity|apply perm_swap])). by apply ftable_new_pipe.
    + eapply ends_new; try done; [by rewrite T0|by rewrite T1|by apply pipe_init_refines].
    + apply Hpool.
Qed.

(** ** Reading and writing *)

Context (dev_read : Z → option (nat → Z → M (fs T) (Z * list Z))) (dev_write : Z → option (nat → list Z → M (fs T) Z)).

Lemma piperead_keeps killed n p q : refines p q →
  ∃ r bs p' w, piperead killed n p = Some (r, bs, p', w) ∧ (length bs ≤ n)%nat ∧
    pi_readopen p' = pi_readopen p ∧ pi_writeopen p' = pi_writeopen p ∧ ∃ q', refines p' q'.
Proof.
  intros Hq. unfold piperead. destruct (_ && _).
  - destruct killed; do 4 eexists; (split; [done|]); simpl; eauto with lia.
  - destruct (Pipe.read_loop_spec n p q Hq) as (p' & -> & Hq' & Hr & Hw). simpl. do 4 eexists. split; [done|]. simpl.
    rewrite length_take. eauto with lia.
Qed.

Lemma inv_stream A N R s a p p' q : inv A N R s → y_pipes s !! a = Some p →
  pi_readopen p' = pi_readopen p → pi_writeopen p' = pi_writeopen p → refines p' q →
  inv A N R (s <| y_pipes ::= <[a := p']> |>).
Proof.
  intros [I1 I2 I3 I4] Hp Hr Hw Hq. split; simpl; [done|done| |].
  - by eapply ends_stream.
  - by eapply pool_stream.
Qed.

Lemma inv_off A N R s f x o : inv A N R s → y_files s !! f = Some x →
  inv A N R (s <| y_files ::= <[f := x <| fl_off := o |>]> |>).
Proof.
  intros [I1 I2 I3 I4] Hx. split; simpl; [done| | |done].
  - by apply ftable_off.
  - by apply (ends_same _ _ x).
Qed.

Lemma inv_pipe A N R s a p : inv A N R s → y_pipes s !! a = Some p → ∃ q, refines p q.
Proof. intros I. apply (en_stream (fi_ends _ _ _ _ _ _ _ _ I)). Qed.

Lemma pipe_end_inv {X} A N R s a (r : pres X) : inv A N R s → wlp (pipe_end a r) (λ _ s', inv A N R s') (inv A N R) s.
Proof. intros I. by destruct r. Qed.

Lemma fileread_inv A R s f addr n : inv A [] R s →
  wlp (fileread dev_read f addr n) (λ _ s', inv A [] R s') (inv A [] R) s.
Proof.
  intros I. unfold fileread. wlp_step. apply wlp_rdf. intros x Hx. destruct (negb _); [by wlp_steps|].
  destruct (fl_type x); [done| |].
  - wlp_step. apply wlp_rdp. intros p Hp. wlp_steps. destruct (inv_pipe _ _ _ _ _ _ I Hp) as [q Hq].
    destruct (piperead_keeps (y_killed s) (Z.to_nat n) p q Hq) as (r & bs & p' & w & -> & _ & Hr & Hw & q' & Hq').
    unfold wrp, wake. wlp_steps. pose proof (inv_stream _ _ _ _ _ _ _ _ I Hp Hr Hw Hq') as I'.
    apply wlp_usop; [|intros u; by eapply fd_inv_frame]. intros _ u. wlp_steps. apply pipe_end_inv. by eapply fd_inv_frame.
  - wlp_step. apply wlp_fsop; [|intros t; by eapply fd_inv_frame]. intros _ t1. wlp_step.
    apply wlp_fsop; [|intros t; by eapply fd_inv_frame]. intros r t2. wlp_step.
    apply wlp_usop; [|intros u; by eapply fd_inv_frame]. intros _ u.
    assert (I' : inv A [] R (s <| y_fs := t1 |> <| y_fs := t2 |> <| y_user := u |>)) by (by eapply fd_inv_frame).
    wlp_step. apply wlp_when; intros _.
    + apply wlp_wrf. simpl. intros x' Hx'. wlp_step. pose proof (inv_off _ _ _ _ f x' (u32 (fl_off x' + r.1)) I' Hx') as I2.
      apply wlp_fsop; [|intros t; by eapply fd_inv_frame]. intros _ t3. wlp_steps. by eapply fd_inv_frame.
    + wlp_step. apply wlp_fsop; [|intros t; by eapply fd_inv_frame]. intros _ t3. wlp_steps. by eapply fd_inv_frame.
Qed.

Lemma filewrite_loop_inv A R fuel f addr n i s : inv A [] R s →
  wlp (filewrite_loop dev_write fuel f addr n i) (λ _ s', inv A [] R s') (inv A [] R) s.
Proof.
  revert i s. induction fuel as [|fuel IH]; intros i s I; simpl; destruct (i <? n); try by wlp_steps.
  unfold op_begin, op_end. wlp_step. apply wlp_fsop; [|intros t; by eapply fd_inv_frame]. intros _ t0. wlp_step.
  apply wlp_rdf. simpl. intros x Hx. wlp_step. apply wlp_fsop; [|intros t; by eapply fd_inv_frame]. intros _ t1. wlp_step.
  apply wlp_usop; [|intros u; by eapply fd_inv_frame]. intros src u. wlp_step.
  apply wlp_fsop; [|intros t; by eapply fd_inv_frame]. intros r t2. wlp_step.
  eapply (wlp_mono _ _ (λ _ s', inv A [] R s')).
  - apply wlp_when; intros _; [|by eapply fd_inv_frame]. apply wlp_wrf. simpl. intros x' Hx'.
    pose proof (inv_off _ _ _ _ f x' (u32 (fl_off x' + r)) I Hx') as I2. by eapply fd_inv_frame.
  - intros _ s' I'. wlp_step. apply wlp_fsop; [|intros t; by eapply fd_inv_frame]. intros _ t3. wlp_step.
    apply wlp_fsop; [|intros t; by eapply fd_inv_frame]. intros _ t4. destruct (r <? 0); wlp_steps; [by eapply fd_inv_frame|].
    apply IH. by eapply fd_inv_frame.
Qed.

Lemma filewrite_inv A R s f addr n : inv A [] R s →
  wlp (filewrite dev_write f addr n) (λ _ s', inv A [] R s') (inv A [] R) s.
Proof.
  intros I. unfold filewrite. wlp_step. apply wlp_rdf. intros x Hx. destruct (negb _); [by wlp_steps|].
  destruct (fl_type x); [done| |].
  - wlp_step. apply wlp_rdp. intros p Hp. wlp_steps. apply wlp_usop; [|intros u; by eapply fd_inv_frame]. intros src u.
    destruct (inv_pipe _ _ _ _ _ _ I Hp) as [q Hq].
    destruct (pipewrite_spec (y_killed s) n src p q Hq) as (acc & left & r & p' & w & -> & _ & Hq' & Hr & Hw & _).
    unfold wrp, wake. wlp_steps. pose proof (inv_stream _ _ _ _ _ _ _ _ I Hp Hr Hw Hq') as I'. apply pipe_end_inv. by eapply fd_inv_frame.
  - wlp_step. eapply wlp_mono; [by apply (filewrite_loop_inv A R)|]. intros i s' I'. by wlp_steps.
Qed.
End spec.
