(* ===== verification/SysfileInv.v ===== *)
(** * The calls of sysfile.c keep the invariant of open files *)

From S2P Require Import Prelude Bytes Mem Spinlock Pipe Kalloc Bio BioView Log Tx Fs Syscall File FileInv Sysfile FileSpec.

Section calls.
Context {T : Type} `{!TxOps T} (kend : Z).
Context (dev_read : Z → option (nat → Z → M (fs T) (Z * list Z))) (dev_write : Z → option (nat → list Z → M (fs T) Z)).
Implicit Types s : sys T.

(** The handlers of sysfile.c in the table of system calls. *)
Definition file_call (c : sysname) : option (M (sys T) Z) :=
  match c with
  | SYS_dup => Some sys_dup
  | SYS_read => Some (sys_read dev_read)
  | SYS_write => Some (sys_write dev_write)
  | SYS_close => Some (sys_close kend)
  | SYS_fstat => Some sys_fstat
  | SYS_link => Some (sys_link dev_read dev_write)
  | SYS_unlink => Some (sys_unlink dev_read dev_write)
  | SYS_open => Some (sys_open kend dev_read dev_write)
  | SYS_mkdir => Some (sys_mkdir dev_read dev_write)
  | SYS_mknod => Some (sys_mknod dev_read dev_write)
  | SYS_chdir => Some (sys_chdir dev_read)
  | SYS_pipe => Some (sys_pipe kend)
  | SYS_chmod => Some (sys_chmod dev_read)
  | SYS_chown => Some (sys_chown dev_read)
  | SYS_chgrp => Some (sys_chgrp dev_read)
  | _ => None
  end.

(** The part of fork() that copies the descriptors: those of the child. *)
Fixpoint dup_fds (l : list (option nat)) : M (sys T) (list (option nat)) :=
  match l with
  | [] => mret []
  | None :: l => r ← dup_fds l; mret (None :: r)
  | Some f :: l => g ← filedup f; r ← dup_fds l; mret (Some g :: r)
  end.
Definition fork_files : M (sys T) (list (option nat)) :=
  l ← gets y_ofile;
  r ← dup_fds l;
  cwd ← gets y_cwd;
  _ ← fsop (idup cwd);
  mret r.

(** The part of exit() that closes them, from [fd] on. *)
Fixpoint close_fds (n fd : nat) : M (sys T) unit :=
  match n with
  | O => mret tt
  | S n =>
    l ← gets y_ofile;
    match l !! fd with
    | None => fault
    | Some None => mret tt
    | Some (Some f) => fileclose kend f;; set_fd fd None
    end;;
    close_fds n (S fd)
  end.
Definition exit_files : M (sys T) unit :=
  close_fds NOFILE 0;;
  op_begin;;
  cwd ← gets y_cwd;
  fsop (iput cwd);;
  op_end.

(** ** Each call *)

Section inv.
Context (all : list Z) (Hall : NoDup all) (held : list lockid) (en : bool).
Abbreviation inv := (fd_inv kend all held en).
Abbreviation any := (λ _ : sys T, True).

Lemma sys_dup_inv A R s : inv A [] R s → wlp sys_dup (λ _ s', inv A [] R s') any s.
Proof.
  intros I. unfold sys_dup. wlp_step. eapply wlp_mono; [by apply (argfd_inv kend all held en A [] R)|]. intros [[fd0 f]|] s1 (I1 & _ & Hf); [|by wlp_steps].
  specialize (Hf fd0 f eq_refl). wlp_step. eapply wlp_mono; [apply fdalloc_spec|]. intros [fd|] s2 H2; [|by subst; wlp_steps].
  destruct H2 as [Hfree ->]. wlp_step. unfold filedup. wlp_step. apply wlp_rdf. simpl. intros x Hx. wlp_steps.
  apply wlp_wrf. simpl. intros x' Hx'. simplify_eq. wlp_steps.
  assert (Hin : f ∈ fds (y_ofile s1) ++ R) by (apply elem_of_app; left; apply list_elem_of_omap; exists (Some f); split; [by eapply list_elem_of_lookup_2|done]).
  assert (I2 : inv A [] (f :: R) (s1 <| y_files ::= <[f := x <| fl_ref ::= λ r, r + 1 |>]> |>)).
  { destruct I1 as [J1 J2 J3 J4]. split; simpl; [done| |by apply (ends_same _ _ x)|done].
    eapply ftable_perm; [|apply (ftable_dup [] _ _ f x J2); [done|done|apply not_elem_of_nil]]. apply Permutation_middle. }
  exact (inv_set_fd kend all held en _ _ _ _ fd f I2 Hfree).
Qed.

Lemma arg_rw_inv A R s : inv A [] R s → wlp arg_rw (λ _ s', inv A [] R s') (inv A [] R) s.
Proof.
  intros I. unfold arg_rw. wlp_step. eapply wlp_mono; [apply (argfd_inv kend all held en A [] R); [done|intros u; by eapply fd_inv_frame]|].
  intros [[fd0 f]|] s1 (I1 & _ & _); [|by wlp_steps].
  wlp_step. apply wlp_usop; [|intros u; by eapply fd_inv_frame]. intros [n|] u; [|wlp_steps; by eapply fd_inv_frame].
  wlp_step. apply wlp_usop; [|intros u'; by eapply fd_inv_frame]. intros [p|] u'; wlp_steps; by eapply fd_inv_frame.
Qed.

Lemma sys_read_inv A R s : inv A [] R s → wlp (sys_read dev_read) (λ _ s', inv A [] R s') (inv A [] R) s.
Proof.
  intros I. unfold sys_read. wlp_step. eapply wlp_mono; [by apply arg_rw_inv|]. intros [[[f p] n]|] s1 I1; [|by wlp_steps].
  by apply fileread_inv.
Qed.

Lemma sys_write_inv A R s : inv A [] R s → wlp (sys_write dev_write) (λ _ s', inv A [] R s') (inv A [] R) s.
Proof.
  intros I. unfold sys_write. wlp_step. eapply wlp_mono; [by apply arg_rw_inv|]. intros [[[f p] n]|] s1 I1; [|by wlp_steps].
  by apply filewrite_inv.
Qed.

Lemma sys_close_inv A R s : inv A [] R s → wlp (sys_close kend) (λ _ s', inv A [] R s') any s.
Proof.
  intros I. unfold sys_close. wlp_step. eapply wlp_mono; [by apply (argfd_inv kend all held en A [] R)|]. intros [[fd f]|] s1 (I1 & _ & Hf); [|by wlp_steps].
  specialize (Hf fd f eq_refl). unfold set_fd. wlp_steps. eapply wlp_mono; [apply (fileclose_inv kend all Hall held en A [] R); by apply inv_clear_fd|].
  intros _ s2 [I2 _]. wlp_steps. done.
Qed.

(** Steps that change only the file system and the process. *)
Ltac env_step :=
  lazymatch goal with
  | |- wlp (fsop _) _ _ _ => apply wlp_fsop; [intros ? ?|done]
  | |- wlp (usop _) _ _ _ => apply wlp_usop; [intros ? ?|done]
  | |- wlp (match ?x with _ => _ end) _ _ _ => destruct x
  | |- wlp (if ?x then _ else _) _ _ _ => destruct x
  | |- wlp _ _ _ _ => wlp_step
  end.
Ltac env_call := repeat env_step; by eapply fd_inv_frame.

Lemma put_fields_inv A R a l s : inv A [] R s → wlp (put_fields a l) (λ _ s', inv A [] R s') any s.
Proof.
  revert s. induction l as [|[o b] l IH]; intros s I; simpl; [by wlp_steps|]. wlp_step. apply wlp_usop; [|done]. intros _ u.
  apply IH. by eapply fd_inv_frame.
Qed.

Lemma sys_fstat_inv A R s : inv A [] R s → wlp sys_fstat (λ _ s', inv A [] R s') any s.
Proof.
  intros I. unfold sys_fstat. wlp_step. eapply wlp_mono; [by apply (argfd_inv kend all held en A [] R)|]. intros [[fd f]|] s1 (I1 & _ & Hf); [|by wlp_steps].
  wlp_step. apply wlp_usop; [|done]. intros [st|] u; [|env_call]. unfold filestat. wlp_step. apply wlp_rdf. intros x Hx.
  destruct (fl_type x); [env_call|env_call|]. wlp_step. apply wlp_fsop; [|done]. intros _ t1. wlp_step. apply wlp_fsop; [|done]. intros r t2.
  wlp_step. eapply wlp_mono; [apply (put_fields_inv A R); by eapply fd_inv_frame|]. intros [] s3 I3. env_call.
Qed.

Lemma sys_env_inv A R s c m : inv A [] R s → file_call c = Some m →
  c ∈ [SYS_link; SYS_unlink; SYS_mkdir; SYS_mknod; SYS_chdir; SYS_chmod; SYS_chown; SYS_chgrp] → wlp m (λ _ s', inv A [] R s') any s.
Proof.
  intros I Hm Hc. repeat (apply elem_of_cons in Hc as [->|Hc]); [..|by apply elem_of_nil in Hc]; injection Hm as <-.
  - unfold sys_link. env_call.
  - unfold sys_unlink. env_call.
  - unfold sys_mkdir, created, op_begin, op_end. env_call.
  - unfold sys_mknod, created, op_begin, op_end. env_call.
  - unfold sys_chdir, op_begin, op_end. env_call.
  - unfold sys_chmod, arg_attr. env_call.
  - unfold sys_chown, arg_attr. env_call.
  - unfold sys_chgrp, arg_attr. env_call.
Qed.

Lemma open_file_inv A R s ip omode : inv A [] R s → wlp (open_file kend ip omode) (λ _ s', inv A [] R s') any s.
Proof.
  intros I. unfold open_file. wlp_step. eapply wlp_mono; [by apply (filealloc_inv kend all held en A [] R)|]. intros [f|] s1 H1; cycle 1.
  { subst s1. unfold op_end. wlp_steps. simpl. env_call. }
  destruct H1 as [I1 _]. wlp_step. eapply wlp_mono; [apply fdalloc_spec|]. intros [fd|] s2 H2; cycle 1.
  { subst s2. simpl. wlp_step. eapply wlp_mono; [by apply (fileclose_inv kend all Hall held en A [f] R)|]. intros [] s3 [I3 _].
    rewrite without_cons_eq in I3 by apply not_elem_of_nil. unfold op_end. env_call. }
  destruct H2 as [Hfree ->]. pose proof (inv_set_fd kend all held en _ _ _ _ fd f I1 Hfree) as [J1 J2 J3 J4].
  unfold op_end. wlp_step. apply wlp_fsop; [|done]. intros _ t1. wlp_step. apply wlp_fsop; [|done]. intros _ t2. wlp_step.
  apply wlp_wrf. simpl. intros x Hx. wlp_steps. assert (Ht : fl_type x = FD_NONE).
  { apply (tb_type J2 f x Hx). right. by left. }
  split; simpl; [done| | |done].
  - rewrite <- (without_cons_eq f []) by apply not_elem_of_nil. by apply (ftable_typed _ _ _ _ x); [done|done|by left|..].
  - apply (ends_other _ _ x); [done|by rewrite Ht|done|done].
Qed.

Lemma sys_open_inv A R s : inv A [] R s → wlp (sys_open kend dev_read dev_write) (λ _ s', inv A [] R s') any s.
Proof.
  intros I. unfold sys_open, op_begin. wlp_step. apply wlp_usop; [|done]. intros [path|] u; [|env_call].
  wlp_step. apply wlp_usop; [|done]. intros [omode|] u'; [|env_call]. wlp_step. apply wlp_fsop; [|done]. intros _ t. wlp_steps.
  apply wlp_fsop; [|done]. intros [ip|] t'; [|env_call]. apply (open_file_inv A R). by eapply fd_inv_frame.
Qed.

Lemma sys_pipe_inv A R s : inv A [] R s → wlp (sys_pipe kend) (λ _ s', inv A [] R s') any s.
Proof.
  intros I. unfold sys_pipe. wlp_step. apply wlp_usop; [|done]. intros [p|] u; [|env_call]. wlp_step.
  eapply wlp_mono; [apply (pipealloc_inv kend all Hall held en A R); by eapply fd_inv_frame|]. intros [[f0 f1]|] s1 [_ I1]; [|env_call].
  wlp_step. eapply wlp_mono; [apply fdalloc_spec|]. intros [fd0|] s2 H2; cycle 1.
  { subst s2. wlp_steps. eapply wlp_mono; [by apply (fileclose_inv kend all Hall held en A [] (f1 :: R))|]. intros [] s3 [I3 _]. wlp_step.
    eapply wlp_mono; [by apply (fileclose_inv kend all Hall held en A [] R)|]. intros [] s4 [I4 _]. env_call. }
  destruct H2 as [Hfree ->]. pose proof (inv_set_fd kend all held en _ _ _ _ fd0 f0 I1 Hfree) as I2.
  wlp_step. eapply wlp_mono; [apply fdalloc_spec|]. intros [fd1|] s3 H3; cycle 1.
  { subst s3. unfold set_fd. wlp_steps. assert (I3 : inv A [] (f0 :: f1 :: R) (s1 <| y_ofile ::= <[fd0 := Some f0]> |> <| y_ofile ::= <[fd0 := None]> |>)).
    { apply inv_clear_fd; [done|]. simpl. apply list_lookup_insert_eq. by eapply lookup_lt_Some. }
    eapply wlp_mono; [by apply (fileclose_inv kend all Hall held en A [] (f1 :: R))|]. intros [] s4 [I4 _]. wlp_step.
    eapply wlp_mono; [by apply (fileclose_inv kend all Hall held en A [] R)|]. intros [] s5 [I5 _]. env_call. }
  destruct H3 as [Hfree1 ->]. pose proof (inv_set_fd kend all held en _ _ _ _ fd1 f1 I2 Hfree1) as I3. env_call.
Qed.

(** ** fork() and exit() *)

Lemma dup_fds_inv A R l s : inv A [] R s → (∀ f, f ∈ fds l → f ∈ fds (y_ofile s) ++ R) →
  wlp (dup_fds l) (λ r s', r = l ∧ inv A [] (fds l ++ R) s' ∧ y_ofile s' = y_ofile s) any s.
Proof.
  revert R s. induction l as [|[f|] l IH]; intros R s I Hl; simpl; [by wlp_steps| |].
  - unfold filedup. do 2 wlp_step. fold (filedup (T := T) f). apply wlp_rdf. intros x Hx. wlp_steps. apply wlp_wrf. intros x' Hx'. simplify_eq. wlp_steps.
    assert (Hf : f ∈ fds (y_ofile s) ++ R) by (apply Hl; by left).
    assert (I2 : inv A [] (f :: R) (s <| y_files ::= <[f := x <| fl_ref ::= λ r, r + 1 |>]> |>)).
    { destruct I as [J1 J2 J3 J4]. split; simpl; [done| |by apply (ends_same _ _ x)|done].
      eapply ftable_perm; [|apply (ftable_dup [] _ _ f x J2); [done|done|apply not_elem_of_nil]]. apply Permutation_middle. }
    eapply wlp_mono; [apply (IH _ _ I2)|].
    + intros g Hg. rewrite Permutation_app_comm. simpl. right. rewrite Permutation_app_comm. apply Hl. by right.
    + intros r s' (-> & I3 & E). wlp_steps. split; [done|]. split; [|done]. destruct I3 as [K1 K2 K3 K4]. split; [done| |done|done].
      eapply ftable_perm; [|done]. apply Permutation_app; [done|]. simpl. symmetry. apply Permutation_middle.
  - wlp_step. eapply wlp_mono; [by apply (IH R s)|]. intros r s' (-> & I' & E). by wlp_steps.
Qed.

Lemma fork_files_inv A R s : inv A [] R s →
  wlp fork_files (λ r s', inv A [] (fds r ++ R) s' ∧ length r = NOFILE) any s.
Proof.
  intros I. unfold fork_files. wlp_steps. eapply wlp_mono; [apply (dup_fds_inv A R); [done|]|].
  - intros f Hf. apply elem_of_app. by left.
  - intros r s' (-> & I' & E). wlp_steps. apply wlp_fsop; [|done]. intros _ t. wlp_steps. split; [by eapply fd_inv_frame|].
    apply (fi_len _ _ _ _ _ _ _ _ I).
Qed.

Lemma close_fds_inv A R n fd s : inv A [] R s → wlp (close_fds n fd) (λ _ s', inv A [] R s') any s.
Proof.
  revert fd s. induction n as [|n IH]; intros fd s I; simpl; [by wlp_steps|]. wlp_steps.
  destruct (y_ofile s !! fd) as [[f|]|] eqn:Hfd; [|wlp_steps; by apply IH|done].
  pose proof I as [Hlen Hok]%fd_inv_files. pose proof (fds_remove _ _ _ Hfd) as P.
  wlp_step. eapply wlp_mono; [apply (fileclose_ok kend all Hall held en A [] (fds (<[fd := None]> (y_ofile s)) ++ R))|].
  - eapply files_perm; [|exact Hok]. by rewrite P.
  - intros [] s' [H E]. unfold set_fd. wlp_steps. apply IH, fd_inv_files. simpl. rewrite length_insert, E. split; [done|exact H].
Qed.

Lemma exit_files_inv A R s : inv A [] R s → wlp exit_files (λ _ s', inv A [] R s') any s.
Proof.
  intros I. unfold exit_files, op_begin, op_end. wlp_step. eapply wlp_mono; [by apply (close_fds_inv A R)|]. intros [] s1 I1. env_call.
Qed.
End inv.
End calls.
