(* ===== verification/SysfileThms.v ===== *)
(** * The theorems about open files and descriptors

    The processes of the machine make system calls one at a time on a shared
    file table. [fstep] has a step for a call that returns, for a read or write
    that waits, for the descriptor parts of fork() and exit(), for a context
    switch, and for what other parts of the kernel do meanwhile: anything to
    the file system, allocations, and frees of pages they hold. *)

From S2P Require Import Prelude Bytes Mem Spinlock Pipe Kalloc Bio BioView Log Tx Fs Syscall File FileInv Sysfile FileSpec SysfileInv.

Section thms.
Context {T : Type} `{!TxOps T} (kend : Z).
Context (dev_read : Z → option (nat → Z → M (fs T) (Z * list Z))) (dev_write : Z → option (nat → list Z → M (fs T) Z)).
Implicit Types s : sys T.

(** The state the running process sees, the descriptors of the others, and
    the pages held outside of pipes. *)
Definition fsys : Type := sys T * list (list (option nat)) * list Z.

Inductive fstep : fsys → fsys → Prop :=
| fs_call c m s r s' o A : file_call kend dev_read dev_write c = Some m → m s = Done r s' → fstep (s, o, A) (s', o, A)
| fs_wait c m s w s' o A : c = SYS_read ∨ c = SYS_write → file_call kend dev_read dev_write c = Some m →
    m s = Blocked w s' → fstep (s, o, A) (s', o, A)
| fs_fork s r s' o A : fork_files s = Done r s' → fstep (s, o, A) (s', r :: o, A)
| fs_exit s s' o A : exit_files kend s = Done tt s' → fstep (s, o, A) (s', o, A)
| fs_switch s o1 l o2 cwd u k A :
    fstep (s, o1 ++ l :: o2, A)
      (s <| y_ofile := l |> <| y_cwd := cwd |> <| y_user := u |> <| y_killed := k |>, o1 ++ y_ofile s :: o2, A)
| fs_run s o A t u k w : fstep (s, o, A) (s <| y_fs := t |> <| y_user := u |> <| y_killed := k |> <| y_wakes := w |>, o, A)
| fs_alloc s o A r km : kalloc (y_km s) = Done r km → fstep (s, o, A) (s <| y_km := km |>, o, if r =? 0 then A else r :: A)
| fs_free s o A v km : v ∈ A → kfree kend v (y_km s) = Done tt km → fstep (s, o, A) (s <| y_km := km |>, o, without v A).

(** The references of the other processes. *)
Definition refs_of (o : list (list (option nat))) : list nat := concat (fds <$> o).

Section inv.
Context (all : list Z) (Hall : NoDup all) (held : list lockid) (en : bool).

Definition finv (x : fsys) : Prop :=
  let '(s, o, A) := x in fd_inv kend all held en A [] (refs_of o) s ∧ Forall (λ l, length l = NOFILE) o.

Lemma wlp_done {X} (m : M (sys T) X) Q B s r s' : wlp m Q B s → m s = Done r s' → Q r s'.
Proof. unfold wlp. intros H E. by rewrite E in H. Qed.

Lemma file_call_inv A R s c m : file_call kend dev_read dev_write c = Some m → fd_inv kend all held en A [] R s →
  wlp m (λ _ s', fd_inv kend all held en A [] R s') (λ _, True) s.
Proof.
  intros Hm I.
  assert (Hrw : ∀ m : M (sys T) Z, wlp m (λ _ s', fd_inv kend all held en A [] R s') (fd_inv kend all held en A [] R) s →
    wlp m (λ _ s', fd_inv kend all held en A [] R s') (λ _, True) s) by (intros n; unfold wlp; by destruct (n s)).
  destruct c; try discriminate Hm; try (eapply sys_env_inv; [done|exact Hm|set_solver]; fail); injection Hm as <-.
  - by apply sys_pipe_inv.
  - by apply Hrw, sys_read_inv.
  - by apply sys_fstat_inv.
  - by apply sys_dup_inv.
  - by apply sys_open_inv.
  - by apply Hrw, sys_write_inv.
  - by apply sys_close_inv.
Qed.

Lemma file_wait_inv A R s c m w s' : c = SYS_read ∨ c = SYS_write → file_call kend dev_read dev_write c = Some m →
  fd_inv kend all held en A [] R s → m s = Blocked w s' → fd_inv kend all held en A [] R s'.
Proof.
  intros Hc Hm I E. assert (H : wlp m (λ _ s', fd_inv kend all held en A [] R s') (fd_inv kend all held en A [] R) s).
  { destruct Hc as [-> | ->]; injection Hm as <-; [by apply sys_read_inv|by apply sys_write_inv]. }
  unfold wlp in H. by rewrite E in H.
Qed.

Lemma switch_inv A s o1 l o2 cwd u k : finv (s, o1 ++ l :: o2, A) →
  finv (s <| y_ofile := l |> <| y_cwd := cwd |> <| y_user := u |> <| y_killed := k |>, o1 ++ y_ofile s :: o2, A).
Proof.
  intros [[I1 I2 I3 I4] Hlen]. apply Forall_app in Hlen as [Hl1 [Hl Hl2]%Forall_cons]. split; [|apply Forall_app; by split; [|constructor]].
  split; simpl; [done| |done|done]. eapply ftable_perm; [|exact I2]. unfold refs_of. rewrite !fmap_app, !concat_app. simpl.
  rewrite !(assoc_L (++)). apply Permutation_app; [|done]. rewrite (Permutation_app_comm (fds (y_ofile s))), (Permutation_app_comm (fds l)).
  rewrite <- !(assoc_L (++)). apply Permutation_app; [done|apply Permutation_app_comm].
Qed.

(** The pages of others come and go without touching the pipes. *)
Lemma others_alloc A ps km r km' : pool kend all held en A ps km → kalloc km = Done r km' →
  pool kend all held en (if r =? 0 then A else r :: A) ps km'.
Proof.
  intros Hp Hk. pose proof (kstep_inv kend all held en _ _ Hall Hp (ks_alloc kend km _ r km' Hk)) as (l & H1 & H2 & H3 & H4).
  unfold pool. destruct (r =? 0); simpl in *; exists l; simpl; [by split_and!|].
  assert (P : (map_to_list ps).*1 ++ r :: A ≡ₚ r :: (map_to_list ps).*1 ++ A) by (symmetry; apply Permutation_middle).
  rewrite P. by split_and!.
Qed.

Lemma others_free A ps km v km' : pool kend all held en A ps km → v ∈ A → kfree kend v km = Done tt km' →
  pool kend all held en (without v A) ps km'.
Proof.
  intros Hp Hv Hk. assert (Hn : v ∉ (map_to_list ps).*1).
  { destruct Hp as (l & _ & _ & H3 & _). simpl in H3. rewrite <- H3 in Hall. apply NoDup_app in Hall as (_ & _ & Hd).
    apply NoDup_app in Hd as (_ & Hd & _). intros Hin. by apply (Hd v). }
  pose proof (kstep_inv kend all held en _ _ Hall Hp (ks_free kend km _ v km' ltac:(apply elem_of_app; by right) Hk)) as H.
  by rewrite without_app, without_not_in in H.
Qed.

Lemma fstep_inv x y : finv x → fstep x y → finv y.
Proof.
  intros Hx Hs. destruct Hs as [c m s r s' o A Hm Hr|c m s w s' o A Hc Hm Hr|s r s' o A Hr|s s' o A Hr|s o1 l o2 cwd u k A
    |s o A t u k w|s o A r km Hk|s o A v km Hv Hk].
  - destruct Hx as [I Hl]. split; [|done]. exact (wlp_done _ _ _ _ _ _ (file_call_inv _ _ _ _ _ Hm I) Hr).
  - destruct Hx as [I Hl]. split; [|done]. by eapply file_wait_inv.
  - destruct Hx as [I Hl]. pose proof (wlp_done _ _ _ _ _ _ (fork_files_inv kend all held en A _ s I) Hr) as [I' Hlen]. split; [done|by constructor].
  - destruct Hx as [I Hl]. split; [|done]. exact (wlp_done _ _ _ _ _ _ (exit_files_inv kend all Hall held en A _ s I) Hr).
  - by apply switch_inv.
  - destruct Hx as [I Hl]. split; [|done]. by eapply fd_inv_frame.
  - destruct Hx as [[I1 I2 I3 I4] Hl]. split; [|done]. split; [done|done|done|]. exact (others_alloc _ _ _ _ _ I4 Hk).
  - destruct Hx as [[I1 I2 I3 I4] Hl]. split; [|done]. split; [done|done|done|]. exact (others_free _ _ _ _ _ I4 Hv Hk).
Qed.
End inv.

(** ** The theorems *)

Definition file0 : file := mkFile FD_NONE 0 false false 0 0 0.

(** No file is open: the state after the boot. *)
Record closed_all (s : sys T) : Prop := {
  ca_files : y_files s = replicate NFILE file0;
  ca_ofile : y_ofile s = replicate NOFILE None;
  ca_pipes : y_pipes s = ∅;
}.

Lemma closed_all_inv all held en A s : closed_all s → kinv kend all held en (y_km s, A) → finv all held en (s, [], A).
Proof.
  intros [Hf Ho Hp] Hk. split; [|constructor]. split; rewrite ?Hf, ?Ho, ?Hp.
  - apply length_replicate.
  - split.
    + apply length_replicate.
    + by intros f Hfu%elem_of_nil.
    + intros f x [-> _]%lookup_replicate. done.
    + by intros f Hfu%elem_of_nil.
    + intros f x [-> _]%lookup_replicate. simpl. naive_solver.
    + by intros f x [-> _]%lookup_replicate.
  - split; try done; intros a w f; [|intros g]; by intros (x & [-> _]%lookup_replicate & ? & _).
  - exact Hk.
Qed.

(** C7: Whatever system calls the processes make, with fork(), exit() and
    context switches in between, the reference count of every open file is the
    number of descriptors of all processes that refer to it, and an entry is
    free exactly when that is 0. Every end of a pipe that a file stands for is
    open and its pipe exists, and every pipe has a file: it lies in a page that
    is not free and that nobody else holds. *)
Theorem descriptors_counted all held en A0 s0 s o A : NoDup all →
  closed_all s0 → kinv kend all held en (y_km s0, A0) → rtc fstep (s0, [], A0) (s, o, A) →
  (∀ f x, y_files s !! f = Some x →
     fl_ref x = Z.of_nat (occ f (refs_of (y_ofile s :: o))) ∧ (fl_type x = FD_NONE ↔ fl_ref x = 0) ∧
     (fl_type x = FD_PIPE → ∃ p, y_pipes s !! fl_pipe x = Some p ∧ end_open (fl_writable x) p = true)) ∧
  ∃ l, free_list kend (y_km s) l ∧ ∀ a p, y_pipes s !! a = Some p →
     (a ∉ l) ∧ (a ∉ A) ∧ ∃ f x, y_files s !! f = Some x ∧ fl_type x = FD_PIPE ∧ fl_pipe x = a ∧ 0 < fl_ref x.
Proof.
  intros Hall H0 Hk Hr. pose proof (closed_all_inv all held en A0 s0 H0 Hk) as Hinit.
  pose proof (rtc_invariant fstep (finv all held en) _ _ Hinit (fstep_inv all Hall held en) Hr) as [[I1 I2 I3 I4] _]. split.
  - intros f x Hx. split_and!.
    + exact (tb_ref I2 f x Hx).
    + rewrite (tb_type I2 f x Hx). rewrite elem_of_nil. tauto.
    + intros Ht. apply (en_pipe I3 _ _ f). by exists x.
  - destruct I4 as (l & Hl & _ & Hp & _). exists l. split; [done|]. intros a p Ha. simpl in Hp.
    assert (Hin : a ∈ (map_to_list (y_pipes s)).*1) by (apply list_elem_of_fmap; exists (a, p); split; [done|by apply elem_of_map_to_list]).
    rewrite <- Hp in Hall. apply NoDup_app in Hall as (_ & Hd1 & (_ & Hd2 & _)%NoDup_app). split; [|split; [by apply Hd2|]].
    + intros Hal. apply (Hd1 a Hal). apply elem_of_app. by left.
    + destruct (en_live I3 a p Ha) as [Ho|Ho]; [destruct (en_open I3 a p false Ha Ho) as (f & x & Hx & Ht & Hp' & _)|destruct (en_open I3 a p true Ha Ho) as (f & x & Hx & Ht & Hp' & _)];
        exists f, x; (split_and!; [done..|]); pose proof (tb_ref I2 f x Hx); pose proof (tb_type I2 f x Hx) as [_ Htn];
        (destruct (decide (fl_ref x = 0)) as [E|]; [by rewrite (Htn (or_introl E)) in Ht|lia]).
Qed.

(** ** Calls on pipes *)

(** [m] returns, or waits for the channel [c]. *)
Definition settles {X} (m : M (sys T) X) (c : chan) (s : sys T) : Prop :=
  match m s with Done _ _ => True | Blocked w _ => w = WaitChan c | _ => False end.

Lemma wp_settles {X Y} (m : M (sys T) X) (g : X → M (sys T) Y) c s : wp m (λ a s', settles (g a) c s') s → settles (m ≫= g) c s.
Proof. unfold wp, settles, mbind, M_bind. by destruct (m s). Qed.

Lemma wp_rdf f x (Q : file → sys T → Prop) s : y_files s !! f = Some x → Q x s → wp (rdf f) Q s.
Proof. unfold wp, rdf. by intros ->. Qed.
Lemma wp_wrf f g x (Q : unit → sys T → Prop) s : y_files s !! f = Some x → Q tt (s <| y_files ::= <[f := g x]> |>) → wp (wrf f g) Q s.
Proof. unfold wp, wrf. by intros ->. Qed.
Lemma wp_rdp a p (Q : pipe → sys T → Prop) s : y_pipes s !! a = Some p → Q p s → wp (rdp a) Q s.
Proof. unfold wp, rdp. by intros ->. Qed.

Lemma wp_put_user a l (Q : unit → sys T → Prop) s : 0 ≤ a → (Z.to_nat a + length l ≤ length (u_mem (y_user s)))%nat →
  (∀ u, Q tt (s <| y_user := u |>)) → wp (usop (put_user a l)) Q s.
Proof. intros Ha Hl HQ. unfold usop. apply wp_lift. unfold wp, put_user. rewrite bool_decide_eq_true_2 by done. apply HQ. Qed.

Lemma wp_get_user a n (Q : list Z → sys T → Prop) s : 0 ≤ a → (Z.to_nat a + n ≤ length (u_mem (y_user s)))%nat →
  (∀ l u, Q l (s <| y_user := u |>)) → wp (usop (get_user a n)) Q s.
Proof. intros Ha Hl HQ. unfold usop. apply wp_lift. unfold wp, get_user. rewrite bool_decide_eq_true_2 by done. apply HQ. Qed.

Lemma fileread_pipe_settles s f x p q addr n : y_files s !! f = Some x → fl_type x = FD_PIPE → y_pipes s !! fl_pipe x = Some p → refines p q →
  0 ≤ addr → (Z.to_nat addr + Z.to_nat n ≤ length (u_mem (y_user s)))%nat → settles (fileread dev_read f addr n) (ChPipeRead (fl_pipe x)) s.
Proof.
  intros Hx Ht Hp Hq Ha Hn. unfold fileread. apply wp_settles, (wp_rdf _ x); [done|]. destruct (negb _); [done|]. rewrite Ht.
  apply wp_settles, (wp_rdp _ p); [done|]. apply wp_settles, wp_gets. unfold wrp, wake, piperead.
  destruct (pipe_empty p && pi_writeopen p).
  - destruct (y_killed s); apply wp_settles, wp_modify, wp_settles, wp_put_user; simpl; try lia; done.
  - destruct (Pipe.read_loop_spec (Z.to_nat n) p q Hq) as (p' & -> & _). simpl. apply wp_settles, wp_modify, wp_settles, wp_put_user; [done| |].
    + simpl. rewrite length_take. lia.
    + intros u. by apply wp_settles, wp_modify.
Qed.

Lemma filewrite_pipe_settles s f x p q addr n : y_files s !! f = Some x → fl_type x = FD_PIPE → y_pipes s !! fl_pipe x = Some p → refines p q →
  0 ≤ addr → (Z.to_nat addr + Z.to_nat n ≤ length (u_mem (y_user s)))%nat → settles (filewrite dev_write f addr n) (ChPipeWrite (fl_pipe x)) s.
Proof.
  intros Hx Ht Hp Hq Ha Hn. unfold filewrite. apply wp_settles, (wp_rdf _ x); [done|]. destruct (negb _); [done|]. rewrite Ht.
  apply wp_settles, (wp_rdp _ p); [done|]. apply wp_settles, wp_gets, wp_settles, wp_get_user; [done|done|]. intros src u.
  destruct (pipewrite_spec (y_killed s) n src p q Hq) as (acc & left & r & p' & w & -> & _ & _ & _ & _ & Hr).
  unfold wrp, wake. apply wp_settles, wp_modify, wp_settles, wp_modify.
  destruct Hr as [(_ & -> & _)|[(_ & _ & _ & _ & -> & _)|(_ & _ & _ & -> & _)]]; done.
Qed.

(** fileclose() of a reference to a pipe. *)
Lemma fileclose_pipe_done all held en A N U s f x : NoDup all → files_ok kend all held en A N (f :: U) s →
  y_files s !! f = Some x → fl_type x = FD_PIPE → wp (fileclose kend f) (λ _ _, True) s.
Proof.
  intros Hall (I2 & I3 & I4) Hx Ht. pose proof (tb_ref I2 f x Hx) as Hr. rewrite occ_cons, decide_True in Hr by done.
  unfold fileclose. apply wp_bind, (wp_rdf _ x); [done|]. apply wp_bind, wp_panic_if; [zlia|]. apply wp_bind, (wp_wrf _ _ x); [done|].
  destruct (0 <? fl_ref x - 1); [done|]. apply wp_bind. eapply wp_wrf; [simpl; apply list_lookup_insert_eq; by eapply lookup_lt_Some|].
  rewrite Ht. destruct (en_pipe I3 (fl_pipe x) (fl_writable x) f) as (p & Hp & _); [by exists x|].
  unfold close_pipe, wrp, wake. apply wp_bind, (wp_rdp _ p); [done|]. destruct (pipeclose (fl_writable x) p) as [[last p'] w].
  do 2 apply wp_bind, wp_modify. apply wp_when; [|done]. intros ->. apply wp_bind, wp_modify. unfold kmop. apply wp_lift. simpl.
  eapply wp_mono; [exact (pool_free kend all Hall held en A (y_pipes s) (y_km s) (fl_pipe x) p Hp I4)|done].
Qed.

(** C10: In every state the processes reach, read(), write() and close() on a
    descriptor of a pipe, with a buffer in the memory of the process, complete
    or wait for this pipe: they never find the pipe gone, a page freed twice,
    a reference count below 1 or a file without a type. *)
Theorem pipe_calls_complete all held en A0 s0 s o A f x addr n : NoDup all →
  closed_all s0 → kinv kend all held en (y_km s0, A0) → rtc fstep (s0, [], A0) (s, o, A) →
  Some f ∈ y_ofile s → y_files s !! f = Some x → fl_type x = FD_PIPE →
  0 ≤ addr → (Z.to_nat addr + Z.to_nat n ≤ length (u_mem (y_user s)))%nat →
  settles (fileread dev_read f addr n) (ChPipeRead (fl_pipe x)) s ∧
  settles (filewrite dev_write f addr n) (ChPipeWrite (fl_pipe x)) s ∧
  wp (fileclose kend f) (λ _ _, True) s.
Proof.
  intros Hall H0 Hk Hr Hf Hx Ht Ha Hn. pose proof (closed_all_inv all held en A0 s0 H0 Hk) as Hinit.
  pose proof (rtc_invariant fstep (finv all held en) _ _ Hinit (fstep_inv all Hall held en) Hr) as [I _]. pose proof I as [I1 I2 I3 I4].
  destruct (en_pipe I3 (fl_pipe x) (fl_writable x) f) as (p & Hp & _); [by exists x|]. destruct (en_stream I3 _ p Hp) as [q Hq]. split_and!.
  - by eapply fileread_pipe_settles.
  - by eapply filewrite_pipe_settles.
  - apply list_elem_of_lookup in Hf as [fd Hfd]. eapply (fileclose_pipe_done all held en A [] (fds (<[fd := None]> (y_ofile s)) ++ refs_of o)); [done| |done|done].
    apply fd_inv_files in I as [_ I]. eapply files_perm; [|exact I]. by rewrite (fds_remove _ _ _ Hfd).
Qed.
End thms.
