(* ===== verification/FileWrite.v ===== *)
(** * Writing a file through filewrite()

    filewrite() splits the bytes into transactions of at most [write_max]
    bytes. [filewrite_loop_spec] puts the transactions together. *)

From S2P Require Import Prelude Bytes Mem Spinlock Str Pipe Kalloc Bio BioView Log LogCrash Tx LogTx Fs FsBlock FsFile FsInv FsWritei FsDir FsPath FsThms Syscall File.

Lemma wp_bind_inv {S A B} (m : M S A) (f : A → M S B) (Q : B → S → Prop) s :
  wp (m ≫= f) Q s → wp m (λ a s', wp (f a) Q s') s.
Proof. unfold wp, mbind, M_bind. by destruct (m s). Qed.

(** Two writes next to each other are one. *)
Lemma overwrite_app l o s1 s2 : (o ≤ length l)%nat →
  overwrite (overwrite l o s1) (o + length s1) s2 = overwrite l o (s1 ++ s2).
Proof.
  intros Ho. unfold overwrite. rewrite (assoc_L (++) (take o l) s1).
  rewrite take_app_length' by (rewrite length_app, length_take; lia). rewrite <- !(assoc_L (++)). do 3 f_equal.
  rewrite (assoc_L (++)), drop_app_ge by (rewrite length_app, length_take; lia). rewrite drop_drop, !length_app, length_take.
  f_equal. lia.
Qed.

Lemma length_overwrite l o s1 : (o ≤ length l)%nat → length (overwrite l o s1) = (length l `max` (o + length s1))%nat.
Proof. intros Ho. unfold overwrite. rewrite !length_app, length_take, length_drop. lia. Qed.

Section write.
Context {T : Type} `{!TxOps T} `{!TxLaws T} (live : Z → Prop) (sb : superblock).
Context (dev_write : Z → option (nat → list Z → M (fs T) Z)).
Implicit Types (s : sys T) (t : fs T) (a : store) (X : Z → dinode).

(** A file that is no directory was written. *)
Lemma tree_wrote a X k off src a' x' : fs_tree a sb live X → live k → di_type (X k) ≠ T_DIR →
  wrote a sb live X k off src a' x' → fs_tree a' sb live (upd X k x').
Proof.
  intros [I S Hty Hln Hdirs Hroot Hdev] Hk Hnd [WI WS Wx Wd Wo]. split; try done.
  - intros j Hj. unfold upd. case_decide; [subst; rewrite Wx|]; by apply Hty.
  - intros j Hj. unfold upd. case_decide; [subst; rewrite Wx|]; by apply Hln.
  - intros j Hj. unfold upd. case_decide as Hjk; [subst; rewrite Wx; simpl; done|]. intros Hd. rewrite Wo by done. by apply Hdirs.
Qed.

Lemma enough_home k a a' : enough k a sb → a' (tx_dev, bm sb) = a (tx_dev, bm sb) → enough k a' sb.
Proof.
  intros (Fr & H1 & H2 & H3) Ha. exists Fr. split_and!; [done|done|]. intros b Hb. unfold used. rewrite Ha. by apply H3.
Qed.

(** Entry [f] of the file table has file [k] open at [off]. *)
Record open_at a X s (f : nat) (x : file) (k : Z) : Prop := {
  oa_tree : fs_tree a sb live X;
  oa_idle : idle live X a false [] sb (y_fs s);
  oa_file : y_files s !! f = Some x;
  oa_inode : ∃ ip, f_inodes (y_fs s) !! fl_ip x = Some ip ∧ 0 < i_ref ip ∧ i_inum ip = k;
}.

(** begin_op(); ilock(); writei(); iunlock(); end_op(), as filewrite() runs them. *)
Definition write_chunk (i : nat) (src : list Z) (off : Z) : M (fs T) Z :=
  ft tx_begin_op;;
  ilock i;;
  r ← writei dev_write i src off;
  iunlock i;;
  ft tx_end_op;;
  mret r.

Lemma write_chunk_spec a X t i ip src off m (Q : Z → fs T → Prop) :
  let k := i_inum ip in let n := Z.of_nat (length src) in
  fs_tree a sb live X → idle live X a false [] sb t → f_inodes t !! i = Some ip → 0 < i_ref ip →
  di_type (X k) ≠ T_DIR → di_type (X k) ≠ T_DEV → 0 ≤ off ≤ di_size (X k) → off + n ≤ MAXFILE * BS →
  (chunks n + 7 ≤ tx_cap)%nat → enough (2 * chunks n + m) a sb →
  (∀ t' a' x' ip', fs_tree a' sb live (upd X k x') → idle live (upd X k x') a' false [] sb t' →
     f_inodes t' !! i = Some ip' → i_ref ip' = i_ref ip → i_inum ip' = k →
     di_type x' = di_type (X k) → di_size x' = Z.max (di_size (X k)) (off + n) →
     fdata a' x' = overwrite (fdata a (X k)) (Z.to_nat off) src → (∀ j, live j → j ≠ k → fdata a' (X j) = fdata a (X j)) →
     enough m a' sb → Q n t') →
  wp (write_chunk i src off) Q t.
Proof.
  intros k n HT (V & E & IC) Hi Hp Hnd Hndev Hoff Hmax Hcap He HQ. pose proof HT as [I S Hty Hln _ _ _].
  destruct (ic_dev _ _ _ _ IC i ip Hi Hp) as [_ Hlive]. pose proof (fv_size _ _ _ _ I k Hlive) as Hsz.
  unfold write_chunk. apply wp_bind. eapply wp_fbegin; [exact V|]. intros t1 V1 E1 F1. rewrite <- F1 in Hi, IC.
  apply wp_bind. eapply (ilock_spec live X a true [] sb I S ltac:(simpl; lia) Hty Hln); [split_and!; [exact V1|congruence|exact IC]|exact Hi|done|].
  intros t2 ip2 O2 IC2 F2 N2 R2 B2 V2. pose proof O2 as [V2' E2 _ _ _ Hi2 _ Hx2].
  apply wp_bind. eapply (writei_more dev_write t2 a [] i ip2 sb live X off src m); [exact O2| | | | |exact He| |]; fold n.
  - by rewrite Hx2, N2.
  - unfold MAXFILE in *. rewrite BS_val in *. lia.
  - unfold MAXFILE in *. rewrite BS_val in *. lia.
  - simpl. lia.
  - unfold write_refused. rewrite Hx2, N2. fold k. unfold MAXFILE in *. rewrite BS_val in *. lia.
  - rewrite N2. fold k. intros _ t3 a3 L3 x3 V3 E3 F3 W3 He3. pose proof (ic_attr live X _ _ i ip2 x3 IC2 Hi2 ltac:(lia)) as IC3.
    rewrite N2 in IC3. fold k in IC3. assert (Hi3 : f_inodes t3 !! i = Some (ip2 <| i_d := x3 |>)).
    { rewrite F3. unfold with_d. apply list_lookup_insert_eq. by eapply lookup_lt_Some. }
    apply wp_bind. eapply (iunlock_spec live (upd X k x3) a3 true L3 sb); [by eapply tx_bound|exact V3|exact E3|by rewrite F3|exact Hi3|simpl; lia|].
    intros t4 ip4 (V4 & E4 & IC4) F4 N4 R4. apply wp_bind. eapply wp_fend; [exact V4|]. intros t5 a5 V5 Ha5 E5 F5. apply wp_ret.
    pose proof (tree_wrote a X k off src a3 x3 HT Hlive Hnd W3) as HT3. pose proof W3 as [WI WS Wx Wd Wo].
    destruct (inv_home a3 a5 sb live _ WI Ha5) as [_ Hd5].
    eapply (HQ t5 a5 x3 ip4).
    + by eapply tree_home.
    + split_and!; [done|congruence|by rewrite F5].
    + rewrite F5, F4. apply list_lookup_insert_eq. by eapply lookup_lt_Some.
    + simpl in R4. congruence.
    + simpl in N4. unfold k. congruence.
    + by rewrite Wx.
    + by rewrite Wx.
    + destruct (Hd5 k Hlive) as [_ H5]. rewrite upd_eq in H5. by rewrite H5.
    + intros j Hj Hne. destruct (Hd5 j Hj) as [_ H5]. rewrite upd_ne in H5 by done. rewrite H5. by apply Wo.
    + apply (enough_home _ a3); [done|]. apply Ha5, WI.
Qed.

(** *** The loop *)

(** The offset after [r] bytes. *)
Definition moved (x : file) (r : Z) : file := if 0 <? r then x <| fl_off ::= λ o, u32 (o + r) |> else x.

(** An iteration of the loop is [write_chunk] on the bytes of the process; the
    entry of the file table moves on. *)
Lemma chunk_iteration s f x addr n1 (k : Z → M (sys T) Z) (Q : Z → sys T → Prop) :
  y_files s !! f = Some x → 0 ≤ addr → (Z.to_nat addr + n1 ≤ length (u_mem (y_user s)))%nat →
  wp (write_chunk (fl_ip x) (take n1 (drop (Z.to_nat addr) (u_mem (y_user s)))) (fl_off x))
    (λ r t, wp (k r) Q (s <| y_fs := t |> <| y_files ::= <[f := moved x r]> |>)) (y_fs s) →
  wp (op_begin;;
      x ← rdf f;
      fsop (ilock (fl_ip x));;
      src ← usop (get_user addr n1);
      r ← fsop (writei dev_write (fl_ip x) src (fl_off x));
      when (0 <? r) (wrf f (λ x, x <| fl_off ::= λ o, u32 (o + r) |>));;
      fsop (iunlock (fl_ip x));;
      op_end;;
      k r) Q s.
Proof.
  intros Hx Ha Hn H. unfold op_begin, op_end, fsop, usop. apply wp_bind, wp_lift. apply wp_bind_inv in H. eapply wp_mono; [exact H|].
  clear H. intros [] t1 H. apply wp_bind. unfold wp at 1, rdf. simpl. rewrite Hx. apply wp_bind, wp_lift. apply wp_bind_inv in H.
  eapply wp_mono; [exact H|]. clear H. intros [] t2 H. apply wp_bind, wp_lift. unfold wp at 1, get_user. simpl. rewrite bool_decide_eq_true_2 by done.
  apply wp_bind, wp_lift. apply wp_bind_inv in H. eapply wp_mono; [exact H|]. clear H. intros r t3 H. apply wp_bind.
  assert (Hw : ∀ (Q' : unit → sys T → Prop), Q' tt (s <| y_fs := t3 |> <| y_files ::= <[f := moved x r]> |>) →
    wp (when (0 <? r) (wrf f (λ x, x <| fl_off ::= λ o, u32 (o + r) |>))) Q' (s <| y_fs := t3 |>)).
  { intros Q' H'. unfold moved in H'. destruct (0 <? r).
    - simpl. unfold wp, wrf. simpl. by rewrite Hx.
    - simpl. apply wp_ret. unfold field_upd in *. simpl in *. rewrite list_insert_id in H' by done. exact H'. }
  apply Hw. apply wp_bind, wp_lift. apply wp_bind_inv in H. eapply wp_mono; [exact H|]. clear H. intros [] t4 H.
  apply wp_bind, wp_lift. apply wp_bind_inv in H. eapply wp_mono; [exact H|]. clear H. intros [] t5 H. exact H.
Qed.

(** The [n] bytes of the process at [addr]. *)
Definition bytes_at s (addr n : Z) : list Z := take (Z.to_nat n) (drop (Z.to_nat addr) (u_mem (y_user s))).

Lemma length_bytes_at s addr n : 0 ≤ addr → 0 ≤ n → addr + n ≤ Z.of_nat (length (u_mem (y_user s))) → length (bytes_at s addr n) = Z.to_nat n.
Proof. intros. unfold bytes_at. rewrite length_take, length_drop. lia. Qed.

Lemma bytes_at_split s addr n1 n : 0 ≤ addr → 0 ≤ n1 ≤ n → bytes_at s addr n = bytes_at s addr n1 ++ bytes_at s (addr + n1) (n - n1).
Proof.
  intros Ha Hn. unfold bytes_at. rewrite Z2Nat.inj_add, <- drop_drop by lia. rewrite Z2Nat.inj_sub by lia.
  rewrite take_take_drop. f_equal. lia.
Qed.

(** What filewrite() leaves of file [k] and the others after [src] was written
    at the offset of [x]. *)
Record file_written a X s (f : nat) x k (src : list Z) a' X' s' : Prop := {
  fw_open : open_at a' X' s' f (x <| fl_off := fl_off x + Z.of_nat (length src) |>) k;
  fw_type : di_type (X' k) = di_type (X k);
  fw_data : fdata a' (X' k) = overwrite (fdata a (X k)) (Z.to_nat (fl_off x)) src;
  fw_size : di_size (X' k) = Z.max (di_size (X k)) (fl_off x + Z.of_nat (length src));
  fw_other : ∀ j, live j → j ≠ k → X' j = X j ∧ fdata a' (X' j) = fdata a (X j);
  fw_user : y_user s' = y_user s;
}.

Lemma file_written_trans a X s f x k (b1 b2 : list Z) a1 X1 s1 a2 X2 s2 :
  (Z.to_nat (fl_off x) ≤ length (fdata a (X k)))%nat → 0 ≤ fl_off x →
  file_written a X s f x k b1 a1 X1 s1 →
  file_written a1 X1 s1 f (x <| fl_off := fl_off x + Z.of_nat (length b1) |>) k b2 a2 X2 s2 →
  file_written a X s f x k (b1 ++ b2) a2 X2 s2.
Proof.
  intros Hlen Hoff [A1 A2 A3 A4 A5 A6] [B1 B2 B3 B4 B5 B6]. simpl in *.
  assert (Hoffs : fl_off x + Z.of_nat (length b1) + Z.of_nat (length b2) = fl_off x + Z.of_nat (length (b1 ++ b2))) by (rewrite length_app; lia).
  split.
  - rewrite <- Hoffs. exact B1.
  - congruence.
  - rewrite B3, A3. rewrite <- overwrite_app by done. f_equal. lia.
  - rewrite B4, A4. lia.
  - intros j Hj Hne. destruct (A5 j Hj Hne) as [<- <-]. by apply B5.
  - congruence.
Qed.

(** The bounds that a write of [n] bytes needs. *)
Lemma chunks_max n : 0 ≤ n ≤ write_max → (chunks n ≤ 15)%nat.
Proof.
  intros Hn. unfold chunks. change (Z.of_nat BSIZE) with 512. change write_max with 6656 in Hn.
  pose proof (Z.div_le_mono n 6656 512 ltac:(lia) ltac:(lia)). change (6656 / 512) with 13 in *. lia.
Qed.

Lemma file_written_nil a X s f x k : open_at a X s f x k → 0 ≤ fl_off x ≤ di_size (X k) → file_written a X s f x k [] a X s.
Proof.
  intros O Hoff. split; try done.
  - simpl. rewrite Z.add_0_r. by destruct x.
  - unfold overwrite. simpl. by rewrite Nat.add_0_r, take_drop.
  - simpl. lia.
Qed.

(** One iteration. *)
Lemma filewrite_step s a X f x k addr n1 m (K : Z → M (sys T) Z) (Q : Z → sys T → Prop) :
  open_at a X s f x k → di_type (X k) ≠ T_DIR → di_type (X k) ≠ T_DEV → 0 < n1 ≤ write_max →
  0 ≤ fl_off x ≤ di_size (X k) → fl_off x + n1 ≤ MAXFILE * BS →
  0 ≤ addr → addr + n1 ≤ Z.of_nat (length (u_mem (y_user s))) → (22 ≤ tx_cap)%nat → enough (30 + m) a sb →
  (∀ a' X' s', file_written a X s f x k (bytes_at s addr n1) a' X' s' → enough m a' sb → wp (K n1) Q s') →
  wp (op_begin;;
      x ← rdf f;
      fsop (ilock (fl_ip x));;
      src ← usop (get_user addr (Z.to_nat n1));
      r ← fsop (writei dev_write (fl_ip x) src (fl_off x));
      when (0 <? r) (wrf f (λ x, x <| fl_off ::= λ o, u32 (o + r) |>));;
      fsop (iunlock (fl_ip x));;
      op_end;;
      K r) Q s.
Proof.
  intros [HT J Hx (ip & Hip & Hp & Hk)] Hnd Hndev Hn1 Hoff Hmax Ha Hmem Hcap He HQ. subst k.
  pose proof (length_bytes_at s addr n1 Ha ltac:(lia) Hmem) as Hlen. pose proof (chunks_max n1 ltac:(lia)) as Hch.
  apply (chunk_iteration s f x); [done|done|lia|]. fold (bytes_at s addr n1).
  assert (Hn : Z.of_nat (length (bytes_at s addr n1)) = n1) by lia.
  eapply (write_chunk_spec a X (y_fs s) (fl_ip x) ip (bytes_at s addr n1) (fl_off x) m); rewrite ?Hn; try done; [lia|eapply enough_weaken; [|exact He]; lia|].
  intros t' a' x' ip' HT' J' Hip' Hr' Hk' Hty' Hsz' Hd' Ho' He'. eapply HQ; [|exact He'].
  assert (Hmv : moved x n1 = x <| fl_off := fl_off x + n1 |>).
  { unfold moved. rewrite (proj2 (Z.ltb_lt 0 n1)) by lia. unfold field_upd. simpl. f_equal. apply u32_small.
    unfold MAXFILE in *. rewrite BS_val in *. lia. }
  rewrite Hmv. split; rewrite ?Hn; simpl.
  - split; [exact HT'|exact J'|simpl; apply list_lookup_insert_eq; by eapply lookup_lt_Some|]. simpl. exists ip'. split_and!; [done|lia|done].
  - by rewrite upd_eq.
  - by rewrite upd_eq.
  - by rewrite upd_eq.
  - intros j Hj Hne. rewrite upd_ne by done. split; [done|by apply Ho'].
  - done.
Qed.

Lemma filewrite_loop_spec fuel s a X f x k addr n i (Q : Z → sys T → Prop) :
  open_at a X s f x k → di_type (X k) ≠ T_DIR → di_type (X k) ≠ T_DEV →
  0 ≤ i ≤ n → n - i ≤ Z.of_nat fuel * write_max → 0 ≤ fl_off x ≤ di_size (X k) → fl_off x + (n - i) ≤ MAXFILE * BS →
  0 ≤ addr → addr + n ≤ Z.of_nat (length (u_mem (y_user s))) → addr + n < 2 ^ 32 →
  (22 ≤ tx_cap)%nat → enough (30 * fuel) a sb →
  (∀ a' X' s', file_written a X s f x k (bytes_at s (addr + i) (n - i)) a' X' s' → Q n s') →
  wp (filewrite_loop dev_write fuel f addr n i) Q s.
Proof.
  revert s a X x i. induction fuel as [|fuel IH]; intros s a X x i O Hnd Hndev Hi Hfuel Hoff Hmax Ha Hmem Hw Hcap He HQ; cbn [filewrite_loop];
    (destruct (Z.ltb_spec i n) as [Hlt|Hge];
      [|assert (i = n) as -> by lia; apply wp_ret, (HQ a X); unfold bytes_at; rewrite Z.sub_diag; by apply file_written_nil]); [lia|].
  set (n1 := Z.min (n - i) write_max). assert (Hn1 : 0 < n1 ≤ write_max) by (change write_max with 6656 in *; lia).
  rewrite (u32_small (addr + i)) by lia. cbv zeta.
  assert (Hn1' : n1 ≤ n - i ∧ n - i - n1 ≤ Z.of_nat fuel * write_max) by (change write_max with 6656 in *; lia).
  eapply (filewrite_step s a X f x k (addr + i) n1 (30 * fuel)); try done; try lia; [eapply enough_weaken; [|exact He]; lia|].
  intros a1 X1 s1 W1 He1. rewrite (proj2 (Z.ltb_ge n1 0)), Z.eqb_refl by lia. apply wp_bind, wp_panic_if; [done|].
  assert (Hlen : Z.of_nat (length (bytes_at s (addr + i) n1)) = n1) by (rewrite length_bytes_at; lia).
  pose proof W1 as [O1 T1 D1 S1 _ U1]. rewrite Hlen in *.
  eapply (IH s1 a1 X1 _ (i + n1) O1); rewrite ?T1, ?U1; simpl; try done; try lia.
  intros a2 X2 s2 W2. apply (HQ a2 X2). rewrite (bytes_at_split s (addr + i) n1) by lia.
  eapply file_written_trans; [|lia|exact W1|].
  - unfold fdata. rewrite length_content. lia.
  - rewrite Hlen. unfold bytes_at in *. rewrite U1 in W2. replace (addr + i + n1) with (addr + (i + n1)) by lia.
    by replace (n - i - n1) with (n - (i + n1)) by lia.
Qed.

(** C8: write() on a file writes the bytes of the process. For a file of the
    file system, open for writing, with an offset inside it and room up to the
    largest file size, filewrite() returns n, the bytes replace those at the
    offset whatever the number of transactions they are split into, the offset
    moves by n, no other file changes, and the file system is consistent and
    outside of any transaction. *)
Theorem filewrite_correct s a X f x k addr n :
  open_at a X s f x k → fl_type x = FD_INODE → fl_writable x = true → di_type (X k) ≠ T_DIR → di_type (X k) ≠ T_DEV →
  0 ≤ n → 0 ≤ fl_off x ≤ di_size (X k) → fl_off x + n ≤ MAXFILE * BS →
  0 ≤ addr → addr + n ≤ Z.of_nat (length (u_mem (y_user s))) → addr + n < 2 ^ 32 →
  (22 ≤ tx_cap)%nat → enough (30 * Z.to_nat (n / write_max + 1)) a sb →
  wp (filewrite dev_write f addr n) (λ r s', r = n ∧ ∃ a' X', file_written a X s f x k (bytes_at s addr n) a' X' s') s.
Proof.
  intros O Ht Hwr Hnd Hndev Hn Hoff Hmax Ha Hmem Hw Hcap He. unfold filewrite. apply wp_bind. unfold wp at 1, rdf. rewrite (oa_file _ _ _ _ _ _ O).
  rewrite Hwr, Ht. cbn [negb]. apply wp_bind. assert (Hdiv : n ≤ Z.of_nat (Z.to_nat (n / write_max + 1)) * write_max).
  { change write_max with 6656. pose proof (Z.div_mod n 6656 ltac:(lia)). pose proof (Z.mod_pos_bound n 6656). pose proof (Z.div_pos n 6656). lia. }
  eapply (filewrite_loop_spec _ s a X f x k addr n 0); try done; rewrite ?Z.sub_0_r, ?Z.add_0_r; try lia.
  intros a' X' s' W. rewrite Z.eqb_refl. apply wp_ret. split; [done|]. by exists a', X'.
Qed.
End write.
