(* ===== verification/SysDemo.v ===== *)
(** * System calls on a small machine

    The file system of FsDemo.v, two free pages and one process: the theorems
    about system calls on it, and two runs that show bugs. *)

From S2P Require Import Prelude Bytes Mem Spinlock Str Pipe Kalloc Bio BioView Log LogCrash Tx LogTx Fs FsBlock FsFile FsInv FsWritei FsDir FsPath FsThms FsDemo Syscall File FileInv Sysfile FileSpec SysfileInv SysfileThms FileWrite.

#[local] Existing Instance demo_laws.

(** A process of [sz] bytes whose stack pointer is 0: the arguments follow. *)
Definition arg_mem (args : list Z) (sz : nat) : list Z := pad sz (concat (le_bytes 4 <$> 0 :: args)).
Definition demo_user (args : list Z) (sz : nat) : user := mkUser (Z.of_nat sz) (arg_mem args sz) 0 0.

(** No file is open. *)
Definition demo_sys (u : user) : sys log :=
  mkSys (demo_fs fs_log) kmem2 (replicate NFILE file0) ∅ (replicate NOFILE None) 0 u false [].

Lemma demo_closed u : closed_all (demo_sys u).
Proof. by split. Qed.

Lemma demo_pool : kinv kend0 [page_a; page_b] [] true (kmem2, []).
Proof. exists [page_a; page_b]. split; [exact kmem2_free|]. split; [apply hw0_ready|]. split; [done|constructor]. Qed.

Lemma demo_pages : NoDup [page_a; page_b].
Proof. repeat constructor; set_solver. Qed.

(** ** pipe() *)

Definition demo_pipe : sys log :=
  match sys_pipe kend0 (demo_sys (demo_user [32] 64)) with Done _ s => s | _ => demo_sys (demo_user [] 64) end.

Lemma demo_pipe_run : sys_pipe kend0 (demo_sys (demo_user [32] 64)) = Done 0 demo_pipe.
Proof. vm_compute. reflexivity. Qed.

Lemma demo_pipe_reached : rtc (fstep kend0 no_read no_write) (demo_sys (demo_user [32] 64), [], []) (demo_pipe, [], []).
Proof. apply rtc_once. apply (fs_call kend0 no_read no_write SYS_pipe _ _ 0 _ _ _ eq_refl demo_pipe_run). Qed.

Lemma descriptors_counted_witness : ∃ x, y_files demo_pipe !! 1%nat = Some x ∧ fl_type x = FD_PIPE ∧ fl_ref x = 1 ∧
  ∃ p, y_pipes demo_pipe !! fl_pipe x = Some p ∧ pi_writeopen p = true.
Proof.
  destruct (descriptors_counted kend0 no_read no_write [page_a; page_b] [] true [] (demo_sys (demo_user [32] 64)) demo_pipe [] []
    demo_pages (demo_closed _) demo_pool demo_pipe_reached) as [Hf _].
  eexists. split; [vm_compute; reflexivity|]. split; [reflexivity|]. split; [reflexivity|].
  destruct (Hf 1%nat _ ltac:(vm_compute; reflexivity)) as (_ & _ & Hp). exact (Hp eq_refl).
Defined.

(** Closing the write end of the pipe. *)
Lemma pipe_calls_complete_witness : wp (fileclose kend0 1) (λ _ _, True) demo_pipe.
Proof.
  eapply (pipe_calls_complete kend0 no_read no_write [page_a; page_b] [] true [] (demo_sys (demo_user [32] 64)) demo_pipe [] [] 1 _ 0 8
    demo_pages (demo_closed _) demo_pool demo_pipe_reached).
  - apply (list_elem_of_lookup_2 _ 1). vm_compute. reflexivity.
  - vm_compute. reflexivity.
  - reflexivity.
  - lia.
  - vm_compute. lia.
Defined.

(** ** write() *)

(** Entry 0 of the file table has the file of FsDemo.v open for both. *)
Definition open_file0 : file := mkFile FD_INODE 1 true true 0 1 0.
Definition demo_open (u : user) (t : log) : sys log :=
  mkSys (demo_fs t) kmem2 (<[0%nat := open_file0]> (replicate NFILE file0)) ∅ (<[0%nat := Some 0%nat]> (replicate NOFILE None)) 0 u false [].

Lemma demo_open_at u : open_at demo_live fs_sb fs_store demo_X (demo_open u fs_log) 0 open_file0 2.
Proof.
  split; [exact demo_tree|exact demo_fs_idle|reflexivity|]. exists (mkInode 1 2 1 false true file_d). split; [reflexivity|]. split; [done|reflexivity].
Qed.

Lemma demo_enough30 : enough 30 fs_store fs_sb.
Proof.
  exists (seqZ 60 30). split; [apply NoDup_seqZ|]. split; [reflexivity|]. intros b Hb.
  assert (Hall : forallb (λ c, negb (used fs_store fs_sb c) && (0 <=? c) && (c <? 100)) (seqZ 60 30) = true) by (vm_compute; reflexivity).
  rewrite forallb_forall in Hall. specialize (Hall b). rewrite <- list_elem_of_In in Hall. specialize (Hall Hb).
  apply andb_true_iff in Hall as [Hall H3%Z.ltb_lt]. apply andb_true_iff in Hall as [H1%negb_true_iff H2%Z.leb_le].
  split; [simpl; lia|exact H1].
Qed.

(** Four bytes at the start of the file. *)
Lemma filewrite_correct_witness :
  wp (filewrite no_write 0 4 4) (λ r s', r = 4 ∧ ∃ a' X', fdata a' (X' 2) = [1; 2; 3; 4; 111])
    (demo_open (demo_user [1 + 2 * 256 + 3 * 65536 + 4 * 16777216] 64) fs_log).
Proof.
  eapply wp_mono; [apply (filewrite_correct demo_live fs_sb no_write _ fs_store demo_X 0 open_file0 2 4 4 (demo_open_at _))|].
  - reflexivity.
  - reflexivity.
  - discriminate.
  - discriminate.
  - lia.
  - vm_compute. intuition discriminate.
  - vm_compute. discriminate.
  - lia.
  - vm_compute. discriminate.
  - lia.
  - vm_compute. lia.
  - exact demo_enough30.
  - intros r s' [-> (a' & X' & [_ _ Hd _ _ _])]. split; [reflexivity|]. exists a', X'. rewrite Hd. vm_compute. reflexivity.
Defined.

(** ** Two bugs *)

(** Argptr() takes the size as an int and does not reject a negative one.
    read(0, 4094, -1) of a process of 4096 bytes passes all checks, readi()
    takes the size as a huge unsigned number, and the kernel stores the file
    beyond the memory of the process. *)
Theorem sys_read_negative_overruns :
  let s := demo_open (demo_user [0; 4094; 4294967295] 4096) fs_log in
  u_sz (y_user s) = 4096 ∧ length (u_mem (y_user s)) = 4096%nat ∧ arg_rw s = Done (Some (0%nat, 4094, -1)) s ∧
  ∃ s', sys_read no_read s = Fault s'.
Proof.
  cbv zeta. split; [reflexivity|]. split; [vm_compute; reflexivity|]. split; [vm_compute; reflexivity|].
  eexists. vm_compute. reflexivity.
Qed.

(** Whoever else is in a transaction. *)
Fixpoint log_blocks (l : list Z) : M log unit :=
  match l with
  | [] => mret tt
  | b :: l =>
    i ← tx_bread 1 b;
    d ← tx_data i;
    tx_update i d;;
    tx_brelse i;;
    log_blocks l
  end.

Definition two_open : log := after begin_op (after begin_op fs_log).

(** Filewrite() puts up to (LOGSIZE-4)/2 = 13 blocks of data in one
    transaction, while begin_op() reserves MAXOPBLOCKS = 10 for it. With two
    other calls in progress, a write of 6656 bytes logs 16 blocks; the others
    then log 10 and 4 blocks, within their reservation, and log_write()
    panics. *)
Theorem filewrite_exceeds_reservation :
  lg_outstanding two_open = 2 ∧ lg_n two_open = 0 ∧
  ∃ s1 t1 t2, filewrite no_write 0 0 write_max (demo_open (demo_user [] (Z.to_nat 8192)) two_open) = Done write_max s1 ∧
    MAXOPBLOCKS < lg_n (f_tx (y_fs s1)) ∧
    log_blocks (seqZ 70 MAXOPBLOCKS) (f_tx (y_fs s1)) = Done tt t1 ∧
    log_blocks (seqZ 80 4) t1 = Panic "too big a transaction" t2.
Proof.
  split; [vm_compute; reflexivity|]. split; [vm_compute; reflexivity|]. do 3 eexists.
  split; [vm_compute; reflexivity|]. split; [vm_compute; reflexivity|]. split; [vm_compute; reflexivity|].
  vm_compute. reflexivity.
Qed.
