(* ===== verification/Exec.v ===== *)
(** * Loading programs (exec.c, loaduvm of vm.c, sys_exec of sysfile.c)

    The new image is built in a page directory of its own; the process changes
    only at the end. What exec() declares without initialising it (the headers
    on its stack) is a parameter. The theorems about exec() follow the model. *)

From S2P Require Import Prelude Bytes Mem Spinlock Str Pipe Kalloc Vm Bio BioView Log LogCrash Tx LogTx Fs FsBlock FsFile FsInv FsWritei FsDir FsPath FsThms FsDemo Syscall File FileInv.

Definition MAXARG : nat := 32.
Definition ELF_MAGIC : Z := 1179403647.
Definition ELF_PROG_LOAD : Z := 1.

(** struct elfhdr: 52 bytes. *)
Definition sizeof_elfhdr : Z := 52.
Definition elf_magic (e : list Z) : Z := get_le 4 e 0.
Definition elf_entry (e : list Z) : Z := get_le 4 e 24.
Definition elf_phoff (e : list Z) : Z := get_le 4 e 28.
Definition elf_phnum (e : list Z) : Z := get_le 2 e 44.

(** struct proghdr: 32 bytes. *)
Definition sizeof_proghdr : Z := 32.
Definition ph_type (p : list Z) : Z := get_le 4 p 0.
Definition ph_off (p : list Z) : Z := get_le 4 p 4.
Definition ph_vaddr (p : list Z) : Z := get_le 4 p 8.
Definition ph_filesz (p : list Z) : Z := get_le 4 p 16.
Definition ph_memsz (p : list Z) : Z := get_le 4 p 20.

(** The bits of the mode. *)
Definition o_x (mode : Z) : bool := Z.testbit mode 0.
Definition g_x (mode : Z) : bool := Z.testbit mode 3.
Definition u_x (mode : Z) : bool := Z.testbit mode 6.
Definition m_setuid (mode : Z) : bool := Z.testbit mode 9.

(** What exec() uses of struct proc. *)
Record image : Type := mkImage {
  e_pgdir : Z; e_sz : Z; e_eip : Z; e_esp : Z; e_uid : Z; e_gid : Z; e_name : list Z; e_kstack : Z;
}.
#[export] Instance image_eta : Eta image := λ e,
  mkImage (e_pgdir e) (e_sz e) (e_eip e) (e_esp e) (e_uid e) (e_gid e) (e_name e) (e_kstack e).

Record exs (T : Type) : Type := mkExs { x_fs : fs T; x_km : kmem; x_img : image }.
Arguments mkExs {T}.
Arguments x_fs {T}.
Arguments x_km {T}.
Arguments x_img {T}.
#[export] Instance exs_eta {T} : Eta (exs T) := λ s, mkExs (x_fs s) (x_km s) (x_img s).

Section exec.
Context {T : Type} `{!TxOps T} (kend kdata : Z).
Context (dev_read : Z → option (nat → Z → M (fs T) (Z * list Z))).
(** elf and ph before they are read. *)
Context (elf0 ph0 : list Z).
Abbreviation X := (M (exs T)).

Definition xfs {A} (m : M (fs T) A) : X A := lift x_fs (λ t s, s <| x_fs := t |>) m.
Definition xkm {A} (m : M kmem A) : X A := lift x_km (λ k s, s <| x_km := k |>) m.

(** The loop of loaduvm(). *)
Fixpoint load_loop (fuel : nat) (pgdir addr : Z) (ip : nat) (offset sz i : Z) : X Z :=
  if i <? sz then
    match fuel with
    | O => nofuel
    | S fuel =>
      pte ← xkm (walkpgdir pgdir (u32 (addr + i)) false);
      panic_if (pte =? 0) "loaduvm: address should exist";;
      e ← xkm (rd32 pte);
      let pa := PTE_ADDR e in
      let n := if sz - i <? PGSIZE then sz - i else PGSIZE in
      r ← xfs (readi dev_read ip (u32 (offset + i)) n);
      xkm (copy_to (p2v pa) r.2);;
      if negb (u32 r.1 =? n) then mret (-1)
      else load_loop fuel pgdir addr ip offset sz (u32 (i + PGSIZE))
    end
  else mret 0.

Definition loaduvm (pgdir addr : Z) (ip : nat) (offset sz : Z) : X Z :=
  panic_if (negb (addr mod PGSIZE =? 0)) "loaduvm: addr must be page aligned";;
  load_loop (Z.to_nat (sz / PGSIZE + 1)) pgdir addr ip offset sz 0.

(** A program header that says load: the new size, or None for bad. *)
Definition load_seg (pgdir : Z) (ip : nat) (ph : list Z) (sz : Z) : X (option Z) :=
  if ph_memsz ph <? ph_filesz ph then mret None
  else
    sz ← xkm (allocuvm kend pgdir sz (u32 (ph_vaddr ph + ph_memsz ph)));
    if sz =? 0 then mret None
    else
      r ← loaduvm pgdir (ph_vaddr ph) ip (ph_off ph) (ph_filesz ph);
      if r <? 0 then mret None else mret (Some sz).

(** The loop over the program headers. *)
Fixpoint load_segs (n : nat) (pgdir : Z) (ip : nat) (off sz : Z) : X (option Z) :=
  match n with
  | O => mret (Some sz)
  | S n =>
    r ← xfs (readi dev_read ip (u32 off) sizeof_proghdr);
    if negb (u32 r.1 =? sizeof_proghdr) then mret None
    else
      let ph := splice ph0 0 r.2 in
      sz ← (if negb (ph_type ph =? ELF_PROG_LOAD) then mret (Some sz) else load_seg pgdir ip ph sz);
      match sz with
      | None => mret None
      | Some sz => load_segs n pgdir ip (s32 (off + sizeof_proghdr)) sz
      end
  end.

(** The loop that copies the arguments: the stack pointer and the addresses. *)
Fixpoint push_args (pgdir : Z) (argv : list (list Z)) (argc : nat) (sp : Z) (ustack : list Z) : X (option (Z * list Z)) :=
  match argv with
  | [] => mret (Some (sp, ustack))
  | a :: argv =>
    if (MAXARG <=? argc)%nat then mret None
    else
      let sp := Z.land (u32 (sp - (Z.of_nat (length a) + 1))) 4294967292 in
      r ← xkm (copyout pgdir sp (a ++ [0]));
      if r <? 0 then mret None else push_args pgdir argv (S argc) sp (ustack ++ [sp])
  end.

(** The user stack: a page that is not accessible, and one for the stack. *)
Definition push_stack (pgdir sz : Z) (argv : list (list Z)) : X (option (Z * Z)) :=
  let sz := PGROUNDUP sz in
  sz ← xkm (allocuvm kend pgdir sz (u32 (sz + 2 * PGSIZE)));
  if sz =? 0 then mret None
  else
    xkm (clearpteu pgdir (u32 (sz - 2 * PGSIZE)));;
    r ← push_args pgdir argv 0 sz [];
    match r with
    | None => mret None
    | Some (sp, args) =>
      let argc := Z.of_nat (length args) in
      let ustack := [4294967295; argc; u32 (sp - (argc + 1) * 4)] ++ args ++ [0] in
      let sp := u32 (sp - (3 + argc + 1) * 4) in
      r ← xkm (copyout pgdir sp (concat (le_bytes 4 <$> ustack)));
      if r <? 0 then mret None else mret (Some (sz, sp))
    end.

(** The last component of the path. *)
Fixpoint last_name (s last : list Z) : list Z :=
  match s with
  | [] => last
  | c :: s => last_name s (if c =? slash then s else last)
  end.

(** The label bad, with ip locked or 0. *)
Definition exec_bad (pgdir : Z) (ip : option nat) : X Z :=
  when (negb (pgdir =? 0)) (xkm (freevm kend pgdir));;
  match ip with
  | Some ip => xfs (iunlockput ip);; xfs (ft tx_end_op)
  | None => mret tt
  end;;
  mret (-1).

(** stat.uid, gid and mode permit the process to execute the file. *)
Definition may_exec (st : stat) (p : image) : bool :=
  if (st_uid st =? e_uid p) && u_x (st_mode st) then true
  else if (st_gid st =? e_gid p) && g_x (st_mode st) then true
  else o_x (st_mode st).

(** switchuvm(proc) on the new page directory. *)
Definition exec_switch : X unit :=
  xkm (km_hwop pushcli);;
  p ← gets x_img;
  xkm (km_hwop (modify (λ h, h <| h_cpu ::= λ c, c <| c_esp0 := u32 (e_kstack p + 4096) |> |>)));;
  panic_if (e_pgdir p =? 0) "switchuvm: no pgdir";;
  xkm (km_hwop (modify (λ h, h <| h_cpu ::= λ c, c <| c_cr3 := v2p (e_pgdir p) |> |>)));;
  xkm (km_hwop popcli).

(** From the comment "Save program name" on. *)
Definition exec_commit (path : list Z) (st : stat) (pgdir sz entry sp : Z) : X Z :=
  p ← gets x_img;
  match safestrcpy (e_name p) (last_name path path ++ [0]) 16 with
  | None => fault
  | Some name =>
    let oldpgdir := e_pgdir p in
    modify (λ s, s <| x_img ::= λ p, p <| e_name := name |> <| e_pgdir := pgdir |> <| e_sz := sz |> <| e_eip := entry |>
      <| e_esp := sp |> <| e_uid := if m_setuid (st_mode st) then st_uid st else e_uid p |> |>);;
    exec_switch;;
    xkm (freevm kend oldpgdir);;
    mret 0
  end.

(** exec(path, argv): argv without its null pointer. *)
Definition exec (cwd : nat) (path : list Z) (argv : list (list Z)) : X Z :=
  xfs (ft tx_begin_op);;
  r ← xfs (namei dev_read cwd path);
  match r with
  | None => xfs (ft tx_end_op);; mret (-1)
  | Some ip =>
    xfs (ilock ip);;
    st ← xfs (stati ip);
    p ← gets x_img;
    if negb (may_exec st p) then exec_bad 0 (Some ip)
    else
      r ← xfs (readi dev_read ip 0 sizeof_elfhdr);
      let elf := splice elf0 0 r.2 in
      if u32 r.1 <? sizeof_elfhdr then exec_bad 0 (Some ip)
      else if negb (elf_magic elf =? ELF_MAGIC) then exec_bad 0 (Some ip)
      else
        pgdir ← xkm (setupkvm kdata);
        if pgdir =? 0 then exec_bad 0 (Some ip)
        else
          sz ← load_segs (Z.to_nat (elf_phnum elf)) pgdir ip (s32 (elf_phoff elf)) 0;
          match sz with
          | None => exec_bad pgdir (Some ip)
          | Some sz =>
            xfs (iunlockput ip);;
            xfs (ft tx_end_op);;
            r ← push_stack pgdir sz argv;
            match r with
            | None => exec_bad pgdir None
            | Some (sz, sp) => exec_commit path st pgdir sz (elf_entry elf) sp
            end
          end
  end.
End exec.

(** ** sys_exec() *)

(** The loop over argv: None for -1. *)
Fixpoint fetch_argv (n : nat) (uargv i : Z) : M user (option (list (list Z))) :=
  match n with
  | O => mret None
  | S n =>
    r ← fetchint (u32 (uargv + 4 * i));
    match r with
    | None => mret None
    | Some uarg =>
      if uarg =? 0 then mret (Some [])
      else
        a ← fetchstr (u32 uarg);
        match a with
        | None => mret None
        | Some a => l ← fetch_argv n uargv (i + 1); mret (cons a <$> l)
        end
    end
  end.

(** The arguments sys_exec() passes to exec(). *)
Definition sys_exec_args : M user (option (list Z * list (list Z))) :=
  path ← argstr 0;
  match path with
  | None => mret None
  | Some path =>
    uargv ← argint 1;
    match uargv with
    | None => mret None
    | Some uargv =>
      l ← fetch_argv MAXARG (u32 uargv) 0;
      mret (pair path <$> l)
    end
  end.

(** exec() works on the kernel, the arguments come from the process. *)
Section sys_exec.
Context {T : Type} `{!TxOps T} (kend kdata : Z).
Context (dev_read : Z → option (nat → Z → M (fs T) (Z * list Z))) (elf0 ph0 : list Z).

Definition sys_exec (cwd : nat) : M (exs T * user) Z :=
  a ← lift snd (λ u s, (s.1, u)) sys_exec_args;
  match a with
  | None => mret (-1)
  | Some (path, argv) => lift fst (λ x s, (x, s.2)) (exec kend kdata dev_read elf0 ph0 cwd path argv)
  end.
End sys_exec.

(** ** The theorems about exec() *)

Section keeps.
Context {T : Type} `{!TxOps T} (kend kdata : Z).
Context (dev_read : Z → option (nat → Z → M (fs T) (Z * list Z))) (elf0 ph0 : list Z).
Implicit Types s : exs T.

(** [m] does not change the process, where it returns. *)
Definition keeps_img {A} (m : M (exs T) A) : Prop := ∀ s, wlp m (λ _ s', x_img s' = x_img s) (λ _, True) s.

Lemma img_ret {A} (a : A) : keeps_img (mret a).
Proof. by intros s. Qed.
Lemma img_bind {A B} (m : M (exs T) A) (f : A → M (exs T) B) : keeps_img m → (∀ a, keeps_img (f a)) → keeps_img (m ≫= f).
Proof.
  intros Hm Hf s. apply wlp_bind. eapply wlp_mono; [apply Hm|]. intros a s' E. cbv beta in E. rewrite <- E. apply Hf.
Qed.
Lemma img_xfs {A} (m : M (fs T) A) : keeps_img (xfs m).
Proof. intros s. unfold wlp, xfs, lift. by destruct (m (x_fs s)). Qed.
Lemma img_xkm {A} (m : M kmem A) : keeps_img (xkm m).
Proof. intros s. unfold wlp, xkm, lift. by destruct (m (x_km s)). Qed.
Lemma img_panic_if c msg : keeps_img (panic_if c msg).
Proof. intros s. by destruct c. Qed.
Lemma img_when c m : keeps_img m → keeps_img (when c m).
Proof. intros Hm s. destruct c; [apply Hm|done]. Qed.
Lemma img_nofuel {A} : keeps_img (nofuel : M (exs T) A).
Proof. by intros s. Qed.
Lemma img_gets {A} (f : exs T → A) : keeps_img (gets f).
Proof. by intros s. Qed.
End keeps.

Create HintDb img.
#[export] Hint Resolve img_ret img_xfs img_xkm img_panic_if img_when img_nofuel img_gets : img.

(** [keeps] follows the structure of the code. *)
Ltac keeps :=
  repeat match goal with
  | |- keeps_img (_ ≫= _) => apply img_bind; [|intros ?]
  | |- keeps_img (match ?x with _ => _ end) => destruct x
  | |- keeps_img (if ?x then _ else _) => destruct x
  | |- keeps_img (let _ := _ in _) => cbv zeta
  | |- keeps_img _ => by auto with img
  end.

Section exec.
Context {T : Type} `{!TxOps T} (kend kdata : Z).
Context (dev_read : Z → option (nat → Z → M (fs T) (Z * list Z))) (elf0 ph0 : list Z).
Implicit Types s : exs T.

Lemma keeps_load_loop fuel pgdir addr ip offset sz i : keeps_img (load_loop dev_read fuel pgdir addr ip offset sz i).
Proof. revert i. induction fuel as [|fuel IH]; intros i; simpl; keeps. Qed.

Lemma keeps_load_seg pgdir ip ph sz : keeps_img (load_seg kend dev_read pgdir ip ph sz).
Proof. unfold load_seg, loaduvm. pose proof keeps_load_loop. keeps. Qed.

Lemma keeps_load_segs n pgdir ip off sz : keeps_img (load_segs kend dev_read ph0 n pgdir ip off sz).
Proof. pose proof keeps_load_seg. revert off sz. induction n as [|n IH]; intros off sz; simpl; keeps. Qed.

Lemma keeps_push_args pgdir argv argc sp us : keeps_img (push_args pgdir argv argc sp us : M (exs T) _).
Proof. revert argc sp us. induction argv as [|a argv IH]; intros argc sp us; simpl; keeps. Qed.

Lemma keeps_push_stack pgdir sz argv : keeps_img (push_stack kend pgdir sz argv : M (exs T) _).
Proof. unfold push_stack. pose proof keeps_push_args. keeps. Qed.

Lemma keeps_exec_bad pgdir ip : keeps_img (exec_bad kend pgdir ip : M (exs T) _).
Proof. unfold exec_bad. keeps. Qed.

Lemma keeps_exec_switch : keeps_img (exec_switch : M (exs T) unit).
Proof. unfold exec_switch. keeps. Qed.

Lemma exec_bad_returns pgdir ip s : wlp (exec_bad kend pgdir ip) (λ r s', r = -1 ∧ x_img s' = x_img s) (λ _, True) s.
Proof.
  pose proof (keeps_exec_bad pgdir ip s) as Hk. unfold wlp in *. destruct (exec_bad kend pgdir ip s) as [r s'| | | |] eqn:E; try done. split; [|done].
  unfold exec_bad, mbind, M_bind in E. repeat case_match; try done; unfold mret, M_ret in E; congruence.
Qed.

(** The process after a successful exec(): a new image, and the user of the
    file when it has the setuid bit. *)
Definition became (st : stat) (p p' : image) : Prop :=
  e_gid p' = e_gid p ∧ e_kstack p' = e_kstack p ∧ e_uid p' = if m_setuid (st_mode st) then st_uid st else e_uid p.

Lemma exec_commit_returns path st pgdir sz entry sp s :
  wlp (exec_commit kend path st pgdir sz entry sp) (λ r s', r = 0 ∧ became st (x_img s) (x_img s') ∧ e_pgdir (x_img s') = pgdir ∧
    e_sz (x_img s') = sz ∧ e_eip (x_img s') = entry ∧ e_esp (x_img s') = sp) (λ _, True) s.
Proof.
  unfold exec_commit. apply wlp_bind, wlp_wp, wp_gets. destruct (safestrcpy _ _ _) as [name|]; [|done].
  apply wlp_bind, wlp_wp, wp_modify. apply wlp_bind. eapply wlp_mono; [apply keeps_exec_switch|]. intros [] s1 E1. cbv beta in E1.
  apply wlp_bind. eapply wlp_mono; [apply img_xkm|]. intros [] s2 E2. cbv beta in E2. apply wlp_wp, wp_ret. rewrite E2, E1. by split_and!.
Qed.

(** exec() after the file is locked and its attributes were read. *)
Definition exec_rest (path : list Z) (argv : list (list Z)) (ip : nat) (st : stat) : M (exs T) Z :=
  p ← gets x_img;
  if negb (may_exec st p) then exec_bad kend 0 (Some ip)
  else
    r ← xfs (readi dev_read ip 0 sizeof_elfhdr);
    let elf := splice elf0 0 r.2 in
    if u32 r.1 <? sizeof_elfhdr then exec_bad kend 0 (Some ip)
    else if negb (elf_magic elf =? ELF_MAGIC) then exec_bad kend 0 (Some ip)
    else
      pgdir ← xkm (setupkvm kdata);
      if pgdir =? 0 then exec_bad kend 0 (Some ip)
      else
        sz ← load_segs kend dev_read ph0 (Z.to_nat (elf_phnum elf)) pgdir ip (s32 (elf_phoff elf)) 0;
        match sz with
        | None => exec_bad kend pgdir (Some ip)
        | Some sz =>
          xfs (iunlockput ip);;
          xfs (ft tx_end_op);;
          r ← push_stack kend pgdir sz argv;
          match r with
          | None => exec_bad kend pgdir None
          | Some (sz, sp) => exec_commit kend path st pgdir sz (elf_entry elf) sp
          end
        end.

(** What exec() may do to the process, given the attributes of the file. *)
Definition exec_result (st : stat) (p : image) (r : Z) (p' : image) : Prop :=
  (r = -1 ∧ p' = p) ∨ (r = 0 ∧ may_exec st p = true ∧ became st p p').

Lemma exec_bad_result st p pgdir ip s : x_img s = p →
  wlp (exec_bad kend pgdir ip) (λ r s', exec_result st p r (x_img s')) (λ _, True) s.
Proof. intros <-. eapply wlp_mono; [apply exec_bad_returns|]. intros r s' [-> E]. by left. Qed.

Lemma exec_rest_result path argv ip st s :
  wlp (exec_rest path argv ip st) (λ r s', exec_result st (x_img s) r (x_img s')) (λ _, True) s.
Proof.
  unfold exec_rest. apply wlp_bind, wlp_wp, wp_gets. destruct (may_exec st (x_img s)) eqn:Hm; cbn [negb]; [|by apply exec_bad_result].
  apply wlp_bind. eapply wlp_mono; [apply img_xfs|]. intros r s1 E1. cbv beta zeta in *.
  destruct (_ <? _); [by apply exec_bad_result|]. destruct (negb _); [by apply exec_bad_result|].
  apply wlp_bind. eapply wlp_mono; [apply img_xkm|]. intros pgdir s2 E2. cbv beta in E2. rewrite E1 in E2.
  destruct (_ =? _); [by apply exec_bad_result|].
  apply wlp_bind. eapply wlp_mono; [apply keeps_load_segs|]. intros [sz|] s3 E3; cbv beta in E3; rewrite E2 in E3; [|by apply exec_bad_result].
  apply wlp_bind. eapply wlp_mono; [apply img_xfs|]. intros [] s4 E4. cbv beta in E4. rewrite E3 in E4.
  apply wlp_bind. eapply wlp_mono; [apply img_xfs|]. intros [] s5 E5. cbv beta in E5. rewrite E4 in E5.
  apply wlp_bind. eapply wlp_mono; [apply keeps_push_stack|]. intros [[sz' sp]|] s6 E6; cbv beta in E6; rewrite E5 in E6; [|by apply exec_bad_result].
  eapply wlp_mono; [apply exec_commit_returns|]. intros r' s7 (-> & Hb & _). right. rewrite E6 in Hb. by split_and!.
Qed.
End exec.

Section thms.
Context {T : Type} `{!TxOps T} `{!TxLaws T} (kend kdata : Z).
Context (dev_read : Z → option (nat → Z → M (fs T) (Z * list Z))) (elf0 ph0 : list Z).

(** stati() of an inode with these attributes. *)
Definition stat_of (k : Z) (x : dinode) : stat :=
  mkStat (di_type x) (s32 tx_dev) k (di_nlink x) (di_size x) (di_uid x) (di_gid x) (di_mode x).

Lemma xfs_done {A B} (m : M (fs T) A) (f : A → M (exs T) B) (s : exs T) r t :
  m (x_fs s) = Done r t → (xfs m ≫= f) s = f r (s <| x_fs := t |>).
Proof. intros H. unfold mbind, M_bind, xfs, lift. by rewrite H. Qed.

Section run.
Context (s : exs T) (a : store) (sb : superblock) (live : Z → Prop) (X : Z → dinode) (cwd : nat) (ip : inode) (path : list Z) (argv : list (list Z)).
Context (HT : fs_tree a sb live X) (J : idle live X a false [] sb (x_fs s)) (Hcwd : f_inodes (x_fs s) !! cwd = Some ip) (Hp : 0 < i_ref ip)
  (Hfree : 2 ≤ nfree (f_inodes (x_fs s))) (H0 : 0 ∉ path).
Abbreviation m := (exec kend kdata dev_read elf0 ph0 cwd path argv).
Abbreviation rest := (exec_rest kend kdata dev_read elf0 ph0 path argv).
Abbreviation counts l := (∀ q, refs q l = refs q (f_inodes (x_fs s))).

(** After begin_op() and namei(). *)
Lemma exec_lookup : ∃ r t, idle live X a true [] sb t ∧
  m s = (match r with
    | None => xfs (ft tx_end_op);; mret (-1)
    | Some i => xfs (ilock i);; st ← xfs (stati i); rest i st
    end) (s <| x_fs := t |>) ∧
  match resolve X a false (start path ip) (components path) with
  | None => r = None ∧ counts (f_inodes t)
  | Some k => ∃ j jp, r = Some j ∧ f_inodes t !! j = Some jp ∧ 0 < i_ref jp ∧ i_inum jp = k ∧ counts (dropped j (f_inodes t))
  end.
Proof.
  destruct J as (V & E & IC). assert (W : wp (ft tx_begin_op) (λ _ t, idle live X a true [] sb t ∧ f_inodes t = f_inodes (x_fs s)) (x_fs s)).
  { eapply wp_fbegin; [exact V|]. intros t V1 E1 F1. split; [|done]. split_and!; [done|congruence|by rewrite F1]. }
  apply wp_done in W as ([] & t1 & R1 & J1 & F1).
  assert (W : wp (namei dev_read cwd path) (λ r t, idle live X a true [] sb t ∧ match resolve X a false (start path ip) (components path) with
    | None => r = None ∧ counts (f_inodes t)
    | Some k => ∃ j jp, r = Some j ∧ f_inodes t !! j = Some jp ∧ 0 < i_ref jp ∧ i_inum jp = k ∧ counts (dropped j (f_inodes t))
    end) t1).
  { unfold namei. apply wp_bind. eapply namex_spec; try done; [by rewrite F1|by rewrite F1|]. rewrite F1. intros r t2 J2 R2. apply wp_ret. split; [done|].
    destruct (resolve _ _ _ _ _) as [k|]; [destruct R2 as (j & jp & ? & ? & ? & ? & _ & ?); by exists j, jp|by destruct R2 as [? [_ ?]]]. }
  apply wp_done in W as (r & t2 & R2 & J2 & HR). exists r, t2. split; [done|]. split; [|done].
  unfold exec. rewrite (xfs_done _ _ _ _ _ R1). etransitivity; [exact (xfs_done (namei dev_read cwd path) _ (s <| x_fs := t1 |>) _ _ R2)|]. by destruct r.
Qed.

(** After ilock() and stati(). *)
Lemma exec_locked t j jp : idle live X a true [] sb t → f_inodes t !! j = Some jp → 0 < i_ref jp →
  ∃ t' jp', (xfs (ilock j);; st ← xfs (stati j); rest j st) (s <| x_fs := t |>) = rest j (stat_of (i_inum jp) (X (i_inum jp))) (s <| x_fs := t' |>) ∧
    fview t' a true [] [] ∧ f_sb t' = sb ∧ ic_ok live X (Some j) (f_inodes t') ∧ f_inodes t' !! j = Some jp' ∧ 0 < i_ref jp' ∧
    same_counts (dropped j (f_inodes t)) (dropped j (f_inodes t')).
Proof.
  intros Jt Hj Hpj. pose proof HT as [I S Hty Hln _ _ _].
  assert (W : wp (ilock j) (λ _ t', ∃ jp', opened t' a true [] sb live X j jp' ∧ ic_ok live X (Some j) (f_inodes t') ∧
    f_inodes t' = <[j := jp']> (f_inodes t) ∧ i_inum jp' = i_inum jp ∧ i_ref jp' = i_ref jp) t).
  { eapply (ilock_spec live X a true [] sb I S ltac:(simpl; lia) Hty Hln); [done..|]. intros t' jp' O IC F N R _ _. by exists jp'. }
  apply wp_done in W as ([] & t' & R1 & jp' & [V E _ _ _ Hj' Hd Hx] & IC & F & N & R). exists t', jp'. split.
  - etransitivity; [exact (xfs_done (ilock j) _ (s <| x_fs := t |>) _ _ R1)|]. assert (Hst : stati j t' = Done (stat_of (i_inum jp) (X (i_inum jp))) t').
    { unfold stati, mbind, M_bind, rdi. rewrite Hj'. unfold stat_of, mret, M_ret. by rewrite Hx, Hd, N. }
    exact (xfs_done (stati j) _ (s <| x_fs := t |> <| x_fs := t' |>) _ _ Hst).
  - split_and!; [done|done|done|done|lia|]. rewrite F. by apply locked_counts with jp.
Qed.

(** Leaving through bad with the file locked. *)
Lemma exec_denied t j jp : fview t a true [] [] → f_sb t = sb → ic_ok live X (Some j) (f_inodes t) → f_inodes t !! j = Some jp → 0 < i_ref jp →
  counts (dropped j (f_inodes t)) →
  wp (exec_bad kend 0 (Some j)) (λ r s', r = -1 ∧ x_img s' = x_img s ∧ counts (f_inodes (x_fs s'))) (s <| x_fs := t |>).
Proof.
  intros V E IC Hj Hpj C. pose proof HT as [I S Hty Hln _ _ _]. unfold exec_bad, xfs. apply wp_bind, wp_ret. apply wp_bind, wp_bind, wp_lift. simpl.
  eapply (iunlockput_spec live X a true [] sb); [simpl; lia|done..|]. intros t' jp' (V' & E' & IC') F N R [_ C']. apply wp_lift. simpl.
  eapply wp_fend; [exact V'|]. intros t2 a2 _ _ _ F2. apply wp_ret. split_and!; [done|done|]. simpl. intros q. by rewrite F2, C'.
Qed.
End run.

(** The process may execute the file: as its owner, as a member of its group, or
    as anybody, by the bits of the mode. *)
Definition permitted (st : stat) (p : image) : Prop :=
  (st_uid st = e_uid p ∧ Z.testbit (st_mode st) 6 = true) ∨ (st_gid st = e_gid p ∧ Z.testbit (st_mode st) 3 = true) ∨
  Z.testbit (st_mode st) 0 = true.
#[local] Instance permitted_dec st p : Decision (permitted st p).
Proof. unfold permitted. apply _. Defined.

Lemma may_exec_permitted st p : may_exec st p = bool_decide (permitted st p).
Proof.
  apply eq_true_iff_eq. rewrite bool_decide_eq_true. unfold may_exec, permitted, u_x, g_x, o_x.
  destruct (Z.eqb_spec (st_uid st) (e_uid p)), (Z.eqb_spec (st_gid st) (e_gid p));
    destruct (Z.testbit _ 6), (Z.testbit _ 3), (Z.testbit _ 0); simpl; naive_solver.
Qed.

End thms.

(** ** On a small machine *)

#[local] Existing Instance demo_laws.

Definition image0 : image := mkImage 0 4096 0 4096 1 1 (pad 16 [115; 104]) page_a.

(** The file /f of FsDemo.v has mode 0: nobody may execute it. *)
Lemma demo_free : 2 ≤ nfree demo_inodes.
Proof. vm_compute. discriminate. Qed.

Lemma demo_resolve : resolve demo_X fs_store false (start [47; 102] (mkInode 1 1 1 false true root_d)) (components [47; 102]) = Some 2.
Proof. vm_compute. reflexivity. Qed.

Lemma demo_denied : ¬ permitted (stat_of 2 (demo_X 2)) image0.
Proof. vm_compute. intuition discriminate. Qed.


(** A page directory in which the first page of the kernel is mapped, as
    setupkvm() does, and two free pages. *)
Definition kdir : Z := page_b + 4096.
Definition ktab : Z := page_b + 8192.
Definition kernel_page : list Z := replicate (Z.to_nat PGSIZE) 144.
Definition kmem_k : kmem :=
  mkKmem hw0 true page_a
    (<[page_a := put_le 4 zero_page 0 page_b]> (<[page_b := put_le 4 zero_page 0 0]>
      (<[kdir := put_le 4 zero_page (4 * Z.to_nat (PDX KERNLINK)) (v2p ktab + 7)]>
        (<[ktab := put_le 4 zero_page (4 * Z.to_nat (PTX KERNLINK)) (v2p KERNLINK + 1)]> {[KERNLINK := kernel_page]})))).

(** A program header whose end vaddr + memsz wraps around to 4096. *)
Definition wrapping_ph : list Z :=
  concat (le_bytes 4 <$> [ELF_PROG_LOAD; 0; KERNLINK; 0; 4; 2 ^ 32 - KERNLINK + PGSIZE; 0; 0]).

(** Exec() does not check that vaddr + memsz wraps around. A program
    header with the address of the kernel and a size that wraps to one page
    passes: one page is allocated at 0, and the bytes of the file overwrite
    the first page of the kernel. *)
Theorem load_overwrites_kernel :
  ph_filesz wrapping_ph ≤ ph_memsz wrapping_ph ∧ u32 (ph_vaddr wrapping_ph + ph_memsz wrapping_ph) = PGSIZE ∧
  ∃ s', load_seg kend0 no_read kdir 1 wrapping_ph 0 (mkExs (demo_fs fs_log1) kmem_k image0) = Done (Some PGSIZE) s' ∧
    km_mem (x_km s') !! KERNLINK = Some (splice kernel_page 0 [104; 101; 108; 108]).
Proof.
  split; [vm_compute; discriminate|]. split; [vm_compute; reflexivity|]. eexists. split; [vm_compute; reflexivity|]. vm_compute. reflexivity.
Qed.
