(* ===== verification/Proc.v ===== *)
(** * The process table: data and state lists (proc.h, param.h, proc.c)

    The kernel is the build with CS333_PROJECT=5, in which CS333_P1, P2, P3P4
    and P5 are defined. A [struct proc *] is an index into ptable.proc, or
    [None] for the null pointer; the [next] fields link the state lists through
    the table, so the lists are modelled as the shared, mutable structure they
    are. Loops over a list take NPROC as fuel: a list visits a slot at most once
    ([ProcLists]), so the bound is never reached from a well-formed table. *)

From S2P Require Import Prelude Mem Spinlock Str.

(** ** Constants (param.h) *)

Definition NPROC : nat := 64.
Definition KSTACKSIZE : Z := 4096.
Definition NOFILE : nat := 16.
Definition MAX : Z := 6.
Definition TICKS_TO_PROMOTE : Z := 500.
Definition BUDGET : Z := 1700.
Definition DEFAULTUID : Z := 0.
Definition DEFAULTGID : Z := 0.
Definition ROOTDEV : Z := 1.

(** ** Data (proc.h, x86.h) *)

Inductive procstate : Type := UNUSED | EMBRYO | SLEEPING | RUNNABLE | RUNNING | ZOMBIE.
#[export] Instance procstate_eq_dec : EqDecision procstate.
Proof. solve_decision. Defined.

(** struct trapframe (padding left out). *)
Record trapframe : Type := mkTf {
  tf_edi : Z; tf_esi : Z; tf_ebp : Z; tf_oesp : Z; tf_ebx : Z; tf_edx : Z; tf_ecx : Z;
  tf_eax : Z; tf_gs : Z; tf_fs : Z; tf_es : Z; tf_ds : Z; tf_trapno : Z; tf_err : Z;
  tf_eip : Z; tf_cs : Z; tf_eflags : Z; tf_esp : Z; tf_ss : Z;
}.
#[export] Instance trapframe_eta : Eta trapframe := λ t,
  mkTf (tf_edi t) (tf_esi t) (tf_ebp t) (tf_oesp t) (tf_ebx t) (tf_edx t) (tf_ecx t)
    (tf_eax t) (tf_gs t) (tf_fs t) (tf_es t) (tf_ds t) (tf_trapno t) (tf_err t)
    (tf_eip t) (tf_cs t) (tf_eflags t) (tf_esp t) (tf_ss t).
Definition sizeof_trapframe : Z := 76.
Definition tf_zero : trapframe := mkTf 0 0 0 0 0 0 0 0 0 0 0 0 0 0 0 0 0 0 0.

(** The kernel code a saved context returns into. The only callers of
    swtch() on the process side are sched(), called by yield(), sleep() (from
    wait() or from elsewhere) and exit(), and a new process starts in
    forkret(). [ie] is the local variable intena of sched(). *)
Inductive resume : Type :=
| RForkret
| RYield (ie : bool)
| RSleep (lk : option lockid) (ie : bool)
| RWait (ie : bool)
| RExit (ie : bool).
Definition sizeof_context : Z := 20.

(** struct proc. [p_tf] is the frame p->tf points to and [p_tfptr] the
    pointer; [p_context] and [p_ctxptr] likewise. *)
Record proc : Type := mkProc {
  p_sz : Z;
  p_pgdir : Z;
  p_kstack : Z;
  p_state : procstate;
  p_pid : Z;
  p_parent : option nat;
  p_tf : trapframe;
  p_tfptr : Z;
  p_context : resume;
  p_ctxptr : Z;
  p_chan : chan;
  p_killed : Z;
  p_ofile : list (option nat);
  p_cwd : option nat;
  p_name : list Z;
  p_start_ticks : Z;
  p_uid : Z;
  p_gid : Z;
  p_cpu_ticks_total : Z;
  p_cpu_ticks_in : Z;
  p_next : option nat;
  p_prio : Z;
  p_budget : Z;
}.
#[export] Instance proc_eta : Eta proc := λ p,
  mkProc (p_sz p) (p_pgdir p) (p_kstack p) (p_state p) (p_pid p) (p_parent p) (p_tf p)
    (p_tfptr p) (p_context p) (p_ctxptr p) (p_chan p) (p_killed p) (p_ofile p) (p_cwd p)
    (p_name p) (p_start_ticks p) (p_uid p) (p_gid p) (p_cpu_ticks_total p)
    (p_cpu_ticks_in p) (p_next p) (p_prio p) (p_budget p).

(** A slot of the zero-initialised table. *)
Definition proc_zero : proc :=
  mkProc 0 0 0 UNUSED 0 None tf_zero 0 RForkret 0 ChNull 0 (replicate NOFILE None) None
    (replicate 16 0) 0 0 0 0 0 None 0 0.

(** struct StateLists: the heads of the state lists. *)
Record StateLists : Type := mkLists {
  l_ready : list (option nat);
  l_free : option nat;
  l_sleep : option nat;
  l_zombie : option nat;
  l_running : option nat;
  l_embryo : option nat;
}.
#[export] Instance StateLists_eta : Eta StateLists := λ l,
  mkLists (l_ready l) (l_free l) (l_sleep l) (l_zombie l) (l_running l) (l_embryo l).

(** A [struct proc **sList]: which list head is meant. *)
Inductive slist : Type := SReady (i : nat) | SFree | SSleep | SZombie | SRunning | SEmbryo.
#[export] Instance slist_eq_dec : EqDecision slist.
Proof. solve_decision. Defined.

(** ** The rest of the kernel, as far as proc.c calls it

    What proc.c uses of kalloc.c, vm.c, file.c, fs.c and log.c, over the state
    [E] of those components. An operation that calls wakeup() returns the
    channels it woke. Addresses are [Z] with 0 for null. *)
Class KEnv (E : Type) : Type := {
  e_kalloc : M E Z;
  e_kfree : Z → M E unit;
  e_setupkvm : M E Z;
  e_inituvm : Z → M E unit;
  e_copyuvm : Z → Z → M E Z;
  e_freevm : Z → M E unit;
  e_allocuvm : Z → Z → Z → M E Z;
  e_deallocuvm : Z → Z → Z → M E Z;
  e_filedup : nat → M E unit;
  e_fileclose : nat → M E (list chan);
  e_idup : nat → M E unit;
  e_iput : nat → M E (list chan);
  e_begin_op : M E unit;
  e_end_op : M E (list chan);
  e_namei_root : M E (option nat);
  e_iinit : M E unit;
  e_initlog : M E unit;
}.

(** ** The state of proc.c

    The calling CPU and the locks, ptable, and the static variables
    initproc, nextpid and forkret()'s [first], with the global ticks. *)
Record kstate (E : Type) : Type := mkK {
  k_hw : hw;
  k_procs : list proc;
  k_lists : StateLists;
  k_promote : Z;
  k_initproc : option nat;
  k_nextpid : Z;
  k_first : bool;
  k_ticks : Z;
  k_env : E;
}.
Arguments mkK {E}.
Arguments k_hw {E}. Arguments k_procs {E}. Arguments k_lists {E}. Arguments k_promote {E}.
Arguments k_initproc {E}. Arguments k_nextpid {E}. Arguments k_first {E}.
Arguments k_ticks {E}. Arguments k_env {E}.
#[export] Instance kstate_eta {E} : Eta (kstate E) := λ s,
  mkK (k_hw s) (k_procs s) (k_lists s) (k_promote s) (k_initproc s) (k_nextpid s) (k_first s)
    (k_ticks s) (k_env s).

Section base.
Context {E : Type}.
Abbreviation K := (M (kstate E)).

Definition hwop {A} (m : M hw A) : K A := lift k_hw (λ h s, s <| k_hw := h |>) m.
Definition envop {A} (m : M E A) : K A := lift k_env (λ e s, s <| k_env := e |>) m.

(** The per-CPU variables cpu and proc. *)
Definition curcpu : K cpu := gets (λ s, h_cpu (k_hw s)).
Definition upd_cpu (f : cpu → cpu) : K unit := modify (λ s, s <| k_hw ::= λ h, h <| h_cpu ::= f |> |>).
Definition curproc : K (option nat) := gets (λ s, c_proc (h_cpu (k_hw s))).

(** Dereferencing a process pointer. *)
Definition deref (p : option nat) : K nat :=
  match p with Some p => mret p | None => fault end.
Definition rd (p : nat) : K proc := λ s,
  match k_procs s !! p with Some pr => Done pr s | None => Fault s end.
Definition wr (p : nat) (f : proc → proc) : K unit := λ s,
  match k_procs s !! p with
  | Some pr => Done tt (s <| k_procs := <[p := f pr]> (k_procs s) |>)
  | None => Fault s
  end.

(** The list heads. An index past MAX is outside the array ready[]. *)
Definition head_of (sl : slist) (l : StateLists) : option (option nat) :=
  match sl with
  | SReady i => l_ready l !! i
  | SFree => Some (l_free l)
  | SSleep => Some (l_sleep l)
  | SZombie => Some (l_zombie l)
  | SRunning => Some (l_running l)
  | SEmbryo => Some (l_embryo l)
  end.
Definition with_head (sl : slist) (v : option nat) (l : StateLists) : StateLists :=
  match sl with
  | SReady i => l <| l_ready ::= λ r, <[i := v]> r |>
  | SFree => l <| l_free := v |>
  | SSleep => l <| l_sleep := v |>
  | SZombie => l <| l_zombie := v |>
  | SRunning => l <| l_running := v |>
  | SEmbryo => l <| l_embryo := v |>
  end.
Definition get_head (sl : slist) : K (option nat) := λ s,
  match head_of sl (k_lists s) with Some h => Done h s | None => Fault s end.
Definition set_head (sl : slist) (v : option nat) : K unit := λ s,
  match head_of sl (k_lists s) with
  | Some _ => Done tt (s <| k_lists ::= with_head sl v |>)
  | None => Fault s
  end.
(** [&ptable.pLists.ready[prio]] *)
Definition ready_at (prio : Z) : slist :=
  if (0 <=? prio) && (prio <=? MAX) then SReady (Z.to_nat prio) else SReady (S (Z.to_nat MAX)).

(** [for(p = head; p; p = p->next) body], where the body may return from
    the enclosing function ([Some]). *)
Fixpoint walk {R} (fuel : nat) (p : option nat) (body : nat → K (option R)) : K (option R) :=
  match p with
  | None => mret None
  | Some q =>
    match fuel with
    | O => nofuel
    | S n =>
      r ← body q;
      match r with
      | Some v => mret (Some v)
      | None => pr ← rd q; walk n (p_next pr) body
      end
    end
  end.
Definition for_list {R} (sl : slist) (body : nat → K (option R)) : K (option R) :=
  h ← get_head sl; walk NPROC h body.

(** [for(i = 0; i <= MAX; i++) body], with the same early return. *)
Fixpoint for_upto {R} (i n : nat) (body : nat → K (option R)) : K (option R) :=
  match n with
  | O => mret None
  | S n =>
    r ← body i;
    match r with Some v => mret (Some v) | None => for_upto (S i) n body end
  end.

(** ** List operations (insertHead, insertTail, removeFromStateList) *)

Definition insertHead (sl : slist) (p : option nat) : K Z :=
  match p with
  | None => mret (-1)
  | Some p =>
    h ← get_head sl;
    wr p (λ x, x <| p_next := h |>);;
    set_head sl (Some p);;
    mret 0
  end.

(** [while(curr->next) curr = curr->next;] *)
Fixpoint last_of (fuel : nat) (curr : nat) : K nat :=
  match fuel with
  | O => nofuel
  | S n =>
    c ← rd curr;
    match p_next c with None => mret curr | Some q => last_of n q end
  end.

Definition insertTail (sl : slist) (p : option nat) : K Z :=
  h ← get_head sl;
  match p with
  | None => mret (-1)
  | Some p =>
    match h with
    | None =>
      set_head sl (Some p);;
      wr p (λ x, x <| p_next := None |>);;
      mret 0
    | Some h =>
      curr ← last_of NPROC h;
      wr curr (λ x, x <| p_next := Some p |>);;
      wr p (λ x, x <| p_next := None |>);;
      mret 0
    end
  end.

(** [for(curr = *sList; curr && curr != p; new = curr, curr = curr->next);]
    gives the final values of new and curr. *)
Fixpoint find_prev (fuel : nat) (new curr : option nat) (p : nat) : K (option nat * option nat) :=
  match curr with
  | None => mret (new, None)
  | Some c =>
    if decide (c = p) then mret (new, Some c)
    else
      match fuel with
      | O => nofuel
      | S n => x ← rd c; find_prev n (Some c) (p_next x) p
      end
  end.

Definition removeFromStateList (sl : slist) (p : option nat) : K Z :=
  h ← get_head sl;
  match h, p with
  | None, _ => mret (-1)
  | _, None => mret (-1)
  | Some h, Some p =>
    if decide (h = p) then
      x ← rd h;
      set_head sl (p_next x);;
      wr h (λ x, x <| p_next := None |>);;
      mret 0
    else
      r ← find_prev NPROC None (Some h) p;
      match r with
      | (_, None) => mret (-1)
      | (new, Some curr) =>
        x ← rd curr;
        new ← deref new;
        wr new (λ y, y <| p_next := p_next x |>);;
        wr curr (λ y, y <| p_next := None |>);;
        mret 0
      end
  end.

(** assertState, assertPrio: the printed message is left out. *)
Definition assertState (p : nat) (st : procstate) : K unit :=
  x ← rd p;
  panic_if (negb (bool_decide (p_state x = st))) "Incorrect Proc State!".

Definition assertPrio (p : nat) (expectedPrio : Z) : K unit :=
  x ← rd p;
  panic_if (negb (p_prio x =? expectedPrio)) "Incorrect Proc Priority!".

(** removeFromReadyList ignores its argument sList and uses
    ready[expectedPrio]. *)
Definition removeFromReadyList (p : nat) (expectedPrio : Z) : K unit :=
  removeFromStateList (ready_at expectedPrio) (Some p);;
  assertPrio p expectedPrio;;
  assertState p RUNNABLE.

End base.

#[global] Arguments insertHead : simpl never.
#[global] Arguments insertTail : simpl never.
#[global] Arguments removeFromStateList : simpl never.
#[global] Arguments get_head : simpl never.
#[global] Arguments set_head : simpl never.
#[global] Arguments rd : simpl never.
#[global] Arguments wr : simpl never.
#[global] Arguments for_list : simpl never.
