(* ===== verification/ProcOps.v ===== *)
(** * Process operations (proc.c)

    Every routine of proc.c that changes process state. A routine that gives
    up the CPU ends in sched(): [Gone] means that swtch() has switched to the
    scheduler context of this CPU with ptable.lock held, [Ret v] that the
    routine returned [v]. [resume_proc] is the code the process runs when
    the scheduler switches back to it. *)

From S2P Require Import Prelude Mem Spinlock Str Proc.

Inductive ctl (A : Type) : Type := Ret (a : A) | Gone.
Arguments Ret {A}.
Arguments Gone {A}.

Definition chan_of (p : option nat) : chan :=
  match p with Some p => ChProc p | None => ChNull end.

Section ops.
Context {E : Type} `{!KEnv E}.
Abbreviation K := (M (kstate E)).

Definition acquire_pt : K unit := hwop (acquire LPtable).
Definition release_pt : K unit := hwop (release LPtable).
Definition ticks : K Z := gets k_ticks.

(** ** Waking up *)

(** From the sleep list to the tail of the process's ready queue, the same
    statements in wakeup1() and kill(). *)
Definition make_runnable (p : nat) : K Z :=
  removeFromStateList SSleep (Some p);;
  assertState p SLEEPING;;
  wr p (λ x, x <| p_state := RUNNABLE |>);;
  x ← rd p;
  insertTail (ready_at (p_prio x)) (Some p).

Definition wake_body (ch : chan) (p : nat) : K unit :=
  x ← rd p;
  (if decide (p_chan x = ch) then make_runnable p;; mret tt else mret tt).

(** [for(p = sleep; p; ){ curr = p->next; ...; p = curr; }] *)
Fixpoint wake_loop (fuel : nat) (ch : chan) (p : option nat) : K unit :=
  match p with
  | None => mret tt
  | Some q =>
    match fuel with
    | O => nofuel
    | S n => x ← rd q; wake_body ch q;; wake_loop n ch (p_next x)
    end
  end.

Definition wakeup1 (ch : chan) : K unit :=
  h ← get_head SSleep; wake_loop NPROC ch h.

Definition wakeup (ch : chan) : K unit :=
  acquire_pt;; wakeup1 ch;; release_pt.

(** The wakeup() calls made by an operation of another component. *)
Fixpoint wakeups (cs : list chan) : K unit :=
  match cs with [] => mret tt | c :: cs => wakeup c;; wakeups cs end.

(** ** Giving up the CPU *)

Definition budgetupdate (p : nat) : K Z :=
  x ← rd p;
  t ← ticks;
  wr p (λ x, x <| p_budget := s32 (p_budget x - u32 (t - p_cpu_ticks_in x)) |>);;
  x ← rd p;
  (if p_budget x <=? 0 then
     (if (p_prio x <? MAX) && negb (MAX =? 0) then
        wr p (λ x, x <| p_prio ::= λ z, z + 1 |>)
      else mret tt);;
     wr p (λ x, x <| p_budget := BUDGET |>);;
     mret 0
   else mret 0).

(** sched() up to and including swtch(&proc->context, cpu->scheduler). *)
Definition sched (k : bool → resume) : K unit :=
  h ← hwop (holding LPtable);
  panic_if (negb h) "sched ptable.lock";;
  c ← curcpu;
  panic_if (negb (c_ncli c =? 1)) "sched locks";;
  p ← curproc; p ← deref p;
  x ← rd p;
  panic_if (bool_decide (p_state x = RUNNING)) "sched running";;
  c ← curcpu;
  panic_if (c_if c) "sched interruptible";;
  t ← ticks;
  wr p (λ x, x <| p_cpu_ticks_total := u32 (p_cpu_ticks_total x + u32 (t - p_cpu_ticks_in x)) |>);;
  wr p (λ x, x <| p_context := k (c_intena c) |>).

(** The end of sched(), after the switch back: [cpu->intena = intena]. *)
Definition sched_return (ie : bool) : K unit := upd_cpu (λ c, c <| c_intena := ie |>).

Definition yield : K (ctl unit) :=
  acquire_pt;;
  p ← curproc; p ← deref p;
  removeFromStateList SRunning (Some p);;
  assertState p RUNNING;;
  wr p (λ x, x <| p_state := RUNNABLE |>);;
  budgetupdate p;;
  x ← rd p;
  insertTail (ready_at (p_prio x)) (Some p);;
  sched RYield;;
  mret Gone.

(** sleep() from [proc->chan = chan] to the switch. *)
Definition sleep_locked (k : bool → resume) (ch : chan) (p : nat) : K unit :=
  wr p (λ x, x <| p_chan := ch |>);;
  removeFromStateList SRunning (Some p);;
  assertState p RUNNING;;
  wr p (λ x, x <| p_state := SLEEPING |>);;
  budgetupdate p;;
  insertHead SSleep (Some p);;
  sched k.

(** sleep(chan, lk) up to the switch; [lk = None] is the null lock. *)
Definition sleep_with (k : bool → resume) (ch : chan) (lk : option lockid) : K unit :=
  p ← curproc;
  match p with
  | None => panic "sleep"
  | Some p =>
    (if decide (lk = Some LPtable) then mret tt
     else
       acquire_pt;;
       match lk with Some l => hwop (release l) | None => mret tt end);;
    sleep_locked k ch p
  end.

Definition sleep (ch : chan) (lk : option lockid) : K (ctl unit) :=
  sleep_with (RSleep lk) ch lk;; mret Gone.

(** The rest of sleep(), after sched() returned: first up to the release of
    ptable.lock, then the acquire of [lk]. *)
Definition sleep_tail (lk : option lockid) : K unit :=
  p ← curproc; p ← deref p;
  wr p (λ x, x <| p_chan := ChNull |>);;
  (if decide (lk = Some LPtable) then mret tt else release_pt).
Definition sleep_reacquire (lk : option lockid) : K unit :=
  if decide (lk = Some LPtable) then mret tt
  else match lk with Some l => hwop (acquire l) | None => mret tt end.

(** ** Creating processes *)

(** Back from EMBRYO to the free list: the error paths of allocproc()
    and fork(). *)
Definition free_embryo (p : nat) : K unit :=
  acquire_pt;;
  removeFromStateList SEmbryo (Some p);;
  assertState p EMBRYO;;
  wr p (λ x, x <| p_state := UNUSED |>);;
  insertHead SFree (Some p);;
  release_pt.

(** The first critical section of allocproc(). *)
Definition alloc_slot : K (option nat) :=
  acquire_pt;;
  h ← get_head SFree;
  match h with
  | None => release_pt;; mret None
  | Some p =>
    removeFromStateList SFree (Some p);;
    assertState p UNUSED;;
    wr p (λ x, x <| p_state := EMBRYO |>);;
    insertHead SEmbryo (Some p);;
    n ← gets k_nextpid;
    modify (λ s, s <| k_nextpid := s32 (n + 1) |>);;
    wr p (λ x, x <| p_pid := u32 n |>);;
    release_pt;;
    mret (Some p)
  end.

Definition allocproc : K (option nat) :=
  r ← alloc_slot;
  match r with
  | None => mret None
  | Some p =>
    k ← envop e_kalloc;
    wr p (λ x, x <| p_kstack := k |>);;
    if k =? 0 then free_embryo p;; mret None
    else
      let sp := k + KSTACKSIZE - sizeof_trapframe in
      wr p (λ x, x <| p_tfptr := sp |>);;
      let sp := sp - 4 - sizeof_context in
      wr p (λ x, x <| p_ctxptr := sp |> <| p_context := RForkret |>);;
      t ← ticks;
      wr p (λ x, x <| p_start_ticks := t |>);;
      wr p (λ x, x <| p_cpu_ticks_total := 0 |> <| p_cpu_ticks_in := 0 |>);;
      wr p (λ x, x <| p_prio := 0 |> <| p_budget := BUDGET |>);;
      mret (Some p)
  end.

(** The loop of fork() over proc->ofile. *)
Fixpoint dup_files (np : nat) (i : nat) (fs : list (option nat)) : K unit :=
  match fs with
  | [] => mret tt
  | f :: fs =>
    match f with
    | Some f => envop (e_filedup f);; wr np (λ x, x <| p_ofile ::= λ o, <[i := Some f]> o |>)
    | None => mret tt
    end;;
    dup_files np (S i) fs
  end.

(** The last critical section of fork(). *)
Definition fork_publish (np : nat) : K unit :=
  acquire_pt;;
  removeFromStateList SEmbryo (Some np);;
  assertState np EMBRYO;;
  wr np (λ x, x <| p_state := RUNNABLE |>);;
  insertTail (SReady 0) (Some np);;
  release_pt.

Definition copy_name (dst src : nat) : K unit :=
  x ← rd src; y ← rd dst;
  match safestrcpy (p_name y) (p_name x) 16 with
  | Some n => wr dst (λ y, y <| p_name := n |>)
  | None => fault
  end.

Definition fork : K Z :=
  r ← allocproc;
  match r with
  | None => mret (-1)
  | Some np =>
    p ← curproc; p ← deref p;
    x ← rd p;
    d ← envop (e_copyuvm (p_pgdir x) (p_sz x));
    wr np (λ y, y <| p_pgdir := d |>);;
    if d =? 0 then
      y ← rd np;
      envop (e_kfree (p_kstack y));;
      wr np (λ y, y <| p_kstack := 0 |>);;
      free_embryo np;;
      mret (-1)
    else
      x ← rd p;
      wr np (λ y, y <| p_sz := p_sz x |> <| p_parent := Some p |> <| p_tf := p_tf x |>
                    <| p_uid := p_uid x |> <| p_gid := p_gid x |>);;
      wr np (λ y, y <| p_tf ::= λ t, t <| tf_eax := 0 |> |>);;
      dup_files np 0 (p_ofile x);;
      cwd ← deref (p_cwd x);
      envop (e_idup cwd);;
      wr np (λ y, y <| p_cwd := Some cwd |>);;
      copy_name np p;;
      y ← rd np;
      let pid := p_pid y in
      fork_publish np;;
      mret (s32 pid)
  end.

(** ** userinit() *)

Fixpoint init_free (c n : nat) : K unit :=
  match n with
  | O => mret tt
  | S n =>
    wr c (λ x, x <| p_state := UNUSED |>);;
    insertHead SFree (Some c);;
    init_free (S c) n
  end.

Definition init_lists : K unit :=
  acquire_pt;;
  modify (λ s, s <| k_promote := TICKS_TO_PROMOTE |>);;
  set_head SFree None;;
  set_head SRunning None;;
  set_head SSleep None;;
  set_head SEmbryo None;;
  set_head SZombie None;;
  for_upto (R:=unit) 0 (S (Z.to_nat MAX)) (λ i, set_head (SReady i) None;; mret None);;
  init_free 0 NPROC;;
  release_pt.

(** The user frame of the first process: SEG_UCODE = 4, SEG_UDATA = 5,
    DPL_USER = 3, FL_IF = 0x200. *)
Definition initcode_tf : trapframe :=
  let ds := Z.lor (Z.shiftl 5 3) 3 in
  tf_zero <| tf_cs := Z.lor (Z.shiftl 4 3) 3 |> <| tf_ds := ds |> <| tf_es := ds |>
    <| tf_ss := ds |> <| tf_eflags := 512 |> <| tf_esp := PGSIZE |> <| tf_eip := 0 |>.

Definition initcode_name : list Z := [105; 110; 105; 116; 99; 111; 100; 101; 0].

(** The last critical section of userinit(). *)
Definition init_publish (p : nat) : K unit :=
  acquire_pt;;
  removeFromStateList SEmbryo (Some p);;
  assertState p EMBRYO;;
  wr p (λ x, x <| p_state := RUNNABLE |>);;
  set_head (SReady 0) (Some p);;
  wr p (λ x, x <| p_next := None |>);;
  release_pt.

Definition userinit : K unit :=
  init_lists;;
  r ← allocproc;
  modify (λ s, s <| k_initproc := r |>);;
  d ← envop e_setupkvm;
  p ← deref r;
  wr p (λ x, x <| p_pgdir := d |>);;
  panic_if (d =? 0) "userinit: out of memory?";;
  envop (e_inituvm d);;
  wr p (λ x, x <| p_sz := PGSIZE |> <| p_tf := initcode_tf |>);;
  x ← rd p;
  match safestrcpy (p_name x) initcode_name 16 with
  | Some n => wr p (λ x, x <| p_name := n |>)
  | None => fault
  end;;
  cwd ← envop e_namei_root;
  wr p (λ x, x <| p_cwd := cwd |> <| p_uid := DEFAULTUID |> <| p_gid := DEFAULTGID |>);;
  init_publish p.

(** switchuvm(p): the task segment's stack pointer is that of proc, the
    page table that of [p]; v2p(a) = a - KERNBASE. *)
Definition switchuvm (p : nat) : K unit :=
  hwop pushcli;;
  c ← curproc; c ← deref c;
  x ← rd c;
  upd_cpu (λ c, c <| c_esp0 := u32 (p_kstack x + KSTACKSIZE) |>);;
  x ← rd p;
  panic_if (p_pgdir x =? 0) "switchuvm: no pgdir";;
  upd_cpu (λ c, c <| c_cr3 := u32 (p_pgdir x - 2147483648) |>);;
  hwop popcli.

(** growproc(n): [sz + n] is computed in uint. *)
Definition growproc (n : Z) : K Z :=
  p ← curproc; p ← deref p;
  x ← rd p;
  let sz := p_sz x in
  r ← (if 0 <? n then
         v ← envop (e_allocuvm (p_pgdir x) sz (u32 (sz + n)));
         mret (if v =? 0 then None else Some v)
       else if n <? 0 then
         v ← envop (e_deallocuvm (p_pgdir x) sz (u32 (sz + n)));
         mret (if v =? 0 then None else Some v)
       else mret (Some sz));
  match r with
  | None => mret (-1)
  | Some sz => wr p (λ x, x <| p_sz := sz |>);; switchuvm p;; mret 0
  end.

(** ** exit() *)

Fixpoint close_files (p : nat) (fd n : nat) : K unit :=
  match n with
  | O => mret tt
  | S n =>
    x ← rd p;
    match p_ofile x !! fd with
    | Some (Some f) =>
      cs ← envop (e_fileclose f);
      wakeups cs;;
      wr p (λ x, x <| p_ofile ::= λ o, <[fd := None]> o |>)
    | Some None => mret tt
    | None => fault
    end;;
    close_files p (S fd) n
  end.

(** [if(p->parent == proc) p->parent = initproc;] *)
Definition reparent (me : nat) (q : nat) : K (option unit) :=
  x ← rd q;
  (if decide (p_parent x = Some me) then
     i ← gets k_initproc;
     wr q (λ x, x <| p_parent := i |>)
   else mret tt);;
  mret None.

Definition reparent_zombie (me : nat) (q : nat) : K (option unit) :=
  x ← rd q;
  (if decide (p_parent x = Some me) then
     i ← gets k_initproc;
     wr q (λ x, x <| p_parent := i |>);;
     wakeup1 (chan_of i)
   else mret tt);;
  mret None.

(** exit()'s loops over the lists of live processes. *)
Definition reparent_live (p : nat) : K unit :=
  for_upto 0 (S (Z.to_nat MAX)) (λ i, for_list (SReady i) (reparent p));;
  for_list SRunning (reparent p);;
  for_list SSleep (reparent p);;
  for_list SEmbryo (reparent p);;
  mret tt.

(** exit() from the acquire of ptable.lock to the switch. *)
Definition exit_locked (p : nat) : K unit :=
  acquire_pt;;
  x ← rd p;
  wakeup1 (chan_of (p_parent x));;
  reparent_live p;;
  for_list SZombie (reparent_zombie p);;
  removeFromStateList SRunning (Some p);;
  assertState p RUNNING;;
  wr p (λ x, x <| p_state := ZOMBIE |>);;
  insertHead SZombie (Some p);;
  sched RExit.

Definition exit : K (ctl unit) :=
  p ← curproc;
  i ← gets k_initproc;
  panic_if (bool_decide (p = i)) "init exiting";;
  p ← deref p;
  close_files p 0 NOFILE;;
  envop e_begin_op;;
  x ← rd p;
  cwd ← deref (p_cwd x);
  cs ← envop (e_iput cwd);
  wakeups cs;;
  cs ← envop e_end_op;
  wakeups cs;;
  wr p (λ x, x <| p_cwd := None |>);;
  exit_locked p;;
  mret Gone.

(** ** wait() *)

(** The body of the loop over the zombie list: reap a child and return. *)
Definition reap (me : nat) (q : nat) : K (option Z) :=
  x ← rd q;
  if decide (p_parent x = Some me) then
    let pid := p_pid x in
    envop (e_kfree (p_kstack x));;
    wr q (λ x, x <| p_kstack := 0 |>);;
    envop (e_freevm (p_pgdir x));;
    removeFromStateList SZombie (Some q);;
    assertState q ZOMBIE;;
    wr q (λ x, x <| p_state := UNUSED |>);;
    insertHead SFree (Some q);;
    wr q (λ x, x <| p_pid := 0 |> <| p_parent := None |>
                 <| p_name ::= λ n, <[0%nat := 0]> n |> <| p_killed := 0 |>);;
    release_pt;;
    mret (Some (s32 pid))
  else mret None.

(** The scans for a live child stop at the first one found. *)
Definition is_child (me : nat) (q : nat) : K (option unit) :=
  x ← rd q;
  mret (if decide (p_parent x = Some me) then Some tt else None).

Definition scan_child (me : nat) (found : bool) (sl : slist) : K bool :=
  if found then mret true
  else r ← for_list sl (is_child me); mret (match r with Some _ => true | None => false end).

Fixpoint scan_ready (me : nat) (found : bool) (i n : nat) : K bool :=
  match n with
  | O => mret found
  | S n => found ← scan_child me found (SReady i); scan_ready me found (S i) n
  end.

(** One iteration of wait()'s outer loop, with ptable.lock held. *)
Definition wait_iter : K (ctl Z) :=
  p ← curproc; p ← deref p;
  r ← for_list SZombie (reap p);
  match r with
  | Some pid => mret (Ret pid)
  | None =>
    found ← scan_ready p false 0 (S (Z.to_nat MAX));
    found ← scan_child p found SRunning;
    found ← scan_child p found SSleep;
    found ← scan_child p found SEmbryo;
    x ← rd p;
    if negb found || negb (p_killed x =? 0) then
      release_pt;; mret (Ret (-1))
    else
      sleep_with RWait (ChProc p) (Some LPtable);;
      mret Gone
  end.

Definition wait : K (ctl Z) := acquire_pt;; wait_iter.

(** ** The scheduler *)

(** [for(p = ready[i]; p; p = p->next)] with a body that moves p. *)
Definition promote_body (i : nat) (p : nat) : K (option unit) :=
  removeFromReadyList p (Z.of_nat i);;
  wr p (λ x, x <| p_prio ::= λ z, z - 1 |>);;
  x ← rd p;
  insertTail (ready_at (p_prio x)) (Some p);;
  mret None.

Definition dec_prio (p : nat) : K (option unit) :=
  x ← rd p;
  (if negb (p_prio x =? 0) then wr p (λ x, x <| p_prio ::= λ z, z - 1 |>) else mret tt);;
  mret None.

Definition prioadjust : K unit :=
  for_list SSleep dec_prio;;
  for_list SRunning dec_prio;;
  for_upto 1 (Z.to_nat MAX) (λ i, for_list (SReady i) (promote_body i));;
  t ← ticks;
  modify (λ s, s <| k_promote := u32 (t + TICKS_TO_PROMOTE) |>).

(** The body of the scheduler's loop over the ready queues. *)
Definition dispatch (i : nat) : K (option nat) :=
  h ← get_head (SReady i);
  match h with
  | None => mret None
  | Some p =>
    upd_cpu (λ c, c <| c_proc := Some p |>);;
    switchuvm p;;
    removeFromReadyList p (Z.of_nat i);;
    wr p (λ x, x <| p_state := RUNNING |>);;
    insertHead SRunning (Some p);;
    t ← ticks;
    wr p (λ x, x <| p_cpu_ticks_in := t |>);;
    mret (Some p)
  end.

(** One iteration of scheduler() up to swtch(&cpu->scheduler, ...): the
    process switched to, or [None] when every queue is empty and the CPU
    idles with interrupts on. *)
Definition scheduler : K (option nat) :=
  hwop sti;;
  acquire_pt;;
  t ← ticks;
  pr ← gets k_promote;
  when (pr <=? t) prioadjust;;
  r ← for_upto 0 (S (Z.to_nat MAX)) dispatch;
  match r with
  | Some p => mret (Some p)
  | None => release_pt;; hwop sti;; mret None
  end.

(** scheduler() after the switch back: switchkvm(); proc = 0; release. *)
Definition scheduler_back (kpgdir : Z) : K unit :=
  upd_cpu (λ c, c <| c_cr3 := u32 (kpgdir - 2147483648) |>);;
  upd_cpu (λ c, c <| c_proc := None |>);;
  release_pt.

(** forkret() after its release of ptable.lock. *)
Definition forkret_rest : K unit :=
  f ← gets k_first;
  if f : bool then
    modify (λ s, s <| k_first := false |>);;
    envop e_iinit;;
    envop e_initlog
  else mret tt.
Definition forkret : K unit := release_pt;; forkret_rest.

(** The code a process continues with when it is switched to, up to the
    release of ptable.lock, and the rest of it. [Gone] is a wait() that
    found no zombie and slept again. *)
Definition resume_locked (p : nat) : K (ctl resume) :=
  x ← rd p;
  match p_context x with
  | RForkret => release_pt;; mret (Ret RForkret)
  | RYield ie => sched_return ie;; release_pt;; mret (Ret (RYield ie))
  | RSleep lk ie => sched_return ie;; sleep_tail lk;; mret (Ret (RSleep lk ie))
  | RWait ie =>
    sched_return ie;;
    sleep_tail (Some LPtable);;
    r ← wait_iter;
    mret (match r with Ret _ => Ret (RWait ie) | Gone => Gone end)
  | RExit ie => sched_return ie;; panic "zombie exit"
  end.
Definition resume_rest (k : resume) : K unit :=
  match k with
  | RForkret => forkret_rest
  | RSleep lk _ => sleep_reacquire lk
  | _ => mret tt
  end.
Definition resume_proc (p : nat) : K (ctl unit) :=
  r ← resume_locked p;
  match r with
  | Ret k => resume_rest k;; mret (Ret tt)
  | Gone => mret Gone
  end.

(** ** kill(), setpriority() and the identifiers *)

Definition kill_body (pid : Z) (q : nat) : K (option Z) :=
  x ← rd q;
  if p_pid x =? u32 pid then
    wr q (λ x, x <| p_killed := 1 |>);;
    release_pt;;
    mret (Some 0)
  else mret None.

Definition kill_sleeping (pid : Z) (q : nat) : K (option Z) :=
  x ← rd q;
  if p_pid x =? u32 pid then
    wr q (λ x, x <| p_killed := 1 |>);;
    make_runnable q;;
    release_pt;;
    mret (Some 0)
  else mret None.

(** Sequencing of scans that may return from the function. *)
Definition or_else {A} (m1 m2 : K (option A)) : K (option A) :=
  r ← m1; match r with Some v => mret (Some v) | None => m2 end.

Definition kill (pid : Z) : K Z :=
  acquire_pt;;
  r ← or_else (for_upto 0 (S (Z.to_nat MAX)) (λ i, for_list (SReady i) (kill_body pid)))
     (or_else (for_list SRunning (kill_body pid))
     (or_else (for_list SEmbryo (kill_body pid))
     (or_else (for_list SZombie (kill_body pid))
              (for_list SSleep (kill_sleeping pid)))));
  match r with
  | Some v => mret v
  | None => release_pt;; mret (-1)
  end.

Definition setprio_ready (pid priority : Z) (i : nat) (q : nat) : K (option Z) :=
  x ← rd q;
  if p_pid x =? u32 pid then
    (if negb (priority =? Z.of_nat i) then
       removeFromReadyList q (Z.of_nat i);;
       wr q (λ x, x <| p_prio := priority |> <| p_budget := BUDGET |>);;
       insertTail (ready_at priority) (Some q);;
       mret tt
     else mret tt);;
    release_pt;;
    mret (Some 0)
  else mret None.

Definition setprio_other (pid priority : Z) (q : nat) : K (option Z) :=
  x ← rd q;
  if p_pid x =? u32 pid then
    wr q (λ x, x <| p_prio := priority |> <| p_budget := BUDGET |>);;
    release_pt;;
    mret (Some 0)
  else mret None.

Definition setpriority (pid priority : Z) : K Z :=
  if (priority <? 0) || (MAX <? priority) then mret (-1)
  else
    acquire_pt;;
    r ← or_else (for_upto 0 (S (Z.to_nat MAX)) (λ i, for_list (SReady i) (setprio_ready pid priority i)))
       (or_else (for_list SRunning (setprio_other pid priority))
                (for_list SSleep (setprio_other pid priority)));
    match r with
    | Some v => mret v
    | None => release_pt;; mret (-1)
    end.

(** setuid, setgid: the argument is a uint, so [0 > uid] never holds. *)
Definition setuid (uid : Z) : K Z :=
  let uid := u32 uid in
  if (uid <? 0) || (32767 <? uid) then mret (-1)
  else
    acquire_pt;;
    p ← curproc; p ← deref p;
    wr p (λ x, x <| p_uid := uid |>);;
    release_pt;;
    mret 0.

Definition setgid (gid : Z) : K Z :=
  let gid := u32 gid in
  if (gid <? 0) || (32767 <? gid) then mret (-1)
  else
    acquire_pt;;
    p ← curproc; p ← deref p;
    wr p (λ x, x <| p_gid := gid |>);;
    release_pt;;
    mret 0.

(** The clock interrupt's [ticks++] on CPU 0 (trap.c). *)
Definition tick : K unit := modify (λ s, s <| k_ticks := u32 (k_ticks s + 1) |>).

End ops.
