(* ===== verification/ProcLists.v ===== *)
(** * The state lists: representation and correctness of the list code

    [lseg nx h l]: following the [next] fields [nx] from the head [h] visits
    the slots [l] and ends in null. [lists_ok s L]: every list head of [s]
    represents the abstract queue [L sl], and no slot is on two lists or twice
    on one. Under this representation insertHead, insertTail and
    removeFromStateList are cons, snoc and removal. *)

From S2P Require Import Prelude Mem Spinlock Str Proc.

(** ** Linked segments *)

(** Following [nx] from [h] visits [l] and arrives at [t]. *)
Fixpoint lsegto (nx : list (option nat)) (h : option nat) (l : list nat) (t : option nat) : Prop :=
  match l with
  | [] => h = t
  | p :: l => h = Some p ∧ ∃ n, nx !! p = Some n ∧ lsegto nx n l t
  end.
Definition lseg nx h l : Prop := lsegto nx h l None.

Section lseg.
Implicit Types (nx : list (option nat)) (h t v : option nat) (l : list nat) (p q : nat).

Lemma lsegto_bound nx h l t p : lsegto nx h l t → p ∈ l → (p < length nx)%nat.
Proof.
  revert h. induction l as [|q l IH]; simpl; [set_solver|].
  intros h (_ & n & Hq & Hl) [->|Hp]%elem_of_cons; [by eapply lookup_lt_Some|eauto].
Qed.

Lemma lsegto_insert_ne nx h l t q v : q ∉ l → lsegto nx h l t → lsegto (<[q := v]> nx) h l t.
Proof.
  revert h. induction l as [|p l IH]; simpl; [done|]. intros h Hq (-> & n & Hp & Hl).
  split; [done|]. exists n. rewrite list_lookup_insert_ne by set_solver.
  split; [done|]. apply IH; [set_solver|done].
Qed.

Lemma lsegto_app nx h l1 l2 t :
  lsegto nx h (l1 ++ l2) t ↔ ∃ m, lsegto nx h l1 m ∧ lsegto nx m l2 t.
Proof.
  revert h. induction l1 as [|p l1 IH]; intros h; simpl; [naive_solver|].
  setoid_rewrite IH. naive_solver.
Qed.

Lemma lseg_functional nx h l l' : lseg nx h l → lseg nx h l' → l = l'.
Proof.
  unfold lseg. revert h l'. induction l as [|p l IH]; intros h [|p' l']; simpl; naive_solver.
Qed.

(** Unlinking [p] after its predecessor [a]. *)
Lemma lseg_unlink nx h l1 a p l2 n :
  NoDup (l1 ++ a :: p :: l2) → lseg nx h (l1 ++ a :: p :: l2) → nx !! p = Some n →
  lseg (<[p := None]> (<[a := n]> nx)) h (l1 ++ a :: l2).
Proof.
  intros Hnd Hl Hp. apply NoDup_app in Hnd as (_ & Hd & Hnd).
  apply NoDup_cons in Hnd as [Ha Hnd]. apply NoDup_cons in Hnd as [Hp2 _].
  apply lsegto_app in Hl as (m & Hl1 & -> & na & Hna & Hpa & n' & Hp' & Hl2).
  assert (n' = n) as -> by congruence. assert (na = Some p) as -> by congruence.
  assert (a < length nx)%nat by (by eapply lookup_lt_Some).
  apply lsegto_app. exists (Some a). split.
  { apply lsegto_insert_ne; [set_solver|]. apply lsegto_insert_ne; [set_solver|done]. }
  split; [done|]. exists n. split.
  { rewrite list_lookup_insert_ne by set_solver. by rewrite list_lookup_insert_eq. }
  apply lsegto_insert_ne; [done|]. apply lsegto_insert_ne; [set_solver|done].
Qed.

(** Linking [p] after the last element [a]. *)
Lemma lseg_snoc nx h l a p :
  NoDup (l ++ [a]) → p ∉ l ++ [a] → (p < length nx)%nat → lseg nx h (l ++ [a]) →
  lseg (<[p := None]> (<[a := Some p]> nx)) h ((l ++ [a]) ++ [p]).
Proof.
  intros Hnd Hp Hlt Hl. apply NoDup_app in Hnd as (_ & Hd & _).
  apply lsegto_app in Hl as (m & Hl1 & -> & na & Hna & _).
  assert (a < length nx)%nat by (by eapply lookup_lt_Some).
  apply lsegto_app. exists (Some p). split.
  - apply lsegto_app. exists (Some a). split.
    { apply lsegto_insert_ne; [set_solver|]. apply lsegto_insert_ne; [set_solver|done]. }
    split; [done|]. exists (Some p). rewrite list_lookup_insert_ne by set_solver.
    by rewrite list_lookup_insert_eq.
  - split; [done|]. exists None. by rewrite list_lookup_insert_eq by (by rewrite length_insert).
Qed.
End lseg.

(** ** Representation of the lists *)

Definition valid (sl : slist) : Prop :=
  match sl with SReady i => (i < S (Z.to_nat MAX))%nat | _ => True end.

#[export] Instance valid_dec sl : Decision (valid sl).
Proof. destruct sl; simpl; apply _. Defined.

Definition core (x : proc) : proc := x <| p_next := None |>.

Lemma core_eq x y : core y = core x → y = x <| p_next := p_next y |>.
Proof.
  intros H. change (x <| p_next := p_next y |>) with ((core x) <| p_next := p_next y |>).
  rewrite <- H. by destruct y.
Qed.

Section rep.
Context {E : Type}.
Implicit Types (s : kstate E) (L : slist → list nat) (sl : slist) (p q : nat).

Definition nexts s : list (option nat) := p_next <$> k_procs s.

Record lists_ok s L : Prop := {
  lo_len : length (k_procs s) = NPROC;
  lo_ready : length (l_ready (k_lists s)) = S (Z.to_nat MAX);
  lo_seg : ∀ sl, valid sl → ∃ h, head_of sl (k_lists s) = Some h ∧ lseg (nexts s) h (L sl);
  lo_nodup : ∀ sl, NoDup (L sl);
  lo_disj : ∀ sl sl' p, p ∈ L sl → p ∈ L sl' → sl = sl';
  lo_invalid : ∀ sl, ¬ valid sl → L sl = [];
}.

(** [s'] is [s] with other list heads and [next] fields. *)
Definition relisted s s' : Prop :=
  ∃ ps ls, s' = s <| k_procs := ps |> <| k_lists := ls |> ∧ core <$> ps = core <$> k_procs s.

Lemma relisted_refl s : relisted s s.
Proof. exists (k_procs s), (k_lists s). by destruct s. Qed.

Lemma relisted_trans s1 s2 s3 : relisted s1 s2 → relisted s2 s3 → relisted s1 s3.
Proof.
  intros (ps & ls & -> & Hc) (ps' & ls' & -> & Hc'). exists ps', ls'. split; [done|].
  by rewrite Hc'.
Qed.

Lemma relisted_lookup s s' p x :
  relisted s s' → k_procs s !! p = Some x → ∃ n, k_procs s' !! p = Some (x <| p_next := n |>).
Proof.
  intros (ps & ls & -> & Hc) Hp. simpl.
  apply (f_equal (.!! p)) in Hc. rewrite !list_lookup_fmap, Hp in Hc. simpl in Hc.
  destruct (ps !! p) as [y|]; [|done]. apply (inj Some) in Hc. exists (p_next y). f_equal.
  by apply core_eq.
Qed.

Lemma lists_ok_bound s L sl p : lists_ok s L → p ∈ L sl → (p < NPROC)%nat.
Proof.
  intros H Hp. destruct (decide (valid sl)) as [Hv|Hv].
  - destruct (lo_seg _ _ H sl Hv) as (h & _ & Hl). rewrite <- (lo_len _ _ H).
    eapply lsegto_bound in Hl; [|done]. unfold nexts in Hl. by rewrite length_fmap in Hl.
  - by rewrite (lo_invalid _ _ H sl Hv) in Hp; apply elem_of_nil in Hp.
Qed.

(** ** Elementary steps *)

Lemma wp_rd s p x (Q : proc → kstate E → Prop) :
  k_procs s !! p = Some x → Q x s → wp (rd p) Q s.
Proof. intros Hp HQ. unfold wp, rd. by rewrite Hp. Qed.

Lemma wp_wr s p f x (Q : unit → kstate E → Prop) :
  k_procs s !! p = Some x → Q tt (s <| k_procs := <[p := f x]> (k_procs s) |>) →
  wp (wr p f) Q s.
Proof. intros Hp HQ. unfold wp, wr. by rewrite Hp. Qed.

Lemma wp_get_head s sl h (Q : option nat → kstate E → Prop) :
  head_of sl (k_lists s) = Some h → Q h s → wp (get_head sl) Q s.
Proof. intros Hp HQ. unfold wp, get_head. by rewrite Hp. Qed.

Lemma wp_set_head s sl h v (Q : unit → kstate E → Prop) :
  head_of sl (k_lists s) = Some h → Q tt (s <| k_lists ::= with_head sl v |>) →
  wp (set_head sl v) Q s.
Proof. intros Hp HQ. unfold wp, set_head. by rewrite Hp. Qed.

Lemma head_with_head sl sl' v ls h :
  head_of sl ls = Some h →
  head_of sl' (with_head sl v ls) = if decide (sl = sl') then Some v else head_of sl' ls.
Proof.
  intros Hh. case_decide as Hd; [subst sl'|]; destruct sl; simpl in *; try done.
  - apply list_lookup_insert_eq. by eapply lookup_lt_Some.
  - destruct sl'; simpl; try done. apply list_lookup_insert_ne. congruence.
  - by destruct sl'.
  - by destruct sl'.
  - by destruct sl'.
  - by destruct sl'.
  - by destruct sl'.
Qed.

Lemma length_with_head sl v ls : length (l_ready (with_head sl v ls)) = length (l_ready ls).
Proof. destruct sl; simpl; try done. apply length_insert. Qed.

(** Writing one [next] field. *)
Lemma nexts_insert s p x v :
  nexts (s <| k_procs := <[p := x <| p_next := v |>]> (k_procs s) |>) = <[p := v]> (nexts s).
Proof. unfold nexts. simpl. by rewrite list_fmap_insert. Qed.

Lemma core_insert (ps : list proc) p x v :
  ps !! p = Some x → core <$> <[p := x <| p_next := v |>]> ps = core <$> ps.
Proof.
  intros Hp. rewrite list_fmap_insert.
  change (core (x <| p_next := v |>)) with (core x).
  apply list_insert_id. by rewrite list_lookup_fmap, Hp.
Qed.

Lemma nexts_lookup s p n :
  nexts s !! p = Some n → ∃ x, k_procs s !! p = Some x ∧ p_next x = n.
Proof. unfold nexts. rewrite list_lookup_fmap. intros (x & Hx & ->)%fmap_Some. by exists x. Qed.

(** ** Loops of the list code *)

Lemma last_of_spec s fuel h l a (Q : nat → kstate E → Prop) :
  lseg (nexts s) (Some h) (l ++ [a]) → (length (l ++ [a]) ≤ fuel)%nat → Q a s →
  wp (last_of fuel h) Q s.
Proof.
  revert h fuel. induction l as [|q l IH]; intros h [|fuel] Hl Hf HQ; simpl in *; try lia.
  - destruct Hl as (Hh & n & Hn & ->). simplify_eq.
    apply nexts_lookup in Hn as (x & Hx & Hn). wp_step. eapply wp_rd; [done|].
    by rewrite Hn.
  - destruct Hl as (Hh & n & Hn & Hl). simplify_eq.
    apply nexts_lookup in Hn as (x & Hx & Hn). wp_step. eapply wp_rd; [done|]. rewrite Hn.
    destruct n as [q'|].
    + apply IH; [done|lia|done].
    + destruct l; simpl in Hl; naive_solver.
Qed.

Lemma find_prev_spec s fuel new curr l p (Q : option nat * option nat → kstate E → Prop) :
  lsegto (nexts s) curr l (Some p) → p ∉ l → (length l ≤ fuel)%nat →
  Q (match last l with Some a => Some a | None => new end, Some p) s →
  wp (find_prev fuel new curr p) Q s.
Proof.
  revert new curr fuel. induction l as [|q l IH]; intros new curr fuel Hl Hp Hf HQ; simpl in *.
  - subst curr. destruct fuel; simpl; by rewrite decide_True.
  - destruct Hl as (-> & n & Hn & Hl). destruct fuel as [|fuel]; [simpl in Hf; lia|]. simpl.
    rewrite decide_False by set_solver.
    apply nexts_lookup in Hn as (x & Hx & Hn). wp_step. eapply wp_rd; [done|]. rewrite Hn.
    apply IH; [done|set_solver|simpl in Hf; lia|]. rewrite last_cons in HQ. by destruct (last l).
Qed.

(** ** insertHead, insertTail and removeFromStateList *)

Lemma lists_ok_length s L sl : lists_ok s L → (length (L sl) ≤ NPROC)%nat.
Proof.
  intros H. apply NoDup_bounded_length; [apply (lo_nodup _ _ H)|].
  intros p. by apply (lists_ok_bound s L sl).
Qed.

(** The common shape of the three operations: the [next] fields change only
    on slots that are on no list but [sl], whose queue becomes [l]. *)
Lemma lists_ok_update s L sl l ps v :
  lists_ok s L → valid sl → NoDup l → core <$> ps = core <$> k_procs s →
  (∀ p, p ∈ l → p ∉ L sl → ∀ sl', p ∉ L sl') →
  lseg (p_next <$> ps) v l →
  (∀ sl' p, sl' ≠ sl → p ∈ L sl' → (p_next <$> ps) !! p = nexts s !! p) →
  lists_ok (s <| k_procs := ps |> <| k_lists ::= with_head sl v |>) (<[sl := l]> L).
Proof.
  intros H Hv Hnd Hc Hnew Hl Hsame.
  destruct (lo_seg _ _ H sl Hv) as (h & Hh & _).
  split; simpl.
  - rewrite <- (lo_len _ _ H). apply (f_equal length) in Hc. by rewrite !length_fmap in Hc.
  - rewrite length_with_head. apply (lo_ready _ _ H).
  - intros sl' Hv'. rewrite (head_with_head _ _ _ _ _ Hh). unfold insert, fn_insert.
    case_decide as Hd; [by exists v|].
    destruct (lo_seg _ _ H sl' Hv') as (h' & Hh' & Hl'). exists h'. split; [done|].
    unfold nexts. simpl.
    assert (Hs : ∀ p, p ∈ L sl' → (p_next <$> ps) !! p = nexts s !! p) by eauto.
    clear -Hl' Hs. unfold lseg in *. revert h' Hl'. induction (L sl') as [|q l' IH]; simpl; [done|].
    intros h' (-> & n & Hn & Hl'). split; [done|]. exists n. split; [by rewrite Hs by set_solver|].
    apply IH; [|done]. set_solver.
  - intros sl'. unfold insert, fn_insert. case_decide; [done|apply (lo_nodup _ _ H)].
  - assert (Hx : ∀ sl' p, p ∈ l → p ∈ L sl' → sl = sl').
    { intros sl' p Hp Hp'. destruct (decide (p ∈ L sl)) as [Hi|Hi].
      - by apply (lo_disj _ _ H sl sl' p).
      - by destruct (Hnew p Hp Hi sl'). }
    intros sl1 sl2 p. unfold insert, fn_insert. repeat case_decide; subst; try done.
    + intros. by eapply Hx.
    + intros. symmetry. by eapply Hx.
    + apply (lo_disj _ _ H).
  - intros sl' Hv'. unfold insert, fn_insert. case_decide; [by subst|]. by apply (lo_invalid _ _ H).
Qed.

Lemma insertHead_spec s L sl p (Q : Z → kstate E → Prop) :
  lists_ok s L → valid sl → (p < NPROC)%nat → (∀ sl', p ∉ L sl') →
  (∀ s', relisted s s' → lists_ok s' (<[sl := p :: L sl]> L) → Q 0 s') →
  wp (insertHead sl (Some p)) Q s.
Proof.
  intros H Hv Hp Hnew HQ. destruct (lo_seg _ _ H sl Hv) as (h & Hh & Hl).
  destruct (lookup_lt_is_Some_2 (k_procs s) p) as [x Hx]; [by rewrite (lo_len _ _ H)|].
  unfold insertHead. wp_step. eapply wp_get_head; [done|]. wp_step. eapply wp_wr; [done|].
  wp_step. eapply wp_set_head; [done|]. wp_step. apply HQ.
  { eexists _, _. split; [reflexivity|]. by apply core_insert. }
  apply lists_ok_update; try done.
  - constructor; [done|apply (lo_nodup _ _ H)].
  - by apply core_insert.
  - set_solver.
  - rewrite list_fmap_insert. split; [done|]. exists h. split.
    { apply list_lookup_insert_eq. rewrite length_fmap. by eapply lookup_lt_Some. }
    by apply lsegto_insert_ne.
  - intros sl' q Hd Hq. rewrite list_fmap_insert. apply list_lookup_insert_ne. set_solver.
Qed.

Lemma with_head_id sl h ls : head_of sl ls = Some h → with_head sl h ls = ls.
Proof.
  destruct ls, sl; simpl; intros; simplify_eq; try done.
  unfold field_upd; simpl. f_equal. by apply list_insert_id.
Qed.

Lemma keep_head s sl h ps :
  head_of sl (k_lists s) = Some h →
  s <| k_procs := ps |> = s <| k_procs := ps |> <| k_lists ::= with_head sl h |>.
Proof. intros Hh. unfold field_upd; simpl. by rewrite with_head_id. Qed.

(** Two [next] fields written one after the other. *)
Lemma core_insert2 (ps : list proc) a b x y v w :
  a ≠ b → ps !! a = Some x → ps !! b = Some y →
  core <$> <[b := y <| p_next := w |>]> (<[a := x <| p_next := v |>]> ps) = core <$> ps.
Proof.
  intros Hne Ha Hb. rewrite core_insert; [by apply core_insert|].
  by rewrite list_lookup_insert_ne.
Qed.

Lemma insertTail_spec s L sl p (Q : Z → kstate E → Prop) :
  lists_ok s L → valid sl → (p < NPROC)%nat → (∀ sl', p ∉ L sl') →
  (∀ s', relisted s s' → lists_ok s' (<[sl := L sl ++ [p]]> L) → Q 0 s') →
  wp (insertTail sl (Some p)) Q s.
Proof.
  intros H Hv Hp Hnew HQ. destruct (lo_seg _ _ H sl Hv) as (h & Hh & Hl).
  destruct (lookup_lt_is_Some_2 (k_procs s) p) as [x Hx]; [by rewrite (lo_len _ _ H)|].
  assert (Hnd : NoDup (L sl ++ [p])).
  { apply NoDup_app. repeat split; [apply (lo_nodup _ _ H)|set_solver|apply NoDup_singleton]. }
  unfold insertTail. wp_step. eapply wp_get_head; [done|]. destruct h as [h|].
  - destruct (snoc_or_nil (L sl)) as [Ha|(l & a & Ha)]; [by rewrite Ha in Hl|].
    wp_step. eapply (last_of_spec s _ _ l a); [by rewrite <- Ha|
      rewrite <- Ha; by apply (lists_ok_length s)|].
    assert (Hap : a ∈ L sl) by (rewrite Ha; set_solver).
    assert (a ≠ p) by (intros ->; by apply (Hnew sl)).
    destruct (lookup_lt_is_Some_2 (k_procs s) a) as [y Hy].
    { rewrite (lo_len _ _ H). by eapply lists_ok_bound. }
    wp_step. eapply wp_wr; [done|]. wp_step. eapply wp_wr; [simpl; by rewrite list_lookup_insert_ne|].
    wp_step. simpl.
    match goal with |- Q _ ?s' => replace s' with (s <| k_procs := k_procs s' |>
      <| k_lists ::= with_head sl (Some h) |>) by (by rewrite <- keep_head) end. simpl.
    apply HQ.
    { eexists _, _. split; [reflexivity|]. by apply core_insert2. }
    apply lists_ok_update; try done.
    + by apply core_insert2.
    + set_solver.
    + rewrite !list_fmap_insert, Ha. apply lseg_snoc.
      * rewrite <- Ha. apply (lo_nodup _ _ H).
      * rewrite <- Ha. done.
      * rewrite length_fmap. by eapply lookup_lt_Some.
      * by rewrite <- Ha.
    + intros sl' q Hd Hq. rewrite !list_fmap_insert, !list_lookup_insert_ne; [done| |set_solver].
      intros ->. apply Hd. by eapply (lo_disj _ _ H).
  - destruct (L sl) as [|q l] eqn:HL; [|by destruct Hl].
    wp_step. eapply wp_set_head; [done|]. wp_step. eapply wp_wr; [done|]. wp_step. apply HQ.
    { eexists _, _. split; [reflexivity|]. by apply core_insert. }
    pose (ps := <[p := x <| p_next := None |>]> (k_procs s)).
    apply (lists_ok_update s L sl [p] ps (Some p)); unfold ps; try done.
    + by apply core_insert.
    + set_solver.
    + rewrite list_fmap_insert. split; [done|]. exists None. split; [|done].
      apply list_lookup_insert_eq. rewrite length_fmap. by eapply lookup_lt_Some.
    + intros sl' q Hd Hq. rewrite list_fmap_insert. apply list_lookup_insert_ne. set_solver.
Qed.

(** Taking [p] off the list, by cases on where it is. *)
Lemma remove_first_spec s L sl p l (Q : Z → kstate E → Prop) :
  lists_ok s L → valid sl → L sl = p :: l →
  (∀ s', relisted s s' → lists_ok s' (<[sl := l]> L) → Q 0 s') →
  wp (removeFromStateList sl (Some p)) Q s.
Proof.
  intros H Hv HL HQ. destruct (lo_seg _ _ H sl Hv) as (h & Hh & Hl).
  rewrite HL in Hl. destruct Hl as (-> & n & Hn & Hl).
  pose proof (lo_nodup _ _ H sl) as Hnd. rewrite HL in Hnd. apply NoDup_cons in Hnd as [Hpl Hnd].
  apply nexts_lookup in Hn as (x & Hx & <-).
  unfold removeFromStateList. wp_step. eapply wp_get_head; [done|]. cbv match. rewrite decide_True by done.
  wp_step. eapply wp_rd; [done|]. wp_step. eapply wp_set_head; [done|].
  wp_step. eapply wp_wr; [done|]. wp_step. apply HQ.
  { eexists _, _. split; [reflexivity|]. by apply core_insert. }
  pose (ps := <[p := x <| p_next := None |>]> (k_procs s)).
  apply (lists_ok_update s L sl l ps (p_next x)); unfold ps; try done.
  - by apply core_insert.
  - intros q Hq Hq' sl'. rewrite HL in Hq'. set_solver.
  - rewrite list_fmap_insert. by apply lsegto_insert_ne.
  - intros sl' q Hd Hq. rewrite list_fmap_insert. apply list_lookup_insert_ne.
    intros ->. apply Hd, (lo_disj _ _ H sl' sl q Hq). rewrite HL. set_solver.
Qed.

Lemma remove_inner_spec s L sl l1 a p l2 (Q : Z → kstate E → Prop) :
  lists_ok s L → valid sl → L sl = l1 ++ a :: p :: l2 →
  (∀ s', relisted s s' → lists_ok s' (<[sl := l1 ++ a :: l2]> L) → Q 0 s') →
  wp (removeFromStateList sl (Some p)) Q s.
Proof.
  intros H Hv HL HQ. destruct (lo_seg _ _ H sl Hv) as (h & Hh & Hl).
  pose proof (lo_nodup _ _ H sl) as Hnd. rewrite HL in Hl, Hnd.
  assert (Hin : ∀ q, q ∈ l1 ++ a :: p :: l2 → q ∈ L sl) by (by rewrite HL).
  assert (Hl' := Hl). rewrite (cons_middle a l1), (assoc_L (++)) in Hl'.
  apply lsegto_app in Hl' as (m & Hl1 & -> & n & Hn & Hl2).
  assert (Hpl : p ∉ l1 ++ [a]).
  { rewrite (cons_middle a l1), (assoc_L (++)) in Hnd. apply NoDup_app in Hnd. set_solver. }
  assert (Hpa : a ≠ p) by set_solver.
  destruct (lookup_lt_is_Some_2 (k_procs s) a) as [y Hy].
  { rewrite (lo_len _ _ H). eapply (lists_ok_bound s L sl); [done|]. set_solver. }
  assert (Hn' := Hn). apply nexts_lookup in Hn as (x & Hx & <-).
  unfold removeFromStateList. wp_step. eapply wp_get_head; [done|].
  destruct h as [h|]; [|by destruct l1, Hl1].
  assert (h ≠ p) by (destruct l1; destruct Hl1; simplify_eq; set_solver).
  cbv match. rewrite decide_False by done. wp_step.
  eapply find_prev_spec; [exact Hl1|done| |].
  { pose proof (lists_ok_length s L sl H) as Hlen. rewrite HL in Hlen.
    rewrite !length_app in *. simpl in *. lia. }
  rewrite last_snoc. cbv match. wp_step. eapply wp_rd; [done|]. unfold deref.
  wp_steps. eapply wp_wr; [done|]. wp_step.
  eapply wp_wr; [simpl; by rewrite list_lookup_insert_ne|]. wp_step. simpl.
  match goal with |- Q _ ?s' => replace s' with (s <| k_procs := k_procs s' |>
    <| k_lists ::= with_head sl (Some h) |>) by (by rewrite <- keep_head) end. simpl.
  apply HQ.
  { eexists _, _. split; [reflexivity|]. by apply core_insert2. }
  apply lists_ok_update; try done.
  - rewrite (cons_middle a l1), (assoc_L (++)) in Hnd |- *.
    apply NoDup_app in Hnd as (? & ? & [? ?]%NoDup_cons). apply NoDup_app. set_solver.
  - by apply core_insert2.
  - set_solver.
  - rewrite !list_fmap_insert. by apply lseg_unlink.
  - intros sl' q Hd Hq. assert (q ∉ L sl) by (intros Hq'; by apply Hd, (lo_disj _ _ H sl' sl q)).
    rewrite !list_fmap_insert, !list_lookup_insert_ne; [done|set_solver|set_solver].
Qed.

Lemma remove_spec s L sl p (Q : Z → kstate E → Prop) :
  lists_ok s L → valid sl → p ∈ L sl →
  (∀ s', relisted s s' → lists_ok s' (<[sl := without p (L sl)]> L) → Q 0 s') →
  wp (removeFromStateList sl (Some p)) Q s.
Proof.
  intros H Hv Hp HQ. pose proof (lo_nodup _ _ H sl) as Hnd.
  apply list_elem_of_split in Hp as (l1 & l2 & HL). rewrite HL in Hnd, HQ.
  rewrite without_split in HQ; [|apply NoDup_app in Hnd; set_solver
    |apply NoDup_app in Hnd as (_ & _ & [? _]%NoDup_cons); done].
  destruct (snoc_or_nil l1) as [->|(l & a & ->)].
  - by eapply remove_first_spec.
  - rewrite <- (assoc_L (++)) in HL, HQ. by apply (remove_inner_spec s L sl l a p l2).
Qed.
End rep.
