(* ===== verification/ProcInv.v ===== *)
(** * Abstract view and invariant of the process table (proc.c)

    [rep a L s]: the linked lists of [s] hold the queues [L], and [s] is
    otherwise the state [a]. [homed o a L]: every process is on the list of
    its state, and on that one only; [o] is a process that is between two
    lists. The rules below run the primitives of proc.c on the pair
    [(a, L)], so that the specifications of the operations do not mention
    the links. *)

From S2P Require Import Prelude Mem Spinlock Str Proc ProcOps ProcLists.

(** The list of a process's state. *)
Definition home (x : proc) : slist :=
  match p_state x with
  | UNUSED => SFree
  | EMBRYO => SEmbryo
  | SLEEPING => SSleep
  | RUNNABLE => SReady (Z.to_nat (p_prio x))
  | RUNNING => SRunning
  | ZOMBIE => SZombie
  end.

Definition prio_ok (x : proc) : Prop := 0 ≤ p_prio x ≤ MAX.

(** Updates that leave the link alone. *)
Definition next_free (f : proc → proc) : Prop :=
  ∀ x n, f (x <| p_next := n |>) = (f x) <| p_next := n |>.

Lemma home_valid x : prio_ok x → valid (home x).
Proof.
  unfold prio_ok, home. destruct (p_state x); simpl; try done. unfold MAX. lia.
Qed.

Lemma ready_at_ok x : prio_ok x → ready_at (p_prio x) = SReady (Z.to_nat (p_prio x)).
Proof.
  unfold prio_ok, ready_at. intros [H1 H2].
  by rewrite (proj2 (Z.leb_le _ _) H1), (proj2 (Z.leb_le _ _) H2).
Qed.

Lemma ready_at_home x : prio_ok x → p_state x = RUNNABLE → ready_at (p_prio x) = home x.
Proof. intros Hx Hst. rewrite ready_at_ok by done. unfold home. by rewrite Hst. Qed.

Section inv.
Context {E : Type}.
Implicit Types (a s : kstate E) (L : slist → list nat) (sl : slist) (p q : nat) (x : proc)
  (o : option nat).

Definition upd p (f : proc → proc) a : kstate E := a <| k_procs ::= alter f p |>.

Definition rep a L s : Prop := relisted a s ∧ lists_ok s L.

Definition homed o a L : Prop := ∀ p x, k_procs a !! p = Some x →
  prio_ok x ∧ ∀ sl, p ∈ L sl ↔ o ≠ Some p ∧ sl = home x.

Definition wf o a L s : Prop := rep a L s ∧ homed o a L.

(** ** Lemmas on [rep] *)

Lemma lists_ok_ext s s' L :
  lists_ok s L → nexts s' = nexts s → k_lists s' = k_lists s → lists_ok s' L.
Proof.
  intros H Hn Hl. split.
  - apply (f_equal length) in Hn. unfold nexts in Hn. rewrite !length_fmap in Hn.
    rewrite Hn. apply (lo_len _ _ H).
  - rewrite Hl. apply (lo_ready _ _ H).
  - rewrite Hn, Hl. apply (lo_seg _ _ H).
  - apply (lo_nodup _ _ H).
  - apply (lo_disj _ _ H).
  - apply (lo_invalid _ _ H).
Qed.

Lemma relisted_lookup_inv s s' p y :
  relisted s s' → k_procs s' !! p = Some y →
  ∃ x, k_procs s !! p = Some x ∧ y = x <| p_next := p_next y |>.
Proof.
  intros (ps & ls & -> & Hc) Hp. simpl in *.
  apply (f_equal (.!! p)) in Hc. rewrite !list_lookup_fmap, Hp in Hc. simpl in Hc.
  destruct (k_procs s !! p) as [x|]; [|done]. exists x. split; [done|].
  apply core_eq. by apply (inj Some) in Hc.
Qed.

Lemma rep_len a L s : rep a L s → length (k_procs a) = NPROC.
Proof.
  intros [(ps & ls & -> & Hc) H]. rewrite <- (lo_len _ _ H). simpl.
  apply (f_equal length) in Hc. by rewrite !length_fmap in Hc.
Qed.

Lemma rep_some a L s p x : rep a L s → k_procs a !! p = Some x → (p < NPROC)%nat.
Proof. intros H Hp. rewrite <- (rep_len a L s H). by eapply lookup_lt_Some. Qed.

Lemma rep_self s L : lists_ok s L → rep s L s.
Proof. split; [apply relisted_refl|done]. Qed.

Lemma core_next_free f x : next_free f → core (f x) = f (core x).
Proof. intros Hf. unfold core. by rewrite Hf. Qed.

(** Updates of other parts of the state. *)
Definition list_free (f : kstate E → kstate E) : Prop :=
  ∀ s ps ls, f (s <| k_procs := ps |> <| k_lists := ls |>)
             = (f s) <| k_procs := ps |> <| k_lists := ls |> ∧ k_procs (f s) = k_procs s.

Lemma rep_free a L s f : list_free f → rep a L s → rep (f a) L (f s).
Proof.
  intros Hf [(ps & ls & -> & Hc) H]. split.
  - exists ps, ls. split; [apply Hf|]. by rewrite (proj2 (Hf a ps ls)).
  - eapply lists_ok_ext; [exact H| |]; by rewrite (proj1 (Hf a ps ls)).
Qed.

Lemma rep_upd a L s p f x :
  rep a L s → next_free f → k_procs s !! p = Some x →
  rep (upd p f a) L (s <| k_procs := <[p := f x]> (k_procs s) |>).
Proof.
  intros [(ps & ls & -> & Hc) H] Hf Hx. simpl in Hx. split.
  - exists (<[p := f x]> ps), ls. split; [done|]. simpl.
    rewrite (list_fmap_alter _ _ f) by (apply Forall_forall; intros; by apply core_next_free).
    rewrite <- Hc, list_fmap_insert, (core_next_free f) by done.
    apply list_eq. intros q. destruct (decide (p = q)) as [->|].
    + rewrite list_lookup_insert_eq by (rewrite length_fmap; by eapply lookup_lt_Some).
      by rewrite list_lookup_alter_eq, list_lookup_fmap, Hx.
    + by rewrite list_lookup_insert_ne, list_lookup_alter_ne.
  - eapply lists_ok_ext; [exact H| |done]. unfold nexts. simpl. rewrite list_fmap_insert.
    apply list_insert_id. rewrite list_lookup_fmap, Hx. simpl. f_equal.
    replace (f x) with (f (x <| p_next := p_next x |>)) by (f_equal; by destruct x).
    by rewrite Hf.
Qed.

(** ** Lemmas on [homed] *)

Lemma homed_remove a L p x :
  homed None a L → k_procs a !! p = Some x →
  homed (Some p) a (<[home x := without p (L (home x))]> L).
Proof.
  intros H Hp q y Hq. destruct (H q y Hq) as [Hy Hin]. split; [done|]. intros sl.
  unfold insert, fn_insert. case_decide as Hd; [subst sl; rewrite elem_of_without|]; rewrite Hin.
  - naive_solver.
  - split; [|naive_solver]. intros [_ ->]. split; [|done]. intros [= ->].
    by assert (x = y) as -> by congruence.
Qed.

Lemma homed_insert a L p x l :
  homed (Some p) a L → k_procs a !! p = Some x → (∀ q, q ∈ l ↔ q = p ∨ q ∈ L (home x)) →
  homed None a (<[home x := l]> L).
Proof.
  intros H Hp Hl q y Hq. destruct (H q y Hq) as [Hy Hin]. split; [done|]. intros sl.
  unfold insert, fn_insert. case_decide as Hd; [subst sl; rewrite Hl|]; rewrite Hin.
  - destruct (decide (q = p)) as [->|]; [|naive_solver].
    assert (x = y) as -> by congruence. naive_solver.
  - split; [naive_solver|]. intros [_ ->]. split; [|done]. intros [= ->].
    by assert (x = y) as -> by congruence.
Qed.

Lemma homed_upd o a L p f :
  homed o a L →
  (∀ x, k_procs a !! p = Some x → prio_ok (f x) ∧ (o = Some p ∨ home (f x) = home x)) →
  homed o (upd p f a) L.
Proof.
  intros H Hf q y. unfold upd. simpl. destruct (decide (p = q)) as [->|].
  - rewrite list_lookup_alter_eq. intros (x & Hx & ->)%fmap_Some.
    destruct (Hf x Hx) as [Hpr Ho], (H q x Hx) as [_ Hin]. split; [done|]. intros sl. rewrite Hin.
    naive_solver congruence.
  - rewrite list_lookup_alter_ne by done. apply H.
Qed.

(** ** Running the primitives *)

Section rules.
Context {a : kstate E} {L : slist → list nat} {s : kstate E} {o : option nat}.

Lemma wf_rd p x (Q : proc → kstate E → Prop) :
  wf o a L s → k_procs a !! p = Some x → (∀ n, Q (x <| p_next := n |>) s) → wp (rd p) Q s.
Proof.
  intros [[Hr _] _] Hx HQ. destruct (relisted_lookup _ _ _ _ Hr Hx) as [n Hn].
  eapply wp_rd; [done|]. apply HQ.
Qed.

Lemma wf_wr p f x (Q : unit → kstate E → Prop) :
  wf o a L s → k_procs a !! p = Some x → next_free f →
  prio_ok (f x) → o = Some p ∨ home (f x) = home x →
  (∀ s', wf o (upd p f a) L s' → Q tt s') → wp (wr p f) Q s.
Proof.
  intros [Hr H] Hx Hf Hpr Ho HQ.
  destruct (relisted_lookup _ _ _ _ (proj1 Hr) Hx) as [n Hn].
  eapply wp_wr; [done|]. apply HQ. split; [by apply rep_upd|].
  apply homed_upd; [done|]. intros y Hy. by assert (x = y) as -> by congruence.
Qed.

Lemma wf_get_head sl (Q : option nat → kstate E → Prop) :
  wf o a L s → valid sl → Q (head (L sl)) s → wp (get_head sl) Q s.
Proof.
  intros [[_ H] _] Hv HQ. destruct (lo_seg _ _ H sl Hv) as (h & Hh & Hl).
  eapply wp_get_head; [done|]. unfold lseg in Hl. destruct (L sl); simpl in *; [by subst h|].
  by destruct Hl as [-> _].
Qed.

Lemma wf_remove p x sl (Q : Z → kstate E → Prop) :
  wf None a L s → k_procs a !! p = Some x → home x = sl →
  (∀ s', wf (Some p) a (<[sl := without p (L sl)]> L) s' → Q 0 s') →
  wp (removeFromStateList sl (Some p)) Q s.
Proof.
  intros [[Hr H] Hh] Hp <- HQ. destruct (Hh p x Hp) as [Hpr Hin].
  eapply remove_spec; [done|by apply home_valid|by apply Hin|].
  intros s' Hr' H'. apply HQ. split; [|by apply homed_remove].
  split; [by eapply relisted_trans|done].
Qed.

Lemma wf_out p x sl : wf (Some p) a L s → k_procs a !! p = Some x → p ∉ L sl.
Proof. intros [_ H] Hp Hi. destruct (H p x Hp) as [_ Hin]. by apply Hin in Hi as [? _]. Qed.

Lemma wf_insertHead p x sl (Q : Z → kstate E → Prop) :
  wf (Some p) a L s → k_procs a !! p = Some x → home x = sl →
  (∀ s', wf None a (<[sl := p :: L sl]> L) s' → Q 0 s') →
  wp (insertHead sl (Some p)) Q s.
Proof.
  intros W Hp <- HQ. pose proof W as [[Hr H] Hh]. destruct (Hh p x Hp) as [Hpr Hin].
  eapply insertHead_spec; [done|by apply home_valid|by eapply rep_some| |].
  { intros sl. by eapply wf_out. }
  intros s' Hr' H'. apply HQ. split; [split; [by eapply relisted_trans|done]|].
  apply (homed_insert a L p x); [done..|]. intros q. by rewrite elem_of_cons.
Qed.

Lemma wf_insertTail p x sl (Q : Z → kstate E → Prop) :
  wf (Some p) a L s → k_procs a !! p = Some x → home x = sl →
  (∀ s', wf None a (<[sl := L sl ++ [p]]> L) s' → Q 0 s') →
  wp (insertTail sl (Some p)) Q s.
Proof.
  intros W Hp <- HQ. pose proof W as [[Hr H] Hh]. destruct (Hh p x Hp) as [Hpr Hin].
  eapply insertTail_spec; [done|by apply home_valid|by eapply rep_some| |].
  { intros sl. by eapply wf_out. }
  intros s' Hr' H'. apply HQ. split; [split; [by eapply relisted_trans|done]|].
  apply (homed_insert a L p x); [done..|]. intros q.
  rewrite elem_of_app, list_elem_of_singleton. tauto.
Qed.

Lemma wf_assertState p x st (Q : unit → kstate E → Prop) :
  wf o a L s → k_procs a !! p = Some x → p_state x = st → Q tt s → wp (assertState p st) Q s.
Proof.
  intros W Hx Hst HQ. unfold assertState. wp_step. eapply wf_rd; [done..|]. intros n.
  apply wp_panic_if; [|done]. by rewrite bool_decide_true.
Qed.

Lemma wf_assertPrio p x pr (Q : unit → kstate E → Prop) :
  wf o a L s → k_procs a !! p = Some x → p_prio x = pr → Q tt s → wp (assertPrio p pr) Q s.
Proof.
  intros W Hx Hst HQ. unfold assertPrio. wp_step. eapply wf_rd; [done..|]. intros n.
  apply wp_panic_if; [|done]. simpl. by rewrite Hst, Z.eqb_refl.
Qed.

End rules.

Lemma wf_removeReady a L s p x pr (Q : unit → kstate E → Prop) :
  wf None a L s → k_procs a !! p = Some x → p_state x = RUNNABLE → p_prio x = pr →
  (∀ s', wf (Some p) a (<[home x := without p (L (home x))]> L) s' → Q tt s') →
  wp (removeFromReadyList p pr) Q s.
Proof.
  intros W Hx Hst <- HQ. unfold removeFromReadyList. destruct (proj2 W p x Hx) as [Hpr _].
  rewrite ready_at_home by done. wp_step. eapply wf_remove; [done..|]. intros s' W'. wp_step.
  eapply wf_assertPrio; [done..|]. eapply wf_assertState; [done..|]. by apply HQ.
Qed.

(** ** The rest of the state *)

Lemma homed_ext o a a' L : homed o a L → k_procs a' = k_procs a → homed o a' L.
Proof. intros H Heq p x. rewrite Heq. apply H. Qed.

Lemma wf_free o a L s f : list_free f → wf o a L s → wf o (f a) L (f s).
Proof.
  intros Hf [Hr Hh]. split; [by apply rep_free|]. eapply homed_ext; [done|].
  apply (proj2 (Hf a (k_procs a) (k_lists a))).
Qed.

Lemma wf_modify o a L s f (Q : unit → kstate E → Prop) :
  wf o a L s → list_free f → (∀ s', wf o (f a) L s' → Q tt s') → wp (modify f) Q s.
Proof. intros W Hf HQ. apply HQ. by apply wf_free. Qed.

Lemma wf_gets {A} o a L s (f : kstate E → A) (Q : A → kstate E → Prop) :
  wf o a L s → (∀ a ps ls, f (a <| k_procs := ps |> <| k_lists := ls |>) = f a) →
  Q (f a) s → wp (gets f) Q s.
Proof. intros [[(ps & ls & -> & _) _] _] Hf HQ. unfold wp, gets. by rewrite Hf. Qed.

Lemma wf_hw o a L s : wf o a L s → k_hw s = k_hw a.
Proof. by intros [[(ps & ls & -> & _) _] _]. Qed.

Lemma wf_env o a L s : wf o a L s → k_env s = k_env a.
Proof. by intros [[(ps & ls & -> & _) _] _]. Qed.

Lemma wf_set_hw o a L s h : wf o a L s → wf o (a <| k_hw := h |>) L (s <| k_hw := h |>).
Proof. by apply (wf_free o a L s (λ s, s <| k_hw := h |>)). Qed.

Lemma wf_set_env o a L s e : wf o a L s → wf o (a <| k_env := e |>) L (s <| k_env := e |>).
Proof. by apply (wf_free o a L s (λ s, s <| k_env := e |>)). Qed.

Lemma wf_hwop {A} o a L s (m : M hw A) (Q : A → kstate E → Prop) :
  wf o a L s → wp m (λ v h, ∀ s', wf o (a <| k_hw := h |>) L s' → Q v s') (k_hw a) →
  wp (hwop m) Q s.
Proof.
  intros W Hm. unfold hwop. apply wp_lift. rewrite (wf_hw _ _ _ _ W).
  eapply wp_mono; [exact Hm|]. intros v h HQ. apply HQ. by apply wf_set_hw.
Qed.

Lemma wf_envop {A} o a L s (m : M E A) (Q : A → kstate E → Prop) :
  wf o a L s → wp m (λ v e, ∀ s', wf o (a <| k_env := e |>) L s' → Q v s') (k_env a) →
  wp (envop m) Q s.
Proof.
  intros W Hm. unfold envop. apply wp_lift. rewrite (wf_env _ _ _ _ W).
  eapply wp_mono; [exact Hm|]. intros v h HQ. apply HQ. by apply wf_set_env.
Qed.

Lemma wf_holding o a L s l (Q : bool → kstate E → Prop) :
  wf o a L s →
  (∀ s', wf o a L s' → Q (lk_locked (h_locks (k_hw a) l)
     && bool_decide (lk_cpu (h_locks (k_hw a) l) = Some (c_id (h_cpu (k_hw a))))) s') →
  wp (hwop (holding l)) Q s.
Proof.
  intros W HQ. eapply wf_hwop; [exact W|]. intros s' W'. apply HQ. by destruct a.
Qed.

Definition locks_set (l : lockid) (v : spinlock) (h h' : hw) : Prop :=
  same_cpu (h_cpu h) (h_cpu h') ∧ ∀ k, h_locks h' k = <[l := v]> (h_locks h) k.

Lemma wf_acquire o a L s l held e (Q : unit → kstate E → Prop) :
  wf o a L s → disc (k_hw a) held e → lk_locked (h_locks (k_hw a) l) = false →
  (∀ h s', disc h (l :: held) e →
     locks_set l (mkLock true (Some (c_id (h_cpu (k_hw a))))) (k_hw a) h →
     wf o (a <| k_hw := h |>) L s' → Q tt s') →
  wp (hwop (acquire l)) Q s.
Proof.
  intros W D Hf HQ. eapply wf_hwop; [exact W|]. eapply acquire_spec; [done..|].
  intros h Dh Hs Hk s' W'. by eapply HQ.
Qed.

Lemma wf_release o a L s l held e (Q : unit → kstate E → Prop) :
  wf o a L s → disc (k_hw a) (l :: held) e →
  (∀ h s', disc h held e → locks_set l (mkLock false None) (k_hw a) h →
     wf o (a <| k_hw := h |>) L s' → Q tt s') →
  wp (hwop (release l)) Q s.
Proof.
  intros W D HQ. eapply wf_hwop; [exact W|]. eapply release_spec; [done|].
  intros h Dh Hs Hk s' W'. by eapply HQ.
Qed.

Lemma locks_set_twice l v w h1 h2 h3 :
  locks_set l v h1 h2 → locks_set l w h2 h3 → locks_set l w h1 h3.
Proof.
  intros [Hs Hk] [Hs' Hk']. split; [unfold same_cpu in *; naive_solver congruence|].
  intros k. rewrite Hk'. unfold insert, fn_insert in *. case_decide; [done|]. rewrite Hk.
  by rewrite decide_False.
Qed.

(** ** Updates of one process *)

Lemma lookup_upd a p f x : k_procs a !! p = Some x → k_procs (upd p f a) !! p = Some (f x).
Proof. intros Hx. unfold upd. simpl. by rewrite list_lookup_alter_eq, Hx. Qed.

Lemma lookup_upd_ne a p q f x :
  p ≠ q → k_procs a !! q = Some x → k_procs (upd p f a) !! q = Some x.
Proof. intros Hpq Hx. unfold upd. simpl. by rewrite list_lookup_alter_ne. Qed.

Lemma lookup_upd_inv a p q f y : k_procs (upd p f a) !! q = Some y →
  ∃ x, k_procs a !! q = Some x ∧ y = (if decide (p = q) then f x else x).
Proof.
  unfold upd. simpl. rewrite list_lookup_alter. case_decide as Hd; [subst q|].
  - intros (x & Hx & ->)%fmap_Some. by exists x.
  - intros Hy. by exists y.
Qed.

Lemma upd_ext a p f g :
  (∀ x, k_procs a !! p = Some x → f x = g x) → upd p f a = upd p g a.
Proof.
  intros Hfg. unfold upd, field_upd. simpl. f_equal. apply list_eq. intros q.
  rewrite !list_lookup_alter. case_decide as Hd; [subst q|done].
  destruct (k_procs a !! p) eqn:Hx; simpl; [|done]. f_equal. by apply Hfg.
Qed.

Lemma upd_same a q f x : k_procs a !! q = Some x → f x = x → upd q f a = a.
Proof.
  intros Hx Hf.  unfold upd, field_upd. simpl.
  destruct a as [h ps]. simpl in *. f_equal. apply list_eq. intros r.
  rewrite list_lookup_alter. case_decide; [subst r|done]. by rewrite Hx; simpl; rewrite Hf.
Qed.

Lemma upd_upd a p f g : upd p f (upd p g a) = upd p (λ x, f (g x)) a.
Proof.
  unfold upd, field_upd. simpl. f_equal. apply list_alter_alter_eq.
Qed.

Lemma wf_prio o a L s p x : wf o a L s → k_procs a !! p = Some x → prio_ok x.
Proof. intros [_ H] Hx. apply (H p x Hx). Qed.

Lemma wf_in a L s p x sl : wf None a L s → k_procs a !! p = Some x → p ∈ L sl ↔ sl = home x.
Proof. intros [_ H] Hx. destruct (H p x Hx) as [_ ->]. naive_solver. Qed.

(** The process at a position of a list. *)
Lemma wf_member o a L s sl p :
  wf o a L s → p ∈ L sl → ∃ x, k_procs a !! p = Some x ∧ home x = sl ∧ o ≠ Some p.
Proof.
  intros [[Hr H] Hh] Hp. pose proof (lists_ok_bound _ _ _ _ H Hp) as Hb.
  destruct (lookup_lt_is_Some_2 (k_procs a) p) as [x Hx].
  { rewrite (rep_len a L s); [done|by split]. }
  exists x. split; [done|]. destruct (Hh p x Hx) as [_ Hin]. apply Hin in Hp. naive_solver.
Qed.

Lemma upd_unfold p f a : upd p f a = a <| k_procs ::= alter f p |>.
Proof. done. Qed.
Lemma upd_hw p f a h : upd p f (a <| k_hw := h |>) = (upd p f a) <| k_hw := h |>.
Proof. done. Qed.
Lemma upd_env p f a e : upd p f (a <| k_env := e |>) = (upd p f a) <| k_env := e |>.
Proof. done. Qed.
Lemma upd_nextpid p f a n : upd p f (a <| k_nextpid := n |>) = (upd p f a) <| k_nextpid := n |>.
Proof. done. Qed.
Lemma upd_promote p f a n : upd p f (a <| k_promote := n |>) = (upd p f a) <| k_promote := n |>.
Proof. done. Qed.
Lemma upd_initproc p f a i : upd p f (a <| k_initproc := i |>) = (upd p f a) <| k_initproc := i |>.
Proof. done. Qed.
Lemma k_hw_upd p f a : k_hw (upd p f a) = k_hw a.
Proof. done. Qed.
Lemma k_env_upd p f a : k_env (upd p f a) = k_env a.
Proof. done. Qed.
Lemma k_ticks_upd p f a : k_ticks (upd p f a) = k_ticks a.
Proof. done. Qed.
Lemma k_nextpid_upd p f a : k_nextpid (upd p f a) = k_nextpid a.
Proof. done. Qed.
Lemma k_initproc_upd p f a : k_initproc (upd p f a) = k_initproc a.
Proof. done. Qed.
Lemma k_promote_upd p f a : k_promote (upd p f a) = k_promote a.
Proof. done. Qed.

Lemma wf_upd_eq o a L s p f g :
  wf o (upd p f a) L s → (∀ x, k_procs a !! p = Some x → f x = g x) → wf o (upd p g a) L s.
Proof. intros W Hfg. by rewrite <- (upd_ext _ _ f g Hfg). Qed.

(** Only the values of the queues matter. *)
Lemma lists_ok_queues s L L' : lists_ok s L → (∀ sl, L' sl = L sl) → lists_ok s L'.
Proof.
  intros [H1 H2 H3 H4 H5 H6] HL. split; try done.
  - intros sl. rewrite HL. apply H3.
  - intros sl. rewrite HL. apply H4.
  - intros sl sl' p. rewrite !HL. apply H5.
  - intros sl. rewrite HL. apply H6.
Qed.

Lemma wf_queues o a L L' s : wf o a L s → (∀ sl, L' sl = L sl) → wf o a L' s.
Proof.
  intros [[Hr H] Hh] HL. split; [split; [done|by eapply lists_ok_queues]|].
  intros p x Hx. destruct (Hh p x Hx) as [Hpr Hin]. split; [done|]. intros sl. by rewrite HL.
Qed.

(** The link of a process on a list. *)
Lemma wf_rd_next o a L s q x sl l1 l2 (Q : proc → kstate E → Prop) :
  wf o a L s → k_procs a !! q = Some x → L sl = l1 ++ q :: l2 →
  Q (x <| p_next := head l2 |>) s → wp (rd q) Q s.
Proof.
  intros [[Hr H] Hh] Hx HL HQ. destruct (relisted_lookup _ _ _ _ Hr Hx) as [n Hn].
  eapply wp_rd; [done|]. assert (Hv : valid sl).
  { destruct (decide (valid sl)) as [|Hv]; [done|]. apply (lo_invalid _ _ H) in Hv.
    rewrite HL in Hv. by destruct l1. }
  destruct (lo_seg _ _ H sl Hv) as (h & _ & Hl). rewrite HL in Hl.
  apply lsegto_app in Hl as (m & _ & -> & n' & Hn' & Hl).
  assert (n' = n) as ->.
  { unfold nexts in Hn'. rewrite list_lookup_fmap, Hn in Hn'. simpl in Hn'. congruence. }
  destruct l2; simpl in *; [by subst n|]. by destruct Hl as [-> _].
Qed.

Lemma wf_nodup o a L s sl : wf o a L s → NoDup (L sl).
Proof. intros [[_ H] _]. apply (lo_nodup _ _ H). Qed.

Lemma wf_length o a L s sl : wf o a L s → (length (L sl) ≤ NPROC)%nat.
Proof. intros [[_ H] _]. by apply (lists_ok_length s). Qed.

Lemma home_state x y : p_state x ≠ RUNNABLE → p_state y = p_state x → home y = home x.
Proof. unfold home. intros Hx ->. by destruct (p_state x). Qed.
End inv.

#[global] Opaque upd.
Create Rewrite HintDb upd.
#[export] Hint Rewrite @k_hw_upd @k_env_upd @k_ticks_upd @k_nextpid_upd @k_initproc_upd
  @k_promote_upd @upd_hw @upd_env @upd_nextpid @upd_promote @upd_initproc @upd_upd : upd.

(** [psimpl] computes the fields of updated states; [pnorm W] brings the
    state of [W] to the form [upd p f a] with the other fields set outside. *)
Ltac psimpl := simpl; autorewrite with upd; simpl.
Ltac pnorm W := autorewrite with upd in W; simpl in W; autorewrite with upd in W.

(** [kgen W b]: the states of [W] and of the goal are updates of the other
    fields of [b]; the kernel compares them with [b] a constructor. *)
Ltac kgen W b :=
  match type of W with context [upd ?p ?f ?a] => change (upd p f a) with b in W end;
  let c := fresh "b" in set (c := b) in *; clearbody c; destruct c;
  lazy beta iota zeta delta [field_upd k_hw k_procs k_lists k_promote k_initproc k_nextpid k_first
    k_ticks k_env] in W |- *.

(** ** Tactics *)

(** [plook] looks a process up through updates, [pside] discharges the side
    conditions of the rules, [pstep] applies the rule of the next primitive. *)
Ltac plook :=
  simpl; autorewrite with upd; simpl;
  first [ eassumption
        | eapply lookup_upd; plook
        | eapply lookup_upd_ne; [first [done | congruence]|plook] ].

Ltac pside :=
  first [ eassumption | plook | reflexivity | (intros; reflexivity)
        | (left; reflexivity) | (right; reflexivity) | done ].

Ltac pprio := solve [unfold prio_ok in *; simpl; lia].

Ltac prec :=
  lazy beta iota delta [field_upd p_sz p_pgdir p_kstack p_state p_pid p_parent p_tf p_tfptr p_context
    p_ctxptr p_chan p_killed p_ofile p_cwd p_name p_start_ticks p_uid p_gid p_cpu_ticks_total
    p_cpu_ticks_in p_next p_prio p_budget].
Ltac pnext := solve [let x := fresh in intros x ?; destruct x; prec; reflexivity | pside].
Ltac phome := solve [left; reflexivity | right; unfold home; simpl; reflexivity].

Ltac pstep :=
  lazymatch goal with
  | W : wf _ _ _ ?s |- wp (rd _) _ ?s => eapply (wf_rd _ _ _ W); [plook|intros ?; simpl]
  | W : wf _ _ _ ?s |- wp (wr _ _) _ ?s =>
    eapply (wf_wr _ _ _ _ W); [plook|pnext|try pprio|try phome|clear W; intros ? W]
  | W : wf _ _ _ ?s |- wp (get_head _) _ ?s => eapply (wf_get_head _ _ W); [try done|]
  | W : wf _ _ _ ?s |- wp (removeFromStateList _ _) _ ?s =>
    eapply (wf_remove _ _ _ _ W); [plook|try pside|clear W; intros ? W]
  | W : wf _ _ _ ?s |- wp (insertHead _ _) _ ?s =>
    eapply (wf_insertHead _ _ _ _ W); [plook|try pside|clear W; intros ? W]
  | W : wf _ _ _ ?s |- wp (insertTail _ _) _ ?s =>
    eapply (wf_insertTail _ _ _ _ W); [plook|try pside|clear W; intros ? W]
  | W : wf _ _ _ ?s |- wp (assertState _ _) _ ?s => eapply (wf_assertState _ _ _ _ W); [plook|try pside|]
  | W : wf _ _ _ ?s |- wp (assertPrio _ _) _ ?s => eapply (wf_assertPrio _ _ _ _ W); [plook|try pside|]
  | W : wf _ _ _ ?s |- wp ticks _ ?s => eapply (wf_gets _ _ _ _ _ _ W); [done|simpl]
  | W : wf _ _ _ ?s |- wp curproc _ ?s => eapply (wf_gets _ _ _ _ _ _ W); [done|simpl]
  | W : wf _ _ _ ?s |- wp curcpu _ ?s => eapply (wf_gets _ _ _ _ _ _ W); [done|simpl]
  | W : wf _ _ _ ?s |- wp (gets _) _ ?s => eapply (wf_gets _ _ _ _ _ _ W); [done|simpl]
  | W : wf _ _ _ ?s |- wp (modify _) _ ?s =>
    eapply (wf_modify _ _ _ _ _ _ W); [done|clear W; intros ? W]
  | W : wf _ _ _ ?s |- wp (upd_cpu _) _ ?s =>
    eapply (wf_modify _ _ _ _ _ _ W); [done|clear W; intros ? W]
  | |- wp (panic_if _ _) _ _ => apply wp_panic_if; [try done|]
  | |- _ => wp_step
  end.
Ltac psteps := repeat pstep.

(** ** Loops over a list and over the ready queues *)

Section loops.
Context {E : Type} {R : Type}.
Implicit Types (a s : kstate E) (L : slist → list nat).

(** The body is run on each process of [L sl] in turn, keeps that list as it
    is, and either leaves the loop with a value or establishes the
    invariant for the longer prefix. *)
Lemma walk_inv (I : list nat → kstate E → (slist → list nat) → Prop) sl
    (body : nat → M (kstate E) (option R)) (Q : option R → kstate E → Prop) fuel l1 l a L s :
  (∀ l1 q l2 a L s, wf None a L s → I l1 a L → L sl = l1 ++ q :: l2 →
     wp (body q) (λ r s', match r with
       | Some v => Q (Some v) s'
       | None => ∃ a' L', wf None a' L' s' ∧ L' sl = L sl ∧ I (l1 ++ [q]) a' L'
       end) s) →
  wf None a L s → I l1 a L → L sl = l1 ++ l → (length l ≤ fuel)%nat →
  (∀ a L s, wf None a L s → I (L sl) a L → Q None s) →
  wp (walk fuel (head l) body) Q s.
Proof.
  intros Hb. revert fuel l1 a L s. induction l as [|q l IH]; intros fuel l1 a L s W HI HL Hf HQ.
  { rewrite app_nil_r in HL. subst l1. destruct fuel; simpl; by eapply HQ. }
  destruct fuel as [|fuel]; simpl in *; [lia|]. wp_step.
  eapply wp_mono; [by eapply Hb|]. intros [v|] s1; [by intros|].
  intros (a' & L' & W' & HL' & HI'). wp_step.
  assert (Hq : q ∈ L' sl) by (rewrite HL', HL; set_solver).
  destruct (wf_member _ _ _ _ _ _ W' Hq) as (x & Hx & _ & _).
  eapply wf_rd_next; [exact W'|done|by rewrite HL'|]. simpl.
  eapply (IH fuel (l1 ++ [q])); [exact W'|done| |lia|done].
  by rewrite HL', HL, <- (assoc_L (++)).
Qed.

Lemma for_list_inv (I : list nat → kstate E → (slist → list nat) → Prop) sl
    (body : nat → M (kstate E) (option R)) (Q : option R → kstate E → Prop) a L s :
  (∀ l1 q l2 a L s, wf None a L s → I l1 a L → L sl = l1 ++ q :: l2 →
     wp (body q) (λ r s', match r with
       | Some v => Q (Some v) s'
       | None => ∃ a' L', wf None a' L' s' ∧ L' sl = L sl ∧ I (l1 ++ [q]) a' L'
       end) s) →
  valid sl → wf None a L s → I [] a L →
  (∀ a L s, wf None a L s → I (L sl) a L → Q None s) →
  wp (for_list sl body) Q s.
Proof.
  intros Hb Hv W HI HQ. unfold for_list. psteps.
  eapply (walk_inv I sl body Q); [done|exact W|done|done| |done]. by eapply wf_length.
Qed.

Lemma for_upto_inv (I : nat → kstate E → (slist → list nat) → Prop)
    (body : nat → M (kstate E) (option R)) (Q : option R → kstate E → Prop) i n a L s :
  (∀ j a L s, (i ≤ j < i + n)%nat → wf None a L s → I j a L →
     wp (body j) (λ r s', match r with
       | Some v => Q (Some v) s'
       | None => ∃ a' L', wf None a' L' s' ∧ I (S j) a' L'
       end) s) →
  wf None a L s → I i a L →
  (∀ a L s, wf None a L s → I (i + n)%nat a L → Q None s) →
  wp (for_upto i n body) Q s.
Proof.
  revert i a L s. induction n as [|n IH]; intros i a L s Hb W HI HQ; simpl.
  { wp_step. rewrite Nat.add_0_r in HQ. by eapply HQ. }
  wp_step. eapply wp_mono; [eapply Hb; [lia|done|done]|]. intros [v|] s1; [done|].
  intros (a' & L' & W' & HI'). eapply (IH (S i)); [|exact W'|exact HI'|].
  - intros j a1 L1 s2 Hj. apply Hb. lia.
  - intros a1 L1 s2 W2 HI2. eapply HQ; [exact W2|]. by replace (i + S n)%nat with (S i + n)%nat by lia.
Qed.
End loops.

(** ** Searches

    [scans m P l act a L]: from the state [(a, L)], [m] looks for the first
    process of [l] that satisfies [P]; it leaves the state alone when there
    is none, and ends as [act] says when there is one. *)

Section scans.
Context {E : Type} {R : Type}.
Implicit Types (a s : kstate E) (L : slist → list nat) (P : nat → bool) (l : list nat)
  (act : nat → R → kstate E → Prop) (m : M (kstate E) (option R)).

Definition scans m P l act a L : Prop := ∀ s, wf None a L s →
  wp m (λ r s', match find P l with
    | None => r = None ∧ wf None a L s'
    | Some q => ∃ v, r = Some v ∧ act q v s'
    end) s.

Lemma find_app P l1 l2 :
  find P (l1 ++ l2) = match find P l1 with Some q => Some q | None => find P l2 end.
Proof. induction l1 as [|q l1 IH]; simpl; [done|]. by destruct (P q). Qed.

Lemma find_mid P l1 q l2 : find P l1 = None → P q = true → find P (l1 ++ q :: l2) = Some q.
Proof. intros H1 Hq. rewrite find_app, H1. simpl. by rewrite Hq. Qed.

Lemma find_elem P l q : find P l = Some q → q ∈ l ∧ P q = true.
Proof. intros [Hq HP]%find_some. split; [|done]. by apply list_elem_of_In. Qed.

Lemma find_none_elem P l q : find P l = None → q ∈ l → P q = false.
Proof. intros Hn Hq. eapply find_none; [exact Hn|]. by apply list_elem_of_In. Qed.

Lemma scans_list P act a L sl (body : nat → M (kstate E) (option R)) :
  valid sl →
  (∀ q s, q ∈ L sl → wf None a L s →
     wp (body q) (λ r s', if P q then ∃ v, r = Some v ∧ act q v s'
                          else r = None ∧ wf None a L s') s) →
  scans (for_list sl body) P (L sl) act a L.
Proof.
  intros Hv Hb s W.
  apply (for_list_inv (λ l1 a1 L1, a1 = a ∧ L1 = L ∧ find P l1 = None) _ _ _ a L); [|done..|].
  - intros l1 q l2 a1 L1 s1 W1 (-> & -> & Hl1) HL.
    eapply wp_mono; [apply Hb; [rewrite HL; set_solver|exact W1]|]. intros r s2.
    destruct (P q) eqn:HP.
    + intros (v & -> & Ha). rewrite HL, find_mid by done. by exists v.
    + intros [-> W2]. exists a, L. split; [exact W2|]. split; [done|]. split; [done|]. split; [done|].
      rewrite find_app, Hl1. simpl. by rewrite HP.
  - intros a1 L1 s1 W1 (-> & -> & ->). done.
Qed.

Lemma scans_or_else P act a L m1 m2 l1 l2 :
  scans m1 P l1 act a L → scans m2 P l2 act a L → scans (or_else m1 m2) P (l1 ++ l2) act a L.
Proof.
  intros H1 H2 s W. unfold or_else. wp_step. eapply wp_mono; [by apply H1|]. intros r s1.
  rewrite find_app. destruct (find P l1) as [q|].
  - intros (v & -> & Ha). wp_step. by exists v.
  - intros [-> W1]. by apply H2.
Qed.

(** The ready queues from [i], [n] of them, one after the other. *)
Fixpoint ready_order L (i n : nat) : list nat :=
  match n with O => [] | S n => L (SReady i) ++ ready_order L (S i) n end.

Lemma scans_ready P act a L i n (body : nat → nat → M (kstate E) (option R)) :
  (i + n ≤ S (Z.to_nat MAX))%nat →
  (∀ j q s, (i ≤ j < i + n)%nat → q ∈ L (SReady j) → wf None a L s →
     wp (body j q) (λ r s', if P q then ∃ v, r = Some v ∧ act q v s'
                            else r = None ∧ wf None a L s') s) →
  scans (for_upto i n (λ j, for_list (SReady j) (body j))) P (ready_order L i n) act a L.
Proof.
  revert i. induction n as [|n IH]; intros i Hi Hb; [by intros s W|].
  change (scans (or_else (for_list (SReady i) (body i))
    (for_upto (S i) n (λ j, for_list (SReady j) (body j)))) P (ready_order L i (S n)) act a L).
  apply scans_or_else.
  - apply scans_list; [unfold valid; lia|]. intros q s Hq W. apply Hb; [lia|done|done].
  - apply IH; [lia|]. intros j q s Hj. apply Hb. lia.
Qed.

Lemma elem_of_ready_order L i n q :
  q ∈ ready_order L i n ↔ ∃ j, (i ≤ j < i + n)%nat ∧ q ∈ L (SReady j).
Proof.
  revert i. induction n as [|n IH]; intros i; simpl.
  - split; [set_solver|]. intros (j & ? & _). lia.
  - rewrite elem_of_app, IH. split.
    + intros [Hq|(j & Hj & Hq)]; [exists i|exists j]; (split; [lia|done]).
    + intros (j & Hj & Hq). destruct (decide (j = i)) as [->|]; [by left|right].
      exists j. split; [lia|done].
Qed.
End scans.

(** ** Updating every process of some lists *)

Definition on_lists (sls : list slist) (f : proc → proc) (x : proc) : proc :=
  if decide (home x ∈ sls) then f x else x.

Section each.
Context {E : Type} {R : Type}.
Implicit Types (a s : kstate E) (L : slist → list nat) (f : proc → proc).

(** The processes of the lists [sls], and of the prefix [l] of a further one. *)
Definition on_prefix (sls : list slist) (l : list nat) f (ps : list proc) : list proc :=
  imap (λ q x, if decide (home x ∈ sls ∨ q ∈ l) then f x else x) ps.

Lemma on_prefix_nil sls f ps : on_prefix sls [] f ps = on_lists sls f <$> ps.
Proof.
  apply list_eq. intros r. unfold on_prefix. rewrite list_lookup_imap, list_lookup_fmap.
  destruct (ps !! r) as [x|]; simpl; [|done]. f_equal. unfold on_lists. apply decide_ext. set_solver.
Qed.

Lemma on_prefix_snoc sls l q f ps x :
  ps !! q = Some x → home x ∉ sls → q ∉ l →
  on_prefix sls (l ++ [q]) f ps = alter f q (on_prefix sls l f ps).
Proof.
  intros Hx Hh Hq. apply list_eq. intros r. unfold on_prefix. rewrite list_lookup_alter.
  case_decide as Hd; [subst r|]; rewrite !list_lookup_imap.
  - rewrite Hx. simpl. by rewrite decide_True, decide_False by set_solver.
  - destruct (ps !! r) as [y|]; simpl; [|done]. f_equal. apply decide_ext. set_solver.
Qed.

Lemma on_prefix_all sls sl l f ps :
  (∀ q x, ps !! q = Some x → q ∈ l ↔ home x = sl) →
  on_prefix sls l f ps = on_lists (sl :: sls) f <$> ps.
Proof.
  intros Hl. apply list_eq. intros r. unfold on_prefix. rewrite list_lookup_imap, list_lookup_fmap.
  destruct (ps !! r) as [x|] eqn:Hx; simpl; [|done]. f_equal. unfold on_lists. apply decide_ext.
  rewrite (Hl r x Hx). set_solver.
Qed.

Lemma for_list_each f sls sl (body : nat → M (kstate E) (option R)) a L s
    (Q : option R → kstate E → Prop) :
  (∀ x, home (f x) = home x) →
  (∀ q x ps s, q ∈ L sl → ps !! q = Some x → wf None (a <| k_procs := ps |>) L s →
     wp (body q) (λ r s', r = None ∧ wf None (upd q f (a <| k_procs := ps |>)) L s') s) →
  valid sl → sl ∉ sls → wf None (a <| k_procs ::= fmap (on_lists sls f) |>) L s →
  (∀ s', wf None (a <| k_procs ::= fmap (on_lists (sl :: sls) f) |>) L s' → Q None s') →
  wp (for_list sl body) Q s.
Proof.
  intros Hf Hb Hv Hsl W HQ.
  assert (Hin : ∀ l a' s', a' = a <| k_procs ::= on_prefix sls l f |> → wf None a' L s' →
    ∀ q x, k_procs a !! q = Some x → q ∈ L sl ↔ home x = sl).
  { intros l a' s' -> W' q x Hx. rewrite (wf_in _ _ _ q (if decide (home x ∈ sls ∨ q ∈ l) then f x
      else x) _ W').
    - case_decide; rewrite ?Hf; naive_solver.
    - simpl. unfold on_prefix. by rewrite list_lookup_imap, Hx. }
  apply (for_list_inv (λ l1 a1 L1, a1 = a <| k_procs ::= on_prefix sls l1 f |> ∧ L1 = L) sl body _
    (a <| k_procs ::= on_prefix sls [] f |>) L).
  - intros l1 q l2 a1 L1 s1 W1 [-> ->] HL.
    assert (Hq : q ∈ L sl) by (rewrite HL; set_solver).
    pose proof (wf_nodup _ _ _ _ sl W1) as Hnd. rewrite HL in Hnd.
    apply NoDup_app in Hnd as (_ & Hd & _).
    destruct (wf_member _ _ _ _ _ _ W1 Hq) as (y & Hy & _ & _).
    assert (∃ x, k_procs a !! q = Some x) as [x Hx].
    { simpl in Hy. unfold on_prefix in Hy. rewrite list_lookup_imap in Hy.
      destruct (k_procs a !! q); [eauto|done]. }
    eapply wp_mono; [by eapply Hb; [exact Hq|exact Hy|exact W1]|]. intros r s2 [-> W2].
    eexists _, L. split; [exact W2|]. split; [done|]. split; [|done].
    rewrite upd_unfold. unfold field_upd. simpl. f_equal. symmetry.
    eapply on_prefix_snoc; [exact Hx| |].
    + by rewrite (proj1 (Hin l1 _ _ eq_refl W1 q x Hx) Hq).
    + intros Hl1. by apply (Hd q Hl1); left.
  - done.
  - unfold field_upd in *; simpl in *. by rewrite on_prefix_nil.
  - split; [|done]. done.
  - intros a1 L1 s1 W1 [-> ->]. apply HQ. unfold field_upd in *. simpl in *.
    rewrite <- (on_prefix_all sls sl (L sl) f (k_procs a)); [exact W1|]. by eapply Hin.
Qed.
End each.
