(* ===== verification/ProcSpec.v ===== *)
(** * Specifications of the process operations (proc.c)

    Each operation of ProcOps is characterised on the abstract view of
    ProcInv: what it does to the processes and to the queues, on every
    branch. The specifications are total: the operation returns, so it
    neither fails an assertion of the list code nor follows a null pointer
    nor loops. *)

From S2P Require Import Prelude Mem Spinlock Str Proc ProcOps ProcLists ProcInv.

(** ** The effect of an operation on one process *)

(** budgetupdate(): charge the time since the process was scheduled in;
    at the end of the budget, demote and refill. *)
Definition charge (t : Z) (x : proc) : proc :=
  let b := s32 (p_budget x - u32 (t - p_cpu_ticks_in x)) in
  if b <=? 0 then
    x <| p_prio := if p_prio x <? MAX then p_prio x + 1 else p_prio x |> <| p_budget := BUDGET |>
  else x <| p_budget := b |>.

(** sched(): account the CPU time and save the context. *)
Definition leave (t : Z) (k : resume) (x : proc) : proc :=
  x <| p_cpu_ticks_total := u32 (p_cpu_ticks_total x + u32 (t - p_cpu_ticks_in x)) |>
    <| p_context := k |>.

Definition to_tail (sl : slist) (p : nat) (L : slist → list nat) : slist → list nat :=
  <[sl := L sl ++ [p]]> L.
Definition to_head (sl : slist) (p : nat) (L : slist → list nat) : slist → list nat :=
  <[sl := p :: L sl]> L.
Definition take_off (sl : slist) (p : nat) (L : slist → list nat) : slist → list nat :=
  <[sl := without p (L sl)]> L.

Lemma charge_prio t x : prio_ok x → prio_ok (charge t x).
Proof.
  unfold prio_ok, charge. intros H. destruct (_ <=? 0); simpl; [|done].
  destruct (p_prio x <? MAX) eqn:Hlt; simpl; zlia.
Qed.

Lemma charge_state t x : p_state (charge t x) = p_state x.
Proof. unfold charge. by destruct (_ <=? 0). Qed.

Lemma charge_next_free t : next_free (charge t).
Proof. intros x n. unfold charge. simpl. by destruct (_ <=? 0). Qed.

Section specs.
Context {E : Type} `{!KEnv E}.
Implicit Types (a s : kstate E) (L : slist → list nat) (p q : nat) (x : proc).

(** The calling CPU runs [p], holds exactly the locks [held], and had
    interrupts set to [e] outside of them. *)
Definition on_cpu (h : hw) (p : nat) (held : list lockid) (e : bool) : Prop :=
  c_proc (h_cpu h) = Some p ∧ disc h held e.

Lemma budgetupdate_spec o a L s p x (Q : Z → kstate E → Prop) :
  wf o a L s → k_procs a !! p = Some x → o = Some p ∨ p_state x ≠ RUNNABLE →
  (∀ s', wf o (upd p (charge (k_ticks a)) a) L s' → Q 0 s') →
  wp (budgetupdate p) Q s.
Proof.
  intros W Hx Ho HQ. pose proof (wf_prio _ _ _ _ _ _ W Hx) as Hpr.
  assert (Hh : ∀ y, p_state y = p_state x → o = Some p ∨ home y = home x).
  { intros y Hy. destruct Ho as [->|Ho]; [by left|right; by apply home_state]. }
  unfold budgetupdate. psteps.
  assert (∀ f s0, wf o (upd p f a) L s0 → f x = charge (k_ticks a) x → Q 0 s0) as Hend.
  { intros f s0 W0 Hf. apply HQ. eapply wf_upd_eq; [exact W0|]. intros ? ?. congruence. }
  unfold charge in Hend. destruct (_ <=? 0) eqn:Hb.
  - destruct (p_prio x <? MAX) eqn:Hlt; simpl; psteps.
    all: try by apply Hh.
    all: rewrite ?upd_upd in W; eapply Hend; [exact W|done].
  - psteps. by eapply Hend.
Qed.

Lemma sched_spec a L s p x e k (Q : unit → kstate E → Prop) :
  wf None a L s → on_cpu (k_hw a) p [LPtable] e → k_procs a !! p = Some x →
  p_state x ≠ RUNNING →
  (∀ s', wf None (upd p (leave (k_ticks a) (k e)) a) L s' → Q tt s') →
  wp (sched k) Q s.
Proof.
  intros W [Hp D] Hx Hst HQ. pose proof (wf_prio _ _ _ _ _ _ W Hx) as Hpr.
  unfold sched. wp_step. eapply wf_holding; [exact W|]. intros s0 W0. psteps.
  { apply negb_false_iff, andb_true_iff.
    destruct (proj1 (disc_held _ _ _ D LPtable)) as [-> Hme]; [set_solver|].
    by rewrite bool_decide_eq_true. }
  { simpl. by rewrite (disc_ncli _ _ _ D). }
  rewrite Hp. simpl. psteps.
  { by rewrite bool_decide_eq_false. }
  { apply (disc_if _ _ _ D). }
  apply HQ. rewrite upd_upd in W0. simpl in W0.
  by rewrite (disc_intena _ _ _ D) in W0 by done.
Qed.

Definition yielded (t : Z) (e : bool) (x : proc) : proc :=
  leave t (RYield e) (charge t (x <| p_state := RUNNABLE |>)).

Lemma ready_at_yielded t e x : prio_ok x →
  ready_at (p_prio (charge t (x <| p_state := RUNNABLE |>))) = home (yielded t e x).
Proof.
  intros Hx. apply (ready_at_home (charge t (x <| p_state := RUNNABLE |>))).
  - by apply charge_prio.
  - by rewrite charge_state.
Qed.

Definition lock_taken (h h' : hw) : Prop :=
  locks_set LPtable (mkLock true (Some (c_id (h_cpu h)))) h h'.

Lemma yield_spec a L s p x e (Q : ctl unit → kstate E → Prop) :
  wf None a L s → on_cpu (k_hw a) p [] e → lk_locked (h_locks (k_hw a) LPtable) = false →
  k_procs a !! p = Some x → p_state x = RUNNING →
  (∀ h s', disc h [LPtable] e → lock_taken (k_hw a) h →
     wf None ((upd p (yielded (k_ticks a) e) a) <| k_hw := h |>)
       (to_tail (home (yielded (k_ticks a) e x)) p (take_off SRunning p L)) s' →
     Q Gone s') →
  wp yield Q s.
Proof.
  intros W [Hp D] Hf Hx Hst HQ. pose proof (wf_prio _ _ _ _ _ _ W Hx) as Hpr.
  unfold yield, acquire_pt. wp_step. eapply wf_acquire; [exact W|exact D|done|]. clear W.
  intros h s1 D' Hl W. psteps. rewrite (proj1 (proj2 (proj1 Hl))), Hp. simpl. psteps.
  { unfold home. simpl. by rewrite Hst. }
  eapply budgetupdate_spec; [exact W|plook|by left|]. clear W. intros s2 W. psteps.
  { by rewrite (ready_at_yielded _ e). }
  eapply sched_spec; [exact W| |plook| |].
  { split; psimpl; [|exact D']. by rewrite (proj1 (proj2 (proj1 Hl))). }
  { by rewrite charge_state. }
  clear W. intros s3 W. psteps. eapply HQ; [exact D'|exact Hl|].
  pnorm W. rewrite (ready_at_yielded _ e) in W by done. exact W.
Qed.

Definition slept (t : Z) (ch : chan) (k : resume) (x : proc) : proc :=
  leave t k (charge t (x <| p_chan := ch |> <| p_state := SLEEPING |>)).

(** The locks of sleep(): ptable.lock is taken, [lk] given up. *)
Definition sleep_locks (lk : option lockid) (h h' : hw) : Prop :=
  same_cpu (h_cpu h) (h_cpu h') ∧
  ∀ k, h_locks h' k =
    if decide (k = LPtable) then mkLock true (Some (c_id (h_cpu h)))
    else if decide (lk = Some k) then mkLock false None else h_locks h k.

(** What sleep() does once it holds ptable.lock. *)
Lemma sleep_locked_spec a L s p x e ch k (Q : unit → kstate E → Prop) :
  wf None a L s → on_cpu (k_hw a) p [LPtable] e →
  k_procs a !! p = Some x → p_state x = RUNNING →
  (∀ s', wf None (upd p (slept (k_ticks a) ch (k e)) a)
           (to_head SSleep p (take_off SRunning p L)) s' → Q tt s') →
  wp (sleep_locked k ch p) Q s.
Proof.
  intros W [Hp D] Hx Hst HQ. pose proof (wf_prio _ _ _ _ _ _ W Hx) as Hpr.
  unfold sleep_locked. psteps.
  { unfold home. simpl. by rewrite Hst. }
  eapply budgetupdate_spec; [exact W|plook|by left|]. clear W. intros s2 W. psteps.
  { unfold home. by rewrite charge_state. }
  eapply sched_spec; [exact W|by split|plook| |].
  { by rewrite charge_state. }
  clear W. intros s3 W. apply HQ. pnorm W. exact W.
Qed.

Lemma sleep_spec a L s p x e ch lk k (Q : unit → kstate E → Prop) :
  wf None a L s →
  on_cpu (k_hw a) p (match lk with Some l => [l] | None => [] end) e →
  (lk ≠ Some LPtable → lk_locked (h_locks (k_hw a) LPtable) = false) →
  k_procs a !! p = Some x → p_state x = RUNNING →
  (∀ h s', disc h [LPtable] e → sleep_locks lk (k_hw a) h →
     wf None ((upd p (slept (k_ticks a) ch (k e)) a) <| k_hw := h |>)
       (to_head SSleep p (take_off SRunning p L)) s' → Q tt s') →
  wp (sleep_with k ch lk) Q s.
Proof.
  intros W [Hp D] Hf Hx Hst HQ. unfold sleep_with, acquire_pt. psteps. rewrite Hp.
  case_decide as Hlk; psteps.
  - subst lk. eapply sleep_locked_spec; [exact W|by split|done..|].
    intros s' W'. apply (HQ (k_hw a)); [done| |by destruct a].
    split; [done|]. intros l. case_decide as Hl; [subst l|].
    + destruct (proj1 (disc_held _ _ _ D LPtable)) as [H1 H2]; [set_solver|].
      destruct (h_locks (k_hw a) LPtable). simpl in *. congruence.
    + by rewrite decide_False by congruence.
  - eapply wf_acquire; [exact W|exact D|by apply Hf|]. clear W. intros h s1 D1 [Hc Hl] W.
    assert (Hp1 : c_proc (h_cpu h) = Some p) by (by rewrite (proj1 (proj2 Hc))).
    destruct lk as [l|]; psteps.
    + eapply wf_release; [exact W|eapply disc_perm; [|exact D1]; by apply perm_swap|].
      clear W. intros h2 s2 D2 [Hc2 Hl2] W.
      eapply sleep_locked_spec; [exact W| |done..|].
      { split; [|done]. psimpl. by rewrite (proj1 (proj2 Hc2)). }
      clear W. intros s3 W. apply (HQ h2); [done| |pnorm W; exact W].
      split; [unfold same_cpu in *; simpl in *; naive_solver congruence|].
      intros k'. rewrite Hl2. simpl. unfold insert, fn_insert at 1.
      destruct (decide (l = k')) as [<-|Hne]; [by rewrite decide_False, decide_True by congruence|].
      rewrite Hl. unfold insert, fn_insert.
      repeat case_decide; congruence.
    + eapply sleep_locked_spec; [exact W|by split|done..|].
      clear W. intros s3 W. apply (HQ h); [done| |pnorm W; exact W].
      split; [done|]. intros k'. rewrite Hl. unfold insert, fn_insert.
      repeat case_decide; congruence.
Qed.

(** ** wakeup1() *)

Definition chan_at a q : option chan := p_chan <$> k_procs a !! q.
Definition prio_at a q : option Z := p_prio <$> k_procs a !! q.

(** Waking the processes of [l] that sleep on [ch]. *)
Definition wake_procs (ch : chan) (l : list nat) : list proc → list proc :=
  imap (λ q x, if decide (q ∈ l ∧ p_chan x = ch) then x <| p_state := RUNNABLE |> else x).
Definition wake_queues (ch : chan) (l : list nat) a L : slist → list nat := λ sl,
  match sl with
  | SSleep => filter (λ q, ¬ (q ∈ l ∧ chan_at a q = Some ch)) (L SSleep)
  | SReady i =>
    L (SReady i) ++ filter (λ q, chan_at a q = Some ch ∧ prio_at a q = Some (Z.of_nat i)) l
  | _ => L sl
  end.

(** One process moves from the sleep list to its ready queue. *)
Lemma make_runnable_spec a L s q x (Q : Z → kstate E → Prop) :
  wf None a L s → k_procs a !! q = Some x → p_state x = SLEEPING →
  (∀ s', wf None (upd q (λ x, x <| p_state := RUNNABLE |>) a)
           (to_tail (SReady (Z.to_nat (p_prio x))) q (take_off SSleep q L)) s' → Q 0 s') →
  wp (make_runnable q) Q s.
Proof.
  intros W Hx Hst HQ. pose proof (wf_prio _ _ _ _ _ _ W Hx) as Hpr.
  pose proof (ready_at_ok x Hpr) as Hr.
  unfold make_runnable. psteps.
  { unfold home. by rewrite Hst. }
  rewrite Hr in W. apply HQ. exact W.
Qed.

Lemma wake_procs_cons ch q l ps x :
  ps !! q = Some x → q ∉ l →
  wake_procs ch (q :: l) ps =
    wake_procs ch l (if decide (p_chan x = ch) then alter (λ x, x <| p_state := RUNNABLE |>) q ps
                     else ps).
Proof.
  intros Hx Hq. unfold wake_procs. apply list_eq. intros r. rewrite !list_lookup_imap.
  destruct (decide (q = r)) as [<-|Hne].
  - rewrite Hx. destruct (decide (p_chan x = ch)); rewrite ?list_lookup_alter_eq, Hx; simpl.
    + by rewrite decide_True, decide_False by set_solver.
    + by rewrite !decide_False by naive_solver.
  - replace ((if decide _ then _ else _) !! r) with (ps !! r)
      by (case_decide; [by rewrite list_lookup_alter_ne|done]).
    destruct (ps !! r); simpl; [|done]. f_equal. apply decide_ext. set_solver.
Qed.

Lemma wake_procs_nil ch ps : wake_procs ch [] ps = ps.
Proof.
  unfold wake_procs. apply list_eq. intros r. rewrite list_lookup_imap.
  by destruct (ps !! r).
Qed.

Lemma wake_queues_nil ch a L sl : wake_queues ch [] a L sl = L sl.
Proof.
  destruct sl; simpl; [by rewrite app_nil_r|done| |done..].
  induction (L SSleep) as [|q l IH]; [done|]. rewrite filter_cons_True by set_solver. by f_equal.
Qed.

(** The first process of the rest of the scan is woken or left. *)
Lemma wake_queues_wake ch q l l1 a L x sl :
  k_procs a !! q = Some x → prio_ok x → p_chan x = ch → L SSleep = l1 ++ q :: l →
  NoDup (L SSleep) →
  wake_queues ch (q :: l) a L sl =
    wake_queues ch l (upd q (λ x, x <| p_state := RUNNABLE |>) a)
      (to_tail (SReady (Z.to_nat (p_prio x))) q (take_off SSleep q L)) sl.
Proof.
  intros Hx Hpr Hc HL Hnd. set (a' := upd _ _ a).
  assert (Hca : ∀ r, chan_at a' r = chan_at a r ∧ prio_at a' r = prio_at a r).
  { intros r. unfold chan_at, prio_at, a'. rewrite upd_unfold. simpl.
    rewrite list_lookup_alter. case_decide; [subst r|done]. by rewrite Hx. }
  assert (Hq : chan_at a q = Some ch) by (unfold chan_at; rewrite Hx; simpl; by f_equal).
  assert (Hp : prio_at a q = Some (p_prio x)) by (unfold prio_at; by rewrite Hx).
  rewrite HL in Hnd. apply NoDup_app in Hnd as (_ & Hd & [Hql _]%NoDup_cons).
  destruct sl; simpl; unfold to_tail, take_off, insert, fn_insert; simpl; try done.
  - rewrite (list_filter_iff _ (λ r, chan_at a r = Some ch ∧ prio_at a r = Some (Z.of_nat i)) l)
      by (intros r; destruct (Hca r) as [-> ->]; done).
    unfold prio_ok in Hpr. case_decide as Hd'.
    + injection Hd' as <-. rewrite filter_cons_True by (rewrite Z2Nat.id by lia; done).
      by rewrite <- (assoc_L (++)).
    + by rewrite filter_cons_False by (rewrite Hp; intros [_ [= Hi]]; apply Hd'; f_equal; lia).
  - unfold without. rewrite list_filter_filter. apply list_filter_iff. intros r.
    rewrite (proj1 (Hca r)). destruct (decide (r = q)); set_solver.
Qed.

Lemma wake_queues_skip ch q l a L x sl :
  k_procs a !! q = Some x → p_chan x ≠ ch → wake_queues ch (q :: l) a L sl = wake_queues ch l a L sl.
Proof.
  intros Hx Hc. assert (Hq : chan_at a q ≠ Some ch) by (unfold chan_at; rewrite Hx; simpl; congruence).
  destruct sl; simpl; try done.
  - by rewrite filter_cons_False by naive_solver.
  - apply list_filter_iff. set_solver.
Qed.

Lemma wake_loop_spec fuel ch l l1 a L s (Q : unit → kstate E → Prop) :
  wf None a L s → L SSleep = l1 ++ l → (length l ≤ fuel)%nat →
  (∀ s', wf None (a <| k_procs ::= wake_procs ch l |>) (wake_queues ch l a L) s' → Q tt s') →
  wp (wake_loop fuel ch (head l)) Q s.
Proof.
  revert fuel l1 a L s. induction l as [|q l IH]; intros fuel l1 a L s W HL Hf HQ.
  { destruct fuel; simpl; apply HQ; (eapply wf_queues; [|intros; apply wake_queues_nil]);
      unfold field_upd; simpl; rewrite wake_procs_nil; by destruct a. }
  destruct fuel as [|fuel]; simpl in *; [lia|].
  assert (Hq : q ∈ L SSleep) by (rewrite HL; set_solver).
  destruct (wf_member _ _ _ _ _ _ W Hq) as (x & Hx & Hh & _).
  assert (Hst : p_state x = SLEEPING) by (unfold home in Hh; by destruct (p_state x)).
  pose proof (wf_nodup _ _ _ _ SSleep W) as Hnd.
  assert (Hql : q ∉ l) by (rewrite HL in Hnd; apply NoDup_app in Hnd as (_ & _ & [? _]%NoDup_cons); done).
  pose proof (wf_prio _ _ _ _ _ _ W Hx) as Hpr.
  wp_step. eapply wf_rd_next; [exact W|done|done|]. simpl. wp_step. unfold wake_body. wp_step.
  eapply (wf_rd _ _ _ W); [done|]. intros n. simpl. case_decide as Hc.
  - wp_step. eapply make_runnable_spec; [exact W|done|done|]. intros s1 W1. wp_step.
    apply (IH fuel l1 _ _ s1 W1).
    + unfold to_tail, take_off, insert, fn_insert. simpl. rewrite HL.
      rewrite HL in Hnd. apply NoDup_app in Hnd as (_ & Hd & _). apply without_split; [set_solver|done].
    + lia.
    + intros s2 W2. apply HQ. eapply wf_queues; [|intros sl; by eapply wake_queues_wake].
      unfold field_upd in *; simpl in *. rewrite (wake_procs_cons _ _ _ _ x) by done.
      by rewrite decide_True by done.
  - wp_step. apply (IH fuel (l1 ++ [q]) a L s W); [by rewrite <- (assoc_L (++))|lia|].
    intros s2 W2. apply HQ. eapply wf_queues; [|intros sl; by eapply wake_queues_skip].
    unfold field_upd in *; simpl in *. rewrite (wake_procs_cons _ _ _ _ x) by done.
    by rewrite decide_False by done.
Qed.

Definition woken (ch : chan) (x : proc) : proc :=
  if decide (p_state x = SLEEPING ∧ p_chan x = ch) then x <| p_state := RUNNABLE |> else x.

Definition wake (ch : chan) a : kstate E := a <| k_procs ::= fmap (woken ch) |>.

Lemma wake_procs_all ch a L s :
  wf None a L s → wake_procs ch (L SSleep) (k_procs a) = woken ch <$> k_procs a.
Proof.
  intros W. unfold wake_procs. apply list_eq. intros q. rewrite list_lookup_imap, list_lookup_fmap.
  destruct (k_procs a !! q) as [x|] eqn:Hx; simpl; [|done]. unfold woken. f_equal.
  apply decide_ext. rewrite (wf_in _ _ _ _ _ SSleep W Hx). unfold home.
  destruct (p_state x); naive_solver.
Qed.

Lemma wakeup1_spec ch a L s (Q : unit → kstate E → Prop) :
  wf None a L s →
  (∀ s', wf None (wake ch a) (wake_queues ch (L SSleep) a L) s' → Q tt s') →
  wp (wakeup1 ch) Q s.
Proof.
  intros W HQ. unfold wakeup1. psteps. eapply (wake_loop_spec _ _ _ []); [exact W|done| |].
  { by eapply wf_length. }
  intros s' W'. apply HQ. unfold wake, field_upd in *. simpl in *.
  by rewrite (wake_procs_all ch a L s W) in W'.
Qed.

Definition lock_cycled (h h' : hw) : Prop := locks_set LPtable (mkLock false None) h h'.

Lemma wakeup_spec ch held e a L s (Q : unit → kstate E → Prop) :
  wf None a L s → disc (k_hw a) held e → lk_locked (h_locks (k_hw a) LPtable) = false →
  (∀ h s', disc h held e → lock_cycled (k_hw a) h →
     wf None ((wake ch a) <| k_hw := h |>) (wake_queues ch (L SSleep) a L) s' → Q tt s') →
  wp (wakeup ch) Q s.
Proof.
  intros W D Hf HQ. unfold wakeup, acquire_pt, release_pt. wp_step.
  eapply wf_acquire; [exact W|exact D|done|]. clear W. intros h s1 D1 Hl W. wp_step.
  eapply wakeup1_spec; [exact W|]. clear W. intros s2 W. 
  eapply wf_release; [exact W|exact D1|]. clear W. intros h2 s3 D2 Hl2 W.
  apply (HQ h2); [done|by eapply locks_set_twice|exact W].
Qed.

(** ** Allocating and publishing a process *)

Lemma free_embryo_spec held e a L s p x (Q : unit → kstate E → Prop) :
  wf None a L s → disc (k_hw a) held e → lk_locked (h_locks (k_hw a) LPtable) = false →
  k_procs a !! p = Some x → p_state x = EMBRYO →
  (∀ h s', disc h held e → lock_cycled (k_hw a) h →
     wf None ((upd p (λ x, x <| p_state := UNUSED |>) a) <| k_hw := h |>)
       (to_head SFree p (take_off SEmbryo p L)) s' → Q tt s') →
  wp (free_embryo p) Q s.
Proof.
  intros W D Hf Hx Hst HQ. pose proof (wf_prio _ _ _ _ _ _ W Hx) as Hpr.
  unfold free_embryo, acquire_pt, release_pt. wp_step.
  eapply wf_acquire; [exact W|exact D|done|]. clear W. intros h s1 D1 Hl W. psteps.
  { unfold home. by rewrite Hst. }
  eapply wf_release; [exact W|exact D1|]. clear W. intros h2 s3 D2 Hl2 W.
  apply (HQ h2); [done|by eapply locks_set_twice|]. pnorm W. exact W.
Qed.

Lemma fork_publish_spec held e a L s p x (Q : unit → kstate E → Prop) :
  wf None a L s → disc (k_hw a) held e → lk_locked (h_locks (k_hw a) LPtable) = false →
  k_procs a !! p = Some x → p_state x = EMBRYO → p_prio x = 0 →
  (∀ h s', disc h held e → lock_cycled (k_hw a) h →
     wf None ((upd p (λ x, x <| p_state := RUNNABLE |>) a) <| k_hw := h |>)
       (to_tail (SReady 0) p (take_off SEmbryo p L)) s' → Q tt s') →
  wp (fork_publish p) Q s.
Proof.
  intros W D Hf Hx Hst Hp0 HQ. pose proof (wf_prio _ _ _ _ _ _ W Hx) as Hpr.
  unfold fork_publish, acquire_pt, release_pt. wp_step.
  eapply wf_acquire; [exact W|exact D|done|]. clear W. intros h s1 D1 Hl W. psteps.
  { unfold home. by rewrite Hst. }
  { unfold home. simpl. by rewrite Hp0. }
  eapply wf_release; [exact W|exact D1|]. clear W. intros h2 s3 D2 Hl2 W.
  apply (HQ h2); [done|by eapply locks_set_twice|]. pnorm W. exact W.
Qed.

Lemma alloc_slot_spec held e a L s (Q : option nat → kstate E → Prop) :
  wf None a L s → disc (k_hw a) held e → lk_locked (h_locks (k_hw a) LPtable) = false →
  (∀ h s', disc h held e → lock_cycled (k_hw a) h →
     match L SFree with
     | [] => wf None (a <| k_hw := h |>) L s' → Q None s'
     | p :: l =>
       wf None ((upd p (λ x, x <| p_state := EMBRYO |> <| p_pid := u32 (k_nextpid a) |>) a)
                  <| k_hw := h |> <| k_nextpid := s32 (k_nextpid a + 1) |>)
         (to_head SEmbryo p (<[SFree := l]> L)) s' → Q (Some p) s'
     end) →
  wp alloc_slot Q s.
Proof.
  intros W D Hf HQ. unfold alloc_slot, acquire_pt, release_pt. wp_step.
  eapply wf_acquire; [exact W|exact D|done|]. clear W. intros h s1 D1 Hl W. psteps.
  destruct (L SFree) as [|p l] eqn:HL; simpl; psteps.
  - eapply wf_release; [exact W|exact D1|]. clear W. intros h2 s3 D2 Hl2 W. wp_step.
    apply (HQ h2); [done|by eapply locks_set_twice|exact W].
  - assert (Hp : p ∈ L SFree) by (rewrite HL; set_solver).
    destruct (wf_member _ _ _ _ _ _ W Hp) as (x & Hx & Hh & _).
    assert (Hst : p_state x = UNUSED) by (unfold home in Hh; by destruct (p_state x)).
    pose proof (wf_prio _ _ _ _ _ _ W Hx) as Hpr. simpl in Hx.
    pose proof (wf_nodup _ _ _ _ SFree W) as Hnd. rewrite HL in Hnd.
    apply NoDup_cons in Hnd as [Hpl _].
    psteps. eapply wf_release; [exact W|exact D1|]. clear W. intros h2 s3 D2 Hl2 W. wp_step.
    apply (HQ h2); [done|by eapply locks_set_twice|]. pnorm W.
    rewrite HL, without_cons_eq in W by done. exact W.
Qed.
End specs.
