(* ===== verification/ProcScan.v ===== *)
(** * Specifications of the searching operations (proc.c)

    kill(), setpriority(), wait() and exit() walk the lists of the process
    table. Their effect is stated with the first process found in the order
    of the walk. *)

From S2P Require Import Prelude Mem Spinlock Str Proc ProcOps ProcLists ProcInv ProcSpec.

(** ** Orders of the walks *)

Definition all_ready (L : slist → list nat) : list nat := ready_order L 0 (S (Z.to_nat MAX)).

Definition kill_order (L : slist → list nat) : list nat :=
  all_ready L ++ L SRunning ++ L SEmbryo ++ L SZombie ++ L SSleep.

Definition setprio_order (L : slist → list nat) : list nat :=
  all_ready L ++ L SRunning ++ L SSleep.

Section scanspecs.
Context {E : Type} `{!KEnv E}.
Implicit Types (a s : kstate E) (L : slist → list nat) (p q : nat) (x : proc).

Definition has_pid a (pid : Z) (q : nat) : bool :=
  match k_procs a !! q with Some x => p_pid x =? u32 pid | None => false end.

Lemma in_ready a L s i q :
  wf None a L s → q ∈ L (SReady i) →
  ∃ x, k_procs a !! q = Some x ∧ p_state x = RUNNABLE ∧ p_prio x = Z.of_nat i ∧ prio_ok x.
Proof.
  intros W Hq. destruct (wf_member _ _ _ _ _ _ W Hq) as (x & Hx & Hh & _).
  pose proof (wf_prio _ _ _ _ _ _ W Hx) as Hpr. exists x. unfold home in Hh. unfold prio_ok in *.
  destruct (p_state x); simplify_eq. repeat split; try done; lia.
Qed.

Lemma in_list a L s sl q :
  wf None a L s → q ∈ L sl →
  ∃ x, k_procs a !! q = Some x ∧ home x = sl ∧ prio_ok x.
Proof.
  intros W Hq. destruct (wf_member _ _ _ _ _ _ W Hq) as (x & Hx & Hh & _).
  exists x. split; [done|]. split; [done|]. by eapply wf_prio.
Qed.

(** ** kill() *)

Definition killed (x : proc) : proc :=
  if decide (p_state x = SLEEPING) then x <| p_killed := 1 |> <| p_state := RUNNABLE |>
  else x <| p_killed := 1 |>.

Definition kill_queues (q : nat) (x : proc) (L : slist → list nat) : slist → list nat :=
  if decide (p_state x = SLEEPING) then to_tail (SReady (Z.to_nat (p_prio x))) q (take_off SSleep q L)
  else L.

(** How kill() ends when it finds [q]. *)
Definition kill_act h e held a L (q : nat) (v : Z) (s : kstate E) : Prop :=
  v = 0 ∧ ∃ h' x, k_procs a !! q = Some x ∧ disc h' held e ∧ lock_cycled h h' ∧
    wf None ((upd q killed a) <| k_hw := h' |>) (kill_queues q x L) s.

Lemma kill_body_spec h e held a L pid q s x (P : bool) :
  wf None a L s → disc (k_hw a) (LPtable :: held) e → lock_taken h (k_hw a) →
  k_procs a !! q = Some x → p_state x ≠ SLEEPING → (p_pid x =? u32 pid) = P →
  wp (kill_body pid q) (λ r s', if P then ∃ v, r = Some v ∧ kill_act h e held a L q v s'
                                else r = None ∧ wf None a L s') s.
Proof.
  intros W D Hl Hx Hst HP. pose proof (wf_prio _ _ _ _ _ _ W Hx) as Hpr.
  unfold kill_body, release_pt. psteps. rewrite HP. destruct P; psteps; [|done].
  eapply wf_release; [exact W|exact D|]. clear W. intros h2 s3 D2 Hl2 W. wp_step.
  eexists. split; [done|]. split; [done|]. exists h2, x. split; [done|]. split; [done|].
  split; [by eapply locks_set_twice|]. unfold kill_queues. rewrite decide_False by done.
  pnorm W. erewrite upd_ext; [exact W|]. intros y Hy. assert (y = x) as -> by congruence.
  unfold killed. by rewrite decide_False.
Qed.

Lemma kill_sleeping_spec h e held a L pid q s x (P : bool) :
  wf None a L s → disc (k_hw a) (LPtable :: held) e → lock_taken h (k_hw a) →
  k_procs a !! q = Some x → p_state x = SLEEPING → (p_pid x =? u32 pid) = P →
  wp (kill_sleeping pid q) (λ r s', if P then ∃ v, r = Some v ∧ kill_act h e held a L q v s'
                                    else r = None ∧ wf None a L s') s.
Proof.
  intros W D Hl Hx Hst HP. pose proof (wf_prio _ _ _ _ _ _ W Hx) as Hpr.
  unfold kill_sleeping, release_pt. psteps. rewrite HP. destruct P; psteps; [|done].
  eapply make_runnable_spec; [exact W|plook|done|]. clear W. intros s2 W. wp_step.
  eapply wf_release; [exact W|exact D|]. clear W. intros h2 s3 D2 Hl2 W. wp_step.
  eexists. split; [done|]. split; [done|]. exists h2, x. split; [done|]. split; [done|].
  split; [by eapply locks_set_twice|]. unfold kill_queues. rewrite decide_True by done.
  pnorm W. erewrite upd_ext; [exact W|]. intros y Hy. assert (y = x) as -> by congruence.
  unfold killed. by rewrite decide_True.
Qed.

Lemma kill_spec held e pid a L s (Q : Z → kstate E → Prop) :
  wf None a L s → disc (k_hw a) held e → lk_locked (h_locks (k_hw a) LPtable) = false →
  (match find (has_pid a pid) (kill_order L) with
   | Some q => ∀ s', kill_act (k_hw a) e held a L q 0 s' → Q 0 s'
   | None => ∀ h s', disc h held e → lock_cycled (k_hw a) h → wf None (a <| k_hw := h |>) L s' →
       Q (-1) s'
   end) →
  wp (kill pid) Q s.
Proof.
  intros W D Hf HQ. unfold kill, acquire_pt, release_pt. wp_step.
  eapply wf_acquire; [exact W|exact D|done|]. clear W. intros h s1 D1 Hl W. wp_step.
  set (b := a <| k_hw := h |>) in *.
  assert (Hact : ∀ q v s', kill_act (k_hw a) e held b L q v s' → kill_act (k_hw a) e held a L q v s').
  { intros q v s' (? & h' & x & ? & ? & ? & W'). split; [done|]. exists h', x. unfold b in W'. pnorm W'. by split_and!. }
  assert (Hsl : ∀ sl q, q ∈ L sl → (∀ i, sl ≠ SReady i) → sl ≠ SSleep → ∃ x,
    k_procs b !! q = Some x ∧ p_state x ≠ SLEEPING).
  { intros sl q Hq Hr Hs. destruct (in_list _ _ _ _ _ W Hq) as (x & Hx & Hh & _).
    exists x. split; [done|]. intros Hst. apply Hs. rewrite <- Hh. unfold home. by rewrite Hst. }
  assert (HP : ∀ q x, k_procs b !! q = Some x → (p_pid x =? u32 pid) = has_pid a pid q).
  { intros q x Hx. unfold has_pid. simpl in Hx. by rewrite Hx. }
  eapply wp_mono.
  { apply (scans_or_else (has_pid a pid) (kill_act (k_hw a) e held b L)); [|apply scans_or_else;
      [|apply scans_or_else; [|apply scans_or_else]]|exact W].
    - apply scans_ready; [done|]. intros j q s2 Hj Hq W2.
      destruct (in_ready _ _ _ _ _ W Hq) as (x & Hx & Hst & _).
      eapply kill_body_spec; [exact W2|exact D1|exact Hl|done|congruence|by apply HP].
    - apply scans_list; [done|]. intros q s2 Hq W2. destruct (Hsl SRunning q) as (x & Hx & Hst); [done..|].
      eapply kill_body_spec; [exact W2|exact D1|exact Hl|done|done|by apply HP].
    - apply scans_list; [done|]. intros q s2 Hq W2. destruct (Hsl SEmbryo q) as (x & Hx & Hst); [done..|].
      eapply kill_body_spec; [exact W2|exact D1|exact Hl|done|done|by apply HP].
    - apply scans_list; [done|]. intros q s2 Hq W2. destruct (Hsl SZombie q) as (x & Hx & Hst); [done..|].
      eapply kill_body_spec; [exact W2|exact D1|exact Hl|done|done|by apply HP].
    - apply scans_list; [done|]. intros q s2 Hq W2.
      destruct (in_list _ _ _ _ _ W Hq) as (x & Hx & Hh & _).
      eapply kill_sleeping_spec; [exact W2|exact D1|exact Hl|exact Hx| |by apply HP].
      unfold home in Hh. by destruct (p_state x). }
  intros r s2. fold (all_ready L). fold (kill_order L).
  destruct (find (has_pid a pid) (kill_order L)) as [q|].
  - intros (v & -> & Hv). wp_step. assert (v = 0) as -> by apply Hv. by apply HQ, Hact.
  - intros [-> W2]. wp_step. eapply wf_release; [exact W2|exact D1|].
    clear W. intros h2 s3 D2 Hl2 W. wp_step. apply (HQ h2); [done|by eapply locks_set_twice|exact W].
Qed.

(** ** setpriority() *)

(** A process already waiting in the queue of that priority is left alone,
    its budget included. *)
Definition prioritized (pr : Z) (x : proc) : proc :=
  if decide (p_state x = RUNNABLE ∧ p_prio x = pr) then x
  else x <| p_prio := pr |> <| p_budget := BUDGET |>.

Definition setprio_queues (pr : Z) (q : nat) (x : proc) (L : slist → list nat) : slist → list nat :=
  if decide (p_state x = RUNNABLE ∧ p_prio x ≠ pr) then
    to_tail (SReady (Z.to_nat pr)) q (take_off (SReady (Z.to_nat (p_prio x))) q L)
  else L.

Definition setprio_act h e held pr a L (q : nat) (v : Z) (s : kstate E) : Prop :=
  v = 0 ∧ ∃ h' x, k_procs a !! q = Some x ∧ disc h' held e ∧ lock_cycled h h' ∧
    wf None ((upd q (prioritized pr) a) <| k_hw := h' |>) (setprio_queues pr q x L) s.

Lemma setprio_ready_spec h e held a L pid pr i q s x (P : bool) :
  wf None a L s → disc (k_hw a) (LPtable :: held) e → lock_taken h (k_hw a) → 0 ≤ pr ≤ MAX →
  k_procs a !! q = Some x → p_state x = RUNNABLE → p_prio x = Z.of_nat i → (p_pid x =? u32 pid) = P →
  wp (setprio_ready pid pr i q)
    (λ r s', if P then ∃ v, r = Some v ∧ setprio_act h e held pr a L q v s'
             else r = None ∧ wf None a L s') s.
Proof.
  intros W D Hl Hr Hx Hst Hi HP. pose proof (wf_prio _ _ _ _ _ _ W Hx) as Hpr.
  unfold setprio_ready, release_pt. psteps. rewrite HP. destruct P; psteps; [|done].
  assert (Hend : ∀ s' h', disc h' held e → lock_cycled h h' →
    wf None ((upd q (prioritized pr) a) <| k_hw := h' |>) (setprio_queues pr q x L) s' →
    ∃ v, Some 0 = Some v ∧ setprio_act h e held pr a L q v s').
  { intros s' h' ? ? W'. exists 0. split; [done|]. split; [done|]. by exists h', x. }
  destruct (pr =? Z.of_nat i) eqn:Hpi; simpl; psteps.
  - eapply wf_release; [exact W|exact D|]. clear W. intros h2 s3 D2 Hl2 W. wp_step.
    apply (Hend _ h2); [done|by eapply locks_set_twice|].
    unfold setprio_queues. rewrite decide_False by (intros [_ ?]; zlia).
    erewrite upd_same; [exact W|done|]. unfold prioritized. rewrite decide_True; [done|]. split; [done|zlia].
  - eapply wf_removeReady; [exact W|exact Hx|done|done|]. clear W. intros s2 W. psteps.
    { unfold home, ready_at. simpl. rewrite Hst.
      by rewrite (proj2 (Z.leb_le 0 pr)), (proj2 (Z.leb_le pr MAX)) by lia. }
    eapply wf_release; [exact W|exact D|]. clear W. intros h2 s3 D2 Hl2 W. wp_step.
    apply (Hend _ h2); [done|by eapply locks_set_twice|].
    unfold setprio_queues. rewrite decide_True by (split; [done|zlia]).
    pnorm W. unfold home, ready_at in W. rewrite Hst in W.
    rewrite (proj2 (Z.leb_le 0 pr)), (proj2 (Z.leb_le pr MAX)) in W by lia. simpl in W.
    erewrite upd_ext; [exact W|]. intros y Hy. assert (y = x) as -> by congruence.
    unfold prioritized. rewrite decide_False; [done|]. intros [_ ?]. zlia.
Qed.

Lemma setprio_other_spec h e held a L pid pr q s x (P : bool) :
  wf None a L s → disc (k_hw a) (LPtable :: held) e → lock_taken h (k_hw a) → 0 ≤ pr ≤ MAX →
  k_procs a !! q = Some x → p_state x ≠ RUNNABLE → (p_pid x =? u32 pid) = P →
  wp (setprio_other pid pr q)
    (λ r s', if P then ∃ v, r = Some v ∧ setprio_act h e held pr a L q v s'
             else r = None ∧ wf None a L s') s.
Proof.
  intros W D Hl Hr Hx Hst HP. unfold setprio_other, release_pt. psteps. rewrite HP.
  destruct P; psteps; [| |done].
  { right. by apply home_state. }
  eapply wf_release; [exact W|exact D|]. clear W. intros h2 s3 D2 Hl2 W. wp_step.
  eexists. split; [done|]. split; [done|]. exists h2, x. split; [done|]. split; [done|].
  split; [by eapply locks_set_twice|]. unfold setprio_queues. rewrite decide_False by naive_solver.
  pnorm W. erewrite upd_ext; [exact W|]. intros y Hy. assert (y = x) as -> by congruence.
  unfold prioritized. rewrite decide_False; [done|]. naive_solver.
Qed.

Lemma setpriority_spec held e pid pr a L s (Q : Z → kstate E → Prop) :
  wf None a L s → disc (k_hw a) held e → lk_locked (h_locks (k_hw a) LPtable) = false →
  0 ≤ pr ≤ MAX →
  (match find (has_pid a pid) (setprio_order L) with
   | Some q => ∀ s', setprio_act (k_hw a) e held pr a L q 0 s' → Q 0 s'
   | None => ∀ h s', disc h held e → lock_cycled (k_hw a) h → wf None (a <| k_hw := h |>) L s' →
       Q (-1) s'
   end) →
  wp (setpriority pid pr) Q s.
Proof.
  intros W D Hf Hpr HQ. unfold setpriority, acquire_pt, release_pt.
  replace ((pr <? 0) || (MAX <? pr)) with false by (symmetry; apply orb_false_iff; split; zlia).
  wp_step. eapply wf_acquire; [exact W|exact D|done|]. clear W. intros h s1 D1 Hl W. wp_step.
  set (b := a <| k_hw := h |>) in *.
  assert (Hact : ∀ q v s', setprio_act (k_hw a) e held pr b L q v s' →
    setprio_act (k_hw a) e held pr a L q v s').
  { intros q v s' (? & h' & x & ? & ? & ? & W'). split; [done|]. exists h', x.
    unfold b in W'. pnorm W'. by split_and!. }
  assert (HP : ∀ q x, k_procs b !! q = Some x → (p_pid x =? u32 pid) = has_pid a pid q).
  { intros q x Hx. unfold has_pid. simpl in Hx. by rewrite Hx. }
  assert (Hsl : ∀ sl q s', sl = SRunning ∨ sl = SSleep → q ∈ L sl → wf None b L s' →
    wp (setprio_other pid pr q) (λ r s', if has_pid a pid q
      then ∃ v, r = Some v ∧ setprio_act (k_hw a) e held pr b L q v s'
      else r = None ∧ wf None b L s') s').
  { intros sl q s' Hsl Hq W2. destruct (in_list _ _ _ _ _ W Hq) as (x & Hx & Hh & _).
    eapply setprio_other_spec; [exact W2|exact D1|exact Hl|done|exact Hx| |by apply HP].
    intros Hst. unfold home in Hh. rewrite Hst in Hh. naive_solver. }
  eapply wp_mono.
  { apply (scans_or_else (has_pid a pid) (setprio_act (k_hw a) e held pr b L));
      [|apply scans_or_else|exact W].
    - apply scans_ready; [done|]. intros j q s2 Hj Hq W2.
      destruct (in_ready _ _ _ _ _ W Hq) as (x & Hx & Hst & Hi & _).
      eapply setprio_ready_spec; [exact W2|exact D1|exact Hl|done|exact Hx|done|done|by apply HP].
    - apply scans_list; [done|]. intros q s2. apply Hsl. by left.
    - apply scans_list; [done|]. intros q s2. apply Hsl. by right. }
  intros r s2. fold (all_ready L). fold (setprio_order L).
  destruct (find (has_pid a pid) (setprio_order L)) as [q|].
  - intros (v & -> & Hv). wp_step. assert (v = 0) as -> by apply Hv. by apply HQ, Hact.
  - intros [-> W2]. wp_step. eapply wf_release; [exact W2|exact D1|].
    clear W. intros h2 s3 D2 Hl2 W. wp_step. apply (HQ h2); [done|by eapply locks_set_twice|exact W].
Qed.
End scanspecs.
