(* ===== verification/ProcSched.v ===== *)
(** * Specifications of the scheduler (proc.c)

    prioadjust(), scheduler() and the code a process resumes with. *)

From S2P Require Import Prelude Mem Spinlock Str Proc ProcOps ProcLists ProcInv ProcSpec ProcScan.

Section sched.
Context {E : Type} `{!KEnv E}.
Implicit Types (a s : kstate E) (L : slist → list nat) (p q : nat) (x : proc).

(** ** prioadjust() *)

(** Sleeping and running processes move up one priority. *)
Definition raise (x : proc) : proc :=
  if decide (p_state x = RUNNABLE) then x
  else if p_prio x =? 0 then x else x <| p_prio ::= λ z, z - 1 |>.

Definition raised : proc → proc := on_lists [SRunning; SSleep] raise.

Lemma home_raise x : home (raise x) = home x.
Proof.
  unfold raise. case_decide; [done|]. destruct (p_prio x =? 0); [done|]. by apply home_state.
Qed.

Lemma dec_prio_spec a L s q x (Q : option unit → kstate E → Prop) :
  wf None a L s → k_procs a !! q = Some x → p_state x ≠ RUNNABLE →
  (∀ s', wf None (upd q raise a) L s' → Q None s') → wp (dec_prio q) Q s.
Proof.
  intros W Hx Hst HQ. pose proof (wf_prio _ _ _ _ _ _ W Hx) as Hpr. unfold prio_ok in Hpr.
  assert (Hend : ∀ f s', f x = raise x → wf None (upd q f a) L s' → Q None s').
  { intros f s' Hf W'. apply HQ. eapply wf_upd_eq; [exact W'|]. intros y Hy. congruence. }
  unfold raise in Hend. rewrite decide_False in Hend by done.
  unfold dec_prio. psteps. destruct (p_prio x =? 0) eqn:H0; simpl; psteps.
  - apply (Hend (λ x, x)); [done|]. by erewrite upd_same.
  - right. by apply home_state.
  - by eapply Hend.
Qed.

(** The queues after the heads of the ready queues 1 to [n] have moved up. *)
Definition promote_queues (n : nat) (L : slist → list nat) : slist → list nat := λ sl,
  match sl with
  | SReady i =>
    (if decide (1 ≤ i ≤ n)%nat then tail (L sl) else L sl)
      ++ (if decide (i < n)%nat then option_list (head (L (SReady (S i)))) else [])
  | _ => L sl
  end.

Definition promote_procs (n : nat) L (ps : list proc) : list proc :=
  imap (λ q x, if decide (p_state x = RUNNABLE ∧ 1 ≤ p_prio x ≤ Z.of_nat n ∧
                          head (L (SReady (Z.to_nat (p_prio x)))) = Some q)
               then x <| p_prio ::= λ z, z - 1 |> else x) ps.

Definition step_up (x : proc) : proc := x <| p_prio ::= λ z, z - 1 |>.

(** The loop over ready[i] promotes the head only: after insertTail() the
    link of the process is null, and the loop ends. *)
Lemma promote_list_spec a L s i (Q : option unit → kstate E → Prop) :
  wf None a L s → (1 ≤ i ≤ Z.to_nat MAX)%nat →
  (∀ s', match L (SReady i) with
         | [] => wf None a L s'
         | q :: l => wf None (upd q step_up a) (to_tail (SReady (i - 1)) q (<[SReady i := l]> L)) s'
         end → Q None s') →
  wp (for_list (SReady i) (promote_body i)) Q s.
Proof.
  intros W Hi HQ. assert (Hv : valid (SReady i)) by (unfold valid; lia).
  unfold for_list. psteps. destruct (L (SReady i)) as [|q l] eqn:HL; simpl; [by apply HQ|].
  assert (Hq : q ∈ L (SReady i)) by (rewrite HL; set_solver).
  destruct (in_ready _ _ _ _ _ W Hq) as (x & Hx & Hst & Hpi & Hpr).
  pose proof (wf_nodup _ _ _ _ (SReady i) W) as Hnd. rewrite HL in Hnd.
  apply NoDup_cons in Hnd as [Hql _].
  assert (Hup : ready_at (p_prio (step_up x)) = SReady (i - 1)).
  { rewrite ready_at_ok; [|unfold prio_ok; simpl; lia]. simpl. rewrite Hpi. f_equal. lia. }
  assert (Hhome : home x = SReady i) by (unfold home; rewrite Hst, Hpi; f_equal; lia).
  unfold promote_body. wp_step. wp_step. eapply wf_removeReady; [exact W|exact Hx|done|done|].
  clear W. intros s1 W. rewrite Hhome, HL, without_cons_eq in W by done.
  pstep. pstep. pstep. pstep. pstep.
  change (p_prio x - 1) with (p_prio (step_up x)). rewrite Hup.
  pstep. { rewrite <- Hup, ready_at_ok; [|unfold prio_ok; simpl; lia]. unfold home. simpl. by rewrite Hst. }
  wp_step. wp_step.
  eapply (wf_rd_next _ _ _ _ _ _ (SReady (i - 1))); [exact W|plook| |].
  { unfold insert, fn_insert. rewrite decide_True by done.
    rewrite decide_False by (intros [= ?]; lia). done. }
  simpl. destruct NPROC; wp_step; apply HQ; exact W.
Qed.

Lemma promote_queues_step j L sl :
  (1 ≤ j)%nat →
  promote_queues j L sl =
    match L (SReady j) with
    | [] => promote_queues (j - 1) L sl
    | q :: l => to_tail (SReady (j - 1)) q (<[SReady j := l]> (promote_queues (j - 1) L)) sl
    end.
Proof.
  intros Hj. unfold to_tail, insert, fn_insert.
  destruct sl as [i| | | | |]; destruct (L (SReady j)) as [|q l] eqn:HL; simpl; try done.
  - replace (if decide (i < j)%nat then _ else _) with
      (if decide (i < j - 1)%nat then option_list (head (L (SReady (S i)))) else []).
    2: { destruct (decide (i = j - 1)%nat) as [->|].
         - rewrite decide_False, decide_True by lia. replace (S (j - 1)) with j by lia. by rewrite HL.
         - apply decide_ext. lia. }
    f_equal. destruct (decide (i = j)) as [->|].
    + rewrite decide_True, decide_False by lia. by rewrite HL.
    + apply decide_ext. lia.
  - destruct (decide (i = j)) as [->|Hne].
    + rewrite (decide_True (P:=(1 ≤ j ≤ j)%nat)), (decide_False (P:=(j < j)%nat)) by lia.
      rewrite (decide_False (P:=SReady (j - 1) = SReady j)) by (intros [= ?]; lia).
      rewrite decide_True by done. by rewrite HL, app_nil_r.
    + destruct (decide (i = j - 1)%nat) as [->|].
      * rewrite (decide_True (P:=SReady (j - 1) = SReady (j - 1))) by done.
        rewrite (decide_False (P:=SReady j = SReady (j - 1))) by (intros [= ?]; lia).
        rewrite (decide_True (P:=(j - 1 < j)%nat)), (decide_False (P:=(j - 1 < j - 1)%nat)) by lia.
        replace (S (j - 1)) with j by lia. rewrite HL, app_nil_r. simpl. f_equal.
        apply decide_ext. lia.
      * rewrite !(decide_False (P:=SReady _ = SReady i)) by (intros [= ?]; lia).
        f_equal; apply decide_ext; lia.
Qed.

Lemma promote_procs_step j a L s :
  (1 ≤ j)%nat → wf None a L s →
  promote_procs j L (k_procs a) =
    match L (SReady j) with
    | [] => promote_procs (j - 1) L (k_procs a)
    | q :: _ => alter step_up q (promote_procs (j - 1) L (k_procs a))
    end.
Proof.
  intros Hj W.
  assert (Heq : ∀ r x, k_procs a !! r = Some x → L (SReady j) ≠ [] → head (L (SReady j)) ≠ Some r →
    (p_state x = RUNNABLE ∧ 1 ≤ p_prio x ≤ Z.of_nat j ∧ head (L (SReady (Z.to_nat (p_prio x)))) = Some r)
    ↔ (p_state x = RUNNABLE ∧ 1 ≤ p_prio x ≤ Z.of_nat (j - 1) ∧
       head (L (SReady (Z.to_nat (p_prio x)))) = Some r)).
  { intros r x _ _ Hh. split; [|intuition lia]. intros (? & ? & Hr). split; [done|]. split; [|done].
    destruct (decide (p_prio x = Z.of_nat j)) as [Hp|]; [|lia].
    rewrite Hp, Nat2Z.id in Hr. done. }
  apply list_eq. intros r. destruct (L (SReady j)) as [|q l] eqn:HL; unfold promote_procs.
  - rewrite !list_lookup_imap. destruct (k_procs a !! r) as [x|]; simpl; [|done]. f_equal.
    apply decide_ext. split; [|intuition lia]. intros (? & ? & Hr). split; [done|]. split; [|done].
    destruct (decide (p_prio x = Z.of_nat j)) as [Hp|]; [|lia].
    rewrite Hp, Nat2Z.id, HL in Hr. done.
  - assert (Hq : q ∈ L (SReady j)) by (rewrite HL; set_solver).
    destruct (in_ready _ _ _ _ _ W Hq) as (x & Hx & Hst & Hpi & Hpr).
    rewrite list_lookup_alter, !list_lookup_imap. case_decide as Hd; [subst r|].
    + rewrite Hx. simpl. rewrite decide_True, decide_False; [done| |].
      * rewrite Hpi. intros (_ & ? & _). lia.
      * rewrite Hpi, Nat2Z.id, HL. split_and!; [done|lia..|done].
    + destruct (k_procs a !! r) as [y|] eqn:Hy; simpl; [|done]. f_equal. apply decide_ext.
      apply (Heq r y); [done..|]. simpl. congruence.
Qed.

Lemma promote_queues_0 L sl : promote_queues 0 L sl = L sl.
Proof. destruct sl; simpl; try done. rewrite decide_False by lia. by rewrite app_nil_r. Qed.

Lemma promote_procs_0 L ps : promote_procs 0 L ps = ps.
Proof.
  apply list_eq. intros r. unfold promote_procs. rewrite list_lookup_imap.
  destruct (ps !! r); simpl; [|done]. rewrite decide_False; [done|]. intros (_ & ? & _). lia.
Qed.

(** Everything prioadjust() does to the processes. *)
Definition adjusted L (ps : list proc) : list proc :=
  promote_procs (Z.to_nat MAX) L (raised <$> ps).

Lemma prioadjust_spec a L s (Q : unit → kstate E → Prop) :
  wf None a L s →
  (∀ s', wf None (a <| k_procs ::= adjusted L |> <| k_promote := u32 (k_ticks a + TICKS_TO_PROMOTE) |>)
           (promote_queues (Z.to_nat MAX) L) s' → Q tt s') →
  wp prioadjust Q s.
Proof.
  intros W HQ. unfold prioadjust.
  assert (Hbody : ∀ sl q x ps s, (∀ i, sl ≠ SReady i) → q ∈ L sl → ps !! q = Some x →
    wf None (a <| k_procs := ps |>) L s →
    wp (dec_prio q) (λ r s', r = None ∧ wf None (upd q raise (a <| k_procs := ps |>)) L s') s).
  { intros sl q x ps s' Hsl Hq Hx W'. eapply dec_prio_spec; [exact W'|exact Hx| |done].
    destruct (in_list _ _ _ _ _ W' Hq) as (y & Hy & Hh & _). simpl in Hy.
    assert (y = x) as -> by congruence. intros Hst. unfold home in Hh. rewrite Hst in Hh.
    by eapply Hsl. }
  wp_step. eapply (for_list_each raise []); [apply home_raise|by intros; eapply (Hbody SSleep)|done|set_solver| |].
  { unfold field_upd; simpl. replace (on_lists [] raise <$> k_procs a) with (k_procs a); [by destruct a|].
    apply list_eq. intros r. rewrite list_lookup_fmap. by destruct (k_procs a !! r). }
  clear W. intros s1 W. wp_step.
  eapply (for_list_each raise [SSleep]); [apply home_raise|by intros; eapply (Hbody SRunning)|done| |exact W|].
  { set_solver. }
  clear W Hbody. intros s2 W. fold raised in W. wp_step.
  set (b := a <| k_procs ::= fmap raised |>) in *.
  apply (for_upto_inv (λ j a' L', a' = b <| k_procs ::= promote_procs (j - 1) L |> ∧
    ∀ sl, L' sl = promote_queues (j - 1) L sl) _ _ _ _ b L); [|exact W| |].
  - intros j a1 L1 s3 Hj W1 [-> HL1].
    assert (HLj : L1 (SReady j) = L (SReady j)).
    { rewrite HL1. simpl. rewrite !decide_False by lia. by rewrite app_nil_r. }
    eapply promote_list_spec; [exact W1|lia|]. intros s4.
    pose proof (promote_procs_step j b L s2 (proj1 Hj) W) as Hps. simpl in Hps.
    replace (S j - 1)%nat with j by lia. unfold field_upd. simpl. rewrite Hps, HLj.
    destruct (L (SReady j)) as [|q l] eqn:HL; intros W4; (eexists _, _; split; [exact W4|]).
    + split; [done|]. intros sl. rewrite promote_queues_step, HL by lia. apply HL1.
    + split; [by rewrite upd_unfold|]. intros sl. rewrite promote_queues_step, HL by lia.
      unfold to_tail, insert, fn_insert. rewrite !HL1. repeat case_decide; congruence.
  - split; [|intros sl; by rewrite promote_queues_0].
    unfold field_upd. simpl. by rewrite promote_procs_0.
  - intros a1 L1 s3 W1 [-> HL1]. psteps. apply HQ. eapply wf_queues; [exact W1|].
    intros sl. rewrite HL1. done.
Qed.

(** ** switchuvm() with a lock held *)

Definition user_cpu (k d : Z) (c : cpu) : cpu :=
  c <| c_esp0 := u32 (k + KSTACKSIZE) |> <| c_cr3 := u32 (d - 2147483648) |>.

Lemma pushcli_done h : pushcli h = Done tt (h <| h_cpu ::= λ c,
  c <| c_if := false |> <| c_ncli := c_ncli c + 1 |>
    <| c_intena := if c_ncli c =? 0 then c_if c else c_intena c |> |>).
Proof.
  destruct h as [[] ?]. unfold pushcli, cli, when. cbv -[Z.eqb Z.add]. by destruct (_ =? 0).
Qed.

Lemma popcli_done h : c_if (h_cpu h) = false → 2 ≤ c_ncli (h_cpu h) →
  popcli h = Done tt (h <| h_cpu ::= λ c, c <| c_ncli := c_ncli c - 1 |> |>).
Proof.
  destruct h as [[i n ie f p cr e] ?]. simpl. intros -> Hn. unfold popcli, sti, when.
  cbv -[Z.eqb Z.sub Z.ltb andb]. replace (n - 1 <? 0) with false by (symmetry; zlia).
  by replace (n - 1 =? 0) with false by (symmetry; zlia).
Qed.

Lemma disc_user h held e k d :
  disc h held e → disc (h <| h_cpu ::= user_cpu k d |>) held e.
Proof. by intros [? ? ? ? ?]. Qed.

Lemma switchuvm_spec o held e a L s c y p x (Q : unit → kstate E → Prop) :
  wf o a L s → disc (k_hw a) held e → held ≠ [] → c_proc (h_cpu (k_hw a)) = Some c →
  k_procs a !! c = Some y → k_procs a !! p = Some x → p_pgdir x ≠ 0 →
  (∀ s', wf o (a <| k_hw ::= λ h, h <| h_cpu ::= user_cpu (p_kstack y) (p_pgdir x) |> |>) L s' → Q tt s') →
  wp (switchuvm p) Q s.
Proof.
  intros W D Hh Hc Hy Hx Hd HQ. unfold switchuvm. wp_step.
  eapply wf_hwop; [exact W|]. unfold wp at 1. rewrite pushcli_done. clear W. intros s1 W.
  psteps. rewrite Hc. simpl. psteps; [by apply Z.eqb_neq|].
  assert (Hif : c_if (h_cpu (k_hw a)) = false) by (rewrite (disc_if _ _ _ D); by destruct held).
  assert (Hn1 : 1 ≤ c_ncli (h_cpu (k_hw a))).
  { rewrite (disc_ncli _ _ _ D). destruct held; [done|simpl; lia]. }
  assert (Hn : (c_ncli (h_cpu (k_hw a)) =? 0) = false) by zlia.
  eapply wf_hwop; [exact W|]. unfold wp at 1. rewrite popcli_done; [|done|simpl; lia].
  clear W. intros s2 W. apply HQ.
  match type of W with wf _ (field_upd _ (λ _, ?h) _) _ _ =>
    change (wf o (a <| k_hw := h |>) L s2) in W;
    replace h with ((k_hw a) <| h_cpu ::= user_cpu (p_kstack y) (p_pgdir x) |>) in W; [exact W|] end.
  destruct (k_hw a) as [[] ?]. unfold field_upd, user_cpu. simpl in *. rewrite Hn, Z.add_simpl_r.
  by subst.
Qed.

(** ** The scheduler *)

Definition dispatched (t : Z) (x : proc) : proc :=
  x <| p_state := RUNNING |> <| p_cpu_ticks_in := t |>.

Definition has_pgdir a : Prop :=
  ∀ q x, k_procs a !! q = Some x → p_state x = RUNNABLE → p_pgdir x ≠ 0.

Definition dispatch_cpu p x (c : cpu) : cpu :=
  user_cpu (p_kstack x) (p_pgdir x) (c <| c_proc := Some p |>).

Lemma dispatch_spec held e a L s i (Q : option nat → kstate E → Prop) :
  wf None a L s → disc (k_hw a) held e → held ≠ [] → has_pgdir a → (i < S (Z.to_nat MAX))%nat →
  match L (SReady i) with
  | [] => ∀ s', wf None a L s' → Q None s'
  | p :: l => ∀ x s', k_procs a !! p = Some x →
      wf None ((upd p (dispatched (k_ticks a)) a) <| k_hw ::= λ h, h <| h_cpu ::= dispatch_cpu p x |> |>)
        (to_head SRunning p (<[SReady i := l]> L)) s' → Q (Some p) s'
  end →
  wp (dispatch i) Q s.
Proof.
  intros W D Hh Hd Hi HQ. unfold dispatch. pstep. pstep. destruct (L (SReady i)) as [|p l] eqn:HL; simpl.
  { by apply HQ. }
  assert (Hp : p ∈ L (SReady i)) by (rewrite HL; set_solver).
  destruct (in_ready _ _ _ _ _ W Hp) as (x & Hx & Hst & Hpi & Hpr).
  pose proof (wf_nodup _ _ _ _ (SReady i) W) as Hnd. rewrite HL in Hnd.
  apply NoDup_cons in Hnd as [Hpl _].
  assert (Hhome : home x = SReady i) by (unfold home; rewrite Hst, Hpi; f_equal; lia).
  pstep. pstep. wp_step. eapply switchuvm_spec; [exact W| |exact Hh|done|exact Hx|exact Hx|by eapply Hd|].
  { destruct D. by split. }
  clear W. intros s2 W. wp_step.
  eapply wf_removeReady; [exact W|exact Hx|done|done|]. clear W. intros s3 W.
  rewrite Hhome, HL, without_cons_eq in W by done. psteps. apply (HQ x); [done|].
  pnorm W. exact W.
Qed.

(** The search of the scheduler over the queues from [i]. *)
Lemma dispatch_loop_spec held e a L s i n (Q : option nat → kstate E → Prop) :
  wf None a L s → disc (k_hw a) held e → held ≠ [] → has_pgdir a → (i + n ≤ S (Z.to_nat MAX))%nat →
  match head (ready_order L i n) with
  | None => ∀ s', wf None a L s' → Q None s'
  | Some p => ∀ x s', k_procs a !! p = Some x → home x = SReady (Z.to_nat (p_prio x)) →
      wf None ((upd p (dispatched (k_ticks a)) a) <| k_hw ::= λ h, h <| h_cpu ::= dispatch_cpu p x |> |>)
        (to_head SRunning p (take_off (home x) p L)) s' → Q (Some p) s'
  end →
  wp (for_upto i n dispatch) Q s.
Proof.
  revert i s. induction n as [|n IH]; intros i s W D Hh Hd Hi HQ; simpl in *.
  { by apply HQ. }
  wp_step. eapply dispatch_spec; [exact W|exact D|done|done|lia|].
  destruct (L (SReady i)) as [|p l] eqn:HL; simpl in *.
  - intros s' W'. apply IH; [exact W'|done|done|done|lia|done].
  - intros x s' Hx W'. wp_step. assert (Hp : p ∈ L (SReady i)) by (rewrite HL; set_solver).
    destruct (in_ready _ _ _ _ _ W Hp) as (y & Hy & Hst & Hpi & Hpr).
    assert (y = x) as -> by congruence.
    assert (Hhome : home x = SReady i) by (unfold home; rewrite Hst, Hpi; f_equal; lia).
    pose proof (wf_nodup _ _ _ _ (SReady i) W) as Hnd. rewrite HL in Hnd.
    apply NoDup_cons in Hnd as [Hpl _].
    apply (HQ x); [done|unfold home; by rewrite Hst|]. rewrite Hhome. unfold take_off.
    by rewrite HL, without_cons_eq.
Qed.

(** The state in which the scheduler chooses. *)
Definition aged a L : kstate E :=
  if k_promote a <=? k_ticks a then
    a <| k_procs ::= adjusted L |> <| k_promote := u32 (k_ticks a + TICKS_TO_PROMOTE) |>
  else a.
Definition aged_queues a L : slist → list nat :=
  if k_promote a <=? k_ticks a then promote_queues (Z.to_nat MAX) L else L.

Lemma aged_lookup a L q y : k_procs (aged a L) !! q = Some y →
  ∃ x, k_procs a !! q = Some x ∧ p_state y = p_state x ∧ p_pgdir y = p_pgdir x ∧
    p_kstack y = p_kstack x ∧ p_context y = p_context x ∧ p_pid y = p_pid x.
Proof.
  unfold aged. destruct (_ <=? _); simpl; [|naive_solver]. unfold adjusted, promote_procs.
  rewrite list_lookup_imap, list_lookup_fmap. destruct (k_procs a !! q) as [x|]; simpl; [|done].
  intros [= <-]. exists x. split; [done|].
  unfold raised, on_lists, raise. repeat (case_decide || case_match); done.
Qed.

(** How an iteration of scheduler() ends. *)
Definition sched_act a L (e : bool) (r : option nat) (s : kstate E) : Prop :=
  ∃ h, same_cpu (h_cpu (k_hw a)) (h_cpu h) ∧
  match head (all_ready (aged_queues a L)), r with
  | None, None => disc h [] true ∧ lock_cycled (k_hw a) h ∧
      wf None ((aged a L) <| k_hw := h |>) (aged_queues a L) s
  | Some p, Some p' => p' = p ∧ disc h [LPtable] true ∧ lock_taken (k_hw a) h ∧
      ∃ x, k_procs (aged a L) !! p = Some x ∧ p_state x = RUNNABLE ∧
        wf None ((upd p (dispatched (k_ticks a)) (aged a L))
                   <| k_hw := h <| h_cpu ::= dispatch_cpu p x |> |>)
          (to_head SRunning p (take_off (home x) p (aged_queues a L))) s
  | _, _ => False
  end.

Lemma wf_sti o a L s e (Q : unit → kstate E → Prop) :
  wf o a L s → disc (k_hw a) [] e →
  (∀ h s', disc h [] true → same_cpu (h_cpu (k_hw a)) (h_cpu h) → h_locks h = h_locks (k_hw a) →
     wf o (a <| k_hw := h |>) L s' → Q tt s') →
  wp (hwop sti) Q s.
Proof.
  intros W D HQ. eapply wf_hwop; [exact W|]. unfold sti. wp_step. intros s' W'.
  eapply HQ; [| | |exact W']; [destruct D; by split|done|done].
Qed.

Lemma adjust_spec a L s (Q : unit → kstate E → Prop) :
  wf None a L s → (∀ s', wf None (aged a L) (aged_queues a L) s' → Q tt s') →
  wp (when (k_promote a <=? k_ticks a) prioadjust) Q s.
Proof.
  intros W HQ. unfold aged, aged_queues in HQ. unfold when. destruct (_ <=? _).
  - by eapply prioadjust_spec; [exact W|].
  - apply wp_ret. by apply HQ.
Qed.

Lemma aged_hw a L h : aged (a <| k_hw := h |>) L = (aged a L) <| k_hw := h |>.
Proof. unfold aged. simpl. by destruct (_ <=? _). Qed.

#[local] Arguments for_upto : simpl never.

Lemma scheduler_spec a L s e (Q : option nat → kstate E → Prop) :
  wf None a L s → disc (k_hw a) [] e → lk_locked (h_locks (k_hw a) LPtable) = false → has_pgdir a →
  (∀ r s', sched_act a L e r s' → Q r s') → wp scheduler Q s.
Proof.
  intros W D Hf Hd HQ. unfold scheduler, acquire_pt, release_pt. wp_step.
  eapply wf_sti; [exact W|exact D|]. clear W. intros h0 s0 D0 Hc0 Hk0 W. wp_step.
  eapply wf_acquire; [exact W|exact D0|by simpl; rewrite Hk0|].
  clear W. intros h s1 D1 [Hc Hl] W. simpl in Hc, Hl. rewrite Hk0 in Hl.
  assert (Hcc : same_cpu (h_cpu (k_hw a)) (h_cpu h)) by (unfold same_cpu in *; naive_solver congruence).
  rewrite (proj1 Hc0) in Hl.
  do 4 pstep. wp_step.
  change (k_promote a <=? k_ticks a) with
    (k_promote (a <| k_hw := h |>) <=? k_ticks (a <| k_hw := h |>)).
  eapply (adjust_spec (a <| k_hw := h |>)); [exact W|].
  clear W. intros s2 W. rewrite aged_hw in W. wp_step.
  assert (Hkt : k_ticks (aged a L) = k_ticks a) by (unfold aged; by destruct (_ <=? _)).
  eapply dispatch_loop_spec; [exact W|exact D1|done| |done|].
  { intros q y Hy Hst. destruct (aged_lookup a L q y Hy) as (x & Hx & Hs & Hp & _).
    rewrite Hp. apply (Hd q x Hx). congruence. }
  change (aged_queues (a <| k_hw := h |>) L) with (aged_queues a L) in *.
  fold (all_ready (aged_queues a L)).
  assert (Hend : ∀ r s', sched_act a L e r s' → Q r s') by done. unfold sched_act in Hend.
  destruct (head (all_ready (aged_queues a L))) as [p|].
  - intros x s3 Hx Hh W3. wp_step. apply Hend. exists h. split; [done|]. split; [done|].
    split; [done|]. split; [by split|]. exists x. split; [done|].
    split; [unfold home in Hh; by destruct (p_state x)|]. simpl in W3. rewrite Hkt in W3.
    pnorm W3. exact W3.
  - intros s3 W3. wp_step. eapply wf_release; [exact W3|exact D1|].
    intros h4 s4 D4 Hl4 W4. wp_step. eapply wf_sti; [exact W4|exact D4|].
    intros h5 s5 D5 Hc5 Hk5 W5. wp_step. apply Hend. exists h5. 
    destruct Hl4 as [Hc4 Hl4]. simpl in *.
    assert (same_cpu (h_cpu (k_hw a)) (h_cpu h5)) by (unfold same_cpu in *; naive_solver congruence).
    split_and!; try done.
    eapply (locks_set_twice _ _ _ _ h); [by split|].
    split; [unfold same_cpu in *; naive_solver congruence|by rewrite Hk5].
Qed.
End sched.
