(* ===== verification/ProcExit.v ===== *)
(** * Specifications of wait() and exit() (proc.c) *)

From S2P Require Import Prelude Mem Spinlock Str Proc ProcOps ProcLists ProcInv ProcSpec ProcScan.

Section waitspecs.
Context {E : Type} `{!KEnv E}.
Implicit Types (a s : kstate E) (L : slist → list nat) (p q me : nat) (x : proc).

Definition is_child_of a (me : nat) (q : nat) : bool :=
  match k_procs a !! q with Some x => bool_decide (p_parent x = Some me) | None => false end.

Definition live_order L : list nat := all_ready L ++ L SRunning ++ L SSleep ++ L SEmbryo.

Definition found_in (P : nat → bool) (l : list nat) : bool :=
  match find P l with Some _ => true | None => false end.

Lemma found_in_app P l1 l2 : found_in P (l1 ++ l2) = found_in P l1 || found_in P l2.
Proof. unfold found_in. rewrite find_app. by destruct (find P l1), (find P l2). Qed.

(** ** The scan for live children *)

Lemma scan_child_spec a L s me found sl (Q : bool → kstate E → Prop) :
  wf None a L s → valid sl →
  (∀ s', wf None a L s' → Q (found || found_in (is_child_of a me) (L sl)) s') →
  wp (scan_child me found sl) Q s.
Proof.
  intros W Hv HQ. unfold scan_child. destruct found; simpl; [wp_step; by apply HQ|]. wp_step.
  eapply wp_mono.
  { apply (scans_list (is_child_of a me) (λ _ _ s', wf None a L s') a L sl); [done| |exact W].
    intros q s1 Hq W1. destruct (in_list _ _ _ _ _ W1 Hq) as (x & Hx & _). unfold is_child. psteps.
    unfold is_child_of. rewrite Hx. case_decide; [rewrite bool_decide_true by done; eauto|].
    by rewrite bool_decide_false by done. }
  intros r s1. unfold found_in in HQ. destruct (find _ _).
  - intros (v & -> & W1). wp_step. by apply HQ.
  - intros [-> W1]. wp_step. by apply HQ.
Qed.

Lemma scan_ready_spec a L s me found i n (Q : bool → kstate E → Prop) :
  wf None a L s → (i + n ≤ S (Z.to_nat MAX))%nat →
  (∀ s', wf None a L s' → Q (found || found_in (is_child_of a me) (ready_order L i n)) s') →
  wp (scan_ready me found i n) Q s.
Proof.
  revert found i s. induction n as [|n IH]; intros found i s W Hi HQ; simpl.
  { wp_step. rewrite <- (orb_false_r found). by apply HQ. }
  wp_step. eapply scan_child_spec; [exact W|unfold valid; lia|]. intros s1 W1.
  apply IH; [exact W1|lia|]. intros s2 W2. rewrite <- orb_assoc, <- found_in_app. by apply HQ.
Qed.

(** ** wait() *)

Definition reaped (x : proc) : proc :=
  x <| p_kstack := 0 |> <| p_state := UNUSED |> <| p_pid := 0 |> <| p_parent := None |>
    <| p_name ::= λ n, <[0%nat := 0]> n |> <| p_killed := 0 |>.

(** kfree() of a kernel stack and freevm() of a page directory, as wait()
    calls them for the child. *)
Definition free_mem (kd : Z * Z) (env : E) (R : E → Prop) : Prop :=
  wp (e_kfree kd.1) (λ _ e1, wp (e_freevm kd.2) (λ _ e2, R e2) e1) env.
Definition can_free (x : proc) (env : E) (R : E → Prop) : Prop := free_mem (p_kstack x, p_pgdir x) env R.

(** How wait() ends. *)
Definition wait_act h e me a L (r : ctl Z) (s : kstate E) : Prop :=
  match find (is_child_of a me) (L SZombie) with
  | Some q => ∃ x h' env, k_procs a !! q = Some x ∧ r = Ret (s32 (p_pid x)) ∧
      disc h' [] e ∧ lock_cycled h h' ∧ can_free x (k_env a) (.= env) ∧
      wf None ((upd q reaped a) <| k_hw := h' |> <| k_env := env |>)
        (to_head SFree q (take_off SZombie q L)) s
  | None => ∃ x, k_procs a !! me = Some x ∧
      if found_in (is_child_of a me) (live_order L) && (p_killed x =? 0) then
        r = Gone ∧ ∃ h', disc h' [LPtable] e ∧ lock_taken h h' ∧
          wf None ((upd me (slept (k_ticks a) (ChProc me) (RWait e)) a) <| k_hw := h' |>)
            (to_head SSleep me (take_off SRunning me L)) s
      else r = Ret (-1) ∧ ∃ h', disc h' [] e ∧ lock_cycled h h' ∧ wf None (a <| k_hw := h' |>) L s
  end.

Definition reap_act h e (me : nat) a L (q : nat) (v : Z) (s : kstate E) : Prop :=
  ∃ x h' env, k_procs a !! q = Some x ∧ v = s32 (p_pid x) ∧
    disc h' [] e ∧ lock_cycled h h' ∧ can_free x (k_env a) (.= env) ∧
    wf None ((upd q reaped a) <| k_hw := h' |> <| k_env := env |>)
      (to_head SFree q (take_off SZombie q L)) s.

Lemma reap_spec h e a L s me q x (P : bool) :
  wf None a L s → disc (k_hw a) [LPtable] e → lock_taken h (k_hw a) →
  k_procs a !! q = Some x → p_state x = ZOMBIE → bool_decide (p_parent x = Some me) = P →
  can_free x (k_env a) (λ _, True) →
  wp (reap me q) (λ r s', if P then ∃ v, r = Some v ∧ reap_act h e me a L q v s'
                          else r = None ∧ wf None a L s') s.
Proof.
  intros W D Hl Hx Hst HP Hfree. pose proof (wf_prio _ _ _ _ _ _ W Hx) as Hpr.
  unfold reap, release_pt. pstep. pstep. destruct (decide (p_parent x = Some me)) as [Hd|Hd].
  2: { rewrite bool_decide_false in HP by done. subst P. by wp_step. }
  rewrite bool_decide_true in HP by done. subst P. unfold can_free, free_mem in Hfree. cbn [fst snd] in Hfree.
  destruct (e_kfree (p_kstack x) (k_env a)) as [[] e1| | | |] eqn:He1; unfold wp at 1 in Hfree;
    rewrite He1 in Hfree; try done.
  destruct (e_freevm (p_pgdir x) e1) as [[] e2| | | |] eqn:He2; unfold wp at 1 in Hfree;
    rewrite He2 in Hfree; try done.
  psteps. eapply wf_envop; [exact W|]. unfold wp at 1. rewrite He1. clear W. intros s1 W. psteps.
  eapply wf_envop; [exact W|]. unfold wp at 1. psimpl. rewrite He2. clear W. intros s2 W. psteps.
  { unfold home. simpl. by rewrite Hst. }
  eapply wf_release; [exact W|exact D|]. clear W. intros h2 s3 D2 Hl2 W. wp_step.
  eexists. split; [done|]. exists x, h2, e2. split_and!; try done.
  - by eapply locks_set_twice.
  - unfold can_free, free_mem, wp. cbn [fst snd]. by rewrite He1, He2.
  - pnorm W. exact W.
Qed.

Definition zombies_freeable a : Prop := ∀ q x,
  k_procs a !! q = Some x → p_state x = ZOMBIE → can_free x (k_env a) (λ _, True).

Lemma sleep_locks_held h h1 h2 :
  lock_taken h h1 → sleep_locks (Some LPtable) h1 h2 → lock_taken h h2.
Proof.
  intros [Hc Hl] [Hc' Hl']. split; [unfold same_cpu in *; naive_solver congruence|].
  intros k. rewrite Hl'. unfold insert, fn_insert in *. destruct (decide (k = LPtable)) as [->|].
  - rewrite decide_True by done. by rewrite (proj1 Hc).
  - rewrite !decide_False by congruence. rewrite Hl. by rewrite decide_False by congruence.
Qed.

#[local] Arguments scan_ready : simpl never.
#[local] Arguments scan_child : simpl never.

Lemma wait_iter_spec h e a L s me x (Q : ctl Z → kstate E → Prop) :
  wf None a L s → on_cpu (k_hw a) me [LPtable] e → lock_taken h (k_hw a) →
  k_procs a !! me = Some x → p_state x = RUNNING → zombies_freeable a →
  (∀ r s', wait_act h e me a L r s' → Q r s') →
  wp wait_iter Q s.
Proof.
  intros W [Hp D] Hl Hx Hst Hfree HQ. unfold wait_iter, release_pt. psteps. rewrite Hp. unfold deref. psteps.
  eapply wp_mono.
  { apply (scans_list (is_child_of a me) (reap_act h e me a L) a L SZombie); [done| |exact W].
    intros q s1 Hq W1. destruct (in_list _ _ _ _ _ W1 Hq) as (y & Hy & Hh & _).
    assert (p_state y = ZOMBIE) by (unfold home in Hh; by destruct (p_state y)).
    eapply reap_spec; [exact W1|done|done|exact Hy|done| |by eapply Hfree].
    unfold is_child_of. by rewrite Hy. }
  intros r s1. unfold wait_act in HQ. destruct (find (is_child_of a me) (L SZombie)) as [q|].
  { intros (v & -> & y & h' & env & Hy & -> & ?). wp_step. apply HQ. by exists y, h', env. }
  intros [-> W1]. wp_step. eapply scan_ready_spec; [exact W1|done|]. clear W1. intros s2 W1.
  wp_step. eapply scan_child_spec; [exact W1|done|]. clear W1. intros s3 W1.
  wp_step. eapply scan_child_spec; [exact W1|done|]. clear W1. intros s4 W1.
  wp_step. eapply scan_child_spec; [exact W1|done|]. clear W1. intros s5 W1.
  fold (all_ready L). rewrite orb_false_l, <- !found_in_app, <- !(assoc_L (++)).
  fold (live_order L). psteps.
  destruct (found_in (is_child_of a me) (live_order L)) eqn:Hf; simpl;
    [destruct (p_killed x =? 0) eqn:Hk; simpl|]; wp_step.
  - eapply sleep_spec; [exact W1|by split|done|done|done|].
    intros h' s6 D6 Hl6 W6. wp_step. apply HQ. exists x. split; [done|]. simpl. rewrite Hk.
    split; [done|]. exists h'. split; [done|]. split; [by eapply sleep_locks_held|done].
  - eapply wf_release; [exact W1|exact D|]. intros h2 s6 D2 Hl2 W2. wp_step. apply HQ.
    exists x. split; [done|]. simpl. rewrite Hk. split; [done|]. exists h2.
    split; [done|]. split; [by eapply locks_set_twice|done].
  - eapply wf_release; [exact W1|exact D|]. intros h2 s6 D2 Hl2 W2. wp_step. apply HQ.
    exists x. split; [done|]. split; [done|]. exists h2.
    split; [done|]. split; [by eapply locks_set_twice|done].
Qed.

Lemma wait_act_hw h e me a L r s h' :
  wait_act h e me (a <| k_hw := h' |>) L r s → wait_act h e me a L r s.
Proof.
  unfold wait_act. simpl. change (is_child_of (a <| k_hw := h' |>)) with (is_child_of a).
  by destruct (find (is_child_of a me) (L SZombie)).
Qed.

Lemma wait_spec e a L s me x (Q : ctl Z → kstate E → Prop) :
  wf None a L s → on_cpu (k_hw a) me [] e → lk_locked (h_locks (k_hw a) LPtable) = false →
  k_procs a !! me = Some x → p_state x = RUNNING → zombies_freeable a →
  (∀ r s', wait_act (k_hw a) e me a L r s' → Q r s') →
  wp wait Q s.
Proof.
  intros W [Hp D] Hf Hx Hst Hfree HQ. unfold wait, acquire_pt. wp_step.
  eapply wf_acquire; [exact W|exact D|done|]. clear W. intros h s1 D1 Hl W.
  eapply wait_iter_spec; [exact W| |exact Hl|done|done|done|].
  { split; [|done]. simpl. by rewrite (proj1 (proj2 (proj1 Hl))). }
  intros r s2 Ha. apply HQ. by eapply wait_act_hw.
Qed.
End waitspecs.

(** ** Specification of exit() (proc.c) *)

Section exitspecs.
Context {E : Type} `{!KEnv E}.
Implicit Types (a s : kstate E) (L : slist → list nat) (p q me : nat) (x : proc).

(** [if(p->parent == proc) p->parent = initproc;] *)
Definition adopt (me : nat) (i : option nat) (x : proc) : proc :=
  if decide (p_parent x = Some me) then x <| p_parent := i |> else x.

Definition orphaned (me : nat) (i : option nat) (x : proc) : proc :=
  if decide (p_state x = UNUSED) then x else adopt me i x.

Lemma adopt_home me i x : home (adopt me i x) = home x.
Proof. unfold adopt. by case_decide. Qed.

Lemma adopt_fields me i x : p_state (adopt me i x) = p_state x ∧ p_chan (adopt me i x) = p_chan x ∧
  p_prio (adopt me i x) = p_prio x.
Proof. unfold adopt. by case_decide. Qed.

Lemma adopt_woken me i ch x : woken ch (adopt me i x) = adopt me i (woken ch x).
Proof. unfold woken, adopt. repeat case_decide; simpl in *; try done; naive_solver. Qed.

Lemma reparent_spec a L s me q x (Q : option unit → kstate E → Prop) :
  wf None a L s → k_procs a !! q = Some x →
  (∀ s', wf None (upd q (adopt me (k_initproc a)) a) L s' → Q None s') →
  wp (reparent me q) Q s.
Proof.
  intros W Hx HQ. pose proof (wf_prio _ _ _ _ _ _ W Hx) as Hpr. unfold reparent. psteps.
  case_decide as Hd; psteps; apply HQ.
  - eapply wf_upd_eq; [exact W|]. intros y Hy. assert (y = x) as -> by congruence.
    unfold adopt. by rewrite decide_True.
  - erewrite upd_same; [exact W|done|]. unfold adopt. by rewrite decide_False.
Qed.

(** ** The queues under waking, up to the fields they depend on *)

Lemma wake_queues_ext ch l a a' L L' sl :
  (∀ q, chan_at a q = chan_at a' q ∧ prio_at a q = prio_at a' q) → (∀ sl, L sl = L' sl) →
  wake_queues ch l a L sl = wake_queues ch l a' L' sl.
Proof.
  intros Ha HL. unfold wake_queues. destruct sl; try done.
  - rewrite HL. f_equal. apply list_filter_iff. intros q. by destruct (Ha q) as [-> ->].
  - rewrite HL. apply list_filter_iff. intros q. by destruct (Ha q) as [-> _].
Qed.

Lemma wake_queues_none ch l a L sl :
  (∀ q, q ∈ l → chan_at a q ≠ Some ch) → wake_queues ch l a L sl = L sl.
Proof.
  intros Hl. unfold wake_queues. destruct sl; try done.
  - rewrite <- (app_nil_r (L (SReady i))) at 2. f_equal.
    induction l as [|q l IH]; [done|]. rewrite filter_cons_False by (intros [? _]; by apply (Hl q); [left|]).
    apply IH. intros q' Hq'. apply Hl. by right.
  - induction (L SSleep) as [|q l' IH]; [done|].
    rewrite filter_cons_True by (intros [? ?]; by apply (Hl q)). by f_equal.
Qed.

Lemma wake_idem ch a : wake ch (wake ch a) = wake ch a.
Proof.
  unfold wake, field_upd. simpl. f_equal. rewrite <- list_fmap_compose. apply list_fmap_ext.
  intros i x _. unfold woken. simpl. repeat case_decide; simpl in *; naive_solver.
Qed.

Lemma wake_upd ch a q f x :
  k_procs a !! q = Some x → woken ch (f x) = f (woken ch x) →
  wake ch (upd q f a) = upd q f (wake ch a).
Proof.
  intros Hx Hf. rewrite !upd_unfold. unfold wake, field_upd. simpl. f_equal.
  apply list_eq. intros r. rewrite list_lookup_fmap, !list_lookup_alter, list_lookup_fmap.
  case_decide; [subst r|by rewrite list_lookup_fmap]. rewrite Hx. simpl. by rewrite Hf.
Qed.

Lemma chan_prio_upd a q f r :
  (∀ x, p_chan (f x) = p_chan x ∧ p_prio (f x) = p_prio x) →
  chan_at (upd q f a) r = chan_at a r ∧ prio_at (upd q f a) r = prio_at a r.
Proof.
  intros Hf. unfold chan_at, prio_at. rewrite upd_unfold. simpl. rewrite list_lookup_alter.
  case_decide; [subst r|done]. destruct (k_procs a !! q) as [x|]; [|done]. simpl.
  destruct (Hf x) as [-> ->]. done.
Qed.

Lemma chan_prio_wake ch a r :
  chan_at (wake ch a) r = chan_at a r ∧ prio_at (wake ch a) r = prio_at a r.
Proof.
  unfold chan_at, prio_at, wake. simpl. rewrite list_lookup_fmap.
  destruct (k_procs a !! r) as [x|]; [|done]. simpl. unfold woken. by case_decide.
Qed.

(** ** The loop over the zombies *)

Section zombies.
Context (me : nat) (i : option nat) (sls : list slist) (b : kstate E) (L0 : slist → list nat).

Definition adopted (l : list nat) : kstate E :=
  b <| k_procs ::= on_prefix sls l (adopt me i) |>.

Definition zombie_state (l : list nat) (w : bool) : kstate E :=
  if w then wake (chan_of i) (adopted l) else adopted l.
Definition zombie_queues (w : bool) : slist → list nat :=
  if w then wake_queues (chan_of i) (L0 SSleep) b L0 else L0.

Lemma zombie_queues_zombie w : zombie_queues w SZombie = L0 SZombie.
Proof. by destruct w. Qed.

Lemma adopted_snoc l q x :
  k_procs b !! q = Some x → home x ∉ sls → q ∉ l →
  adopted (l ++ [q]) = upd q (adopt me i) (adopted l).
Proof.
  intros Hx Hh Hq. rewrite upd_unfold. unfold adopted, field_upd. simpl. f_equal.
  by eapply on_prefix_snoc.
Qed.

Lemma adopted_lookup l q x : k_procs b !! q = Some x → home x ∉ sls → q ∉ l →
  k_procs (adopted l) !! q = Some x.
Proof.
  intros Hx Hh Hq. simpl. unfold on_prefix. rewrite list_lookup_imap, Hx. simpl.
  by rewrite decide_False by tauto.
Qed.

Lemma adopted_chan l r : chan_at (adopted l) r = chan_at b r ∧ prio_at (adopted l) r = prio_at b r.
Proof.
  unfold chan_at, prio_at, adopted. simpl. unfold on_prefix. rewrite list_lookup_imap.
  destruct (k_procs b !! r) as [x|]; [|done]. simpl. case_decide; [|done].
  by destruct (adopt_fields me i x) as (_ & -> & ->).
Qed.

Lemma zombie_body_spec l q x w L s (Q : option unit → kstate E → Prop) :
  k_initproc b = i → wf None (zombie_state l w) L s → (∀ sl, L sl = zombie_queues w sl) →
  k_procs b !! q = Some x → p_state x = ZOMBIE → home x ∉ sls → q ∉ l →
  (∀ L' s', wf None (zombie_state (l ++ [q]) (w || is_child_of b me q)) L' s' →
     (∀ sl, L' sl = zombie_queues (w || is_child_of b me q) sl) → Q None s') →
  wp (reparent_zombie me q) Q s.
Proof.
  intros Hi W HL Hx Hst Hh Hq HQ.
  assert (Hz : k_procs (zombie_state l w) !! q = Some x).
  { unfold zombie_state. pose proof (adopted_lookup l q x Hx Hh Hq) as Ha. destruct w; [|done].
    unfold wake. simpl. rewrite list_lookup_fmap. simpl in Ha. rewrite Ha. simpl. unfold woken.
    rewrite decide_False; [done|]. rewrite Hst. by intros [? _]. }
  pose proof (wf_prio _ _ _ _ _ _ W Hz) as Hpr.
  assert (Hst' : upd q (adopt me i) (zombie_state l w) = zombie_state (l ++ [q]) w).
  { unfold zombie_state. rewrite (adopted_snoc l q x) by done. destruct w; [|done]. symmetry.
    eapply wake_upd; [by apply adopted_lookup|apply adopt_woken]. }
  assert (Hini : k_initproc (zombie_state l w) = i) by (rewrite <- Hi; by destruct w).
  unfold reparent_zombie. do 2 pstep. unfold is_child_of in HQ. rewrite Hx in HQ.
  destruct (decide (p_parent x = Some me)) as [Hd|Hd].
  - rewrite bool_decide_true, orb_true_r in HQ by done. psteps. rewrite Hini. rewrite Hini in W.
    assert (W1 : wf None (zombie_state (l ++ [q]) w) L s').
    { rewrite <- Hst'. eapply wf_upd_eq; [exact W|]. intros y Hy. assert (y = x) as -> by congruence.
      unfold adopt. by rewrite decide_True. }
    eapply wakeup1_spec; [exact W1|]. clear W W1. intros s2 W. wp_step.
    unfold zombie_state, zombie_queues in *. destruct w; [rewrite wake_idem in W|];
      (eapply HQ; [exact W|]); intros sl.
    + rewrite wake_queues_none; [by rewrite HL|]. intros r. rewrite HL. simpl.
      destruct (chan_prio_wake (chan_of i) (adopted (l ++ [q])) r) as [-> _].
      destruct (adopted_chan (l ++ [q]) r) as [-> _]. rewrite list_elem_of_filter. tauto.
    + rewrite HL. apply wake_queues_ext; [|done]. intros r. apply adopted_chan.
  - rewrite bool_decide_false, orb_false_r in HQ by done. psteps. eapply HQ; [|exact HL].
    rewrite <- Hst'. erewrite upd_same; [exact W|exact Hz|]. unfold adopt. by rewrite decide_False.
Qed.
End zombies.

(** ** The loops over the other lists *)

Fixpoint ready_lists (n : nat) : list slist :=
  match n with O => [] | S n => SReady n :: ready_lists n end.

Lemma elem_of_ready_lists n sl : sl ∈ ready_lists n ↔ ∃ i, (i < n)%nat ∧ sl = SReady i.
Proof.
  induction n as [|n IH]; simpl; [split; [set_solver|intros (i & ? & _); lia]|].
  rewrite elem_of_cons, IH. split.
  - intros [->|(i & ? & ->)]; [exists n|exists i]; (split; [lia|done]).
  - intros (i & Hi & ->). destruct (decide (i = n)) as [->|]; [by left|right].
    exists i. split; [lia|done].
Qed.

Definition live_lists : list slist :=
  SEmbryo :: SSleep :: SRunning :: ready_lists (S (Z.to_nat MAX)).

Lemma on_lists_nil f (ps : list proc) : on_lists [] f <$> ps = ps.
Proof. apply list_eq. intros r. rewrite list_lookup_fmap. by destruct (ps !! r). Qed.

Lemma on_all_lists me i x : prio_ok x →
  on_lists (SZombie :: live_lists) (adopt me i) x = orphaned me i x.
Proof.
  intros Hpr. unfold on_lists, orphaned. unfold prio_ok, MAX in Hpr.
  destruct (decide (p_state x = UNUSED)) as [Hu|Hu].
  - rewrite decide_False; [done|]. unfold home, live_lists. rewrite Hu.
    rewrite !elem_of_cons, elem_of_ready_lists. naive_solver.
  - rewrite decide_True; [done|]. unfold home, live_lists.
    rewrite !elem_of_cons, elem_of_ready_lists. destruct (p_state x); try done; try tauto.
    do 4 right. exists (Z.to_nat (p_prio x)). split; [unfold MAX; lia|done].
Qed.

Lemma reparent_loop_spec a L s me sls sl (Q : option unit → kstate E → Prop) :
  valid sl → sl ∉ sls → wf None (a <| k_procs ::= fmap (on_lists sls (adopt me (k_initproc a))) |>) L s →
  (∀ s', wf None (a <| k_procs ::= fmap (on_lists (sl :: sls) (adopt me (k_initproc a))) |>) L s' →
     Q None s') →
  wp (for_list sl (reparent me)) Q s.
Proof.
  intros Hv Hs W HQ. eapply for_list_each; [apply adopt_home| |done|exact Hs|exact W|done].
  intros q x ps s' _ Hx W'. by eapply (reparent_spec (a <| k_procs := ps |>)); [exact W'|exact Hx|].
Qed.

Lemma reparent_live_spec a L s me (Q : unit → kstate E → Prop) :
  wf None a L s →
  (∀ s', wf None (a <| k_procs ::= fmap (on_lists live_lists (adopt me (k_initproc a))) |>) L s' →
     Q tt s') →
  wp (reparent_live me) Q s.
Proof.
  intros W HQ. unfold reparent_live. wp_step.
  apply (for_upto_inv (λ j a' L', L' = L ∧
    a' = a <| k_procs ::= fmap (on_lists (ready_lists j) (adopt me (k_initproc a))) |>) _ _ _ _ a L).
  - intros j a' L' s1 Hj W1 [-> ->]. eapply reparent_loop_spec; [|idtac|exact W1|].
    + unfold valid. lia.
    + rewrite elem_of_ready_lists. intros (i & ? & [= ->]). lia.
    + intros s2 W2. by eexists _, _.
  - exact W.
  - split; [done|]. unfold field_upd. simpl. rewrite on_lists_nil. by destruct a.
  - clear W. intros a' L' s1 W1 [-> ->].
    assert (Hn : ∀ sl, (∀ i, sl ≠ SReady i) → sl ∉ ready_lists (S (Z.to_nat MAX))).
    { intros sl Hsl. rewrite elem_of_ready_lists. intros (i & _ & ->). by eapply Hsl. }
    wp_step. eapply reparent_loop_spec; [done| |exact W1|]. { by apply Hn. }
    clear W1. intros s2 W2. wp_step. eapply reparent_loop_spec; [done| |exact W2|].
    { apply not_elem_of_cons. split; [done|by apply Hn]. }
    clear W2. intros s3 W3. wp_step. eapply reparent_loop_spec; [done| |exact W3|].
    { rewrite !not_elem_of_cons. split_and!; [done..|by apply Hn]. }
    intros s4 W4. wp_step. by apply HQ.
Qed.

Lemma zombie_loop_spec a L s me (Q : option unit → kstate E → Prop) :
  let w := found_in (is_child_of a me) (L SZombie) in
  let i := k_initproc a in
  wf None (a <| k_procs ::= fmap (on_lists live_lists (adopt me i)) |>) L s →
  (∀ s', wf None (if w then wake (chan_of i) (a <| k_procs ::= fmap (on_lists (SZombie :: live_lists) (adopt me i)) |>)
                  else a <| k_procs ::= fmap (on_lists (SZombie :: live_lists) (adopt me i)) |>)
           (zombie_queues i a L w) s' → Q None s') →
  wp (for_list SZombie (reparent_zombie me)) Q s.
Proof.
  intros w i W HQ.
  assert (Hz : ∀ sls l ps q x, on_prefix sls l (adopt me i) ps !! q = Some x →
    ∃ y, ps !! q = Some y ∧ p_state y = p_state x ∧ home y = home x).
  { intros sls l ps q x. unfold on_prefix. rewrite list_lookup_imap.
    destruct (ps !! q) as [y|]; simpl; [|done]. intros [= <-]. exists y. split; [done|].
    case_decide; [|done]. by rewrite adopt_home, (proj1 (adopt_fields me i y)). }
  assert (Hzl : SZombie ∉ live_lists).
  { unfold live_lists. rewrite !not_elem_of_cons, elem_of_ready_lists. naive_solver. }
  assert (Hin : ∀ q y, k_procs a !! q = Some y → q ∈ L SZombie ↔ home y = SZombie).
  { intros q y Hy. rewrite (wf_in _ _ _ _ (on_lists live_lists (adopt me i) y) _ W).
    - unfold on_lists. case_decide; rewrite ?adopt_home; naive_solver.
    - simpl. by rewrite list_lookup_fmap, Hy. }
  apply (for_list_inv (λ l a' L', a' = zombie_state me i live_lists a l (found_in (is_child_of a me) l) ∧
    ∀ sl, L' sl = zombie_queues i a L (found_in (is_child_of a me) l) sl) _ _ _
    (a <| k_procs ::= fmap (on_lists live_lists (adopt me i)) |>) L).
  - intros l1 q l2 a' L' s1 W1 [-> HL'] HL.
    assert (HLz : L' SZombie = L SZombie) by (rewrite HL'; apply zombie_queues_zombie).
    rewrite HLz in HL. assert (Hq : q ∈ L SZombie) by (rewrite HL; set_solver).
    destruct (wf_member _ _ _ _ _ _ W Hq) as (y & Hy & Hh & _).
    simpl in Hy. rewrite <- on_prefix_nil in Hy. destruct (Hz _ _ _ _ _ Hy) as (x & Hx & Hs & Hhx).
    pose proof (wf_nodup _ _ _ _ SZombie W) as Hnd. rewrite HL in Hnd.
    apply NoDup_app in Hnd as (_ & Hd & _).
    eapply (zombie_body_spec me i live_lists a L l1 q x); [done|exact W1|exact HL'|done| | | |].
    + rewrite Hh in Hhx. unfold home in Hhx. by destruct (p_state x).
    + by rewrite Hhx, Hh.
    + intros Hl1. by apply (Hd q Hl1); left.
    + intros L2 s2 W2 HL2. eexists _, L2. split; [exact W2|].
      assert (Hf : found_in (is_child_of a me) (l1 ++ [q])
        = found_in (is_child_of a me) l1 || is_child_of a me q).
      { rewrite found_in_app. unfold found_in at 2. simpl. by destruct (is_child_of a me q). }
      rewrite Hf. split; [|done]. rewrite HL2, HLz. apply zombie_queues_zombie.
  - done.
  - exact W.
  - split; [|done]. unfold zombie_state, adopted, field_upd. simpl. by rewrite on_prefix_nil.
  - intros a' L' s1 W1 [-> HL']. apply HQ.
    assert (HLz : L' SZombie = L SZombie) by (rewrite HL'; apply zombie_queues_zombie).
    rewrite HLz in W1, HL'. fold w in W1, HL'. eapply wf_queues; [|intros sl; symmetry; apply HL'].
    unfold zombie_state, adopted, field_upd in *. simpl in *.
    rewrite (on_prefix_all live_lists SZombie) in W1 by done. exact W1.
Qed.

(** ** exit() under ptable.lock *)

(** The processes and the queues just before the caller leaves the CPU:
    its parent is woken, its children belong to init, and init is woken if
    one of them is a zombie already. *)
Definition exit_wake a L x : kstate E := wake (chan_of (p_parent x)) a.
Definition exit_queues1 a L x : slist → list nat :=
  wake_queues (chan_of (p_parent x)) (L SSleep) a L.
Definition exit_zombies p a L x : bool :=
  found_in (is_child_of (exit_wake a L x) p) (exit_queues1 a L x SZombie).
Definition exit_state p a L x : kstate E :=
  let b := (exit_wake a L x) <| k_procs ::= fmap (orphaned p (k_initproc a)) |> in
  if exit_zombies p a L x then wake (chan_of (k_initproc a)) b else b.
Definition exit_queues p a L x : slist → list nat :=
  zombie_queues (k_initproc a) (exit_wake a L x) (exit_queues1 a L x) (exit_zombies p a L x).

Definition exited (t : Z) (e : bool) (x : proc) : proc :=
  leave t (RExit e) (x <| p_state := ZOMBIE |>).

Lemma exit_state_lookup p a L x q y :
  k_procs a !! q = Some y → p_state y = RUNNING →
  k_procs (exit_state p a L x) !! q = Some (adopt p (k_initproc a) y).
Proof.
  intros Hy Hst. unfold exit_state.
  assert (Ho : k_procs ((exit_wake a L x) <| k_procs ::= fmap (orphaned p (k_initproc a)) |>) !! q
               = Some (adopt p (k_initproc a) y)).
  { unfold exit_wake, wake. simpl. rewrite !list_lookup_fmap, Hy. simpl. f_equal. unfold woken.
    rewrite decide_False by (rewrite Hst; naive_solver). unfold orphaned.
    by rewrite decide_False by (rewrite Hst; done). }
  destruct (exit_zombies p a L x); [|done]. unfold wake at 1. simpl. simpl in Ho.
  rewrite list_lookup_fmap, Ho. simpl. f_equal. unfold woken. rewrite decide_False; [done|].
  rewrite (proj1 (adopt_fields _ _ _)), Hst. naive_solver.
Qed.

Lemma orphaned_all p i a L s (ps : list proc) :
  wf None a L s → on_lists (SZombie :: live_lists) (adopt p i) <$> k_procs a = orphaned p i <$> k_procs a.
Proof.
  intros W. apply list_fmap_ext. intros q x Hx. apply on_all_lists. by eapply wf_prio.
Qed.

Lemma exit_locked_spec e a L s p x (Q : unit → kstate E → Prop) :
  wf None a L s → on_cpu (k_hw a) p [] e → lk_locked (h_locks (k_hw a) LPtable) = false →
  k_procs a !! p = Some x → p_state x = RUNNING →
  (∀ h s', disc h [LPtable] e → lock_taken (k_hw a) h →
     wf None ((upd p (exited (k_ticks a) e) (exit_state p a L x)) <| k_hw := h |>)
       (to_head SZombie p (take_off SRunning p (exit_queues p a L x))) s' → Q tt s') →
  wp (exit_locked p) Q s.
Proof.
  intros W [Hp D] Hf Hx Hst HQ. unfold exit_locked, acquire_pt. wp_step.
  eapply wf_acquire; [exact W|exact D|done|]. clear W. intros h s1 D1 Hl W. do 2 pstep. wp_step.
  eapply wakeup1_spec; [exact W|]. clear W. intros s2 W. wp_step.
  change (wake _ _) with ((exit_wake a L x) <| k_hw := h |>) in W.
  change (wake_queues _ _ _ _) with (exit_queues1 a L x) in W.
  eapply reparent_live_spec; [exact W|]. intros s3 W3. wp_step.
  eapply (zombie_loop_spec ((exit_wake a L x) <| k_hw := h |>)); [exact W3|]. clear W3. intros s4 W4.
  assert (W5 : wf None ((exit_state p a L x) <| k_hw := h |>) (exit_queues p a L x) s4).
  { simpl in W4. unfold exit_state, exit_queues, exit_zombies.
    unfold field_upd in *; simpl in *. rewrite (orphaned_all _ _ _ _ _ [] W) in W4.
    by destruct (found_in _ _). }
  clear W W4. rename W5 into W.
  assert (Hy : k_procs ((exit_state p a L x) <| k_hw := h |>) !! p = Some (adopt p (k_initproc a) x))
    by (by apply exit_state_lookup).
  pose proof (wf_prio _ _ _ _ _ _ W Hy) as Hpr.
  destruct (adopt_fields p (k_initproc a) x) as (Hs & _ & _). psteps.
  { unfold home. by rewrite Hs, Hst. }
  { by rewrite Hs. }
  eapply sched_spec; [exact W| |plook|done|].
  { split; psimpl; [|exact D1]. by rewrite (proj1 (proj2 (proj1 Hl))). }
  clear W. intros s5 W. apply (HQ h); [exact D1|exact Hl|]. pnorm W.
  assert (Ht : k_ticks (exit_state p a L x) = k_ticks a) by (unfold exit_state; by destruct (exit_zombies _ _ _ _)).
  rewrite Ht in W. exact W.
Qed.
End exitspecs.
