(* ===== verification/ProcFork.v ===== *)
(** * Specifications of userinit()'s list set-up, allocproc() and fork() (proc.c) *)

From S2P Require Import Prelude Mem Spinlock Str Proc ProcOps ProcLists ProcInv ProcSpec.

Section forkspecs.
Context {E : Type} `{!KEnv E}.
Implicit Types (a s : kstate E) (L : slist → list nat) (p q np : nat) (x y : proc).

(** ** The lists at boot *)

Definition boot_queues (n : nat) : slist → list nat := λ sl,
  match sl with SFree => reverse (seq 0 n) | _ => [] end.

Lemma elem_of_boot_queues n p sl : p ∈ boot_queues n sl ↔ sl = SFree ∧ (p < n)%nat.
Proof.
  destruct sl; simpl; rewrite ?elem_of_reverse, ?elem_of_seq, ?elem_of_nil; try naive_solver.
  split; [intros; split; [done|lia]|intros [_ ?]; lia].
Qed.

Definition all_unused a : Prop :=
  ∀ p x, k_procs a !! p = Some x → p_state x = UNUSED ∧ prio_ok x.

Lemma init_free_spec c n a s (Q : unit → kstate E → Prop) :
  rep a (boot_queues c) s → all_unused a → (c + n = NPROC)%nat →
  (∀ s', rep a (boot_queues NPROC) s' → Q tt s') → wp (init_free c n) Q s.
Proof.
  revert c s. induction n as [|n IH]; intros c s R Hu Hn HQ; simpl.
  { apply HQ. by replace NPROC with c by lia. }
  pose proof R as [Hr Hl].
  destruct (lookup_lt_is_Some_2 (k_procs a) c) as [x Hx]; [rewrite (rep_len _ _ _ R); lia|].
  destruct (relisted_lookup _ _ _ _ Hr Hx) as [m Hm]. destruct (Hu c x Hx) as [Hst _].
  wp_step. eapply wp_wr; [exact Hm|]. wp_step.
  assert (R1 : rep a (boot_queues c)
    (s <| k_procs := <[c := (x <| p_next := m |>) <| p_state := UNUSED |>]> (k_procs s) |>)).
  { rewrite <- (upd_same a c (λ x, x <| p_state := UNUSED |>) x) at 1; [|done|].
    - by eapply (rep_upd a _ s c (λ x, x <| p_state := UNUSED |>)).
    - rewrite <- Hst. by destruct x. }
  eapply insertHead_spec; [exact (proj2 R1)|done|lia| |].
  { intros sl. rewrite elem_of_boot_queues. lia. }
  intros s2 Hr2 Hl2. apply (IH (S c)); [|done|lia|done].
  split; [eapply relisted_trans; [exact (proj1 R1)|done]|].
  eapply lists_ok_queues; [exact Hl2|]. intros [| | | | |]; try done.
  unfold boot_queues, insert, fn_insert. rewrite decide_True by done. by rewrite seq_S, reverse_snoc.
Qed.

(** Taking and releasing a lock before the invariant holds. *)
Lemma rep_hwop {A} a L s (m : M hw A) (Q : A → kstate E → Prop) :
  rep a L s → wp m (λ v h, ∀ s', rep (a <| k_hw := h |>) L s' → Q v s') (k_hw a) →
  wp (hwop m) Q s.
Proof.
  intros R Hm. unfold hwop. apply wp_lift.
  assert (k_hw s = k_hw a) as -> by (by destruct R as [(ps & ls & -> & _) _]).
  eapply wp_mono; [exact Hm|]. intros v h HQ. apply HQ.
  by apply (rep_free a L s (λ s, s <| k_hw := h |>)).
Qed.

Lemma set_head_same s sl v (Q : unit → kstate E → Prop) :
  head_of sl (k_lists s) = Some v → Q tt s → wp (set_head sl v) Q s.
Proof.
  intros Hh HQ. eapply wp_set_head; [done|].
  replace (s <| k_lists ::= with_head sl v |>) with s; [done|].
  destruct s. unfold field_upd. simpl in *. by rewrite with_head_id.
Qed.

Lemma empty_heads s sl (Q : unit → kstate E → Prop) :
  lists_ok s (λ _, []) → valid sl → Q tt s → wp (set_head sl None) Q s.
Proof.
  intros Hl Hv HQ. destruct (lo_seg _ _ Hl sl Hv) as (h & Hh & Hs).
  rewrite Hs in Hh. by apply set_head_same.
Qed.

Lemma clear_ready_spec i n s (Q : option unit → kstate E → Prop) :
  lists_ok s (λ _, []) → (i + n ≤ S (Z.to_nat MAX))%nat → Q None s →
  wp (for_upto i n (λ i, set_head (SReady i) None;; mret None)) Q s.
Proof.
  revert i. induction n as [|n IH]; intros i Hl Hi HQ; simpl; [done|].
  do 2 wp_step. eapply empty_heads; [done|unfold valid; lia|]. wp_step. apply IH; [done|lia|done].
Qed.

(** userinit() on a zero-initialised ptable puts every slot on the free list. *)
Lemma init_lists_spec held e a s (Q : unit → kstate E → Prop) :
  rep a (λ _, []) s → all_unused a →
  disc (k_hw a) held e → lk_locked (h_locks (k_hw a) LPtable) = false →
  (∀ h s', disc h held e → lock_cycled (k_hw a) h →
     wf None (a <| k_promote := TICKS_TO_PROMOTE |> <| k_hw := h |>) (boot_queues NPROC) s' → Q tt s') →
  wp init_lists Q s.
Proof.
  intros R Hu D Hf HQ. unfold init_lists, acquire_pt, release_pt. wp_step.
  eapply rep_hwop; [exact R|]. eapply acquire_spec; [exact D|done|]. clear R.
  intros h D1 Hc1 Hl1 s1 R. do 2 wp_step.
  apply (rep_free _ _ _ (λ s, s <| k_promote := TICKS_TO_PROMOTE |>)) in R; [|done].
  do 5 (wp_step; eapply empty_heads; [exact (proj2 R)|done|]).
  wp_step. eapply clear_ready_spec; [exact (proj2 R)|done|].
  wp_step. eapply (init_free_spec 0 NPROC (a <| k_hw := h |> <| k_promote := TICKS_TO_PROMOTE |>));
    [|exact Hu|done|].
  { split; [exact (proj1 R)|]. eapply lists_ok_queues; [exact (proj2 R)|]. by intros [| | | | |]. }
  clear R. intros s2 R.
  assert (W : wf None (a <| k_hw := h |> <| k_promote := TICKS_TO_PROMOTE |>) (boot_queues NPROC) s2).
  { split; [exact R|]. intros p x Hx. destruct (Hu p x Hx) as [Hst Hpr]. split; [done|].
    unfold home. rewrite Hst. pose proof (rep_some _ _ _ _ _ R Hx) as Hlt. intros sl.
    rewrite elem_of_boot_queues. naive_solver. }
  eapply wf_release; [exact W|exact D1|]. intros h2 s3 D2 Hl2 W2.
  apply (HQ h2); [done|by eapply (locks_set_twice _ _ _ _ h); [split|]|exact W2].
Qed.

(** ** allocproc() *)

(** The new EMBRYO: kernel stack at [k], trap frame and context below its
    top, the context returning to forkret(). *)
Definition embryo (t pid k : Z) (x : proc) : proc :=
  x <| p_state := EMBRYO |> <| p_pid := u32 pid |> <| p_kstack := k |>
    <| p_tfptr := k + KSTACKSIZE - sizeof_trapframe |>
    <| p_ctxptr := k + KSTACKSIZE - sizeof_trapframe - 4 - sizeof_context |>
    <| p_context := RForkret |> <| p_start_ticks := t |> <| p_cpu_ticks_total := 0 |>
    <| p_cpu_ticks_in := 0 |> <| p_prio := 0 |> <| p_budget := BUDGET |>.

(** The slot after an allocation that ran out of memory. *)
Definition unallocated (pid : Z) (x : proc) : proc :=
  x <| p_pid := u32 pid |> <| p_kstack := 0 |> <| p_state := UNUSED |>.

(** Taking the head of the free list and putting it back. *)
Lemma back_to_free L p l :
  L SFree = p :: l → p ∉ L SEmbryo → ∀ sl,
  to_head SFree p (take_off SEmbryo p (to_head SEmbryo p (<[SFree := l]> L))) sl = L sl.
Proof.
  intros HL Hp sl. unfold to_head, take_off, insert, fn_insert.
  destruct sl; simpl; try done. by rewrite without_cons_eq.
Qed.

(** How allocproc() ends. *)
Definition alloc_act held e a L (r : option nat) (s : kstate E) : Prop :=
  ∃ h, disc h held e ∧ lock_cycled (k_hw a) h ∧
  match L SFree with
  | [] => r = None ∧ wf None (a <| k_hw := h |>) L s
  | p :: l => ∃ k env, e_kalloc (k_env a) = Done k env ∧
      if k =? 0 then
        r = None ∧
        wf None ((upd p (unallocated (k_nextpid a)) a) <| k_hw := h |> <| k_env := env |>
                   <| k_nextpid := s32 (k_nextpid a + 1) |>) L s
      else
        r = Some p ∧
        wf None ((upd p (embryo (k_ticks a) (k_nextpid a) k) a) <| k_hw := h |> <| k_env := env |>
                   <| k_nextpid := s32 (k_nextpid a + 1) |>)
          (to_head SEmbryo p (<[SFree := l]> L)) s
  end.

Lemma allocproc_spec held e a L s (Q : option nat → kstate E → Prop) :
  wf None a L s → disc (k_hw a) held e → lk_locked (h_locks (k_hw a) LPtable) = false →
  (L SFree ≠ [] → wp e_kalloc (λ _ _, True) (k_env a)) →
  (∀ r s', alloc_act held e a L r s' → Q r s') →
  wp allocproc Q s.
Proof.
  intros W D Hf Hk HQ. unfold allocproc. wp_step.
  eapply alloc_slot_spec; [exact W|exact D|done|]. intros h1 s1 D1 Hl1.
  unfold alloc_act in HQ. destruct (L SFree) as [|p l] eqn:HL.
  { intros W1. wp_step. apply HQ. by exists h1. }
  intros W1. specialize (Hk ltac:(done)). unfold wp in Hk.
  destruct (e_kalloc (k_env a)) as [k env| | | |] eqn:He; try done.
  assert (Hp : p ∈ L SFree) by (rewrite HL; set_solver).
  destruct (wf_member _ _ _ _ _ _ W Hp) as (x & Hx & Hh & _).
  pose proof (wf_prio _ _ _ _ _ _ W Hx) as Hpr.
  assert (Hpe : p ∉ L SEmbryo) by (rewrite (wf_in _ _ _ _ _ _ W Hx); congruence).
  clear W. wp_step. eapply wf_envop; [exact W1|]. unfold wp at 1. psimpl. rewrite He. clear W1.
  intros s2 W. psteps. destruct (k =? 0) eqn:Hk0.
  - wp_step. eapply free_embryo_spec; [exact W|exact D1| |plook|done|].
    { psimpl. by rewrite (proj2 Hl1), fn_lookup_insert. }
    clear W. intros h2 s3 D2 Hl2 W. wp_step. apply HQ. exists h2. split; [done|].
    split; [by eapply locks_set_twice|]. exists k, env. split; [done|]. rewrite Hk0. split; [done|].
    pnorm W. assert (k = 0) as -> by zlia.
    eapply wf_queues; [exact W|]. intros sl. symmetry. by apply back_to_free.
  - psteps. apply HQ. exists h1. split; [done|].
    split; [done|]. exists k, env. split; [done|]. rewrite Hk0. split; [done|]. pnorm W. exact W.
Qed.

(** ** fork() *)

(** The file table the child ends up with, and the filedup() calls made. *)
Fixpoint dup_ofile (i : nat) (fs o : list (option nat)) : list (option nat) :=
  match fs with
  | [] => o
  | f :: fs => dup_ofile (S i) fs (match f with Some f => <[i := Some f]> o | None => o end)
  end.
Fixpoint dup_env (fs : list (option nat)) : M E unit :=
  match fs with
  | [] => mret tt
  | Some f :: fs => e_filedup f;; dup_env fs
  | None :: fs => dup_env fs
  end.

Lemma dup_ofile_spec i fs o :
  (i + length fs ≤ length o)%nat →
  ∀ j, dup_ofile i fs o !! j =
    if decide (i ≤ j < i + length fs)%nat then
      match fs !! (j - i)%nat with Some (Some f) => Some (Some f) | _ => o !! j end
    else o !! j.
Proof.
  revert i o. induction fs as [|f fs IH]; intros i o Hlen j; simpl in *.
  { by rewrite decide_False by lia. }
  rewrite IH by (destruct f; rewrite ?length_insert; lia).
  destruct (decide (j = i)) as [->|Hne].
  - rewrite decide_False, decide_True by lia. rewrite Nat.sub_diag. simpl. destruct f as [f|]; [|done].
    apply list_lookup_insert_eq. lia.
  - replace (match f with Some f => <[i := Some f]> o | None => o end !! j) with (o !! j)
      by (destruct f; [by rewrite list_lookup_insert_ne by done|done]).
    destruct (decide (S i ≤ j < S i + length fs)%nat).
    + rewrite decide_True by lia. by replace (j - i)%nat with (S (j - S i)) by lia.
    + by rewrite decide_False by lia.
Qed.

(** A child with no open files gets exactly the parent's table. *)
Lemma dup_ofile_empty fs : dup_ofile 0 fs (replicate (length fs) None) = fs.
Proof.
  apply list_eq. intros j. rewrite dup_ofile_spec by (rewrite length_replicate; lia).
  rewrite Nat.sub_0_r. case_decide as Hj.
  - destruct (lookup_lt_is_Some_2 fs j) as [[f|] Hf]; [lia|by rewrite Hf|].
    rewrite Hf. apply lookup_replicate_2; lia.
  - rewrite (lookup_ge_None_2 fs) by lia. apply lookup_ge_None_2. rewrite length_replicate. lia.
Qed.

Lemma dup_files_spec np i fs env a L s y (Q : unit → kstate E → Prop) :
  wf None a L s → k_procs a !! np = Some y → dup_env fs (k_env a) = Done tt env →
  (∀ s', wf None ((upd np (λ y, y <| p_ofile ::= dup_ofile i fs |>) a) <| k_env := env |>) L s' → Q tt s') →
  wp (dup_files np i fs) Q s.
Proof.
  revert i a s y. induction fs as [|[f|] fs IH]; intros i a s y W Hy He HQ; simpl in *.
  - wp_step. apply HQ. injection He as <-. rewrite (upd_same a np _ y); [by destruct a|done|by destruct y].
  - pose proof (wf_prio _ _ _ _ _ _ W Hy) as Hpr. unfold mbind, M_bind in He.
    destruct (e_filedup f (k_env a)) as [[] env1| | | |] eqn:He1; try done.
    do 2 wp_step. eapply wf_envop; [exact W|]. unfold wp at 1. rewrite He1. clear W. intros s1 W. psteps.
    eapply IH; [exact W|plook|psimpl; exact He|]. clear W. intros s2 W. apply HQ. pnorm W. exact W.
  - do 2 wp_step. eapply IH; [exact W|done|done|]. exact HQ.
Qed.

(** The child of a successful fork(). *)
Definition child (p : nat) (x : proc) (d : Z) (cwd : nat) (nm : list Z) (y : proc) : proc :=
  y <| p_pgdir := d |> <| p_sz := p_sz x |> <| p_parent := Some p |>
    <| p_tf := p_tf x |> <| p_uid := p_uid x |> <| p_gid := p_gid x |>
    <| p_tf ::= λ t, t <| tf_eax := 0 |> |>
    <| p_ofile ::= dup_ofile 0 (p_ofile x) |> <| p_cwd := Some cwd |> <| p_name := nm |>
    <| p_state := RUNNABLE |>.

Lemma fork_spec e a L s p x np y l k d cwd nm env1 env2 env3 env4 (Q : Z → kstate E → Prop) :
  wf None a L s → on_cpu (k_hw a) p [] e → lk_locked (h_locks (k_hw a) LPtable) = false →
  k_procs a !! p = Some x → p_state x = RUNNING → L SFree = np :: l → k_procs a !! np = Some y →
  e_kalloc (k_env a) = Done k env1 → k ≠ 0 →
  e_copyuvm (p_pgdir x) (p_sz x) env1 = Done d env2 → d ≠ 0 →
  dup_env (p_ofile x) env2 = Done tt env3 → p_cwd x = Some cwd →
  e_idup cwd env3 = Done tt env4 → safestrcpy (p_name y) (p_name x) 16 = Some nm →
  (∀ h s', disc h [] e → lock_cycled (k_hw a) h →
     wf None ((upd np (λ y, child p x d cwd nm (embryo (k_ticks a) (k_nextpid a) k y)) a)
                <| k_hw := h |> <| k_env := env4 |> <| k_nextpid := s32 (k_nextpid a + 1) |>)
       (to_tail (SReady 0) np (<[SFree := l]> L)) s' → Q (s32 (u32 (k_nextpid a))) s') →
  wp fork Q s.
Proof.
  intros W [Hc D] Hf Hx Hst HL Hy Hk Hk0 Hd Hd0 Hfs Hcwd Hid Hnm HQ.
  assert (Hyf : home y = SFree).
  { symmetry. apply (wf_in _ _ _ _ _ _ W Hy). rewrite HL. set_solver. }
  assert (Hne : np ≠ p) by (intros ->; assert (x = y) as -> by congruence; unfold home in Hyf; by rewrite Hst in Hyf).
  assert (Hpr : prio_ok (embryo (k_ticks a) (k_nextpid a) k y)) by (unfold prio_ok, MAX; simpl; lia).
  assert (Hpe : np ∉ L SEmbryo) by (rewrite (wf_in _ _ _ _ _ _ W Hy); congruence).
  unfold fork. wp_step. eapply allocproc_spec; [exact W|exact D|done| |].
  { intros _. unfold wp. by rewrite Hk. }
  clear W. intros r s1 (h & D1 & Hl1 & Ha). rewrite HL in Ha. destruct Ha as (k' & env & Hk' & Ha).
  rewrite Hk in Hk'. injection Hk' as <- <-. rewrite (proj2 (Z.eqb_neq k 0)) in Ha by done.
  destruct Ha as [-> W]. psteps. rewrite (proj1 (proj2 (proj1 Hl1))), Hc. unfold deref. psteps.
  eapply wf_envop; [exact W|]. unfold wp at 1. psimpl. rewrite Hd. clear W. intros s2 W. psteps.
  rewrite (proj2 (Z.eqb_neq d 0)) by done. psteps.
  eapply (dup_files_spec _ _ _ env3); [exact W|plook|psimpl; exact Hfs|]. clear W. intros s3 W.
  psteps. rewrite Hcwd. simpl. psteps.
  eapply wf_envop; [exact W|]. unfold wp at 1. psimpl. rewrite Hid. clear W. intros s4 W.
  unfold copy_name. psteps. rewrite Hnm. psteps.
  eapply fork_publish_spec; [exact W|exact D1| |plook|done|done|].
  { psimpl. by rewrite (proj2 Hl1), fn_lookup_insert. }
  clear W. intros h5 s5 D5 Hl5 W. wp_step. simpl. apply (HQ h5); [done|by eapply locks_set_twice|].
  pnorm W. eapply wf_queues; [exact W|]. intros sl. unfold to_tail, take_off, to_head, insert, fn_insert.
  destruct sl as [[]| | | | |]; simpl; try done. by rewrite without_cons_eq.
Qed.

(** The slot after a fork() that ran out of memory for the page table. *)
Definition unforked (t pid k : Z) (y : proc) : proc :=
  (embryo t pid k y) <| p_pgdir := 0 |> <| p_kstack := 0 |> <| p_state := UNUSED |>.

Lemma fork_fail_spec e a L s p x np l k env1 env2 env3 (Q : Z → kstate E → Prop) :
  wf None a L s → on_cpu (k_hw a) p [] e → lk_locked (h_locks (k_hw a) LPtable) = false →
  k_procs a !! p = Some x → p_state x = RUNNING → L SFree = np :: l →
  e_kalloc (k_env a) = Done k env1 → k ≠ 0 →
  e_copyuvm (p_pgdir x) (p_sz x) env1 = Done 0 env2 → e_kfree k env2 = Done tt env3 →
  (∀ h s', disc h [] e → lock_cycled (k_hw a) h →
     wf None ((upd np (unforked (k_ticks a) (k_nextpid a) k) a)
                <| k_hw := h |> <| k_env := env3 |> <| k_nextpid := s32 (k_nextpid a + 1) |>) L s' →
     Q (-1) s') →
  wp fork Q s.
Proof.
  intros W [Hc D] Hf Hx Hst HL Hk Hk0 Hd Hkf HQ.
  assert (Hin : np ∈ L SFree) by (rewrite HL; set_solver).
  destruct (wf_member _ _ _ _ _ _ W Hin) as (y & Hy & Hyf & _).
  assert (Hne : np ≠ p) by (intros ->; assert (x = y) as -> by congruence; unfold home in Hyf; by rewrite Hst in Hyf).
  assert (Hpr : prio_ok (embryo (k_ticks a) (k_nextpid a) k y)) by (unfold prio_ok, MAX; simpl; lia).
  assert (Hpe : np ∉ L SEmbryo) by (rewrite (wf_in _ _ _ _ _ _ W Hy); congruence).
  unfold fork. wp_step. eapply allocproc_spec; [exact W|exact D|done| |].
  { intros _. unfold wp. by rewrite Hk. }
  clear W. intros r s1 (h & D1 & Hl1 & Ha). rewrite HL in Ha. destruct Ha as (k' & env & Hk' & Ha).
  rewrite Hk in Hk'. injection Hk' as <- <-. rewrite (proj2 (Z.eqb_neq k 0)) in Ha by done.
  destruct Ha as [-> W]. psteps. rewrite (proj1 (proj2 (proj1 Hl1))), Hc. unfold deref. psteps.
  eapply wf_envop; [exact W|]. unfold wp at 1. psimpl. rewrite Hd. clear W. intros s2 W. psteps.
  change (0 =? 0) with true. cbv beta match. psteps.
  eapply wf_envop; [exact W|]. unfold wp at 1. psimpl. rewrite Hkf. clear W. intros s3 W. psteps.
  eapply free_embryo_spec; [exact W|exact D1| |plook|done|].
  { psimpl. by rewrite (proj2 Hl1), fn_lookup_insert. }
  clear W. intros h5 s5 D5 Hl5 W. wp_step. apply (HQ h5); [done|by eapply locks_set_twice|].
  pnorm W. eapply wf_queues; [exact W|]. intros sl. symmetry. by apply back_to_free.
Qed.
End forkspecs.
