(* ===== verification/ProcBoot.v ===== *)
(** * Specifications of userinit(), and of switching back and resuming (proc.c)

    From the zero-initialised table userinit() creates the first process and
    leaves it alone in ready queue 0; every other slot is on the free list. *)

From S2P Require Import Prelude Mem Spinlock Str Proc ProcOps ProcLists ProcInv ProcSpec ProcScan ProcSched ProcExit ProcFork.

Section boot.
Context {E : Type} `{!KEnv E}.
Implicit Types (a s : kstate E) (L : slist → list nat) (p : nat) (x : proc).

(** The slot userinit() gets: the last one, since the free list is built by
    insertions at the head. *)
Definition init_slot : nat := 63.

Definition user1 (d : Z) (nm : list Z) (cwd : option nat) (x : proc) : proc :=
  x <| p_pgdir := d |> <| p_sz := PGSIZE |> <| p_tf := initcode_tf |> <| p_name := nm |>
    <| p_cwd := cwd |> <| p_uid := DEFAULTUID |> <| p_gid := DEFAULTGID |> <| p_state := RUNNABLE |>.

Definition user_queues : slist → list nat := λ sl,
  match sl with SFree => reverse (seq 0 63) | SReady O => [init_slot] | _ => [] end.

(** [ptable.pLists.ready[0] = p; p->next = 0;] is insertTail() on an empty queue. *)
Lemma link_only {A} a L s p x (m : M (kstate E) A) (Q : A → kstate E → Prop) :
  wf (Some p) a L s → k_procs a !! p = Some x → home x = SReady 0 → L (SReady 0) = [] →
  (∀ s', wf None a (<[SReady 0 := [p]]> L) s' → wp m Q s') →
  wp (set_head (SReady 0) (Some p)) (λ _ s1, wp (wr p (λ x, x <| p_next := None |>);; m) Q s1) s.
Proof.
  intros W Hx Hh HL HQ.
  assert (Hi : wp (insertTail (SReady 0) (Some p)) (λ _ s', wp m Q s') s).
  { eapply wf_insertTail; [exact W|exact Hx|exact Hh|]. intros s' W'. apply HQ. by rewrite HL in W'. }
  assert (Hg : get_head (SReady 0) s = Done None s).
  { destruct (lo_seg _ _ (proj2 (proj1 W)) (SReady 0)) as (h & Hh' & Hl); [simpl; lia|].
    rewrite HL in Hl. unfold get_head. rewrite Hh'. by rewrite Hl. }
  unfold insertTail in Hi. unfold wp in Hi. rewrite (bind_done _ _ _ _ _ Hg) in Hi.
  unfold mbind, M_bind in Hi. unfold wp, mbind, M_bind.
  destruct (set_head _ _ s) as [[] s1| | | |]; try done.
  by destruct (wr _ _ s1) as [[] s2| | | |].
Qed.

Lemma init_publish_spec held e a L s p x (Q : unit → kstate E → Prop) :
  wf None a L s → disc (k_hw a) held e → lk_locked (h_locks (k_hw a) LPtable) = false →
  k_procs a !! p = Some x → p_state x = EMBRYO → p_prio x = 0 → L (SReady 0) = [] →
  (∀ h s', disc h held e → lock_cycled (k_hw a) h →
     wf None ((upd p (λ x, x <| p_state := RUNNABLE |>) a) <| k_hw := h |>)
       (<[SReady 0 := [p]]> (take_off SEmbryo p L)) s' → Q tt s') →
  wp (init_publish p) Q s.
Proof.
  intros W D Hf Hx Hst Hp HL HQ. pose proof (wf_prio _ _ _ _ _ _ W Hx) as Hpr.
  unfold init_publish, acquire_pt, release_pt. wp_step. eapply wf_acquire; [exact W|exact D|done|].
  clear W. intros h s1 D1 Hl1 W. wp_step.
  eapply wf_remove; [exact W|exact Hx|unfold home; by rewrite Hst|]. clear W. intros s2 W.
  psteps. eapply link_only; [exact W|plook|unfold home; simpl; by rewrite Hp| |].
  { unfold insert, fn_insert. by rewrite decide_False. }
  clear W. intros s3 W. eapply wf_release; [exact W|exact D1|]. intros h4 s4 D4 Hl4 W4.
  apply (HQ h4); [done|by eapply locks_set_twice|]. pnorm W4. exact W4.
Qed.

Lemma userinit_spec held e a s x k d nm cwd env1 env2 env3 env4 (Q : unit → kstate E → Prop) :
  rep a (λ _, []) s → all_unused a →
  disc (k_hw a) held e → lk_locked (h_locks (k_hw a) LPtable) = false →
  k_procs a !! init_slot = Some x →
  e_kalloc (k_env a) = Done k env1 → k ≠ 0 → e_setupkvm env1 = Done d env2 → d ≠ 0 →
  e_inituvm d env2 = Done tt env3 → safestrcpy (p_name x) initcode_name 16 = Some nm →
  e_namei_root env3 = Done cwd env4 →
  (∀ h s', disc h held e → lock_cycled (k_hw a) h →
     wf None ((upd init_slot (λ x, user1 d nm cwd (embryo (k_ticks a) (k_nextpid a) k x)) a)
                <| k_promote := TICKS_TO_PROMOTE |> <| k_hw := h |> <| k_env := env4 |>
                <| k_nextpid := s32 (k_nextpid a + 1) |> <| k_initproc := Some init_slot |>)
       user_queues s' → Q tt s') →
  wp userinit Q s.
Proof.
  intros R Hu D Hf Hx Hk Hk0 Hd Hd0 Hi Hnm Hcwd HQ. unfold userinit. wp_step.
  eapply init_lists_spec; [exact R|exact Hu|exact D|done|]. intros h1 s1 D1 Hl1 W.
  assert (Hf1 : lk_locked (h_locks h1 LPtable) = false) by (by rewrite (proj2 Hl1), fn_lookup_insert).
  assert (Hpr : prio_ok (embryo (k_ticks a) (k_nextpid a) k x)) by (unfold prio_ok, MAX; simpl; lia).
  wp_step. eapply allocproc_spec; [exact W|exact D1|exact Hf1| |].
  { intros _. unfold wp. simpl. by rewrite Hk. }
  assert (∃ l, boot_queues NPROC SFree = init_slot :: l ∧ l = reverse (seq 0 63)) as (l & HL & Hl)
    by (by eexists).
  clear W. intros r s2 (h2 & D2 & Hl2 & Ha). rewrite HL in Ha. simpl in Ha.
  destruct Ha as (k' & env & Hk' & Ha).
  rewrite Hk in Hk'. injection Hk' as <- <-. rewrite (proj2 (Z.eqb_neq k 0)) in Ha by done.
  destruct Ha as [-> W]. psteps.
  eapply wf_envop; [exact W|]. unfold wp at 1. psimpl. rewrite Hd. clear W. intros s3 W. unfold deref. psteps;
    [zlia|].
  eapply wf_envop; [exact W|]. unfold wp at 1. psimpl. rewrite Hi. clear W. intros s4 W. psteps.
  rewrite Hnm. psteps.
  eapply wf_envop; [exact W|]. unfold wp at 1. psimpl. rewrite Hcwd. clear W. intros s5 W. psteps.
  eapply init_publish_spec; [exact W|exact D2| |plook|reflexivity|reflexivity|reflexivity|].
  { psimpl. by rewrite (proj2 Hl2), fn_lookup_insert. }
  clear W. intros h8 s8 D8 Hl8 W. apply (HQ h8); [done| |].
  { eapply locks_set_twice; [exact Hl1|]. by eapply locks_set_twice; [exact Hl2|]. }
  pnorm W. kgen W (upd init_slot (λ x, user1 d nm cwd (embryo (k_ticks a) (k_nextpid a) k x)) a).
  eapply wf_queues; [exact W|]. intros sl. subst l.
  unfold take_off, to_head, insert, fn_insert. by destruct sl as [[]| | | | |].
Qed.
End boot.

(** ** Specifications of switching back and resuming (proc.c) *)

Section resume.
Context {E : Type} `{!KEnv E}.
Implicit Types (a s : kstate E) (L : slist → list nat) (p q : nat) (x : proc).

(** ** scheduler() after the switch back *)

Lemma disc_cpu h held e f :
  disc h held e →
  (∀ c, c_id (f c) = c_id c ∧ c_ncli (f c) = c_ncli c ∧ c_intena (f c) = c_intena c ∧ c_if (f c) = c_if c) →
  disc (h <| h_cpu ::= f |>) held e.
Proof.
  intros [H1 H2 H3 H4 H5] Hf. destruct (Hf (h_cpu h)) as (F1 & F2 & F3 & F4).
  split; simpl; rewrite ?F1, ?F2, ?F3, ?F4; done.
Qed.

Definition idle_cpu (k : Z) (c : cpu) : cpu :=
  c <| c_cr3 := u32 (k - 2147483648) |> <| c_proc := None |>.

Lemma scheduler_back_spec kp o a L s held e (Q : unit → kstate E → Prop) :
  wf o a L s → disc (k_hw a) (LPtable :: held) e →
  (∀ h s', disc h held e →
     locks_set LPtable (mkLock false None) ((k_hw a) <| h_cpu ::= idle_cpu kp |>) h →
     wf o (a <| k_hw := h |>) L s' → Q tt s') →
  wp (scheduler_back kp) Q s.
Proof.
  intros W D HQ. unfold scheduler_back, release_pt. psteps.
  eapply wf_release; [exact W|apply (disc_cpu _ _ _ (idle_cpu kp) D); by intros []|].
  intros h s2 D2 Hl W2. by apply (HQ h).
Qed.

(** ** Resuming a process *)

Lemma disc_intena_set h held e e' :
  disc h held e → held ≠ [] → disc (h <| h_cpu ::= λ c, c <| c_intena := e' |> |>) held e'.
Proof. intros [H1 H2 H3 H4 H5] Hh. split; simpl; try done. rewrite H4. by destruct held. Qed.

(** What the resumed process changes in its own record. *)
Definition resumed (k : resume) (x : proc) : proc :=
  match k with RSleep _ _ | RWait _ => x <| p_chan := ChNull |> | _ => x end.
Definition resume_ie (k : resume) (e : bool) : bool :=
  match k with RForkret => e | RYield ie | RSleep _ ie | RWait ie | RExit ie => ie end.

(** How the resumed code reaches its release of ptable.lock. *)
Definition resume_act h e p k a L (r : ctl resume) (s : kstate E) : Prop :=
  match k with
  | RWait ie => ∃ r', r = (match r' with Ret _ => Ret k | Gone => Gone end) ∧
      wait_act h ie p (upd p (resumed k) a) L r' s
  | _ => r = Ret k ∧ ∃ h', disc h' [] (resume_ie k e) ∧ lock_cycled h h' ∧
      wf None ((upd p (resumed k) a) <| k_hw := h' |>) L s
  end.

Lemma lock_taken_intena h h1 ie :
  lock_taken h h1 → lock_taken h (h1 <| h_cpu ::= λ c, c <| c_intena := ie |> |>).
Proof. by intros [Hs Hk]. Qed.

Lemma resume_locked_spec h e p k x a L s (Q : ctl resume → kstate E → Prop) :
  wf None a L s → on_cpu (k_hw a) p [LPtable] e → lock_taken h (k_hw a) →
  k_procs a !! p = Some x → p_state x = RUNNING → p_context x = k →
  match k with RExit _ => False | RSleep lk _ => lk ≠ Some LPtable | RWait _ => zombies_freeable a | _ => True end →
  (∀ r s', resume_act h e p k a L r s' → Q r s') →
  wp (resume_locked p) Q s.
Proof.
  intros W [Hc D] Hl Hx Hst Hk Hok HQ. pose proof (wf_prio _ _ _ _ _ _ W Hx) as Hpr.
  unfold resume_locked, release_pt. pstep. pstep. rewrite Hk.
  assert (Hid : upd p (λ x, x) a = a) by (by eapply upd_same).
  destruct k as [|ie|lk ie|ie|ie]; [| | | |done]; unfold resume_act, resumed in HQ;
    unfold sched_return, sleep_tail.
  - psteps. eapply wf_release; [exact W|exact D|]. intros h2 s2 D2 Hl2 W2. wp_step. apply HQ.
    split; [done|]. exists h2. split; [done|]. split; [by eapply locks_set_twice|].
    by rewrite Hid.
  - psteps. eapply wf_release; [exact W|by apply (disc_intena_set _ _ e)|]. intros h2 s2 D2 Hl2 W2. wp_step.
    apply HQ. split; [done|]. exists h2. split; [done|].
    split; [by eapply locks_set_twice; [apply (lock_taken_intena h (k_hw a) ie)|]|]. by rewrite Hid.
  - psteps. rewrite Hc. unfold deref. psteps. rewrite decide_False by done.
    eapply wf_release; [exact W|by apply (disc_intena_set _ _ e)|]. intros h2 s2 D2 Hl2 W2. wp_step.
    apply HQ. split; [done|]. exists h2. split; [done|].
    split; [by eapply locks_set_twice; [apply (lock_taken_intena h (k_hw a) ie)|]|]. exact W2.
  - psteps. rewrite Hc. unfold deref. psteps.
    eapply (wait_iter_spec h ie); [exact W| | |plook|done| |].
    { split; [done|]. by apply (disc_intena_set _ _ e). }
    { by apply lock_taken_intena. }
    { intros q y Hy Hz. destruct (lookup_upd_inv _ _ _ _ _ Hy) as (y' & Hy' & ->).
      case_decide; [subst q|by apply (Hok q y')]. simpl in *. congruence. }
    intros r s2 Ha. wp_step. apply HQ. exists r. split; [done|]. rewrite upd_unfold in Ha |- *.
    eapply (wait_act_hw _ _ _ (a <| k_procs ::= _ |>)). exact Ha.
Qed.
End resume.
