(* ===== verification/Machine.v ===== *)
(** * All CPUs together (proc.c)

    A machine is the shared kernel state with the CPUs. Its steps are the
    critical sections of proc.c, run by any CPU in any order: every section
    that ptable.lock protects is one step, because the lock is held across
    swtch(). Between them a process may change its own record and the record
    of the child it is creating, take and release other locks, and call the
    other components. What each section does to the memory of the processes,
    their kernel stacks and page directories, is kept track of at the end. *)

From S2P Require Import Prelude Mem Spinlock Str Proc ProcOps ProcLists ProcInv ProcSpec ProcScan ProcSched ProcExit ProcFork ProcBoot.

Section machine.
Context {E : Type} `{!KEnv E}.
Context (kpgdir : Z).
Implicit Types (a b s : kstate E) (L : slist → list nat) (p q np : nat) (x y : proc).

(** ** States *)

(** [m_pend i]: what the process CPU [i] has just switched to still has to
    do after its release of ptable.lock. [m_own p]: the child that [p] has
    allocated and not yet published. *)
Record mach : Type := mkMach {
  m_k : kstate E;
  m_cpus : list cpu;
  m_pend : gmap nat resume;
  m_own : gmap nat nat;
}.

Definition locks (m : mach) : lockid → spinlock := h_locks (k_hw (m_k m)).

(** The state as CPU [c] sees it. *)
Definition enter (m : mach) (c : cpu) : kstate E := (m_k m) <| k_hw := mkHw c (locks m) |>.

Definition back (m : mach) (i : nat) (s : kstate E) (pend : gmap nat resume) (own : gmap nat nat) : mach :=
  mkMach s (<[i := h_cpu (k_hw s)]> (m_cpus m)) pend own.

(** ** Invariant *)

Definition st s p : option procstate := p_state <$> k_procs s !! p.

Definition resumable (k : resume) : Prop :=
  match k with RExit _ => False | RSleep lk _ => lk ≠ Some LPtable | _ => True end.

(** A process that can run has a page table, and one that waits to run has
    a context to go on with. *)
Definition good (x : proc) : Prop :=
  match p_state x with
  | RUNNING => p_pgdir x ≠ 0
  | RUNNABLE | SLEEPING => p_pgdir x ≠ 0 ∧ resumable (p_context x)
  | _ => True
  end.

Record minv (m : mach) (L : slist → list nat) : Prop := {
  mi_wf : wf None (m_k m) L (m_k m);
  mi_lock : lk_locked (locks m LPtable) = false;
  mi_cpu : ∀ i c, m_cpus m !! i = Some c → c_id c = i ∧
    ∃ held e, disc (mkHw c (locks m)) held e;
  mi_running : ∀ i c p, m_cpus m !! i = Some c → c_proc c = Some p → st (m_k m) p = Some RUNNING;
  mi_unique : ∀ i j c c' p, m_cpus m !! i = Some c → m_cpus m !! j = Some c' →
    c_proc c = Some p → c_proc c' = Some p → i = j;
  mi_current : ∀ p, st (m_k m) p = Some RUNNING → ∃ i c, m_cpus m !! i = Some c ∧ c_proc c = Some p;
  mi_good : ∀ p x, k_procs (m_k m) !! p = Some x → good x;
  mi_embryo : ∀ np, st (m_k m) np = Some EMBRYO ↔ ∃ p, m_own m !! p = Some np;
  mi_own : ∀ p q np, m_own m !! p = Some np → m_own m !! q = Some np → p = q;
}.

(** ** One CPU's step seen from the others *)

Lemma wf_self o a L s : wf o a L s → wf o s L s.
Proof.
  intros [[Hr Hl] Hh]. split; [by apply rep_self|]. intros p y Hy.
  destruct (relisted_lookup_inv _ _ _ _ Hr Hy) as (x & Hx & ->). apply (Hh p x Hx).
Qed.

Lemma wf_st o a L s p : wf o a L s → st s p = st a p.
Proof.
  intros [[Hr _] _]. unfold st. destruct (k_procs s !! p) as [y|] eqn:Hy.
  - destruct (relisted_lookup_inv _ _ _ _ Hr Hy) as (x & Hx & ->). by rewrite Hx.
  - destruct (k_procs a !! p) as [x|] eqn:Hx; [|done].
    destruct (relisted_lookup _ _ _ _ Hr Hx) as [n Hn]. congruence.
Qed.

Lemma wf_good o a L s :
  wf o a L s → (∀ p x, k_procs a !! p = Some x → good x) → ∀ p x, k_procs s !! p = Some x → good x.
Proof.
  intros [[Hr _] _] Hg p y Hy. destruct (relisted_lookup_inv _ _ _ _ Hr Hy) as (x & Hx & ->).
  apply (Hg p x Hx).
Qed.

Definition owned (K : lockid → spinlock) (l : lockid) (i : nat) : Prop :=
  lk_locked (K l) = true ∧ lk_cpu (K l) = Some i.

Lemma disc_other c K K' held e :
  disc (mkHw c K) held e → (∀ l, owned K' l (c_id c) ↔ owned K l (c_id c)) → disc (mkHw c K') held e.
Proof.
  intros [H1 H2 H3 H4 H5] Ho. split; try done. intros l. rewrite H3. symmetry. apply Ho.
Qed.

(** The state [(a, L')] reached by a step of CPU [i], which ran [c] before
    and has set its own data in [s]. *)
Lemma minv_step m L i c a L' s pend own :
  minv m L → m_cpus m !! i = Some c → wf None a L' s → k_hw s = k_hw a →
  lk_locked (h_locks (k_hw a) LPtable) = false →
  c_id (h_cpu (k_hw a)) = i →
  (∃ held e, disc (k_hw a) held e) →
  (∀ l j, j ≠ i → owned (h_locks (k_hw a)) l j ↔ owned (locks m) l j) →
  (∀ p x, k_procs a !! p = Some x → good x) →
  (∀ p, st a p = Some RUNNING ↔
     (st (m_k m) p = Some RUNNING ∧ c_proc c ≠ Some p) ∨ c_proc (h_cpu (k_hw a)) = Some p) →
  (∀ p, c_proc (h_cpu (k_hw a)) = Some p → st (m_k m) p = Some RUNNING → c_proc c = Some p) →
  (∀ np, st a np = Some EMBRYO ↔ ∃ p, own !! p = Some np) →
  (∀ p q np, own !! p = Some np → own !! q = Some np → p = q) →
  minv (back m i s pend own) L'.
Proof.
  intros Hm Hc W Hhw Hlk Hid (held & e & D) Hown Hgood Hrun Huniq Hemb Hinj.
  assert (Hi : (i < length (m_cpus m))%nat) by (by eapply lookup_lt_Some).
  assert (Hback : ∀ j c', <[i := h_cpu (k_hw s)]> (m_cpus m) !! j = Some c' →
    (j = i ∧ c' = h_cpu (k_hw a)) ∨ (j ≠ i ∧ m_cpus m !! j = Some c')).
  { intros j c'. destruct (decide (j = i)) as [->|].
    - rewrite list_lookup_insert_eq by done. rewrite Hhw. naive_solver.
    - rewrite list_lookup_insert_ne by done. naive_solver. }
  assert (Hoth : ∀ j c' p, j ≠ i → m_cpus m !! j = Some c' → c_proc c' = Some p → c_proc c ≠ Some p).
  { intros j c' p Hj Hc' Hp Hcp. apply Hj. by eapply (mi_unique _ _ Hm). }
  split; simpl.
  - by eapply wf_self.
  - unfold locks. simpl. by rewrite Hhw.
  - intros j c' [[-> ->]|[Hj Hc']]%Hback.
    + split; [done|]. exists held, e. unfold locks. simpl. rewrite Hhw.
      by destruct (k_hw a).
    + destruct (mi_cpu _ _ Hm _ _ Hc') as (Hidj & heldj & ej & Dj).
      split; [done|]. exists heldj, ej. eapply disc_other; [exact Dj|].
      intros l. unfold locks at 1. simpl. rewrite Hhw, Hidj. by apply Hown.
  - intros j c' p Hc' Hp. rewrite (wf_st _ _ _ _ _ W). apply Hrun.
    apply Hback in Hc' as [[-> ->]|[Hj Hc']]; [by right|left].
    split; [by eapply (mi_running _ _ Hm)|by eapply Hoth].
  - intros j1 j2 c1 c2 p Hc1 Hc2 Hp1 Hp2.
    apply Hback in Hc1 as [[-> ->]|[Hj1 Hc1]]; apply Hback in Hc2 as [[-> ->]|[Hj2 Hc2]]; try done.
    + exfalso. eapply (Hoth _ _ _ Hj2 Hc2 Hp2). apply Huniq; [done|]. by eapply (mi_running _ _ Hm).
    + exfalso. eapply (Hoth _ _ _ Hj1 Hc1 Hp1). apply Huniq; [done|]. by eapply (mi_running _ _ Hm).
    + by eapply (mi_unique _ _ Hm).
  - intros p. rewrite (wf_st _ _ _ _ _ W). intros [[Hr Hcp]|Hp]%Hrun.
    + destruct (mi_current _ _ Hm _ Hr) as (j & c' & Hc' & Hp). exists j, c'. split; [|done].
      rewrite list_lookup_insert_ne; [done|]. intros <-. congruence.
    + exists i, (h_cpu (k_hw s)). rewrite list_lookup_insert_eq by done. by rewrite Hhw.
  - by eapply wf_good.
  - intros np. rewrite (wf_st _ _ _ _ _ W). apply Hemb.
  - done.
Qed.

(** ** Steps that leave the current processes alone *)

(** A process stays in its state, is woken, or is a zombie that is reaped. *)
Definition quiet1 x y : Prop :=
  (p_state y = p_state x ∨ (p_state x = SLEEPING ∧ p_state y = RUNNABLE) ∨
   (p_state x = ZOMBIE ∧ p_state y = UNUSED)) ∧ (good x → good y).

Lemma quiet1_same x y :
  p_state y = p_state x ∨ (p_state x = SLEEPING ∧ p_state y = RUNNABLE) ∨
    (p_state x = ZOMBIE ∧ p_state y = UNUSED) →
  p_context y = p_context x → p_pgdir y = p_pgdir x → quiet1 x y.
Proof.
  intros Hs Hc Hd. split; [done|]. unfold good. rewrite Hc, Hd.
  destruct Hs as [->|[[-> ->]|[_ ->]]]; naive_solver.
Qed.

(** All processes but [o] are quiet. *)
Definition quiet_but (o : option nat) a b : Prop := ∀ q y, o ≠ Some q → k_procs b !! q = Some y →
  ∃ x, k_procs a !! q = Some x ∧ quiet1 x y.
Definition quiet : kstate E → kstate E → Prop := quiet_but None.

Definition covers a b : Prop := ∀ q, is_Some (k_procs a !! q) → is_Some (k_procs b !! q).

Lemma quiet1_trans x y z : quiet1 x y → quiet1 y z → quiet1 x z.
Proof. unfold quiet1. naive_solver congruence. Qed.

Lemma quiet_but_st o a b q v : quiet_but o a b → covers a b → o ≠ Some q → v = RUNNING ∨ v = EMBRYO →
  st b q = Some v ↔ st a q = Some v.
Proof.
  intros Hq Hc Ho Hv. unfold st. destruct (k_procs b !! q) as [y|] eqn:Hy.
  - destruct (Hq q y Ho Hy) as (x & -> & Hs & _). simpl.
    destruct Hs as [->|[[-> ->]|[-> ->]]]; naive_solver.
  - destruct (k_procs a !! q) as [x|] eqn:Hx; [|naive_solver].
    destruct (Hc q) as [y Hy']; [by rewrite Hx|]. congruence.
Qed.

Lemma quiet_but_trans o a1 a2 a3 : quiet_but o a1 a2 → quiet_but o a2 a3 → quiet_but o a1 a3.
Proof.
  intros H1 H2 q z Ho Hz. destruct (H2 q z Ho Hz) as (y & Hy & Hyz).
  destruct (H1 q y Ho Hy) as (x & Hx & Hxy). exists x. split; [done|]. by eapply quiet1_trans.
Qed.

Lemma quiet_weaken o a b : quiet a b → quiet_but o a b.
Proof. intros H q y _ Hy. by apply H. Qed.

Lemma quiet1_refl x : quiet1 x x.
Proof. unfold quiet1. naive_solver. Qed.

Lemma quiet_refl a b : k_procs b = k_procs a → quiet a b.
Proof. intros Hb q y _ Hy. rewrite Hb in Hy. exists y. split; [done|]. apply quiet1_refl. Qed.

Lemma quiet_upd a p f : (∀ x, k_procs a !! p = Some x → quiet1 x (f x)) → quiet a (upd p f a).
Proof.
  intros Hf q y _ Hy. destruct (lookup_upd_inv _ _ _ _ _ Hy) as (x & Hx & ->). exists x.
  split; [done|]. case_decide; [subst q; by apply Hf|apply quiet1_refl].
Qed.

Lemma quiet_but_upd a p f : quiet_but (Some p) a (upd p f a).
Proof.
  intros q y Ho Hy. destruct (lookup_upd_inv _ _ _ _ _ Hy) as (x & Hx & ->). exists x.
  split; [done|]. rewrite decide_False by congruence. apply quiet1_refl.
Qed.

Lemma quiet_wake ch a : quiet a (wake ch a).
Proof.
  intros q y _. unfold wake. simpl. rewrite list_lookup_fmap. intros (x & Hx & ->)%fmap_Some.
  exists x. split; [done|]. apply quiet1_same; unfold woken; case_decide; naive_solver.
Qed.

Lemma covers_wake ch a : covers a (wake ch a).
Proof. intros q [x Hx]. unfold wake. simpl. rewrite list_lookup_fmap, Hx. by eexists. Qed.

Lemma covers_upd p f a : covers a (upd p f a).
Proof.
  intros q [x Hx]. destruct (decide (p = q)) as [->|]; eexists; [by apply lookup_upd|by apply lookup_upd_ne].
Qed.

Lemma owned_cycled h h' i l j :
  lock_cycled h h' → lk_locked (h_locks h LPtable) = false → j ≠ i →
  owned (h_locks h') l j ↔ owned (h_locks h) l j.
Proof.
  intros [_ Hk] Hf Hj. unfold owned. rewrite Hk. unfold insert, fn_insert. case_decide; [subst l|done].
  simpl. rewrite Hf. naive_solver.
Qed.

(** CPU [i] may switch to or from process [p]; all others are quiet. *)
Lemma minv_change m L i c o b L' s h held e pend :
  minv m L → m_cpus m !! i = Some c → wf None (b <| k_hw := h |>) L' s →
  disc h held e → c_id (h_cpu h) = i →
  lk_locked (h_locks h LPtable) = false →
  (∀ l j, j ≠ i → owned (h_locks h) l j ↔ owned (locks m) l j) →
  quiet_but o (m_k m) b → covers (m_k m) b →
  (o = None → c_proc (h_cpu h) = c_proc c) →
  (∀ p, o = Some p → (c_proc c = None ∨ c_proc c = Some p) ∧
     (c_proc (h_cpu h) = None ∨ c_proc (h_cpu h) = Some p) ∧
     (c_proc c = None → st (m_k m) p ≠ Some RUNNING) ∧ st (m_k m) p ≠ Some EMBRYO ∧
     ∃ y, k_procs b !! p = Some y ∧ good y ∧ p_state y ≠ EMBRYO ∧
       (p_state y = RUNNING ↔ c_proc (h_cpu h) = Some p)) →
  minv (back m i s pend (m_own m)) L'.
Proof.
  intros Hm Hc W D Hid Hlk Hown Hq Hcv Hn Ho.
  assert (Hst : ∀ q v, o ≠ Some q → v = RUNNING ∨ v = EMBRYO → st b q = Some v ↔ st (m_k m) q = Some v).
  { intros q v. by apply quiet_but_st. }
  eapply minv_step; [done|exact Hc|exact W|by eapply wf_hw|done|done|by eexists _, _|done| | | | |
    apply (mi_own _ _ Hm)]; simpl.
  - intros q y Hy. destruct (decide (o = Some q)) as [->|Hoq].
    + destruct (Ho q) as (_ & _ & _ & _ & y' & Hy' & Hg & _); [done|]. by assert (y' = y) as <- by congruence.
    + destruct (Hq q y Hoq Hy) as (x & Hx & Hxy). apply (proj2 Hxy). by eapply (mi_good _ _ Hm).
  - intros q. change (st (b <| k_hw := h |>) q) with (st b q). destruct (decide (o = Some q)) as [->|Hoq].
    + destruct (Ho q) as (Hc1 & Hc2 & Hr & _ & y & Hy & _ & _ & Hrun); [done|].
      unfold st at 1. rewrite Hy. simpl. rewrite (inj_iff Some). rewrite Hrun. naive_solver.
    + rewrite Hst by auto. destruct o as [p|].
      * destruct (Ho p) as (Hc1 & Hc2 & _); [done|]. naive_solver.
      * rewrite (Hn eq_refl). split; [|intros [[? _]|Hp]; [done|by eapply (mi_running _ _ Hm)]].
        intros Hp. destruct (decide (c_proc c = Some q)); [by right|by left].
  - intros q Hp Hr. destruct o as [p|]; [|by rewrite <- (Hn eq_refl)].
    destruct (Ho p) as (Hc1 & Hc2 & Hcr & _); [done|]. assert (p = q) as -> by naive_solver. naive_solver.
  - intros np. change (st (b <| k_hw := h |>) np) with (st b np). rewrite <- (mi_embryo _ _ Hm).
    destruct (decide (o = Some np)) as [->|Hoq]; [|by apply Hst; auto].
    destruct (Ho np) as (_ & _ & _ & He & y & Hy & _ & Hne & _); [done|].
    split; [|done]. unfold st at 1. rewrite Hy. simpl. naive_solver.
Qed.

Lemma minv_quiet m L i c b L' s h held e pend :
  minv m L → m_cpus m !! i = Some c → wf None (b <| k_hw := h |>) L' s →
  disc h held e → lock_cycled (mkHw c (locks m)) h → quiet (m_k m) b → covers (m_k m) b →
  minv (back m i s pend (m_own m)) L'.
Proof.
  intros Hm Hc W D Hl Hq Hcv. pose proof (mi_cpu _ _ Hm _ _ Hc) as [Hid _].
  pose proof Hl as [(Hs1 & Hs2 & _) Hk]. simpl in Hs1, Hs2.
  eapply (minv_change _ _ _ _ None); try done.
  - congruence.
  - by rewrite Hk, fn_lookup_insert.
  - intros l j Hj. by eapply (owned_cycled (mkHw c (locks m))); [exact Hl|apply (mi_lock _ _ Hm)|].
Qed.

(** The owner [p] allocates, gives up or publishes the child [np]. *)
Lemma minv_own m L i c p np f L' s h held e pend own b y :
  minv m L → m_cpus m !! i = Some c → wf None (b <| k_hw := h |>) L' s →
  disc h held e → lock_cycled (mkHw c (locks m)) h →
  k_procs b = k_procs (upd np f (m_k m)) → k_procs (m_k m) !! np = Some y →
  p_state y ≠ RUNNING → p_state (f y) ≠ RUNNING → good (f y) →
  (p_state (f y) = EMBRYO → own = <[p := np]> (m_own m) ∧ p_state y ≠ EMBRYO ∧ m_own m !! p = None) →
  (p_state (f y) ≠ EMBRYO → own = delete p (m_own m) ∧ m_own m !! p = Some np) →
  minv (back m i s pend own) L'.
Proof.
  intros Hm Hc W D Hl Hb Hy Hr Hr' Hg He Hne. pose proof (mi_cpu _ _ Hm _ _ Hc) as [Hid _].
  pose proof Hl as [(Hs1 & Hs2 & _) Hk]. simpl in Hs1, Hs2.
  assert (Hst : ∀ q, st b q = if decide (np = q) then Some (p_state (f y)) else st (m_k m) q).
  { intros q. unfold st. rewrite Hb, upd_unfold. simpl. rewrite list_lookup_alter.
    case_decide; [subst q; by rewrite Hy|done]. }
  assert (Hnr : st (m_k m) np ≠ Some RUNNING) by (unfold st; rewrite Hy; simpl; congruence).
  eapply minv_step; [done|exact Hc|exact W|by eapply wf_hw| | |by eexists _, _| | | | | |]; simpl.
  - by rewrite Hk, fn_lookup_insert.
  - congruence.
  - intros l j Hj. by eapply (owned_cycled (mkHw c (locks m))); [exact Hl|apply (mi_lock _ _ Hm)|].
  - intros q x Hx. rewrite Hb in Hx. destruct (lookup_upd_inv _ _ _ _ _ Hx) as (x' & Hx' & ->).
    case_decide; [subst q; by assert (x' = y) as -> by congruence|by eapply (mi_good _ _ Hm)].
  - intros q. change (st (b <| k_hw := h |>) q) with (st b q). rewrite Hst, Hs2.
    assert (Hcn : c_proc c = Some q → st (m_k m) q = Some RUNNING) by (intros; by eapply (mi_running _ _ Hm)).
    case_decide; [subst q; naive_solver congruence|].
    destruct (decide (c_proc c = Some q)); naive_solver.
  - intros q Hp _. congruence.
  - intros q. change (st (b <| k_hw := h |>) q) with (st b q). rewrite Hst.
    destruct (decide (p_state (f y) = EMBRYO)) as [Hs|Hs].
    + destruct (He Hs) as (-> & Hye & Hpn). case_decide as Hd; [subst q|].
      * split; [|by rewrite Hs]. intros _. exists p. apply lookup_insert_eq.
      * rewrite (mi_embryo _ _ Hm). split.
        -- intros [p' Hp']. exists p'. rewrite lookup_insert_ne by congruence. done.
        -- intros [p' Hp']. apply lookup_insert_Some in Hp' as [[-> ->]|[_ ?]]; [done|by exists p'].
    + destruct (Hne Hs) as (-> & Hpn). case_decide as Hd; [subst q|].
      * split; [naive_solver|]. intros [p' Hp']. apply lookup_delete_Some in Hp' as [Hpp Hp'].
        exfalso. apply Hpp. by eapply (mi_own _ _ Hm).
      * rewrite (mi_embryo _ _ Hm). split.
        -- intros [p' Hp']. exists p'. apply lookup_delete_Some. split; [congruence|done].
        -- intros [p' Hp']. apply lookup_delete_Some in Hp' as [_ ?]. by exists p'.
  - destruct (decide (p_state (f y) = EMBRYO)) as [Hs|Hs].
    + destruct (He Hs) as (-> & Hye & Hpn).
      assert (∀ p', m_own m !! p' ≠ Some np) as Hnn.
      { intros p' Hp'. apply Hye. assert (Hs' : st (m_k m) np = Some EMBRYO) by (apply (mi_embryo _ _ Hm); eauto).
        unfold st in Hs'. rewrite Hy in Hs'. simpl in Hs'. congruence. }
      intros p1 p2 q Hp1 Hp2. apply lookup_insert_Some in Hp1, Hp2.
      destruct Hp1 as [[-> ->]|[? Hp1]], Hp2 as [[-> Hq]|[? Hp2]]; try done.
      * by apply Hnn in Hp2.
      * subst q. by apply Hnn in Hp1.
      * by eapply (mi_own _ _ Hm).
    + destruct (Hne Hs) as (-> & Hpn). intros p1 p2 q Hp1 Hp2.
      apply lookup_delete_Some in Hp1 as [_ Hp1], Hp2 as [_ Hp2]. by eapply (mi_own _ _ Hm).
Qed.
(** ** The memory of the processes *)

(** The kernel stack and the page directory of a process that has them: from
    the moment fork() publishes it until wait() has freed them. *)
Definition mem_of x : option (Z * Z) :=
  match p_state x with UNUSED | EMBRYO => None | _ => Some (p_kstack x, p_pgdir x) end.
Definition mem_at s q : option (Z * Z) := k_procs s !! q ≫= mem_of.
Definition memories s : list (Z * Z) := omap (mem_at s) (seq 0 NPROC).

Definition mem_same a s : Prop := k_env s = k_env a ∧ ∀ q, mem_at s q = mem_at a q.

(** A section leaves the memory of all processes alone, or frees that of one. *)
Definition mem_trans a s : Prop :=
  mem_same a s ∨ ∃ q kd, mem_at a q = Some kd ∧ (q < NPROC)%nat ∧ free_mem kd (k_env a) (.= k_env s) ∧
    ∀ q', mem_at s q' = if decide (q' = q) then None else mem_at a q'.

Lemma mem_same_refl a b : k_procs b = k_procs a → k_env b = k_env a → mem_same a b.
Proof. intros Hp He. split; [done|]. intros q. unfold mem_at. by rewrite Hp. Qed.

Lemma mem_same_trans a b s : mem_same a b → mem_same b s → mem_same a s.
Proof. intros [H1 H2] [H3 H4]. split; [congruence|]. intros q. by rewrite H4. Qed.

Lemma mem_trans_same a b s : mem_same a b → mem_trans b s → mem_trans a s.
Proof.
  intros H [H1|(q & kd & Hq & Hn & Hf & Hs)]; [left; by eapply mem_same_trans|]. destruct H as [He Hm]. right. exists q, kd.
  rewrite <- He. split; [by rewrite <- Hm|]. split_and!; [done..|]. intros q'. rewrite Hs. by rewrite Hm.
Qed.

Lemma mem_trans_wf o a b L s : wf o b L s → mem_trans a b → mem_trans a s.
Proof.
  intros W H. assert (Hs : mem_same b s).
  { destruct W as [[Hr _] _]. split; [by destruct Hr as (ps & ls & -> & _)|]. intros q. unfold mem_at. destruct (k_procs s !! q) as [y|] eqn:Hy.
    - by destruct (relisted_lookup_inv _ _ _ _ Hr Hy) as (x & -> & ->).
    - destruct (k_procs b !! q) as [x|] eqn:Hx; [|done]. destruct (relisted_lookup _ _ _ _ Hr Hx). congruence. }
  destruct Hs as [He Hm]. destruct H as [[H1 H2]|(q & kd & Hq & Hn & Hf & Hk)]; [left; split; [congruence|]; intros q; by rewrite Hm|].
  right. exists q, kd. rewrite He. split_and!; [done..|]. intros q'. by rewrite Hm.
Qed.

Lemma mem_upd p f a x : k_procs a !! p = Some x → mem_of (f x) = mem_of x → mem_same a (upd p f a).
Proof.
  intros Hx Hf. split; [done|]. intros q. unfold mem_at. destruct (decide (p = q)) as [<-|Hne].
  - rewrite (lookup_upd _ _ _ _ Hx), Hx. exact Hf.
  - rewrite upd_unfold. simpl. by rewrite list_lookup_alter_ne.
Qed.

(** All processes change, but not their memory. *)
Lemma mem_all a b : k_env b = k_env a → covers a b →
  (∀ q y, k_procs b !! q = Some y → ∃ x, k_procs a !! q = Some x ∧ mem_of y = mem_of x) → mem_same a b.
Proof.
  intros He Hc Hm. split; [done|]. intros q. unfold mem_at. destruct (k_procs b !! q) as [y|] eqn:Hy.
  - destruct (Hm q y Hy) as (x & -> & H). exact H.
  - destruct (k_procs a !! q) as [x|] eqn:Hx; [|done]. destruct (Hc q) as [y Hy']; [by rewrite Hx|]. congruence.
Qed.

Lemma mem_wake ch a : mem_same a (wake ch a).
Proof.
  apply mem_all; [done|apply covers_wake|]. intros q y. unfold wake. simpl. rewrite list_lookup_fmap. intros (x & Hx & ->)%fmap_Some.
  exists x. split; [done|]. unfold woken. case_decide as Hd; [|done]. unfold mem_of. simpl. by rewrite (proj1 Hd).
Qed.
End machine.

(** ** What the memory of the kernel promises

    [mem_ok env l]: the kernel stacks and page directories of [l] are allocated
    and share no page. Freeing one of them then succeeds and keeps the others. *)
Class KMem (E : Type) `{!KEnv E} : Type := {
  mem_ok : E → list (Z * Z) → Prop;
  mem_ok_perm env l l' : l ≡ₚ l' → mem_ok env l → mem_ok env l';
  mem_ok_free env kd l : mem_ok env (kd :: l) → free_mem kd env (λ env', mem_ok env' l);
}.

Section memory.
Context {E : Type} `{!KEnv E} `{!KMem E}.
Implicit Types (a s : kstate E).

Lemma memories_take s q kd : mem_at s q = Some kd → (q < NPROC)%nat →
  ∃ l1 l2, seq 0 NPROC = l1 ++ q :: l2 ∧ (q ∉ l1 ++ l2) ∧ memories s ≡ₚ kd :: omap (mem_at s) (l1 ++ l2).
Proof.
  intros Hq Hn. assert (Hin : q ∈ seq 0 NPROC) by (apply elem_of_seq; lia). apply list_elem_of_split in Hin as (l1 & l2 & Hs). exists l1, l2. split; [done|].
  pose proof (NoDup_seq 0 NPROC) as Hnd. rewrite Hs in Hnd. split.
  - apply NoDup_app in Hnd as (_ & H1 & H2). apply NoDup_cons in H2 as [H2 _]. rewrite elem_of_app. intros [H|H]; [|done]. by apply (H1 q H), elem_of_cons; left.
  - unfold memories. rewrite Hs, !omap_app. simpl. rewrite Hq. by rewrite <- Permutation_middle.
Qed.

Lemma omap_cong {A B} (f g : A → option B) (l : list A) : (∀ x, x ∈ l → f x = g x) → omap f l = omap g l.
Proof.
  induction l as [|x l IH]; intros H; [done|]. cbn [omap list_omap]. rewrite (H x) by (by left). change (list_omap A B) with (@omap list _ A B). rewrite IH; [done|]. intros y Hy. apply H. by right.
Qed.

Lemma free_mem_det kd env (P : E → Prop) env' : free_mem kd env P → free_mem kd env (.= env') → P env'.
Proof.
  unfold free_mem, wp. destruct (e_kfree kd.1 env) as [[] e1| | | |]; try done. destruct (e_freevm kd.2 e1) as [[] e2| | | |]; try done. by intros H ->.
Qed.

(** A section keeps the memory of the processes intact. *)
Lemma mem_trans_ok a s : mem_trans a s → mem_ok (k_env a) (memories a) → mem_ok (k_env s) (memories s).
Proof.
  intros [[He Hm]|(q & kd & Hq & Hn & Hf & Hs)] Hok.
  - rewrite He. replace (memories s) with (memories a); [done|]. apply omap_cong. intros q _. by rewrite Hm.
  - destruct (memories_take a q kd Hq Hn) as (l1 & l2 & Hl & Hnot & Hp). eapply mem_ok_perm in Hok; [|exact Hp]. apply mem_ok_free in Hok.
    apply (free_mem_det _ _ _ _ Hok) in Hf. eapply mem_ok_perm; [|exact Hf]. unfold memories. rewrite Hl, !omap_app. simpl. rewrite (Hs q), decide_True by done.
    rewrite <- !omap_app. rewrite (omap_cong (mem_at a) (mem_at s)); [done|]. intros x Hx. rewrite Hs, decide_False; [done|]. by intros ->.
Qed.

Lemma mem_ok_zombies L s : lists_ok s L → mem_ok (k_env s) (memories s) → zombies_freeable s.
Proof.
  intros Hl Hok q x Hx Hst. assert (Hq : mem_at s q = Some (p_kstack x, p_pgdir x)) by (unfold mem_at; rewrite Hx; simpl; unfold mem_of; by rewrite Hst).
  destruct (memories_take s q _ Hq) as (l1 & l2 & _ & _ & Hp); [rewrite <- (lo_len _ _ Hl); by eapply lookup_lt_Some|].
  eapply mem_ok_perm in Hok; [|exact Hp]. apply mem_ok_free in Hok. unfold can_free, free_mem in *. eapply wp_mono; [exact Hok|]. intros u e1 H1.
  eapply wp_mono; [exact H1|]. done.
Qed.
End memory.
