(* ===== verification/MachineSteps.v ===== *)
(** * The steps of the machine and its invariant (proc.c)

    [mstep] is the step relation of the machine, [minv] of Machine.v its
    invariant: each step keeps it, and the critical sections run to completion
    where it holds. The theorems over all reachable states are in
    MachineThms.v. *)

From S2P Require Import Prelude Mem Spinlock Str Proc ProcOps ProcLists ProcInv ProcSpec ProcScan ProcSched ProcExit ProcFork ProcBoot Machine.

(** Updates a process makes without ptable.lock to a record that only it
    writes. *)
Definition private (f : proc → proc) : Prop :=
  next_free f ∧ ∀ x, p_state (f x) = p_state x ∧ (prio_ok x → prio_ok (f x)).

Section steps.
Context {E : Type} `{!KEnv E}.
Context (kpgdir : Z).
Implicit Types (s : kstate E) (m : mach (E:=E)) (p q np : nat) (x y : proc).

(** CPU [i] runs process [p], has nothing pending, and holds [held]. *)
Definition active m i (c : cpu) p held e : Prop :=
  m_cpus m !! i = Some c ∧ c_proc c = Some p ∧ m_pend m !! i = None ∧
  disc (mkHw c (locks m)) held e.

(** Sections of the code that end in the scheduler context. *)
Definition then_back {A} (op : M (kstate E) A) : M (kstate E) unit := op;; scheduler_back kpgdir.

(** wait() may return or give up the CPU; so may a wait() that is resumed. *)
Definition wait_section : M (kstate E) unit :=
  r ← wait; match r with Ret _ => mret tt | Gone => scheduler_back kpgdir end.

(** An iteration of the scheduler with the code of the process it picks. *)
Definition sched_section : M (kstate E) (option resume) :=
  r ← scheduler;
  match r with
  | None => mret None
  | Some p =>
    r ← resume_locked p;
    match r with Ret k => mret (Some k) | Gone => scheduler_back kpgdir;; mret None end
  end.

Definition lock_of (lk : option lockid) : list lockid :=
  match lk with Some l => [l] | None => [] end.

Section relation.
(** What the code between the sections is known to keep: fork() before it
    publishes the child, exec(), sbrk(), the file system. *)
Context (R : mach (E:=E) → mach (E:=E) → Prop).

Inductive mstep m : mach (E:=E) → Prop :=
| ms_sched i c e r s :
    m_cpus m !! i = Some c → c_proc c = None → m_pend m !! i = None →
    disc (mkHw c (locks m)) [] e → zombies_freeable (m_k m) →
    sched_section (enter m c) = Done r s →
    mstep m (back m i s (match r with Some k => <[i := k]> (m_pend m) | None => m_pend m end) (m_own m))
| ms_rest i c k s :
    m_cpus m !! i = Some c → m_pend m !! i = Some k → resume_rest k (enter m c) = Done tt s →
    R m (back m i s (delete i (m_pend m)) (m_own m)) →
    mstep m (back m i s (delete i (m_pend m)) (m_own m))
| ms_yield i c p e s :
    active m i c p [] e → then_back yield (enter m c) = Done tt s →
    mstep m (back m i s (m_pend m) (m_own m))
| ms_sleep i c p e ch lk s :
    active m i c p (lock_of lk) e → lk ≠ Some LPtable →
    then_back (sleep ch lk) (enter m c) = Done tt s →
    mstep m (back m i s (m_pend m) (m_own m))
| ms_exit i c p e s :
    active m i c p [] e → m_own m !! p = None → then_back (exit_locked p) (enter m c) = Done tt s →
    mstep m (back m i s (m_pend m) (m_own m))
| ms_wait i c p e s :
    active m i c p [] e → m_own m !! p = None → zombies_freeable (m_k m) →
    wait_section (enter m c) = Done tt s →
    mstep m (back m i s (m_pend m) (m_own m))
| ms_wakeup i c ch s :
    m_cpus m !! i = Some c → wakeup ch (enter m c) = Done tt s →
    mstep m (back m i s (m_pend m) (m_own m))
| ms_kill i c p held e pid r s :
    active m i c p held e → kill pid (enter m c) = Done r s →
    mstep m (back m i s (m_pend m) (m_own m))
| ms_setpriority i c p held e pid pr r s :
    active m i c p held e → setpriority pid pr (enter m c) = Done r s →
    mstep m (back m i s (m_pend m) (m_own m))
| ms_setuid i c p held e uid r s :
    active m i c p held e → setuid uid (enter m c) = Done r s →
    mstep m (back m i s (m_pend m) (m_own m))
| ms_setgid i c p held e gid r s :
    active m i c p held e → setgid gid (enter m c) = Done r s →
    mstep m (back m i s (m_pend m) (m_own m))
| ms_alloc i c p held e r s :
    active m i c p held e → m_own m !! p = None → alloc_slot (enter m c) = Done r s →
    mstep m (back m i s (m_pend m)
      (match r with Some np => <[p := np]> (m_own m) | None => m_own m end))
| ms_undo i c p held e np s :
    active m i c p held e → m_own m !! p = Some np → free_embryo np (enter m c) = Done tt s →
    mstep m (back m i s (m_pend m) (delete p (m_own m)))
| ms_publish i c p held e np y s :
    active m i c p held e → m_own m !! p = Some np → k_procs (m_k m) !! np = Some y →
    p_prio y = 0 → p_pgdir y ≠ 0 → p_context y = RForkret →
    fork_publish np (enter m c) = Done tt s →
    R m (back m i s (m_pend m) (delete p (m_own m))) →
    mstep m (back m i s (m_pend m) (delete p (m_own m)))
| ms_child i c p held e np f s :
    active m i c p held e → m_own m !! p = Some np → private f →
    wr np f (enter m c) = Done tt s →
    mstep m (back m i s (m_pend m) (m_own m))
| ms_self i c p held e f s :
    active m i c p held e → private f → (∀ x, p_pgdir x ≠ 0 → p_pgdir (f x) ≠ 0) →
    wr p f (enter m c) = Done tt s →
    R m (back m i s (m_pend m) (m_own m)) →
    mstep m (back m i s (m_pend m) (m_own m))
| ms_env i c env :
    m_cpus m !! i = Some c →
    R m (back m i ((enter m c) <| k_env := env |>) (m_pend m) (m_own m)) →
    mstep m (back m i ((enter m c) <| k_env := env |>) (m_pend m) (m_own m))
| ms_tick i c s :
    m_cpus m !! i = Some c → tick (enter m c) = Done tt s →
    mstep m (back m i s (m_pend m) (m_own m))
| ms_acquire i c l s :
    m_cpus m !! i = Some c → l ≠ LPtable → hwop (acquire l) (enter m c) = Done tt s →
    mstep m (back m i s (m_pend m) (m_own m))
| ms_release i c l s :
    m_cpus m !! i = Some c → l ≠ LPtable → hwop (release l) (enter m c) = Done tt s →
    mstep m (back m i s (m_pend m) (m_own m)).
End relation.

Lemma wf_enter m L c : wf None (m_k m) L (m_k m) → wf None (enter m c) L (enter m c).
Proof. intros W. apply (wf_set_hw _ _ _ _ _ W). Qed.

Lemma in_state m L p v x : minv m L → st (m_k m) p = Some v → k_procs (m_k m) !! p = Some x → p_state x = v.
Proof. intros _ Hs Hx. unfold st in Hs. rewrite Hx in Hs. simpl in Hs. congruence. Qed.

Lemma current m L i c p : minv m L → m_cpus m !! i = Some c → c_proc c = Some p →
  ∃ x, k_procs (m_k m) !! p = Some x ∧ p_state x = RUNNING ∧ p_pgdir x ≠ 0.
Proof.
  intros Hm Hc Hp. pose proof (mi_running _ _ Hm _ _ _ Hc Hp) as Hr. unfold st in Hr.
  destruct (k_procs (m_k m) !! p) as [x|] eqn:Hx; [|done]. simpl in Hr. exists x. split; [done|].
  assert (Hs : p_state x = RUNNING) by congruence. split; [done|].
  pose proof (mi_good _ _ Hm p x Hx) as Hg. unfold good in Hg. by rewrite Hs in Hg.
Qed.

(** ** Preservation, step by step *)

(** After a section that ends in the scheduler, with [p] switched out. *)
Lemma minv_left m L i c p b L' s h1 h e pend :
  minv m L → m_cpus m !! i = Some c → c_proc c = Some p →
  disc h [] e → c_id (h_cpu h1) = c_id c →
  locks_set LPtable (mkLock false None) (h1 <| h_cpu ::= idle_cpu kpgdir |>) h →
  (∀ l j, l ≠ LPtable → j ≠ i → owned (h_locks h1) l j ↔ owned (locks m) l j) →
  wf None (b <| k_hw := h |>) L' s →
  quiet_but (Some p) (m_k m) b → covers (m_k m) b →
  (∃ y, k_procs b !! p = Some y ∧ good y ∧ p_state y ≠ EMBRYO ∧ p_state y ≠ RUNNING) →
  minv (back m i s pend (m_own m)) L'.
Proof.
  intros Hm Hc Hp D Hid [(Hs1 & Hs2 & _) Hk] Ho W Hq Hcv (y & Hy & Hg & He & Hr).
  pose proof (mi_cpu _ _ Hm _ _ Hc) as [Hi _]. simpl in Hs1, Hs2.
  destruct (current _ _ _ _ _ Hm Hc Hp) as (x & Hx & Hxs & _).
  eapply (minv_change _ _ _ _ (Some p)); [done|exact Hc|exact W|exact D|congruence| | |done|done|done|].
  - by rewrite Hk, fn_lookup_insert.
  - intros l j Hj. unfold owned. rewrite Hk. unfold insert, fn_insert. case_decide as Hd.
    + subst l. simpl. rewrite (mi_lock _ _ Hm). naive_solver.
    + by apply Ho.
  - intros p' [= <-]. split; [by right|]. split; [by left|]. split; [congruence|].
    split; [unfold st; rewrite Hx; simpl; congruence|]. exists y. split_and!; try done.
    rewrite Hs2. naive_solver.
Qed.

Lemma charge_fields t x : p_pgdir (charge t x) = p_pgdir x ∧ p_context (charge t x) = p_context x.
Proof. unfold charge. by destruct (_ <=? 0). Qed.

Lemma then_back_spec {A} (op : M (kstate E) A) s (Q : unit → kstate E → Prop) :
  wp op (λ _ s1, wp (scheduler_back kpgdir) Q s1) s → wp (then_back op) Q s.
Proof. intros H. unfold then_back. by wp_step. Qed.

Lemma owned_taken h h' l j :
  lock_taken h h' → l ≠ LPtable → owned (h_locks h') l j ↔ owned (h_locks h) l j.
Proof.
  intros [_ Hk] Hl. unfold owned. rewrite Hk. unfold insert, fn_insert. by rewrite decide_False by congruence.
Qed.

(** The machine after a step of CPU [i] is well formed; after a section, also
    the memory of the processes is accounted for. *)
Definition kept m i (own : gmap nat nat) s : Prop := ∃ L, ∀ pend, minv (back m i s pend own) L.
Definition pres m i (own : gmap nat nat) s : Prop := mem_trans (m_k m) s ∧ kept m i own s.

Lemma enter_same m c : mem_same (m_k m) (enter m c).
Proof. by apply mem_same_refl. Qed.

(** [mem_step W]: the memory after a section whose result [W] describes. *)
Lemma mem_step m o b h L s : wf o (b <| k_hw := h |>) L s → mem_same (m_k m) b → mem_trans (m_k m) s.
Proof. intros W H. eapply mem_trans_wf; [exact W|]. left. exact H. Qed.

(** A process that keeps its memory over a change of its state. *)
Lemma mem_of_live x y : p_kstack y = p_kstack x → p_pgdir y = p_pgdir x →
  p_state x ∉ [UNUSED; EMBRYO] → p_state y ∉ [UNUSED; EMBRYO] → mem_of y = mem_of x.
Proof. unfold mem_of. intros -> -> Hx Hy. destruct (p_state x), (p_state y); set_solver. Qed.
Lemma mem_of_state x y : p_kstack y = p_kstack x → p_pgdir y = p_pgdir x → p_state y = p_state x → mem_of y = mem_of x.
Proof. unfold mem_of. by intros -> -> ->. Qed.

Lemma charge_stack t x : p_kstack (charge t x) = p_kstack x.
Proof. unfold charge. by destruct (_ <=? 0). Qed.

Lemma yielded_mem t e x : p_state x = RUNNING → mem_of (yielded t e x) = mem_of x.
Proof.
  intros Hs. apply mem_of_live; unfold yielded, leave; simpl; rewrite ?charge_stack, ?(proj1 (charge_fields _ _)), ?charge_state, ?Hs; simpl; try done; set_solver.
Qed.
Lemma slept_mem t ch k x : p_state x = RUNNING → mem_of (slept t ch k x) = mem_of x.
Proof.
  intros Hs. apply mem_of_live; unfold slept, leave; simpl; rewrite ?charge_stack, ?(proj1 (charge_fields _ _)), ?charge_state, ?Hs; simpl; try done; set_solver.
Qed.

Lemma yield_pres m L i c p e :
  minv m L → active m i c p [] e →
  wp (then_back yield) (λ _ s, pres m i (m_own m) s) (enter m c).
Proof.
  intros Hm (Hc & Hp & _ & D). destruct (current _ _ _ _ _ Hm Hc Hp) as (x & Hx & Hst & Hpg).
  apply then_back_spec. eapply (yield_spec (enter m c) L _ p x e);
    [apply wf_enter, (mi_wf _ _ Hm)|by split|apply (mi_lock _ _ Hm)|exact Hx|exact Hst|].
  intros h s1 D1 Hl1 W1. eapply scheduler_back_spec; [exact W1|exact D1|]. intros h2 s2 D2 Hl2 W2.
  split; [eapply mem_step; [exact W2|]; exact (mem_upd p _ (m_k m) x Hx (yielded_mem _ _ _ Hst))|]. eexists. intros pend.
  eapply (minv_left _ _ _ _ _ (upd p (yielded (k_ticks (m_k m)) e) (m_k m)) _ _ h h2);
    [exact Hm|exact Hc|exact Hp|exact D2|apply (proj1 Hl1)|exact Hl2| |exact W2| | |].
  - intros l j Hl _. by apply (owned_taken (mkHw c (locks m))).
  - apply quiet_but_upd.
  - apply covers_upd.
  - eexists. split; [by apply lookup_upd|]. unfold yielded, leave, good. simpl.
    rewrite charge_state. simpl. rewrite (proj1 (charge_fields _ _)). by split_and!.
Qed.

Lemma sleep_pres m L i c p e ch lk :
  minv m L → active m i c p (lock_of lk) e → lk ≠ Some LPtable →
  wp (then_back (sleep ch lk)) (λ _ s, pres m i (m_own m) s) (enter m c).
Proof.
  intros Hm (Hc & Hp & _ & D) Hlk. destruct (current _ _ _ _ _ Hm Hc Hp) as (x & Hx & Hst & Hpg).
  pose proof (mi_cpu _ _ Hm _ _ Hc) as [Hid _].
  apply then_back_spec. unfold sleep. wp_step. eapply (sleep_spec (enter m c) L _ p x e);
    [apply wf_enter, (mi_wf _ _ Hm)|by split|intros _; apply (mi_lock _ _ Hm)|exact Hx|exact Hst|].
  intros h s1 D1 [Hs1 Hl1] W1. wp_step.
  eapply scheduler_back_spec; [exact W1|exact D1|]. intros h2 s2 D2 Hl2 W2.
  split; [eapply mem_step; [exact W2|]; exact (mem_upd p _ (m_k m) x Hx (slept_mem _ _ _ _ Hst))|]. eexists. intros pend.
  eapply (minv_left _ _ _ _ _ (upd p (slept (k_ticks (m_k m)) ch (RSleep lk e)) (m_k m)) _ _ h h2);
    [exact Hm|exact Hc|exact Hp|exact D2|apply Hs1|exact Hl2| |exact W2| | |].
  - intros l j Hl Hj. unfold owned. rewrite Hl1. rewrite decide_False by done.
    case_decide as Hd; [|done]. subst lk. simpl. split; [naive_solver|]. intros [_ Ho].
    destruct (proj1 (disc_held _ _ _ D l)) as [_ Hme]; [simpl; set_solver|]. simpl in Hme. congruence.
  - apply quiet_but_upd.
  - apply covers_upd.
  - eexists. split; [by apply lookup_upd|]. unfold slept, leave, good. simpl.
    rewrite charge_state. simpl. rewrite (proj1 (charge_fields _ _)). by split_and!.
Qed.

Lemma quiet_exit p (a : kstate E) L x : quiet a (exit_state p a L x) ∧ covers a (exit_state p a L x).
Proof.
  set (b := (exit_wake a L x) <| k_procs ::= fmap (orphaned p (k_initproc a)) |>).
  assert (Hb : quiet a b ∧ covers a b).
  { split.
    - eapply quiet_but_trans; [apply (quiet_wake (chan_of (p_parent x)))|].
      intros q y _. unfold b, exit_wake. simpl. rewrite list_lookup_fmap.
      intros (z & Hz & ->)%fmap_Some. exists z. split; [done|].
      apply quiet1_same; unfold orphaned, adopt; repeat case_decide; naive_solver.
    - intros q Hq. apply (covers_wake (chan_of (p_parent x))) in Hq as [y Hy].
      unfold b, exit_wake. simpl. rewrite list_lookup_fmap. simpl in Hy. rewrite Hy. by eexists. }
  unfold exit_state. fold b. destruct (exit_zombies p a L x); [|done]. split.
  - eapply quiet_but_trans; [apply Hb|apply quiet_wake].
  - intros q Hq. apply covers_wake. by apply Hb.
Qed.

Lemma exit_mem p (a : kstate E) L x : mem_same a (exit_state p a L x).
Proof.
  set (b := (exit_wake a L x) <| k_procs ::= fmap (orphaned p (k_initproc a)) |>).
  assert (Hb : mem_same a b).
  { eapply mem_same_trans; [apply (mem_wake (chan_of (p_parent x)))|]. apply mem_all; [done|..].
    - intros q [y Hy]. unfold b, exit_wake. simpl in *. rewrite list_lookup_fmap, Hy. by eexists.
    - intros q y. unfold b, exit_wake. simpl. rewrite list_lookup_fmap. intros (z & Hz & ->)%fmap_Some. exists z. split; [done|].
      apply mem_of_state; unfold orphaned, adopt; repeat case_decide; done. }
  unfold exit_state. fold b. destruct (exit_zombies p a L x); [|done]. eapply mem_same_trans; [exact Hb|apply mem_wake].
Qed.

Lemma exit_pres m L i c p e :
  minv m L → active m i c p [] e →
  wp (then_back (exit_locked p)) (λ _ s, pres m i (m_own m) s) (enter m c).
Proof.
  intros Hm (Hc & Hp & _ & D). destruct (current _ _ _ _ _ Hm Hc Hp) as (x & Hx & Hst & Hpg).
  apply then_back_spec. eapply (exit_locked_spec e (enter m c) L _ p x);
    [apply wf_enter, (mi_wf _ _ Hm)|by split|apply (mi_lock _ _ Hm)|exact Hx|exact Hst|].
  intros h s1 D1 Hl1 W1. eapply scheduler_back_spec; [exact W1|exact D1|]. intros h2 s2 D2 Hl2 W2.
  destruct (quiet_exit p (enter m c) L x) as [Hq Hcv].
  pose proof (exit_state_lookup p (enter m c) L x p x Hx Hst) as Hx'.
  split. { eapply mem_step; [exact W2|]. eapply mem_same_trans; [apply (exit_mem p (enter m c) L x)|]. eapply mem_upd; [exact Hx'|].
    apply mem_of_live; unfold exited, leave, adopt; case_decide; simpl; rewrite ?Hst; try done; set_solver. }
  eexists. intros pend.
  eapply (minv_left _ _ _ _ _ (upd p (exited (k_ticks (m_k m)) e) (exit_state p (enter m c) L x)) _ _ h h2);
    [exact Hm|exact Hc|exact Hp|exact D2|apply (proj1 Hl1)|exact Hl2| |exact W2| | |].
  - intros l j Hl _. by apply (owned_taken (mkHw c (locks m))).
  - eapply quiet_but_trans; [apply quiet_weaken; exact Hq|apply quiet_but_upd].
  - intros q Hq'. by apply covers_upd, Hcv.
  - eexists. split; [apply lookup_upd; by apply exit_state_lookup|]. unfold exited, leave, good. simpl.
    by split_and!.
Qed.

(** Sections that only take and release ptable.lock. *)
Lemma disc_cpu_of m L i c : minv m L → m_cpus m !! i = Some c →
  ∃ held e, disc (k_hw (enter m c)) held e.
Proof. intros Hm Hc. apply (mi_cpu _ _ Hm _ _ Hc). Qed.

Lemma wakeup_pres m L i c ch :
  minv m L → m_cpus m !! i = Some c → wp (wakeup ch) (λ _ s, pres m i (m_own m) s) (enter m c).
Proof.
  intros Hm Hc. destruct (disc_cpu_of _ _ _ _ Hm Hc) as (held & e & D).
  eapply wakeup_spec; [apply wf_enter, (mi_wf _ _ Hm)|exact D|apply (mi_lock _ _ Hm)|].
  intros h s1 D1 Hl1 W1. split; [eapply mem_step; [exact W1|apply (mem_wake ch (m_k m))]|]. eexists. intros pend.
  eapply (minv_quiet _ _ _ _ (wake ch (m_k m))); [exact Hm|exact Hc|exact W1|exact D1|exact Hl1| |].
  - apply quiet_wake.
  - apply covers_wake.
Qed.

Lemma kill_pres m L i c pid :
  minv m L → m_cpus m !! i = Some c → wp (kill pid) (λ _ s, pres m i (m_own m) s) (enter m c).
Proof.
  intros Hm Hc. destruct (disc_cpu_of _ _ _ _ Hm Hc) as (held & e & D).
  eapply (kill_spec held e pid (enter m c) L); [apply wf_enter, (mi_wf _ _ Hm)|exact D|apply (mi_lock _ _ Hm)|].
  destruct (find _ _) as [q|].
  - intros s1 (_ & h & x & Hx & D1 & Hl1 & W1). split.
    { eapply mem_step; [exact W1|]. eapply (mem_upd q _ (m_k m)); [exact Hx|]. unfold killed. case_decide as Hd; [|by apply mem_of_state].
      apply mem_of_live; simpl; rewrite ?Hd; try done; set_solver. }
    eexists. intros pend.
    eapply (minv_quiet _ _ _ _ (upd q killed (m_k m))); [exact Hm|exact Hc|exact W1|exact D1|exact Hl1| |].
    + apply quiet_upd. intros y _. apply quiet1_same; unfold killed; case_decide; naive_solver.
    + apply covers_upd.
  - intros h s1 D1 Hl1 W1. split; [eapply mem_step; [exact W1|by apply (mem_same_refl (m_k m))]|]. eexists. intros pend.
    eapply (minv_quiet _ _ _ _ (m_k m)); [exact Hm|exact Hc|exact W1|exact D1|exact Hl1| |].
    + by apply quiet_refl.
    + by intros q.
Qed.

(** Steps that do not touch ptable.lock. *)
Lemma minv_still m L i c b L' s h pend :
  minv m L → m_cpus m !! i = Some c → wf None (b <| k_hw := h |>) L' s →
  (∃ held e, disc h held e) → same_cpu c (h_cpu h) → lk_locked (h_locks h LPtable) = false →
  (∀ l j, j ≠ i → owned (h_locks h) l j ↔ owned (locks m) l j) →
  quiet (m_k m) b → covers (m_k m) b → minv (back m i s pend (m_own m)) L'.
Proof.
  intros Hm Hc W (held & e & D) (Hs1 & Hs2 & _) Hlk Ho Hq Hcv.
  pose proof (mi_cpu _ _ Hm _ _ Hc) as [Hid _].
  eapply (minv_change _ _ _ _ None); try done. congruence.
Qed.

Lemma still_pres m L i c b s :
  minv m L → m_cpus m !! i = Some c → wf None (b <| k_hw := mkHw c (locks m) |>) L s →
  quiet (m_k m) b → covers (m_k m) b → kept m i (m_own m) s.
Proof.
  intros Hm Hc W Hq Hcv. eexists. intros pend.
  eapply minv_still; [exact Hm|exact Hc|exact W|apply (mi_cpu _ _ Hm _ _ Hc)|done| |done|done|done].
  apply (mi_lock _ _ Hm).
Qed.

Lemma setpriority_pres m L i c pid pr :
  minv m L → m_cpus m !! i = Some c → wp (setpriority pid pr) (λ _ s, pres m i (m_own m) s) (enter m c).
Proof.
  intros Hm Hc. destruct (disc_cpu_of _ _ _ _ Hm Hc) as (held & e & D).
  destruct ((pr <? 0) || (MAX <? pr)) eqn:Hpr.
  { unfold setpriority. rewrite Hpr. wp_step. split; [left; apply enter_same|].
    eapply (still_pres _ _ _ _ (m_k m)); [exact Hm|exact Hc| | |].
    - apply wf_enter, (mi_wf _ _ Hm).
    - by apply quiet_refl.
    - by intros q. }
  eapply (setpriority_spec held e pid pr (enter m c) L);
    [apply wf_enter, (mi_wf _ _ Hm)|exact D|apply (mi_lock _ _ Hm)|zbool; lia|].
  destruct (find _ _) as [q|].
  - intros s1 (_ & h & x & Hx & D1 & Hl1 & W1). split.
    { eapply mem_step; [exact W1|]. eapply (mem_upd q _ (m_k m)); [exact Hx|]. unfold prioritized. by case_decide. }
    eexists. intros pend.
    eapply (minv_quiet _ _ _ _ (upd q (prioritized pr) (m_k m)));
      [exact Hm|exact Hc|exact W1|exact D1|exact Hl1| |].
    + apply quiet_upd. intros y _. apply quiet1_same; unfold prioritized; case_decide; naive_solver.
    + apply covers_upd.
  - intros h s1 D1 Hl1 W1. split; [eapply mem_step; [exact W1|by apply (mem_same_refl (m_k m))]|]. eexists. intros pend.
    eapply (minv_quiet _ _ _ _ (m_k m)); [exact Hm|exact Hc|exact W1|exact D1|exact Hl1| |].
    + by apply quiet_refl.
    + by intros q.
Qed.

(** setuid() and setgid(): a field of the current process, under the lock. *)
Lemma ident_pres m L i c p (f : proc → proc) : minv m L → m_cpus m !! i = Some c → c_proc c = Some p → next_free f →
  (∀ x, prio_ok x → prio_ok (f x)) → (∀ x, mem_of (f x) = mem_of x ∧ home (f x) = home x ∧ p_state (f x) = p_state x ∧ p_pgdir (f x) = p_pgdir x) →
  wp (acquire_pt;; p ← curproc; p ← deref p; wr p f;; release_pt;; mret 0) (λ _ s, pres m i (m_own m) s) (enter m c).
Proof.
  intros Hm Hc Hp Hn Hpr Hf. destruct (disc_cpu_of _ _ _ _ Hm Hc) as (held & e & D). destruct (current _ _ _ _ _ Hm Hc Hp) as (x & Hx & Hst & Hpg).
  destruct (Hf x) as (Hfm & Hfh & Hfs & Hfd). unfold acquire_pt, release_pt. wp_step.
  eapply wf_acquire; [apply wf_enter, (mi_wf _ _ Hm)|exact D|apply (mi_lock _ _ Hm)|]. intros h s1 D1 Hl1 W1.
  psteps. rewrite (proj1 (proj2 (proj1 Hl1))). simpl. rewrite Hp. unfold deref.
  psteps; [apply Hpr; by eapply (wf_prio _ _ _ _ _ _ (mi_wf _ _ Hm))|by right|].
  eapply wf_release; [exact W1|exact D1|]. intros h2 s3 D2 Hl2 W3. wp_step. rewrite upd_hw in W3.
  split; [eapply (mem_step m _ (upd p f (m_k m))); [exact W3|by eapply (mem_upd p _ (m_k m))]|]. eexists. intros pend.
  eapply (minv_quiet _ _ _ _ (upd p f (m_k m))); [exact Hm|exact Hc|exact W3|exact D2|by eapply locks_set_twice| |apply covers_upd].
  apply quiet_upd. intros y Hy. assert (y = x) as -> by congruence. split; [by left|]. unfold good. by rewrite Hfs, Hst, Hfd.
Qed.

Lemma setuid_pres m L i c p uid : minv m L → m_cpus m !! i = Some c → c_proc c = Some p →
  wp (setuid uid) (λ _ s, pres m i (m_own m) s) (enter m c) ∧ wp (setgid uid) (λ _ s, pres m i (m_own m) s) (enter m c).
Proof.
  intros Hm Hc Hp. assert (Hstill : pres m i (m_own m) (enter m c)).
  { split; [left; apply enter_same|]. eapply (still_pres _ _ _ _ (m_k m)); [exact Hm|exact Hc|apply wf_enter, (mi_wf _ _ Hm)|by apply quiet_refl|by intros q]. }
  unfold setuid, setgid. split; destruct (_ || _); try (by apply wp_ret); eapply ident_pres; try done; by intros [].
Qed.

(** ** Creating a process *)

Lemma alloc_pres m L i c p :
  minv m L → m_cpus m !! i = Some c → m_own m !! p = None →
  wp alloc_slot (λ r s, pres m i (match r with Some np => <[p := np]> (m_own m) | None => m_own m end) s)
    (enter m c).
Proof.
  intros Hm Hc Hp. destruct (disc_cpu_of _ _ _ _ Hm Hc) as (held & e & D).
  pose proof (mi_wf _ _ Hm) as W0.
  eapply (alloc_slot_spec held e (enter m c) L); [apply wf_enter, W0|exact D|apply (mi_lock _ _ Hm)|].
  intros h s1 D1 Hl1. destruct (L SFree) as [|np l] eqn:HL; intros W1.
  - split; [eapply mem_step; [exact W1|by apply (mem_same_refl (m_k m))]|]. eexists. intros pend.
    eapply (minv_quiet _ _ _ _ (m_k m)); [exact Hm|exact Hc|exact W1|exact D1|exact Hl1| |].
    + by apply quiet_refl.
    + by intros q.
  - assert (Hnp : np ∈ L SFree) by (rewrite HL; set_solver).
    destruct (wf_member _ _ _ _ _ _ W0 Hnp) as (y & Hy & Hh & _).
    assert (Hst : p_state y = UNUSED) by (unfold home in Hh; by destruct (p_state y)).
    split. { eapply mem_step; [exact W1|]. eapply mem_same_trans; [eapply (mem_upd np _ (m_k m)); [exact Hy|]|by apply mem_same_refl]. unfold mem_of. simpl. by rewrite Hst. }
    eexists. intros pend.
    eapply (minv_own _ _ _ _ p np (λ x, x <| p_state := EMBRYO |> <| p_pid := u32 (k_nextpid (m_k m)) |>)
      _ _ _ _ _ _ _ ((upd np _ (m_k m)) <| k_nextpid := _ |>) y);
      [exact Hm|exact Hc|exact W1|exact D1|exact Hl1|reflexivity|exact Hy|congruence|done|done| |done].
    intros _. split; [done|]. split; [congruence|done].
Qed.

Lemma owns m L p np : minv m L → m_own m !! p = Some np →
  ∃ y, k_procs (m_k m) !! np = Some y ∧ p_state y = EMBRYO.
Proof.
  intros Hm Hp. assert (Hs : st (m_k m) np = Some EMBRYO) by (apply (mi_embryo _ _ Hm); eauto).
  unfold st in Hs. destruct (k_procs (m_k m) !! np) as [y|]; [|done]. simpl in Hs. naive_solver.
Qed.

Lemma undo_pres m L i c p np :
  minv m L → m_cpus m !! i = Some c → m_own m !! p = Some np →
  wp (free_embryo np) (λ _ s, pres m i (delete p (m_own m)) s) (enter m c).
Proof.
  intros Hm Hc Hp. destruct (disc_cpu_of _ _ _ _ Hm Hc) as (held & e & D).
  destruct (owns _ _ _ _ Hm Hp) as (y & Hy & Hst).
  eapply (free_embryo_spec held e (enter m c) L); [apply wf_enter, (mi_wf _ _ Hm)|exact D|
    apply (mi_lock _ _ Hm)|exact Hy|exact Hst|].
  intros h s1 D1 Hl1 W1.
  split; [eapply mem_step; [exact W1|]; eapply (mem_upd np _ (m_k m)); [exact Hy|]; unfold mem_of; simpl; by rewrite Hst|]. eexists. intros pend.
  eapply (minv_own _ _ _ _ p np (λ x, x <| p_state := UNUSED |>) _ _ _ _ _ _ _ (upd np _ (m_k m)) y);
    [exact Hm|exact Hc|exact W1|exact D1|exact Hl1|reflexivity|exact Hy|congruence|done|done|done|done].
Qed.

Lemma publish_pres m L i c p np y :
  minv m L → m_cpus m !! i = Some c → m_own m !! p = Some np → k_procs (m_k m) !! np = Some y →
  p_prio y = 0 → p_pgdir y ≠ 0 → p_context y = RForkret →
  wp (fork_publish np) (λ _ s, kept m i (delete p (m_own m)) s) (enter m c).
Proof.
  intros Hm Hc Hp Hy Hpr Hpg Hctx. destruct (disc_cpu_of _ _ _ _ Hm Hc) as (held & e & D).
  destruct (owns _ _ _ _ Hm Hp) as (y' & Hy' & Hst). assert (y' = y) as -> by congruence.
  eapply (fork_publish_spec held e (enter m c) L); [apply wf_enter, (mi_wf _ _ Hm)|exact D|
    apply (mi_lock _ _ Hm)|exact Hy|exact Hst|exact Hpr|].
  intros h s1 D1 Hl1 W1. eexists. intros pend.
  eapply (minv_own _ _ _ _ p np (λ x, x <| p_state := RUNNABLE |>) _ _ _ _ _ _ _ (upd np _ (m_k m)) y);
    [exact Hm|exact Hc|exact W1|exact D1|exact Hl1|reflexivity|exact Hy|congruence|done| |done|done].
  unfold good. simpl. by rewrite Hctx.
Qed.

Lemma private_wf m L c q f y :
  minv m L → k_procs (m_k m) !! q = Some y → p_state y ≠ RUNNABLE → private f →
  wp (wr q f) (λ _ s, wf None ((upd q f (m_k m)) <| k_hw := mkHw c (locks m) |>) L s) (enter m c).
Proof.
  intros Hm Hy Hst [Hf Hp]. pose proof (wf_enter _ _ c (mi_wf _ _ Hm)) as W.
  destruct (Hp y) as [Hps Hpp].
  eapply (wf_wr q f y _ W); [exact Hy|exact Hf| | |done].
  - apply Hpp. by eapply wf_prio.
  - right. by apply home_state.
Qed.

Lemma child_pres m L i c p np f :
  minv m L → m_cpus m !! i = Some c → m_own m !! p = Some np → private f →
  wp (wr np f) (λ _ s, pres m i (m_own m) s) (enter m c).
Proof.
  intros Hm Hc Hp Hf. destruct (owns _ _ _ _ Hm Hp) as (y & Hy & Hst).
  eapply wp_mono; [eapply private_wf; [exact Hm|exact Hy|congruence|exact Hf]|]. intros [] s1 W. destruct (proj2 Hf y) as [Hs _].
  split; [eapply mem_step; [exact W|]; eapply (mem_upd np _ (m_k m)); [exact Hy|]; unfold mem_of; by rewrite Hs, Hst|].
  eapply still_pres; [exact Hm|exact Hc|exact W| |apply covers_upd].
  apply quiet_upd. intros x Hx. assert (x = y) as -> by congruence. split; [by left|]. unfold good. by rewrite Hs, Hst.
Qed.

Lemma self_pres m L i c p f :
  minv m L → m_cpus m !! i = Some c → c_proc c = Some p → private f →
  (∀ x, p_pgdir x ≠ 0 → p_pgdir (f x) ≠ 0) →
  wp (wr p f) (λ _ s, kept m i (m_own m) s) (enter m c).
Proof.
  intros Hm Hc Hp Hf Hd. destruct (current _ _ _ _ _ Hm Hc Hp) as (y & Hy & Hst & Hpg).
  eapply wp_mono; [eapply private_wf; [exact Hm|exact Hy|congruence|exact Hf]|]. intros [] s1 W.
  eapply still_pres; [exact Hm|exact Hc|exact W| |apply covers_upd].
  apply quiet_upd. intros x Hx. assert (x = y) as -> by congruence.
  destruct (proj2 Hf y) as [Hs _]. split; [by left|]. unfold good. rewrite Hs, Hst. apply Hd.
Qed.

Lemma env_pres m L i c env :
  minv m L → m_cpus m !! i = Some c → kept m i (m_own m) ((enter m c) <| k_env := env |>).
Proof.
  intros Hm Hc. eapply (still_pres _ _ _ _ ((m_k m) <| k_env := env |>)); [exact Hm|exact Hc| | |].
  - exact (wf_set_env _ _ _ _ env (wf_enter _ _ c (mi_wf _ _ Hm))).
  - by apply quiet_refl.
  - by intros q.
Qed.

Lemma tick_pres m L i c :
  minv m L → m_cpus m !! i = Some c → wp tick (λ _ s, pres m i (m_own m) s) (enter m c).
Proof.
  intros Hm Hc. unfold tick. wp_step. split; [left; by apply mem_same_refl|].
  eapply (still_pres _ _ _ _ ((m_k m) <| k_ticks := u32 (k_ticks (m_k m) + 1) |>)); [exact Hm|exact Hc| | |].
  - refine (wf_free _ _ _ _ (λ s, s <| k_ticks := u32 (k_ticks s + 1) |>) _ (wf_enter _ _ c (mi_wf _ _ Hm))).
    done.
  - by apply quiet_refl.
  - by intros q.
Qed.

(** ** Other locks *)

Lemma locks_pres m L i c l v h held e s :
  minv m L → m_cpus m !! i = Some c → l ≠ LPtable → disc h held e →
  locks_set l v (mkHw c (locks m)) h → wf None ((m_k m) <| k_hw := h |>) L s →
  (∀ j, j ≠ i → (lk_locked v = true ∧ lk_cpu v = Some j) ↔ owned (locks m) l j) →
  pres m i (m_own m) s.
Proof.
  intros Hm Hc Hl D [Hs Hk] W Hv. split; [eapply mem_step; [exact W|by apply (mem_same_refl (m_k m))]|]. eexists. intros pend.
  eapply minv_still; [exact Hm|exact Hc|exact W|by eexists _, _|exact Hs| | | |].
  - rewrite Hk, fn_lookup_insert_ne by done. apply (mi_lock _ _ Hm).
  - intros k j Hj. unfold owned. rewrite Hk. unfold insert, fn_insert. case_decide; [subst k|done].
    by apply Hv.
  - by apply quiet_refl.
  - by intros q.
Qed.

(** acquire() returns only when the lock is free: otherwise it waits, or
    panics when this CPU holds it. *)
Lemma acquire_inv h l (h' : hw) : acquire l h = Done tt h' → lk_locked (h_locks h l) = false.
Proof.
  intros H. destruct (lk_locked (h_locks h l)) eqn:Hl; [|done]. exfalso. revert H.
  unfold acquire. unfold mbind, M_bind at 1. rewrite pushcli_done.
  unfold mbind, M_bind. cbn -[bool_decide]. rewrite Hl. unfold panic_if. simpl.
  destruct (bool_decide _); [done|]. simpl. by rewrite Hl.
Qed.

Lemma acquire_pres m L i c l s :
  minv m L → m_cpus m !! i = Some c → l ≠ LPtable → hwop (acquire l) (enter m c) = Done tt s →
  pres m i (m_own m) s.
Proof.
  intros Hm Hc Hl Hs. destruct (disc_cpu_of _ _ _ _ Hm Hc) as (held & e & D).
  assert (Hfree : lk_locked (locks m l) = false).
  { unfold hwop, lift in Hs. simpl in Hs. destruct (acquire l _) as [[]| | | |] eqn:Ha; try done.
    by apply acquire_inv in Ha. }
  refine (wp_inv _ (λ _ s, pres m i (m_own m) s) _ _ _ _ Hs).
  eapply wf_acquire; [apply wf_enter, (mi_wf _ _ Hm)|exact D|exact Hfree|].
  intros h s1 D1 Hl1 W1. eapply locks_pres; [exact Hm|exact Hc|exact Hl|exact D1|exact Hl1|exact W1|].
  intros j Hj. pose proof (mi_cpu _ _ Hm _ _ Hc) as [Hid _]. simpl. unfold owned. rewrite Hfree.
  naive_solver.
Qed.

Lemma release_pres m L i c l s :
  minv m L → m_cpus m !! i = Some c → l ≠ LPtable → hwop (release l) (enter m c) = Done tt s →
  pres m i (m_own m) s.
Proof.
  intros Hm Hc Hl Hs. destruct (disc_cpu_of _ _ _ _ Hm Hc) as (held & e & D).
  pose proof (mi_cpu _ _ Hm _ _ Hc) as [Hid _].
  assert (Hin : l ∈ held).
  { destruct (decide (l ∈ held)) as [|Hn]; [done|]. exfalso. revert Hs.
    unfold hwop, lift, release. unfold mbind, M_bind, holding, gets. simpl.
    pose proof (disc_not_holding _ _ _ _ D Hn) as Hh. simpl in Hh. by rewrite Hh. }
  refine (wp_inv _ (λ _ s, pres m i (m_own m) s) _ _ _ _ Hs).
  eapply wf_release; [apply wf_enter, (mi_wf _ _ Hm)|eapply disc_perm; [|exact D];
    apply without_perm; [apply (disc_nodup _ _ _ D)|exact Hin]|].
  intros h s1 D1 Hl1 W1. eapply locks_pres; [exact Hm|exact Hc|exact Hl|exact D1|exact Hl1|exact W1|].
  intros j Hj. simpl. unfold owned. pose proof (proj1 (disc_held _ _ _ D l) Hin) as [_ Hcpu]. simpl in Hcpu.
  rewrite Hcpu. naive_solver.
Qed.

(** ** wait() *)

Lemma wf_slot o (a : kstate E) L s q x : wf o a L s → k_procs a !! q = Some x → (q < NPROC)%nat.
Proof.
  intros [[Hr Hl] _] Hx. destruct (relisted_lookup _ _ _ _ Hr Hx) as [n Hn]. apply lookup_lt_Some in Hn. by rewrite (lo_len _ _ Hl) in Hn.
Qed.

(** wait() frees the memory of the zombie it finds. *)
Lemma reaped_mem (a : kstate E) q x h env : k_procs a !! q = Some x → p_state x = ZOMBIE → (q < NPROC)%nat → can_free x (k_env a) (.= env) →
  mem_trans a ((upd q reaped a) <| k_hw := h |> <| k_env := env |>).
Proof.
  intros Hx Hst Hq Hf. right. exists q, (p_kstack x, p_pgdir x).
  split; [unfold mem_at; rewrite Hx; simpl; unfold mem_of; by rewrite Hst|]. split; [done|]. split; [exact Hf|].
  intros q'. unfold mem_at. simpl. case_decide as Hd.
  - subst q'. by rewrite (lookup_upd a q reaped x Hx).
  - rewrite upd_unfold. simpl. by rewrite list_lookup_alter_ne.
Qed.

Lemma wait_pres m L i c p e :
  minv m L → active m i c p [] e → zombies_freeable (m_k m) →
  wp wait_section (λ _ s, pres m i (m_own m) s) (enter m c).
Proof.
  intros Hm (Hc & Hp & _ & D) Hz. destruct (current _ _ _ _ _ Hm Hc Hp) as (x & Hx & Hst & Hpg).
  unfold wait_section. wp_step. eapply (wait_spec e (enter m c) L _ p x);
    [apply wf_enter, (mi_wf _ _ Hm)|by split|apply (mi_lock _ _ Hm)|exact Hx|exact Hst|exact Hz|].
  intros r s1 Ha. unfold wait_act in Ha. destruct (find _ _) as [q|] eqn:Hq.
  - destruct Ha as (y & h & env & Hy & -> & D1 & Hl1 & Hfr & W1). wp_step.
    apply find_elem in Hq as [Hq _].
    destruct (wf_member _ _ _ _ _ _ (mi_wf _ _ Hm) Hq) as (y' & Hy' & Hh & _).
    assert (y' = y) as -> by (simpl in Hy; congruence). assert (Hys : p_state y = ZOMBIE) by (unfold home in Hh; by destruct (p_state y)).
    split. { eapply mem_trans_wf; [exact W1|]. eapply (reaped_mem (m_k m)); [exact Hy|exact Hys| |exact Hfr]. by eapply wf_slot; [apply (mi_wf _ _ Hm)|]. }
    eexists. intros pend.
    eapply (minv_quiet _ _ _ _ ((upd q reaped (m_k m)) <| k_env := env |>));
      [exact Hm|exact Hc|exact W1|exact D1|exact Hl1| |].
    + apply (quiet_upd (m_k m)). intros z Hz'. assert (z = y) as -> by congruence.
      apply quiet1_same; try done. right. right. by split.
    + apply (covers_upd q reaped (m_k m)).
  - destruct Ha as (x' & Hx' & Ha). destruct (_ && _).
    + destruct Ha as (-> & h & D1 & Hl1 & W1).
      eapply scheduler_back_spec; [exact W1|exact D1|]. intros h2 s2 D2 Hl2 W2.
      split; [eapply mem_step; [exact W2|]; exact (mem_upd p _ (m_k m) x Hx (slept_mem _ _ _ _ Hst))|]. eexists. intros pend.
      eapply (minv_left _ _ _ _ _ (upd p (slept (k_ticks (m_k m)) (ChProc p) (RWait e)) (m_k m)) _ _ h h2);
        [exact Hm|exact Hc|exact Hp|exact D2|apply (proj1 Hl1)|exact Hl2| |exact W2| | |].
      * intros l j Hl _. by apply (owned_taken (mkHw c (locks m))).
      * apply quiet_but_upd.
      * apply covers_upd.
      * eexists. split; [apply lookup_upd; exact Hx|]. unfold slept, leave, good. simpl.
        rewrite charge_state. simpl. rewrite (proj1 (charge_fields _ _)). by split_and!.
    + destruct Ha as (-> & h & D1 & Hl1 & W1). wp_step. split; [eapply mem_step; [exact W1|by apply (mem_same_refl (m_k m))]|]. eexists. intros pend.
      eapply (minv_quiet _ _ _ _ (m_k m)); [exact Hm|exact Hc|exact W1|exact D1|exact Hl1| |].
      * by apply quiet_refl.
      * by intros q.
Qed.

(** ** The scheduler *)

Lemma quiet_aged (a : kstate E) L : quiet a (aged a L) ∧ covers a (aged a L).
Proof.
  split.
  - intros q y _ Hy. destruct (aged_lookup _ _ _ _ Hy) as (x & Hx & Hs & Hd & _ & Hc & _).
    exists x. split; [done|]. apply quiet1_same; auto.
  - intros q [x Hx]. unfold aged. destruct (_ <=? _); [|by eexists]. simpl.
    unfold adjusted, promote_procs. rewrite list_lookup_imap, list_lookup_fmap, Hx. by eexists.
Qed.

Lemma aged_mem (a : kstate E) L : mem_same a (aged a L).
Proof.
  destruct (quiet_aged a L) as [_ Hc]. apply mem_all; [unfold aged; by destruct (_ <=? _)|exact Hc|].
  intros q y Hy. destruct (aged_lookup _ _ _ _ Hy) as (x & Hx & Hs & Hd & Hk & _). exists x. split; [done|]. by apply mem_of_state.
Qed.

(** CPU [i] has switched to [p], which may have given the CPU up again. *)
Lemma minv_entered m L i c p x0 b L' s h e pend :
  minv m L → m_cpus m !! i = Some c → c_proc c = None →
  k_procs (m_k m) !! p = Some x0 → p_state x0 = RUNNABLE →
  wf None (b <| k_hw := h |>) L' s → disc h [] e → c_id (h_cpu h) = c_id c →
  (∀ k, h_locks h k = <[LPtable := mkLock false None]> (locks m) k) →
  quiet_but (Some p) (m_k m) b → covers (m_k m) b →
  c_proc (h_cpu h) = None ∨ c_proc (h_cpu h) = Some p →
  (∃ y, k_procs b !! p = Some y ∧ good y ∧ p_state y ≠ EMBRYO ∧
     (p_state y = RUNNING ↔ c_proc (h_cpu h) = Some p)) →
  minv (back m i s pend (m_own m)) L'.
Proof.
  intros Hm Hc Hcn Hx0 Hst0 W D Hid Hk Hq Hcv Hcp Hy. pose proof (mi_cpu _ _ Hm _ _ Hc) as [Hi _].
  eapply (minv_change _ _ _ _ (Some p)); [exact Hm|exact Hc|exact W|exact D|congruence| | |done|done|done|].
  - by rewrite Hk, fn_lookup_insert.
  - intros l j Hj. unfold owned. rewrite Hk. unfold insert, fn_insert. case_decide; [|done].
    subst l. simpl. rewrite (mi_lock _ _ Hm). naive_solver.
  - intros p' [= <-]. split; [by left|]. split; [done|].
    split; [intros _; unfold st; rewrite Hx0; simpl; congruence|].
    split; [unfold st; rewrite Hx0; simpl; congruence|]. done.
Qed.

Lemma lock_taken_dispatch h h' p x :
  lock_taken h h' →
  lock_taken (h <| h_cpu ::= dispatch_cpu p x |>) (h' <| h_cpu ::= dispatch_cpu p x |>).
Proof. intros [(H1 & H2 & H3 & H4) Hk]. split; [|done]. by split_and!. Qed.

Lemma locks_back h h1 h2 :
  lock_taken h h1 → locks_set LPtable (mkLock false None) (h1 <| h_cpu ::= idle_cpu kpgdir |>) h2 →
  ∀ k, h_locks h2 k = <[LPtable := mkLock false None]> (h_locks h) k.
Proof.
  intros [_ Hk] [_ Hk2] k. rewrite Hk2. simpl. unfold insert, fn_insert in *. case_decide; [done|].
  rewrite Hk. by rewrite decide_False.
Qed.

Section sched.
Context (m : mach (E:=E)) (L : slist → list nat) (i : nat) (c : cpu) (p : nat) (x0 x : proc).
Context (Hm : minv m L) (Hc : m_cpus m !! i = Some c) (Hcn : c_proc c = None).
Context (Hx0 : k_procs (m_k m) !! p = Some x0) (Hst0 : p_state x0 = RUNNABLE).
Context (b : kstate E) (Hq : quiet_but (Some p) (m_k m) b) (Hcv : covers (m_k m) b).
Context (Hx : k_procs b !! p = Some x) (Hst : p_state x = RUNNING) (Hpg : p_pgdir x ≠ 0).
Context (h0 : hw) (Hid : c_id (h_cpu h0) = c_id c) (Hcp : c_proc (h_cpu h0) = Some p).
Context (Hlk : h_locks h0 = locks m).

(** The process goes on running. *)
Lemma entered_runs b' h L' s e pend :
  lock_cycled h0 h → disc h [] e → wf None (b' <| k_hw := h |>) L' s → quiet b b' → covers b b' →
  minv (back m i s pend (m_own m)) L'.
Proof.
  intros [(H1 & H2 & _) Hk] D W Hq' Hcv'.
  assert (∃ y, k_procs b' !! p = Some y) as [y Hy] by (apply Hcv'; by rewrite Hx).
  destruct (Hq' p y ltac:(done) Hy) as (x' & Hx' & Hs & Hg). assert (x' = x) as -> by congruence.
  assert (Hys : p_state y = RUNNING) by (destruct Hs as [->|[[??]|[??]]]; congruence).
  eapply (minv_entered m L i c p x0 b'); [done..|exact W|exact D|congruence|by rewrite Hlk in Hk| | | |].
  - eapply quiet_but_trans; [exact Hq|by apply quiet_weaken].
  - intros q Hq''. by apply Hcv', Hcv.
  - right. congruence.
  - exists y. split; [done|]. split; [apply Hg; unfold good; by rewrite Hst|].
    split; [congruence|]. rewrite H2. naive_solver.
Qed.

(** The process, resumed in wait(), sleeps again. *)
Lemma entered_sleeps h h2 L' s t ie e pend :
  lock_taken h0 h → disc h2 [] e →
  locks_set LPtable (mkLock false None) (h <| h_cpu ::= idle_cpu kpgdir |>) h2 →
  wf None ((upd p (slept t (ChProc p) (RWait ie)) b) <| k_hw := h2 |>) L' s →
  minv (back m i s pend (m_own m)) L'.
Proof.
  intros Hl D Hl2 W. pose proof Hl2 as [(H1 & H2 & _) _]. simpl in H1, H2.
  eapply (minv_entered m L i c p x0 (upd p (slept t (ChProc p) (RWait ie)) b));
    [done..|exact W|exact D| |by rewrite <- Hlk; eapply locks_back| | |by left|].
  - rewrite H1, (proj1 (proj1 Hl)). done.
  - eapply quiet_but_trans; [exact Hq|apply quiet_but_upd].
  - intros q Hq''. by apply covers_upd, Hcv.
  - eexists. split; [by apply lookup_upd|]. unfold slept, leave, good. simpl.
    rewrite charge_state. simpl. rewrite (proj1 (charge_fields _ _)). split_and!; try done.
    rewrite H2. naive_solver.
Qed.
End sched.

Lemma freeable_dispatched (a : kstate E) L p t h :
  zombies_freeable a → k_env (aged a L) = k_env a →
  zombies_freeable ((upd p (dispatched t) (aged a L)) <| k_hw := h |>).
Proof.
  intros Hz He q y Hy Hs. simpl in Hy.
  destruct (lookup_upd_inv _ _ _ _ _ Hy) as (z & Hz' & ->).
  case_decide as Hd; [done|]. destruct (aged_lookup _ _ _ _ Hz') as (w & Hw & Hs' & Hpg & Hks & _).
  unfold can_free. psimpl. rewrite He, Hks, Hpg. apply (Hz q w Hw). congruence.
Qed.

Lemma sched_pres m L i c e :
  minv m L → m_cpus m !! i = Some c → c_proc c = None → disc (mkHw c (locks m)) [] e →
  zombies_freeable (m_k m) →
  wp sched_section (λ _ s, pres m i (m_own m) s) (enter m c).
Proof.
  intros Hm Hc Hcn D Hz. unfold sched_section. wp_step.
  destruct (quiet_aged (enter m c) L) as [Hqa Hca].
  eapply (scheduler_spec (enter m c) L _ e);
    [apply wf_enter, (mi_wf _ _ Hm)|exact D|apply (mi_lock _ _ Hm)| |].
  { intros q x Hx Hs. pose proof (mi_good _ _ Hm q x Hx) as Hg. unfold good in Hg. rewrite Hs in Hg.
    apply Hg. }
  intros r s1 (h & Hsc & Ha). destruct (head _) as [p|], r as [p'|]; try done.
  2: { destruct Ha as (D1 & Hl1 & W1). wp_step. split; [eapply mem_step; [exact W1|apply (aged_mem (enter m c))]|]. eexists. intros pend.
       eapply (minv_quiet _ _ _ _ (aged (enter m c) L)); [exact Hm|exact Hc|exact W1|exact D1|exact Hl1|done|done]. }
  destruct Ha as (-> & D1 & Hl1 & x & Hx & Hst & W1).
  destruct (aged_lookup _ _ _ _ Hx) as (x0 & Hx0 & Hs0 & Hpg0 & _ & Hk0 & _).
  pose proof (mi_good _ _ Hm p x0 Hx0) as Hg. unfold good in Hg. rewrite <- Hs0, Hst in Hg.
  destruct Hg as [Hpg Hres]. rewrite <- Hpg0 in Hpg. rewrite <- Hk0 in Hres.
  set (b := upd p (dispatched (k_ticks (m_k m))) (aged (enter m c) L)).
  assert (Hb : k_procs b !! p = Some (dispatched (k_ticks (m_k m)) x)) by (by apply lookup_upd).
  assert (Hqb : quiet_but (Some p) (m_k m) b).
  { eapply quiet_but_trans; [apply quiet_weaken; exact Hqa|apply quiet_but_upd]. }
  assert (Hcb : covers (m_k m) b) by (intros q Hq; apply covers_upd, Hca, Hq).
  assert (Hmb : mem_same (m_k m) b).
  { eapply mem_same_trans; [apply (aged_mem (enter m c) L)|]. eapply mem_upd; [exact Hx|]. apply mem_of_live; simpl; rewrite ?Hst; try done; set_solver. }
  assert (Hmr : ∀ k, mem_same (m_k m) (upd p (resumed k) b)).
  { intros k. eapply mem_same_trans; [exact Hmb|]. eapply mem_upd; [exact Hb|]. by destruct k. }
  set (h0 := (k_hw (enter m c)) <| h_cpu ::= dispatch_cpu p x |>).
  set (h1 := h <| h_cpu ::= dispatch_cpu p x |>) in *.
  assert (Hl0 : lock_taken h0 h1) by (by apply lock_taken_dispatch).
  assert (Hst0 : p_state x0 = RUNNABLE) by congruence.
  wp_step. eapply (resume_locked_spec h0 true p (p_context x)); [exact W1| |exact Hl0|exact Hb|done|done| |].
  { split; [done|]. apply (disc_cpu h [LPtable] true (dispatch_cpu p x)); [done|by intros []]. }
  { unfold resumable in Hres. destruct (p_context x); try done.
    apply (freeable_dispatched (enter m c)); [done|]. unfold aged. by destruct (_ <=? _). }
  intros r s2 Hr.
  assert (Hrun : ∀ b' h' L' s e' pend, lock_cycled h0 h' → disc h' [] e' → wf None (b' <| k_hw := h' |>) L' s →
    quiet b b' → covers b b' → minv (back m i s pend (m_own m)) L').
  { intros. by eapply (entered_runs m L i c p x0 _ Hm Hc Hcn Hx0 Hst0 b Hqb Hcb Hb eq_refl Hpg h0). }
  assert (Hres1 : ∀ k, quiet b (upd p (resumed k) b)).
  { intros k. apply quiet_upd. intros y _. apply quiet1_same; by destruct k; auto. }
  assert (Hret : ∀ k, r = Ret k ∧ (∃ h' e', disc h' [] e' ∧ lock_cycled h0 h' ∧
      wf None ((upd p (resumed k) b) <| k_hw := h' |>)
        (to_head SRunning p (take_off (home x) p (aged_queues (enter m c) L))) s2) →
    wp (match r with Ret k => mret (Some k) | Gone => scheduler_back kpgdir;; mret None end)
      (λ _ s, pres m i (m_own m) s) s2).
  { intros k (-> & h' & e' & D' & Hl' & W'). wp_step. split; [eapply mem_step; [exact W'|apply Hmr]|]. eexists. intros pend.
    eapply (Hrun (upd p (resumed k) b)); [exact Hl'|exact D'|exact W'|apply Hres1|apply covers_upd]. }
  destruct (p_context x) as [|ie|lk ie|ie|ie] eqn:Hctx; unfold resume_act in Hr.
  1, 2, 3, 5: destruct Hr as (-> & h' & D' & Hl' & W'); first [done | (eapply Hret; split; [done|]; by eexists _, _)].
  destruct Hr as (r' & -> & Ha). unfold wait_act in Ha.
  destruct (find _ _) as [q|] eqn:Hq.
  - destruct Ha as (y & h' & env & Hy & -> & D' & Hl' & Hfr & W'). wp_step.
    apply find_elem in Hq as [Hq _].
    destruct (wf_member _ _ _ _ _ _ W1 Hq) as (z & Hz1 & Hh & _). simpl in Hz1. fold b in Hz1.
    assert (Hzs : p_state z = ZOMBIE) by (unfold home in Hh; by destruct (p_state z)).
    assert (Hqp : q ≠ p) by (intros ->; assert (z = dispatched (k_ticks (m_k m)) x) as -> by congruence; done).
    split. { eapply mem_trans_wf; [exact W'|]. eapply mem_trans_same; [apply (Hmr (RWait ie))|].
      eapply (reaped_mem (upd p (resumed (RWait ie)) b)); [exact Hy| | |exact Hfr].
      - change (k_procs (upd p (resumed (RWait ie)) b) !! q = Some y) in Hy. rewrite (lookup_upd_ne b p q _ z) in Hy by done. congruence.
      - exact (wf_slot _ _ _ _ q z W1 Hz1). }
    eexists. intros pend.
    eapply (Hrun ((upd q reaped (upd p (resumed (RWait ie)) b)) <| k_env := env |>));
      [exact Hl'|exact D'|exact W'| |].
    + eapply quiet_but_trans; [apply (Hres1 (RWait ie))|].
      apply (quiet_upd (upd p (resumed (RWait ie)) b)). intros z' Hz'.
      rewrite (lookup_upd_ne b p q _ z) in Hz' by done. injection Hz' as <-. apply quiet1_same; auto.
    + intros q' Hq'. apply (covers_upd q reaped). by apply covers_upd.
  - destruct Ha as (x' & _ & Ha). destruct (_ && _).
    + destruct Ha as (-> & h' & D' & Hl' & W'). wp_step.
      eapply scheduler_back_spec; [exact W'|exact D'|]. intros h2 s3 D2 Hl2 W2. wp_step.
      split. { eapply mem_step; [exact W2|]. eapply mem_same_trans; [apply (Hmr (RWait ie))|].
        refine (mem_upd p _ (upd p (resumed (RWait ie)) b) _ (lookup_upd _ _ _ _ Hb) _). by apply slept_mem. }
      eexists. intros pend.
      assert (Hq2 : quiet_but (Some p) (m_k m) (upd p (resumed (RWait ie)) b))
        by (eapply quiet_but_trans; [exact Hqb|apply quiet_but_upd]).
      assert (Hc2 : covers (m_k m) (upd p (resumed (RWait ie)) b))
        by (intros q' Hq'; by apply covers_upd, Hcb).
      eapply (entered_sleeps m L i c p x0 _ Hm Hc Hcn Hx0 Hst0 _ Hq2 Hc2 (lookup_upd _ _ _ _ Hb) Hpg
        h0 eq_refl eq_refl); [exact Hl'|exact D2|exact Hl2|exact W2].
    + destruct Ha as (-> & h' & D' & Hl' & W'). apply (Hret (RWait ie)). split; [done|]. by exists h', ie.
Qed.

(** ** What is left after the release of ptable.lock *)

Lemma envop_inv {A} (op : M E A) s a s' : envop op s = Done a s' → ∃ env, s' = s <| k_env := env |>.
Proof. unfold envop, lift. destruct (op (k_env s)); naive_solver. Qed.

Lemma forkret_rest_inv s s' : forkret_rest s = Done tt s' →
  ∃ f env, s' = s <| k_first := f |> <| k_env := env |>.
Proof.
  unfold forkret_rest, gets, mbind, M_bind. destruct (k_first s) eqn:Hf.
  - simpl. intros H. destruct (envop e_iinit _) as [[] s1| | | |] eqn:H1; try done.
    apply envop_inv in H1 as [e1 ->]. apply envop_inv in H as [e2 ->]. by eexists _, _.
  - intros [= <-]. exists (k_first s), (k_env s). by destruct s.
Qed.

Lemma rest_pres m L i c k s :
  minv m L → m_cpus m !! i = Some c → resume_rest k (enter m c) = Done tt s → kept m i (m_own m) s.
Proof.
  intros Hm Hc Hs.
  assert (Hsame : ∀ f env, kept m i (m_own m) ((enter m c) <| k_first := f |> <| k_env := env |>)).
  { intros f env. eapply (still_pres _ _ _ _ ((m_k m) <| k_first := f |> <| k_env := env |>)); [exact Hm|exact Hc| | |].
    - refine (wf_free _ _ _ _ (λ s, s <| k_first := f |> <| k_env := env |>) _
        (wf_enter _ _ c (mi_wf _ _ Hm))). done.
    - by apply quiet_refl.
    - by intros q. }
  assert (Hid : enter m c = (enter m c) <| k_first := k_first (m_k m) |> <| k_env := k_env (m_k m) |>).
  { unfold enter. by destruct (m_k m). }
  destruct k as [| |lk| |]; simpl in Hs; try (injection Hs as <-; rewrite Hid; apply Hsame).
  - apply forkret_rest_inv in Hs as (f & env & ->). apply Hsame.
  - unfold sleep_reacquire in Hs. case_decide; [injection Hs as <-; rewrite Hid; apply Hsame|].
    destruct lk as [l|]; [|injection Hs as <-; rewrite Hid; apply Hsame].
    eapply (proj2 (A := mem_trans _ _)), (acquire_pres m L i c l); [exact Hm|exact Hc|congruence|exact Hs].
Qed.

(** ** The invariant *)

(** A step keeps the invariant; it is a section, or [R] holds of it. *)
Lemma mstep_pres (R : mach (E:=E) → mach (E:=E) → Prop) m m' L : minv m L → mstep R m m' → (∃ L', minv m' L') ∧ (mem_trans (m_k m) (m_k m') ∨ R m m').
Proof.
  assert (Hpres : ∀ i own s pend, pres m i own s →
    (∃ L', minv (back m i s pend own) L') ∧ (mem_trans (m_k m) (m_k (back m i s pend own)) ∨ R m (back m i s pend own))).
  { intros i own s pend [Hmt [L' H]]. split; [by exists L'|by left]. }
  assert (Hkept : ∀ i own s pend, kept m i own s → R m (back m i s pend own) →
    (∃ L', minv (back m i s pend own) L') ∧ (mem_trans (m_k m) (m_k (back m i s pend own)) ∨ R m (back m i s pend own))).
  { intros i own s pend [L' H] HR. split; [by exists L'|by right]. }
  intros Hm Hstep. destruct Hstep as
    [i c e r s Hc Hp Hpe D Hz Hs|i c k s Hc Hk Hs HR|i c p e s Ha Hs|i c p e ch lk s Ha Hlk Hs
    |i c p e s Ha Ho Hs|i c p e s Ha Ho Hz Hs|i c ch s Hc Hs|i c p held e pid r s Ha Hs
    |i c p held e pid pr r s Ha Hs|i c p held e uid r s Ha Hs|i c p held e gid r s Ha Hs|i c p held e r s Ha Ho Hs|i c p held e np s Ha Ho Hs
    |i c p held e np y s Ha Ho Hy Hpr Hpg Hctx Hs HR|i c p held e np f s Ha Ho Hf Hs
    |i c p held e f s Ha Hf Hpg Hs HR|i c env Hc HR|i c s Hc Hs|i c l s Hc Hl Hs|i c l s Hc Hl Hs];
    first [apply Hkept; [|exact HR]|apply Hpres]; try (pose proof (proj1 Ha) as Hc);
    try (refine (wp_inv _ (λ _ s, pres m i (m_own m) s) _ _ _ _ Hs)).
  - by eapply sched_pres.
  - by eapply rest_pres.
  - by eapply yield_pres.
  - by eapply sleep_pres.
  - by eapply exit_pres.
  - by eapply wait_pres.
  - by eapply wakeup_pres.
  - by eapply kill_pres.
  - by eapply setpriority_pres.
  - eapply setuid_pres; [done|done|apply Ha].
  - eapply setuid_pres; [done|done|apply Ha].
  - refine (wp_inv _ (λ r s, pres m i (match r with Some np => <[p := np]> (m_own m) | None => m_own m end) s)
      _ _ _ _ Hs). by eapply alloc_pres.
  - refine (wp_inv _ (λ _ s, pres m i (delete p (m_own m)) s) _ _ _ _ Hs). by eapply undo_pres.
  - refine (wp_inv _ (λ _ s, kept m i (delete p (m_own m)) s) _ _ _ _ Hs). by eapply publish_pres.
  - by eapply child_pres.
  - refine (wp_inv _ (λ _ s, kept m i (m_own m) s) _ _ _ _ Hs). eapply self_pres; [done|done|apply Ha|done|done].
  - by eapply env_pres.
  - by eapply tick_pres.
  - unfold wp. rewrite Hs. by eapply acquire_pres.
  - unfold wp. rewrite Hs. by eapply release_pres.
Qed.
End steps.
