(* ===== verification/ProcCheck.v ===== *)
(** * Executable well-formedness of the process table

    [queue s sl] follows the links of [s] from the head of [sl], and
    [wf_check s] decides that these queues are the representation of a
    well-formed table. It is what the concrete states of the development are
    checked with; [table] builds such states. *)

From S2P Require Import Prelude Mem Spinlock Str Proc ProcOps ProcLists ProcInv.

(** The slots visited from [h], at most [fuel] of them. *)
Fixpoint follow (fuel : nat) (nx : list (option nat)) (h : option nat) : list nat :=
  match fuel, h with
  | S n, Some p => match nx !! p with Some h' => p :: follow n nx h' | None => [p] end
  | _, _ => []
  end.

Fixpoint lseg_check (nx : list (option nat)) (h : option nat) (l : list nat) : bool :=
  match l, h with
  | [], None => true
  | p :: l, Some q =>
    bool_decide (p = q) && match nx !! p with Some h' => lseg_check nx h' l | None => false end
  | _, _ => false
  end.

Lemma lseg_check_sound nx h l : lseg_check nx h l = true → lseg nx h l.
Proof.
  unfold lseg. revert h. induction l as [|p l IH]; intros [q|]; simpl; try done.
  intros [Hq%bool_decide_eq_true Hl]%andb_true_iff. subst q. split; [done|].
  destruct (nx !! p) as [h'|]; [|done]. exists h'. split; [done|]. by apply IH.
Qed.

Definition all_lists : list slist :=
  [SFree; SSleep; SZombie; SRunning; SEmbryo] ++ (SReady <$> seq 0 (S (Z.to_nat MAX))).

Lemma all_lists_valid sl : sl ∈ all_lists ↔ valid sl.
Proof.
  unfold all_lists. rewrite elem_of_app, list_elem_of_fmap. split.
  - intros [H|(i & -> & Hi%elem_of_seq)]; [|simpl; lia].
    by repeat (apply elem_of_cons in H as [->|H]; [done|]); apply not_elem_of_nil in H.
  - intros Hv. destruct sl as [i| | | | |]; try (left; set_solver).
    right. exists i. split; [done|]. apply elem_of_seq. split; [lia|exact Hv].
Qed.

Section check.
Context {E : Type}.
Implicit Types (s : kstate E) (p : nat).

Definition queue s (sl : slist) : list nat :=
  match head_of sl (k_lists s) with Some h => follow NPROC (nexts s) h | None => [] end.

Definition list_check s (sl : slist) : bool :=
  match head_of sl (k_lists s) with
  | Some h => lseg_check (nexts s) h (queue s sl) && bool_decide (NoDup (queue s sl))
  | None => false
  end.

Definition proc_check s p (x : proc) : bool :=
  (0 <=? p_prio x) && (p_prio x <=? MAX) &&
  forallb (λ sl, eqb (bool_decide (p ∈ queue s sl)) (bool_decide (sl = home x))) all_lists.

Definition wf_check s : bool :=
  bool_decide (length (k_procs s) = NPROC) &&
  bool_decide (length (l_ready (k_lists s)) = S (Z.to_nat MAX)) &&
  forallb (list_check s) all_lists &&
  forallb (λ px, proc_check s (fst px) (snd px)) (imap pair (k_procs s)).

Lemma queue_invalid s sl :
  length (l_ready (k_lists s)) = S (Z.to_nat MAX) → ¬ valid sl → queue s sl = [].
Proof.
  intros Hl Hv. destruct sl as [i| | | | |]; simpl in Hv; try tauto.
  unfold queue. simpl. rewrite (proj2 (lookup_ge_None _ _)); [done|lia].
Qed.

Lemma forallb_elem {A} (f : A → bool) l x : forallb f l = true → x ∈ l → f x = true.
Proof. intros H Hx. apply (proj1 (forallb_forall f l) H). by apply list_elem_of_In. Qed.

Lemma proc_check_sound s p x :
  length (l_ready (k_lists s)) = S (Z.to_nat MAX) → proc_check s p x = true →
  prio_ok x ∧ ∀ sl, p ∈ queue s sl ↔ sl = home x.
Proof.
  intros Hl [[H1 H2]%andb_true_iff H3]%andb_true_iff.
  assert (Hp : prio_ok x) by (unfold prio_ok; zlia). split; [done|]. intros sl.
  destruct (decide (valid sl)) as [Hv|Hv].
  - pose proof (forallb_elem _ _ sl H3 (proj2 (all_lists_valid sl) Hv)) as Hs.
    cbv beta in Hs. apply eqb_prop in Hs.
    by rewrite <- (bool_decide_eq_true (p ∈ _)), Hs, bool_decide_eq_true.
  - rewrite queue_invalid by done. split; [set_solver|]. intros ->. by destruct Hv; apply home_valid.
Qed.

Lemma wf_check_sound s : wf_check s = true → wf None s (queue s) s.
Proof.
  unfold wf_check. rewrite !andb_true_iff, !bool_decide_eq_true. intros [[[Hn Hr] Hl] Hp].
  assert (Hh : ∀ p x, k_procs s !! p = Some x → prio_ok x ∧ ∀ sl, p ∈ queue s sl ↔ sl = home x).
  { intros p x Hx. apply proc_check_sound; [done|].
    apply (forallb_elem _ _ (p, x) Hp). apply list_elem_of_lookup. exists p.
    by rewrite list_lookup_imap, Hx. }
  assert (Hs : ∀ sl, valid sl → ∃ h, head_of sl (k_lists s) = Some h ∧ lseg (nexts s) h (queue s sl) ∧
    NoDup (queue s sl)).
  { intros sl Hv%all_lists_valid. pose proof (forallb_elem _ _ _ Hl Hv) as Hc. unfold list_check in Hc.
    destruct (head_of sl (k_lists s)) as [h|]; [|done]. exists h.
    apply andb_true_iff in Hc as [Hc Hd%bool_decide_eq_true]. split_and!; [done| |done].
    by apply lseg_check_sound. }
  assert (Hin : ∀ sl p, p ∈ queue s sl → ∃ x, k_procs s !! p = Some x).
  { intros sl p Hq. destruct (decide (valid sl)) as [Hv|Hv]; [|by rewrite queue_invalid in Hq; set_solver].
    destruct (Hs sl Hv) as (h & _ & Hseg & _). apply lookup_lt_is_Some.
    pose proof (lsegto_bound _ _ _ _ _ Hseg Hq) as Hb. unfold nexts in Hb. by rewrite length_fmap in Hb. }
  split.
  - apply rep_self. split; [done|done| | | |].
    + intros sl Hv. destruct (Hs sl Hv) as (h & ? & ? & _). by exists h.
    + intros sl. destruct (decide (valid sl)) as [Hv|Hv]; [|rewrite queue_invalid by done; constructor].
      by destruct (Hs sl Hv) as (? & ? & ? & ?).
    + intros sl1 sl2 p Hp1 Hp2. destruct (Hin _ _ Hp1) as [x Hx].
      transitivity (home x); [|symmetry]; by apply (Hh p x Hx).
    + intros sl Hv. by apply queue_invalid.
  - intros p x Hx. destruct (Hh p x Hx) as [Hpr Hq]. split; [done|]. intros sl. rewrite Hq. naive_solver.
Qed.

(** ** Concrete tables *)

(** [table e ps l]: the processes [ps] in the first slots, the other slots
    on the free list in order. *)
Definition table (e : E) (h : hw) (ps : list proc) (l : StateLists) : kstate E :=
  let n := length ps in
  let free := (λ i, proc_zero <| p_next := if decide (S i = NPROC) then None else Some (S i) |>)
                <$> seq n (NPROC - n) in
  mkK h (ps ++ free) (l <| l_free := if decide (n = NPROC) then None else Some n |>)
    TICKS_TO_PROMOTE (Some 0%nat) 10 false 0 e.
End check.

(** No list but the free one. *)
Definition no_lists : StateLists := mkLists (replicate (S (Z.to_nat MAX)) None) None None None None None.

Definition idle0 (i : nat) : cpu := mkCpu i 0 false true None 0 0.
Definition unlocked : lockid → spinlock := λ _, mkLock false None.
