(* ===== verification/ProcP0.v ===== *)
(** * The list code against the original table scans (proc.c)

    proc.c keeps, for builds without CS333_P3P4, the original wakeup1() and
    kill() that scan ptable.proc and know no lists. They serve as reference:
    the list versions end with the same processes, up to the links. *)

From S2P Require Import Prelude Mem Spinlock Str Proc ProcOps ProcLists ProcInv ProcSpec ProcScan ProcCheck.

Section p0.
Context {E : Type} `{!KEnv E}.
Abbreviation K := (M (kstate E)).
Implicit Types (s : kstate E) (L : slist → list nat) (p q : nat) (x : proc).

(** [for(p = ptable.proc; p < &ptable.proc[NPROC]; p++) body] with [n]
    slots left, the body returning from the function with [Some]. *)
Fixpoint for_table {R} (p n : nat) (body : nat → K (option R)) : K (option R) :=
  match n with
  | O => mret None
  | S n => r ← body p; match r with Some v => mret (Some v) | None => for_table (S p) n body end
  end.

Definition wakeup1_p0 (ch : chan) : K unit :=
  for_table (R:=unit) 0 NPROC (λ p,
    x ← rd p;
    (if decide (p_state x = SLEEPING ∧ p_chan x = ch)
     then wr p (λ x, x <| p_state := RUNNABLE |>) else mret tt);;
    mret None);;
  mret tt.

Definition kill_slot (pid : Z) (p : nat) : K (option Z) :=
  x ← rd p;
  if p_pid x =? u32 pid then
    wr p (λ x, x <| p_killed := 1 |>);;
    x ← rd p;
    (if decide (p_state x = SLEEPING) then wr p (λ x, x <| p_state := RUNNABLE |>) else mret tt);;
    release_pt;;
    mret (Some 0)
  else mret None.

Definition kill_p0 (pid : Z) : K Z :=
  acquire_pt;;
  r ← for_table 0 NPROC (kill_slot pid);
  match r with
  | Some v => mret v
  | None => release_pt;; mret (-1)
  end.

(** ** What the scans compute *)

(** The first slot from [p] that satisfies [P]. *)
Definition first_slot (P : nat → bool) (p n : nat) : option nat := find P (seq p n).

Lemma procs_eq s f g : f (k_procs s) = g (k_procs s) → s <| k_procs ::= f |> = s <| k_procs ::= g |>.
Proof. intros H. destruct s. unfold field_upd. simpl in *. by f_equal. Qed.

Lemma wr_done s p f x : k_procs s !! p = Some x → wr p f s = Done tt (upd p f s).
Proof.
  intros Hx. unfold wr. rewrite Hx, upd_unfold. f_equal. apply procs_eq. apply list_eq. intros q. destruct (decide (p = q)) as [->|].
  - rewrite list_lookup_insert_eq by (by eapply lookup_lt_Some).
    by rewrite list_lookup_alter_eq, Hx.
  - by rewrite list_lookup_insert_ne, list_lookup_alter_ne.
Qed.

(** Waking slots [p] to [p + n - 1]. *)
Definition wake_from (ch : chan) (p n : nat) (ps : list proc) : list proc :=
  imap (λ q x, if decide (p ≤ q < p + n)%nat then woken ch x else x) ps.

Lemma wake_scan ch p n s :
  (p + n ≤ length (k_procs s))%nat →
  for_table (R:=unit) p n (λ p,
    x ← rd p;
    (if decide (p_state x = SLEEPING ∧ p_chan x = ch)
     then wr p (λ x, x <| p_state := RUNNABLE |>) else mret tt);;
    mret None) s = Done None (s <| k_procs ::= wake_from ch p n |>).
Proof.
  revert p s. induction n as [|n IH]; intros p s Hp; simpl.
  - unfold mret, M_ret. f_equal. transitivity (s <| k_procs ::= λ ps, ps |>); [by destruct s|].
    apply procs_eq, list_eq. intros q. unfold wake_from. rewrite list_lookup_imap.
    destruct (k_procs s !! q); simpl; [|done]. by rewrite decide_False by lia.
  - destruct (lookup_lt_is_Some_2 (k_procs s) p) as [x Hx]; [lia|].
    assert (Hstep : ∀ f, f (k_procs s) = alter (woken ch) p (k_procs s) →
      (s <| k_procs ::= f |>) <| k_procs ::= wake_from ch (S p) n |> = s <| k_procs ::= wake_from ch p (S n) |>).
    { intros f Hf. apply (procs_eq s (λ ps, wake_from ch (S p) n (f ps))). rewrite Hf.
      unfold wake_from. apply list_eq. intros q. rewrite !list_lookup_imap, list_lookup_alter.
      destruct (decide (p = q)) as [<-|Hd].
      - rewrite Hx. simpl. rewrite decide_False by lia. by rewrite decide_True by lia.
      - destruct (k_procs s !! q); simpl; [|done]. by case_decide; case_decide; try lia. }
    assert (Hrd : rd p s = Done x s) by (unfold rd; by rewrite Hx).
    destruct (decide (p_state x = SLEEPING ∧ p_chan x = ch)) as [Hw|Hw].
    + erewrite bind_done; [|erewrite bind_done by exact Hrd; rewrite decide_True by done;
        erewrite bind_done by exact (wr_done _ _ _ _ Hx); reflexivity].
      simpl. rewrite IH; [|rewrite upd_unfold; simpl; rewrite length_alter; lia].
      f_equal. rewrite upd_unfold. apply (Hstep (alter _ p)).
      apply list_eq. intros q. rewrite !list_lookup_alter. destruct (decide (p = q)) as [<-|]; [|done].
      rewrite Hx. simpl. unfold woken. by rewrite decide_True.
    + erewrite bind_done; [|erewrite bind_done by exact Hrd; rewrite decide_False by done; reflexivity].
      simpl. rewrite IH by lia. f_equal. rewrite <- (Hstep (λ ps, ps)); [by destruct s|].
      apply list_eq. intros q. rewrite list_lookup_alter. destruct (decide (p = q)) as [<-|]; [|done].
      rewrite Hx. simpl. unfold woken. by rewrite decide_False.
Qed.

Lemma wakeup1_p0_done ch s : length (k_procs s) = NPROC → wakeup1_p0 ch s = Done tt (wake ch s).
Proof.
  intros Hn. unfold wakeup1_p0. erewrite bind_done by (apply wake_scan; lia).
  unfold mret, M_ret, wake. f_equal. apply procs_eq.
  unfold wake_from. apply list_eq. intros q. rewrite list_lookup_imap, list_lookup_fmap.
  destruct (k_procs s !! q) eqn:Hq; simpl; [|done]. apply lookup_lt_Some in Hq. by rewrite decide_True by lia.
Qed.

Lemma kill_slot_spec held e pid p x s :
  k_procs s !! p = Some x → disc (k_hw s) (LPtable :: held) e →
  wp (kill_slot pid p) (λ r s',
    if p_pid x =? u32 pid then r = Some 0 ∧ k_procs s' = alter killed p (k_procs s)
    else r = None ∧ s' = s) s.
Proof.
  intros Hx D. unfold kill_slot. wp_step. apply (wp_rd _ _ _ _ Hx).
  destruct (p_pid x =? u32 pid); [|by wp_step].
  assert (Hrel : ∀ f, f x = killed x → wp (release_pt;; mret (Some 0))
    (λ r s', r = Some 0 ∧ k_procs s' = alter killed p (k_procs s)) (upd p f s)).
  { intros f Hf. wp_step. unfold release_pt, hwop. apply wp_lift. rewrite upd_unfold.
    eapply release_spec; [exact D|]. intros h' _ _ _. wp_steps. split; [done|]. simpl.
    apply list_eq. intros q. rewrite !list_lookup_alter. destruct (decide (p = q)) as [<-|]; [|done].
    rewrite Hx. simpl. by rewrite Hf. }
  assert (Hx' : k_procs (upd p (λ x, x <| p_killed := 1 |>) s) !! p = Some (x <| p_killed := 1 |>))
    by (by apply lookup_upd).
  wp_step. apply wp_done. eexists _, _. split; [exact (wr_done _ _ _ _ Hx)|].
  wp_step. apply (wp_rd _ _ _ _ Hx'). simpl. unfold killed at 1 in Hrel.
  wp_step. destruct (decide (p_state x = SLEEPING)).
  - apply wp_done. eexists _, _. split; [exact (wr_done _ _ _ _ Hx')|]. rewrite upd_upd. by apply Hrel.
  - wp_step. by apply Hrel.
Qed.

Lemma kill_scan held e pid p n s :
  (p + n ≤ length (k_procs s))%nat → disc (k_hw s) (LPtable :: held) e →
  wp (for_table p n (kill_slot pid)) (λ r s',
      match first_slot (has_pid s pid) p n with
      | Some q => r = Some 0 ∧ k_procs s' = alter killed q (k_procs s)
      | None => r = None ∧ s' = s
      end) s.
Proof.
  intros Hp D. revert p Hp. induction n as [|n IH]; intros p Hp; simpl; [done|].
  destruct (lookup_lt_is_Some_2 (k_procs s) p) as [x Hx]; [lia|].
  unfold first_slot. simpl. unfold has_pid at 1. rewrite Hx.
  wp_step. eapply wp_mono; [by eapply kill_slot_spec|]. cbv beta. intros r s' H.
  destruct (p_pid x =? u32 pid); destruct H as [-> H]; [by wp_step|]. subst s'. apply IH. lia.
Qed.

Lemma kill_p0_spec held e pid s :
  length (k_procs s) = NPROC → disc (k_hw s) held e → lk_locked (h_locks (k_hw s) LPtable) = false →
  wp (kill_p0 pid) (λ r s',
    match first_slot (has_pid s pid) 0 NPROC with
    | Some q => r = 0 ∧ k_procs s' = alter killed q (k_procs s)
    | None => r = -1 ∧ k_procs s' = k_procs s
    end) s.
Proof.
  intros Hn D Hf. unfold kill_p0. wp_step. unfold acquire_pt, hwop. apply wp_lift.
  eapply acquire_spec; [done..|]. intros h D' _ _. wp_step.
  eapply wp_mono; [eapply (kill_scan held e); [simpl; lia|exact D']|]. cbv beta. intros r s' H.
  change (has_pid (s <| k_hw := h |>) pid) with (has_pid s pid) in H.
  destruct (first_slot _ _ _) as [q|]; destruct H as [-> H]; [by wp_step|].
  subst s'. wp_step. unfold release_pt, hwop. apply wp_lift. eapply release_spec; [exact D'|].
  intros h' _ _ _. by wp_step.
Qed.

(** ** The two searches agree *)

Lemma find_unique (P : nat → bool) l1 l2 :
  (∀ q, P q = true → q ∈ l1 ↔ q ∈ l2) → (∀ q r, P q = true → P r = true → q = r) →
  find P l1 = find P l2.
Proof.
  intros Hm Hu. destruct (find P l1) as [q|] eqn:H1.
  - apply find_elem in H1 as [Hq HP]. destruct (find P l2) as [r|] eqn:H2.
    + apply find_elem in H2 as [_ Hr]. f_equal. by apply Hu.
    + apply Hm in Hq; [|done]. apply find_none with (x:=q) in H2; [congruence|by apply list_elem_of_In].
  - destruct (find P l2) as [r|] eqn:H2; [|done]. apply find_elem in H2 as [Hr HP].
    apply Hm in Hr; [|done]. apply find_none with (x:=r) in H1; [congruence|by apply list_elem_of_In].
Qed.

Lemma elem_of_kill_order a L s q x :
  wf None a L s → k_procs a !! q = Some x → q ∈ kill_order L ↔ p_state x ≠ UNUSED.
Proof.
  intros W Hx. pose proof (proj2 W q x Hx) as [Hpr Hq].
  unfold kill_order, all_ready. rewrite !elem_of_app, elem_of_ready_order, !Hq. unfold home in *. split.
  - intros [(j & _ & Hj)|H] Hs; [apply Hq in Hj|]; rewrite Hs in *; [by destruct Hj|].
    by repeat destruct H as [H|H]; destruct H.
  - unfold prio_ok in Hpr. destruct (p_state x); intros Hs; [done|..]; [|do 4 right|left|right; left|do 3 right; left].
    + right; right; left. done.
    + done.
    + exists (Z.to_nat (p_prio x)). unfold MAX in *. split; [lia|]. by apply Hq.
    + done.
    + done.
Qed.

Lemma kill_finds a L s pid :
  wf None a L s →
  (∀ q x, k_procs a !! q = Some x → p_pid x = u32 pid → p_state x ≠ UNUSED) →
  (∀ q r, has_pid a pid q = true → has_pid a pid r = true → q = r) →
  find (has_pid a pid) (kill_order L) = first_slot (has_pid a pid) 0 NPROC.
Proof.
  intros W Hl Hu. unfold first_slot. apply find_unique; [|done]. intros q Hq. rewrite elem_of_seq.
  unfold has_pid in Hq. destruct (k_procs a !! q) as [x|] eqn:Hx; [|done]. apply Z.eqb_eq in Hq.
  rewrite (elem_of_kill_order _ _ _ _ _ W Hx). split; [|intros _; by eapply Hl].
  intros _. pose proof (rep_some _ _ _ _ _ (proj1 W) Hx). lia.
Qed.

Lemma wf_core a L s : wf None a L s → core <$> k_procs s = core <$> k_procs a.
Proof. intros [[(ps & ls & -> & Hc) _] _]. done. Qed.
End p0.
