(* ===== verification/ProcThms.v ===== *)
(** * Theorems about processes (proc.c)

    The properties of the process component, each with an instance at a
    concrete table. [demo] is a table with a process in every state; its
    environment is the instance [demo_env] of the interface [KEnv]. *)

From S2P Require Import Prelude Mem Spinlock Str Proc ProcOps ProcLists ProcInv ProcSpec ProcScan ProcSched ProcExit ProcFork ProcBoot Machine MachineSteps ProcCheck ProcP0.

Definition completes {S A} (m : M S A) (s : S) : Prop := ∃ r s', m s = Done r s'.

Lemma wp_completes {S A} (m : M S A) Q s : wp m Q s → completes m s.
Proof. intros (r & s' & H & _)%wp_done. by exists r, s'. Qed.

(** ** A concrete environment and table *)

(** The environment counts the pages it has handed out. *)
#[export] Instance demo_env : KEnv nat := {|
  e_kalloc := λ n, Done (2147483648 + 4096 * Z.of_nat (S n)) (S n);
  e_kfree := λ _ n, Done tt n;
  e_setupkvm := λ n, Done (2147483648 + 4096 * Z.of_nat (S n)) (S n);
  e_inituvm := λ _ n, Done tt (S n);
  e_copyuvm := λ _ _ n, if (n <? 5)%nat then Done (2147483648 + 4096 * Z.of_nat (S n)) (S n) else Done 0 n;
  e_freevm := λ _ n, Done tt n;
  e_allocuvm := λ _ _ sz n, Done sz n;
  e_deallocuvm := λ _ _ sz n, Done sz n;
  e_filedup := λ _ n, Done tt n;
  e_fileclose := λ _ n, Done [] n;
  e_idup := λ _ n, Done tt n;
  e_iput := λ _ n, Done [] n;
  e_begin_op := λ n, Done tt n;
  e_end_op := λ n, Done [] n;
  e_namei_root := λ n, Done (Some 0%nat) n;
  e_iinit := λ n, Done tt n;
  e_initlog := λ n, Done tt n;
|}.

Definition demo_proc (st : procstate) (pid prio : Z) (parent : option nat) (next : option nat) (ch : chan) : proc :=
  proc_zero <| p_state := st |> <| p_pid := pid |> <| p_prio := prio |> <| p_parent := parent |>
    <| p_next := next |> <| p_chan := ch |> <| p_pgdir := 2147500032 |> <| p_kstack := 2147504128 |>
    <| p_cwd := Some 0%nat |> <| p_budget := BUDGET |> <| p_context := RYield true |>.

(** init (slot 0) sleeps in wait(), slot 1 runs on CPU 0, slots 2 and 5 are
    in ready queue 1, slot 3 is a zombie, slot 4 sleeps on the clock. *)
Definition demo_procs : list proc :=
  [ demo_proc SLEEPING 1 0 None None (ChProc 0);
    demo_proc RUNNING 2 0 (Some 0%nat) None ChNull;
    demo_proc RUNNABLE 3 1 (Some 1%nat) (Some 5%nat) ChNull;
    demo_proc ZOMBIE 4 0 (Some 1%nat) None ChNull;
    demo_proc SLEEPING 5 2 (Some 1%nat) (Some 0%nat) ChTicks;
    demo_proc RUNNABLE 6 1 (Some 1%nat) None ChNull ].
Definition demo_lists : StateLists :=
  no_lists <| l_ready := [None; Some 2%nat; None; None; None; None; None] |>
    <| l_sleep := Some 4%nat |> <| l_zombie := Some 3%nat |> <| l_running := Some 1%nat |>.
Definition demo_cpu : cpu := (idle0 0) <| c_proc := Some 1%nat |>.
Definition demo : kstate nat := table 0%nat (mkHw demo_cpu unlocked) demo_procs demo_lists.

Lemma demo_wf : wf None demo (queue demo) demo.
Proof. apply wf_check_sound. vm_compute. reflexivity. Qed.

Lemma unlocked_disc c : c_ncli c = 0 → c_if c = true → disc (mkHw c unlocked) [] true.
Proof.
  intros Hn Hi. split; simpl; [done|constructor| |done|done]. intros l. split; [set_solver|]. naive_solver.
Qed.

Lemma demo_on_cpu : on_cpu (k_hw demo) 1 [] true.
Proof. split; [done|]. by apply unlocked_disc. Qed.

(** The same table seen by an idle CPU. *)
Definition demo_idle : kstate nat := table 0%nat (mkHw (idle0 1) unlocked) demo_procs demo_lists.

Lemma demo_idle_wf : wf None demo_idle (queue demo_idle) demo_idle.
Proof. apply wf_check_sound. vm_compute. reflexivity. Qed.

(** ** Giving up the CPU *)

Section thms.
Context {E : Type} `{!KEnv E}.
Implicit Types (s : kstate E) (L : slist → list nat) (p q : nat) (x : proc).

(** Yield() returns the running process to the tail of the ready queue of
    its priority, after charging its time budget and demoting it by one
    (down to priority MAX) when the budget is used up; it keeps every other
    process and queue as it was, and switches away with ptable.lock held. *)
Theorem yield_correct s L p x e :
  wf None s L s → on_cpu (k_hw s) p [] e → lk_locked (h_locks (k_hw s) LPtable) = false →
  k_procs s !! p = Some x → p_state x = RUNNING →
  let y := yielded (k_ticks s) e x in
  wp yield (λ r s', r = Gone ∧ ∃ h, disc h [LPtable] e ∧ lock_taken (k_hw s) h ∧
    wf None ((upd p (yielded (k_ticks s) e) s) <| k_hw := h |>)
      (to_tail (SReady (Z.to_nat (p_prio y))) p (take_off SRunning p L)) s') s.
Proof.
  intros W Hc Hf Hx Hst y. eapply yield_spec; [exact W|exact Hc|done|exact Hx|done|].
  intros h s' D Hl W'. split; [done|]. exists h. split_and!; [done..|].
  replace (SReady (Z.to_nat (p_prio y))) with (home y); [done|].
  unfold y, home, yielded, leave. simpl. by rewrite charge_state.
Qed.

(** Sleep(chan, lk) puts the caller at the head of the sleep list with its
    channel set, and takes ptable.lock before it gives up [lk]: when it
    switches away it holds ptable.lock and no other lock, so a wakeup() by a
    holder of [lk] cannot come in between. *)
Theorem sleep_correct s L p x e ch lk :
  wf None s L s → on_cpu (k_hw s) p (lock_of lk) e →
  (lk ≠ Some LPtable → lk_locked (h_locks (k_hw s) LPtable) = false) →
  k_procs s !! p = Some x → p_state x = RUNNING →
  wp (sleep ch lk) (λ r s', r = Gone ∧ ∃ h, disc h [LPtable] e ∧ sleep_locks lk (k_hw s) h ∧
    wf None ((upd p (slept (k_ticks s) ch (RSleep lk e)) s) <| k_hw := h |>)
      (to_head SSleep p (take_off SRunning p L)) s') s.
Proof.
  intros W Hc Hf Hx Hst. unfold sleep. wp_step.
  eapply (sleep_spec s L s p x e ch lk (RSleep lk)); [exact W|exact Hc|done|exact Hx|done|].
  intros h s' D Hl W'. wp_step. split; [done|]. by exists h.
Qed.

(** ** Waking and killing, against the table scans *)

(** C24: on a well-formed table wakeup1() over the sleep list does exactly what
    the original scan of the whole table does: the resulting tables are equal
    up to list links, and the lists are well-formed again, with the woken
    processes at the tails of their ready queues in the order of the sleep
    list. *)
Theorem wakeup1_equals_scan s L ch :
  wf None s L s →
  ∃ s1 s2, wakeup1 ch s = Done tt s1 ∧ wakeup1_p0 ch s = Done tt s2 ∧ relisted s2 s1 ∧
    wf None s1 (wake_queues ch (L SSleep) s L) s1.
Proof.
  intros W. assert (Hw : wp (wakeup1 ch) (λ _ s', wf None (wake ch s) (wake_queues ch (L SSleep) s L) s') s).
  { by eapply wakeup1_spec. }
  apply wp_done in Hw as ([] & s1 & H1 & W1). exists s1, (wake ch s). split_and!; [done| |apply W1|].
  - apply wakeup1_p0_done. apply (rep_len s L s), W.
  - by eapply wf_self.
Qed.

(** For a pid that one live process has, or none, kill() over the state
    lists returns the same value as the original scan of the table and leaves
    the same processes, up to list links. *)
Theorem kill_equals_scan s L held e pid :
  wf None s L s → disc (k_hw s) held e → lk_locked (h_locks (k_hw s) LPtable) = false →
  (∀ q x, k_procs s !! q = Some x → p_pid x = u32 pid → p_state x ≠ UNUSED) →
  (∀ q r, has_pid s pid q = true → has_pid s pid r = true → q = r) →
  ∃ r s1 s2, kill pid s = Done r s1 ∧ kill_p0 pid s = Done r s2 ∧
    core <$> k_procs s1 = core <$> k_procs s2.
Proof.
  intros W D Hf Hl Hu.
  pose proof (kill_p0_spec held e pid s (rep_len _ _ _ (proj1 W)) D Hf) as H2.
  assert (H1 : wp (kill pid) (λ r s', match first_slot (has_pid s pid) 0 NPROC with
    | Some q => r = 0 ∧ core <$> k_procs s' = core <$> alter killed q (k_procs s)
    | None => r = -1 ∧ core <$> k_procs s' = core <$> k_procs s end) s).
  { eapply (kill_spec held e); [exact W|exact D|done|]. rewrite (kill_finds _ _ _ _ W Hl Hu).
    destruct (first_slot _ _ _) as [q|].
    - intros s' (_ & h & x & _ & _ & _ & W'). split; [done|]. rewrite (wf_core _ _ _ W').
      rewrite upd_unfold. done.
    - intros h s' _ _ W'. split; [done|]. apply (wf_core _ _ _ W'). }
  apply wp_done in H1 as (r1 & s1 & -> & H1). apply wp_done in H2 as (r2 & s2 & -> & H2).
  exists r1, s1, s2. destruct (first_slot _ _ _); destruct H1 as [-> H1], H2 as [-> H2];
    (split_and!; [done|done|by rewrite H1, H2]).
Qed.

(** ** The scheduler *)

Lemma head_ready_order L i n p :
  head (ready_order L i n) = Some p →
  ∃ j, (i ≤ j < i + n)%nat ∧ p ∈ L (SReady j) ∧ ∀ k, (i ≤ k < j)%nat → L (SReady k) = [].
Proof.
  revert i. induction n as [|n IH]; intros i; simpl; [done|].
  destruct (L (SReady i)) as [|q l] eqn:HL; simpl.
  - intros (j & Hj & Hp & Hk)%IH. exists j. split; [lia|]. split; [done|].
    intros k Hk'. destruct (decide (k = i)) as [->|]; [done|]. apply Hk. lia.
  - intros [= ->]. exists i. rewrite HL. split; [lia|]. split; [set_solver|lia].
Qed.

(** The head of the ready queues has the best priority of all RUNNABLE processes. *)
Lemma best_ready a L s p :
  wf None a L s → head (all_ready L) = Some p →
  ∃ x, k_procs a !! p = Some x ∧ p_state x = RUNNABLE ∧
    ∀ q y, k_procs a !! q = Some y → p_state y = RUNNABLE → p_prio x ≤ p_prio y.
Proof.
  intros W (j & Hj & Hp & Hk)%head_ready_order.
  destruct (in_ready _ _ _ _ _ W Hp) as (x & Hx & Hst & Hpr & _). exists x. split_and!; [done..|].
  intros q y Hy Hs. pose proof (wf_prio _ _ _ _ _ _ W Hy) as Hpy. unfold prio_ok in Hpy.
  destruct (decide (p_prio x ≤ p_prio y)) as [|Hlt]; [done|exfalso].
  assert (Hq : q ∈ L (SReady (Z.to_nat (p_prio y)))).
  { apply (wf_in _ _ _ _ _ _ W Hy). unfold home. by rewrite Hs. }
  rewrite Hk in Hq by lia. set_solver.
Qed.

Lemma no_ready a L s :
  wf None a L s → head (all_ready L) = None → ∀ q y, k_procs a !! q = Some y → p_state y ≠ RUNNABLE.
Proof.
  intros W Hh q y Hy Hs. pose proof (wf_prio _ _ _ _ _ _ W Hy) as Hpy. unfold prio_ok, MAX in Hpy.
  assert (Hq : q ∈ all_ready L).
  { apply elem_of_ready_order. exists (Z.to_nat (p_prio y)). unfold MAX. split; [lia|].
    apply (wf_in _ _ _ _ _ _ W Hy). unfold home. by rewrite Hs. }
  destruct (all_ready L); [set_solver|done].
Qed.

(** C22: one iteration of scheduler(): priorities are adjusted when that is due,
    then the CPU switches to a RUNNABLE process of the numerically smallest
    priority any RUNNABLE process has (the head of the first non-empty ready
    queue), which becomes RUNNING at the head of the running list with its
    page table loaded; with no RUNNABLE process the lock is released and the
    CPU idles with interrupts on. *)
Theorem scheduler_picks_best s L e :
  wf None s L s → disc (k_hw s) [] e → lk_locked (h_locks (k_hw s) LPtable) = false → has_pgdir s →
  wp scheduler (λ r s', sched_act s L e r s' ∧
    match r with
    | Some p => ∃ x, k_procs (aged s L) !! p = Some x ∧ p_state x = RUNNABLE ∧
        ∀ q y, k_procs (aged s L) !! q = Some y → p_state y = RUNNABLE → p_prio x ≤ p_prio y
    | None => ∀ q y, k_procs (aged s L) !! q = Some y → p_state y ≠ RUNNABLE
    end) s.
Proof.
  intros W D Hf Hp.
  assert (Ha : wp (when (k_promote s <=? k_ticks s) prioadjust)
    (λ _ s', wf None (aged s L) (aged_queues s L) s') s) by (by eapply adjust_spec).
  apply wp_done in Ha as (_ & s1 & _ & Wa).
  eapply scheduler_spec; [exact W|exact D|done|done|]. intros r s' Hact. split; [done|].
  destruct Hact as (h & _ & Hact). destruct (head _) as [p|] eqn:Hh, r as [p'|]; try done.
  - destruct Hact as (-> & _). by eapply best_ready.
  - by eapply no_ready.
Qed.

(** Prioadjust() raises every SLEEPING and RUNNING process by one priority,
    but of each ready queue it raises only the head: a process further down a
    ready queue keeps its record, priority included. *)
Theorem prioadjust_raises_heads_only s L :
  wf None s L s →
  wp prioadjust (λ _ s', wf None (s <| k_procs ::= adjusted L |> <| k_promote := u32 (k_ticks s + TICKS_TO_PROMOTE) |>)
    (promote_queues (Z.to_nat MAX) L) s') s ∧
  ∀ i k q x, L (SReady i) !! S k = Some q → k_procs s !! q = Some x → adjusted L (k_procs s) !! q = Some x.
Proof.
  intros W. split; [by eapply prioadjust_spec|]. intros i k q x Hq Hx.
  assert (Hin : q ∈ L (SReady i)) by (by eapply list_elem_of_lookup_2).
  destruct (in_ready _ _ _ _ _ W Hin) as (y & Hy & Hst & Hpr & _).
  assert (y = x) as -> by congruence.
  assert (Hr : raised x = x).
  { unfold raised, on_lists, raise. case_decide; [|done]. by rewrite decide_True. }
  unfold adjusted, promote_procs. rewrite list_lookup_imap, list_lookup_fmap, Hx. simpl. rewrite Hr.
  rewrite decide_False; [done|]. intros (_ & _ & Hh). rewrite Hpr, Nat2Z.id in Hh.
  pose proof (wf_nodup _ _ _ _ (SReady i) W) as Hn. destruct (L (SReady i)) as [|z l]; [done|].
  simpl in *. apply NoDup_cons in Hn as [Hn _]. injection Hh as ->. apply Hn. by eapply list_elem_of_lookup_2.
Qed.

(** Setpriority(pid, prio) rejects a priority outside 0..MAX without
    changing anything; otherwise it finds the ready, running or sleeping
    process with that pid, sets its priority and refills its budget (a process
    already waiting at that priority is left alone), moving a waiting process
    to the tail of its new queue, and returns -1 when there is none. *)
Theorem setpriority_correct s L held e pid pr :
  wf None s L s → disc (k_hw s) held e → lk_locked (h_locks (k_hw s) LPtable) = false →
  (¬ (0 ≤ pr ≤ MAX) → setpriority pid pr s = Done (-1) s) ∧
  (0 ≤ pr ≤ MAX → wp (setpriority pid pr) (λ r s',
    match find (has_pid s pid) (setprio_order L) with
    | Some q => setprio_act (k_hw s) e held pr s L q r s'
    | None => r = -1 ∧ ∃ h, disc h held e ∧ lock_cycled (k_hw s) h ∧ wf None (s <| k_hw := h |>) L s'
    end) s).
Proof.
  intros W D Hf. split; intros Hpr.
  - unfold setpriority. destruct ((pr <? 0) || (MAX <? pr)) eqn:Hb; [done|]. zbool. lia.
  - eapply setpriority_spec; [exact W|exact D|done|done|].
    destruct (find _ _) as [q|]; [done|]. intros h s' Dh Hl W'. split; [done|]. by exists h.
Qed.

(** ** Parents and children *)

(** C26: wait() frees the first zombie child on the zombie list and returns its
    pid, its slot going to the free list; without a zombie child it returns -1
    when the caller has no child at all or was killed, and otherwise sleeps on
    its own process. *)
Theorem wait_correct s L e p x :
  wf None s L s → on_cpu (k_hw s) p [] e → lk_locked (h_locks (k_hw s) LPtable) = false →
  k_procs s !! p = Some x → p_state x = RUNNING → zombies_freeable s →
  wp wait (λ r s', wait_act (k_hw s) e p s L r s') s.
Proof. intros W Hc Hf Hx Hst Hz. by eapply wait_spec. Qed.

Lemma orphaned_parent p i x : i ≠ Some p →
  p_state (orphaned p i x) ≠ UNUSED → p_parent (orphaned p i x) ≠ Some p.
Proof.
  intros Hi. unfold orphaned, adopt. destruct (decide (p_state x = UNUSED)); [done|].
  by destruct (decide (p_parent x = Some p)).
Qed.

Lemma woken_parent ch x : p_parent (woken ch x) = p_parent x ∧ (p_state (woken ch x) ≠ UNUSED → p_state x ≠ UNUSED).
Proof. unfold woken. destruct (decide _) as [[Hs _]|]; simpl; [by rewrite Hs|done]. Qed.

Lemma exit_state_parent p s L x q y : k_initproc s ≠ Some p →
  k_procs (exit_state p s L x) !! q = Some y → p_state y ≠ UNUSED → p_parent y ≠ Some p.
Proof.
  intros Hi Hy Hu. unfold exit_state in Hy. destruct (exit_zombies _ _ _ _); simpl in Hy.
  - apply list_lookup_fmap_Some in Hy as (z & -> & Hz). apply list_lookup_fmap_Some in Hz as (w & -> & _).
    destruct (woken_parent (chan_of (k_initproc s)) (orphaned p (k_initproc s) w)) as [-> Hs].
    by apply orphaned_parent; [|apply Hs].
  - apply list_lookup_fmap_Some in Hy as (w & -> & _). by apply orphaned_parent.
Qed.

(** C25: exit() under ptable.lock: the parent is woken, every child of the
    caller is given to init (which is woken if one of them is a zombie), and
    the caller ends as a ZOMBIE at the head of the zombie list. Afterwards no
    process that is in use has the caller as its parent. *)
Theorem exit_reparents s L e p x :
  wf None s L s → on_cpu (k_hw s) p [] e → lk_locked (h_locks (k_hw s) LPtable) = false →
  k_procs s !! p = Some x → p_state x = RUNNING → k_initproc s ≠ Some p →
  wp (exit_locked p) (λ _ s', ∃ h, disc h [LPtable] e ∧ lock_taken (k_hw s) h ∧
    wf None ((upd p (exited (k_ticks s) e) (exit_state p s L x)) <| k_hw := h |>)
      (to_head SZombie p (take_off SRunning p (exit_queues p s L x))) s' ∧
    ∀ q y, k_procs s' !! q = Some y → p_state y ≠ UNUSED → p_parent y ≠ Some p) s.
Proof.
  intros W Hc Hf Hx Hst Hi. eapply exit_locked_spec; [exact W|exact Hc|done|exact Hx|done|].
  intros h s' D Hl W'. exists h. split_and!; [done..|]. intros q y Hy Hu Hp.
  destruct (relisted_lookup_inv _ _ _ _ (proj1 (proj1 W')) Hy) as (z & Hz & Heq).
  assert (p_state z ≠ UNUSED ∧ p_parent z = Some p) as [Hzu Hzp] by (rewrite Heq in Hu, Hp; done).
  clear Heq Hy Hu Hp. simpl in Hz. apply lookup_upd_inv in Hz as (w & Hw & ->).
  destruct (decide (p = q)) as [->|Hne]; [|by eapply exit_state_parent].
  eapply (exit_state_parent q s L x q w); [done|done| |done].
  pose proof (exit_state_lookup q s L x q x Hx Hst) as Hr.
  assert (w = adopt q (k_initproc s) x) as -> by congruence. unfold adopt.
  destruct (decide _); simpl; by rewrite Hst.
Qed.

(** A fork() that gets a slot, a kernel stack and a copy of the memory
    returns the child's pid, a fresh one, to the parent; the child is the
    parent's copy (size, user registers with %eax = 0, ids, open files,
    directory, name), sits RUNNABLE at the tail of ready queue 0 and starts in
    forkret() with a full budget; the parent is not changed. *)
Theorem fork_correct s L e p x np y l k d cwd nm env1 env2 env3 env4 :
  wf None s L s → on_cpu (k_hw s) p [] e → lk_locked (h_locks (k_hw s) LPtable) = false →
  k_procs s !! p = Some x → p_state x = RUNNING → L SFree = np :: l → k_procs s !! np = Some y →
  e_kalloc (k_env s) = Done k env1 → k ≠ 0 →
  e_copyuvm (p_pgdir x) (p_sz x) env1 = Done d env2 → d ≠ 0 →
  dup_env (p_ofile x) env2 = Done tt env3 → p_cwd x = Some cwd →
  e_idup cwd env3 = Done tt env4 → safestrcpy (p_name y) (p_name x) 16 = Some nm →
  wp fork (λ r s', r = s32 (u32 (k_nextpid s)) ∧ ∃ h, disc h [] e ∧ lock_cycled (k_hw s) h ∧
    wf None ((upd np (λ y, child p x d cwd nm (embryo (k_ticks s) (k_nextpid s) k y)) s)
               <| k_hw := h |> <| k_env := env4 |> <| k_nextpid := s32 (k_nextpid s + 1) |>)
      (to_tail (SReady 0) np (<[SFree := l]> L)) s') s.
Proof.
  intros. eapply fork_spec; try eassumption. intros h s' D Hl W'. split; [done|]. by exists h.
Qed.

(** A fork() that cannot copy the parent's memory returns -1, frees the
    kernel stack it had allocated, and puts the slot back: all queues are as
    before, and no process other than the unused slot is changed. *)
Theorem fork_failure_undone s L e p x np l k env1 env2 env3 :
  wf None s L s → on_cpu (k_hw s) p [] e → lk_locked (h_locks (k_hw s) LPtable) = false →
  k_procs s !! p = Some x → p_state x = RUNNING → L SFree = np :: l →
  e_kalloc (k_env s) = Done k env1 → k ≠ 0 →
  e_copyuvm (p_pgdir x) (p_sz x) env1 = Done 0 env2 → e_kfree k env2 = Done tt env3 →
  wp fork (λ r s', r = -1 ∧ ∃ h, disc h [] e ∧ lock_cycled (k_hw s) h ∧
    wf None ((upd np (unforked (k_ticks s) (k_nextpid s) k) s)
               <| k_hw := h |> <| k_env := env3 |> <| k_nextpid := s32 (k_nextpid s + 1) |>) L s') s.
Proof.
  intros. eapply fork_fail_spec; try eassumption. intros h s' D Hl W'. split; [done|]. by exists h.
Qed.
End thms.

(** ** Instances *)

Lemma yield_correct_witness : completes yield demo.
Proof.
  exact (wp_completes _ _ _ (yield_correct demo _ 1 _ true demo_wf demo_on_cpu eq_refl eq_refl eq_refl)).
Defined.

Lemma sleep_correct_witness : completes (sleep ChTicks None) demo.
Proof.
  exact (wp_completes _ _ _
    (sleep_correct demo _ 1 _ true ChTicks None demo_wf demo_on_cpu (λ _, eq_refl) eq_refl eq_refl)).
Defined.

(** Waking the clock's channel moves slot 4 to ready queue 2. *)
Lemma wakeup1_equals_scan_witness :
  ∃ s1 s2, wakeup1 ChTicks demo = Done tt s1 ∧ wakeup1_p0 ChTicks demo = Done tt s2 ∧ relisted s2 s1 ∧
    wf None s1 (wake_queues ChTicks (queue demo SSleep) demo (queue demo)) s1.
Proof. exact (wakeup1_equals_scan demo (queue demo) ChTicks demo_wf). Defined.

(** Pid 5 is that of slot 4 and of no other slot. *)
Lemma demo_pid5 q : has_pid demo 5 q = true → q = 4%nat.
Proof.
  unfold has_pid. destruct (k_procs demo !! q) as [x|] eqn:Hx; [|done]. intros Hp.
  assert (Hall : forallb (λ qx, implb (p_pid (snd qx) =? 5) (bool_decide (fst qx = 4%nat)))
    (imap pair (k_procs demo)) = true) by (vm_compute; reflexivity).
  assert (Hin : (q, x) ∈ imap pair (k_procs demo)).
  { apply list_elem_of_lookup. exists q. by rewrite list_lookup_imap, Hx. }
  pose proof (forallb_elem _ _ _ Hall Hin) as Hq. simpl in Hq. change (u32 5) with 5 in Hp.
  rewrite Hp in Hq. by apply bool_decide_eq_true in Hq.
Qed.

Lemma kill_equals_scan_witness :
  ∃ r s1 s2, kill 5 demo = Done r s1 ∧ kill_p0 5 demo = Done r s2 ∧
    core <$> k_procs s1 = core <$> k_procs s2.
Proof.
  apply (kill_equals_scan demo (queue demo) [] true 5 demo_wf (proj2 demo_on_cpu) eq_refl).
  - intros q x Hx Hp. assert (q = 4%nat) as ->.
    { apply demo_pid5. unfold has_pid. rewrite Hx, Hp. apply Z.eqb_refl. }
    vm_compute in Hx. injection Hx as <-. done.
  - intros q r Hq Hr. rewrite (demo_pid5 q Hq). symmetry. by apply demo_pid5.
Defined.

Definition runnable_pgdirs (s : kstate nat) : bool :=
  forallb (λ x, implb (bool_decide (p_state x = RUNNABLE)) (negb (p_pgdir x =? 0))) (k_procs s).

Lemma runnable_pgdirs_sound s : runnable_pgdirs s = true → has_pgdir s.
Proof.
  intros H q x Hx Hs. pose proof (forallb_elem _ _ x H (list_elem_of_lookup_2 _ _ _ Hx)) as Hp.
  cbv beta in Hp. rewrite bool_decide_true in Hp by done. simpl in Hp. zbool. done.
Qed.

Lemma scheduler_picks_best_witness : completes scheduler demo_idle.
Proof.
  refine (wp_completes _ _ _ (scheduler_picks_best demo_idle _ true demo_idle_wf
    (unlocked_disc (idle0 1) eq_refl eq_refl) eq_refl _)).
  apply runnable_pgdirs_sound. vm_compute. reflexivity.
Defined.

(** Slot 5 waits behind slot 2 in ready queue 1 and is not raised. *)
Lemma prioadjust_raises_heads_only_witness :
  p_prio <$> adjusted (queue demo) (k_procs demo) !! 2%nat = Some 0 ∧
  p_prio <$> adjusted (queue demo) (k_procs demo) !! 5%nat = Some 1.
Proof.
  split; [vm_compute; reflexivity|].
  erewrite (proj2 (prioadjust_raises_heads_only demo (queue demo) demo_wf) 1%nat 0%nat 5%nat);
    [|vm_compute; reflexivity|reflexivity]. reflexivity.
Defined.

Lemma setpriority_correct_witness : completes (setpriority 6 4) demo ∧ setpriority 6 7 demo = Done (-1) demo.
Proof.
  pose proof (setpriority_correct demo (queue demo) [] true 6 4 demo_wf (proj2 demo_on_cpu) eq_refl) as [_ H1].
  pose proof (setpriority_correct demo (queue demo) [] true 6 7 demo_wf (proj2 demo_on_cpu) eq_refl) as [H2 _].
  split; [eapply wp_completes, H1; unfold MAX; lia|apply H2; unfold MAX; lia].
Defined.

Lemma wait_correct_witness : completes wait demo.
Proof.
  refine (wp_completes _ _ _ (wait_correct demo _ true 1 _ demo_wf demo_on_cpu eq_refl eq_refl eq_refl _)).
  intros q x _ _. done.
Defined.

Lemma exit_reparents_witness : completes (exit_locked 1) demo.
Proof.
  refine (wp_completes _ _ _
    (exit_reparents demo _ true 1 _ demo_wf demo_on_cpu eq_refl eq_refl eq_refl _)). done.
Defined.

Lemma fork_correct_witness : completes fork demo.
Proof.
  eapply wp_completes. eapply (fork_correct demo (queue demo) true 1 _ 6 _ (seq 7 57) _ _ 0 (replicate 16 0)
    1%nat 2%nat 2%nat 2%nat demo_wf demo_on_cpu); [reflexivity..| | | | | | | | |];
    try (vm_compute; reflexivity); vm_compute; done.
Defined.

(** The same table when the environment has no page left for copyuvm(). *)
Definition demo_full : kstate nat := demo <| k_env := 9%nat |>.

Lemma demo_full_wf : wf None demo_full (queue demo_full) demo_full.
Proof. apply wf_check_sound. vm_compute. reflexivity. Qed.

Lemma fork_failure_undone_witness : completes fork demo_full.
Proof.
  eapply wp_completes. eapply (fork_failure_undone demo_full (queue demo_full) true 1 _ 6 (seq 7 57) _
    10%nat 10%nat 10%nat demo_full_wf demo_on_cpu); try (vm_compute; reflexivity); vm_compute; done.
Defined.
