(* ===== verification/MachineThms.v ===== *)
(** * Theorems about the machine (proc.c)

    The invariant of the process table over all CPUs and all interleavings of
    critical sections, that the sections always complete on a memory that
    keeps its promise [KMem], and that userinit() establishes the
    invariant. *)

From S2P Require Import Prelude Mem Spinlock Str Proc ProcOps ProcLists ProcInv ProcSpec ProcScan ProcSched ProcExit ProcFork ProcBoot Machine MachineSteps ProcCheck ProcThms.

Section thms.
Context {E : Type} `{!KEnv E}.
Context (kpgdir : Z) (R : mach (E:=E) → mach (E:=E) → Prop).
Implicit Types (a s : kstate E) (m : mach (E:=E)) (p q np : nat) (x y : proc).

Lemma minv_reachable m0 m L0 : minv m0 L0 → rtc (mstep kpgdir R) m0 m → ∃ L, minv m L.
Proof.
  intros H0 Hr. apply (rtc_invariant (mstep kpgdir R) (λ m, ∃ L, minv m L) m0); [by exists L0| |done].
  intros a b [L Ha] Hs. exact (proj1 (mstep_pres _ _ _ _ _ Ha Hs)).
Qed.

(** What the invariant says about the process table and the CPUs. *)
Definition coherent m : Prop :=
  (∃ L, lists_ok (m_k m) L ∧ ∀ p x, k_procs (m_k m) !! p = Some x → ∀ sl, p ∈ L sl ↔ sl = home x) ∧
  (∀ p, st (m_k m) p = Some RUNNING ↔ ∃ i c, m_cpus m !! i = Some c ∧ c_proc c = Some p) ∧
  (∀ i j c c' p, m_cpus m !! i = Some c → m_cpus m !! j = Some c' →
     c_proc c = Some p → c_proc c' = Some p → i = j).

Lemma minv_coherent m L : minv m L → coherent m.
Proof.
  intros H. split_and!.
  - exists L. destruct (mi_wf _ _ H) as [[_ Hl] Hh]. split; [done|]. intros p x Hx sl.
    rewrite (proj2 (Hh p x Hx)). naive_solver.
  - intros p. split; [apply (mi_current _ _ H)|]. intros (i & c & Hc & Hp). by eapply (mi_running _ _ H).
  - apply (mi_unique _ _ H).
Qed.

(** C1: with any number of CPUs and any interleaving of their critical
    sections, every process is on the state list of its state (for RUNNABLE:
    of its priority) and on no other, each list is a finite chain without
    repetition, a process is RUNNING exactly when it is the current process
    of a CPU, and no process is current on two CPUs. *)
Theorem machine_invariant m0 m L0 : minv m0 L0 → rtc (mstep kpgdir R) m0 m → coherent m.
Proof. intros H0 Hr. destruct (minv_reachable _ _ _ H0 Hr) as [L H]. by eapply minv_coherent. Qed.
End thms.

(** ** The critical sections complete

    Against the interface of the memory, whatever the code between the sections
    does to its own memory, provided it keeps that of the other processes. *)
Section complete.
Context {E : Type} `{!KEnv E} `{!KMem E}.
Context (kpgdir : Z).
Implicit Types (m : mach (E:=E)) (p q np : nat).

Definition mem_inv m : Prop := mem_ok (k_env (m_k m)) (memories (m_k m)).
Definition mem_rely m m' : Prop := mem_inv m → mem_inv m'.

Lemma mem_inv_reachable m0 m L0 : minv m0 L0 → mem_inv m0 → rtc (mstep kpgdir mem_rely) m0 m →
  ∃ L, minv m L ∧ zombies_freeable (m_k m).
Proof.
  intros H0 Hm0 Hr. assert (H : (∃ L, minv m L) ∧ mem_inv m).
  { apply (rtc_invariant (mstep kpgdir mem_rely) (λ m, (∃ L, minv m L) ∧ mem_inv m) m0); [by split; [exists L0|]| |done].
    intros a b [[L Ha] Hma] Hs. destruct (mstep_pres _ _ _ _ _ Ha Hs) as [Hb [Hmt|Hrel]]; (split; [done|]); [by eapply mem_trans_ok|by apply Hrel]. }
  destruct H as [[L HL] Hok]. exists L. split; [done|]. destruct (mi_wf _ _ HL) as [[_ Hl] _]. by eapply mem_ok_zombies.
Qed.

(** What fork() and userinit() have set up before they publish a child. *)
Definition child_ready m np : Prop := ∃ y, k_procs (m_k m) !! np = Some y ∧ p_prio y = 0 ∧ p_pgdir y ≠ 0 ∧ p_context y = RForkret.

(** C2: let the memory of the processes be intact at the start (their kernel
    stacks and page directories are allocated and share no page), and let the
    code that runs between the critical sections keep it so. Then in every
    reachable state of the machine the critical sections of ptable.lock do not
    panic, follow a null pointer, loop or find the lock taken. On a CPU that
    runs a process: yield(), exit() and wait() complete where no lock is held;
    sleep() with or without a lock, where that lock is the only one held;
    kill(), setpriority(), setuid(), setgid() and the three sections of fork()
    (the allocation of a slot, its return on an error, the publication of the
    child) under any locks. On every CPU wakeup() completes, and in the
    scheduler loop so does an iteration of scheduler() with the code of the
    process it switches to. In particular wait() can free each zombie. *)
Theorem sections_complete m0 m L0 i c :
  minv m0 L0 → mem_inv m0 → rtc (mstep kpgdir mem_rely) m0 m → m_cpus m !! i = Some c →
  (∀ p e, active m i c p [] e →
     completes (then_back kpgdir yield) (enter m c) ∧
     completes (then_back kpgdir (exit_locked p)) (enter m c) ∧
     completes (wait_section kpgdir) (enter m c)) ∧
  (∀ p e ch lk, active m i c p (lock_of lk) e → lk ≠ Some LPtable →
     completes (then_back kpgdir (sleep ch lk)) (enter m c)) ∧
  (∀ p held e, active m i c p held e →
     (∀ pid, completes (kill pid) (enter m c)) ∧
     (∀ pid pr, completes (setpriority pid pr) (enter m c)) ∧
     (∀ uid, completes (setuid uid) (enter m c) ∧ completes (setgid uid) (enter m c)) ∧
     match m_own m !! p with
     | None => completes alloc_slot (enter m c)
     | Some np => completes (free_embryo np) (enter m c) ∧ (child_ready m np → completes (fork_publish np) (enter m c))
     end) ∧
  (∀ ch, completes (wakeup ch) (enter m c)) ∧
  (∀ e, c_proc c = None → disc (mkHw c (locks m)) [] e → completes (sched_section kpgdir) (enter m c)).
Proof.
  intros H0 Hm0 Hr Hc. destruct (mem_inv_reachable _ _ _ H0 Hm0 Hr) as (L & H & Hz). split_and!.
  - intros p e Ha. split_and!; eapply wp_completes.
    + by eapply yield_pres.
    + by eapply exit_pres.
    + by eapply wait_pres.
  - intros p e ch lk Ha Hlk. eapply wp_completes. by eapply (sleep_pres _ _ _ _ _ _ _ _ lk).
  - intros p held e (_ & Hp & _). split_and!.
    + intros pid. eapply wp_completes. by eapply kill_pres.
    + intros pid pr. eapply wp_completes. by eapply setpriority_pres.
    + intros uid. by split; eapply wp_completes; eapply setuid_pres.
    + destruct (m_own m !! p) as [np|] eqn:Hn.
      * split; [eapply wp_completes; by eapply undo_pres|]. intros (y & Hy & ? & ? & ?). eapply wp_completes. by eapply publish_pres.
      * eapply wp_completes. by eapply alloc_pres.
  - intros ch. eapply wp_completes. by eapply wakeup_pres.
  - intros e Hn D. eapply wp_completes. by eapply sched_pres.
Qed.
End complete.

Section boot.
Context {E : Type} `{!KEnv E}.
Implicit Types (a s : kstate E) (p q np : nat) (x y : proc).

(** ** Boot *)

(** The machine when CPU 0 has run userinit(): the other CPUs idle. *)
Definition booted s (ncpu : nat) : mach (E:=E) :=
  mkMach s (h_cpu (k_hw s) :: (idle0 <$> seq 1 (ncpu - 1))) ∅ ∅.

Lemma user1_procs a d nm cwd k x q y :
  all_unused a → k_procs a !! init_slot = Some x →
  k_procs (upd init_slot (λ x, user1 d nm cwd (embryo (k_ticks a) (k_nextpid a) k x)) a) !! q = Some y →
  (p_state y = UNUSED ∨ (p_state y = RUNNABLE ∧ p_pgdir y = d ∧ p_context y = RForkret)).
Proof.
  intros Hu Hx Hy. destruct (lookup_upd_inv _ _ _ _ _ Hy) as (z & Hz & ->).
  destruct (decide (init_slot = q)); [by right|left]. by apply (Hu q z).
Qed.

Lemma booted_inv a L s h e n :
  wf None (a <| k_hw := h |>) L s → disc h [] e → c_id (h_cpu h) = 0%nat → c_proc (h_cpu h) = None →
  (∀ l, lk_locked (h_locks h l) = false) →
  (∀ q y, k_procs a !! q = Some y → p_state y = UNUSED ∨
     (p_state y = RUNNABLE ∧ p_pgdir y ≠ 0 ∧ p_context y = RForkret)) →
  minv (booted s n) L.
Proof.
  intros W D Hid Hp Hlk Hps. assert (Hh : k_hw s = h) by (by rewrite (wf_hw _ _ _ _ W)).
  assert (Hcpu : ∀ i c, m_cpus (booted s n) !! i = Some c → c_id c = i ∧ c_proc c = None ∧
    ∃ held e, disc (mkHw c (h_locks h)) held e).
  { intros [|i] c; simpl.
    - intros [= <-]. rewrite Hh. split_and!; [done..|]. exists [], e. by destruct h.
    - intros (j & -> & Hj)%list_lookup_fmap_Some. apply lookup_seq in Hj as [-> _].
      split_and!; [done..|]. exists [], true. split; simpl; [done|constructor| |done|done].
      intros l. rewrite Hlk. split; [set_solver|naive_solver]. }
  assert (Hst : ∀ p v, st s p = Some v → v = UNUSED ∨ v = RUNNABLE).
  { intros p v. rewrite (wf_st _ _ _ _ p W). unfold st. intros (y & Hy & ->)%fmap_Some.
    destruct (Hps p y Hy); naive_solver. }
  split; simpl.
  - by eapply wf_self.
  - unfold locks. simpl. by rewrite Hh.
  - intros i c Hc. destruct (Hcpu i c Hc) as (? & _ & Hd). split; [done|]. unfold locks. simpl. by rewrite Hh.
  - intros i c p Hc Hcp. destruct (Hcpu i c Hc) as (_ & Hn & _). congruence.
  - intros i j c c' p Hc _ Hcp _. destruct (Hcpu i c Hc) as (_ & Hn & _). congruence.
  - intros p Hr. destruct (Hst p _ Hr); done.
  - eapply wf_good; [exact W|]. intros p y Hy. simpl in Hy. unfold good.
    destruct (Hps p y Hy) as [->|(-> & ? & ->)]; done.
  - intros np. split; [intros Hs; by destruct (Hst np _ Hs)|]. intros [p Hp']. by rewrite lookup_empty in Hp'.
  - intros p q np Hp'. by rewrite lookup_empty in Hp'.
Qed.

(** Userinit(), run by CPU 0 on the zero-initialised table, returns with
    the process-table invariant established for a machine with any number of
    CPUs: init is the only process and waits in ready queue 0. *)
Theorem userinit_establishes a s x e k d nm cwd env1 env2 env3 env4 ncpu :
  rep a (λ _, []) s → all_unused a → disc (k_hw a) [] e → (∀ l, lk_locked (h_locks (k_hw a) l) = false) →
  c_id (h_cpu (k_hw a)) = 0%nat → c_proc (h_cpu (k_hw a)) = None →
  k_procs a !! init_slot = Some x →
  e_kalloc (k_env a) = Done k env1 → k ≠ 0 → e_setupkvm env1 = Done d env2 → d ≠ 0 →
  e_inituvm d env2 = Done tt env3 → safestrcpy (p_name x) initcode_name 16 = Some nm →
  e_namei_root env3 = Done cwd env4 →
  wp userinit (λ _ s', minv (booted s' ncpu) user_queues ∧ k_initproc s' = Some init_slot ∧
    k_promote s' = TICKS_TO_PROMOTE ∧
    ∀ q, q ≠ init_slot → st s' q = st a q) s.
Proof.
  intros R Hu D Hl Hid Hcp Hx Hk Hk0 Hd Hd0 Hi Hnm Hcwd.
  eapply userinit_spec; [exact R|exact Hu|exact D|apply Hl|exact Hx|done..|].
  intros h s' Dh Hlc W. pose proof Hlc as [(H1 & H2 & _) H3].
  set (b := upd init_slot (λ x, user1 d nm cwd (embryo (k_ticks a) (k_nextpid a) k x)) a) in *.
  split_and!.
  - eapply (booted_inv (b <| k_promote := TICKS_TO_PROMOTE |> <| k_env := env4 |>
      <| k_nextpid := s32 (k_nextpid a + 1) |> <| k_initproc := Some init_slot |>) _ _ h e);
      [exact W|done|congruence|congruence| |].
    + intros l. rewrite H3. unfold insert, fn_insert. by case_decide.
    + intros q y Hy. destruct (user1_procs a d nm cwd k x q y Hu Hx Hy) as [|(? & -> & ?)]; auto.
  - destruct W as [[(ps & ls & -> & _) _] _]. done.
  - destruct W as [[(ps & ls & -> & _) _] _]. done.
  - intros q Hq. rewrite (wf_st _ _ _ _ q W). unfold st. simpl. unfold b. rewrite upd_unfold. simpl.
    by rewrite list_lookup_alter_ne.
Qed.
End boot.

(** ** Instances *)

(** A table of processes of which slot 1 runs on CPU 0, with CPU 1 idle. *)
Definition demo_machine {E} (s : kstate E) : mach (E:=E) := mkMach s [demo_cpu; idle0 1] ∅ ∅.
Definition demo_m : mach (E:=nat) := demo_machine demo.

Definition demo_check (qx : nat * proc) : bool :=
  eqb (bool_decide (p_state (snd qx) = RUNNING)) (bool_decide (fst qx = 1%nat)) &&
  negb (bool_decide (p_state (snd qx) = EMBRYO)) &&
  (bool_decide (p_state (snd qx) = UNUSED) || negb (p_pgdir (snd qx) =? 0)) &&
  match p_context (snd qx) with RForkret | RYield _ => true | _ => false end.

Section demo.
Context {E : Type} (s : kstate E) (L : slist → list nat).
Context (W : wf None s L s) (Hlk : h_locks (k_hw s) = unlocked) (Hrun : st s 1 = Some RUNNING).
Context (Hall : forallb demo_check (imap pair (k_procs s)) = true).

Lemma demo_checked q x : k_procs s !! q = Some x →
  (p_state x = RUNNING ↔ q = 1%nat) ∧ p_state x ≠ EMBRYO ∧ good x.
Proof using Hall.
  intros Hx. assert (Hin : (q, x) ∈ imap pair (k_procs s)).
  { apply list_elem_of_lookup. exists q. by rewrite list_lookup_imap, Hx. }
  pose proof (forallb_elem _ _ _ Hall Hin) as Hq. unfold demo_check in Hq. simpl in Hq.
  rewrite !andb_true_iff in Hq. destruct Hq as [[[H1 H2] H3] H4]. apply eqb_prop in H1.
  split_and!; [by rewrite <- (bool_decide_eq_true (q = _)), <- H1, bool_decide_eq_true| |].
  - by apply negb_true_iff, bool_decide_eq_false in H2.
  - unfold good. apply orb_true_iff in H3 as [H3|H3]; [by rewrite (proj1 (bool_decide_eq_true _) H3)|].
    zbool. destruct (p_state x), (p_context x); done.
Qed.

Lemma demo_machine_inv : minv (demo_machine s) L.
Proof using All.
  assert (Hcpu : ∀ i c, m_cpus (demo_machine s) !! i = Some c → (i = 0%nat ∧ c = demo_cpu) ∨ (i = 1%nat ∧ c = idle0 1)).
  { intros [|[|i]] c; simpl; naive_solver. }
  assert (Hst : ∀ p v, st s p = Some v → (v = RUNNING ↔ p = 1%nat) ∧ v ≠ EMBRYO).
  { intros p v (x & Hx & ->)%fmap_Some. destruct (demo_checked p x Hx) as (? & ? & _). done. }
  split.
  - exact W.
  - unfold locks. simpl. by rewrite Hlk.
  - intros i c [[-> ->]|[-> ->]]%Hcpu; (split; [done|]); exists [], true; unfold locks; simpl; rewrite Hlk; by apply unlocked_disc.
  - intros i c p [[-> ->]|[-> ->]]%Hcpu; simpl; [|done]. by intros [= <-].
  - intros i j c c' p [[-> ->]|[-> ->]]%Hcpu [[-> ->]|[-> ->]]%Hcpu; done.
  - intros p Hr. destruct (Hst p _ Hr) as [H1 _]. exists 0%nat, demo_cpu. split; [done|].
    by rewrite (proj1 H1 eq_refl).
  - intros p x Hx. by destruct (demo_checked p x Hx) as (_ & _ & ?).
  - intros np. split; [intros Hs; by destruct (Hst np _ Hs)|]. intros [p Hp]. change (m_own (demo_machine s)) with (∅ : gmap nat nat) in Hp. by rewrite lookup_empty in Hp.
  - intros p q np Hp. change (m_own (demo_machine s)) with (∅ : gmap nat nat) in Hp. by rewrite lookup_empty in Hp.
Qed.
End demo.

Lemma demo_m_inv : minv demo_m (queue demo).
Proof. apply demo_machine_inv; [apply demo_wf|done|vm_compute; reflexivity..]. Qed.

(** CPU 0's process yields, and CPU 1 runs its scheduler. *)
Lemma machine_invariant_witness : ∃ m, mstep 2147483648 (λ _ _, True) demo_m m ∧ coherent m.
Proof.
  pose proof (yield_pres 2147483648 demo_m (queue demo) 0 demo_cpu 1 true demo_m_inv) as Hy.
  assert (Ha : active demo_m 0 demo_cpu 1 [] true) by (split_and!; [done..|by apply unlocked_disc]).
  destruct (proj1 (wp_done _ _ _) (Hy Ha)) as ([] & s & Hs & _).
  pose proof (ms_yield _ (λ _ _, True) _ 0 demo_cpu 1 true s Ha Hs) as Hstep. eexists. split; [exact Hstep|].
  apply (machine_invariant 2147483648 (λ _ _, True) demo_m _ (queue demo) demo_m_inv). by apply rtc_once.
Defined.

(** The zero-initialised state at boot. *)
Definition zero_state : kstate nat :=
  mkK (mkHw (idle0 0) unlocked) (replicate NPROC proc_zero) no_lists 0 None 1 true 0 0%nat.

Lemma zero_state_unused : all_unused zero_state.
Proof.
  intros p x Hx. apply lookup_replicate_1 in Hx as [-> _]. split; [done|]. unfold prio_ok, MAX. simpl. lia.
Qed.

Lemma zero_state_rep : rep zero_state (λ _, []) zero_state.
Proof.
  apply rep_self. split; [done|done| |constructor|set_solver|done]. intros sl Hv. exists None.
  split; [|done]. destruct sl as [i| | | | |]; try done. by apply lookup_replicate_2.
Qed.

Lemma userinit_establishes_witness : completes userinit zero_state.
Proof.
  eapply wp_completes. eapply (userinit_establishes zero_state zero_state _ true _ _ _ _ 1%nat 2%nat 3%nat 3%nat 2
    zero_state_rep zero_state_unused (unlocked_disc (idle0 0) eq_refl eq_refl));
    try (vm_compute; reflexivity); try done.
Defined.
