(* ===== verification/ProcMem.v ===== *)
(** * Processes on the real memory: proc.c over kalloc.c and vm.c

    The interface [KEnv] that proc.c is verified against is implemented by the
    page allocator and the page tables; what remains of it, open files, inodes
    and the log, is the interface [FEnv]. initcode, the first program, is
    produced by the build. fork() then is one theorem about the processes and
    their memory, and the interface [KMem] of the machine has its instance: the
    memory that each process holds, apart from that of the others. *)

From S2P Require Import Prelude Bytes Mem Spinlock Str Kalloc Vm VmMap VmFree VmCopy VmFork Proc ProcOps ProcInv ProcSpec ProcExit ProcFork Machine MachineSteps ProcCheck ProcThms MachineThms.

Class FEnv (X : Type) : Type := {
  f_filedup : nat → M X unit;
  f_fileclose : nat → M X (list chan);
  f_idup : nat → M X unit;
  f_iput : nat → M X (list chan);
  f_begin_op : M X unit;
  f_end_op : M X (list chan);
  f_namei_root : M X (option nat);
  f_iinit : M X unit;
  f_initlog : M X unit;
}.

Section mem.
Context {X : Type} `{!FEnv X} (kend kdata : Z) (initcode : list Z).

Definition memop {A} (m : M kmem A) : M (kmem * X) A := lift fst (λ k s, (k, s.2)) m.
Definition restop {A} (m : M X A) : M (kmem * X) A := lift snd (λ x s, (s.1, x)) m.

Definition mem_env : KEnv (kmem * X) := {|
  e_kalloc := memop kalloc;
  e_kfree := λ v, memop (kfree kend v);
  e_setupkvm := memop (setupkvm kdata);
  e_inituvm := λ d, memop (inituvm d initcode);
  e_copyuvm := λ d sz, memop (copyuvm kend kdata d sz);
  e_freevm := λ d, memop (freevm kend d);
  e_allocuvm := λ d oldsz newsz, memop (allocuvm kend d oldsz newsz);
  e_deallocuvm := λ d oldsz newsz, memop (deallocuvm kend d oldsz newsz);
  e_filedup := λ f, restop (f_filedup f);
  e_fileclose := λ f, restop (f_fileclose f);
  e_idup := λ i, restop (f_idup i);
  e_iput := λ i, restop (f_iput i);
  e_begin_op := restop f_begin_op;
  e_end_op := restop f_end_op;
  e_namei_root := restop f_namei_root;
  e_iinit := restop f_iinit;
  e_initlog := restop f_initlog;
|}.
#[local] Existing Instance mem_env.

(** filedup() of every open file. *)
Fixpoint dup_all (fs : list (option nat)) : M X unit :=
  match fs with
  | [] => mret tt
  | Some f :: fs => f_filedup f;; dup_all fs
  | None :: fs => dup_all fs
  end.

Lemma dup_env_all fs k x x' : dup_all fs x = Done tt x' → dup_env fs (k, x) = Done tt (k, x').
Proof.
  revert x. induction fs as [|[f|] fs IH]; intros x; cbn [dup_all dup_env].
  - by intros [= <-].
  - intros H. unfold mbind, M_bind in *. cbn [e_filedup mem_env]. unfold restop, lift. cbn [fst snd].
    destruct (f_filedup f x) as [[] x1| | | |]; try done. by apply IH.
  - apply IH.
Qed.

Lemma memop_done {A} (m : M kmem A) k x a k' : m k = Done a k' → memop m (k, x) = Done a (k', x).
Proof. unfold memop, lift. simpl. by intros ->. Qed.

Context (Hkend : KERNBASE < kend) (Hkdata : KERNLINK < kdata < KERNBASE + PHYSTOP) (Hkalign : kdata mod PGSIZE = 0).

Lemma space_tail held en k v F pgdir pd k1 : space kend held en k (v :: F) pgdir pd → free_list kend k1 F → km_ready k1 held en →
  km_mem k1 = km_mem k → space kend held en k1 F pgdir pd.
Proof. intros [_ _ D] Hf Hr Hm. split; [done|done|]. rewrite Hm. eapply dir_ok_ext; [exact D|done|]. intros w Hw. left. set_solver. Qed.

(** The memory of the child: a directory [d] that holds copies of the [n] pages
    of the parent, in frames that were free. *)
Record child_memory (m : memory) pd (F : list Z) held en (n d : Z) (ks : Z) (k' : kmem) (F' pd' : list Z) : Prop := {
  cm_space : space kend held en k' F' d pd';
  cm_user : user_ok kend (km_mem k') d pd' F';
  cm_copied : ∀ q, 0 ≤ q < n → page_copied m pd F (km_mem k') pd' F' d q;
  cm_kernel : ∀ q, n ≤ q < 2 ^ 20 → pte_at (km_mem k') pd' q = kernel_pte kdata q;
  cm_stack : ks ∈ F ∧ (ks ∉ F') ∧ ¬ own_page d pd' ks ∧ ¬ frame_in (km_mem k') pd' 0 UPAGES ks;
  cm_kept : ∀ v, v ∉ F → km_mem k' !! v = m !! v;
  cm_free : ∀ v, v ∈ F' → v ∈ F;
  cm_own : ∀ v, own_page d pd' v → v ∈ F;
}.

Lemma fork_memory k F held en pgdir pd sz :
  let n := (sz + PGSIZE - 1) / PGSIZE in
  space kend held en k F pgdir pd → 0 ≤ sz ≤ KERNBASE → parent_ok (km_mem k) pd F n → 1026 + n < Z.of_nat (length F) →
  ∃ ks k1 d k2 F' pd', kalloc k = Done ks k1 ∧ ks ≠ 0 ∧ copyuvm kend kdata pgdir sz k1 = Done d k2 ∧ d ≠ 0 ∧
    child_memory (km_mem k) pd F held en n d ks k2 F' pd'.
Proof.
  intros n S Hsz Hpar Hlen. pose proof (Z.div_pos (sz + PGSIZE - 1) PGSIZE ltac:(unfold PGSIZE; lia) ltac:(done)) as Hn0. fold n in Hn0.
  destruct F as [|ks F]; [simpl in Hlen; lia|]. pose proof S as [[(_ & Hp & _) Hnd] Hr _]. apply NoDup_cons in Hnd as [HksF Hnd].
  assert (Hal : wp kalloc (λ r k1, r = ks ∧ free_list kend k1 F ∧ km_ready k1 held en ∧ km_mem k1 = km_mem k) k).
  { eapply kalloc_spec; [apply S|exact Hr|]. intros k1 Hf1 Hfr Hm1. split_and!; [done|done|apply Hfr|done]. }
  apply wp_done in Hal as (r & k1 & Hk1 & -> & Hf1 & Hr1 & Hm1). pose proof (space_tail _ _ _ _ _ _ _ _ S Hf1 Hr1 Hm1) as S1.
  assert (Hpar1 : parent_ok (km_mem k1) pd F n).
  { intros q Hq. destruct (Hpar q Hq) as (e & pg & H1 & H2 & H3 & H4). exists e, pg. rewrite Hm1. split_and!; [done|set_solver|done|done]. }
  assert (Hco : wp (copyuvm kend kdata pgdir sz) (λ d k2, d ≠ 0 ∧ ∃ F' pd', copying kend kdata held en k1 F pd d k2 F' pd' n []) k1).
  { eapply (copyuvm_spec kend kdata Hkend held en Hkdata Hkalign k1 F pgdir pd S1); [done|done| |].
    - intros d k2 F' pd' Hc Hd. split; [done|]. by exists F', pd'.
    - intros k2 F' lost _ _ _ _ Hfew. simpl in Hlen. fold n in Hfew. lia. }
  apply wp_done in Hco as (d & k2 & Hk2 & Hd & F' & pd' & Hc). assert (Hn : n ≤ UPAGES).
  { clear -Hsz. unfold n, UPAGES, PGSIZE, KERNBASE in *. Z.to_euclidean_division_equations; lia. }
  pose proof (copying_user _ _ _ _ Hkdata Hkalign _ _ _ _ S1 _ _ _ _ _ _ Hc Hn) as U. destruct Hc as [S2 K Fr O C I R A L].
  exists ks, k1, d, k2, F', pd'. split_and!; [done|by apply (page_pos kend)|done|done|]. rewrite Hm1 in *.
  assert (HU : UPAGES < 2 ^ 20) by done. split; [done|done| |done| | | |].
  - intros q Hq. destruct (C q Hq) as (e & e' & H1 & H2 & H3 & H4 & H5). exists e, e'. do 3 (split; [done|]). split; [set_solver|done].
  - split_and!; [set_solver|by intros ?%Fr|by intros ?%O|]. intros (q & e' & Hq & He & Ht). destruct (decide (q < n)).
    + destruct (C q ltac:(lia)) as (e & e1 & _ & H2 & _ & H4 & _). rewrite He in H2. injection H2 as <-. by rewrite <- Ht in H4.
    + rewrite R in He by lia. unfold kernel_pte in He. erewrite kmap_pte_below in He; [done|by apply kmap_kdata|lia].
  - intros v [Hv1 Hv2]%not_elem_of_cons. by apply K.
  - intros v Hv. right. by apply Fr.
  - intros v Hv. right. by apply O.
Qed.

(** C12: fork() on the real memory. With a free slot, and more free pages than
    the page tables and the memory of the parent can need, fork() returns the
    child's pid; the child is RUNNABLE at the tail of ready queue 0 with the
    page directory that copyuvm() made: each page of the parent is copied to a
    frame of its own, the kernel stack is yet another page, and neither the
    memory of the parent nor that of any other process changes. *)
Theorem fork_isolates (s : kstate (kmem * X)) L e p x np y l cwd nm held en F pd x1 x2 :
  let n := (p_sz x + PGSIZE - 1) / PGSIZE in let km := (k_env s).1 in
  wf None s L s → on_cpu (k_hw s) p [] e → lk_locked (h_locks (k_hw s) LPtable) = false →
  k_procs s !! p = Some x → p_state x = RUNNING → L SFree = np :: l → k_procs s !! np = Some y →
  dup_all (p_ofile x) (k_env s).2 = Done tt x1 → p_cwd x = Some cwd → f_idup cwd x1 = Done tt x2 →
  safestrcpy (p_name y) (p_name x) 16 = Some nm →
  space kend held en km F (p_pgdir x) pd → 0 ≤ p_sz x ≤ KERNBASE → parent_ok (km_mem km) pd F n → 1026 + n < Z.of_nat (length F) →
  wp fork (λ r s', r = s32 (u32 (k_nextpid s)) ∧ ∃ h ks d km' F' pd', disc h [] e ∧ lock_cycled (k_hw s) h ∧
    child_memory (km_mem km) pd F held en n d ks km' F' pd' ∧
    wf None ((upd np (λ y, child p x d cwd nm (embryo (k_ticks s) (k_nextpid s) ks y)) s)
               <| k_hw := h |> <| k_env := (km', x2) |> <| k_nextpid := s32 (k_nextpid s + 1) |>)
      (to_tail (SReady 0) np (<[SFree := l]> L)) s') s.
Proof.
  intros n km W Hc Hf Hx Hst HL Hy Hdup Hcwd Hid Hnm S Hsz Hpar Hlen.
  destruct (fork_memory km F held en (p_pgdir x) pd (p_sz x) S Hsz Hpar Hlen) as (ks & k1 & d & k2 & F' & pd' & Hk1 & Hks & Hk2 & Hd & Hcm).
  assert (Henv : k_env s = (km, (k_env s).2)) by (by destruct (k_env s)).
  eapply (fork_spec e s L s p x np y l ks d cwd nm (k1, (k_env s).2) (k2, (k_env s).2) (k2, x1) (k2, x2)); try eassumption.
  - rewrite Henv. cbn [snd]. by apply (memop_done kalloc).
  - by apply (memop_done (copyuvm kend kdata (p_pgdir x) (p_sz x))).
  - by apply dup_env_all.
  - cbn [e_idup mem_env]. unfold restop, lift. cbn [snd fst]. by rewrite Hid.
  - intros h s' D Hl W'. split; [done|]. by exists h, ks, d, k2, F', pd'.
Qed.
End mem.

(** ** The memory of the processes *)

Section owners.
Context {X : Type} `{!FEnv X} (kend kdata : Z) (initcode : list Z) (Hkend : KERNBASE < kend).
#[local] Instance the_env : KEnv (kmem * X) := mem_env kend kdata initcode.
Implicit Types (m : memory) (k : kmem) (F : list Z) (kd : Z * Z).

(** The pages of a process: the kernel stack, the directory and its tables, and
    the frames of the user pages. *)
Definition foot m kd (v : Z) : Prop :=
  v = kd.1 ∨ ∃ pd, m !! kd.2 = Some pd ∧ (own_page kd.2 pd v ∨ frame_in m pd 0 UPAGES v).

(** A process holds its pages: they are allocated and different. *)
Record holds m F kd (pd : list Z) : Prop := {
  ho_page : page kend kd.1;
  ho_used : kd.1 ∉ F;
  ho_own : ¬ own_page kd.2 pd kd.1;
  ho_frame : ¬ frame_in m pd 0 UPAGES kd.1;
  ho_dir : dir_ok kend m kd.2 F pd;
  ho_user : user_ok kend m kd.2 pd F;
}.

Definition apart m kd kd' : Prop := ∀ v, foot m kd v → ¬ foot m kd' v.

Fixpoint all_apart m (l : list (Z * Z)) : Prop :=
  match l with [] => True | kd :: l => Forall (apart m kd) l ∧ all_apart m l end.

Definition holdings (env : kmem * X) (l : list (Z * Z)) : Prop := ∃ F held en,
  free_list kend env.1 F ∧ km_ready env.1 held en ∧ Forall (λ kd, ∃ pd, holds (km_mem env.1) F kd pd) l ∧ all_apart (km_mem env.1) l.

Lemma all_apart_perm m l l' : l ≡ₚ l' → all_apart m l → all_apart m l'.
Proof.
  induction 1 as [|kd l l' Hp IH|kd kd' l|]; simpl; [done| | |by auto].
  - intros [H1 H2]. split; [by rewrite <- Hp|by apply IH].
  - intros [[H1 H2]%Forall_cons [H3 H4]]. split_and!; [|done|done]. apply Forall_cons. split; [|done]. intros v Hv Hv'. by apply (H1 v).
Qed.

Lemma foot_holds m F kd pd v : holds m F kd pd → foot m kd v ↔ v = kd.1 ∨ own_page kd.2 pd v ∨ frame_in m pd 0 UPAGES v.
Proof.
  intros [_ _ _ _ D _]. unfold foot. rewrite (dr_at _ _ _ _ _ D). split.
  - intros [?|(pd' & [= <-] & ?)]; auto.
  - intros [?|?]; [by left|right; eauto].
Qed.

Lemma holds_used m F kd pd v : holds m F kd pd → foot m kd v → v ∉ F.
Proof.
  intros H. rewrite (foot_holds _ _ _ _ _ H). destruct H as [_ Hu _ _ D U]. intros [->|[[->|(i & Hi & Hf & ->)]|(q & e & Hq & He & ->)]].
  - done.
  - apply D.
  - by apply (dr_tab _ _ _ _ _ D).
  - by apply (us_page _ _ _ _ _ U q e).
Qed.

Lemma pte_user m m' F kd pd q : holds m F kd pd → (∀ v, own_page kd.2 pd v → m' !! v = m !! v) → 0 ≤ q < UPAGES →
  pte_at m' pd q = pte_at m pd q.
Proof. intros [_ _ _ _ D _] Hm Hq. assert (HU : UPAGES < 2 ^ 20) by done. eapply pte_at_ext; [exact D|lia|done]. Qed.

Lemma frames_own m m' F kd pd : holds m F kd pd → (∀ v, own_page kd.2 pd v → m' !! v = m !! v) →
  ∀ v, frame_in m' pd 0 UPAGES v ↔ frame_in m pd 0 UPAGES v.
Proof.
  intros H Ho v. unfold frame_in. split; intros (q & e & Hq & He & ->); exists q, e; (split; [done|]); split; try done.
  - by rewrite <- (pte_user m m' F kd pd).
  - by rewrite (pte_user m m' F kd pd).
Qed.

(** What a process holds depends only on its own pages. *)
Lemma holds_ext m m' F F' kd pd : holds m F kd pd → (∀ v, foot m kd v → m' !! v = m !! v) →
  (∀ v, v ∈ F' → v ∈ F ∨ ¬ foot m kd v) → holds m' F' kd pd ∧ ∀ v, foot m' kd v ↔ foot m kd v.
Proof.
  intros H Hm HF. assert (Ho : ∀ v, own_page kd.2 pd v → m' !! v = m !! v).
  { intros v Hv. apply Hm, (foot_holds _ _ _ _ _ H). by right; left. }
  pose proof (frames_own _ _ _ _ _ H Ho) as Hfr.
  assert (Hout : ∀ v, foot m kd v → v ∉ F') by (intros v Hv Hin; destruct (HF v Hin) as [Hi|Hi]; [by eapply holds_used|done]).
  assert (H' : holds m' F' kd pd).
  { pose proof H as [H1 H2 H3 H4 D U]. split; [done| |done|by rewrite Hfr| |].
    - apply Hout, (foot_holds _ _ _ _ _ H). by left.
    - eapply dir_ok_ext; [exact D|done|]. intros v Hv. destruct (HF v Hv) as [?|Hn]; [by left|]. right. intros Hw. apply Hn, (foot_holds _ _ _ _ _ H). by right; left.
    - split.
      + intros q e Hq He. rewrite (pte_user m m' F kd pd) in He by done. destruct (us_page _ _ _ _ _ U q e Hq He) as (? & _ & ?). split_and!; [done| |done].
        apply Hout, (foot_holds _ _ _ _ _ H). right; right. by exists q, e.
      + intros q q' e e' Hq Hq'. rewrite !(pte_user m m' F kd pd) by done. by apply U. }
  split; [exact H'|]. intros v. by rewrite (foot_holds _ _ _ _ _ H), (foot_holds _ _ _ _ _ H'), Hfr.
Qed.

(** Others keep what they hold when only pages that none of them has change. *)
Lemma holdings_ext m m' F F' l : Forall (λ kd, ∃ pd, holds m F kd pd) l → all_apart m l →
  (∀ v, (∃ kd, kd ∈ l ∧ foot m kd v) → m' !! v = m !! v ∧ v ∉ F') →
  Forall (λ kd, ∃ pd, holds m' F' kd pd) l ∧ all_apart m' l ∧ ∀ kd v, kd ∈ l → foot m' kd v ↔ foot m kd v.
Proof.
  intros Hh Ha Hv. assert (Hone : ∀ kd, kd ∈ l → (∃ pd, holds m' F' kd pd) ∧ ∀ v, foot m' kd v ↔ foot m kd v).
  { intros kd Hin. rewrite Forall_forall in Hh. destruct (Hh kd Hin) as [pd H]. destruct (holds_ext m m' F F' kd pd H) as [H1 H2].
    - intros v Hf. apply Hv. by exists kd.
    - intros v Hi. right. intros Hf. destruct (Hv v) as [_ Hn]; [by exists kd|done].
    - split; [by exists pd|done]. }
  split_and!; [apply Forall_forall; intros kd Hin; by apply Hone| |intros kd v Hin; by apply Hone].
  clear Hh Hv. revert Ha Hone. induction l as [|kd l IH]; simpl; [done|]. intros [Ha1 Ha2] Hone. split.
  - rewrite Forall_forall in Ha1 |- *. intros kd' Hin v. rewrite (proj2 (Hone kd ltac:(left))), (proj2 (Hone kd' ltac:(by right))). by apply Ha1.
  - apply IH; [done|]. intros kd' Hin. apply Hone. by right.
Qed.

(** wait() frees a zombie: kfree() of its stack and freevm() of its directory
    succeed, and the other processes keep what they hold. *)
Lemma holdings_free env kd l : holdings env (kd :: l) → free_mem kd env (λ env', holdings env' l).
Proof.
  destruct env as [k x]. intros (F & held & en & Hf & Hr & [[pd H] Hl]%Forall_cons & [Ha Hal]). simpl in *. pose proof H as [H1 H2 H3 H4 D U].
  unfold free_mem. apply wp_lift. simpl. eapply kfree_spec; [exact Hf|exact Hr|done|done|]. intros k1 Hf1 Hr1 Hm1. apply wp_lift. simpl.
  assert (Ho : ∀ v, own_page kd.2 pd v → km_mem k1 !! v = km_mem k !! v) by (intros v Hv; apply Hm1; by intros ->).
  pose proof (frames_own _ _ _ _ _ H Ho) as Hfr.
  eapply (freevm_spec kend Hkend held en k1 (kd.1 :: F) kd.2 pd).
  - split; [done|apply Hr1|]. eapply dir_ok_ext; [exact D|done|]. intros v [->|?]%elem_of_cons; [by right|by left].
  - split.
    + intros q e Hq He. rewrite (pte_user (km_mem k) (km_mem k1) F kd pd) in He by done. destruct (us_page _ _ _ _ _ U q e Hq He) as (? & ? & ?).
      split_and!; [done| |done]. apply not_elem_of_cons. split; [|done]. intros Ht. apply H4. by exists q, e.
    + intros q q' e e' Hq Hq'. rewrite !(pte_user (km_mem k) (km_mem k1) F kd pd) by done. by apply U.
  - intros k2 F2 Hf2 Hr2 HF2 Hm2. exists F2, held, en. simpl. split; [done|]. split; [done|].
    destruct (holdings_ext (km_mem k) (km_mem k2) F F2 l Hl Hal) as (? & ? & _); [|done].
    intros v (kd' & Hin & Hv). rewrite Forall_forall in Ha, Hl. destruct (Hl kd' Hin) as [pd' H'].
    assert (Hn : (v ∉ kd.1 :: F) ∧ ¬ (own_page kd.2 pd v ∨ frame_in (km_mem k1) pd 0 UPAGES v)).
    { rewrite Hfr, not_elem_of_cons. assert (Hk : ¬ foot (km_mem k) kd v) by (intros Hk; by apply (Ha kd' Hin v)).
      rewrite (foot_holds _ _ _ _ _ H) in Hk. split; [|tauto]. split; [tauto|by eapply holds_used]. }
    assert (Hn2 : v ∉ F2) by (rewrite HF2; tauto). split; [|done]. rewrite Hm2 by done. apply Hm1. destruct Hn as [[? _]%not_elem_of_cons _]. done.
Qed.

#[local] Program Instance mem_kmem : KMem (kmem * X) := {| mem_ok := holdings |}.
Next Obligation.
  intros env l l' Hp (F & held & en & Hf & Hr & Hh & Ha). exists F, held, en. split_and!; [done|done|by rewrite <- Hp|by eapply all_apart_perm].
Qed.
Next Obligation. intros env kd l. apply holdings_free. Qed.

(** fork() gives the child pages that were free: the memory of all processes,
    the child's included, stays apart. *)
Lemma holdings_fork k k' (x : X) l F held en pd n d ks F' pd' :
  KERNLINK < kdata < KERNBASE + PHYSTOP → kdata mod PGSIZE = 0 → n ≤ UPAGES →
  free_list kend k F → Forall (λ kd, ∃ pd, holds (km_mem k) F kd pd) l → all_apart (km_mem k) l →
  child_memory kend kdata (km_mem k) pd F held en n d ks k' F' pd' → holdings (k', x) ((ks, d) :: l).
Proof.
  intros Hkdata Hkalign Hn Hf Hh Ha [S U C K (St1 & St2 & St3 & St4) Hk Hfr Ho]. pose proof S as [Sf Sr Sd].
  assert (Hc : holds (km_mem k') F' (ks, d) pd') by (split; simpl; try done; by eapply linked_page; [apply Hf|]).
  assert (HF : ∀ v, foot (km_mem k') (ks, d) v → v ∈ F).
  { intros v. rewrite (foot_holds _ _ _ _ _ Hc). simpl. intros [->|[?|(q & e & Hq & He & ->)]]; [done|by apply Ho|]. destruct (decide (q < n)).
    - destruct (C q ltac:(lia)) as (e1 & e2 & _ & He2 & _ & Hin & _). rewrite He in He2. by injection He2 as <-.
    - rewrite K in He by (unfold UPAGES in *; lia). unfold kernel_pte in He. by erewrite kmap_pte_below in He; [|by apply kmap_kdata|lia]. }
  assert (Hu : ∀ kd v, kd ∈ l → foot (km_mem k) kd v → v ∉ F).
  { intros kd v Hin. rewrite Forall_forall in Hh. destruct (Hh kd Hin) as [pd0 H0]. by eapply holds_used. }
  destruct (holdings_ext (km_mem k) (km_mem k') F F' l Hh Ha) as (Hh' & Ha' & Hft).
  { intros v (kd & Hin & Hv). pose proof (Hu kd v Hin Hv) as Hn'. split; [by apply Hk|]. by intros ?%Hfr. }
  exists F', held, en. simpl. split_and!; [done|done|apply Forall_cons; split; [by exists pd'|done]| |done].
  apply Forall_forall. intros kd Hin v Hv Hv'. apply (Hu kd v Hin); [by apply Hft|by apply HF].
Qed.
End owners.

(** ** Instance: the parent of [VmFork] as the running process of a table *)

#[local] Instance unit_files : FEnv unit := {|
  f_filedup := λ _, mret tt; f_fileclose := λ _, mret []; f_idup := λ _, mret tt; f_iput := λ _, mret [];
  f_begin_op := mret tt; f_end_op := mret []; f_namei_root := mret (Some 0%nat); f_iinit := mret tt; f_initlog := mret tt;
|}.

Definition mem_proc : proc := (demo_proc RUNNING 2 0 (Some 0%nat) None ChNull) <| p_pgdir := dir_page |> <| p_sz := PGSIZE |>.
Definition mem_table (env : kmem * unit) : kstate (kmem * unit) :=
  table env (mkHw demo_cpu unlocked) (<[1%nat := mem_proc]> demo_procs) demo_lists.

Lemma mem_table_wf env : wf None (mem_table env) (queue (mem_table env)) (mem_table env).
Proof. apply wf_check_sound. vm_compute. reflexivity. Qed.

Lemma mem_table_free env : queue (mem_table env) SFree = 6%nat :: seq 7 57.
Proof. vm_compute. reflexivity. Qed.

Definition mem_demo : kstate (kmem * unit) := mem_table (parent_kmem, tt).

(** The child has a copy of the page, the parent still has its own. *)
Lemma fork_isolates_witness : wp (fork (KEnv0 := mem_env kend0 2148597760 [])) (λ r _, r = 10 ∧ ∃ d km' F' pd',
  page_copied (km_mem parent_kmem) parent_pd free_pages (km_mem km') pd' F' d 0 ∧ km_mem km' !! user_page = Some data_page) mem_demo.
Proof.
  eapply wp_mono.
  - apply (fork_isolates kend0 2148597760 [] ltac:(done) ltac:(done) ltac:(done) mem_demo (queue mem_demo) true 1 mem_proc 6
      (proc_zero <| p_next := Some 7%nat |>) (seq 7 57) 0 (replicate 16 0) [] true free_pages parent_pd tt tt (mem_table_wf _)).
    + split; [reflexivity|]. by apply unlocked_disc.
    + reflexivity.
    + reflexivity.
    + reflexivity.
    + apply mem_table_free.
    + reflexivity.
    + reflexivity.
    + reflexivity.
    + reflexivity.
    + vm_compute. reflexivity.
    + exact parent_space.
    + done.
    + exact parent_pages.
    + by rewrite free_pages_length.
  - intros r s' (-> & h & ks & d & km' & F' & pd' & _ & _ & [_ _ C _ _ K _ _] & _). split; [done|]. exists d, km', F', pd'.
    split; [by apply C|]. rewrite K; [apply user_page_at|by apply parent_at].
Defined.

(** ** Instance: three processes on one memory

    init sleeps and slot 1 runs, each with an empty address space; the child of
    slot 1 is a zombie with the address space of [VmFork]. *)

Definition low_page (i : Z) : Z := page_a - 4096 * i.
Definition two_more (k : kmem) : kmem := k <| km_mem ::= λ m, <[low_page 1 := zero_page]> (<[low_page 2 := zero_page]> m) |>.
Definition three_kmem : kmem := two_more parent_kmem.

Definition three_procs : list proc :=
  [ (demo_proc SLEEPING 1 0 None None (ChProc 0)) <| p_kstack := low_page 3 |> <| p_pgdir := low_page 1 |>;
    (demo_proc RUNNING 2 0 (Some 0%nat) None ChNull) <| p_kstack := low_page 4 |> <| p_pgdir := low_page 2 |>;
    (demo_proc ZOMBIE 3 0 (Some 1%nat) None ChNull) <| p_kstack := page_a |> <| p_pgdir := dir_page |> ].
Definition three_table (env : kmem * unit) : kstate (kmem * unit) :=
  table env (mkHw demo_cpu unlocked) three_procs
    (no_lists <| l_sleep := Some 0%nat |> <| l_zombie := Some 2%nat |> <| l_running := Some 1%nat |>).

Lemma three_wf env : wf None (three_table env) (queue (three_table env)) (three_table env).
Proof. apply wf_check_sound. vm_compute. reflexivity. Qed.

Lemma three_inv env : minv (demo_machine (three_table env)) (queue (three_table env)).
Proof. apply demo_machine_inv; [apply three_wf|done|vm_compute; reflexivity..]. Qed.

Lemma three_memories env : memories (three_table env) = [(low_page 3, low_page 1); (low_page 4, low_page 2); (page_a, dir_page)].
Proof. vm_compute. reflexivity. Qed.

Lemma low_page_ok i : 1 ≤ i ≤ 4 → page kend0 (low_page i) ∧ (low_page i ∉ free_pages).
Proof.
  intros Hi. split; [|apply parent_at; unfold low_page, page_a, free0; lia].
  assert (i = 1 ∨ i = 2 ∨ i = 3 ∨ i = 4) as [->|[->|[->| ->]]] by lia; repeat split; done.
Qed.

Lemma zero_flag j : 0 ≤ j < 1024 → flag (ent zero_page j) PTE_P = false.
Proof. intros Hj. by rewrite ent_zero. Qed.

(** An empty address space. *)
Lemma empty_holds i j m : 1 ≤ i ≤ 4 → 1 ≤ j ≤ 4 → i ≠ j → m !! low_page i = Some zero_page →
  holds kend0 m free_pages (low_page j, low_page i) zero_page ∧ ∀ v, foot m (low_page j, low_page i) v → v = low_page j ∨ v = low_page i.
Proof.
  intros Hi Hj Hne Hm. destruct (low_page_ok i Hi) as [Hp1 Hp2], (low_page_ok j Hj) as [Hp3 Hp4].
  assert (Hpte : ∀ q, 0 ≤ q < 2 ^ 20 → pte_at m zero_page q = None).
  { intros q Hq. unfold pte_at, VmMap.table. rewrite zero_flag; [done|by apply page_index]. }
  assert (Hno : ∀ v, ¬ frame_in m zero_page 0 UPAGES v) by (intros v (q & e & Hq & He & _); rewrite Hpte in He; [done|unfold UPAGES in Hq; lia]).
  assert (Ho : ∀ v, own_page (low_page i) zero_page v → v = low_page i) by (intros v [?|(n & Hn & Hf & _)]; [done|by rewrite zero_flag in Hf]).
  assert (H : holds kend0 m free_pages (low_page j, low_page i) zero_page).
  { split; simpl; [done|done| |apply Hno| |].
    - intros He%Ho. unfold low_page in He. lia.
    - split; [done|done|apply length_zero_page|done|intros n Hn Hf; by rewrite zero_flag in Hf|intros n n' Hn _ Hf; by rewrite zero_flag in Hf].
    - split; intros q e; [|intros e1 e2]; intros Hq; [|intros Hq']; rewrite Hpte; try done; unfold UPAGES in *; lia. }
  split; [exact H|]. intros v. rewrite (foot_holds _ _ _ _ _ _ H). simpl. intros [?|[?%Ho|[]%Hno]]; auto.
Qed.

#[local] Opaque parent_pd parent_tb zero_page chain free_pages.

Lemma table_some pd q t : VmMap.table pd q = Some t → flag (ent pd (q / 1024)) PTE_P = true ∧ t = tab (ent pd (q / 1024)).
Proof. unfold VmMap.table. destruct (flag _ _); [|done]. by intros [= <-]. Qed.

(** The address space of the zombie: one table and one page. *)
Lemma parent_own_page v : own_page dir_page parent_pd v → v = dir_page ∨ v = tab_page.
Proof. intros [?|(j & Hj & Hf & ->)]; [by left|right]. by apply parent_dir. Qed.

Lemma parent_pte q e : 0 ≤ q < UPAGES → pte_at (km_mem parent_kmem) parent_pd q = Some e → q = 0 ∧ tab e = user_page.
Proof.
  intros Hq (t & tb & Ht & Htb & He & Hf)%present_table. apply table_some in Ht as [Hd ->].
  destruct (page_index q ltac:(unfold UPAGES in *; lia)) as [H1 H2]. destruct (parent_dir _ H1 Hd) as [H3 H4]. rewrite H4 in Htb.
  rewrite (proj2 (parent_at tab_page ltac:(done))) in Htb. unfold parent_own in Htb. rewrite lookup_insert_ne, lookup_insert_eq in Htb by done. injection Htb as <-.
  with_strategy transparent [parent_tb] unfold parent_tb in He. rewrite ent_set in He; [|apply length_zero_page|lia|lia|done]. case_decide as Hm.
  - split; [|by subst e]. rewrite (Z.div_mod q 1024) by lia. lia.
  - rewrite ent_zero in He by done. by subst e.
Qed.

Lemma parent_holds : holds kend0 (km_mem parent_kmem) free_pages (page_a, dir_page) parent_pd ∧
  ∀ v, foot (km_mem parent_kmem) (page_a, dir_page) v → v ∈ [page_a; dir_page; tab_page; user_page].
Proof.
  assert (Hfr : ∀ v, frame_in (km_mem parent_kmem) parent_pd 0 UPAGES v → v = user_page) by (intros v (q & e & Hq & He & ->); by apply (parent_pte q)).
  assert (H : holds kend0 (km_mem parent_kmem) free_pages (page_a, dir_page) parent_pd).
  { split; simpl.
    - apply page_ab. by left.
    - by apply parent_at.
    - by intros [?|?]%parent_own_page.
    - by intros ?%Hfr.
    - apply parent_space.
    - split.
      + intros q e Hq He. destruct (parent_pte q e Hq He) as [_ ->]. split_and!; [repeat split; done|by apply parent_at|]. by intros [?|?]%parent_own_page.
      + intros q q' e e' Hq Hq' He He' _. destruct (parent_pte q e Hq He), (parent_pte q' e' Hq' He'). congruence. }
  split; [exact H|]. intros v. rewrite (foot_holds _ _ _ _ _ _ H). simpl. intros [->|[[->| ->]%parent_own_page| ->%Hfr]]; set_solver.
Qed.

Lemma low_page_other i v : 1 ≤ i ≤ 4 → v ∈ [page_a; dir_page; tab_page; user_page] → low_page i ≠ v.
Proof. unfold low_page, page_a, dir_page, page_b, tab_page, user_page. set_solver by lia. Qed.

Lemma three_apart m : m !! low_page 1 = Some zero_page → m !! low_page 2 = Some zero_page →
  (∀ v, v ≠ low_page 1 → v ≠ low_page 2 → m !! v = km_mem parent_kmem !! v) →
  let l := [(low_page 3, low_page 1); (low_page 4, low_page 2); (page_a, dir_page)] in
  Forall (λ kd, ∃ pd, holds kend0 m free_pages kd pd) l ∧ all_apart m l.
Proof.
  intros Hm1 Hm2 Hm l. destruct parent_holds as [Hp Hf].
  destruct (holds_ext kend0 _ m free_pages free_pages _ _ Hp) as [Hp' Hf'].
  { intros v Hv. apply Hf in Hv. apply Hm; apply not_eq_sym, low_page_other; (done || lia). }
  { intros v Hv. by left. }
  destruct (empty_holds 1 3 m ltac:(lia) ltac:(lia) ltac:(lia) Hm1) as [H1 F1].
  destruct (empty_holds 2 4 m ltac:(lia) ltac:(lia) ltac:(lia) Hm2) as [H2 F2].
  assert (Hfar : ∀ i, 1 ≤ i ≤ 4 → ¬ foot m (page_a, dir_page) (low_page i)).
  { intros i Hi Hv. apply Hf', Hf in Hv. exact (low_page_other i _ Hi Hv eq_refl). }
  split; [repeat constructor; eauto|]. unfold l. cbn [all_apart]. split_and!; [|repeat constructor|constructor|done].
  - repeat constructor; intros v Hv%F1.
    + intros Hv'%F2. unfold low_page in *. lia.
    + destruct Hv as [->| ->]; apply Hfar; lia.
  - intros v Hv%F2. destruct Hv as [->| ->]; apply Hfar; lia.
Qed.

Lemma two_more_at k : km_mem (two_more k) !! low_page 1 = Some zero_page ∧ km_mem (two_more k) !! low_page 2 = Some zero_page ∧
  ∀ v, v ≠ low_page 1 → v ≠ low_page 2 → km_mem (two_more k) !! v = km_mem k !! v.
Proof.
  unfold two_more. cbn. split_and!; [apply lookup_insert_eq| |].
  - rewrite lookup_insert_ne by (unfold low_page; lia). apply lookup_insert_eq.
  - intros v H1 H2. by rewrite !lookup_insert_ne by congruence.
Qed.

Lemma two_more_holdings k F held en l : free_list kend0 k F → km_ready k held en → (low_page 1 ∉ F) → (low_page 2 ∉ F) →
  Forall (λ kd, ∃ pd, holds kend0 (km_mem (two_more k)) F kd pd) l → all_apart (km_mem (two_more k)) l → holdings kend0 (two_more k, tt) l.
Proof.
  intros Hf Hr H1 H2 Hl Ha. exists F, held, en. split_and!; [|done..]. eapply free_list_ext; [exact Hf|done|]. intros v Hv. apply two_more_at; by intros ->.
Qed.

Lemma three_holdings : holdings kend0 (three_kmem, tt) [(low_page 3, low_page 1); (low_page 4, low_page 2); (page_a, dir_page)].
Proof.
  pose proof parent_space as [Sf Sr _]. destruct (two_more_at parent_kmem) as (H1 & H2 & H3). destruct (three_apart _ H1 H2 H3) as [Hh Ha].
  exact (two_more_holdings _ _ _ _ _ Sf Sr (proj2 (low_page_ok 1 ltac:(lia))) (proj2 (low_page_ok 2 ltac:(lia))) Hh Ha).
Qed.

(** The zombie can be freed: wait() of the running process completes. *)
Lemma sections_complete_witness :
  let m := demo_machine (three_table (three_kmem, tt)) in
  completes (wait_section (KEnv0 := mem_env kend0 2148597760 []) 2147483648) (enter m demo_cpu) ∧
  completes (sched_section (KEnv0 := mem_env kend0 2148597760 []) 2147483648) (enter m (idle0 1)).
Proof.
  intros m. assert (Ha : active m 0 demo_cpu 1 [] true) by (split_and!; [done..|by apply unlocked_disc]).
  assert (Hm : mem_inv (KMem0 := mem_kmem kend0 2148597760 [] eq_refl) m) by (unfold mem_inv; simpl; rewrite three_memories; exact three_holdings).
  split.
  - exact (proj2 (proj2 (proj1 (sections_complete 2147483648 m m _ 0 demo_cpu (three_inv _) Hm (rtc_refl _ _) eq_refl) 1%nat true Ha))).
  - exact (proj2 (proj2 (proj2 (proj2 (sections_complete 2147483648 m m _ 1 (idle0 1) (three_inv _) Hm
      (rtc_refl _ _) eq_refl)))) true eq_refl (unlocked_disc (idle0 1) eq_refl eq_refl)).
Defined.
