(* ===== verification/Sysproc.v ===== *)
(** * System calls on processes (sysproc.c, getprocs() of proc.c)

    The state is that of proc.c with the memory of the calling process. A call
    that switches to the scheduler ends there, [Gone]. The real-time clock and
    the power-off port are outside the kernel: the time, what cmostime() of
    Cmos.v returns, is a parameter. The theorems are about
    getprocs(). *)

From S2P Require Import Prelude Bytes Mem Spinlock Str Syscall Proc ProcOps ProcInv ProcSpec ProcThms.

Definition STRMAX : nat := 32.

(** sizeof(struct uproc) *)
Definition UPROC : Z := 96.

(** states[], as bytes. *)
Definition states (st : procstate) : list Z :=
  match st with
  | UNUSED => [117; 110; 117; 115; 101; 100; 0]
  | EMBRYO => [101; 109; 98; 114; 121; 111; 0]
  | SLEEPING => [115; 108; 101; 101; 112; 32; 0]
  | RUNNABLE => [114; 117; 110; 98; 108; 101; 0]
  | RUNNING => [114; 117; 110; 32; 32; 32; 0]
  | ZOMBIE => [122; 111; 109; 98; 105; 101; 0]
  end.

(** safestrcpy() into the STRMAX bytes at [o] of an entry. *)
Definition put_name (o : nat) (s b : list Z) : option (list Z) :=
  r ← safestrcpy (take STRMAX (drop o b)) s STRMAX;
  Some (splice b o r).

(** The fields of an entry, in the order of struct uproc. *)
Definition fill_uproc (x : proc) (ppid ticks : Z) (b : list Z) : option (list Z) :=
  let b := put_le 4 b 0 (p_pid x) in
  let b := put_le 4 b 4 (p_uid x) in
  let b := put_le 4 b 8 (p_gid x) in
  let b := put_le 4 b 12 ppid in
  let b := put_le 4 b 16 (u32 (ticks - p_start_ticks x)) in
  let b := put_le 4 b 20 (p_cpu_ticks_total x) in
  b ← put_name 24 (states (p_state x)) b;
  let b := put_le 4 b 56 (p_sz x) in
  b ← put_name 64 (p_name x) b;
  Some (put_le 4 b 60 (p_prio x)).

(** The states getprocs() reports. *)
Definition reported (st : procstate) : bool := bool_decide (st ∈ [RUNNABLE; RUNNING; SLEEPING]).

Section sysproc.
Context {E : Type} `{!KEnv E}.
Abbreviation S := (M (kstate E * user)).

Definition kop {A} (m : M (kstate E) A) : S A := lift fst (λ k s, (k, s.2)) m.
Definition uop {A} (m : M user A) : S A := lift snd (λ u s, (s.1, u)) m.

(** proc, which is not null in a system call. *)
Definition me : S proc := kop (p ← curproc; p ← deref p; rd p).

(** ** getprocs() *)

(** table[entities] = ... for the process [x]. *)
Definition put_uproc (t : Z) (x : proc) : S unit :=
  ppid ← (if p_pid x =? 1 then mret (p_pid x)
          else q ← kop (deref (p_parent x)); y ← kop (rd q); mret (p_pid y));
  now ← kop ticks;
  b ← uop (get_user t (Z.to_nat UPROC));
  match fill_uproc x ppid now b with
  | Some b => uop (put_user t b)
  | None => fault
  end.

(** The loop over the [n] slots from [p] on. *)
Fixpoint getprocs_loop (n p : nat) (max table ent : Z) : S Z :=
  match n with
  | O => mret ent
  | Datatypes.S n =>
    if ent <? max then
      x ← kop (rd p);
      if reported (p_state x) then
        put_uproc (u32 (table + UPROC * ent)) x;;
        getprocs_loop n (Datatypes.S p) max table (ent + 1)
      else getprocs_loop n (Datatypes.S p) max table ent
    else mret ent
  end.

Definition getprocs (max table : Z) : S Z :=
  kop acquire_pt;;
  ent ← getprocs_loop NPROC 0 max table 0;
  kop release_pt;;
  mret (if ent =? 0 then -1 else s32 ent).

(** ** The calls *)

Definition sys_fork : S Z := kop fork.
Definition sys_exit : S (ctl Z) := _ ← kop exit; mret Gone.
Definition sys_wait : S (ctl Z) := kop wait.

Definition sys_kill : S Z :=
  r ← uop (argint 0);
  match r with None => mret (-1) | Some pid => kop (kill pid) end.

Definition sys_getpid : S Z := x ← me; mret (s32 (p_pid x)).

Definition sys_sbrk : S Z :=
  r ← uop (argint 0);
  match r with
  | None => mret (-1)
  | Some n =>
    x ← me;
    let addr := s32 (p_sz x) in
    r ← kop (growproc n);
    mret (if r <? 0 then -1 else addr)
  end.

(** An iteration of the loop of sys_sleep(), which started at [ticks0]: the
    test of the elapsed ticks is unsigned. *)
Definition sleep_iter (n ticks0 : Z) : S (ctl Z) :=
  t ← kop ticks;
  if u32 (t - ticks0) <? u32 n then
    x ← me;
    if negb (p_killed x =? 0) then mret (Ret (-1))
    else _ ← kop (sleep ChTicks None); mret Gone
  else mret (Ret 0).

Definition sys_sleep : S (ctl Z) :=
  r ← uop (argint 0);
  match r with
  | None => mret (Ret (-1))
  | Some n => ticks0 ← kop ticks; sleep_iter n ticks0
  end.

Definition sys_uptime : S Z := t ← kop ticks; mret (s32 t).

(** [now] is what cmostime() reads: six words. *)
Definition sys_date (now : list Z) : S Z :=
  r ← uop (argptr 0 24);
  match r with
  | None => mret (-1)
  | Some d => uop (put_user d (now ≫= le_bytes 4));; mret 0
  end.

Definition sys_getuid : S Z := x ← me; mret (s32 (p_uid x)).
Definition sys_getgid : S Z := x ← me; mret (s32 (p_gid x)).
Definition sys_getppid : S Z :=
  x ← me;
  if p_pid x =? 1 then mret (s32 (p_pid x))
  else q ← kop (deref (p_parent x)); y ← kop (rd q); mret (s32 (p_pid y)).

Definition sys_setuid : S Z :=
  r ← uop (argint 0);
  match r with None => mret (-1) | Some u => kop (setuid (u32 u)) end.
Definition sys_setgid : S Z :=
  r ← uop (argint 0);
  match r with None => mret (-1) | Some g => kop (setgid (u32 g)) end.

(** sizeof(struct uproc)*max is computed in 32 bits, and an int for argptr(). *)
Definition sys_getprocs : S Z :=
  r ← uop (argint 0);
  match r with
  | None => mret (-1)
  | Some max =>
    r ← uop (argptr 1 (s32 (UPROC * max)));
    match r with None => mret (-1) | Some u => getprocs (u32 max) u end
  end.

Definition sys_setpriority : S Z :=
  r ← uop (argint 1);
  match r with
  | None => mret (-1)
  | Some prio =>
    r ← uop (argint 0);
    match r with None => mret (-1) | Some pid => kop (setpriority pid prio) end
  end.
End sysproc.

(** ** getprocs() reports the processes

    What getprocs() stores, entry by entry, and that a count for which the
    size of the table wraps around passes the check of the pointer. *)

(** An entry of the table for the process [x]. *)
Record entry_ok (b : list Z) (x : proc) (ppid t : Z) : Prop := {
  en_pid : get_le 4 b 0 = u32 (p_pid x);
  en_uid : get_le 4 b 4 = u32 (p_uid x);
  en_gid : get_le 4 b 8 = u32 (p_gid x);
  en_ppid : get_le 4 b 12 = u32 ppid;
  en_elapsed : get_le 4 b 16 = u32 (t - p_start_ticks x);
  en_cpu : get_le 4 b 20 = u32 (p_cpu_ticks_total x);
  en_state : cstr (take STRMAX (drop 24 b)) = cstr (states (p_state x));
  en_size : get_le 4 b 56 = u32 (p_sz x);
  en_prio : get_le 4 b 60 = u32 (p_prio x);
  en_name : cstr (take STRMAX (drop 64 b)) = take (STRMAX - 1) (cstr (p_name x));
}.

Lemma get_put_u32 m o v : (o + 4 ≤ length m)%nat → get_le 4 (put_le 4 m o v) o = u32 v.
Proof.
  intros Ho. unfold get_le, put_le. rewrite <- (length_le_bytes 4 v) at 1. rewrite take_drop_splice by (by rewrite length_le_bytes). by rewrite le_val_bytes.
Qed.

Lemma put_len n m o v L : length m = L → (o + n ≤ L)%nat → length (put_le n m o v) = L.
Proof. intros <- Ho. by apply length_put_le. Qed.

(** What does not overlap a field is kept. *)
Lemma slice_put n m o v o' k : (o + n ≤ length m)%nat → (o' + k ≤ o ∨ o + n ≤ o')%nat → take k (drop o' (put_le n m o v)) = take k (drop o' m).
Proof. intros Ho Hd. unfold put_le. by rewrite take_drop_splice_ne by (rewrite length_le_bytes; lia). Qed.

Lemma put_name_spec o s b : (o + STRMAX ≤ length b)%nat → 0 ∈ s →
  ∃ b', put_name o s b = Some b' ∧ length b' = length b ∧ cstr (take STRMAX (drop o b')) = take (STRMAX - 1) (cstr s) ∧
    ∀ o' k, (o' + k ≤ o ∨ o + STRMAX ≤ o')%nat → take k (drop o' b') = take k (drop o' b).
Proof.
  intros Ho Hs. assert (Hl : length (take STRMAX (drop o b)) = STRMAX) by (rewrite length_take, length_drop; lia).
  destruct (safestrcpy_correct (take STRMAX (drop o b)) s STRMAX) as (r & Hr & Hlr & _ & Hc & _); [rewrite Hl; unfold STRMAX; lia|done|].
  unfold put_name. rewrite Hr. cbn [mbind option_bind]. rewrite Hl in Hlr. eexists. split; [done|]. split; [apply length_splice; lia|]. split.
  - rewrite <- Hlr at 1. by rewrite take_drop_splice by lia.
  - intros o' k Hd. apply take_drop_splice_ne; lia.
Qed.

Lemma states_nul st : 0 ∈ states st ∧ take (STRMAX - 1) (cstr (states st)) = cstr (states st).
Proof. destruct st; (split; [set_unfold; lia|done]). Qed.

(** The six words at the beginning of an entry. *)
Definition words6 (b : list Z) (v0 v1 v2 v3 v4 v5 : Z) : list Z :=
  put_le 4 (put_le 4 (put_le 4 (put_le 4 (put_le 4 (put_le 4 b 0 v0) 4 v1) 8 v2) 12 v3) 16 v4) 20 v5.

Lemma words6_spec b v0 v1 v2 v3 v4 v5 : length b = 96%nat → let w := words6 b v0 v1 v2 v3 v4 v5 in
  length w = 96%nat ∧ get_le 4 w 0 = u32 v0 ∧ get_le 4 w 4 = u32 v1 ∧ get_le 4 w 8 = u32 v2 ∧ get_le 4 w 12 = u32 v3 ∧ get_le 4 w 16 = u32 v4 ∧ get_le 4 w 20 = u32 v5.
Proof.
  intros Hb w. unfold w, words6. clear w.
  set (b0 := put_le 4 b 0 v0). assert (L0 : length b0 = 96%nat) by (apply put_len; [done|lia]).
  set (b1 := put_le 4 b0 4 v1). assert (L1 : length b1 = 96%nat) by (apply put_len; [done|lia]).
  set (b2 := put_le 4 b1 8 v2). assert (L2 : length b2 = 96%nat) by (apply put_len; [done|lia]).
  set (b3 := put_le 4 b2 12 v3). assert (L3 : length b3 = 96%nat) by (apply put_len; [done|lia]).
  set (b4 := put_le 4 b3 16 v4). assert (L4 : length b4 = 96%nat) by (apply put_len; [done|lia]).
  split; [by apply put_len; [|lia]|]. rewrite !get_put_ne by lia. rewrite get_put_u32 by lia.
  unfold b4. rewrite !get_put_ne by lia. rewrite get_put_u32 by lia. unfold b3. rewrite !get_put_ne by lia. rewrite get_put_u32 by lia.
  unfold b2. rewrite !get_put_ne by lia. rewrite get_put_u32 by lia. unfold b1. rewrite !get_put_ne by lia. rewrite get_put_u32 by lia.
  unfold b0. by rewrite get_put_u32 by lia.
Qed.

Lemma fill_uproc_spec x ppid t b : length b = Z.to_nat UPROC → 0 ∈ p_name x →
  ∃ b', fill_uproc x ppid t b = Some b' ∧ length b' = Z.to_nat UPROC ∧ entry_ok b' x ppid t.
Proof.
  intros Hb Hn. unfold UPROC in *. change (Z.to_nat 96) with 96%nat in *. unfold fill_uproc. cbv zeta.
  destruct (words6_spec b (p_pid x) (p_uid x) (p_gid x) ppid (u32 (t - p_start_ticks x)) (p_cpu_ticks_total x) Hb) as (Hb1 & W0 & W1 & W2 & W3 & W4 & W5).
  unfold words6 in *. set (b1 := put_le 4 _ 20 _) in *. destruct (states_nul (p_state x)) as [Hs0 Hst].
  destruct (put_name_spec 24 (states (p_state x)) b1) as (b2 & -> & L2 & C2 & K2); [rewrite Hb1; unfold STRMAX; lia|done|]. cbn [mbind option_bind].
  set (b3 := put_le 4 b2 56 (p_sz x)). assert (Hb3 : length b3 = 96%nat) by (apply put_len; [congruence|lia]).
  destruct (put_name_spec 64 (p_name x) b3) as (b4 & -> & L4 & C4 & K4); [rewrite Hb3; unfold STRMAX; lia|done|]. cbn [mbind option_bind].
  assert (Hb4 : length b4 = 96%nat) by congruence. eexists. split; [done|]. split; [by apply put_len; [|lia]|].
  assert (Hlow : ∀ o k, (o + k ≤ 56)%nat → take k (drop o (put_le 4 b4 60 (p_prio x))) = take k (drop o b2)).
  { intros o k Hk. rewrite slice_put, K4 by lia. unfold b3. by rewrite slice_put by lia. }
  assert (Hget : ∀ o, (o + 4 ≤ 24)%nat → get_le 4 (put_le 4 b4 60 (p_prio x)) o = get_le 4 b1 o).
  { intros o Ho. unfold get_le. rewrite Hlow, K2 by lia. done. }
  split; rewrite ?Hget by lia; try done.
  - rewrite W4. unfold u32. by rewrite Zmod_mod.
  - rewrite Hlow by (unfold STRMAX; lia). congruence.
  - rewrite get_put_ne by lia. unfold get_le. rewrite K4 by lia. change (get_le 4 b3 56 = u32 (p_sz x)). unfold b3. apply get_put_u32. lia.
  - apply get_put_u32. lia.
  - rewrite slice_put by lia. done.
Qed.

Section getprocs.
Context {E : Type} `{!KEnv E}.
Implicit Types (s : kstate E) (u : user).

(** The parent getprocs() reports. *)
Definition ppid_of s (x : proc) : option Z :=
  if p_pid x =? 1 then Some (p_pid x) else q ← p_parent x; y ← k_procs s !! q; Some (p_pid y).

(** The processes getprocs() reports, in the order of the table. *)
Definition live s : list proc := filter (λ x, reported (p_state x) = true) (k_procs s).

(** A process that can be reported. *)
Definition reportable s (x : proc) : Prop := is_Some (ppid_of s x) ∧ 0 ∈ p_name x.

(** [n] entries at [t] of [m'], which is [m] otherwise. *)
Record entries s (t : nat) (l : list proc) (m m' : list Z) : Prop := {
  es_len : length m' = length m;
  es_before : take t m' = take t m;
  es_after : drop (t + 96 * length l) m' = drop (t + 96 * length l) m;
  es_entry i x : l !! i = Some x → ∃ ppid, ppid_of s x = Some ppid ∧ entry_ok (take 96 (drop (t + 96 * i) m')) x ppid (k_ticks s);
}.

Lemma put_uproc_spec s u t x : reportable s x → 0 ≤ t → (Z.to_nat t + 96 ≤ length (u_mem u))%nat →
  wp (put_uproc t x) (λ _ r, ∃ b ppid, length b = 96%nat ∧ ppid_of s x = Some ppid ∧ entry_ok b x ppid (k_ticks s) ∧
    r = (s, u <| u_mem ::= λ m, splice m (Z.to_nat t) b |>)) (s, u).
Proof.
  intros [[ppid Hp] Hn] Ht Hm. unfold put_uproc. apply wp_bind.
  eapply (wp_mono _ (λ v r, v = ppid ∧ r = (s, u))).
  { unfold ppid_of in Hp. destruct (p_pid x =? 1); [injection Hp as <-; by apply wp_ret|]. destruct (p_parent x) as [q|]; [|done]. simpl in Hp.
    destruct (k_procs s !! q) as [y|] eqn:Hq; [|done]. injection Hp as <-. apply wp_bind. apply wp_ret. apply wp_bind, wp_lift. unfold wp, rd. cbn [fst]. rewrite Hq. done. }
  intros v r [-> ->]. apply wp_bind, wp_lift, wp_gets, wp_bind, wp_lift. unfold wp at 1, get_user. cbn [snd].
  rewrite bool_decide_true by (unfold UPROC; lia). cbn [fst].
  assert (Hlen : length (take (Z.to_nat UPROC) (drop (Z.to_nat t) (u_mem u))) = Z.to_nat UPROC) by (rewrite length_take, length_drop; unfold UPROC; lia).
  destruct (fill_uproc_spec x ppid (k_ticks s) _ Hlen Hn) as (b & Hf & Hb & He). rewrite Hf. apply wp_lift. unfold wp, put_user. cbn [snd].
  change (Z.to_nat UPROC) with 96%nat in Hb. rewrite bool_decide_true by lia. exists b, ppid. done.
Qed.

Lemma entries_nil s t m : entries s t [] m m.
Proof. split; [done|done|done|]. intros i x Hx. by rewrite lookup_nil in Hx. Qed.

(** An entry, and those behind it. *)
Lemma entries_cons s t x ppid b l m m' : length b = 96%nat → (t + 96 * S (length l) ≤ length m)%nat → ppid_of s x = Some ppid → entry_ok b x ppid (k_ticks s) →
  entries s (t + 96) l (splice m t b) m' → entries s t (x :: l) m m'.
Proof.
  intros Hb Hm Hp He [H1 H2 H3 H4]. assert (Hs : length (splice m t b) = length m) by (apply length_splice; lia). split.
  - congruence.
  - apply (f_equal (take t)) in H2. rewrite !take_take, !Nat.min_l in H2 by lia. rewrite H2. unfold splice. rewrite take_app_le, take_take by (rewrite length_take; lia). f_equal. lia.
  - cbn [length]. replace (t + 96 * S (length l))%nat with (t + 96 + 96 * length l)%nat by lia. rewrite H3. apply list_eq. intros i. rewrite !lookup_drop.
    apply lookup_splice_out; lia.
  - intros [|i] y Hy; simpl in Hy.
    + injection Hy as <-. exists ppid. split; [done|]. replace (t + 96 * 0)%nat with t by lia.
      assert (E1 : take 96 (drop t m') = b); [|by rewrite E1]. apply (f_equal (drop t)) in H2. rewrite !skipn_firstn_comm in H2. replace (t + 96 - t)%nat with 96%nat in H2 by lia.
      rewrite H2. rewrite <- Hb at 1. apply take_drop_splice. lia.
    + destruct (H4 i y Hy) as (pp & Hpp & Ho). exists pp. split; [done|]. by replace (t + 96 * S i)%nat with (t + 96 + 96 * i)%nat by lia.
Qed.

(** What is reported of the slots from [p] on. *)
Definition rest_live s (n p : nat) (k : nat) : list proc := take k (filter (λ x, reported (p_state x) = true) (take n (drop p (k_procs s)))).

Lemma getprocs_loop_spec s n p max table ent u : (p + n ≤ length (k_procs s))%nat → Forall (reportable s) (live s) → 0 ≤ ent → 0 ≤ table → max < 2 ^ 32 →
  let l := rest_live s n p (Z.to_nat (max - ent)) in
  table + 96 * (ent + Z.of_nat (length l)) ≤ Z.of_nat (length (u_mem u)) < 2 ^ 32 →
  wp (getprocs_loop n p max table ent) (λ r w, r = ent + Z.of_nat (length l) ∧ ∃ m', w = (s, u <| u_mem := m' |>) ∧
    entries s (Z.to_nat (table + 96 * ent)) l (u_mem u) m') (s, u).
Proof.
  intros Hn Hrep. revert p ent u Hn. induction n as [|n IH]; intros p ent u Hn Hent Htab Hmax l Hm; cbn [getprocs_loop].
  { apply wp_ret. unfold l, rest_live. rewrite take_0, filter_nil, take_nil. simpl. split; [lia|]. exists (u_mem u). split; [by destruct u|apply entries_nil]. }
  destruct (Z.ltb_spec ent max) as [Hlt|Hge].
  2: { apply wp_ret. unfold l, rest_live. replace (Z.to_nat (max - ent)) with 0%nat by lia. rewrite take_0. simpl. split; [lia|].
       exists (u_mem u). split; [by destruct u|apply entries_nil]. }
  destruct (lookup_lt_is_Some_2 (k_procs s) p ltac:(lia)) as [x Hx]. apply wp_bind, wp_lift. unfold wp at 1, rd. cbn [fst]. rewrite Hx.
  assert (El : l = if reported (p_state x) then x :: rest_live s n (S p) (Z.to_nat (max - (ent + 1))) else rest_live s n (S p) (Z.to_nat (max - ent))).
  { unfold l, rest_live. rewrite (drop_S _ _ _ Hx). cbn [take]. destruct (reported (p_state x)) eqn:Er.
    - rewrite filter_cons_True by done. replace (Z.to_nat (max - ent)) with (S (Z.to_nat (max - (ent + 1)))) by lia. done.
    - rewrite filter_cons_False by congruence. done. }
  destruct (reported (p_state x)) eqn:Er.
  - rewrite El in Hm |- *. cbn [length] in Hm |- *. assert (Hxr : reportable s x).
    { rewrite Forall_forall in Hrep. apply Hrep. unfold live. apply list_elem_of_filter. split; [done|]. by eapply list_elem_of_lookup_2. }
    assert (Et : u32 (table + UPROC * ent) = table + 96 * ent) by (unfold UPROC; apply u32_small; lia). rewrite Et.
    apply wp_bind. eapply wp_mono; [apply (put_uproc_spec s u); [done|lia|lia]|]. intros [] r (b & ppid & Hb & Hp & He & ->).
    set (l' := rest_live s n (S p) (Z.to_nat (max - (ent + 1)))) in *.
    assert (Hsp : length (splice (u_mem u) (Z.to_nat (table + 96 * ent)) b) = length (u_mem u)) by (apply length_splice; lia).
    eapply wp_mono; [apply (IH (S p) (ent + 1)); [lia|lia|done|done|]|].
    { change (table + 96 * (ent + 1 + Z.of_nat (length l')) ≤ Z.of_nat (length (splice (u_mem u) (Z.to_nat (table + 96 * ent)) b)) < 2 ^ 32). rewrite Hsp. lia. }
    intros r s' (-> & m' & -> & He'). fold l' in He'. fold l'. split; [lia|]. exists m'. split; [done|]. simpl in He'. eapply entries_cons; [exact Hb|lia|exact Hp|exact He|].
    by replace (Z.to_nat (table + 96 * ent) + 96)%nat with (Z.to_nat (table + 96 * (ent + 1))) by lia.
  - rewrite El in Hm |- *. by apply IH; [lia|..].
Qed.

(** C27: getprocs(max, table) stores one entry for each of the first max
    RUNNABLE, RUNNING and SLEEPING processes, in the order of the process
    table: pid, uid, gid, pid of the parent, elapsed and CPU ticks, size and
    priority, and the names of state and program as NUL-terminated strings. It
    returns the number of entries, or -1 if there are none, writes nothing
    outside of them, changes no process, and gives ptable.lock back. *)
Theorem getprocs_correct s u held e max table :
  length (k_procs s) = NPROC → disc (k_hw s) held e → lk_locked (h_locks (k_hw s) LPtable) = false →
  Forall (reportable s) (live s) → 0 ≤ max < 2 ^ 32 → 0 ≤ table →
  let l := take (Z.to_nat max) (live s) in
  table + UPROC * Z.of_nat (length l) ≤ Z.of_nat (length (u_mem u)) < 2 ^ 32 →
  wp (getprocs max table) (λ r w, r = (if bool_decide (l = []) then -1 else Z.of_nat (length l)) ∧
    ∃ h m', w = (s <| k_hw := h |>, u <| u_mem := m' |>) ∧ disc h held e ∧ lock_cycled (k_hw s) h ∧
      entries s (Z.to_nat table) l (u_mem u) m') (s, u).
Proof.
  intros Hlen D Hf Hrep Hmax Htab l Hm. unfold getprocs. apply wp_bind, wp_lift. unfold acquire_pt, hwop. apply wp_lift.
  eapply acquire_spec; [exact D|exact Hf|]. intros h1 D1 Hs1 Hl1. cbn [fst snd]. apply wp_bind. set (s1 := s <| k_hw := h1 |>).
  assert (El : rest_live s1 NPROC 0 (Z.to_nat (max - 0)) = l).
  { unfold rest_live, l, live. rewrite Z.sub_0_r. f_equal. f_equal. rewrite drop_0. apply take_ge. simpl. lia. }
  pose proof (getprocs_loop_spec s1 NPROC 0 max table 0 u) as Hloop. cbv zeta in Hloop. rewrite El in Hloop. unfold UPROC in Hm.
  eapply wp_mono; [apply Hloop; [simpl; lia|done|lia|done|lia|lia]|]. intros r w (-> & m' & -> & He). apply wp_bind, wp_lift. unfold release_pt, hwop. apply wp_lift.
  eapply release_spec; [exact D1|]. intros h2 D2 Hs2 Hl2. cbn [fst snd]. apply wp_ret. split.
  - rewrite Z.add_0_l. case_bool_decide as Hl; [by rewrite Hl|]. rewrite (proj2 (Z.eqb_neq _ _)) by (destruct l; [done|simpl; lia]).
    assert (Hb : (length l ≤ NPROC)%nat) by (unfold l, live; rewrite length_take; pose proof (length_filter (λ x, reported (p_state x) = true) (k_procs s)); lia).
    unfold NPROC in Hb. unfold s32. rewrite Z.mod_small; lia.
  - exists h2, m'. split; [done|]. split; [done|]. replace (table + 96 * 0) with table in He by lia.
    split; [eapply locks_set_twice; done|]. by destruct He; split.
Qed.
End getprocs.

(** ** Instances *)

Definition room0 : user := mkUser 1000 (replicate 1000 7) 0 0.

#[local] Instance reportable_dec x : Decision (reportable demo x).
Proof. unfold reportable. apply _. Defined.

Lemma demo_reportable : Forall (reportable demo) (live demo).
Proof. apply (bool_decide_unpack _). vm_compute. exact I. Qed.

Lemma getprocs_correct_witness : wp (getprocs 4 100) (λ r w, r = 4 ∧ ∃ h m', w = (demo <| k_hw := h |>, room0 <| u_mem := m' |>) ∧
  entries demo 100 (take 4 (live demo)) (u_mem room0) m') (demo, room0).
Proof.
  eapply wp_mono; [apply (getprocs_correct demo room0 [] true 4 100 eq_refl (proj2 demo_on_cpu) eq_refl demo_reportable); [lia|lia|]|].
  - vm_compute. done.
  - intros r w (-> & h & m' & -> & _ & _ & He). split; [reflexivity|]. exists h, m'. done.
Defined.

(** A process of 64 bytes, on a page of which 600 are shown, with the
    arguments 44739243 and 16. *)
Definition small0 : user := mkUser 64 (replicate 4 0 ++ le_bytes 4 44739243 ++ le_bytes 4 16 ++ replicate 588 7) 0 0.

(** For a count that makes sizeof(struct uproc) * max wrap around, the
    check of the table passes although the table does not fit into the
    process: getprocs(44739243, 16) in a process of 64 bytes is checked for 32
    bytes, and the kernel stores its entries beyond the end of the process. *)
Theorem sys_getprocs_overruns : s32 (UPROC * 44739243) = 32 ∧
  ∃ k u', sys_getprocs (demo, small0) = Done 5 (k, u') ∧ u_mem u' !! 112%nat = Some 2 ∧ u_sz u' = 64.
Proof. split; [reflexivity|]. do 2 eexists. split; [vm_compute; reflexivity|]. vm_compute. split; reflexivity. Qed.
