(* ===== verification/Trap.v ===== *)
(** * Traps and interrupts (trap.c)

    trap() up to its end or to a switch to the scheduler, [Gone]. What the
    interrupt handlers of the devices do to the rest of the kernel, [E], is the
    interface [TrapEnv]: they return the channels they woke. [syscall] is the
    dispatch of the system calls on the state of proc.c. *)

From S2P Require Import Prelude Mem Spinlock Str Proc ProcOps ProcInv ProcSpec ProcCheck ProcThms.

Definition T_SYSCALL : Z := 64.
Definition T_IRQ0 : Z := 32.
Definition IRQ_TIMER : Z := 0.
Definition IRQ_KBD : Z := 1.
Definition IRQ_COM1 : Z := 4.
Definition IRQ_IDE : Z := 14.
Definition IRQ_SPURIOUS : Z := 31.
Definition DPL_USER : Z := 3.

(** TPS/100 with TPS = 1000 *)
Definition SCHED_INTERVAL : Z := 10.

Class TrapEnv (E : Type) : Type := {
  t_ideintr : M E (list chan);
  t_kbdintr : M E (list chan);
  t_uartintr : M E (list chan);
}.

Section trap.
Context {E : Type} `{!KEnv E} `{!TrapEnv E} (syscall : M (kstate E) (ctl unit)).
Abbreviation K := (M (kstate E)).

(** [(tf->cs&3) == DPL_USER] *)
Definition from_user (tf : trapframe) : bool := Z.land (tf_cs tf) 3 =? DPL_USER.

(** proc && proc->killed *)
Definition proc_killed : K bool :=
  p ← curproc;
  match p with
  | None => mret false
  | Some p => x ← rd p; mret (negb (p_killed x =? 0))
  end.

(** The first branch of trap(). *)
Definition trap_syscall (tf : trapframe) : K (ctl unit) :=
  p ← curproc; p ← deref p;
  x ← rd p;
  if negb (p_killed x =? 0) then exit
  else
    wr p (λ x, x <| p_tf := tf |>);;
    r ← syscall;
    match r with
    | Gone => mret Gone
    | Ret _ =>
      x ← rd p;
      if negb (p_killed x =? 0) then exit else mret (Ret tt)
    end.

(** The switch over the trap number. *)
Definition trap_irq (tf : trapframe) : K unit :=
  let n := tf_trapno tf in
  if n =? T_IRQ0 + IRQ_TIMER then
    c ← curcpu;
    when (c_id c =? 0)%nat (tick;; wakeup ChTicks)
  else if n =? T_IRQ0 + IRQ_IDE then cs ← envop t_ideintr; wakeups cs
  else if n =? T_IRQ0 + IRQ_IDE + 1 then mret tt
  else if n =? T_IRQ0 + IRQ_KBD then cs ← envop t_kbdintr; wakeups cs
  else if n =? T_IRQ0 + IRQ_COM1 then cs ← envop t_uartintr; wakeups cs
  else if (n =? T_IRQ0 + 7) || (n =? T_IRQ0 + IRQ_SPURIOUS) then mret tt
  else
    p ← curproc;
    match p with
    | None => panic "trap"
    | Some p =>
      panic_if (Z.land (tf_cs tf) 3 =? 0) "trap";;
      wr p (λ x, x <| p_killed := 1 |>)
    end.

(** Whether the clock makes the process give up the CPU. *)
Definition preempts (tf : trapframe) : K bool :=
  p ← curproc;
  match p with
  | None => mret false
  | Some p =>
    x ← rd p;
    t ← ticks;
    mret (bool_decide (p_state x = RUNNING) && (tf_trapno tf =? T_IRQ0 + IRQ_TIMER) && (t mod SCHED_INTERVAL =? 0))
  end.

(** After the switch, and again after a yield(). *)
Definition exit_if_killed (tf : trapframe) (rest : K (ctl unit)) : K (ctl unit) :=
  k ← proc_killed;
  if k && from_user tf then exit else rest.

Definition trap (tf : trapframe) : K (ctl unit) :=
  if tf_trapno tf =? T_SYSCALL then trap_syscall tf
  else
    trap_irq tf;;
    exit_if_killed tf (
      y ← preempts tf;
      if (y : bool) then yield else exit_if_killed tf (mret (Ret tt))).

(** trap() when yield() has returned. *)
Definition trap_back (tf : trapframe) : K (ctl unit) := exit_if_killed tf (mret (Ret tt)).
End trap.

(** ** The clock *)

Section clock.
Context {E : Type} `{!KEnv E} `{!TrapEnv E} (syscall : M (kstate E) (ctl unit)).
Implicit Types (a s : kstate E) (L : slist → list nat) (p q : nat) (x : proc).

(** The state after a tick, with the sleepers awake. *)
Definition ticked a : kstate E := wake ChTicks (a <| k_ticks := u32 (k_ticks a + 1) |>).

(** What the clock does to [p]: with [due] it gives the CPU up. *)
Definition clocked (due : bool) e p x L a (r : ctl unit) s' : Prop := ∃ h,
  if due then
    r = Gone ∧ disc h [LPtable] e ∧ lock_taken (k_hw a) h ∧
    wf None ((upd p (yielded (k_ticks a) e) a) <| k_hw := h |>)
      (to_tail (home (yielded (k_ticks a) e x)) p (take_off SRunning p L)) s'
  else
    r = Ret tt ∧ disc h [] e ∧ lock_cycled (k_hw a) h ∧ wf None (a <| k_hw := h |>) L s'.

Lemma ticked_running p x s : k_procs s !! p = Some x → p_state x = RUNNING → k_procs (ticked s) !! p = Some x.
Proof.
  intros Hx Hst. unfold ticked, wake. simpl. rewrite list_lookup_fmap, Hx. simpl. unfold woken.
  rewrite decide_False; [done|]. rewrite Hst. naive_solver.
Qed.

(** On a process that has not been killed the checks have no effect. *)
Lemma exit_if_killed_spec tf rest a L s p x Q :
  wf None a L s → c_proc (h_cpu (k_hw a)) = Some p → k_procs a !! p = Some x → p_killed x = 0 →
  wp rest Q s → wp (exit_if_killed tf rest) Q s.
Proof.
  intros W Hp Hx Hk HQ. unfold exit_if_killed, proc_killed. pstep. pstep. pstep. rewrite Hp.
  psteps. by rewrite Hk.
Qed.

Lemma preempts_spec tf a L s p x Q :
  wf None a L s → c_proc (h_cpu (k_hw a)) = Some p → k_procs a !! p = Some x → p_state x = RUNNING →
  tf_trapno tf = T_IRQ0 + IRQ_TIMER → Q (k_ticks a mod SCHED_INTERVAL =? 0) s → wp (preempts tf) Q s.
Proof.
  intros W Hp Hx Hst Htf HQ. unfold preempts. pstep. pstep. rewrite Hp. psteps.
  by rewrite bool_decide_eq_true_2, Htf.
Qed.

(** C23: a clock interrupt on CPU 0 while it runs [p]: ticks advances, every
    process that sleeps on it becomes ready at the tail of the queue of its
    priority, and [p] gives up the CPU exactly when the new count is a multiple
    of SCHED_INTERVAL, going to the tail of its queue behind those that were
    woken; otherwise the interrupt returns to it. Nothing else changes, and no
    lock but the one the scheduler releases stays taken. *)
Theorem timer_interrupt s L p x e tf :
  wf None s L s → on_cpu (k_hw s) p [] e → lk_locked (h_locks (k_hw s) LPtable) = false →
  c_id (h_cpu (k_hw s)) = 0%nat → k_procs s !! p = Some x → p_state x = RUNNING → p_killed x = 0 →
  tf_trapno tf = T_IRQ0 + IRQ_TIMER →
  wp (trap syscall tf)
    (clocked (k_ticks (ticked s) mod SCHED_INTERVAL =? 0) e p x (wake_queues ChTicks (L SSleep) s L) (ticked s)) s.
Proof.
  intros W [Hp D] Hf Hid Hx Hst Hk Htf. unfold trap, trap_irq. rewrite Htf.
  cbn [Z.eqb Pos.eqb T_IRQ0 T_SYSCALL IRQ_TIMER Z.add].
  apply wp_bind, wp_bind, wp_gets. rewrite Hid. cbn [Nat.eqb when]. apply wp_bind, wp_modify.
  assert (W1 : wf None (s <| k_ticks := u32 (k_ticks s + 1) |>) L (s <| k_ticks := u32 (k_ticks s + 1) |>)).
  { by refine (wf_free _ _ _ _ (λ s, s <| k_ticks := u32 (k_ticks s + 1) |>) _ W). }
  eapply wakeup_spec; [exact W1|exact D|exact Hf|]. clear W W1. intros h s1 D1 Hl W.
  fold (ticked s) in W. pose proof (ticked_running _ _ _ Hx Hst) as Hx'. 
  assert (Hp' : c_proc (h_cpu h) = Some p) by (by rewrite (proj1 (proj2 (proj1 Hl)))).
  eapply exit_if_killed_spec; [exact W|exact Hp'|exact Hx'|done|]. apply wp_bind.
  eapply preempts_spec; [exact W|exact Hp'|exact Hx'|done..|].
  change (k_ticks (ticked s) <| k_hw := h |>) with (k_ticks (ticked s)). unfold clocked.
  destruct (k_ticks (ticked s) mod SCHED_INTERVAL =? 0).
  - eapply yield_spec; [exact W|by split| |exact Hx'|done|].
    { change (lk_locked (h_locks h LPtable) = false). rewrite (proj2 Hl). unfold insert, fn_insert.
      by rewrite decide_True. }
    intros h2 s2 D2 Hl2 W2. exists h2. split_and!; [done..| |exact W2].
    unfold lock_taken in *. replace (c_id (h_cpu (k_hw (ticked s)))) with (c_id (h_cpu h)).
    + by eapply locks_set_twice.
    + apply Hl.
  - eapply exit_if_killed_spec; [exact W|exact Hp'|exact Hx'|done|]. apply wp_ret. by exists h.
Qed.

(** A trap number that is neither a system call nor an interrupt. *)
Definition is_fault (n : Z) : Prop :=
  n ≠ T_SYSCALL ∧ Forall (λ i, n ≠ T_IRQ0 + i) [IRQ_TIMER; IRQ_KBD; IRQ_COM1; 7; IRQ_IDE; IRQ_IDE + 1; IRQ_SPURIOUS].

Lemma trap_irq_fault tf s : is_fault (tf_trapno tf) →
  trap_irq tf s = match c_proc (h_cpu (k_hw s)) with
    | None => Panic "trap" s
    | Some p => (panic_if (Z.land (tf_cs tf) 3 =? 0) "trap";; wr p (λ x, x <| p_killed := 1 |>)) s
    end.
Proof.
  intros [Hs Hn]. unfold trap_irq. do 7 (apply Forall_cons in Hn as [? Hn]).
  rewrite !(proj2 (Z.eqb_neq _ _)) by (done || lia). simpl. unfold curproc. erewrite bind_done by done. by destruct (c_proc _).
Qed.

(** A fault ends the process that causes it in user mode, through exit()
    with its killed flag set, and stops the kernel with a panic when no
    process runs or the fault is the kernel's own (CPL 0). *)
Theorem fault_kills_or_panics s p x tf :
  is_fault (tf_trapno tf) → k_procs s !! p = Some x →
  (c_proc (h_cpu (k_hw s)) = Some p → from_user tf = true →
     trap syscall tf s = exit (s <| k_procs := <[p := x <| p_killed := 1 |>]> (k_procs s) |>)) ∧
  (c_proc (h_cpu (k_hw s)) = None ∨ Z.land (tf_cs tf) 3 = 0 → trap syscall tf s = Panic "trap" s).
Proof.
  intros Hn Hx. unfold trap. rewrite (proj2 (Z.eqb_neq _ _)) by apply Hn. split.
  - intros Hp Hu. assert (Hcs : Z.land (tf_cs tf) 3 = 3) by (by apply Z.eqb_eq).
    assert (Hlen : (p < length (k_procs s))%nat) by (by eapply lookup_lt_Some).
    erewrite (bind_done (trap_irq tf)).
    2: { rewrite trap_irq_fault by done. rewrite Hp, Hcs. simpl. unfold mbind, M_bind, wr. simpl. by rewrite Hx. }
    unfold exit_if_killed. erewrite (bind_done proc_killed _ _ true); [by rewrite Hu|].
    unfold proc_killed, curproc. erewrite bind_done by done. simpl. rewrite Hp.
    unfold mbind, M_bind, rd. simpl. by rewrite list_lookup_insert_eq.
  - intros Hp. unfold mbind at 1, M_bind at 1. rewrite trap_irq_fault by done.
    destruct (c_proc _) as [q|], Hp as [Hp|Hp]; try done. by rewrite Hp.
Qed.
End clock.

(** ** Instances *)

#[local] Instance demo_trap : TrapEnv nat := {| t_ideintr := mret [ChBuf 0]; t_kbdintr := mret []; t_uartintr := mret [] |}.

Definition frame (n : Z) : trapframe := tf_zero <| tf_trapno := n |> <| tf_cs := 27 |>.

Definition demo_late : kstate nat := demo <| k_ticks := 9 |>.

Lemma demo_late_wf : wf None demo_late (queue demo) demo_late.
Proof. by refine (wf_free _ _ _ _ (λ s, s <| k_ticks := 9 |>) _ demo_wf). Qed.

(** At tick 1 the process goes on, at tick 10 it gives up the CPU. *)
Lemma timer_interrupt_witness :
  wp (trap (mret (Ret tt)) (frame 32)) (λ r _, r = Ret tt) demo ∧
  wp (trap (mret (Ret tt)) (frame 32)) (λ r _, r = Gone) demo_late.
Proof.
  split; eapply wp_mono.
  - exact (timer_interrupt (mret (Ret tt)) demo _ 1 _ true (frame 32) demo_wf demo_on_cpu
      eq_refl eq_refl eq_refl eq_refl eq_refl eq_refl).
  - by intros r s' (h & Hr & _).
  - exact (timer_interrupt (mret (Ret tt)) demo_late _ 1 _ true (frame 32) demo_late_wf demo_on_cpu
      eq_refl eq_refl eq_refl eq_refl eq_refl eq_refl).
  - by intros r s' (h & Hr & _).
Defined.

(** A page fault (trap 14) in user mode and in the kernel. *)
Lemma fault_kills_or_panics_witness :
  (∃ s', trap (mret (Ret tt)) (frame 14) demo = exit s' ∧ p_killed <$> k_procs s' !! 1%nat = Some 1) ∧
  trap (mret (Ret tt)) (tf_zero <| tf_trapno := 14 |>) demo = Panic "trap" demo.
Proof.
  assert (Hn : is_fault 14) by (split; [done|]; repeat constructor; done). split.
  - eexists. split; [exact (proj1 (fault_kills_or_panics (mret (Ret tt)) demo 1 _ (frame 14) Hn eq_refl) eq_refl eq_refl)|done].
  - exact (proj2 (fault_kills_or_panics (mret (Ret tt)) demo 1 _ (tf_zero <| tf_trapno := 14 |>) Hn eq_refl) (or_intror eq_refl)).
Defined.
