(* ===== verification/Intr.v ===== *)
(** * Interrupts (picirq.c, ioapic.c, lapic.c, timer.c, tvinit() of trap.c, and the initialisation of the devices)

    The controllers are outside the program. Their state is what the program
    has stored: the port writes in their order, the registers of the I/O APIC,
    the writes to the local APIC. What the k-th read of a port or of a register
    of the local APIC returns is a parameter. The theorems at the end say which
    interrupts reach the kernel. *)

From S2P Require Import Prelude Trap.

Definition IRQ_SLAVE : Z := 2.
Definition IRQ_ERROR : Z := 19.
Definition TPS : Z := 1000.

(** ** The interrupt descriptor table *)

Record gatedesc : Type := mkGate {
  off_15_0 : Z; cs : Z; args : Z; rsv1 : Z; type : Z; sbit : Z; dpl : Z; pbit : Z; off_31_16 : Z;
}.

Definition STS_IG32 : Z := 14.
Definition STS_TG32 : Z := 15.
Definition SEG_KCODE : Z := 1.

Definition SETGATE (istrap : bool) (sel off d : Z) : gatedesc :=
  mkGate (Z.land off 65535) sel 0 0 (if istrap then STS_TG32 else STS_IG32) 0 d 1 (Z.shiftr off 16).

(** The addresses of the entry points in vectors.S are a parameter. *)
Definition tvinit (vectors : nat → Z) : list gatedesc :=
  let idt := (λ i, SETGATE false (Z.shiftl SEG_KCODE 3) (vectors i) 0) <$> seq 0 256 in
  <[Z.to_nat T_SYSCALL := SETGATE true (Z.shiftl SEG_KCODE 3) (vectors (Z.to_nat T_SYSCALL)) DPL_USER]> idt.

(** ** Segments *)

Record segdesc : Type := mkSeg {
  lim_15_0 : Z; base_15_0 : Z; base_23_16 : Z; seg_type : Z; seg_s : Z; seg_dpl : Z; seg_p : Z;
  lim_19_16 : Z; avl : Z; seg_rsv1 : Z; db : Z; g : Z; base_31_24 : Z;
}.

Definition SEG (type base lim dpl : Z) : segdesc :=
  mkSeg (Z.land (Z.shiftr lim 12) 65535) (Z.land base 65535) (Z.land (Z.shiftr base 16) 255) type 1 dpl 1 (Z.shiftr lim 28) 0 0 1 1 (Z.shiftr base 24).

Definition STA_X : Z := 8.
Definition STA_W : Z := 2.
Definition STA_R : Z := 2.

(** The table of a CPU whose field cpu is at [addr]; entry 0 stays null, and
    entry 6 is set by switchuvm(). *)
Definition seginit (addr : Z) : list (option segdesc) :=
  [None;
   Some (SEG (Z.lor STA_X STA_R) 0 4294967295 0);         (* SEG_KCODE *)
   Some (SEG STA_W 0 4294967295 0);                       (* SEG_KDATA *)
   Some (SEG STA_W addr 8 0);                             (* SEG_KCPU *)
   Some (SEG (Z.lor STA_X STA_R) 0 4294967295 DPL_USER);  (* SEG_UCODE *)
   Some (SEG STA_W 0 4294967295 DPL_USER);                (* SEG_UDATA *)
   None].

(** ** The controllers *)

Record chips : Type := mkChips {
  ch_irqmask : Z; ch_out : list (Z * Z);         (* picirq.c; outb() *)
  ch_sel : Z; ch_io : Z → Z;                     (* the registers of the I/O APIC *)
  ch_lapic : list (Z * Z);                       (* writes to the local APIC *)
  ch_reads : nat; ch_uart : bool; ch_disk1 : bool; ch_warned : bool;
}.
#[export] Instance chips_eta : Eta chips := λ s,
  mkChips (ch_irqmask s) (ch_out s) (ch_sel s) (ch_io s) (ch_lapic s) (ch_reads s) (ch_uart s) (ch_disk1 s) (ch_warned s).

Section devices.
Context (inb_at lapic_at : nat → Z → Z).
(** ismp, ioapicid, ncpu and whether lapic is set, from mpinit(). *)
Context (ismp : bool) (ioapicid ncpu : Z) (lapic : bool).
Abbreviation C := (M chips).

Definition outb (port data : Z) : C unit := modify (λ s, s <| ch_out ::= (λ l, l ++ [(port, u8 data)]) |>).
Definition inb (port : Z) : C Z := k ← gets ch_reads; modify (λ s, s <| ch_reads := S k |>);; mret (inb_at k port).

(** *** picirq.c *)

Definition IO_PIC1 : Z := 32.
Definition IO_PIC2 : Z := 160.

Definition picsetmask (mask : Z) : C unit :=
  modify (λ s, s <| ch_irqmask := mask |>);;
  outb (IO_PIC1 + 1) mask;;
  outb (IO_PIC2 + 1) (Z.shiftr mask 8).

Definition picenable (irq : Z) : C unit :=
  m ← gets ch_irqmask;
  picsetmask (Z.land m (Z.lnot (Z.shiftl 1 irq)) mod 65536).

Definition picinit : C unit :=
  outb (IO_PIC1 + 1) 255;; outb (IO_PIC2 + 1) 255;;
  outb IO_PIC1 17;; outb (IO_PIC1 + 1) T_IRQ0;; outb (IO_PIC1 + 1) (Z.shiftl 1 IRQ_SLAVE);; outb (IO_PIC1 + 1) 3;;
  outb IO_PIC2 17;; outb (IO_PIC2 + 1) (T_IRQ0 + 8);; outb (IO_PIC2 + 1) IRQ_SLAVE;; outb (IO_PIC2 + 1) 3;;
  outb IO_PIC1 104;; outb IO_PIC1 10;;
  outb IO_PIC2 104;; outb IO_PIC2 10;;
  m ← gets ch_irqmask;
  when (negb (m =? 65535)) (picsetmask m).

(** *** ioapic.c *)

Definition REG_ID : Z := 0.
Definition REG_VER : Z := 1.
Definition REG_TABLE : Z := 16.
Definition INT_DISABLED : Z := 65536.

Definition ioapicread (reg : Z) : C Z := modify (λ s, s <| ch_sel := reg |>);; s ← get; mret (ch_io s (ch_sel s)).
Definition ioapicwrite (reg data : Z) : C unit :=
  modify (λ s, s <| ch_sel := reg |>);;
  modify (λ s, s <| ch_io ::= <[ch_sel s := data]> |>).

(** [for(i = 0; i <= maxintr; i++)], [n] times from [i] on. *)
Fixpoint mask_loop (n : nat) (i : Z) : C unit :=
  match n with
  | O => mret tt
  | S n =>
    ioapicwrite (REG_TABLE + 2 * i) (Z.lor INT_DISABLED (T_IRQ0 + i));;
    ioapicwrite (REG_TABLE + 2 * i + 1) 0;;
    mask_loop n (i + 1)
  end.

Definition ioapicinit : C unit :=
  when ismp (
    v ← ioapicread REG_VER;
    let maxintr := Z.land (Z.shiftr v 16) 255 in
    x ← ioapicread REG_ID;
    when (negb (Z.shiftr x 24 =? ioapicid)) (modify (λ s, s <| ch_warned := true |>));;
    mask_loop (Z.to_nat (maxintr + 1)) 0).

Definition ioapicenable (irq cpunum : Z) : C unit :=
  when ismp (
    ioapicwrite (REG_TABLE + 2 * irq) (T_IRQ0 + irq);;
    ioapicwrite (REG_TABLE + 2 * irq + 1) (u32 (Z.shiftl cpunum 24))).

(** *** lapic.c, registers as indices of uint[] *)

Definition lapicw (index value : Z) : C unit := modify (λ s, s <| ch_lapic ::= (λ l, l ++ [(index, value)]) |>).
Definition lapicr (index : Z) : C Z := k ← gets ch_reads; modify (λ s, s <| ch_reads := S k |>);; mret (lapic_at k index).

(** [while(lapic[ICRLO] & DELIVS);] *)
Fixpoint wait_delivered (fuel : nat) : C unit :=
  x ← lapicr 192;
  if Z.land x 4096 =? 0 then mret tt else match fuel with O => nofuel | S fuel => wait_delivered fuel end.

Definition lapicinit (fuel : nat) : C unit :=
  when lapic (
    lapicw 60 (Z.lor 256 (T_IRQ0 + IRQ_SPURIOUS));;            (* SVR *)
    lapicw 248 11;;                                            (* TDCR *)
    lapicw 200 (Z.lor 131072 (T_IRQ0 + IRQ_TIMER));;           (* TIMER *)
    lapicw 224 (1000000000 / TPS);;                            (* TICR *)
    lapicw 212 65536;; lapicw 216 65536;;                      (* LINT0, LINT1 *)
    v ← lapicr 12;                                             (* VER *)
    when (4 <=? Z.land (Z.shiftr v 16) 255) (lapicw 208 65536);; (* PCINT *)
    lapicw 220 (T_IRQ0 + IRQ_ERROR);;                          (* ERROR *)
    lapicw 160 0;; lapicw 160 0;;                              (* ESR *)
    lapicw 44 0;;                                              (* EOI *)
    lapicw 196 0;;                                             (* ICRHI *)
    lapicw 192 (Z.lor (Z.lor 524288 1280) 32768);;             (* ICRLO *)
    wait_delivered fuel;;
    lapicw 32 0).                                              (* TPR *)

Definition lapiceoi : C unit := when lapic (lapicw 44 0).

(** *** timer.c *)

Definition TIMER_DIV (x : Z) : Z := (1193182 + x / 2) / x.
Definition timerinit : C unit :=
  outb 67 (Z.lor (Z.lor 0 4) 48);;
  outb 64 (TIMER_DIV TPS mod 256);;
  outb 64 (TIMER_DIV TPS / 256);;
  picenable IRQ_TIMER.

(** *** The devices *)

(** consoleinit(), what it does to the controllers. *)
Definition consoleinit : C unit := picenable IRQ_KBD;; ioapicenable IRQ_KBD 0.

Definition COM1 : Z := 1016.

(** uartputc() *)
Fixpoint uart_wait (n : nat) : C unit :=
  match n with
  | O => mret tt
  | S n => x ← inb (COM1 + 5); if Z.land x 32 =? 0 then uart_wait n else mret tt
  end.
Definition serial_putc (c : Z) : C unit :=
  u ← gets ch_uart;
  when u (uart_wait 128;; outb (COM1 + 0) c).
Fixpoint uart_print (l : list Z) : C unit := match l with [] => mret tt | c :: l => serial_putc c;; uart_print l end.

Definition uartinit : C unit :=
  outb (COM1 + 2) 0;;
  outb (COM1 + 3) 128;; outb (COM1 + 0) (115200 / 9600);; outb (COM1 + 1) 0;; outb (COM1 + 3) 3;; outb (COM1 + 4) 0;; outb (COM1 + 1) 1;;
  x ← inb (COM1 + 5);
  if x =? 255 then mret tt
  else
    modify (λ s, s <| ch_uart := true |>);;
    _ ← inb (COM1 + 2); _ ← inb (COM1 + 0);
    picenable IRQ_COM1;;
    ioapicenable IRQ_COM1 0;;
    uart_print [120; 118; 54; 46; 46; 46; 10].

Fixpoint idewait (fuel : nat) (checkerr : bool) : C Z :=
  r ← inb 503;
  if Z.land r 192 =? 64 then mret (if checkerr && negb (Z.land r 33 =? 0) then -1 else 0)
  else match fuel with O => nofuel | S fuel => idewait fuel checkerr end.

(** The loop that looks for disk 1. *)
Fixpoint disk1_loop (n : nat) : C unit :=
  match n with
  | O => mret tt
  | S n => x ← inb 503; if negb (x =? 0) then modify (λ s, s <| ch_disk1 := true |>) else disk1_loop n
  end.

Definition ideinit (fuel : nat) : C unit :=
  picenable IRQ_IDE;;
  ioapicenable IRQ_IDE (ncpu - 1);;
  _ ← idewait fuel false;
  outb 502 (Z.lor 224 (Z.shiftl 1 4));;
  disk1_loop 1000;;
  outb 502 (Z.lor 224 (Z.shiftl 0 4)).

(** What main() does to the controllers, in its order. *)
Definition main_devices (fuel : nat) : C unit :=
  lapicinit fuel;;
  picinit;;
  ioapicinit;;
  consoleinit;;
  uartinit;;
  ideinit fuel;;
  when (negb ismp) timerinit.
End devices.

(** ** Which interrupts reach the kernel

    Only the gate of the system calls can be used by user programs; main()
    leaves exactly the interrupts of its devices enabled, each at the vector
    at which trap() expects it. *)

Lemma bool_cases (b : bool) : b = true ∨ b = false.
Proof. destruct b; auto. Qed.

(** ** Gates *)

(** The address a gate leads to, and whether the int instruction may use it
    at a privilege level. *)
Definition gate_offset (g : gatedesc) : Z := off_31_16 g * 65536 + off_15_0 g.
Definition int_allowed (cpl : Z) (g : gatedesc) : bool := (pbit g =? 1) && (cpl <=? dpl g).

Lemma SETGATE_offset istrap sel off d : 0 ≤ off < 2 ^ 32 → gate_offset (SETGATE istrap sel off d) = off.
Proof.
  intros H. unfold gate_offset, SETGATE. cbn [off_31_16 off_15_0]. change 65535 with (Z.ones 16). rewrite Z.land_ones, Z.shiftr_div_pow2 by lia.
  change (2 ^ 16) with 65536. Z.to_euclidean_division_equations; lia.
Qed.

Lemma tvinit_gate vectors i : (i < 256)%nat →
  tvinit vectors !! i = Some (SETGATE (bool_decide (i = 64%nat)) 8 (vectors i) (if decide (i = 64%nat) then 3 else 0)).
Proof.
  intros Hi. unfold tvinit. cbv zeta. change (Z.to_nat T_SYSCALL) with 64%nat. destruct (decide (i = 64%nat)) as [->|Hn].
  - rewrite list_lookup_insert_eq by (rewrite length_fmap, length_seq; lia). by rewrite bool_decide_eq_true_2.
  - rewrite list_lookup_insert_ne by done. rewrite list_lookup_fmap, lookup_seq_lt by done. by rewrite bool_decide_eq_false_2.
Qed.

(** All 256 gates of tvinit() are present and lead to their entry point in the
    code segment of the kernel; a user program can raise only T_SYSCALL with
    the int instruction, and every other gate turns the interrupts off. *)
Theorem idt_protects vectors i g : (∀ i, 0 ≤ vectors i < 2 ^ 32) → tvinit vectors !! i = Some g →
  gate_offset g = vectors i ∧ cs g = 8 ∧ sbit g = 0 ∧ (int_allowed 3 g = true ↔ Z.of_nat i = T_SYSCALL) ∧ (type g = STS_IG32 ↔ Z.of_nat i ≠ T_SYSCALL) ∧ int_allowed 0 g = true.
Proof.
  intros Hv Hg. assert (Hi : (i < 256)%nat).
  { apply lookup_lt_Some in Hg. unfold tvinit in Hg. rewrite length_insert, length_fmap, length_seq in Hg. done. }
  rewrite tvinit_gate in Hg by done. injection Hg as <-. rewrite SETGATE_offset by apply Hv. split; [done|]. split; [done|]. split; [done|].
  unfold T_SYSCALL, int_allowed, SETGATE, STS_IG32, STS_TG32. cbn [pbit dpl type]. destruct (decide (i = 64%nat)) as [->|Hn].
  - rewrite bool_decide_eq_true_2 by done. cbn. naive_solver lia.
  - rewrite bool_decide_eq_false_2 by done. cbn. naive_solver lia.
Qed.

(** ** Segments *)

(** The base and the limit (in bytes) of a descriptor, as the processor reads
    them. *)
Definition seg_base (d : segdesc) : Z := base_15_0 d + 65536 * base_23_16 d + 16777216 * base_31_24 d.
Definition seg_limit (d : segdesc) : Z := let l := lim_15_0 d + 65536 * lim_19_16 d in if g d =? 1 then 4096 * l + 4095 else l.

Lemma SEG_decode type base lim dpl : 0 ≤ base < 2 ^ 32 → 0 ≤ lim < 2 ^ 32 → seg_base (SEG type base lim dpl) = base ∧ seg_limit (SEG type base lim dpl) = 4096 * (lim / 4096) + 4095.
Proof.
  intros Hb Hl. unfold seg_base, seg_limit, SEG. cbn [base_15_0 base_23_16 base_31_24 lim_15_0 lim_19_16 g]. change 65535 with (Z.ones 16). change 255 with (Z.ones 8).
  rewrite !Z.land_ones, !Z.shiftr_div_pow2 by lia. change (1 =? 1) with true. cbn match. change (2 ^ 16) with 65536. change (2 ^ 8) with 256. change (2 ^ 12) with 4096. change (2 ^ 24) with 16777216.
  change (2 ^ 28) with 268435456. split; Z.to_euclidean_division_equations; lia.
Qed.

(** The code and data segments of kernel and user map all addresses to
    themselves; only those of the user can be used at privilege level 3; the
    segment of %gs covers the variables cpu and proc. *)
Theorem seginit_flat addr i d : 0 ≤ addr < 2 ^ 32 → seginit addr !! i = Some (Some d) →
  (seg_base d = if decide (i = 3%nat) then addr else 0) ∧ (if decide (i = 3%nat) then 8 ≤ seg_limit d + 1 else seg_limit d = 2 ^ 32 - 1) ∧ (seg_dpl d = 3 ↔ i = 4%nat ∨ i = 5%nat).
Proof.
  intros Ha Hd. destruct (decide (i = 3%nat)) as [->|Hn].
  - injection Hd as <-. destruct (SEG_decode STA_W addr 8 0) as [-> ->]; [done|lia|]. split; [done|]. split; [vm_compute; congruence|]. cbn. lia.
  - assert (Hi : i = 1%nat ∨ i = 2%nat ∨ i = 4%nat ∨ i = 5%nat) by (do 7 (destruct i as [|i]; [by auto|]); done).
    destruct Hi as [->|[->|[->| ->]]]; injection Hd as <-; (split; [reflexivity|]; split; [reflexivity|]); unfold SEG, DPL_USER; cbn; lia.
Qed.

(** ** Routing *)

Section routing.
Context (inb_at lapic_at : nat → Z → Z) (ismp : bool) (ioapicid ncpu : Z) (lapic : bool) (fuel : nat).
Implicit Types (s : chips).

(** The entry of the I/O APIC for an interrupt that is sent to a CPU or to
    none. *)
Definition redirect (i : Z) (o : option Z) : Z * Z :=
  match o with Some c => (T_IRQ0 + i, u32 (Z.shiftl c 24)) | None => (Z.lor INT_DISABLED (T_IRQ0 + i), 0) end.
Definition table_is s (n : Z) (f : Z → option Z) : Prop :=
  ∀ i, 0 ≤ i ≤ n → (ch_io s (REG_TABLE + 2 * i), ch_io s (REG_TABLE + 2 * i + 1)) = redirect i (f i).

(** The last byte written to a port. *)
Definition last_out (port : Z) (out : list (Z * Z)) : option Z := snd <$> last (filter (λ e, e.1 = port) out).
#[local] Arguments last_out : simpl never.

(** The 8259s have the mask of picirq.c. *)
Definition synced s : Prop :=
  last_out (IO_PIC1 + 1) (ch_out s) = Some (u8 (ch_irqmask s)) ∧ last_out (IO_PIC2 + 1) (ch_out s) = Some (u8 (Z.shiftr (ch_irqmask s) 8)).

(** Exactly the interrupts of [l] are not masked. *)
Definition unmasked s (l : list Z) : Prop := ∀ i, 0 ≤ i < 16 → Z.testbit (ch_irqmask s) i = negb (bool_decide (i ∈ l)).

Lemma last_out_snoc port out p v : last_out port (out ++ [(p, v)]) = if decide (p = port) then Some v else last_out port out.
Proof.
  unfold last_out. rewrite filter_app, filter_cons, !filter_nil. cbn [fst]. case_decide; [by rewrite last_snoc|]. by rewrite app_nil_r.
Qed.

(** The 8259s are not touched, nor is the I/O APIC. *)
Definition keeps s s' : Prop := ch_irqmask s' = ch_irqmask s ∧ ch_io s' = ch_io s ∧ (synced s → synced s').

Lemma wp_outb port data s (Q : unit → chips → Prop) : Q tt (s <| ch_out ::= (λ l, l ++ [(port, u8 data)]) |>) → wp (outb port data) Q s.
Proof. done. Qed.
Lemma wp_inb port s (Q : Z → chips → Prop) : Q (inb_at (ch_reads s) port) (s <| ch_reads := S (ch_reads s) |>) → wp (inb inb_at port) Q s.
Proof. done. Qed.

Lemma keeps_trans s1 s2 s3 : keeps s1 s2 → keeps s2 s3 → keeps s1 s3.
Proof. unfold keeps. intros (A1 & A2 & A3) (B1 & B2 & B3). split; [congruence|]. split; [congruence|auto]. Qed.
Lemma keeps_out s port v : port ≠ IO_PIC1 + 1 → port ≠ IO_PIC2 + 1 → keeps s (s <| ch_out ::= (λ l, l ++ [(port, v)]) |>).
Proof. intros H1 H2. split; [done|]. split; [done|]. unfold synced. cbn. by rewrite !last_out_snoc, !decide_False by done. Qed.

Lemma picsetmask_spec mask s (Q : unit → chips → Prop) :
  (∀ s', ch_irqmask s' = mask → synced s' → ch_io s' = ch_io s → ch_uart s' = ch_uart s → Q tt s') → wp (picsetmask mask) Q s.
Proof.
  intros HQ. unfold picsetmask. apply wp_bind, wp_modify, wp_bind, wp_outb, wp_outb, HQ; try done.
  unfold synced. cbn. rewrite !last_out_snoc. rewrite decide_False, decide_True, decide_True by done. done.
Qed.

Lemma picenable_spec irq l s (Q : unit → chips → Prop) : 0 ≤ irq < 16 → unmasked s l →
  (∀ s', unmasked s' (irq :: l) → synced s' → ch_io s' = ch_io s → ch_uart s' = ch_uart s → Q tt s') → wp (picenable irq) Q s.
Proof.
  intros Hi Hu HQ. unfold picenable. apply wp_bind, wp_gets, picsetmask_spec. intros s' E1 E2 E3 E4. apply HQ; try done.
  intros i Hr. rewrite E1. change 65536 with (2 ^ 16). rewrite Z.mod_pow2_bits_low by lia. rewrite Z.land_spec, Z.lnot_spec, Z.shiftl_1_l, Z.pow2_bits_eqb, Hu by lia.
  destruct (Z.eqb_spec irq i) as [->|Hn].
  - rewrite andb_false_r. by rewrite (bool_decide_eq_true_2 (i ∈ i :: l)) by set_solver.
  - rewrite andb_true_r. f_equal. apply bool_decide_ext. set_solver.
Qed.

(** *** The I/O APIC *)

Lemma ioapicwrite_spec reg data s (Q : unit → chips → Prop) : Q tt (s <| ch_sel := reg |> <| ch_io := <[reg := data]> (ch_io s) |>) → wp (ioapicwrite reg data) Q s.
Proof. done. Qed.

Lemma ioapicread_spec reg s (Q : Z → chips → Prop) : Q (ch_io s reg) (s <| ch_sel := reg |>) → wp (ioapicread reg) Q s.
Proof. done. Qed.

(** An entry takes two registers. *)
Lemma io_entry (io : Z → Z) i j a b :
  ((<[REG_TABLE + 2 * i + 1 := b]> (<[REG_TABLE + 2 * i := a]> io) : Z → Z) (REG_TABLE + 2 * j),
   (<[REG_TABLE + 2 * i + 1 := b]> (<[REG_TABLE + 2 * i := a]> io) : Z → Z) (REG_TABLE + 2 * j + 1)) =
  if decide (i = j) then (a, b) else (io (REG_TABLE + 2 * j), io (REG_TABLE + 2 * j + 1)).
Proof. unfold insert, fn_insert. repeat case_decide; done || (exfalso; lia). Qed.

(** [s'] differs from [s] in the registers of the I/O APIC. *)
Definition io_only s s' : Prop := ch_irqmask s' = ch_irqmask s ∧ ch_out s' = ch_out s ∧ ch_uart s' = ch_uart s.

Lemma mask_loop_spec n : ∀ i s (Q : unit → chips → Prop), 0 ≤ i →
  (∀ j, 0 ≤ j < i → (ch_io s (REG_TABLE + 2 * j), ch_io s (REG_TABLE + 2 * j + 1)) = redirect j None) →
  (∀ s', io_only s s' → table_is s' (i + Z.of_nat n - 1) (λ _, None) → Q tt s') → wp (mask_loop n i) Q s.
Proof.
  induction n as [|n IH]; intros i s Q Hi Hs HQ; cbn [mask_loop].
  { apply wp_ret, HQ; [done|]. intros j Hj. apply Hs. lia. }
  apply wp_bind, ioapicwrite_spec, wp_bind, ioapicwrite_spec, IH; [lia| |].
  - intros j Hj. refine (eq_trans (io_entry (ch_io s) i j _ _) _). case_decide as E; [by subst j|]. apply Hs. lia.
  - intros s' Hio Ht. apply HQ; [done|]. by replace (i + Z.of_nat (S n) - 1) with (i + 1 + Z.of_nat n - 1) by lia.
Qed.

Definition maxintr s : Z := Z.land (Z.shiftr (ch_io s REG_VER) 16) 255.

Lemma ioapicinit_spec s (Q : unit → chips → Prop) : ismp = true → (∀ s', io_only s s' → table_is s' (maxintr s) (λ _, None) → Q tt s') → wp (ioapicinit ismp ioapicid) Q s.
Proof.
  intros -> HQ. unfold ioapicinit. cbn [when]. apply wp_bind, ioapicread_spec, wp_bind, ioapicread_spec. fold (maxintr s).
  assert (Hm : 0 ≤ maxintr s) by (unfold maxintr; apply Z.land_nonneg; right; lia).
  assert (Hloop : ∀ s1, io_only s s1 → wp (mask_loop (Z.to_nat (maxintr s + 1)) 0) Q s1).
  { intros s1 (A1 & A2 & A3). apply mask_loop_spec; [lia|lia|]. intros s' (B1 & B2 & B3) Ht. apply HQ; [split; [congruence|split; congruence]|].
    by replace (0 + Z.of_nat (Z.to_nat (maxintr s + 1)) - 1) with (maxintr s) in Ht by lia. }
  apply wp_bind.
  apply wp_when; intros _.
  - apply wp_modify.
    apply Hloop.
    split; [done|split; done].
  - apply Hloop.
    split; [done|split; done].
Qed.

Lemma ioapicenable_spec irq c n f s (Q : unit → chips → Prop) : 0 ≤ irq → (ismp = true → table_is s n f) →
  (∀ s', io_only s s' → (ismp = true → table_is s' n (<[irq := Some c]> f)) → (ismp = false → ch_io s' = ch_io s) → Q tt s') → wp (ioapicenable ismp irq c) Q s.
Proof.
  intros Hi Ht HQ. unfold ioapicenable. destruct ismp; [|by apply wp_ret, HQ]. specialize (Ht eq_refl). apply wp_bind, ioapicwrite_spec, ioapicwrite_spec, HQ; [done| |done].
  intros _ i Hr. refine (eq_trans (io_entry (ch_io s) irq i _ _) _). unfold insert at 1, fn_insert at 1. case_decide as E; [by subst i|]. by apply Ht.
Qed.

(** *** What does not concern the routing *)

Definition aside s s' : Prop := keeps s s' ∧ ch_uart s' = ch_uart s.

Ltac aside_same := split; [split; [reflexivity|split; [reflexivity|intros Hsync; exact Hsync]]|reflexivity].

Lemma aside_refl s : aside s s.
Proof. aside_same. Qed.
Lemma aside_trans s1 s2 s3 : aside s1 s2 → aside s2 s3 → aside s1 s3.
Proof. intros [A1 A2] [B1 B2]. split; [by eapply keeps_trans|congruence]. Qed.
Lemma aside_out s port v : port ≠ IO_PIC1 + 1 → port ≠ IO_PIC2 + 1 → aside s (s <| ch_out ::= (λ l, l ++ [(port, v)]) |>).
Proof. intros H1 H2. split; [by apply keeps_out|done]. Qed.
Lemma aside_reads s k : aside s (s <| ch_reads := k |>).
Proof. aside_same. Qed.
Lemma aside_lapic s f : aside s (s <| ch_lapic ::= f |>).
Proof. aside_same. Qed.

(** A command that leaves the routing alone. *)
Definition harmless {A} (m : M chips A) : Prop := ∀ s, wp m (λ _, aside s) s.

Lemma harmless_bind {A B} (m : M chips A) (f : A → M chips B) : harmless m → (∀ a, harmless (f a)) → harmless (m ≫= f).
Proof. intros Hm Hf s. apply wp_bind. eapply wp_mono; [apply Hm|]. intros a s1 H1. eapply wp_mono; [apply Hf|]. intros b s2 H2. exact (aside_trans _ _ _ H1 H2). Qed.
Lemma harmless_ret {A} (a : A) : harmless (mret a).
Proof. intros s. apply wp_ret, aside_refl. Qed.
Lemma harmless_when b m : harmless m → harmless (when b m).
Proof. intros H. destruct b; [done|apply harmless_ret]. Qed.
Lemma harmless_out port v : port ≠ IO_PIC1 + 1 → port ≠ IO_PIC2 + 1 → harmless (outb port v).
Proof. intros H1 H2 s. by apply wp_outb, aside_out. Qed.
Lemma harmless_in port : harmless (inb inb_at port).
Proof. intros s. apply wp_inb, aside_reads. Qed.
Lemma harmless_lapicw i v : harmless (lapicw i v).
Proof. intros s. apply wp_modify, aside_lapic. Qed.
Lemma harmless_lapicr i : harmless (lapicr lapic_at i).
Proof. intros s. apply wp_bind, wp_gets, wp_bind, wp_modify, wp_ret, aside_reads. Qed.
Lemma harmless_gets {A} (f : chips → A) : harmless (gets f).
Proof. intros s. apply wp_gets, aside_refl. Qed.
Create HintDb harmless.
#[local] Hint Resolve harmless_bind harmless_ret harmless_when harmless_in harmless_lapicw harmless_lapicr harmless_gets : harmless.
#[local] Hint Extern 1 (harmless (outb _ _)) => apply harmless_out; discriminate : harmless.

Lemma uart_wait_harmless n : harmless (uart_wait inb_at n).
Proof. induction n as [|n IH]; cbn [uart_wait]; [apply harmless_ret|]. apply harmless_bind; [apply harmless_in|]. intros x. destruct (_ =? 0); auto with harmless. Qed.

Lemma uart_print_harmless l : harmless (uart_print inb_at l).
Proof.
  induction l as [|c l IH]; cbn [uart_print]; [apply harmless_ret|]. apply harmless_bind; [|done]. apply harmless_bind; [apply harmless_gets|]. intros u.
  apply harmless_when, harmless_bind; [apply uart_wait_harmless|]. intros _. auto with harmless.
Qed.

Lemma disk1_harmless n : harmless (disk1_loop inb_at n).
Proof.
  induction n as [|n IH]; cbn [disk1_loop]; [apply harmless_ret|]. apply harmless_bind; [apply harmless_in|]. intros x. destruct (negb _); [|done].
  intros s. apply wp_modify. aside_same.
Qed.

(** The disk and the local APIC get ready. *)
Hypothesis disk_ready : ∀ k, ∃ j, (j ≤ fuel)%nat ∧ Z.land (inb_at (k + j) 503) 192 = 64.
Hypothesis lapic_ready : ∀ k, ∃ j, (j ≤ fuel)%nat ∧ Z.land (lapic_at (k + j) 192) 4096 = 0.

Lemma idewait_harmless b : harmless (idewait inb_at fuel b).
Proof.
  intros s. destruct (disk_ready (ch_reads s)) as (j & Hj & Hs). revert s Hs Hj. generalize fuel as n. induction j as [|j IH]; intros n s Hs Hj.
  - rewrite Nat.add_0_r in Hs. destruct n; cbn [idewait]; apply wp_bind, wp_inb; rewrite Hs; apply wp_ret, aside_reads.
  - destruct n as [|n]; [lia|]. cbn [idewait]. apply wp_bind, wp_inb. destruct (_ =? 64); [apply wp_ret, aside_reads|].
    eapply wp_mono; [apply IH; [cbn; by rewrite <- Hs; f_equal; f_equal; lia|lia]|]. intros r s' H. eapply aside_trans; [apply aside_reads|exact H].
Qed.

Lemma wait_delivered_harmless : harmless (wait_delivered lapic_at fuel).
Proof.
  intros s. destruct (lapic_ready (ch_reads s)) as (j & Hj & Hs). revert s Hs Hj. generalize fuel as n. induction j as [|j IH]; intros n s Hs Hj.
  - rewrite Nat.add_0_r in Hs. destruct n; cbn [wait_delivered]; apply wp_bind, wp_bind, wp_gets, wp_bind, wp_modify, wp_ret; rewrite Hs; apply wp_ret, aside_reads.
  - destruct n as [|n]; [lia|]. cbn [wait_delivered]. apply wp_bind, wp_bind, wp_gets, wp_bind, wp_modify, wp_ret. destruct (_ =? 0); [apply wp_ret, aside_reads|].
    eapply wp_mono; [apply IH; [cbn; by rewrite <- Hs; f_equal; f_equal; lia|lia]|]. intros [] s' H. eapply aside_trans; [apply aside_reads|exact H].
Qed.

Lemma lapicinit_harmless : harmless (lapicinit lapic_at lapic fuel).
Proof.
  unfold lapicinit. apply harmless_when. repeat (apply harmless_bind; [first [apply harmless_lapicw|apply harmless_lapicr|apply harmless_when, harmless_lapicw|apply wait_delivered_harmless]|intros ?]).
  apply harmless_lapicw.
Qed.

(** *** main() *)

(** The interrupts that are enabled, and where they go. *)
Record routed (s0 : chips) (l : list Z) (f : Z → option Z) s : Prop := {
  rt_unmasked : unmasked s l;
  rt_synced : synced s;
  rt_table : ismp = true → table_is s (maxintr s0) f;
  rt_alone : ismp = false → ch_io s = ch_io s0;
}.

Lemma routed_aside s0 l f s s' : routed s0 l f s → aside s s' → routed s0 l f s'.
Proof.
  intros [R1 R2 R3 R4] [(A1 & A2 & A3) _]. split; [|by apply A3| |].
  - intros i Hi. rewrite A1. by apply R1.
  - intros Hm i Hi. rewrite A2. by apply R3.
  - intros Hm. rewrite A2. by apply R4.
Qed.

Lemma picinit_spec s (Q : unit → chips → Prop) : ch_irqmask s = 65531 →
  (∀ s', ch_irqmask s' = 65531 → synced s' → ch_io s' = ch_io s → ch_uart s' = ch_uart s → Q tt s') → wp picinit Q s.
Proof.
  intros Hm HQ. unfold picinit. do 14 (apply wp_bind, wp_outb). apply wp_bind, wp_gets. cbn [ch_irqmask].
  assert (E : ∀ s1, ch_irqmask s1 = 65531 → ch_io s1 = ch_io s → ch_uart s1 = ch_uart s → wp (when (negb (ch_irqmask s1 =? 65535)) (picsetmask (ch_irqmask s1))) Q s1).
  { intros s1 E1 E2 E3. rewrite E1. cbn. apply picsetmask_spec. intros s' F1 F2 F3 F4. apply HQ; congruence || done. }
  apply E; [exact Hm|reflexivity|reflexivity].
Qed.

(** picenable() and ioapicenable() for a device. *)
Lemma enable_spec s0 l f irq c s (Q : unit → chips → Prop) : 0 ≤ irq < 16 → routed s0 l f s →
  (∀ s', routed s0 (irq :: l) (<[irq := Some c]> f) s' → ch_uart s' = ch_uart s → Q tt s') → wp (picenable irq;; ioapicenable ismp irq c) Q s.
Proof.
  intros Hi [R1 R2 R3 R4] HQ. apply wp_bind. eapply picenable_spec; [done|exact R1|]. intros s1 U1 S1 E1 V1.
  apply (ioapicenable_spec irq c (maxintr s0) f); [lia|intros Hm i Hr; rewrite E1; by apply R3|]. intros s2 (I1 & I2 & I3) T2 N2. apply HQ; [|congruence]. split.
  - intros i Hr. rewrite I1. by apply U1.
  - unfold synced. by rewrite I1, I2.
  - exact T2.
  - intros Hm. rewrite N2, E1 by done. by apply R4.
Qed.

Definition irqs (uart : bool) : list Z := (if ismp then [] else [IRQ_TIMER]) ++ [IRQ_IDE] ++ (if uart then [IRQ_COM1] else []) ++ [IRQ_KBD; IRQ_SLAVE].
Definition routes (uart : bool) : Z → option Z :=
  <[IRQ_IDE := Some (ncpu - 1)]> ((if uart then <[IRQ_COM1 := Some 0]> else id) (<[IRQ_KBD := Some 0]> (λ _, None))).

Lemma harmless_then {A B} (m : M chips A) (g : A → M chips B) s0 l f s u (Q : B → chips → Prop) : harmless m → routed s0 l f s → ch_uart s = u →
  (∀ a s', routed s0 l f s' → ch_uart s' = u → wp (g a) Q s') → wp (m ≫= g) Q s.
Proof.
  intros Hm R Hu HQ. apply wp_bind. eapply wp_mono; [apply Hm|]. intros a s' H. apply HQ; [exact (routed_aside _ _ _ _ _ R H)|]. by rewrite (proj2 H).
Qed.

Lemma wp_assoc {A B C} (m : M chips A) (f : A → M chips B) (g : B → M chips C) Q s : wp ((m ≫= f) ≫= g) Q s → wp (m ≫= λ a, f a ≫= g) Q s.
Proof. unfold wp, mbind, M_bind. by destruct (m s). Qed.

Lemma enable_then {A} s0 l f irq c (g : unit → M chips A) s u (Q : A → chips → Prop) : 0 ≤ irq < 16 → routed s0 l f s → ch_uart s = u →
  (∀ s', routed s0 (irq :: l) (<[irq := Some c]> f) s' → ch_uart s' = u → wp (g tt) Q s') → wp (picenable irq ≫= λ _, ioapicenable ismp irq c ≫= g) Q s.
Proof.
  intros Hi R Hu HQ. apply wp_assoc, wp_bind. eapply enable_spec; [done|exact R|]. intros s' R' Hu'. apply HQ; [exact R'|congruence].
Qed.

Lemma uartinit_spec s0 l f s (Q : unit → chips → Prop) : routed s0 l f s → ch_uart s = false →
  (∀ s', ch_uart s' = false → routed s0 l f s' → Q tt s') →
  (∀ s', ch_uart s' = true → routed s0 (IRQ_COM1 :: l) (<[IRQ_COM1 := Some 0]> f) s' → Q tt s') → wp (uartinit inb_at ismp) Q s.
Proof.
  intros R Hu Q0 Q1. unfold uartinit. do 7 (eapply harmless_then; [apply harmless_out; discriminate|exact R|exact Hu|]; clear s R Hu; intros _ s R Hu).
  eapply harmless_then; [apply harmless_in|exact R|exact Hu|]. clear s R Hu. intros x s R Hu. destruct (x =? 255); [by apply wp_ret, Q0|].
  apply wp_bind, wp_modify. assert (R1 : routed s0 l f (s <| ch_uart := true |>)) by (destruct R; by split). revert R1. generalize (eq_refl : ch_uart (s <| ch_uart := true |>) = true).
  generalize (s <| ch_uart := true |>). clear s R Hu. intros s Hu R. do 2 (eapply harmless_then; [apply harmless_in|exact R|exact Hu|]; clear s R Hu; intros _ s R Hu).
  eapply enable_then; [unfold IRQ_COM1; lia|exact R|exact Hu|]. clear s R Hu. intros s R Hu. eapply wp_mono; [apply uart_print_harmless|]. intros [] s' H.
  apply Q1; [by rewrite (proj2 H)|exact (routed_aside _ _ _ _ _ R H)].
Qed.

Lemma ideinit_spec s0 l f s u (Q : unit → chips → Prop) : routed s0 l f s → ch_uart s = u →
  (∀ s', ch_uart s' = u → routed s0 (IRQ_IDE :: l) (<[IRQ_IDE := Some (ncpu - 1)]> f) s' → Q tt s') → wp (ideinit inb_at ismp ncpu fuel) Q s.
Proof.
  intros R Hu HQ. unfold ideinit. eapply enable_then; [unfold IRQ_IDE; lia|exact R|exact Hu|]. clear s R Hu. intros s R Hu.
  eapply harmless_then; [apply idewait_harmless|exact R|exact Hu|]. clear s R Hu. intros _ s R Hu.
  eapply harmless_then; [apply harmless_out; discriminate|exact R|exact Hu|]. clear s R Hu. intros _ s R Hu.
  eapply harmless_then; [apply disk1_harmless|exact R|exact Hu|]. clear s R Hu. intros _ s R Hu.
  eapply wp_mono; [apply harmless_out; discriminate|]. intros [] s' H. apply HQ; [by rewrite (proj2 H)|exact (routed_aside _ _ _ _ _ R H)].
Qed.

Lemma timerinit_spec s0 l f s u (Q : unit → chips → Prop) : ismp = false → routed s0 l f s → ch_uart s = u →
  (∀ s', ch_uart s' = u → routed s0 (IRQ_TIMER :: l) f s' → Q tt s') → wp timerinit Q s.
Proof.
  intros Hm R Hu HQ. unfold timerinit. do 3 (eapply harmless_then; [apply harmless_out; discriminate|exact R|exact Hu|]; clear s R Hu; intros _ s R Hu).
  destruct R as [R1 R2 R3 R4]. eapply picenable_spec; [unfold IRQ_TIMER; lia|exact R1|]. intros s' U S1 E V. apply HQ; [congruence|]. split; [done|done|congruence|].
  intros _. rewrite E. by apply R4.
Qed.

(** C40: After the initialisation by main() exactly the interrupts of the
    keyboard, of the disk, of the serial port if there is one, and of the timer
    of a uniprocessor are enabled at the 8259s (besides the line of the slave),
    whose mask registers have been written accordingly. On a multiprocessor the
    I/O APIC sends those of the devices to CPU 0, and the one of the disk to the
    last CPU, as vector 32 + irq, and all others are disabled; on a uniprocessor
    it is left alone. *)
Theorem main_routes_interrupts s0 : ch_irqmask s0 = 65531 → ch_uart s0 = false →
  wp (main_devices inb_at lapic_at ismp ioapicid ncpu lapic fuel) (λ _ s, routed s0 (irqs (ch_uart s)) (routes (ch_uart s)) s) s0.
Proof.
  intros Hm Hu. unfold main_devices. apply wp_bind. eapply wp_mono; [apply lapicinit_harmless|]. intros [] s1 [(A1 & A2 & A3) A4].
  apply wp_bind, picinit_spec; [congruence|]. intros s2 B1 B2 B3 B4. apply wp_bind.
  assert (U2 : unmasked s2 [IRQ_SLAVE]).
  { intros i Hi. rewrite B1. assert (H : forallb (λ n, eqb (Z.testbit 65531 (Z.of_nat n)) (negb (bool_decide (Z.of_nat n ∈ [IRQ_SLAVE])))) (seq 0 16) = true) by (vm_compute; reflexivity).
    rewrite forallb_forall in H. specialize (H (Z.to_nat i)). rewrite Z2Nat.id in H by lia. apply eqb_prop, H, in_seq. lia. }
  assert (Hio : wp (ioapicinit ismp ioapicid) (λ _ s, routed s0 [IRQ_SLAVE] (λ _, None) s ∧ ch_uart s = false) s2).
  { destruct (bool_cases ismp) as [Em|Em].
    - apply ioapicinit_spec; [exact Em|]. intros s3 (I1 & I2 & I3) T. split; [|congruence]. split; [intros i Hi; rewrite I1; by apply U2|unfold synced; by rewrite I1, I2| |congruence].
      intros _. unfold maxintr in *. by rewrite B3, A2 in T.
    - unfold ioapicinit. rewrite Em. apply wp_ret. split; [|congruence]. split; [done|done|congruence|]. intros _. by rewrite B3, A2. }
  eapply wp_mono; [exact Hio|]. clear Hio. intros [] s3 [R Hu3]. apply wp_bind. unfold consoleinit. eapply enable_spec; [unfold IRQ_KBD; lia|exact R|]. intros s4 R4 Hu4. rewrite Hu3 in Hu4.
  apply wp_bind. assert (Hend : ∀ u l f s, routed s0 l f s → ch_uart s = u → irqs u = (if ismp then [] else [IRQ_TIMER]) ++ IRQ_IDE :: l → routes u = <[IRQ_IDE := Some (ncpu - 1)]> f →
    wp (ideinit inb_at ismp ncpu fuel;; when (negb ismp) timerinit) (λ _ s, routed s0 (irqs (ch_uart s)) (routes (ch_uart s)) s) s).
  { intros u l f s Rs Us El Ef. apply wp_bind. eapply ideinit_spec; [exact Rs|exact Us|]. intros s5 U5 R5. destruct (bool_cases ismp) as [Em|Em]; rewrite Em in El |- *; cbn [negb when].
    - apply wp_ret. rewrite U5, El, Ef. exact R5.
    - eapply timerinit_spec; [done|exact R5|exact U5|]. intros s6 U6 R6. rewrite U6, El, Ef. exact R6. }
  eapply uartinit_spec; [exact R4|exact Hu4| |]; intros s5 U5 R5; by eapply Hend.
Qed.
End routing.

(** ** Instances *)

Definition inb0 (k : nat) (port : Z) : Z := if port =? 503 then 80 else 96.
Definition io0 : Z → Z := <[REG_VER := 1507345]> (λ _, 0).
Definition chips0 : chips := mkChips 65531 [] 0 io0 [] 0 false false false.

Lemma main_routes_interrupts_witness : wp (main_devices inb0 (λ _ _, 0) true 0 2 true 0)
  (λ _ s, unmasked s (irqs true (ch_uart s)) ∧ table_is s 23 (routes 2 (ch_uart s))) chips0.
Proof.
  eapply wp_mono.
  - apply (main_routes_interrupts inb0 (λ _ _, 0) true 0 2 true 0); [intros k; exists 0%nat; done|intros k; exists 0%nat; done|reflexivity|reflexivity].
  - intros [] s [R1 _ R3 _]. split; [exact R1|]. exact (R3 eq_refl).
Defined.
