(* ===== verification/Digits.v ===== *)
(** * Numbers as text

    What cprintf() of console.c and printf() of printf.c share. printint()
    turns a word into digits the same way in both; here is the loop, with its
    buffer of 16 characters, and the numeral it produces: no leading zero, and
    the value of the word. *)

From S2P Require Import Prelude.

(** The bytes of a string literal. *)
Fixpoint text (s : string) : list Z :=
  match s with
  | EmptyString => []
  | String a s => Z.of_nat (Ascii.nat_of_ascii a) :: text s
  end.
Definition tab : list Z := [9].
Definition nl : list Z := [10].

(** Evaluates the literals of a goal. *)
Ltac literals :=
  repeat match goal with |- context [text ?s] => let v := eval vm_compute in (text s) in change (text s) with v end; cbn [tab nl app].

(** The loop of printint(): buf[] has room for 16 characters, filled from the
    last digit; x is unsigned. *)
Fixpoint digit_loop (fuel : nat) (digits : list Z) (base x : Z) (buf : list Z) : option (list Z) :=
  match fuel with
  | O => None
  | S fuel =>
    if (16 <=? length buf)%nat then None
    else
      d ← digits !! Z.to_nat (x mod base);
      let buf := buf ++ [d] in
      if x / base =? 0 then Some buf else digit_loop fuel digits base (x / base) buf
  end.

(** The characters printint() prints, in their order. *)
Definition int_chars (digits : list Z) (xx base : Z) (sign : bool) : option (list Z) :=
  let neg := sign && (xx <? 0) in
  let x := if neg then u32 (- xx) else u32 xx in
  buf ← digit_loop 33 digits base x [];
  buf ← (if neg then (if (16 <=? length buf)%nat then None else Some (buf ++ [45])) else Some buf);
  Some (reverse buf).

(** ** Formats *)

(** An argument of cprintf() and printf(): a word, or a pointer to a string ([None] is the
    null pointer). *)
Inductive parg : Type :=
| PInt (v : Z)
| PStr (s : option (list Z)).

(** "(null)" *)
Definition null_str : list Z := [40; 110; 117; 108; 108; 41].

(** ** Numerals *)

(** The value of digits, the most significant first. *)
Definition val (base : Z) (ds : list Z) : Z := foldl (λ v d, v * base + d) 0 ds.

Lemma val_snoc base ds d : val base (ds ++ [d]) = val base ds * base + d.
Proof. unfold val. by rewrite foldl_app. Qed.

(** A numeral: digits below the base, and no zero in front of others. *)
Definition numeral (base : Z) (ds : list Z) : Prop :=
  Forall (λ d, 0 ≤ d < base) ds ∧ ds ≠ [] ∧ (head ds = Some 0 → ds = [0]).

(** The characters of digits. *)
Definition shows (digits ds l : list Z) : Prop := Forall2 (λ d c, digits !! Z.to_nat d = Some c) ds l.

Section digits.
Context (digits : list Z) (base : Z) (Hbase : 2 ≤ base) (Hdigits : base ≤ Z.of_nat (length digits)).

(** [k] more digits fit. *)
Lemma digit_loop_spec k x buf : 0 ≤ x < base ^ Z.of_nat (S k) → (length buf + S k ≤ 16)%nat → ∀ fuel, (k < fuel)%nat →
  ∃ ds l, digit_loop fuel digits base x buf = Some (buf ++ reverse l) ∧ shows digits ds l ∧ numeral base ds ∧ val base ds = x ∧ (length l ≤ S k)%nat.
Proof.
  revert x buf. induction k as [|k IH]; intros x buf Hx Hb fuel Hf; (destruct fuel as [|fuel]; [lia|]); cbn [digit_loop];
    rewrite (proj2 (Nat.leb_gt _ _)) by lia; pose proof (Z.mod_pos_bound x base ltac:(lia)) as Hm;
    (destruct (lookup_lt_is_Some_2 digits (Z.to_nat (x mod base)) ltac:(lia)) as [c Hc]); rewrite Hc; cbn [mbind option_bind];
    destruct (Z.eqb_spec (x / base) 0) as [E|E].
  1, 3: pose proof (Z.div_mod x base); exists [x mod base], [c]; (split; [done|]); (split; [by apply Forall2_cons_2; [|apply Forall2_nil]|]);
    (split; [|split; [unfold val; simpl; lia|simpl; lia]]); (split; [by apply Forall_singleton|]; split; [done|]; by intros [= ->]).
  - exfalso. apply E, Z.div_small. rewrite Z.pow_1_r in Hx. lia.
  - destruct (IH (x / base) (buf ++ [c])) with (fuel := fuel) as (ds & l & H1 & H2 & (H3 & H4 & H5) & H6 & H7).
    { split; [apply Z.div_pos; lia|]. apply Z.div_lt_upper_bound; [lia|]. rewrite <- Z.pow_succ_r by lia. rewrite <- Nat2Z.inj_succ. apply Hx. }
    { rewrite length_app. simpl. lia. }
    { lia. }
    exists (ds ++ [x mod base]), (l ++ [c]). rewrite H1, reverse_app, <- (assoc_L (++)). split; [done|]. split; [apply Forall2_app; [done|]; by apply Forall2_cons_2; [|apply Forall2_nil]|].
    split; [|split; [rewrite val_snoc, H6; pose proof (Z.div_mod x base); lia|rewrite length_app; simpl; lia]].
    split; [by apply Forall_app; split; [|apply Forall_singleton]|]. split; [by destruct ds|]. intros Hh. exfalso. apply E. rewrite <- H6.
    destruct ds as [|d ds]; [done|]. simpl in Hh. injection Hh as ->. by rewrite H5.
Qed.
End digits.

(** printint() of a word in a base in which 32 bits have at most 15 digits. *)
Lemma int_chars_spec digits base k xx sign : 2 ≤ base ≤ Z.of_nat (length digits) → 2 ^ 32 ≤ base ^ Z.of_nat (S k) → (S k ≤ 15)%nat → -2 ^ 31 ≤ xx < 2 ^ 32 →
  let neg := sign && (xx <? 0) in
  ∃ ds l, int_chars digits xx base sign = Some ((if neg then [45] else []) ++ l) ∧ shows digits ds l ∧ numeral base ds ∧
    val base ds = if neg then - xx else u32 xx.
Proof.
  intros Hb Hk Hk15 Hx neg. set (x := if neg then u32 (- xx) else u32 xx).
  assert (Hxr : 0 ≤ x < 2 ^ 32) by (unfold x; destruct neg; apply u32_range).
  destruct (digit_loop_spec digits base ltac:(lia) ltac:(lia) k x [] ltac:(lia) ltac:(simpl; lia) 33 ltac:(lia)) as (ds & l & H1 & H2 & H3 & H4 & H5).
  exists ds, l. unfold int_chars. fold neg. fold x. rewrite H1. cbn [mbind option_bind app]. split; [|split; [done|split; [done|]]].
  - destruct neg; cbn [mbind option_bind]; [|by rewrite reverse_involutive]. rewrite (proj2 (Nat.leb_gt _ _)) by (rewrite length_reverse; lia). simpl.
    by rewrite reverse_app, reverse_involutive.
  - rewrite H4. unfold x. destruct neg eqn:E; [|done]. unfold neg in E. apply andb_true_iff in E as [_ E%Z.ltb_lt]. apply u32_small. lia.
Qed.

(** An int is a word that printint() can print. *)
Lemma s32_int v : -2 ^ 31 ≤ s32 v < 2 ^ 32.
Proof. unfold s32. pose proof (Z.mod_pos_bound (v + 2 ^ 31) (2 ^ 32)). lia. Qed.

(** The three decimals of a time in milliseconds. *)
Definition three (r : Z) : list Z := [48 + r / 100; 48 + r / 10 mod 10; 48 + r mod 10].
