(* ===== verification/Console.v ===== *)
(** * The console (console.c, uart.c)

    Output goes to the serial port and to the screen, a memory of 25 lines of
    80 cells with a cursor. Input is a ring of INPUT_BUF bytes: what was
    committed by a newline or ^D and can be read, from r to w, and the line
    being edited, from w to e. consoleintr() runs with cons.lock; consoleread()
    gives the lock up only in sleep(), so a stretch of it between two sleeps is
    one atomic section, which yields what it copied and how it ended. After the
    model come the line discipline and its refinement. *)

From S2P Require Import Prelude Ring Digits.

Definition BACKSPACE : Z := 256.
Definition INPUT_BUF : Z := 128.

(** C(x) *)
Definition ctrl (x : Z) : Z := x - 64.
Definition c_D : Z := ctrl 68.
Definition c_F : Z := ctrl 70.
Definition c_H : Z := ctrl 72.
Definition c_P : Z := ctrl 80.
Definition c_R : Z := ctrl 82.
Definition c_S : Z := ctrl 83.
Definition c_U : Z := ctrl 85.
Definition c_Z : Z := ctrl 90.
Definition c_del : Z := 127.
Definition c_nl : Z := 10.
Definition c_cr : Z := 13.

(** The variables of console.c and uart.c, the display memory with the cursor
    position the display controller keeps, and what was sent to the serial
    port; [cn_wakes] are the calls wakeup(&input.r). *)
Record console : Type := mkConsole {
  cn_panicked : bool; cn_uart : bool; cn_serial : list Z; cn_crt : list Z; cn_pos : Z;
  cn_buf : list Z; cn_r : Z; cn_w : Z; cn_e : Z; cn_wakes : nat;
}.
#[export] Instance console_eta : Eta console := λ s,
  mkConsole (cn_panicked s) (cn_uart s) (cn_serial s) (cn_crt s) (cn_pos s) (cn_buf s) (cn_r s) (cn_w s) (cn_e s) (cn_wakes s).
Abbreviation C := (M console).

(** ** Output *)

(** The wait for the port to be ready is bounded and changes nothing. *)
Definition uartputc (c : Z) : C unit :=
  u ← gets cn_uart;
  when u (modify (λ s, s <| cn_serial ::= λ l, l ++ [u8 c] |>)).

(** [crt[i] = v] *)
Definition put_cell (i v : Z) : C unit := λ s,
  if (0 <=? i) && (i <? Z.of_nat (length (cn_crt s))) then Done tt (s <| cn_crt ::= <[Z.to_nat i := v]> |>) else Fault s.

(** memmove(crt, crt+80, ...) and memset(crt+pos, 0, ...) *)
Definition scroll (pos : Z) (crt : list Z) : list Z :=
  let crt := splice crt 0 (take (23 * 80) (drop 80 crt)) in
  splice crt (Z.to_nat pos) (replicate (Z.to_nat (24 * 80 - pos)) 0).

Definition cgaputc (c : Z) : C unit :=
  pos ← gets cn_pos;
  pos ← (if c =? c_nl then mret (pos + (80 - Z.rem pos 80))
         else if c =? BACKSPACE then mret (if 0 <? pos then pos - 1 else pos)
         else put_cell pos (Z.lor (Z.land c 255) 1792);; mret (pos + 1));
  panic_if ((pos <? 0) || (25 * 80 <? pos)) "pos under/overflow";;
  pos ← (if 24 <=? Z.quot pos 80 then
           modify (λ s, s <| cn_crt ::= scroll (pos - 80) |>);; mret (pos - 80)
         else mret pos);
  modify (λ s, s <| cn_pos := u16 pos |>);;
  put_cell pos (Z.lor 32 1792).

(** A CPU that prints after a panic spins for ever. *)
Definition consputc (c : Z) : C unit :=
  p ← gets cn_panicked;
  if (p : bool) then panic "panicked"
  else
    (if c =? BACKSPACE then uartputc 8;; uartputc 32;; uartputc 8 else uartputc c);;
    cgaputc c.

Fixpoint putchars (l : list Z) : C unit :=
  match l with [] => mret tt | c :: l => consputc c;; putchars l end.

(** consolewrite() between iunlock() and ilock(). *)
Definition consolewrite (buf : list Z) : C Z :=
  putchars ((λ c, Z.land c 255) <$> buf);; mret (Z.of_nat (length buf)).

(** ** Numbers and formats *)

(** "0123456789abcdef" *)
Definition lower_digits : list Z := [48; 49; 50; 51; 52; 53; 54; 55; 56; 57; 97; 98; 99; 100; 101; 102].

Definition printint (xx base : Z) (sign : bool) : C unit :=
  match int_chars lower_digits xx base sign with Some l => putchars l | None => fault end.

(** The loop of cprintf() over the format, from fmt[i] on. A missing
    argument, or one that is not what the format says, is [Fault]. *)
Fixpoint cprintf_loop (fmt : list Z) (args : list parg) : C unit :=
  match fmt with
  | [] => fault
  | c :: fmt =>
    if c =? 0 then mret tt
    else if negb (c =? 37) then consputc c;; cprintf_loop fmt args
    else
      match fmt with
      | [] => fault
      | c :: fmt =>
        if c =? 0 then mret tt
        else if c =? 100 then
          match args with PInt v :: args => printint v 10 true;; cprintf_loop fmt args | _ => fault end
        else if (c =? 120) || (c =? 112) then
          match args with PInt v :: args => printint v 16 false;; cprintf_loop fmt args | _ => fault end
        else if c =? 115 then
          match args with PStr s :: args => putchars (default null_str s);; cprintf_loop fmt args | _ => fault end
        else if c =? 37 then consputc 37;; cprintf_loop fmt args
        else consputc 37;; consputc c;; cprintf_loop fmt args
      end
  end.

(** ** Input *)

(** input.buf[i % INPUT_BUF] *)
Definition rd_input (i : Z) : C Z := λ s,
  match cn_buf s !! cell INPUT_BUF i with Some c => Done c s | None => Fault s end.

(** The loop of ^U. *)
Fixpoint kill_loop (n : nat) : C unit :=
  s ← get;
  if cn_e s =? cn_w s then mret tt
  else
    c ← rd_input (u32 (cn_e s - 1));
    if c =? c_nl then mret tt
    else
      match n with
      | O => nofuel
      | S n => modify (λ s, s <| cn_e := u32 (cn_e s - 1) |>);; consputc BACKSPACE;; kill_loop n
      end.

(** What consoleintr() prints after it gave up the lock. *)
Inductive dump : Type := DProc | DReady | DZombie | DFree | DSleep.

Definition dump_key (c : Z) : option dump :=
  if c =? c_P then Some DProc
  else if c =? c_R then Some DReady
  else if c =? c_Z then Some DZombie
  else if c =? c_F then Some DFree
  else if c =? c_S then Some DSleep
  else None.

(** The switch of consoleintr() for the character [c]. *)
Definition key (c : Z) : C (option dump) :=
  match dump_key c with
  | Some d => mret (Some d)
  | None =>
    s ← get;
    (if c =? c_U then kill_loop (Z.to_nat (u32 (cn_e s - cn_w s)))
     else if (c =? c_H) || (c =? c_del) then
       when (negb (cn_e s =? cn_w s)) (
         modify (λ s, s <| cn_e := u32 (cn_e s - 1) |>);;
         consputc BACKSPACE)
     else
       when (negb (c =? 0) && (u32 (cn_e s - cn_r s) <? INPUT_BUF)) (
         let c := if c =? c_cr then c_nl else c in
         modify (λ s, s <| cn_buf ::= <[cell INPUT_BUF (cn_e s) := c]> |> <| cn_e := u32 (cn_e s + 1) |>);;
         consputc c;;
         s ← get;
         when ((c =? c_nl) || (c =? c_D) || (cn_e s =? u32 (cn_r s + INPUT_BUF))) (
           modify (λ s, s <| cn_w := cn_e s |> <| cn_wakes ::= S |>))));;
    mret None
  end.

(** consoleintr(): [cs] are the characters getc() returns before a negative
    value; returns the dumps that were asked for. *)
Fixpoint consoleintr (cs : list Z) : C (list dump) :=
  match cs with
  | [] => mret []
  | c :: cs => d ← key c; l ← consoleintr cs; mret (option_list d ++ l)
  end.

(** How a section of consoleread() ends: with a result, or asleep with [n]
    bytes left to read. *)
Inductive cres : Type :=
| CRet (v : Z)
| CSleep (n : nat).

(** A section of consoleread() of [target] bytes, with [n] left; also returns
    the bytes it stored. *)
Fixpoint consoleread (killed : bool) (target n : nat) : C (cres * list Z) :=
  match n with
  | O => mret (CRet (Z.of_nat target - Z.of_nat n), [])
  | S n' =>
    s ← get;
    if cn_r s =? cn_w s then mret (if killed then CRet (-1) else CSleep n, [])
    else
      c ← rd_input (cn_r s);
      modify (λ s, s <| cn_r := u32 (cn_r s + 1) |>);;
      if c =? c_D then
        when (n <? target)%nat (modify (λ s, s <| cn_r := u32 (cn_r s - 1) |>));;
        mret (CRet (Z.of_nat target - Z.of_nat n), [])
      else if c =? c_nl then mret (CRet (Z.of_nat target - Z.of_nat n'), [c])
      else
        r ← consoleread killed target n';
        mret (r.1, c :: r.2)
  end.

(** ** The line discipline of the console

    The ring with its three counters implements two lists: the bytes that can
    be read and the line that is being edited. [cinv] relates them; key by key
    and section by section consoleintr() and consoleread() do what [key_spec]
    and [read_spec] do on the lists, also when the counters wrap around, and no
    character that is printed leaves the screen. *)

Lemma input_pos : 0 < INPUT_BUF.
Proof. done. Qed.
Lemma input_div : (INPUT_BUF | 2 ^ 32).
Proof. by exists 33554432. Qed.

(** ** The screen *)

(** The cursor is on one of the first 24 lines, in 25 lines of memory. *)
Record screen_ok (s : console) : Prop := {
  so_panicked : cn_panicked s = false;
  so_crt : length (cn_crt s) = 2000%nat;
  so_pos : 0 ≤ cn_pos s < 1920;
}.

(** Printing changes the screen and the serial port only. *)
Definition same_input (s s' : console) : Prop :=
  cn_uart s' = cn_uart s ∧ cn_buf s' = cn_buf s ∧ cn_r s' = cn_r s ∧ cn_w s' = cn_w s ∧ cn_e s' = cn_e s ∧ cn_wakes s' = cn_wakes s.

Lemma same_input_refl s : same_input s s.
Proof. done. Qed.
Lemma same_input_trans s1 s2 s3 : same_input s1 s2 → same_input s2 s3 → same_input s1 s3.
Proof. unfold same_input. intuition congruence. Qed.

Lemma wp_put_cell i v s (Q : unit → console → Prop) : 0 ≤ i < Z.of_nat (length (cn_crt s)) →
  Q tt (s <| cn_crt ::= <[Z.to_nat i := v]> |>) → wp (put_cell i v) Q s.
Proof. intros Hi HQ. unfold wp, put_cell. by rewrite (proj2 (Z.leb_le _ _)), (proj2 (Z.ltb_lt _ _)) by lia. Qed.

Lemma length_scroll pos crt : length crt = 2000%nat → 0 ≤ pos ≤ 1920 → length (scroll pos crt) = 2000%nat.
Proof.
  intros Hc Hp. unfold scroll. assert (H1 : length (splice crt 0 (take (23 * 80) (drop 80 crt))) = 2000%nat).
  { rewrite length_splice; [done|]. rewrite length_take, length_drop. lia. }
  rewrite length_splice; [done|]. rewrite length_replicate. lia.
Qed.

Lemma cgaputc_spec c s : screen_ok s →
  wp (cgaputc c) (λ _ s', screen_ok s' ∧ same_input s s' ∧ cn_serial s' = cn_serial s) s.
Proof.
  intros [Hp Hc Hr]. unfold cgaputc. apply wp_bind, wp_gets, wp_bind.
  assert (Hrest : ∀ pos s1, 0 ≤ pos ≤ 1920 → screen_ok s1 → same_input s s1 → cn_serial s1 = cn_serial s →
    wp (panic_if ((pos <? 0) || (25 * 80 <? pos)) "pos under/overflow";;
        pos ← (if 24 <=? Z.quot pos 80 then modify (λ s, s <| cn_crt ::= scroll (pos - 80) |>);; mret (pos - 80) else mret pos);
        modify (λ s, s <| cn_pos := u16 pos |>);; put_cell pos (Z.lor 32 1792))
      (λ _ s', screen_ok s' ∧ same_input s s' ∧ cn_serial s' = cn_serial s) s1).
  { intros pos s1 Hpos [Hp1 Hc1 Hr1] Hi Hs. apply wp_bind, wp_panic_if; [apply orb_false_iff; split; zlia|]. apply wp_bind.
    assert (Hend : ∀ pos' s2, 0 ≤ pos' < 1920 → cn_panicked s2 = false → length (cn_crt s2) = 2000%nat → same_input s s2 → cn_serial s2 = cn_serial s →
      wp (modify (λ s, s <| cn_pos := u16 pos' |>);; put_cell pos' (Z.lor 32 1792)) (λ _ s', screen_ok s' ∧ same_input s s' ∧ cn_serial s' = cn_serial s) s2).
    { intros pos' s2 Hp2 H1 H2 H3 H4. apply wp_bind, wp_modify, wp_put_cell; simpl; [lia|]. split; [|done].
      split; simpl; [done|by rewrite length_insert|]. unfold u16. rewrite Z.mod_small; lia. }
    destruct (24 <=? _) eqn:Hq; apply Z.leb_le in Hq || apply Z.leb_gt in Hq; rewrite Z.quot_div_nonneg in Hq by lia.
    - assert (pos = 1920) as -> by (pose proof (Z.div_mod pos 80); pose proof (Z.mod_pos_bound pos 80); lia).
      apply wp_bind, wp_modify, wp_ret, Hend; [lia|done| |done|done]. by apply length_scroll.
    - apply wp_ret, Hend; [|done|done|done|done]. pose proof (Z.div_mod pos 80). pose proof (Z.mod_pos_bound pos 80). lia. }
  destruct (c =? c_nl); [|destruct (c =? BACKSPACE)].
  - apply wp_ret, Hrest; [|done|done|done]. rewrite Z.rem_mod_nonneg by lia. pose proof (Z.div_mod (cn_pos s) 80).
    pose proof (Z.mod_pos_bound (cn_pos s) 80). lia.
  - apply wp_ret, Hrest; [|done|done|done]. destruct (Z.ltb_spec 0 (cn_pos s)); lia.
  - apply wp_bind, wp_put_cell; [lia|]. apply wp_ret, Hrest; [lia| |done|done]. split; simpl; [done|by rewrite length_insert|done].
Qed.

(** What the serial port gets for a character. *)
Definition serial_of (c : Z) : list Z := if c =? BACKSPACE then [8; 32; 8] else [u8 c].

(** [printed l s s']: [l] went to the serial port, if there is one. *)
Definition printed (l : list Z) (s s' : console) : Prop :=
  screen_ok s' ∧ same_input s s' ∧ cn_serial s' = cn_serial s ++ if cn_uart s then l else [].

Lemma printed_nil s : screen_ok s → printed [] s s.
Proof. intros Hs. split; [done|]. split; [done|]. destruct (cn_uart s); by rewrite app_nil_r. Qed.

Lemma printed_app l1 l2 s1 s2 s3 : printed l1 s1 s2 → printed l2 s2 s3 → printed (l1 ++ l2) s1 s3.
Proof.
  intros (_ & H2 & H3) (H4 & H5 & H6). split; [done|]. split; [by eapply same_input_trans|]. destruct H2 as (Hu & _).
  rewrite H6, H3, Hu, <- (assoc_L (++)). f_equal. by destruct (cn_uart s1).
Qed.

Lemma uartputc_spec c s : screen_ok s → wp (uartputc c) (λ _ s', printed [u8 c] s s') s.
Proof.
  intros Hs. unfold uartputc. apply wp_bind, wp_gets, wp_when; intros Hu; [apply wp_modify|]; (split; [by destruct Hs|]; split; [done|]); rewrite Hu; [done|].
  by rewrite app_nil_r.
Qed.

Lemma consputc_spec c s : screen_ok s → wp (consputc c) (λ _ s', printed (serial_of c) s s') s.
Proof.
  intros Hs. unfold consputc, serial_of. apply wp_bind, wp_gets. rewrite (so_panicked _ Hs). apply wp_bind.
  assert (Hcga : ∀ l s1, printed l s s1 → wp (cgaputc c) (λ _ s', printed l s s') s1).
  { intros l s1 (H1 & H2 & H3). eapply wp_mono; [by apply cgaputc_spec|]. intros _ s' (H4 & H5 & H6).
    split; [done|]. split; [by eapply same_input_trans|congruence]. }
  destruct (c =? BACKSPACE).
  - apply wp_bind. eapply wp_mono; [by apply uartputc_spec|]. intros [] s1 P1. apply wp_bind. eapply wp_mono; [apply uartputc_spec; apply P1|].
    intros [] s2 P2. eapply wp_mono; [apply uartputc_spec; apply P2|]. intros [] s3 P3. apply Hcga.
    exact (printed_app _ _ _ _ _ (printed_app _ _ _ _ _ P1 P2) P3).
  - eapply wp_mono; [by apply uartputc_spec|]. intros [] s1. apply Hcga.
Qed.

Lemma putchars_spec l s : screen_ok s → wp (putchars l) (λ _ s', printed (l ≫= serial_of) s s') s.
Proof.
  revert s. induction l as [|c l IH]; intros s Hs; cbn [putchars].
  - by apply wp_ret, printed_nil.
  - apply wp_bind. eapply wp_mono; [by apply consputc_spec|]. intros [] s1 P1. eapply wp_mono; [apply IH; apply P1|].
    intros [] s2 P2. by eapply printed_app.
Qed.

(** ** The lists behind the ring *)

Record cinv (s : console) (rd ed : list Z) : Prop := {
  ci_buf : length (cn_buf s) = Z.to_nat INPUT_BUF;
  ci_r : 0 ≤ cn_r s < 2 ^ 32;
  ci_size : (length (rd ++ ed) ≤ Z.to_nat INPUT_BUF)%nat;
  ci_w : cn_w s = u32 (cn_r s + Z.of_nat (length rd));
  ci_e : cn_e s = u32 (cn_r s + Z.of_nat (length (rd ++ ed)));
  ci_ring : ring INPUT_BUF (cn_buf s) (cn_r s) (length (rd ++ ed)) = Some <$> (rd ++ ed);
  ci_line : (c_nl ∉ ed) ∧ (c_D ∉ ed);       (* these are committed at once *)
  ci_full : length (rd ++ ed) = Z.to_nat INPUT_BUF → ed = [];
}.

Lemma cinv_eq s s' rd ed : cn_buf s' = cn_buf s → cn_r s' = cn_r s → cn_w s' = cn_w s → cn_e s' = cn_e s → cinv s rd ed → cinv s' rd ed.
Proof. intros Hb Hr Hw He []. split; by rewrite ?Hb, ?Hr, ?Hw, ?He. Qed.

Lemma cinv_same s s' rd ed : same_input s s' → cinv s rd ed → cinv s' rd ed.
Proof. intros (_ & Hb & Hr & Hw & He & _). by apply cinv_eq. Qed.

Lemma w_eq_e s rd ed : cinv s rd ed → (cn_e s =? cn_w s) = bool_decide (ed = []).
Proof.
  intros [_ Hr Hs Hw He _ _ _]. rewrite Hw, He. rewrite length_app in *. case_bool_decide as H.
  - subst ed. simpl. rewrite Nat.add_0_r. by apply Z.eqb_eq.
  - apply Z.eqb_neq. intros E. apply u32_eq_add in E; unfold INPUT_BUF in *; [|lia|lia]. destruct ed; [done|simpl in *; lia].
Qed.

Lemma r_eq_w s rd ed : cinv s rd ed → (cn_r s =? cn_w s) = bool_decide (rd = []).
Proof.
  intros [_ Hr Hs Hw _ _ _ _]. rewrite Hw. rewrite length_app in *. case_bool_decide as H.
  - subst rd. simpl. rewrite Z.add_0_r, u32_small by done. by apply Z.eqb_eq.
  - apply Z.eqb_neq. intros E. rewrite <- (u32_small (cn_r s)) in E at 1 by done. rewrite <- (Z.add_0_r (cn_r s)) in E at 1.
    apply u32_eq_add in E; unfold INPUT_BUF in *; [|lia|lia]. destruct rd; [done|simpl in *; lia].
Qed.

Lemma e_minus_r s rd ed : cinv s rd ed → u32 (cn_e s - cn_r s) = Z.of_nat (length (rd ++ ed)).
Proof.
  intros [_ Hr Hs _ He _ _ _]. rewrite He. unfold u32. rewrite Zminus_mod_idemp_l, Z.mod_small; unfold INPUT_BUF in *; lia.
Qed.

Lemma e_minus_w s rd ed : cinv s rd ed → u32 (cn_e s - cn_w s) = Z.of_nat (length ed).
Proof.
  intros [_ Hr Hs Hw He _ _ _]. rewrite He, Hw. unfold u32. rewrite <- Zminus_mod. rewrite length_app in *. rewrite Z.mod_small; unfold INPUT_BUF in *; lia.
Qed.

(** Taking the last character of the line back. *)
Lemma erase_cinv s rd ed c : cinv s rd (ed ++ [c]) →
  cn_buf s !! cell INPUT_BUF (u32 (cn_e s - 1)) = Some c ∧ cinv (s <| cn_e := u32 (cn_e s - 1) |>) rd ed.
Proof.
  intros [Hb Hr Hs Hw He Hg [Hl Hl'] Hf]. rewrite (assoc_L (++)) in *. pose proof Hs as Hs'. rewrite length_app in Hs'. simpl in Hs'.
  assert (E : u32 (cn_e s - 1) = u32 (cn_r s + Z.of_nat (length (rd ++ ed)))).
  { rewrite He. unfold u32. rewrite Zminus_mod_idemp_l, (length_app (rd ++ ed)). simpl. f_equal. lia. }
  split.
  - rewrite length_app, Nat.add_1_r, ring_S, fmap_app in Hg. apply app_inj_2 in Hg as [_ Hg]; [|done]. injection Hg as Hg. by rewrite E.
  - split; simpl; [done|done|lia|done|done| |set_solver|lia]. eapply ring_prefix. exact Hg.
Qed.

(** ** The specification *)

(** A key, on the bytes to read and the line. *)
Definition key_spec (c : Z) (q : list Z * list Z) : list Z * list Z :=
  let '(rd, ed) := q in
  if dump_key c then q
  else if c =? c_U then (rd, [])
  else if (c =? c_H) || (c =? c_del) then (rd, removelast ed)
  else if negb (c =? 0) && (length (rd ++ ed) <? Z.to_nat INPUT_BUF)%nat then
    let c := if c =? c_cr then c_nl else c in
    if (c =? c_nl) || (c =? c_D) || (length (rd ++ ed) + 1 =? Z.to_nat INPUT_BUF)%nat
    then (rd ++ ed ++ [c], []) else (rd, ed ++ [c])
  else q.

(** The bytes a read of at most [n] takes: up to and with a newline, or up to ^D. *)
Fixpoint take_line (n : nat) (q : list Z) : list Z :=
  match n, q with
  | S n, c :: q => if c =? c_D then [] else if c =? c_nl then [c] else c :: take_line n q
  | _, _ => []
  end.

(** A section of a read: its end, the bytes, and what remains to be read. *)
Definition read_spec (killed : bool) (target n : nat) (rd : list Z) : cres * list Z * list Z :=
  let bs := take_line n rd in
  let n' := (n - length bs)%nat in
  let rest := drop (length bs) rd in
  let ret := CRet (Z.of_nat target - Z.of_nat n') in
  if (n' =? 0)%nat || bool_decide (last bs = Some c_nl) then (ret, bs, rest)
  else
    match rest with
    | [] => (if killed then CRet (-1) else CSleep n', bs, [])
    | _ :: rest' => (ret, bs, if (n' <? target)%nat then rest else rest')   (* at ^D *)
    end.

(** ** Each operation does what the specification says *)

(** What [key] and [consoleintr] leave: [n] wakeups were sent. *)
Record typed (s : console) (q : list Z * list Z) (n : nat) (s' : console) : Prop := {
  ty_screen : screen_ok s';
  ty_inv : cinv s' q.1 q.2;
  ty_wakes : cn_wakes s' = (n + cn_wakes s)%nat;
}.

Lemma kill_loop_spec s rd ed : screen_ok s → cinv s rd ed →
  wp (kill_loop (length ed)) (λ _ s', typed s (rd, []) 0 s') s.
Proof.
  revert s. induction ed as [|c ed IH] using rev_ind; intros s Hs Hi.
  - cbn. apply wp_bind, wp_get. rewrite (w_eq_e _ _ _ Hi). by apply wp_ret.
  - destruct (erase_cinv _ _ _ _ Hi) as [Hc Hi']. pose proof (ci_line _ _ _ Hi) as [Hl _]. rewrite length_app, Nat.add_1_r. cbn [kill_loop].
    apply wp_bind, wp_get. rewrite (w_eq_e _ _ _ Hi), bool_decide_false by (by destruct ed). apply wp_bind. unfold wp at 1, rd_input.
    rewrite Hc, (proj2 (Z.eqb_neq c c_nl)) by set_solver. apply wp_bind, wp_modify, wp_bind.
    eapply wp_mono; [apply consputc_spec; by destruct Hs|]. intros [] s1 (P1 & P2 & _). eapply wp_mono; [apply IH; [done|by eapply cinv_same]|].
    intros [] s2 [T1 T2 T3]. split; [done|done|]. rewrite T3. by destruct P2 as (_ & _ & _ & _ & _ & ->).
Qed.

(** Storing a character at the end of the line. *)
Lemma store_cinv s rd ed c : cinv s rd ed → (length (rd ++ ed) < Z.to_nat INPUT_BUF)%nat →
  let s' := s <| cn_buf ::= <[cell INPUT_BUF (cn_e s) := c]> |> <| cn_e := u32 (cn_e s + 1) |> in
  cinv (s' <| cn_w := cn_e s' |>) (rd ++ ed ++ [c]) [] ∧
  (c ≠ c_nl → c ≠ c_D → (length (rd ++ ed) + 1 < Z.to_nat INPUT_BUF)%nat → cinv s' rd (ed ++ [c])).
Proof.
  intros [Hb Hr Hs Hw He Hg [Hl Hl'] Hf] Hlt s'.
  assert (E : u32 (cn_e s + 1) = u32 (cn_r s + Z.of_nat (length (rd ++ ed ++ [c])))).
  { rewrite He, u32_add_l, (assoc_L (++)), (length_app (rd ++ ed)). simpl. f_equal. lia. }
  assert (G : ring INPUT_BUF (<[cell INPUT_BUF (cn_e s) := c]> (cn_buf s)) (cn_r s) (length (rd ++ ed ++ [c])) = Some <$> (rd ++ ed ++ [c])).
  { rewrite He, (assoc_L (++)). by apply (ring_put _ input_pos input_div). }
  assert (L : length (rd ++ ed ++ [c]) = (length (rd ++ ed) + 1)%nat) by by rewrite (assoc_L (++)), length_app.
  split.
  - split; simpl; rewrite ?app_nil_r; [by rewrite length_insert|done|lia|done|done|done|set_solver|done].
  - intros H1 H2 H3. split; simpl; [by rewrite length_insert|done|lia|done|done|done| |lia]. set_solver.
Qed.

(** The wakeups a key sends. *)
Definition key_wakes (c : Z) (q : list Z * list Z) : nat := if decide ((key_spec c q).1 = q.1) then 0 else 1.

(** A key that only changes the line. *)
Lemma key_edits s rd ed' s1 : typed s (rd, ed') 0 s1 →
  @None dump = None ∧ typed s (rd, ed') (if decide (rd = rd) then 0 else 1) s1.
Proof. intros H. split; [done|]. by rewrite decide_True. Qed.

(** The ring is full when the byte that was stored is the last that fits. *)
Lemma full_after s rd ed : cinv s rd ed → (length (rd ++ ed) < Z.to_nat INPUT_BUF)%nat →
  (u32 (cn_e s + 1) =? u32 (cn_r s + INPUT_BUF)) = (length (rd ++ ed) + 1 =? Z.to_nat INPUT_BUF)%nat.
Proof.
  intros Hi Hlt. rewrite (ci_e _ _ _ Hi), u32_add_l. pose proof (ci_r _ _ _ Hi). destruct (Nat.eqb_spec (length (rd ++ ed) + 1) (Z.to_nat INPUT_BUF)) as [E|E].
  - apply Z.eqb_eq. f_equal. lia.
  - apply Z.eqb_neq. rewrite <- Z.add_assoc. intros E'%u32_eq_add; unfold INPUT_BUF in *; lia.
Qed.

(** The default case of the switch, for a character that fits. *)
Lemma store_refines c s rd ed : screen_ok s → cinv s rd ed → (length (rd ++ ed) < Z.to_nat INPUT_BUF)%nat →
  let commits := (c =? c_nl) || (c =? c_D) || (length (rd ++ ed) + 1 =? Z.to_nat INPUT_BUF)%nat in
  wp (modify (λ s, s <| cn_buf ::= <[cell INPUT_BUF (cn_e s) := c]> |> <| cn_e := u32 (cn_e s + 1) |>);;
      consputc c;;
      s ← get;
      when ((c =? c_nl) || (c =? c_D) || (cn_e s =? u32 (cn_r s + INPUT_BUF))) (modify (λ s, s <| cn_w := cn_e s |> <| cn_wakes ::= S |>)))
    (λ _ s', typed s (if commits then (rd ++ ed ++ [c], []) else (rd, ed ++ [c])) (if commits then 1 else 0) s') s.
Proof.
  intros Hs Hi Hlt commits. destruct (store_cinv _ _ _ c Hi Hlt) as [Hcommit Hedit].
  apply wp_bind, wp_modify, wp_bind. eapply wp_mono; [apply consputc_spec; by destruct Hs|]. intros [] s1 (P1 & P2 & _).
  pose proof P2 as (_ & Eb & Er & _ & Ee & Ew). simpl in Eb, Er, Ee, Ew. apply wp_bind, wp_get. rewrite Ee, Er, (full_after _ _ _ Hi Hlt).
  fold commits. destruct commits eqn:Hc.
  - apply wp_modify. split; [by destruct P1| |]; simpl; [|by rewrite Ew]. eapply cinv_eq; [..|exact Hcommit]; done.
  - apply wp_ret. split; [done| |done]. simpl. unfold commits in Hc. apply orb_false_iff in Hc as [[Hn HD]%orb_false_iff Hf].
    eapply cinv_same; [exact P2|]. apply Hedit; [by apply Z.eqb_neq|by apply Z.eqb_neq|]. apply Nat.eqb_neq in Hf. lia.
Qed.

Lemma key_refines c s rd ed : screen_ok s → cinv s rd ed →
  wp (key c) (λ d s', d = dump_key c ∧ typed s (key_spec c (rd, ed)) (key_wakes c (rd, ed)) s') s.
Proof.
  intros Hs Hi. unfold key, key_wakes, key_spec. destruct (dump_key c); [apply wp_ret; split; [done|]; by rewrite decide_True|].
  apply wp_bind, wp_get, wp_bind. destruct (c =? c_U).
  { rewrite (e_minus_w _ _ _ Hi), Nat2Z.id. eapply wp_mono; [by apply kill_loop_spec|]. intros [] s1. apply key_edits. }
  destruct (_ || _).
  { rewrite (w_eq_e _ _ _ Hi). case_bool_decide as He; simpl.
    - subst ed. by apply wp_ret, key_edits.
    - destruct (snoc_or_nil ed) as [->|(ed' & x & ->)]; [done|]. destruct (erase_cinv _ _ _ _ Hi) as [_ Hi']. apply wp_bind, wp_modify.
      eapply wp_mono; [apply consputc_spec; by destruct Hs|]. intros [] s1 (P1 & P2 & _). rewrite removelast_last. apply key_edits.
      split; [done|by eapply cinv_same|]. by destruct P2 as (_ & _ & _ & _ & _ & ->). }
  rewrite (e_minus_r _ _ _ Hi). destruct (negb (c =? 0)); simpl; [|by apply wp_ret, key_edits].
  destruct (Nat.ltb_spec (length (rd ++ ed)) (Z.to_nat INPUT_BUF)) as [Hlt|Hge].
  - rewrite (proj2 (Z.ltb_lt _ _)) by lia. cbv zeta. eapply wp_mono; [by apply store_refines|]. intros [] s1 H. apply wp_ret. split; [done|].
    destruct (_ || _); simpl; [|by rewrite decide_True].
    rewrite decide_False by (intros E%(f_equal length); rewrite !length_app in E; simpl in E; lia). done.
  - rewrite (proj2 (Z.ltb_ge _ _)) by lia. by apply wp_ret, key_edits.
Qed.

Definition keys_spec (cs : list Z) (q : list Z * list Z) : list Z * list Z := foldl (λ q c, key_spec c q) q cs.

Lemma consoleintr_refines cs s rd ed : screen_ok s → cinv s rd ed →
  wp (consoleintr cs) (λ d s', d = omap dump_key cs ∧ ∃ n, typed s (keys_spec cs (rd, ed)) n s' ∧
    (n = 0%nat → (keys_spec cs (rd, ed)).1 = rd)) s.
Proof.
  revert s rd ed. induction cs as [|c cs IH]; intros s rd ed Hs Hi; cbn [consoleintr].
  - apply wp_ret. split; [done|]. by exists 0%nat.
  - apply wp_bind. eapply wp_mono; [by apply key_refines|]. intros d s1 [-> [H1 H2 H3]]. destruct (key_spec c (rd, ed)) as [rd1 ed1] eqn:Hk.
    apply wp_bind. eapply wp_mono; [by apply IH|]. intros l s2 (-> & n & [H4 H5 H6] & H7). apply wp_ret.
    split; [simpl; by destruct (dump_key c)|]. exists (n + key_wakes c (rd, ed))%nat. cbn [keys_spec foldl]. rewrite Hk.
    split; [split; [done|done|]; rewrite H6, H3; lia|]. unfold key_wakes. rewrite Hk. simpl. case_decide; [|lia]. intros Hn.
    rewrite <- H. apply H7. lia.
Qed.

(** The first byte goes out of the ring. *)
Lemma take_cinv s c rd ed : cinv s (c :: rd) ed →
  cn_buf s !! cell INPUT_BUF (cn_r s) = Some c ∧ cinv (s <| cn_r := u32 (cn_r s + 1) |>) rd ed.
Proof.
  intros [Hb Hr Hs Hw He Hg [Hl Hl'] Hf]. simpl in *. rewrite ring_cons in Hg by (done || apply input_div). injection Hg as Hc Hg. split; [done|].
  split; simpl; [done|apply u32_range|lia| | |done|done|lia].
  - rewrite Hw, u32_add_l. f_equal. lia.
  - rewrite He, u32_add_l. f_equal. lia.
Qed.

Lemma read_spec_cons killed target n c rd : c ≠ c_D → c ≠ c_nl →
  read_spec killed target (S n) (c :: rd) = let '(res, bs, rest) := read_spec killed target n rd in (res, c :: bs, rest).
Proof.
  intros HD Hn. unfold read_spec. cbn [take_line]. rewrite (proj2 (Z.eqb_neq c c_D)), (proj2 (Z.eqb_neq c c_nl)) by done. cbn [length drop Nat.sub].
  assert (El : bool_decide (last (c :: take_line n rd) = Some c_nl) = bool_decide (last (take_line n rd) = Some c_nl)).
  { apply bool_decide_ext. destruct (take_line n rd); [|done]. simpl. naive_solver. }
  rewrite El. destruct (_ || _); [done|]. by destruct (drop _ rd).
Qed.

Lemma read_spec_eof killed target n rd :
  read_spec killed target (S n) (c_D :: rd) = (CRet (Z.of_nat target - Z.of_nat (S n)), [], if (S n <? target)%nat then c_D :: rd else rd).
Proof. reflexivity. Qed.

Lemma read_spec_nl killed target n rd : read_spec killed target (S n) (c_nl :: rd) = (CRet (Z.of_nat target - Z.of_nat n), [c_nl], rd).
Proof. unfold read_spec. change (take_line (S n) (c_nl :: rd)) with [c_nl]. cbn [length last drop]. rewrite bool_decide_true, orb_true_r by done. by rewrite Nat.sub_succ, Nat.sub_0_r. Qed.

(** What a section leaves. *)
Record sectioned (s : console) (rd ed : list Z) (s' : console) : Prop := {
  se_screen : screen_ok s → screen_ok s';
  se_inv : cinv s' rd ed;
  se_wakes : cn_wakes s' = cn_wakes s;
}.

Lemma sectioned_r s rd ed z : cinv (s <| cn_r := z |>) rd ed → sectioned s rd ed (s <| cn_r := z |>).
Proof. intros H. split; [|done|done]. by intros []. Qed.

Lemma consoleread_refines killed target n s rd ed : cinv s rd ed →
  wp (consoleread killed target n) (λ r s', r = (read_spec killed target n rd).1 ∧ sectioned s (read_spec killed target n rd).2 ed s') s.
Proof.
  revert s rd. induction n as [|n IH]; intros s rd Hi; cbn [consoleread].
  { apply wp_ret. unfold read_spec. by destruct rd. }
  apply wp_bind, wp_get. rewrite (r_eq_w _ _ _ Hi). destruct rd as [|c rd].
  { rewrite bool_decide_true by done. apply wp_ret. unfold read_spec. simpl. by destruct killed. }
  rewrite bool_decide_false by done. destruct (take_cinv _ _ _ _ Hi) as [Hc Hi']. apply wp_bind. unfold wp at 1, rd_input. rewrite Hc.
  apply wp_bind, wp_modify. destruct (Z.eqb_spec c c_D) as [->|HD]; [|destruct (Z.eqb_spec c c_nl) as [->|Hn]].
  - rewrite read_spec_eof. apply wp_bind, wp_when; intros ->; [apply wp_modify|]; apply wp_ret; (split; [done|]); [|by apply sectioned_r].
    split; [by intros []| |done]. eapply cinv_eq; [..|exact Hi]; try done. simpl. rewrite <- (u32_small (cn_r s)) at 2 by apply (ci_r _ _ _ Hi).
    unfold u32. rewrite Zminus_mod_idemp_l. f_equal. lia.
  - rewrite read_spec_nl. apply wp_ret. split; [done|]. by apply sectioned_r.
  - rewrite (read_spec_cons _ _ _ _ _ HD Hn). apply wp_bind. eapply wp_mono; [by apply IH|]. intros r s1 [-> [H1 H2 H3]].
    destruct (read_spec killed target n rd) as [[res bs] rest]. apply wp_ret. split; [done|]. split; [|done|done]. intros Hs. apply H1. by destruct Hs.
Qed.

(** ** Sequences of interrupts and reads *)

(** An interrupt with its characters, or a section of a read. *)
Inductive cevent : Type :=
| EKeys (cs : list Z)
| ERead (killed : bool) (target n : nat).

Fixpoint crun (es : list cevent) : C (list (cres * list Z)) :=
  match es with
  | [] => mret []
  | EKeys cs :: es => _ ← consoleintr cs; crun es
  | ERead killed target n :: es => r ← consoleread killed target n; l ← crun es; mret (r :: l)
  end.

Fixpoint crun_spec (es : list cevent) (q : list Z * list Z) : list (cres * list Z) * (list Z * list Z) :=
  match es with
  | [] => ([], q)
  | EKeys cs :: es => crun_spec es (keys_spec cs q)
  | ERead killed target n :: es =>
    let '(r, rd) := read_spec killed target n q.1 in
    let '(l, q') := crun_spec es (rd, q.2) in
    (r :: l, q')
  end.

(** A console that started: the arrays are there, nothing was typed. *)
Definition cons_init (uart : bool) (serial crt : list Z) (pos : Z) (buf : list Z) : console :=
  mkConsole false uart serial crt pos buf 0 0 0 0.

Lemma cinv_init uart serial crt pos buf : length buf = Z.to_nat INPUT_BUF → cinv (cons_init uart serial crt pos buf) [] [].
Proof. intros Hb. split; simpl; try done; [lia|split; apply not_elem_of_nil]. Qed.

(** ** Readers and the keyboard together *)

(** A process in consoleread(): the bytes it was asked for, those left, those
    it has, whether it sleeps, and its result. *)
Record reader : Type := mkReader { re_target : nat; re_left : nat; re_got : list Z; re_asleep : bool; re_result : option Z }.
#[export] Instance reader_eta : Eta reader := λ x, mkReader (re_target x) (re_left x) (re_got x) (re_asleep x) (re_result x).

Definition wake (x : reader) : reader := x <| re_asleep := false |>.
Definition after_section (r : cres * list Z) (x : reader) : reader :=
  let x := x <| re_got ::= λ l, l ++ r.2 |> in
  match r.1 with
  | CRet v => x <| re_result := Some v |>
  | CSleep n => x <| re_left := n |> <| re_asleep := true |>
  end.

(** An interrupt, whose wakeups reach every reader that sleeps; a read()
    starts; a reader that is awake runs; kill() wakes a reader. *)
Inductive cstep : console * list reader → console * list reader → Prop :=
| cs_intr c rs cs d c' : consoleintr cs c = Done d c' →
    cstep (c, rs) (c', if (cn_wakes c' =? cn_wakes c)%nat then rs else wake <$> rs)
| cs_call c rs n : cstep (c, rs) (c, rs ++ [mkReader n n [] false None])
| cs_section c rs i x killed r c' : rs !! i = Some x → re_asleep x = false → re_result x = None →
    consoleread killed (re_target x) (re_left x) c = Done r c' → cstep (c, rs) (c', <[i := after_section r x]> rs)
| cs_kill c rs i : cstep (c, rs) (c, alter wake i rs).

(** No wakeup is lost: a reader sleeps only while there is nothing to read. *)
Definition readers_inv (s : console * list reader) : Prop :=
  screen_ok s.1 ∧ ∃ rd ed, cinv s.1 rd ed ∧ ∀ x, x ∈ s.2 → re_asleep x = true → rd = [] ∧ (0 < re_left x)%nat.

(** A section that goes to sleep has emptied the ring. *)
Lemma read_spec_sleeps killed target n rd m : (read_spec killed target n rd).1.1 = CSleep m → (read_spec killed target n rd).2 = [] ∧ (0 < m)%nat.
Proof.
  unfold read_spec. destruct (_ =? 0)%nat eqn:E; simpl; [done|]. apply Nat.eqb_neq in E.
  case_bool_decide; [done|]. destruct (drop _ rd); [|done]. destruct killed; simpl; [done|]. intros [= <-]. split; [done|lia].
Qed.

Lemma read_spec_nil killed target n : (read_spec killed target n []).2 = [].
Proof. unfold read_spec. by destruct n. Qed.

Lemma cstep_inv s s' : readers_inv s → cstep s s' → readers_inv s'.
Proof.
  intros (Hs & rd & ed & Hi & Hr) Hstep. destruct Hstep as [c rs cs d c' Hc|c rs n|c rs i x killed r c' Hx Ha Hres Hc|c rs i]; simpl in *.
  - destruct (wp_inv _ _ _ _ _ (consoleintr_refines cs c rd ed Hs Hi) Hc) as (_ & n & [H1 H2 H3] & H4). split; [done|].
    do 2 eexists. split; [exact H2|]. simpl. intros x Hx Hax. destruct (Nat.eqb_spec (cn_wakes c') (cn_wakes c)) as [E|E].
    + rewrite H4 by lia. by apply Hr.
    + apply list_elem_of_fmap in Hx as (y & -> & _). done.
  - split; [done|]. exists rd, ed. split; [done|]. intros x [Hx|Hx]%elem_of_app Hax; [by apply Hr|]. apply list_elem_of_singleton in Hx as ->. done.
  - destruct (wp_inv _ _ _ _ _ (consoleread_refines killed _ _ c rd ed Hi) Hc) as (-> & [H1 H2 _]). split; [by apply H1|].
    do 2 eexists. split; [exact H2|]. simpl. intros y Hy Hay.
    apply list_elem_of_lookup in Hy as (j & Hj). apply list_lookup_insert_Some in Hj as [(-> & <- & _)|(Hne & Hj)].
    + unfold after_section in *. destruct (read_spec killed (re_target x) (re_left x) rd) as [[res bs] rest] eqn:E. simpl in *.
      destruct res as [v|m]; simpl in *; [congruence|]. pose proof (read_spec_sleeps killed (re_target x) (re_left x) rd m) as Hsl. rewrite E in Hsl. by apply Hsl.
    + destruct (Hr y) as [-> Hl]; [by eapply list_elem_of_lookup_2|done|]. split; [apply read_spec_nil|done].
  - split; [done|]. exists rd, ed. split; [done|]. intros x Hx Hax. apply list_elem_of_lookup in Hx as (j & Hj). simpl in Hj.
    destruct (decide (i = j)) as [->|Hne]; [|rewrite list_lookup_alter_ne in Hj by done; apply Hr; [by eapply list_elem_of_lookup_2|done]].
    rewrite list_lookup_alter_eq in Hj. destruct (rs !! j); [|done]. simpl in Hj. by injection Hj as <-.
Qed.

(** A read of the line that is committed by Enter. *)
Lemma take_line_edited n ed : c_nl ∉ ed → c_D ∉ ed → take_line n (ed ++ [c_nl]) = take n (ed ++ [c_nl]).
Proof.
  revert n. induction ed as [|c ed IH]; intros n Hn HD; (destruct n as [|n]; [done|]).
  { simpl. by rewrite take_nil. }
  simpl. rewrite not_elem_of_cons in Hn, HD. rewrite (proj2 (Z.eqb_neq c c_D)), (proj2 (Z.eqb_neq c c_nl)) by naive_solver.
  f_equal. apply IH; naive_solver.
Qed.

Lemma read_line killed target n ed : c_nl ∉ ed → c_D ∉ ed → (0 < n)%nat →
  (read_spec killed target n (ed ++ [c_nl])).1 =
  (CRet (Z.of_nat target - Z.of_nat (n - S (length ed))), take n (ed ++ [c_nl])).
Proof.
  intros Hn HD H0. unfold read_spec. rewrite take_line_edited by done. rewrite length_take, length_app, Nat.add_1_r.
  assert (E : ((n - n `min` S (length ed) =? 0)%nat || bool_decide (last (take n (ed ++ [c_nl])) = Some c_nl)) = true).
  { destruct (decide (n ≤ S (length ed))%nat); apply orb_true_iff; [left; apply Nat.eqb_eq; lia|right]. apply bool_decide_true.
    rewrite take_ge by (rewrite length_app; simpl; lia). apply last_snoc. }
  rewrite E. simpl. do 3 f_equal. lia.
Qed.

Lemma crun_refines es s rd ed : screen_ok s → cinv s rd ed →
  wp (crun es) (λ out s', out = (crun_spec es (rd, ed)).1 ∧ screen_ok s' ∧
    cinv s' (crun_spec es (rd, ed)).2.1 (crun_spec es (rd, ed)).2.2) s.
Proof.
  revert s rd ed. induction es as [|[cs|killed target n] es IH]; intros s rd ed Hs Hi; cbn [crun crun_spec].
  - by apply wp_ret.
  - apply wp_bind. eapply wp_mono; [by apply consoleintr_refines|]. intros d s1 (_ & m & [H1 H2 _] & _).
    destruct (keys_spec cs (rd, ed)) as [rd1 ed1]. by apply IH.
  - apply wp_bind. eapply wp_mono; [by apply consoleread_refines|]. intros r s1 (-> & [H1 H2 _]). cbn [fst snd].
    destruct (read_spec killed target n rd) as [r rd1]. apply wp_bind. eapply wp_mono; [apply IH; [by apply H1|done]|].
    intros l s2 (-> & H3 & H4). cbn [fst snd] in *. destruct (crun_spec es (rd1, ed)) as [l q']. by apply wp_ret.
Qed.

(** ** Theorems *)

(** C18: the console implements a line discipline. For any sequence of
    interrupts, with any characters, and of sections of reads, the calls
    complete, every read gets what [read_spec] gives on the list of committed
    bytes (up to a newline, a ^D, or the bytes asked for), and the ring holds
    the two lists of the specification, also across the wrap-around of the
    counters: erasing reaches back to the last commit only, what does not fit
    is dropped, a full ring is committed. No character leaves the screen. *)
Theorem console_refines (uart : bool) (serial crt buf : list Z) (pos : Z) (es : list cevent) :
  length buf = Z.to_nat INPUT_BUF → length crt = 2000%nat → 0 ≤ pos < 1920 →
  wp (crun es) (λ out s', out = (crun_spec es ([], [])).1 ∧ screen_ok s' ∧
    cinv s' (crun_spec es ([], [])).2.1 (crun_spec es ([], [])).2.2) (cons_init uart serial crt pos buf).
Proof. intros Hb Hc Hp. apply crun_refines; [done|by apply cinv_init]. Qed.

(** C19: a reader that waits for input is not forgotten: with any number of
    readers, in every reachable state, a reader sleeps only while nothing can
    be read; the next Enter wakes it, and its next section returns, with the
    line as it was edited, or the part of it that was asked for. *)
Theorem reader_gets_line (uart : bool) (serial crt buf : list Z) (pos : Z) (c : console) (rs : list reader) (x : reader) :
  length buf = Z.to_nat INPUT_BUF → length crt = 2000%nat → 0 ≤ pos < 1920 →
  rtc cstep (cons_init uart serial crt pos buf, []) (c, rs) → x ∈ rs → re_asleep x = true →
  ∃ ed, cinv c [] ed ∧
    wp (consoleintr [c_nl]) (λ _ c', (cn_wakes c < cn_wakes c')%nat ∧
      wp (consoleread false (re_target x) (re_left x)) (λ r _,
        r = (CRet (Z.of_nat (re_target x) - Z.of_nat (re_left x - S (length ed))), take (re_left x) (ed ++ [c_nl]))) c') c.
Proof.
  intros Hb Hc Hp Hreach Hx Ha. assert (Hinv : readers_inv (c, rs)).
  { eapply (rtc_invariant cstep readers_inv); [|apply cstep_inv|exact Hreach]. split; [done|]. exists [], []. split; [by apply cinv_init|].
    intros y Hy. by apply not_elem_of_nil in Hy. }
  destruct Hinv as (Hs & rd & ed & Hi & Hr). destruct (Hr x Hx Ha) as [-> Hl]. exists ed. split; [done|].
  eapply wp_mono; [by apply consoleintr_refines|]. intros d c' (_ & n & [H1 H2 H3] & H4).
  pose proof (ci_size _ _ _ Hi) as Hsz. pose proof (ci_full _ _ _ Hi) as Hfull. pose proof (ci_line _ _ _ Hi) as [Hn HD]. simpl in Hsz, Hfull.
  assert (Hk : keys_spec [c_nl] ([], ed) = (ed ++ [c_nl], [])).
  { unfold keys_spec, foldl, key_spec. rewrite (proj2 (Nat.ltb_lt (length ([] ++ ed)) _)); [done|]. simpl.
    destruct (decide (length ed = Z.to_nat INPUT_BUF)) as [E|]; [rewrite (Hfull E) in E; done|lia]. }
  rewrite Hk in H2, H4. split; [destruct n; [by apply app_nil in H4 as [_ ?]; [|done]|lia]|].
  eapply wp_mono; [by apply consoleread_refines|]. intros r c'' [-> _]. by apply read_line.
Qed.

(** ** Instances *)

Definition cons0 : console := cons_init true [] (replicate 2000 0) 1900 (replicate (Z.to_nat INPUT_BUF) 0).

(** ab, backspace, Enter; then a read of 10 bytes, and one that waits. *)
Lemma console_refines_witness :
  wp (crun [EKeys [97; 98; c_H; c_cr; 99]; ERead false 10 10; ERead false 5 5])
    (λ out s', out = [(CRet 2, [97; c_nl]); (CSleep 5, [])] ∧ cinv s' [] [99]) cons0.
Proof.
  eapply wp_mono; [apply (console_refines true [] (replicate 2000 0) (replicate (Z.to_nat INPUT_BUF) 0) 1900); [done|done|lia]|].
  intros out s' (-> & _ & Hi). split; [reflexivity|exact Hi].
Defined.

(** A reader of 4 bytes that sleeps while hi is typed. *)
Definition sleeper : reader := mkReader 4 4 [] true None.

Lemma sleeper_reached : ∃ c, rtc cstep (cons0, []) (c, [sleeper]).
Proof.
  eexists. eapply rtc_l; [apply (cs_call cons0 [] 4)|]. eapply rtc_l; [eapply (cs_section _ _ 0 (mkReader 4 4 [] false None) false); [done|done|done|reflexivity]|].
  eapply rtc_l; [eapply (cs_intr _ _ [104; 105]); vm_compute; reflexivity|]. simpl. apply rtc_refl.
Qed.

Lemma reader_gets_line_witness : ∃ c ed, rtc cstep (cons0, []) (c, [sleeper]) ∧
  wp (consoleintr [c_nl]) (λ _ c', (cn_wakes c < cn_wakes c')%nat ∧
    wp (consoleread false 4 4) (λ r _, r = (CRet (4 - Z.of_nat (4 - S (length ed))), take 4 (ed ++ [c_nl]))) c') c.
Proof.
  destruct sleeper_reached as [c Hc]. exists c.
  destruct (reader_gets_line true [] (replicate 2000 0) (replicate (Z.to_nat INPUT_BUF) 0) 1900 c [sleeper] sleeper) as (ed & _ & H);
    [done|done|lia|exact Hc|set_solver|done|]. exists ed. by split.
Defined.
