(* ===== verification/ProcDump.v ===== *)
(** * The listings of processes on the console (proc.c: procdump() and the keys ^R, ^S, ^Z, ^F)

    What a listing prints is text that is appended to the output; [format] is
    the text of cprintf(). The listings of the state lists hold ptable.lock,
    procdump() holds no lock. The program counters that getcallerpcs() finds on
    the stack of a sleeping process are a parameter. The theorems at the end say
    what a listing shows of the table. *)

From S2P Require Import Prelude Mem Spinlock Str Proc ProcOps ProcLists ProcInv ProcSpec ProcCheck ProcThms Sysproc Digits Console.

(** ** The text of cprintf() *)

Fixpoint format (fmt : list Z) (args : list parg) : option (list Z) :=
  match fmt with
  | [] => Some []
  | c :: fmt =>
    if negb (c =? 37) then cons c <$> format fmt args
    else
      match fmt with
      | [] => Some []
      | c :: fmt =>
        if c =? 100 then
          match args with PInt v :: args => l ← int_chars lower_digits v 10 true; app l <$> format fmt args | _ => None end
        else if (c =? 120) || (c =? 112) then
          match args with PInt v :: args => l ← int_chars lower_digits v 16 false; app l <$> format fmt args | _ => None end
        else if c =? 115 then
          match args with PStr s :: args => app (default null_str s) <$> format fmt args | _ => None end
        else if c =? 37 then cons 37 <$> format fmt args
        else app [37; c] <$> format fmt args
      end
  end.

Section dump.
Context {E : Type}.
(** The state of proc.c and the output. *)
Abbreviation D := (M (kstate E * list Z)).

Definition dk {A} (m : M (kstate E) A) : D A := lift fst (λ k s, (k, s.2)) m.

Definition cprintf (fmt : list Z) (args : list parg) : D unit :=
  match format fmt args with
  | Some l => modify (λ s, (s.1, s.2 ++ l))
  | None => fault
  end.

(** ** Times *)

Definition displaytime (r : Z) : D unit :=
  if (r <? 100) && (9 <? r) then cprintf (text ".0%d" ++ tab) [PInt r]
  else if r <? 10 then cprintf (text ".00%d" ++ tab) [PInt r]
  else cprintf (text ".%d" ++ tab) [PInt r].

Definition calcelapsedtime (time : Z) : D unit :=
  now ← dk ticks;
  let e := u32 (now - time) in
  cprintf (text "%d") [PInt (e / 1000)];;
  displaytime (e mod 1000).

Definition calccputime (time : Z) : D unit :=
  cprintf (text "%d") [PInt (time / 1000)];;
  displaytime (time mod 1000).

(** ** procdump() *)

Definition printprocinfo (p : proc) (state : list Z) : D unit :=
  cprintf (text "%d" ++ tab ++ text "%s" ++ tab) [PInt (s32 (p_pid p)); PStr (Some (cstr (p_name p)))];;
  when (Z.of_nat (length (cstr (p_name p))) <? 7) (cprintf tab []);;
  cprintf (text "%d" ++ tab ++ text "%d" ++ tab) [PInt (s32 (p_uid p)); PInt (s32 (p_gid p))];;
  (if p_pid p =? 1 then cprintf (text "%d" ++ tab) [PInt (s32 (p_pid p))]
   else q ← dk (deref (p_parent p)); y ← dk (rd q); cprintf (text "%d" ++ tab) [PInt (s32 (p_pid y))]);;
  cprintf (text "%d" ++ tab) [PInt (s32 (p_prio p))];;
  calcelapsedtime (u32 (p_start_ticks p));;
  calccputime (u32 (p_cpu_ticks_total p));;
  cprintf (text "%s" ++ tab ++ text "%d" ++ tab) [PStr (Some state); PInt (s32 (p_sz p))].

(** [for(i=0; i<10 && pc[i] != 0; i++) cprintf(" %p", pc[i]);] *)
Fixpoint print_pcs (n : nat) (pc : list Z) : D unit :=
  match n, pc with
  | S n, c :: pc => if c =? 0 then mret tt else cprintf (text " %p") [PInt c];; print_pcs n pc
  | _, _ => mret tt
  end.

Section procdump.
Context (callerpcs : proc → list Z).

(** The loop over the [n] slots from [p] on. *)
Fixpoint procdump_loop (n p : nat) : D unit :=
  match n with
  | O => mret tt
  | S n =>
    x ← dk (rd p);
    (if decide (p_state x = UNUSED) then mret tt
     else
       printprocinfo x (cstr (states (p_state x)));;
       when (bool_decide (p_state x = SLEEPING)) (print_pcs 10 (callerpcs x));;
       cprintf nl []);;
    procdump_loop n (S p)
  end.

Definition procdump : D unit :=
  cprintf (nl ++ text "PID" ++ tab ++ text "Name" ++ tab ++ tab ++ text "UID" ++ tab ++ text "GID" ++ tab ++ text "PPID" ++ tab ++ text "Prio" ++ tab ++
    text "Elapsed" ++ tab ++ text "CPU" ++ tab ++ text "State" ++ tab ++ text "Size" ++ tab ++ text " PCs" ++ nl) [];;
  procdump_loop NPROC 0.
End procdump.

(** ** The state lists *)

(** [for(curr = head; curr; curr = curr->next){ show; if(curr->next) cprintf(" -> "); }] *)
Fixpoint print_list (fuel : nat) (curr : option nat) (show : proc → D unit) : D unit :=
  match curr with
  | None => mret tt
  | Some q =>
    match fuel with
    | O => nofuel
    | S n =>
      x ← dk (rd q);
      show x;;
      when (bool_decide (p_next x ≠ None)) (cprintf (text " -> ") []);;
      print_list n (p_next x) show
    end
  end.

Definition show_ready (x : proc) : D unit := cprintf (text "(%d, %d)") [PInt (s32 (p_pid x)); PInt (s32 (p_budget x))].
Definition show_sleep (x : proc) : D unit := cprintf (text "%d") [PInt (s32 (p_pid x))].
Definition show_zombie (x : proc) : D unit :=
  q ← dk (deref (p_parent x)); y ← dk (rd q);
  cprintf (text "(PID%d,PPID%d)") [PInt (s32 (p_pid x)); PInt (s32 (p_pid y))].

(** The loop of printReadyList() over the [n] queues from [i] on. *)
Fixpoint ready_loop (n i : nat) : D unit :=
  match n with
  | O => mret tt
  | S n =>
    cprintf (text "Prio %d: ") [PInt (Z.of_nat i)];;
    h ← dk (get_head (SReady i));
    match h with
    | None => cprintf (text "EMPTY" ++ nl) [PInt (Z.of_nat i)]
    | Some _ => print_list NPROC h show_ready;; cprintf nl []
    end;;
    ready_loop n (S i)
  end.

Definition printReadyList : D unit :=
  cprintf (text "Ready List Processes:" ++ nl) [];;
  dk acquire_pt;;
  ready_loop (S (Z.to_nat MAX)) 0;;
  dk release_pt.

Definition printSleepList : D unit :=
  cprintf (text "Sleep List Processes:" ++ nl) [];;
  dk acquire_pt;;
  h ← dk (get_head SSleep);
  match h with
  | None => cprintf (text "No Sleeping Processes" ++ nl) []
  | Some _ => print_list NPROC h show_sleep;; cprintf nl []
  end;;
  dk release_pt.

Definition printZombieList : D unit :=
  cprintf (text "Zombie List Processes:" ++ nl) [];;
  dk acquire_pt;;
  h ← dk (get_head SZombie);
  match h with
  | None => cprintf (text "No Zombie Processes" ++ nl) []
  | Some _ => print_list NPROC h show_zombie;; cprintf nl []
  end;;
  dk release_pt.

(** [for(curr = ptable.pLists.free; curr; curr = curr->next) size++;] *)
Fixpoint count_list (fuel : nat) (curr : option nat) (size : Z) : D Z :=
  match curr with
  | None => mret size
  | Some q =>
    match fuel with
    | O => nofuel
    | S n => x ← dk (rd q); count_list n (p_next x) (size + 1)
    end
  end.

Definition freeListSize : D unit :=
  dk acquire_pt;;
  h ← dk (get_head SFree);
  size ← count_list NPROC h 0;
  dk release_pt;;
  cprintf (text "Free List Size: %d processes" ++ nl) [PInt size].

(** What the keys of the console ask for (console.c: consoleintr()). *)
Definition do_dump (callerpcs : proc → list Z) (d : dump) : D unit :=
  match d with
  | DProc => procdump callerpcs
  | DReady => printReadyList
  | DZombie => printZombieList
  | DFree => freeListSize
  | DSleep => printSleepList
  end.
End dump.

(** ** What the listings of processes show

    The listings of the state lists print the queues that the lists represent;
    the times of procdump() have three decimals. *)

(** ** Formats *)

(** A number in decimal. *)
Definition dec (v : Z) : list Z := default [] (int_chars lower_digits v 10 true).

Lemma dec_int v : -2 ^ 31 ≤ v < 2 ^ 32 → int_chars lower_digits v 10 true = Some (dec v).
Proof.
  intros Hv. unfold dec. destruct (int_chars_spec lower_digits 10 9 v true ltac:(simpl; lia) ltac:(lia) ltac:(lia) Hv) as (ds & l & -> & _). done.
Qed.

Lemma format_num v fmt args : -2 ^ 31 ≤ v < 2 ^ 32 → format (text "%d" ++ fmt) (PInt v :: args) = app (dec v) <$> format fmt args.
Proof. intros Hv. cbn -[int_chars]. by rewrite dec_int. Qed.

(** Text without % stands for itself. *)
Lemma format_text l fmt args : 37 ∉ l → format (l ++ fmt) args = app l <$> format fmt args.
Proof.
  induction l as [|c l IH]; intros H; [simpl; by destruct (format fmt args)|]. apply not_elem_of_cons in H as [Hc Hl]. simpl.
  rewrite (proj2 (Z.eqb_neq c 37)) by congruence. rewrite IH by done. by destruct (format fmt args).
Qed.

(** cprintf() of console.c prints this text. *)
Lemma putchars_app l1 l2 s : putchars (l1 ++ l2) s = (putchars l1 ≫= λ _, putchars l2) s.
Proof.
  revert s. induction l1 as [|c l1 IH]; intros s; [done|]. cbn [putchars app]. unfold mbind, M_bind. by destruct (consputc c s) as [[] s1| | | |].
Qed.

Lemma format_prints fmt args l s : 0 ∉ fmt → format fmt args = Some l → cprintf_loop (fmt ++ [0]) args s = putchars l s.
Proof.
  remember (length fmt) as n eqn:Hn. revert fmt args l s Hn. induction (lt_wf n) as [n _ IH]. intros fmt args l s -> H0 Hf.
  assert (Hcons : ∀ c fmt' args' l' s', (length fmt' < length fmt)%nat → 0 ∉ fmt' → format fmt' args' = Some l' →
    (consputc c;; cprintf_loop (fmt' ++ [0]) args') s' = putchars (c :: l') s').
  { intros c fmt' args' l' s' Hlt Hn Hl. cbn [putchars]. unfold mbind, M_bind. destruct (consputc c s') as [[] s1| | | |]; try done. by eapply (IH (length fmt')). }
  assert (Happ : ∀ k fmt' args' l' s', (length fmt' < length fmt)%nat → 0 ∉ fmt' → format fmt' args' = Some l' →
    (putchars k;; cprintf_loop (fmt' ++ [0]) args') s' = putchars (k ++ l') s').
  { intros k fmt' args' l' s' Hlt Hn Hl. rewrite putchars_app. unfold mbind, M_bind. destruct (putchars k s') as [[] s1| | | |]; try done. by eapply (IH (length fmt')). }
  destruct fmt as [|c fmt]; [by injection Hf as <-|]. apply not_elem_of_cons in H0 as [Hc0 H0]. cbn [format app cprintf_loop length] in *.
  rewrite (proj2 (Z.eqb_neq c 0)) by congruence. destruct (Z.eqb_spec c 37) as [->|Hc]; cbn [negb] in *.
  2: { apply fmap_Some in Hf as (l' & Hl & ->). apply Hcons; [lia|done|done]. }
  destruct fmt as [|d fmt]; [by injection Hf as <-|]. apply not_elem_of_cons in H0 as [Hd0 H0]. cbn [app length] in *.
  rewrite (proj2 (Z.eqb_neq d 0)) by congruence.
  destruct (Z.eqb_spec d 100) as [->|H1].
  { destruct args as [|[v|] args]; try done. apply bind_Some in Hf as (k & Hk & Hf). apply fmap_Some in Hf as (l' & Hl & ->).
    unfold printint. rewrite Hk. apply Happ; [lia|done|done]. }
  destruct ((d =? 120) || (d =? 112)).
  { destruct args as [|[v|] args]; try done. apply bind_Some in Hf as (k & Hk & Hf). apply fmap_Some in Hf as (l' & Hl & ->).
    unfold printint. rewrite Hk. apply Happ; [lia|done|done]. }
  destruct (Z.eqb_spec d 115) as [->|H2].
  { destruct args as [|[|v] args]; try done. apply fmap_Some in Hf as (l' & Hl & ->). apply Happ; [lia|done|done]. }
  destruct (Z.eqb_spec d 37) as [->|H3]; apply fmap_Some in Hf as (l' & Hl & ->).
  - apply Hcons; [lia|done|done].
  - change ([37; d] ++ l') with (37 :: d :: l'). cbn [putchars]. unfold mbind at 1, M_bind at 1. unfold mbind at 2, M_bind at 2.
    destruct (consputc 37 s) as [[] s1| | | |]; try done. apply (Hcons d); [lia|done|done].
Qed.

(** ** What is printed *)

(** Hexadecimal. *)
Definition hex (v : Z) : list Z := default [] (int_chars lower_digits v 16 false).

(** A time in ticks (milliseconds), in seconds. *)
Definition seconds (v : Z) : list Z := dec (v / 1000) ++ text "." ++ three (v mod 1000).

(** The texts of a queue. *)
Fixpoint joined (l : list (list Z)) : list Z :=
  match l with
  | [] => []
  | [x] => x
  | x :: l => x ++ text " -> " ++ joined l
  end.
Definition queue_text (empty : list Z) (l : list (list Z)) : list Z :=
  match l with [] => empty | _ => joined l end ++ nl.

Section shown.
Context {E : Type}.
Implicit Types (s : kstate E) (L : slist → list nat) (x : proc).

Definition pid_of s (p : option nat) : Z := from_option (λ x, s32 (p_pid x)) 0 (p ≫= λ p, k_procs s !! p).
Definition at_slot s (f : proc → list Z) (p : nat) : list Z := from_option f [] (k_procs s !! p).

Definition ready_item x : list Z := text "(" ++ dec (s32 (p_pid x)) ++ text ", " ++ dec (s32 (p_budget x)) ++ text ")".
Definition sleep_item x : list Z := dec (s32 (p_pid x)).
Definition zombie_item s x : list Z := text "(PID" ++ dec (s32 (p_pid x)) ++ text ",PPID" ++ dec (pid_of s (p_parent x)) ++ text ")".

Definition ready_row s L (i : nat) : list Z :=
  text "Prio " ++ dec (Z.of_nat i) ++ text ": " ++ queue_text (text "EMPTY") (at_slot s ready_item <$> L (SReady i)).

(** The program counters up to the first 0. *)
Fixpoint pcs_text (l : list Z) : list Z :=
  match l with
  | [] => []
  | c :: l => if c =? 0 then [] else text " " ++ hex c ++ pcs_text l
  end.

(** A line of procdump(). *)
Definition info_text s x : list Z :=
  let name := cstr (p_name x) in
  dec (s32 (p_pid x)) ++ tab ++ name ++ tab ++ (if Z.of_nat (length name) <? 7 then tab else []) ++
  dec (s32 (p_uid x)) ++ tab ++ dec (s32 (p_gid x)) ++ tab ++
  dec (if p_pid x =? 1 then s32 (p_pid x) else pid_of s (p_parent x)) ++ tab ++ dec (s32 (p_prio x)) ++ tab ++
  seconds (u32 (k_ticks s - u32 (p_start_ticks x))) ++ tab ++ seconds (u32 (p_cpu_ticks_total x)) ++ tab ++
  cstr (states (p_state x)) ++ tab ++ dec (s32 (p_sz x)) ++ tab.
Definition proc_row s (callerpcs : proc → list Z) x : list Z :=
  info_text s x ++ (if bool_decide (p_state x = SLEEPING) then pcs_text (take 10 (callerpcs x)) else []) ++ nl.

(** What a key prints. *)
Definition listing (callerpcs : proc → list Z) s L (d : dump) : list Z :=
  match d with
  | DProc => nl ++ text "PID" ++ tab ++ text "Name" ++ tab ++ tab ++ text "UID" ++ tab ++ text "GID" ++ tab ++ text "PPID" ++ tab ++ text "Prio" ++ tab ++
      text "Elapsed" ++ tab ++ text "CPU" ++ tab ++ text "State" ++ tab ++ text "Size" ++ tab ++ text " PCs" ++ nl ++
      concat (proc_row s callerpcs <$> filter (λ x, p_state x ≠ UNUSED) (k_procs s))
  | DReady => text "Ready List Processes:" ++ nl ++ concat (ready_row s L <$> seq 0 (S (Z.to_nat MAX)))
  | DZombie => text "Zombie List Processes:" ++ nl ++ queue_text (text "No Zombie Processes") (at_slot s (zombie_item s) <$> L SZombie)
  | DFree => text "Free List Size: " ++ dec (Z.of_nat (length (L SFree))) ++ text " processes" ++ nl
  | DSleep => text "Sleep List Processes:" ++ nl ++ queue_text (text "No Sleeping Processes") (at_slot s sleep_item <$> L SSleep)
  end.

(** The processes of a listing that shows parents have one in the table. *)
Definition has_parent s x : bool :=
  match p_parent x with Some q => bool_decide (q < length (k_procs s))%nat | None => false end.
Definition parents_known s L (d : dump) : Prop :=
  match d with
  | DProc => Forall (λ x, p_state x = UNUSED ∨ p_pid x = 1 ∨ has_parent s x = true) (k_procs s)
  | DZombie => Forall (λ p, has_parent s <$> k_procs s !! p = Some true) (L SZombie)
  | _ => True
  end.

#[export] Instance parents_known_dec s L d : Decision (parents_known s L d).
Proof. destruct d; simpl; apply _. Defined.

Lemma has_parent_pid s x : has_parent s x = true → ∃ q y, p_parent x = Some q ∧ k_procs s !! q = Some y ∧ pid_of s (p_parent x) = s32 (p_pid y).
Proof.
  unfold has_parent, pid_of. destruct (p_parent x) as [q|]; [|done]. intros H%bool_decide_eq_true. destruct (lookup_lt_is_Some_2 _ _ H) as [y Hy].
  exists q, y. split; [done|]. split; [done|]. simpl. by rewrite Hy.
Qed.
End shown.

(** ** Commands that only print *)

Section prints.
Context {E : Type}.
Implicit Types (s : kstate E) (L : slist → list nat) (x : proc).

Definition prints s (m : M (kstate E * list Z) unit) (l : list Z) : Prop := ∀ out, m (s, out) = Done tt (s, out ++ l).

Lemma prints_nil s : prints s (mret tt) [].
Proof. intros out. unfold mret, M_ret. by rewrite app_nil_r. Qed.

Lemma prints_seq s m1 m2 l1 l2 : prints s m1 l1 → prints s m2 l2 → prints s (m1;; m2) (l1 ++ l2).
Proof. intros H1 H2 out. unfold mbind, M_bind. by rewrite H1, H2, app_assoc. Qed.

Lemma prints_cprintf s fmt args l : format fmt args = Some l → prints s (cprintf fmt args) l.
Proof. intros H out. unfold cprintf. by rewrite H. Qed.

Lemma prints_rd s p x f l : k_procs s !! p = Some x → prints s (f x) l → prints s (dk (rd p) ≫= f) l.
Proof. intros H Hf out. unfold mbind, M_bind, dk, lift, rd. cbn [fst snd]. rewrite H. apply Hf. Qed.

Lemma prints_deref s p f l : prints s (f p) l → prints s (dk (deref (Some p)) ≫= f) l.
Proof. intros Hf out. apply Hf. Qed.

Lemma prints_when s (b : bool) m l : (b = true → prints s m l) → prints s (when b m) (if b then l else []).
Proof. destruct b; intros H; [by apply H|apply prints_nil]. Qed.

Lemma prints_eq s m l l' : prints s m l → l = l' → prints s m l'.
Proof. by intros H <-. Qed.

Lemma prints_head s sl h f l : head_of sl (k_lists s) = Some h → prints s (f h) l → prints s (dk (get_head sl) ≫= f) l.
Proof. intros H Hf out. unfold mbind, M_bind, dk, lift, get_head. cbn [fst snd]. rewrite H. apply Hf. Qed.

Lemma hex_int v : 0 ≤ v < 2 ^ 32 → int_chars lower_digits v 16 false = Some (hex v).
Proof.
  intros Hv. unfold hex. by destruct (int_chars_spec lower_digits 16 7 v false ltac:(simpl; lia) ltac:(lia) ltac:(lia) ltac:(lia)) as (ds & l & -> & _).
Qed.

(** The text of a format with numbers and strings. *)
Ltac formats := lazy beta iota zeta delta [format negb orb Z.eqb Pos.eqb fmap option_fmap option_map mbind option_bind].
Ltac printed := apply prints_cprintf;
  rewrite ?app_assoc; unfold ready_item, sleep_item, zombie_item, tab, nl; literals; formats;
  rewrite ?dec_int, ?hex_int by (first [apply s32_int|lia]); formats; cbn [app default from_option]; rewrite ?app_nil_r, <- ?app_assoc; reflexivity.

(** A time has three decimals. *)
Lemma three_dec r : 0 ≤ r < 1000 → three r = (if r <? 10 then text "00" else if r <? 100 then text "0" else []) ++ dec r.
Proof.
  intros Hr. set (P n := three (Z.of_nat n) = (if Z.of_nat n <? 10 then text "00" else if Z.of_nat n <? 100 then text "0" else []) ++ dec (Z.of_nat n)).
  assert (H : forallb (λ n, bool_decide (P n)) (seq 0 1000) = true) by (vm_compute; reflexivity).
  rewrite forallb_forall in H. specialize (H (Z.to_nat r)). unfold P in H. rewrite Z2Nat.id in H by lia. eapply bool_decide_eq_true_1, H, in_seq. lia.
Qed.

Lemma displaytime_prints s r : 0 ≤ r < 1000 → prints s (displaytime r) (text "." ++ three r ++ tab).
Proof.
  intros Hr. rewrite three_dec by done. unfold displaytime. destruct (Z.ltb_spec r 10), (Z.ltb_spec r 100), (Z.ltb_spec 9 r); try lia; cbn [andb]; printed.
Qed.

Lemma seconds_prints s v : 0 ≤ v < 2 ^ 32 → prints s (calccputime v) (seconds v ++ tab).
Proof.
  intros Hv. unfold calccputime, seconds. rewrite <- !app_assoc. apply prints_seq; [|apply displaytime_prints, Z.mod_pos_bound; lia].
  assert (0 ≤ v / 1000 < 2 ^ 32) by (split; [apply Z.div_pos|apply Z.div_lt_upper_bound]; lia). printed.
Qed.

Lemma calcelapsedtime_prints s v : prints s (calcelapsedtime v) (seconds (u32 (k_ticks s - v)) ++ tab).
Proof. intros out. exact (seconds_prints s _ (u32_range _) out). Qed.

(** ** The queues *)

Lemma ready_prints s x : prints s (show_ready x) (ready_item x).
Proof. printed. Qed.

Lemma zombie_prints s x : has_parent s x = true → prints s (show_zombie x) (zombie_item s x).
Proof.
  intros Hp. unfold show_zombie, zombie_item. destruct (has_parent_pid _ _ Hp) as (q & y & Hq & Hy & ->). rewrite Hq.
  apply prints_deref, (prints_rd _ _ y); [exact Hy|]. printed.
Qed.

Definition shows_item s (show : proc → M (kstate E * list Z) unit) (item : proc → list Z) (l : list nat) : Prop :=
  ∀ p x, p ∈ l → k_procs s !! p = Some x → prints s (show x) (item x).

Lemma print_list_prints s show item l : ∀ fuel h, lseg (nexts s) h l → (length l ≤ fuel)%nat → shows_item s show item l →
  prints s (print_list fuel h show) (joined (at_slot s item <$> l)).
Proof.
  induction l as [|p l IH]; intros fuel h; unfold lseg; cbn [lsegto length]; intros Hl Hf Hs.
  { subst h. destruct fuel; apply prints_nil. }
  destruct Hl as (-> & n & Hn & Hl). apply nexts_lookup in Hn as (x & Hx & <-). destruct fuel as [|fuel]; [lia|]. cbn [print_list].
  apply (prints_rd _ _ x); [done|].
  assert (H : prints s (print_list fuel (p_next x) show) (joined (at_slot s item <$> l))) by (apply IH; [done|lia|intros q y Hq; apply Hs; set_solver]).
  assert (Hi : at_slot s item p = item x) by (unfold at_slot; by rewrite Hx).
  assert (H1 : prints s (show x) (item x)) by (apply (Hs p x); [set_solver|done]).
  destruct l as [|q l].
  - cbn [lsegto] in Hl. rewrite Hl in *. cbn [fmap list_fmap joined]. rewrite Hi. rewrite <- (app_nil_r (item x)). apply prints_seq; [done|].
    exact (prints_seq _ _ _ [] [] (prints_nil s) H).
  - destruct Hl as [Hh _]. rewrite Hh in *. cbn [fmap list_fmap joined] in *. rewrite Hi. apply prints_seq; [done|]. apply prints_seq; [printed|exact H].
Qed.

Lemma queue_prints s L sl empty show item h : lists_ok s L → head_of sl (k_lists s) = Some h → valid sl → shows_item s show item (L sl) →
  ∀ em args, format em args = Some (empty ++ nl) →
  prints s (match h with None => cprintf em args | Some _ => print_list NPROC h show;; cprintf nl [] end) (queue_text empty (at_slot s item <$> L sl)).
Proof.
  intros Lo Hh Hv Hs em args Hem. destruct (lo_seg _ _ Lo sl Hv) as (h' & Hh' & Hl). rewrite Hh in Hh'. injection Hh' as <-. unfold queue_text.
  pose proof (lists_ok_length _ _ sl Lo) as Hlen. destruct (L sl) as [|p l] eqn:El.
  - unfold lseg in Hl. cbn [lsegto] in Hl. subst h. by apply prints_cprintf.
  - destruct h as [q|]; [|by destruct Hl]. cbn [fmap list_fmap]. apply prints_seq; [|printed].
    apply (print_list_prints s show item (p :: l)); [done|done|done].
Qed.

Lemma ready_loop_prints s L : lists_ok s L → ∀ n i, (i + n = S (Z.to_nat MAX))%nat → prints s (ready_loop n i) (concat (ready_row s L <$> seq i n)).
Proof.
  intros Lo. induction n as [|n IH]; intros i Hi; [apply prints_nil|]. cbn [ready_loop seq fmap list_fmap concat].
  assert (Hv : valid (SReady i)) by (unfold valid; lia). destruct (lo_seg _ _ Lo (SReady i) Hv) as (h & Hh & _).
  assert (Hr : -2 ^ 31 ≤ Z.of_nat i < 2 ^ 32) by (unfold MAX in Hi; lia).
  replace (ready_row s L i) with ((text "Prio " ++ dec (Z.of_nat i) ++ text ": ") ++ queue_text (text "EMPTY") (at_slot s ready_item <$> L (SReady i)))
    by (unfold ready_row; by rewrite <- !app_assoc).
  rewrite <- app_assoc. apply prints_seq; [printed|]. apply (prints_head _ (SReady i) h); [done|]. apply prints_seq; [|apply IH; lia].
  apply (queue_prints s L (SReady i)); [done|done|done| |done]. intros p x _ _. apply ready_prints.
Qed.

Lemma count_list_spec s l : ∀ fuel h size out, lseg (nexts s) h l → (length l ≤ fuel)%nat →
  count_list fuel h size (s, out) = Done (size + Z.of_nat (length l)) (s, out).
Proof.
  induction l as [|p l IH]; intros fuel h size out; unfold lseg; cbn [lsegto length]; intros Hl Hf.
  { subst h. by destruct fuel; cbn [count_list]; unfold mret, M_ret; rewrite Z.add_0_r. }
  destruct Hl as (-> & n & Hn & Hl). apply nexts_lookup in Hn as (x & Hx & <-). destruct fuel as [|fuel]; [lia|]. cbn [count_list].
  unfold mbind, M_bind, dk, lift, rd. cbn [fst snd]. rewrite Hx. rewrite (IH fuel) by (done || lia). f_equal. lia.
Qed.

(** ** procdump() *)

Lemma print_pcs_prints s l : Forall (λ c, 0 ≤ c < 2 ^ 32) l → ∀ n, prints s (print_pcs n l) (pcs_text (take n l)).
Proof.
  induction 1 as [|c l Hc Hl IH]; intros [|n]; try apply prints_nil. cbn [print_pcs take pcs_text]. destruct (Z.eqb_spec c 0); [apply prints_nil|].
  rewrite app_assoc. apply prints_seq; [printed|apply IH].
Qed.

Lemma ppid_prints s x : p_pid x = 1 ∨ has_parent s x = true →
  prints s (if p_pid x =? 1 then cprintf (text "%d" ++ tab) [PInt (s32 (p_pid x))]
            else q ← dk (deref (p_parent x)); y ← dk (rd q); cprintf (text "%d" ++ tab) [PInt (s32 (p_pid y))])
    (dec (if p_pid x =? 1 then s32 (p_pid x) else pid_of s (p_parent x)) ++ tab).
Proof.
  intros Hp. destruct (Z.eqb_spec (p_pid x) 1) as [|Hn]; [printed|]. destruct Hp as [|Hp]; [done|].
  destruct (has_parent_pid _ _ Hp) as (q & y & Hq & Hy & ->). rewrite Hq. apply prints_deref, (prints_rd _ _ y); [exact Hy|]. printed.
Qed.

Lemma printprocinfo_prints s x : p_pid x = 1 ∨ has_parent s x = true → prints s (printprocinfo x (cstr (states (p_state x)))) (info_text s x).
Proof.
  intros Hp. unfold info_text. cbv zeta.
  apply (prints_eq _ _ ((dec (s32 (p_pid x)) ++ tab ++ cstr (p_name x) ++ tab) ++ (if Z.of_nat (length (cstr (p_name x))) <? 7 then tab else []) ++
    (dec (s32 (p_uid x)) ++ tab ++ dec (s32 (p_gid x)) ++ tab) ++ (dec (if p_pid x =? 1 then s32 (p_pid x) else pid_of s (p_parent x)) ++ tab) ++
    (dec (s32 (p_prio x)) ++ tab) ++ (seconds (u32 (k_ticks s - u32 (p_start_ticks x))) ++ tab) ++ (seconds (u32 (p_cpu_ticks_total x)) ++ tab) ++
    (cstr (states (p_state x)) ++ tab ++ dec (s32 (p_sz x)) ++ tab))); [|by rewrite <- !app_assoc].
  unfold printprocinfo. apply prints_seq; [printed|]. apply prints_seq; [apply prints_when; intros _; printed|]. apply prints_seq; [printed|].
  apply prints_seq; [by apply ppid_prints|]. apply prints_seq; [printed|]. apply prints_seq; [apply calcelapsedtime_prints|].
  apply prints_seq; [apply seconds_prints, u32_range|]. printed.
Qed.

Lemma procdump_loop_prints s pcs : (∀ x, Forall (λ c, 0 ≤ c < 2 ^ 32) (pcs x)) →
  Forall (λ x, p_state x = UNUSED ∨ p_pid x = 1 ∨ has_parent s x = true) (k_procs s) → ∀ n p, (p + n = length (k_procs s))%nat →
  prints s (procdump_loop pcs n p) (concat (proc_row s pcs <$> filter (λ x, p_state x ≠ UNUSED) (drop p (k_procs s)))).
Proof.
  intros Hpcs Hall. induction n as [|n IH]; intros p Hp. { rewrite drop_ge by lia. apply prints_nil. }
  destruct (lookup_lt_is_Some_2 (k_procs s) p) as [x Hx]; [lia|]. rewrite (drop_S _ _ _ Hx). cbn [procdump_loop]. apply (prints_rd _ _ x); [done|].
  specialize (IH (S p) ltac:(lia)). rewrite Forall_lookup in Hall. specialize (Hall _ _ Hx). case_decide as Hu.
  { rewrite filter_cons_False by (by intros []). exact (prints_seq _ _ _ [] _ (prints_nil s) IH). }
  rewrite filter_cons_True by done. cbn [fmap list_fmap concat]. apply prints_seq; [|exact IH]. apply prints_seq; [apply printprocinfo_prints; naive_solver|].
  apply prints_seq; [|printed]. apply prints_when. intros _. by apply print_pcs_prints.
Qed.

(** ** Processes without a parent *)

(** The null pointer, or a wild one, is followed. *)
Definition faults {A} s (m : M (kstate E * list Z) A) : Prop := ∀ out, ∃ w, m (s, out) = Fault w.

Lemma faults_bind {A B} s (m : M (kstate E * list Z) A) (f : A → M (kstate E * list Z) B) : faults s m → faults s (m ≫= f).
Proof. intros H out. destruct (H out) as [w Hw]. exists w. unfold mbind, M_bind. by rewrite Hw. Qed.

Lemma faults_seq {A} s m1 (m2 : M (kstate E * list Z) A) l : prints s m1 l → faults s m2 → faults s (m1;; m2).
Proof. intros H1 H2 out. destruct (H2 (out ++ l)) as [w Hw]. exists w. unfold mbind, M_bind. by rewrite H1. Qed.

Lemma faults_rd {A} s p x (f : proc → M (kstate E * list Z) A) : k_procs s !! p = Some x → faults s (f x) → faults s (dk (rd p) ≫= f).
Proof. intros H Hf out. unfold mbind, M_bind, dk, lift, rd. cbn [fst snd]. rewrite H. apply Hf. Qed.

Lemma faults_parent {A} s x (f : proc → M (kstate E * list Z) A) : has_parent s x = false → faults s (q ← dk (deref (p_parent x)); y ← dk (rd q); f y).
Proof.
  unfold has_parent. intros H out. unfold mbind, M_bind, dk, lift, rd. destruct (p_parent x) as [q|]; [|by eexists]. cbn [deref fst snd]. unfold mret, M_ret. cbn [fst snd].
  apply bool_decide_eq_false in H. rewrite (lookup_ge_None_2 (k_procs s) q) by lia. by eexists.
Qed.

Lemma printprocinfo_faults s x l : p_pid x ≠ 1 → has_parent s x = false → faults s (printprocinfo x l).
Proof.
  intros Hp Hn. unfold printprocinfo. eapply faults_seq; [printed|]. eapply faults_seq; [apply prints_when; intros _; printed|].
  eapply faults_seq; [printed|]. apply faults_bind. rewrite (proj2 (Z.eqb_neq _ _) Hp). by apply faults_parent.
Qed.

(** A process in use that procdump() cannot show. *)
Definition orphan s x : Prop := p_state x ≠ UNUSED ∧ p_pid x ≠ 1 ∧ has_parent s x = false.

Lemma procdump_loop_faults s pcs : (∀ x, Forall (λ c, 0 ≤ c < 2 ^ 32) (pcs x)) → ∀ n p, (p + n = length (k_procs s))%nat →
  Exists (orphan s) (drop p (k_procs s)) → faults s (procdump_loop pcs n p).
Proof.
  intros Hpcs. induction n as [|n IH]; intros p Hp Hex. { rewrite drop_ge in Hex by lia. by apply Exists_nil in Hex. }
  destruct (lookup_lt_is_Some_2 (k_procs s) p) as [x Hx]; [lia|]. rewrite (drop_S _ _ _ Hx) in Hex. cbn [procdump_loop]. apply (faults_rd _ _ x); [done|].
  assert (Hnext : ¬ orphan s x → faults s (procdump_loop pcs n (S p))).
  { intros Hn. apply IH; [lia|]. by apply Exists_cons in Hex as [?|?]. }
  case_decide as Hu. { eapply faults_seq; [apply prints_nil|]. apply Hnext. by intros []. }
  destruct (decide (p_pid x = 1 ∨ has_parent s x = true)) as [Hk|Hk].
  - eapply faults_seq; [|apply Hnext; intros (_ & H1 & H2); destruct Hk; congruence]. eapply prints_seq; [by apply printprocinfo_prints|].
    apply prints_seq; [|printed]. apply prints_when. intros _. by apply print_pcs_prints.
  - do 2 apply faults_bind. apply printprocinfo_faults; [tauto|]. apply not_true_is_false. tauto.
Qed.

Lemma print_list_faults s l : ∀ fuel h, lseg (nexts s) h l → (length l ≤ fuel)%nat →
  Exists (λ p, has_parent s <$> k_procs s !! p ≠ Some true) l → faults s (print_list fuel h show_zombie).
Proof.
  induction l as [|p l IH]; intros fuel h; unfold lseg; cbn [lsegto length]; intros Hl Hf Hex; [by apply Exists_nil in Hex|].
  destruct Hl as (-> & n & Hn & Hl). apply nexts_lookup in Hn as (x & Hx & <-). destruct fuel as [|fuel]; [lia|]. cbn [print_list].
  apply (faults_rd _ _ x); [done|]. destruct (has_parent s x) eqn:Hp.
  - eapply faults_seq; [by apply zombie_prints|]. eapply faults_seq; [apply prints_when; intros _; printed|]. apply IH; [done|lia|].
    apply Exists_cons in Hex as [Hb|?]; [|done]. destruct Hb. by rewrite Hx, <- Hp.
  - apply faults_bind. unfold show_zombie. by apply faults_parent.
Qed.

(** ** The keys *)

Section keys.
Context (callerpcs : proc → list Z).

Definition lockless (d : dump) : bool := match d with DProc => true | _ => false end.

(** The listing of [s] is printed, and ptable.lock was taken and given back
    or, by procdump(), left alone. *)
Definition shown s L held e (d : dump) (out : list Z) (w : kstate E * list Z) : Prop :=
  ∃ h, w = (s <| k_hw := h |>, out ++ listing callerpcs s L d) ∧ disc h held e ∧ if lockless d then h = k_hw s else lock_cycled (k_hw s) h.

Lemma wp_prints s m l out (Q : unit → kstate E * list Z → Prop) : prints s m l → Q tt (s, out ++ l) → wp m Q (s, out).
Proof. intros H HQ. unfold wp. by rewrite H. Qed.

Lemma pid_of_hw s h q : pid_of (s <| k_hw := h |>) q = pid_of s q.
Proof. reflexivity. Qed.

Lemma wp_lock s held e out (Q : unit → kstate E * list Z → Prop) : disc (k_hw s) held e → lk_locked (h_locks (k_hw s) LPtable) = false →
  (∀ h, disc h (LPtable :: held) e → locks_set LPtable (mkLock true (Some (c_id (h_cpu (k_hw s))))) (k_hw s) h → Q tt (s <| k_hw := h |>, out)) →
  wp (dk acquire_pt) Q (s, out).
Proof.
  intros D Hf HQ. apply wp_lift. unfold acquire_pt, hwop. apply wp_lift. eapply acquire_spec; [exact D|exact Hf|].
  intros h D1 Hc Hl. apply (HQ h); done.
Qed.

Lemma wp_unlock s held e out h0 v (Q : unit → kstate E * list Z → Prop) : disc (k_hw s) (LPtable :: held) e → locks_set LPtable v h0 (k_hw s) →
  (∀ h, disc h held e → lock_cycled h0 h → Q tt (s <| k_hw := h |>, out)) →
  wp (dk release_pt) Q (s, out).
Proof.
  intros D Hs HQ. apply wp_lift. unfold release_pt, hwop. apply wp_lift. eapply release_spec; [exact D|].
  intros h D1 Hc Hl. apply (HQ h); [done|]. by eapply locks_set_twice.
Qed.

Lemma wp_head s L sl out (Q : option nat → kstate E * list Z → Prop) : lists_ok s L → valid sl →
  (∀ h, head_of sl (k_lists s) = Some h → lseg (nexts s) h (L sl) → Q h (s, out)) → wp (dk (get_head sl)) Q (s, out).
Proof.
  intros Lo Hv HQ. destruct (lo_seg _ _ Lo sl Hv) as (h & Hh & Hl). apply wp_lift. unfold wp, get_head. cbn [fst]. rewrite Hh. by apply HQ.
Qed.

Section listings.
Context (s : kstate E) (L : slist → list nat) (held : list lockid) (e : bool).
Hypothesis Lo : lists_ok s L.
Hypothesis D : disc (k_hw s) held e.

(** A listing with the head of one list. *)
Lemma wp_one_list d sl title empty em show item out : lk_locked (h_locks (k_hw s) LPtable) = false → lockless d = false → valid sl →
  listing callerpcs s L d = title ++ queue_text empty (at_slot s item <$> L sl) → format title [] = Some title → format em [] = Some (empty ++ nl) →
  (∀ h, shows_item (s <| k_hw := h |>) show item (L sl)) →
  wp (cprintf title [];; dk acquire_pt;; h ← dk (get_head sl);
      match h with None => cprintf em [] | Some _ => print_list NPROC h show;; cprintf nl [] end;; dk release_pt) (λ _, shown s L held e d out) (s, out).
Proof.
  intros Hf Hd Hv Hl Ht He Hs. apply wp_bind. eapply wp_prints; [by apply prints_cprintf|]. apply wp_bind, (wp_lock s held e); [done|done|].
  intros h1 D1 S1. set (s1 := s <| k_hw := h1 |>). assert (Lo1 : lists_ok s1 L) by exact (lists_ok_ext s s1 L Lo eq_refl eq_refl).
  apply wp_bind, (wp_head s1 L sl); [done|done|]. intros h Hh _. apply wp_bind. eapply wp_prints.
  { apply (queue_prints s1 L sl empty show item h Lo1 Hh Hv (Hs h1) em []). done. }
  eapply (wp_unlock s1 held e _ (k_hw s)); [exact D1|exact S1|]. intros h2 D2 S2. exists h2. rewrite Hd, Hl, app_assoc. done.
Qed.

Lemma printZombieList_faults out : lk_locked (h_locks (k_hw s) LPtable) = false → ¬ parents_known s L DZombie →
  ∃ w, printZombieList (s, out) = Fault w.
Proof.
  intros Hf Hn. unfold printZombieList. rewrite (bind_done _ _ _ tt (s, out ++ text "Zombie List Processes:" ++ nl)) by (by apply prints_cprintf).
  assert (Hl : wp (dk acquire_pt) (λ _ w, ∃ h, w = (s <| k_hw := h |>, out ++ text "Zombie List Processes:" ++ nl)) (s, out ++ text "Zombie List Processes:" ++ nl)).
  { eapply wp_lock; [exact D|done|]. intros h _ _. by exists h. }
  apply wp_done in Hl as ([] & w & Hw & h & ->). rewrite (bind_done _ _ _ _ _ Hw). set (s1 := s <| k_hw := h |>).
  destruct (lo_seg _ _ Lo SZombie ltac:(done)) as (q & Hq & Hseg). rewrite (bind_done _ _ _ q (s1, out ++ text "Zombie List Processes:" ++ nl)).
  2: { unfold dk, lift, get_head. cbn [fst s1]. change (k_lists s1) with (k_lists s). by rewrite Hq. }
  assert (Hex : Exists (λ p, has_parent s1 <$> k_procs s1 !! p ≠ Some true) (L SZombie)).
  { apply not_Forall_Exists in Hn; [exact Hn|intros p; apply _]. }
  apply faults_bind. destruct q as [q|].
  - apply faults_bind. apply (print_list_faults s1 (L SZombie)); [exact Hseg|apply (lists_ok_length _ _ SZombie Lo)|exact Hex].
  - destruct (L SZombie); [by apply Exists_nil in Hex|]. by destruct Hseg.
Qed.

Lemma procdump_faults out : (∀ x, Forall (λ c, 0 ≤ c < 2 ^ 32) (callerpcs x)) → ¬ parents_known s L DProc →
  ∃ w, procdump callerpcs (s, out) = Fault w.
Proof.
  intros Hpcs Hn. unfold procdump. eapply faults_seq; [printed|]. apply procdump_loop_faults; [done|by rewrite (lo_len _ _ Lo)|]. rewrite drop_0.
  apply not_Forall_Exists in Hn; [|intros x; apply _]. eapply Exists_impl; [exact Hn|]. intros x Hx. unfold compose in Hx. unfold orphan.
  split; [tauto|]. split; [tauto|]. apply not_true_is_false. tauto.
Qed.

Lemma printReadyList_shows out : lk_locked (h_locks (k_hw s) LPtable) = false → wp printReadyList (λ _, shown s L held e DReady out) (s, out).
Proof.
  intros Hf. unfold printReadyList. apply wp_bind. eapply wp_prints; [printed|]. apply wp_bind, (wp_lock s held e); [done|done|].
  intros h1 D1 S1. set (s1 := s <| k_hw := h1 |>). assert (Lo1 : lists_ok s1 L) by exact (lists_ok_ext s s1 L Lo eq_refl eq_refl).
  apply wp_bind. eapply wp_prints; [by apply (ready_loop_prints s1 L Lo1)|].
  eapply (wp_unlock s1 held e _ (k_hw s)); [exact D1|exact S1|]. intros h2 D2 S2. exists h2. cbn [lockless listing]. split; [|done].
  f_equal. by rewrite <- app_assoc.
Qed.

Lemma freeListSize_shows out : lk_locked (h_locks (k_hw s) LPtable) = false → wp freeListSize (λ _, shown s L held e DFree out) (s, out).
Proof.
  intros Hf. unfold freeListSize. apply wp_bind, (wp_lock s held e); [done|done|].
  intros h1 D1 S1. set (s1 := s <| k_hw := h1 |>). assert (Lo1 : lists_ok s1 L) by exact (lists_ok_ext s s1 L Lo eq_refl eq_refl).
  pose proof (lists_ok_length _ _ SFree Lo) as Hlen. unfold NPROC in Hlen.
  apply wp_bind, (wp_head s1 L SFree); [done|done|]. intros h Hh Hl. apply wp_bind. unfold wp at 1. rewrite (count_list_spec s1 (L SFree)); [|done|done].
  apply wp_bind. eapply (wp_unlock s1 held e _ (k_hw s)); [exact D1|exact S1|]. intros h2 D2 S2. eapply wp_prints; [printed|].
  exists h2. cbn [lockless listing]. done.
Qed.

Lemma procdump_shows out : (∀ x, Forall (λ c, 0 ≤ c < 2 ^ 32) (callerpcs x)) → parents_known s L DProc →
  wp (procdump callerpcs) (λ _, shown s L held e DProc out) (s, out).
Proof.
  intros Hpcs Hp. unfold procdump. apply wp_bind. eapply wp_prints; [printed|].
  eapply wp_prints; [apply procdump_loop_prints; [done|exact Hp|]|]. { rewrite (lo_len _ _ Lo). done. }
  exists (k_hw s). rewrite drop_0. split; [|done]. cbn [listing]. rewrite <- app_assoc. by destruct s.
Qed.
End listings.

(** C35: what the keys ^P, ^R, ^S, ^Z and ^F print when the state lists are
    well formed. ^P prints a line for each process that is not UNUSED, with its
    pid, name, uid, gid, the pid of the parent, priority, elapsed and CPU time in
    seconds with three decimals, state and size, and the program counters of a
    SLEEPING one; ^R each ready queue in its order with the pid and the budget
    of each process; ^S and ^Z the sleep list and the zombie list, the latter
    with the parents; ^F the length of the free list. They change nothing but the
    output, and all but ^P, which works while ptable.lock is held, take the
    lock and give it back. The two listings that show parents, ^P and ^Z, do this
    exactly when each process they show has a parent in the table (for ^P: or
    has pid 1); otherwise they follow the null pointer, ^P for example when it
    meets a process that fork() is creating. *)
Theorem dumps_show_table s L held e d out :
  lists_ok s L → disc (k_hw s) held e → lockless d = true ∨ lk_locked (h_locks (k_hw s) LPtable) = false →
  (∀ x, Forall (λ c, 0 ≤ c < 2 ^ 32) (callerpcs x)) →
  if decide (parents_known s L d) then wp (do_dump callerpcs d) (λ _, shown s L held e d out) (s, out)
  else ∃ w, do_dump callerpcs d (s, out) = Fault w.
Proof.
  intros Lo D Hf Hpcs. destruct (decide (parents_known s L d)) as [Hp|Hp].
  2: { destruct d; try (by destruct Hp); cbn [do_dump]; [by apply (procdump_faults s L Lo)|]. apply (printZombieList_faults s L held e Lo D); naive_solver. }
  destruct d; cbn [do_dump].
  - by apply procdump_shows.
  - apply printReadyList_shows; naive_solver.
  - eapply (wp_one_list s L held e Lo D DZombie SZombie _ (text "No Zombie Processes")); [naive_solver|done|done|by cbn [listing]; rewrite app_assoc|done|done|].
    intros h p x Hin Hx. eapply prints_eq; [apply (zombie_prints (s <| k_hw := h |>))|unfold zombie_item; by rewrite (pid_of_hw s h)]. unfold parents_known in Hp. rewrite Forall_forall in Hp. specialize (Hp p Hin). change (k_procs s !! p = Some x) in Hx.
    rewrite Hx in Hp. by injection Hp.
  - apply freeListSize_shows; naive_solver.
  - eapply (wp_one_list s L held e Lo D DSleep SSleep _ (text "No Sleeping Processes")); [naive_solver|done|done|by cbn [listing]; rewrite app_assoc|done|done|].
    intros h p x _ _. printed.
Qed.
End keys.
End prints.

(** ** Instances *)

Definition pcs0 (x : proc) : list Z := [2148534886; 2148539212; 0].

Lemma pcs0_words x : Forall (λ c, 0 ≤ c < 2 ^ 32) (pcs0 x).
Proof. repeat constructor; lia. Qed.

(** In [demo] all parents are known; after the first section of allocproc()
    that of the new process is not. *)
Definition demo_embryo : kstate nat := match alloc_slot demo with Done _ s => s | _ => demo end.

Lemma demo_known : parents_known demo (queue demo) DProc ∧ parents_known demo (queue demo) DZombie.
Proof. split; apply (bool_decide_unpack _); vm_compute; exact I. Qed.

Lemma demo_embryo_unknown : ¬ parents_known demo_embryo (queue demo_embryo) DProc.
Proof. apply (bool_decide_eq_false _). vm_compute. reflexivity. Qed.

Lemma demo_embryo_wf : wf None demo_embryo (queue demo_embryo) demo_embryo.
Proof. apply wf_check_sound. vm_compute. reflexivity. Qed.

Lemma demo_embryo_disc : disc (k_hw demo_embryo) [] true.
Proof.
  assert (Hh : wp alloc_slot (λ _ s, disc (k_hw s) [] true) demo).
  { eapply (alloc_slot_spec [] true demo (queue demo)); [apply demo_wf|apply demo_on_cpu|done|]. intros h s D1 _.
    destruct (queue demo SFree); intros W; rewrite (wf_hw _ _ _ _ W); exact D1. }
  apply wp_done in Hh as (r & s & Hs & D1). unfold demo_embryo. by rewrite Hs.
Qed.

Lemma dumps_show_table_witness : wp (do_dump pcs0 DZombie) (λ _, shown pcs0 demo (queue demo) [] true DZombie []) (demo, []) ∧
  wp (do_dump pcs0 DProc) (λ _, shown pcs0 demo (queue demo) [] true DProc []) (demo, []) ∧
  ∃ w, do_dump pcs0 DProc (demo_embryo, []) = Fault w.
Proof.
  pose proof (λ d, dumps_show_table pcs0 demo (queue demo) [] true d [] (proj2 (proj1 demo_wf)) (proj2 demo_on_cpu) (or_intror eq_refl) pcs0_words) as H.
  split; [|split].
  - specialize (H DZombie). rewrite decide_True in H by apply demo_known. exact H.
  - specialize (H DProc). rewrite decide_True in H by apply demo_known. exact H.
  - pose proof (dumps_show_table pcs0 demo_embryo (queue demo_embryo) [] true DProc [] (proj2 (proj1 demo_embryo_wf)) demo_embryo_disc (or_introl eq_refl) pcs0_words) as H1.
    rewrite decide_False in H1 by apply demo_embryo_unknown. exact H1.
Defined.

(** The sleeping processes of [demo]. *)
Example demo_sleep_text : listing pcs0 demo (queue demo) DSleep = text "Sleep List Processes:" ++ nl ++ text "5 -> 1" ++ nl.
Proof. vm_compute. reflexivity. Qed.

(** procdump() holds no lock: between allocproc() and the statement of
    fork() that sets the parent, the new process has none, and procdump()
    follows the null pointer. *)
Theorem procdump_embryo : ∃ p s1 w, alloc_slot demo = Done (Some p) s1 ∧ procdump pcs0 (s1, []) = Fault w.
Proof.
  assert (H : match alloc_slot demo with Done (Some p) s1 => match procdump pcs0 (s1, []) with Fault _ => true | _ => false end | _ => false end = true)
    by (vm_compute; reflexivity).
  destruct (alloc_slot demo) as [[p|] s1| | | |]; try discriminate. exists p, s1. destruct (procdump pcs0 (s1, [])) as [| |w| |] eqn:Ew; try discriminate. by exists w.
Qed.
