(* ===== verification/Kbd.v ===== *)
(** * The keyboard (kbd.c, kbd.h)

    kbdgetc() as a transition on its static variable shift and the bytes that
    wait at the data port; the status port says whether there is one. The
    specification is a keyboard with keys that are down or up and lock keys that
    are on or off; the theorems at the end go from the keys to the line that is
    read. *)

From S2P Require Import Prelude Ring Console.

(** ** kbd.h *)

Definition NO : Z := 0.
Definition SHIFT : Z := 1.
Definition CTL : Z := 2.
Definition ALT : Z := 4.
Definition CAPSLOCK : Z := 8.
Definition NUMLOCK : Z := 16.
Definition SCROLLLOCK : Z := 32.
Definition E0ESC : Z := 64.

Definition KEY_HOME : Z := 224.
Definition KEY_END : Z := 225.
Definition KEY_UP : Z := 226.
Definition KEY_DN : Z := 227.
Definition KEY_LF : Z := 228.
Definition KEY_RT : Z := 229.
Definition KEY_PGUP : Z := 230.
Definition KEY_PGDN : Z := 231.
Definition KEY_INS : Z := 232.
Definition KEY_DEL : Z := 233.

(** A table of 256 bytes: the first entries, then those with a designator. *)
Definition entry (first : list Z) (named : list (Z * Z)) (i : Z) : Z :=
  match list_find (λ x, x.1 = i) named with
  | Some (_, x) => x.2
  | None => default 0 (first !! Z.to_nat i)
  end.

Definition shiftcode : Z → Z := entry [] [(29, CTL); (42, SHIFT); (54, SHIFT); (56, ALT); (157, CTL); (184, ALT)].
Definition togglecode : Z → Z := entry [] [(58, CAPSLOCK); (69, NUMLOCK); (70, SCROLLLOCK)].

(** The special keys, the same in the three maps. *)
Definition specials : list (Z * Z) :=
  [(200, KEY_UP); (208, KEY_DN); (201, KEY_PGUP); (209, KEY_PGDN); (203, KEY_LF); (205, KEY_RT); (151, KEY_HOME); (207, KEY_END);
   (210, KEY_INS); (211, KEY_DEL)].

Definition normalmap : Z → Z := entry
  [NO; 27; 49; 50; 51; 52; 53; 54;  55; 56; 57; 48; 45; 61; 8; 9;
   113; 119; 101; 114; 116; 121; 117; 105;  111; 112; 91; 93; 10; NO; 97; 115;
   100; 102; 103; 104; 106; 107; 108; 59;  39; 96; NO; 92; 122; 120; 99; 118;
   98; 110; 109; 44; 46; 47; NO; 42;  NO; 32; NO; NO; NO; NO; NO; NO;
   NO; NO; NO; NO; NO; NO; NO; 55;  56; 57; 45; 52; 53; 54; 43; 49;
   50; 51; 48; 46; NO; NO; NO; NO] ([(156, 10); (181, 47)] ++ specials).

Definition shiftmap : Z → Z := entry
  [NO; 27; 33; 64; 35; 36; 37; 94;  38; 42; 40; 41; 95; 43; 8; 9;
   81; 87; 69; 82; 84; 89; 85; 73;  79; 80; 123; 125; 10; NO; 65; 83;
   68; 70; 71; 72; 74; 75; 76; 58;  34; 126; NO; 124; 90; 88; 67; 86;
   66; 78; 77; 60; 62; 63; NO; 42;  NO; 32; NO; NO; NO; NO; NO; NO;
   NO; NO; NO; NO; NO; NO; NO; 55;  56; 57; 45; 52; 53; 54; 43; 49;
   50; 51; 48; 46; NO; NO; NO; NO] ([(156, 10); (181, 47)] ++ specials).

(** C('/') is '/' - '@', which is negative and stored as a byte. *)
Definition ctlmap : Z → Z := entry
  [NO; NO; NO; NO; NO; NO; NO; NO;  NO; NO; NO; NO; NO; NO; NO; NO;
   17; 23; 5; 18; 20; 25; 21; 9;  15; 16; NO; NO; 13; NO; 1; 19;
   4; 6; 7; 8; 10; 11; 12; NO;  NO; NO; NO; 28; 26; 24; 3; 22;
   2; 14; 13; NO; NO; u8 (47 - 64); NO; NO] ([(156, 13); (181, u8 (47 - 64))] ++ specials).

(** ** kbd.c *)

(** shift, and the bytes at the data port. *)
Record kbd : Type := mkKbd { kb_shift : Z; kb_port : list Z }.
#[export] Instance kbd_eta : Eta kbd := λ k, mkKbd (kb_shift k) (kb_port k).

Definition charcode (i : Z) : Z → Z := if i =? 0 then normalmap else if i =? 1 then shiftmap else ctlmap.

(** shift is an unsigned int: [& ~x] clears the bits of [x]. *)
Definition kbdgetc : M kbd Z :=
  port ← gets kb_port;
  match port with
  | [] => mret (-1)
  | data :: port =>
    modify (λ k, k <| kb_port := port |>);;
    shift ← gets kb_shift;
    if data =? 224 then
      modify (λ k, k <| kb_shift := Z.lor shift E0ESC |>);;
      mret 0
    else if negb (Z.land data 128 =? 0) then
      let data := if negb (Z.land shift E0ESC =? 0) then data else Z.land data 127 in
      modify (λ k, k <| kb_shift := Z.ldiff shift (Z.lor (shiftcode data) E0ESC) |>);;
      mret 0
    else
      let '(data, shift) :=
        if negb (Z.land shift E0ESC =? 0) then (Z.lor data 128, Z.ldiff shift E0ESC) else (data, shift) in
      let shift := Z.lor shift (shiftcode data) in
      let shift := Z.lxor shift (togglecode data) in
      modify (λ k, k <| kb_shift := shift |>);;
      let c := charcode (Z.land shift (Z.lor CTL SHIFT)) data in
      mret (if negb (Z.land shift CAPSLOCK =? 0) then
              if (97 <=? c) && (c <=? 122) then c - 32
              else if (65 <=? c) && (c <=? 90) then c + 32
              else c
            else c)
  end.

(** The characters consoleintr() gets from kbdgetc(), until it returns -1. *)
Fixpoint kbd_chars (fuel : nat) : M kbd (list Z) :=
  match fuel with
  | O => nofuel
  | S fuel =>
    c ← kbdgetc;
    if c <? 0 then mret [] else l ← kbd_chars fuel; mret (c :: l)
  end.

(** kbdintr(): consoleintr(kbdgetc). consoleintr() reads a character and acts on
    it before it reads the next; the two do not share state. *)
Definition kbdintr : M (kbd * console) (list dump) :=
  cs ← lift fst (λ k s, (k, s.2)) (k ← get; kbd_chars (S (length (kb_port k))));
  lift snd (λ c s, (s.1, c)) (consoleintr cs).

(** ** From the keys to the line

    [typed] is a keyboard as the user sees it: the set of the keys that are down,
    lock keys that are on or off, and the character of a key. kbdgetc() knows
    less, one flag for each modifier, [decode]; the two agree as long as no
    modifier key is released while its twin on the other side of the keyboard
    stays down. Through consoleintr() the characters reach the line that is
    being typed. *)

(** ** The flags of kbdgetc() *)

Record mods : Type := mkMods { m_shift : bool; m_ctl : bool; m_alt : bool; m_caps : bool; m_num : bool; m_scroll : bool }.

(** Keys with an E0 prefix have numbers from 128 on. *)
Inductive event : Type := Press (ext : bool) (code : Z) | Release (ext : bool) (code : Z).

Definition keyno (ext : bool) (code : Z) : Z := if ext then code + 128 else code.

(** The modifier of a key goes down or up. *)
Definition hold (down : bool) (k : Z) (m : mods) : mods :=
  let '(mkMods sh ct al ca nu sc) := m in
  if bool_decide (k ∈ [42; 54]) then mkMods down ct al ca nu sc
  else if bool_decide (k ∈ [29; 157]) then mkMods sh down al ca nu sc
  else if bool_decide (k ∈ [56; 184]) then mkMods sh ct down ca nu sc
  else m.

Definition lock (k : Z) (m : mods) : mods :=
  let '(mkMods sh ct al ca nu sc) := m in
  mkMods sh ct al (xorb ca (k =? 58)) (xorb nu (k =? 69)) (xorb sc (k =? 70)).

Definition swapcase (c : Z) : Z :=
  if bool_decide (97 ≤ c ≤ 122) then c - 32 else if bool_decide (65 ≤ c ≤ 90) then c + 32 else c.

(** The character of a key: Ctrl wins over Shift, Caps Lock swaps the case. *)
Definition glyph (m : mods) (k : Z) : Z :=
  let c := if m_ctl m then ctlmap k else if m_shift m then shiftmap k else normalmap k in
  if m_caps m then swapcase c else c.

(** The characters of a sequence of keys with these flags. *)
Fixpoint decode (es : list event) (m : mods) : list Z * mods :=
  match es with
  | [] => ([], m)
  | Press ext code :: es =>
    let m := lock (keyno ext code) (hold true (keyno ext code) m) in
    let '(l, m') := decode es m in (glyph m (keyno ext code) :: l, m')
  | Release ext code :: es => decode es (hold false (keyno ext code) m)
  end.

(** ** The keyboard *)

Record keyboard : Type := mkKeys { k_down : gset Z; k_caps : bool; k_num : bool; k_scroll : bool }.

(** Left or right, of Shift, Ctrl and Alt. *)
Definition mods_of (kb : keyboard) : mods :=
  let d k := bool_decide (k ∈ k_down kb) in
  mkMods (d 42 || d 54) (d 29 || d 157) (d 56 || d 184) (k_caps kb) (k_num kb) (k_scroll kb).

Definition press (k : Z) (kb : keyboard) : keyboard :=
  mkKeys ({[k]} ∪ k_down kb) (xorb (k_caps kb) (k =? 58)) (xorb (k_num kb) (k =? 69)) (xorb (k_scroll kb) (k =? 70)).
Definition lift_key (k : Z) (kb : keyboard) : keyboard :=
  mkKeys (k_down kb ∖ {[k]}) (k_caps kb) (k_num kb) (k_scroll kb).

(** The characters typed, under the keys that are down at each moment. *)
Fixpoint typed (es : list event) (kb : keyboard) : list Z * keyboard :=
  match es with
  | [] => ([], kb)
  | Press ext code :: es =>
    let kb := press (keyno ext code) kb in
    let '(l, kb') := typed es kb in (glyph (mods_of kb) (keyno ext code) :: l, kb')
  | Release ext code :: es => typed es (lift_key (keyno ext code) kb)
  end.

(** The same modifier on the other side. *)
Definition twin (k : Z) : option Z :=
  if k =? 42 then Some 54 else if k =? 54 then Some 42 else if k =? 29 then Some 157 else if k =? 157 then Some 29
  else if k =? 56 then Some 184 else if k =? 184 then Some 56 else None.

(** No modifier is released while its twin is down. *)
Fixpoint one_at_a_time (es : list event) (kb : keyboard) : Prop :=
  match es with
  | [] => True
  | Press ext code :: es => one_at_a_time es (press (keyno ext code) kb)
  | Release ext code :: es =>
    (∀ j, twin (keyno ext code) = Some j → j ∉ k_down kb) ∧ one_at_a_time es (lift_key (keyno ext code) kb)
  end.

Lemma down_press j k (d : gset Z) : bool_decide (j ∈ {[k]} ∪ d) = (j =? k) || bool_decide (j ∈ d).
Proof.
  destruct (Z.eqb_spec j k) as [->|Hne]; simpl; [apply bool_decide_eq_true; set_solver|].
  apply bool_decide_ext. set_solver.
Qed.

Lemma down_lift j k (d : gset Z) : bool_decide (j ∈ d ∖ {[k]}) = negb (j =? k) && bool_decide (j ∈ d).
Proof.
  destruct (Z.eqb_spec j k) as [->|Hne]; simpl; [apply bool_decide_eq_false; set_solver|].
  apply bool_decide_ext. set_solver.
Qed.

(** A key is one of the six modifiers or none of them. *)
Lemma modifier_cases k : k ∈ [42; 54; 29; 157; 56; 184] ∨
  ((k ∉ [42; 54]) ∧ (k ∉ [29; 157]) ∧ (k ∉ [56; 184]) ∧ Forall (λ j, (j =? k) = false) [42; 54; 29; 157; 56; 184]).
Proof.
  destruct (decide (k ∈ [42; 54; 29; 157; 56; 184])) as [|Hn]; [by left|right].
  split_and!; try set_solver. apply Forall_forall. intros j Hj. apply Z.eqb_neq. intros ->. done.
Qed.

Lemma hold_press k kb : lock k (hold true k (mods_of kb)) = mods_of (press k kb).
Proof.
  unfold mods_of, press. cbn [k_down k_caps k_num k_scroll]. rewrite !down_press. destruct (modifier_cases k) as [Hk|(H1 & H2 & H3 & Hf)].
  - set_unfold in Hk. destruct Hk as [->|[->|[->|[->|[->|[->|[]]]]]]]; unfold hold, lock; simpl; rewrite ?orb_true_r; done.
  - unfold hold. rewrite !bool_decide_false by done. repeat (apply Forall_cons in Hf as [-> Hf]). done.
Qed.

Lemma hold_lift k kb : (∀ j, twin k = Some j → j ∉ k_down kb) → hold false k (mods_of kb) = mods_of (lift_key k kb).
Proof.
  intros Ht. unfold mods_of, lift_key. cbn [k_down k_caps k_num k_scroll]. rewrite !down_lift. destruct (modifier_cases k) as [Hk|(H1 & H2 & H3 & Hf)].
  - set_unfold in Hk. destruct Hk as [->|[->|[->|[->|[->|[->|[]]]]]]]; specialize (Ht _ eq_refl); unfold hold; simpl;
      rewrite (bool_decide_false _ Ht); done.
  - unfold hold. rewrite !bool_decide_false by done. repeat (apply Forall_cons in Hf as [-> Hf]). done.
Qed.

(** The flags are those of the keys that are down. *)
Lemma decode_typed es kb : one_at_a_time es kb →
  (decode es (mods_of kb)).1 = (typed es kb).1 ∧ (decode es (mods_of kb)).2 = mods_of (typed es kb).2.
Proof.
  revert kb. induction es as [|[ext code|ext code] es IH]; intros kb; [done| |]; cbn [one_at_a_time decode typed].
  - intros H. destruct (IH _ H) as [H1 H2]. rewrite hold_press. destruct (decode es _), (typed es _). simpl in *. by subst.
  - intros [Ht H]. rewrite (hold_lift _ _ Ht). by apply IH.
Qed.

(** The scan codes: a release has bit 7 set. *)
Definition scancodes (e : event) : list Z :=
  match e with
  | Press ext code => (if ext then [224] else []) ++ [code]
  | Release ext code => (if ext then [224] else []) ++ [code + 128]
  end.

(** Code 0x60 is not a key: its release would be the prefix E0. *)
Definition key_ok (e : event) : Prop :=
  match e with Press _ code | Release _ code => 0 ≤ code < 128 ∧ code ≠ 96 end.

(** ** One byte *)

(** shift for a state of the keyboard. *)
Definition bits (m : mods) : Z :=
  Z.b2z (m_shift m) + 2 * Z.b2z (m_ctl m) + 4 * Z.b2z (m_alt m) + 8 * Z.b2z (m_caps m) + 16 * Z.b2z (m_num m) + 32 * Z.b2z (m_scroll m).

(** What kbdgetc() makes of a byte. *)
Definition byte_step (shift data : Z) : outcome kbd Z := kbdgetc (mkKbd shift [data]).

Lemma kbdgetc_step shift data port c sh : byte_step shift data = Done c (mkKbd sh []) →
  kbdgetc (mkKbd shift (data :: port)) = Done c (mkKbd sh port).
Proof.
  unfold byte_step, kbdgetc, mbind, M_bind, gets, modify, mret, M_ret. simpl.
  destruct (data =? 224); [intros [= <- <-]; done|]. destruct (negb (Z.land data 128 =? 0)); [intros [= <- <-]; done|].
  destruct (negb (Z.land shift E0ESC =? 0)); intros [= <- <-]; done.
Qed.

Definition all_mods : list mods :=
  sh ← [false; true]; ct ← [false; true]; al ← [false; true]; ca ← [false; true]; nu ← [false; true]; sc ← [false; true];
  [mkMods sh ct al ca nu sc].

Lemma all_mods_all m : m ∈ all_mods.
Proof. destruct m as [[] [] [] [] [] []]; apply list_elem_of_In; vm_compute; tauto. Qed.

Definition done_with (o : outcome kbd Z) (c sh : Z) : bool :=
  match o with Done c' (mkKbd sh' []) => (c' =? c) && (sh' =? sh) | _ => false end.

(** The four ways a byte can come, checked for all states and keys. *)
Definition byte_ok (m : mods) (code : Z) : bool :=
  let pr ext := lock (keyno ext code) (hold true (keyno ext code) m) in
  (code =? 96) ||
  done_with (byte_step (bits m) code) (glyph (pr false) code) (bits (pr false)) &&
  done_with (byte_step (bits m + 64) code) (glyph (pr true) (code + 128)) (bits (pr true)) &&
  done_with (byte_step (bits m) (code + 128)) 0 (bits (hold false code m)) &&
  done_with (byte_step (bits m + 64) (code + 128)) 0 (bits (hold false (code + 128) m)) &&
  done_with (byte_step (bits m) 224) 0 (bits m + 64) && (0 <=? glyph (pr false) code) && (0 <=? glyph (pr true) (code + 128)).

Lemma bytes_ok : forallb (λ m, forallb (byte_ok m) (seqZ 0 128)) all_mods = true.
Proof. vm_compute. reflexivity. Qed.

Lemma done_with_eq o c sh : done_with o c sh = true → o = Done c (mkKbd sh []).
Proof.
  unfold done_with. destruct o as [c' [sh' []]| | | |]; try done. intros [H1%Z.eqb_eq H2%Z.eqb_eq]%andb_true_iff. by subst.
Qed.

Lemma byte_ok_all m code : 0 ≤ code < 128 → byte_ok m code = true.
Proof.
  intros Hc. pose proof bytes_ok as H. rewrite forallb_forall in H. specialize (H m (proj1 (list_elem_of_In _ _) (all_mods_all m))).
  rewrite forallb_forall in H. apply H, list_elem_of_In, elem_of_seqZ. lia.
Qed.

(** ** Sequences *)

(** The characters that kbdgetc() returns, with the 0 of each prefix and release. *)
Fixpoint returned (es : list event) (m : mods) : list Z :=
  match es with
  | [] => []
  | Press ext code :: es =>
    let m := lock (keyno ext code) (hold true (keyno ext code) m) in
    (if ext then [0%Z] else []) ++ [glyph m (keyno ext code)] ++ returned es m
  | Release ext code :: es => (if ext then [0%Z] else []) ++ [0%Z] ++ returned es (hold false (keyno ext code) m)
  end.

Lemma kbd_chars_byte fuel shift data port c sh l k : byte_step shift data = Done c (mkKbd sh []) → 0 ≤ c →
  kbd_chars fuel (mkKbd sh port) = Done l k → kbd_chars (S fuel) (mkKbd shift (data :: port)) = Done (c :: l) k.
Proof.
  intros Hb Hc Hl. cbn [kbd_chars]. unfold mbind, M_bind. rewrite (kbdgetc_step _ _ port _ _ Hb).
  rewrite (proj2 (Z.ltb_ge c 0)) by done. by rewrite Hl.
Qed.

Lemma kbd_chars_spec es m fuel : Forall key_ok es → (length (es ≫= scancodes) < fuel)%nat →
  kbd_chars fuel (mkKbd (bits m) (es ≫= scancodes)) = Done (returned es m) (mkKbd (bits (decode es m).2) []).
Proof.
  revert m fuel. induction es as [|e es IH]; intros m fuel Hok Hf.
  { destruct fuel as [|fuel]; [simpl in Hf; lia|]. done. }
  apply Forall_cons in Hok as [He Hok]. rewrite bind_cons in Hf |- *. rewrite length_app in Hf.
  assert (Hcode : ∃ code, (e = Press false code ∨ e = Press true code ∨ e = Release false code ∨ e = Release true code) ∧ 0 ≤ code < 128 ∧ code ≠ 96).
  { destruct e as [[] code|[] code]; exists code; naive_solver. }
  destruct Hcode as (code & Hcs & Hr & H96). pose proof (byte_ok_all m code Hr) as Hb. unfold byte_ok in Hb.
  rewrite (proj2 (Z.eqb_neq code 96)) in Hb by done. cbn [orb] in Hb. rewrite !andb_true_iff in Hb.
  destruct Hb as [[[[[[B1%done_with_eq B2%done_with_eq] B3%done_with_eq] B4%done_with_eq] B5%done_with_eq] G1%Z.leb_le] G2%Z.leb_le].
  destruct Hcs as [->|[->|[->| ->]]]; cbn [scancodes app returned decode keyno length] in *.
  - destruct fuel as [|fuel]; [lia|]. destruct (decode es _) as [l m'] eqn:Hd. eapply kbd_chars_byte; [exact B1|exact G1|]. rewrite (IH _ fuel Hok) by lia. by rewrite Hd.
  - do 2 (destruct fuel as [|fuel]; [lia|]). destruct (decode es _) as [l m'] eqn:Hd. eapply kbd_chars_byte; [exact B5|done|].
    eapply kbd_chars_byte; [exact B2|exact G2|]. rewrite (IH _ fuel Hok) by lia. by rewrite Hd.
  - destruct fuel as [|fuel]; [lia|]. eapply kbd_chars_byte; [exact B3|done|]. by rewrite (IH _ fuel Hok) by lia.
  - do 2 (destruct fuel as [|fuel]; [lia|]). eapply kbd_chars_byte; [exact B5|done|].
    eapply kbd_chars_byte; [exact B4|done|]. by rewrite (IH _ fuel Hok) by lia.
Qed.

(** The zeros do nothing to the line. *)
Lemma key_zero q : key_spec 0 q = q.
Proof. by destruct q. Qed.

Lemma keys_returned es m q : keys_spec (returned es m) q = keys_spec (decode es m).1 q.
Proof.
  unfold keys_spec. revert m q. induction es as [|[ext code|ext code] es IH]; intros m q; [done| |]; cbn [returned decode].
  - destruct (decode es _) as [l m'] eqn:Hd. rewrite !foldl_app. simpl. rewrite IH, Hd. by destruct ext; simpl; rewrite ?key_zero.
  - rewrite !foldl_app. simpl. rewrite key_zero. rewrite IH. by destruct ext; simpl; rewrite ?key_zero.
Qed.

(** C20: what is typed arrives. For any sequence of keys going down and up, in
    which no modifier key is released while its twin on the other side is still
    down, kbdintr() takes all scan codes from the port, leaves in shift the state
    of the modifiers and locks, and the line that is being edited and the
    committed bytes are what the characters of the pressed keys make of them: the
    Shift and Ctrl keys held at each moment count, left or right, Caps Lock swaps
    the case, and the keys with a prefix are keys of their own. *)
Theorem typing_reaches_line (es : list event) (kb : keyboard) (c : console) (rd ed : list Z) :
  Forall key_ok es → one_at_a_time es kb → screen_ok c → cinv c rd ed →
  wp kbdintr (λ _ s', s'.1 = mkKbd (bits (mods_of (typed es kb).2)) [] ∧ screen_ok s'.2 ∧
    cinv s'.2 (keys_spec (typed es kb).1 (rd, ed)).1 (keys_spec (typed es kb).1 (rd, ed)).2)
    (mkKbd (bits (mods_of kb)) (es ≫= scancodes), c).
Proof.
  intros Hok Ho Hs Hi. destruct (decode_typed es kb Ho) as [<- <-]. unfold kbdintr. apply wp_bind, wp_lift. apply wp_bind, wp_get. cbn [fst kb_port].
  unfold wp at 1. rewrite kbd_chars_spec by (done || lia). cbn [fst snd]. apply wp_lift. cbn [snd].
  eapply wp_mono; [by apply (consoleintr_refines _ c rd ed)|]. intros d s' (_ & n & [H1 H2 _] & _). cbn [fst snd].
  by rewrite keys_returned in H2.
Qed.

(** Shift down, h, Shift up, i, Enter: the line Hi is committed. *)
Definition hi_keys : list event :=
  [Press false 42; Press false 35; Release false 35; Release false 42; Press false 23; Release false 23; Press false 28].
Definition no_keys : keyboard := mkKeys ∅ false false false.

Lemma typing_reaches_line_witness :
  wp kbdintr (λ _ s', cinv s'.2 [72; 105; 10] []) (mkKbd 0 (hi_keys ≫= scancodes), cons_init true [] (replicate 2000 0) 0 (replicate 128 0)).
Proof.
  eapply wp_mono; [apply (typing_reaches_line hi_keys no_keys _ [] [])|].
  - repeat constructor; discriminate.
  - simpl. split_and!; try done; intros j [= <-]; set_solver.
  - split; [done|done|simpl; lia].
  - apply cinv_init; done.
  - intros d s' (_ & _ & H). exact H.
Defined.

(** Both Shift keys down, the left one up, then the key a: the right Shift is
    still down, but kbdgetc() has cleared the flag and returns a small a. *)
Theorem shift_forgotten :
  let es := [Press false 42; Press false 54; Release false 42; Press false 30] in
  (typed es no_keys).1 = [0; 0; 65] ∧ 54 ∈ k_down (typed es no_keys).2 ∧
  kbd_chars 9 (mkKbd 0 (es ≫= scancodes)) = Done [0; 0; 0; 97] (mkKbd 0 []).
Proof. split_and!; [vm_compute; reflexivity| |vm_compute; reflexivity]. simpl. set_solver. Qed.
