(* ===== verification/Cmos.v ===== *)
(** * The real-time clock (cmostime() of lapic.c)

    The chip is outside the program: [cmos k reg] is what the k-th access gets
    from register [reg]. What its data sheet says about the registers and the
    bit that announces an update is the hypothesis [chip_ok]. *)

From S2P Require Import Prelude.

Record rtcdate : Type := mkRtc { r_second : Z; r_minute : Z; r_hour : Z; r_day : Z; r_month : Z; r_year : Z }.
#[export] Instance rtcdate_eq_dec : EqDecision rtcdate.
Proof. solve_decision. Defined.

Definition CMOS_STATA : Z := 10.
Definition CMOS_STATB : Z := 11.
Definition CMOS_UIP : Z := 128.
Definition SECS : Z := 0.
Definition MINS : Z := 2.
Definition HOURS : Z := 4.
Definition DAY : Z := 7.
Definition MONTH : Z := 8.
Definition YEAR : Z := 9.

Section cmos.
Context (cmos : nat → Z → Z).
(** The state is the number of accesses so far. *)
Abbreviation R := (M nat).

Definition cmos_read (reg : Z) : R Z := k ← get; modify S;; mret (cmos k reg).

Definition fill_rtcdate : R rtcdate :=
  s ← cmos_read SECS; mi ← cmos_read MINS; h ← cmos_read HOURS; d ← cmos_read DAY; mo ← cmos_read MONTH; y ← cmos_read YEAR;
  mret (mkRtc s mi h d mo y).

(** The loop; memcmp() of the two structures is 0 when they are equal. *)
Fixpoint read_loop (fuel : nat) : R rtcdate :=
  match fuel with
  | O => nofuel
  | S fuel =>
    t1 ← fill_rtcdate;
    a ← cmos_read CMOS_STATA;
    if negb (Z.land a CMOS_UIP =? 0) then read_loop fuel
    else
      t2 ← fill_rtcdate;
      if decide (t1 = t2) then mret t1 else read_loop fuel
  end.

Definition CONV (x : Z) : Z := Z.shiftr x 4 * 10 + Z.land x 15.

Definition conv_date (bcd : bool) (t : rtcdate) : rtcdate :=
  if bcd then mkRtc (CONV (r_second t)) (CONV (r_minute t)) (CONV (r_hour t)) (CONV (r_day t)) (CONV (r_month t)) (CONV (r_year t)) else t.

Definition cmostime (fuel : nat) : R rtcdate :=
  sb ← cmos_read CMOS_STATB;
  let bcd := Z.land sb 4 =? 0 in
  t1 ← read_loop fuel;
  let t := conv_date bcd t1 in
  mret (mkRtc (r_second t) (r_minute t) (r_hour t) (r_day t) (r_month t) (u32 (r_year t + 2000))).

(** ** The clock *)

Section clock.
(** The time of the chip at the k-th access. *)
Context (time : nat → rtcdate).

(** The registers show a date at the k-th access. *)
Record shows (k : nat) (d : rtcdate) : Prop := {
  sh_second : cmos k SECS = r_second d;
  sh_minute : cmos k MINS = r_minute d;
  sh_hour : cmos k HOURS = r_hour d;
  sh_day : cmos k DAY = r_day d;
  sh_month : cmos k MONTH = r_month d;
  sh_year : cmos k YEAR = r_year d;
}.

(** An update is in progress, or about to begin. *)
Definition updating (k : nat) : bool := negb (Z.land (cmos k CMOS_STATA) CMOS_UIP =? 0).

(** The data sheet of the chip: when the bit is clear, no update begins for 244
    microseconds, and until then the registers show the time; when it is set
    they may show anything. That this is long enough for the six accesses of a
    reading (microdelay() between them is empty) supposes that the reading is
    not interrupted for longer than that. *)
Definition chip_ok : Prop := ∀ k, updating k = false → ∀ i, (1 ≤ i ≤ 6)%nat → shows (k + i) (time k).
Context (Hc : chip_ok).

(** What a reading that starts at access [k] gets. *)
Definition reading (k : nat) : rtcdate :=
  mkRtc (cmos k SECS) (cmos (k + 1) MINS) (cmos (k + 2) HOURS) (cmos (k + 3) DAY) (cmos (k + 4) MONTH) (cmos (k + 5) YEAR).

Lemma fill_reading k : fill_rtcdate k = Done (reading k) (k + 6)%nat.
Proof. unfold fill_rtcdate, cmos_read, reading, mbind, M_bind, get, modify, mret, M_ret. by rewrite !(Nat.add_comm k). Qed.

Lemma rtc_eta t : mkRtc (r_second t) (r_minute t) (r_hour t) (r_day t) (r_month t) (r_year t) = t.
Proof. by destruct t. Qed.

(** A reading right after the bit was seen clear is the time. *)
Lemma reading_clear k : updating k = false → reading (k + 1) = time k.
Proof.
  intros Hu. pose proof (Hc k Hu) as H. rewrite <- (rtc_eta (time k)). unfold reading. rewrite <- !Nat.add_assoc. cbn [Nat.add]. f_equal.
  - by apply (H 1%nat); lia.
  - by apply (H 2%nat); lia.
  - by apply (H 3%nat); lia.
  - by apply (H 4%nat); lia.
  - by apply (H 5%nat); lia.
  - by apply (H 6%nat); lia.
Qed.

(** The chip is quiet for [n] accesses from [k] on: no update is in progress
    and the time is the same. *)
Definition quiet (k n : nat) : Prop := ∀ i, (k ≤ i < k + n)%nat → updating i = false ∧ time i = time k.

Lemma reread_spec fuel k K : (k ≤ K + 13)%nat → quiet K 26 → (K + 13 - k < fuel)%nat →
  wp (read_loop fuel) (λ t k', ∃ i, (k ≤ i < k')%nat ∧ updating i = false ∧ t = time i) k.
Proof.
  revert k. induction fuel as [|fuel IH]; intros k Hk HK Hf; [lia|]. cbn [read_loop].
  unfold wp, mbind, M_bind. rewrite fill_reading. unfold cmos_read at 1, mbind, M_bind, get, modify, mret, M_ret. fold (updating (k + 6)).
  assert (Hagain : ∀ k1, (k + 7 ≤ k1 ≤ k + 13)%nat → (k ≤ K)%nat →
    wp (read_loop fuel) (λ t k', ∃ i, (k ≤ i < k')%nat ∧ updating i = false ∧ t = time i) k1).
  { intros k1 Hk1 HkK. eapply wp_mono; [apply (IH k1); [lia|done|lia]|]. intros t k' (i & Hi & ?). exists i. split; [lia|done]. }
  destruct (updating (k + 6)) eqn:Hu.
  { apply Hagain; [lia|]. destruct (decide (k ≤ K)%nat); [done|]. destruct (HK (k + 6)%nat) as [H _]; [lia|congruence]. }
  rewrite fill_reading. replace (S (k + 6)) with (k + 6 + 1)%nat by lia. pose proof (reading_clear (k + 6) Hu) as Hr. destruct (decide _) as [He|He].
  - exists (k + 6)%nat. split; [lia|]. split; [done|]. congruence.
  - apply Hagain; [lia|]. destruct (decide (k ≤ K)%nat); [done|]. destruct He. rewrite Hr.
    destruct (HK (k - 1)%nat) as [Hu1 Ht1]; [lia|]. destruct (HK (k + 6)%nat) as [_ ->]; [lia|]. rewrite <- Ht1, <- (reading_clear (k - 1) Hu1).
    f_equal. lia.
Qed.
End clock.

(** ** Binary-coded decimals *)

Definition to_bcd (x : Z) : Z := 16 * (x / 10) + x mod 10.
Definition on_fields (f : Z → Z) (d : rtcdate) : rtcdate :=
  mkRtc (f (r_second d)) (f (r_minute d)) (f (r_hour d)) (f (r_day d)) (f (r_month d)) (f (r_year d)).
(** The registers for a date, in the mode the chip is in. *)
Definition shown (bcd : bool) (d : rtcdate) : rtcdate := if bcd then on_fields to_bcd d else d.
(** Two digits in every field; the year is that of the century. *)
Definition date_ok (d : rtcdate) : Prop :=
  Forall (λ x, 0 ≤ x < 100) [r_second d; r_minute d; r_hour d; r_day d; r_month d; r_year d].
Definition in_2000 (d : rtcdate) : rtcdate :=
  mkRtc (r_second d) (r_minute d) (r_hour d) (r_day d) (r_month d) (r_year d + 2000).

Lemma CONV_bcd x : 0 ≤ x < 100 → CONV (to_bcd x) = x.
Proof.
  intros Hx. unfold CONV, to_bcd. rewrite Z.shiftr_div_pow2 by lia. change 15 with (Z.ones 4). rewrite Z.land_ones by lia.
  change (2 ^ 4) with 16. Z.to_euclidean_division_equations; lia.
Qed.

Lemma conv_shown bcd d : date_ok d → conv_date bcd (shown bcd d) = d.
Proof.
  intros Hd. destruct bcd; [|done]. unfold conv_date, shown, on_fields. simpl. unfold date_ok in Hd.
  repeat (apply Forall_cons in Hd as [? Hd]). rewrite !CONV_bcd by done. apply rtc_eta.
Qed.

(** C28: cmostime() gets the time right. The chip shows a date in binary or
    binary-coded decimals, in registers that may hold anything during an update;
    what it guarantees is that six accesses after its update bit was seen clear
    get the date. Whenever a stretch of 26 accesses without an update lies ahead
    the loop ends, and the result is the date at one moment of the call at which
    no update was in progress, never a mixture of the time before and after an
    update or a value read in between. *)
Theorem cmostime_consistent (date : nat → rtcdate) (bcd : bool) (k K fuel : nat) :
  let time i := shown bcd (date i) in
  chip_ok time → (∀ i, date_ok (date i)) → (Z.land (cmos k CMOS_STATB) 4 =? 0) = bcd →
  (k ≤ K)%nat → quiet time K 26 → (K + 13 - k ≤ fuel)%nat →
  wp (cmostime fuel) (λ t k', ∃ i, (k < i < k')%nat ∧ updating i = false ∧ t = in_2000 (date i)) k.
Proof.
  intros time Hc Hd Hb HK Hq Hf. unfold cmostime. apply wp_bind. unfold cmos_read. apply wp_bind, wp_get, wp_bind, wp_modify, wp_ret. rewrite Hb.
  apply wp_bind. eapply wp_mono; [apply (reread_spec time Hc fuel (S k) K); [lia|done|lia]|].
  intros t k' (i & Hi & Hu & ->). apply wp_ret. exists i. split; [lia|]. split; [done|]. unfold time. rewrite conv_shown by done. unfold in_2000. f_equal.
  specialize (Hd i). unfold date_ok in Hd. do 5 (apply Forall_cons in Hd as [_ Hd]). apply Forall_cons in Hd as [Hy _]. apply u32_small. lia.
Qed.
End cmos.

(** 2026-11-16 23:59:59, and one second later from access 9 on; the update is
    announced from access 2 on, and accesses 8 and 9 get 255 from every register. *)
Definition evening : rtcdate := mkRtc 59 59 23 16 11 26.
Definition midnight : rtcdate := mkRtc 0 0 0 17 11 26.
Definition demo_date (k : nat) : rtcdate := if decide (k < 9)%nat then evening else midnight.
Definition demo_cmos (k : nat) (reg : Z) : Z :=
  let t := shown true (demo_date k) in
  if reg =? CMOS_STATA then if decide (2 ≤ k ≤ 9)%nat then CMOS_UIP else 0
  else if reg =? CMOS_STATB then 2
  else if decide (8 ≤ k ≤ 9)%nat then 255
  else if reg =? SECS then r_second t else if reg =? MINS then r_minute t else if reg =? HOURS then r_hour t
  else if reg =? DAY then r_day t else if reg =? MONTH then r_month t else if reg =? YEAR then r_year t else 0.

Lemma demo_updating k : updating demo_cmos k = false → (k < 2)%nat ∨ (9 < k)%nat.
Proof. unfold updating, demo_cmos. simpl. case_decide; [done|]. lia. Qed.

Lemma demo_chip : chip_ok demo_cmos (λ k, shown true (demo_date k)).
Proof.
  intros k Hk%demo_updating i Hi. assert (demo_date k = demo_date (k + i)) as ->.
  { unfold demo_date. repeat case_decide; done || lia. }
  unfold demo_cmos. split; simpl; by rewrite decide_False by lia.
Qed.

Lemma cmostime_consistent_witness :
  wp (cmostime demo_cmos 30) (λ t _, t = in_2000 evening ∨ t = in_2000 midnight) 0%nat.
Proof.
  eapply wp_mono; [apply (cmostime_consistent demo_cmos demo_date true 0 10 30)|].
  - apply demo_chip.
  - intros i. unfold demo_date. case_decide; repeat constructor; done.
  - reflexivity.
  - lia.
  - intros i Hi. unfold updating, demo_cmos, demo_date. simpl. by rewrite !decide_False by lia.
  - lia.
  - intros t k' (i & _ & _ & ->). unfold demo_date. case_decide; [by left|by right].
Defined.
