(* ===== verification/Mp.v ===== *)
(** * The configuration of the processors (mp.c)

    Memory is the list of the bytes at the physical addresses from 0 on that
    the kernel maps; an access beyond it, or to cpus[] beyond its NCPU
    elements, is a fault. What the BIOS has written there is arbitrary.
    The theorems at the end say what mpinit() finds in a well-formed table. *)

From S2P Require Import Prelude Bytes Str Digits.

Definition NCPU : nat := 8.
Definition sizeof_mp : Z := 16.
Definition sizeof_mpconf : Z := 44.
Definition sizeof_mpproc : Z := 20.
Definition sizeof_mpioapic : Z := 8.
Definition MPBOOT : Z := 2.

(** What mpinit() prints. *)
Inductive message : Type := BadApicid (ncpu apicid : Z) | UnknownType (ty : Z).

(** The variables of mp.c, lapic of lapic.c, what is printed, and the ports
    written. [mp_ids] are the ids of cpus[], [mp_bcpu] the index of bcpu. *)
Record mpstate : Type := mkMp {
  mp_ids : list Z; mp_bcpu : nat; mp_ismp : bool; mp_ncpu : nat; mp_ioapicid : Z; mp_lapic : Z;
  mp_printed : list message; mp_ports : list (Z * Z);
}.
#[export] Instance mpstate_eta : Eta mpstate := λ s,
  mkMp (mp_ids s) (mp_bcpu s) (mp_ismp s) (mp_ncpu s) (mp_ioapicid s) (mp_lapic s) (mp_printed s) (mp_ports s).

Definition mpbcpu (s : mpstate) : nat := mp_bcpu s.

Section mp.
(** The memory, and what inb(0x23) reads. *)
Context (m : list Z) (imcr : Z).
Abbreviation C := (M mpstate).

Definition or_fault {A} (o : option A) : C A := match o with Some a => mret a | None => fault end.
(** The bytes from the address [a] on. *)
Definition from (a : Z) : list Z := drop (Z.to_nat a) m.
Definition rd_le (n : nat) (a : Z) : C Z :=
  if bool_decide (Z.to_nat a + n ≤ length m)%nat then mret (get_le n m (Z.to_nat a)) else fault.

(** *** Searching *)

Fixpoint sum_loop (n : nat) (addr : list Z) (s : Z) : option Z :=
  match n with
  | O => Some s
  | S n => match addr with b :: addr => sum_loop n addr (s + b) | [] => None end
  end.
Definition sum (addr len : Z) : C Z := s ← or_fault (sum_loop (Z.to_nat len) (from addr) 0); mret (u8 s).

(** [for(p = addr; p < e; p += sizeof(struct mp))] *)
Fixpoint search_loop (fuel : nat) (p e : Z) : C (option Z) :=
  if p <? e then
    match fuel with
    | O => nofuel
    | S fuel =>
      c ← or_fault (memcmp (from p) (text "_MP_") 4);
      found ← (if c =? 0 then x ← sum p sizeof_mp; mret (x =? 0) else mret false);
      if (found : bool) then mret (Some p) else search_loop fuel (p + sizeof_mp) e
    end
  else mret None.
Definition mpsearch1 (a len : Z) : C (option Z) := search_loop (Z.to_nat len) a (a + len).

Definition mpsearch : C (option Z) :=
  b0f ← rd_le 1 (1024 + 15); b0e ← rd_le 1 (1024 + 14);
  let p := Z.shiftl (Z.lor (Z.shiftl b0f 8) b0e) 4 in
  r ← (if negb (p =? 0) then mpsearch1 p 1024
       else
         b14 ← rd_le 1 (1024 + 20); b13 ← rd_le 1 (1024 + 19);
         mpsearch1 (u32 (Z.lor (Z.shiftl b14 8) b13 * 1024 - 1024)) 1024);
  match r with
  | Some mp => mret (Some mp)
  | None => mpsearch1 983040 65536
  end.

(** The addresses of the floating structure and of the table. *)
Definition mpconfig : C (option (Z * Z)) :=
  r ← mpsearch;
  match r with
  | None => mret None
  | Some mp =>
    conf ← rd_le 4 (mp + 4);
    if conf =? 0 then mret None
    else
      c ← or_fault (memcmp (from conf) (text "PCMP") 4);
      if negb (c =? 0) then mret None
      else
        v ← rd_le 1 (conf + 6);
        if negb (v =? 1) && negb (v =? 4) then mret None
        else
          len ← rd_le 2 (conf + 4);
          x ← sum conf len;
          if negb (x =? 0) then mret None else mret (Some (mp, conf))
  end.

(** *** The table *)

Definition print (msg : message) : C unit := modify (λ s, s <| mp_printed ::= (λ l, l ++ [msg]) |>).

(** case MPPROC *)
Definition add_cpu (p : Z) : C unit :=
  apicid ← rd_le 1 (p + 1);
  n ← gets mp_ncpu;
  when (negb (Z.of_nat n =? apicid)) (print (BadApicid (Z.of_nat n) apicid);; modify (λ s, s <| mp_ismp := false |>));;
  flags ← rd_le 1 (p + 3);
  when (negb (Z.land flags MPBOOT =? 0)) (modify (λ s, s <| mp_bcpu := n |>));;
  (if (n <? NCPU)%nat then modify (λ s, s <| mp_ids ::= <[n := Z.of_nat n]> |>) else fault);;
  modify (λ s, s <| mp_ncpu := S n |>).

Fixpoint table_loop (fuel : nat) (p e : Z) : C unit :=
  if p <? e then
    match fuel with
    | O => nofuel
    | S fuel =>
      ty ← rd_le 1 p;
      if ty =? 0 then add_cpu p;; table_loop fuel (p + sizeof_mpproc) e
      else if ty =? 2 then
        no ← rd_le 1 (p + 1);
        modify (λ s, s <| mp_ioapicid := no |>);;
        table_loop fuel (p + sizeof_mpioapic) e
      else if (ty =? 1) || (ty =? 3) || (ty =? 4) then table_loop fuel (p + 8) e
      else print (UnknownType ty);; modify (λ s, s <| mp_ismp := false |>);; table_loop fuel p e
    end
  else mret tt.

Definition mpinit (fuel : nat) : C unit :=
  modify (λ s, s <| mp_bcpu := 0%nat |>);;
  r ← mpconfig;
  match r with
  | None => mret tt
  | Some (mp, conf) =>
    modify (λ s, s <| mp_ismp := true |>);;
    la ← rd_le 4 (conf + 36);
    modify (λ s, s <| mp_lapic := la |>);;
    len ← rd_le 2 (conf + 4);
    table_loop fuel (conf + sizeof_mpconf) (conf + len);;
    ok ← gets mp_ismp;
    if negb ok then modify (λ s, s <| mp_ncpu := 1%nat |> <| mp_lapic := 0 |> <| mp_ioapicid := 0 |>)
    else
      i ← rd_le 1 (mp + 12);
      when (negb (i =? 0)) (modify (λ s, s <| mp_ports ::= (λ l, l ++ [(34, 112); (35, Z.lor imcr 1)]) |>))
  end.
End mp.

(** ** What mpinit() finds

    The search visits the areas the specification names, in their order, but of
    the BIOS ROM only the upper half; a table whose processors are numbered from 0 configures the machine, any
    other makes it fall back to one processor. An entry of an unknown type
    keeps mpinit() in its loop, and a ninth processor is stored behind cpus[]. *)

Section search.
Context (m : list Z) (imcr : Z).

Definition bytes_sum (l : list Z) : Z := foldr Z.add 0 l.

Lemma sum_loop_spec n l s : (n ≤ length l)%nat → sum_loop n l s = Some (s + bytes_sum (take n l)).
Proof.
  revert l s. induction n as [|n IH]; intros l s Hl; [by simpl; rewrite Z.add_0_r|]. destruct l as [|b l]; [simpl in Hl; lia|].
  simpl in *. rewrite IH by lia. f_equal. lia.
Qed.

Lemma memcmp_eq v1 v2 n : (n ≤ length v1)%nat → (n ≤ length v2)%nat → ∃ c, memcmp v1 v2 n = Some c ∧ (c = 0 ↔ take n v1 = take n v2).
Proof.
  revert v1 v2. induction n as [|n IH]; intros [|a v1] [|b v2] H1 H2; simpl in *; try lia; try (by exists 0).
  destruct (Z.eqb_spec a b) as [->|Hab].
  - destruct (IH v1 v2) as (c & -> & Hc); [lia|lia|]. exists c. split; [done|]. rewrite Hc. split; [congruence|by intros [= ->]].
  - exists (a - b). split; [done|]. split; [lia|]. intros [= -> _]. lia.
Qed.

(** The floating structure is at [a]. *)
Definition is_mp (a : Z) : bool := bool_decide (take 4 (from m a) = text "_MP_") && (u8 (bytes_sum (take 16 (from m a))) =? 0).

(** [n] addresses, 16 bytes apart. *)
Definition candidates (a : Z) (n : nat) : list Z := (λ i, a + 16 * Z.of_nat i) <$> seq 0 n.

Lemma candidates_S a n : candidates a (S n) = a :: candidates (a + 16) n.
Proof.
  unfold candidates. cbn [seq fmap list_fmap]. f_equal; [lia|]. rewrite <- fmap_S_seq, <- list_fmap_compose. apply list_fmap_ext. intros i x _. cbn. lia.
Qed.

Lemma length_from a : length (from m a) = (length m - Z.to_nat a)%nat.
Proof. unfold from. by rewrite length_drop. Qed.

Lemma search_loop_find s n : ∀ a fuel, 0 ≤ a → a + 16 * Z.of_nat n ≤ Z.of_nat (length m) → (n ≤ fuel)%nat →
  search_loop m fuel a (a + 16 * Z.of_nat n) s = Done (find is_mp (candidates a n)) s.
Proof.
  induction n as [|n IH]; intros a fuel Ha Hl Hf.
  { replace (a + 16 * Z.of_nat 0) with a by lia. destruct fuel; cbn [search_loop]; by rewrite Z.ltb_irrefl. }
  destruct fuel as [|fuel]; [lia|]. cbn [search_loop]. rewrite (proj2 (Z.ltb_lt _ _)) by lia. rewrite candidates_S. cbn [find].
  pose proof (length_from a) as Hlen. destruct (memcmp_eq (from m a) (text "_MP_") 4) as (c & Hc & H0); [lia|simpl; lia|].
  assert (Hsum : sum m a sizeof_mp s = Done (u8 (bytes_sum (take 16 (from m a)))) s).
  { unfold sum. rewrite sum_loop_spec by (unfold sizeof_mp; lia). done. }
  specialize (IH (a + 16) fuel). replace (a + 16 + 16 * Z.of_nat n) with (a + 16 * Z.of_nat (S n)) in IH by lia.
  unfold mbind, M_bind. rewrite Hc. cbn [or_fault mret M_ret]. unfold is_mp at 1. destruct (Z.eqb_spec c 0) as [->|Hc0].
  - rewrite Hsum. rewrite bool_decide_eq_true_2 by (by apply H0). cbn [andb]. destruct (_ =? 0); [done|]. cbn [mret M_ret]. apply IH; lia.
  - rewrite bool_decide_eq_false_2 by (by intros H%H0). cbn [andb mret M_ret]. apply IH; lia.
Qed.

(** The kilobyte that is searched first: the start of the extended BIOS data
    area or, without one, the end of base memory. *)
Definition bda (i : nat) : Z := get_le 1 m (1024 + i).
Definition first_area : Z :=
  let p := Z.shiftl (Z.lor (Z.shiftl (bda 15) 8) (bda 14)) 4 in
  if p =? 0 then u32 (Z.lor (Z.shiftl (bda 20) 8) (bda 19) * 1024 - 1024) else p.

Definition search_order : list Z := candidates first_area 64 ++ candidates 983040 (Z.to_nat 4096).

Lemma rd_le_done n a s : (Z.to_nat a + n ≤ length m)%nat → rd_le m n a s = Done (get_le n m (Z.to_nat a)) s.
Proof. intros H. unfold rd_le. by rewrite bool_decide_eq_true_2. Qed.

Lemma find_in_app {A} (f : A → bool) l1 l2 : find f (l1 ++ l2) = match find f l1 with Some x => Some x | None => find f l2 end.
Proof. induction l1 as [|x l1 IH]; simpl; [done|]. by destruct (f x). Qed.

Lemma mpsearch_find s : 1048576 ≤ Z.of_nat (length m) → 0 ≤ first_area → first_area + 1024 ≤ Z.of_nat (length m) →
  mpsearch m s = Done (find is_mp search_order) s.
Proof.
  intros Hl H0 H1. unfold search_order. rewrite find_in_app.
  assert (Hlast : mpsearch1 m 983040 65536 s = Done (find is_mp (candidates 983040 (Z.to_nat 4096))) s).
  { unfold mpsearch1. apply (search_loop_find s (Z.to_nat 4096)); lia. }
  assert (Hfirst : mpsearch1 m first_area 1024 s = Done (find is_mp (candidates first_area 64)) s).
  { unfold mpsearch1. apply (search_loop_find s 64); lia. }
  unfold first_area in Hfirst at 1. unfold mpsearch, mbind, M_bind. rewrite !rd_le_done by lia.
  change (Z.to_nat (1024 + 15)) with (1024 + 15)%nat. change (Z.to_nat (1024 + 14)) with (1024 + 14)%nat. fold (bda 15). fold (bda 14).
  destruct (_ =? 0); cbn [negb].
  - rewrite !rd_le_done by lia. change (Z.to_nat (1024 + 20)) with (1024 + 20)%nat. change (Z.to_nat (1024 + 19)) with (1024 + 19)%nat. fold (bda 20). fold (bda 19).
    rewrite Hfirst. by destruct (find is_mp (candidates first_area 64)).
  - rewrite Hfirst. by destruct (find is_mp (candidates first_area 64)).
Qed.
End search.

(** ** Tables *)

(** The entries; [rest] is what mpinit() does not look at. *)
Inductive entry : Type :=
| Cpu (apicid version flags : Z) (rest : list Z)
| Ioapic (apicno : Z) (rest : list Z)
| Skipped (ty : Z) (rest : list Z).

Definition encode (e : entry) : list Z :=
  match e with
  | Cpu a v f rest => [0; a; v; f] ++ rest
  | Ioapic a rest => [2; a] ++ rest
  | Skipped ty rest => ty :: rest
  end.
Definition entry_ok (e : entry) : Prop :=
  match e with
  | Cpu _ _ _ rest => length rest = 16%nat
  | Ioapic _ rest => length rest = 6%nat
  | Skipped ty rest => ty ∈ [1; 3; 4] ∧ length rest = 7%nat
  end.

(** The processors (apicid and flags), and the numbers of the I/O APICs. *)
Definition cpus (tab : list entry) : list (Z * Z) := omap (λ e, match e with Cpu a _ f _ => Some (a, f) | _ => None end) tab.
Definition ioapics (tab : list entry) : list Z := omap (λ e, match e with Ioapic a _ => Some a | _ => None end) tab.

(** The processors are numbered from 0 in the order of the table. *)
Definition in_order (l : list (Z * Z)) : bool := bool_decide (l.*1 = Z.of_nat <$> seq 0 (length l)).

(** The index of the last processor that says it booted the system. *)
Definition boot_cpu (l : list (Z * Z)) : nat :=
  default 0%nat (last (omap (λ p, if Z.land p.2.2 MPBOOT =? 0 then None else Some p.1) (imap pair l))).

Lemma in_order_snoc l a f : in_order (l ++ [(a, f)]) = in_order l && (Z.of_nat (length l) =? a).
Proof.
  unfold in_order. rewrite length_app, seq_app, !fmap_app. cbn. apply eq_true_iff_eq. rewrite andb_true_iff, !bool_decide_eq_true, Z.eqb_eq.
  split; [intros H%app_inj_2; [naive_solver|done]|]. intros [-> <-]. done.
Qed.

Lemma boot_cpu_snoc l a f : boot_cpu (l ++ [(a, f)]) = if Z.land f MPBOOT =? 0 then boot_cpu l else length l.
Proof.
  unfold boot_cpu. rewrite imap_app, omap_app. cbn. rewrite Nat.add_0_r. destruct (_ =? 0); [by rewrite app_nil_r|]. by rewrite last_snoc.
Qed.

Section table.
Context (m : list Z) (imcr : Z) (s0 : mpstate).

(** What the loop has done with the entries [tab]. *)
Record after (tab : list entry) (s : mpstate) : Prop := {
  af_ncpu : mp_ncpu s = length (cpus tab);
  af_ids : length (mp_ids s) = NCPU ∧ take (length (cpus tab)) (mp_ids s) = Z.of_nat <$> seq 0 (length (cpus tab));
  af_ismp : mp_ismp s = in_order (cpus tab);
  af_bcpu : mp_bcpu s = boot_cpu (cpus tab);
  af_ioapic : mp_ioapicid s = default (mp_ioapicid s0) (last (ioapics tab));
  af_lapic : mp_lapic s = mp_lapic s0;
  af_ports : mp_ports s = mp_ports s0;
}.

Lemma from_byte p l rest i b : 0 ≤ p → from m p = l ++ rest → l !! i = Some b → ∀ s, rd_le m 1 (p + Z.of_nat i) s = Done b s.
Proof.
  intros Hp Hf Hi s. assert (Hb : m !! Z.to_nat (p + Z.of_nat i) = Some b).
  { replace (Z.to_nat (p + Z.of_nat i)) with (Z.to_nat p + i)%nat by lia. rewrite <- lookup_drop. fold (from m p). rewrite Hf. by apply lookup_app_l_Some. }
  pose proof (lookup_lt_Some _ _ _ Hb). rewrite rd_le_done by lia. f_equal. unfold get_le. rewrite (drop_S _ _ _ Hb). cbn. rewrite take_0. cbn. lia.
Qed.

Lemma from_tail p l rest n : 0 ≤ p → from m p = l ++ rest → n = Z.of_nat (length l) → from m (p + n) = rest.
Proof.
  intros Hp Hf ->. unfold from in *. replace (Z.to_nat (p + Z.of_nat (length l))) with (Z.to_nat p + length l)%nat by lia.
  by rewrite <- drop_drop, Hf, drop_app_length.
Qed.

Lemma cpus_snoc tab e : cpus (tab ++ [e]) = cpus tab ++ match e with Cpu a _ f _ => [(a, f)] | _ => [] end.
Proof. unfold cpus. rewrite omap_app. by destruct e. Qed.
Lemma ioapics_snoc tab e : ioapics (tab ++ [e]) = ioapics tab ++ match e with Ioapic a _ => [a] | _ => [] end.
Proof. unfold ioapics. rewrite omap_app. by destruct e. Qed.

Lemma after_cpu tab a v f rest s s' : after tab s → (length (cpus tab) < NCPU)%nat →
  mp_ncpu s' = S (mp_ncpu s) → mp_ids s' = <[mp_ncpu s := Z.of_nat (mp_ncpu s)]> (mp_ids s) → mp_ismp s' = mp_ismp s && (Z.of_nat (mp_ncpu s) =? a) →
  mp_bcpu s' = (if Z.land f MPBOOT =? 0 then mp_bcpu s else mp_ncpu s) → mp_ioapicid s' = mp_ioapicid s → mp_lapic s' = mp_lapic s → mp_ports s' = mp_ports s →
  after (tab ++ [Cpu a v f rest]) s'.
Proof.
  intros [A1 [A2 A3] A4 A5 A6 A7 A8] Hn E1 E2 E3 E4 E5 E6 E7. rewrite A1 in *. split; rewrite ?cpus_snoc, ?ioapics_snoc, ?length_app, ?app_nil_r; try congruence.
  - rewrite E1. cbn. lia.
  - rewrite E2, length_insert. split; [done|]. cbn [length]. rewrite Nat.add_1_r, seq_S, fmap_app, <- A3.
    rewrite (take_S_r _ _ (Z.of_nat (length (cpus tab)))) by (apply list_lookup_insert_eq; lia). by rewrite take_insert_ge by lia.
  - by rewrite in_order_snoc, <- A4.
  - by rewrite boot_cpu_snoc, <- A5.
Qed.

Lemma add_cpu_spec p a v f rest rest' tab s (Q : unit → mpstate → Prop) : 0 ≤ p → from m p = encode (Cpu a v f rest) ++ rest' → after tab s →
  (length (cpus tab) < NCPU)%nat → (∀ s', after (tab ++ [Cpu a v f rest]) s' → Q tt s') → wp (add_cpu m p) Q s.
Proof.
  intros Hp Hf A Hn HQ. pose proof (af_ncpu _ _ A) as En.
  unfold wp, add_cpu, mbind, M_bind, gets. rewrite (from_byte p _ _ 1 a Hp Hf eq_refl).
  destruct (Z.eqb_spec (Z.of_nat (mp_ncpu s)) a) as [Ea|Ea]; cbn [negb when mret M_ret]; unfold print, modify.
  all: rewrite (from_byte p _ _ 3 f Hp Hf eq_refl); destruct (Z.land f MPBOOT =? 0) eqn:Ef; cbn [negb when mret M_ret]; rewrite (proj2 (Nat.ltb_lt (mp_ncpu s) NCPU)) by lia.
  all: apply HQ, (after_cpu tab a v f rest s); [done|done|done|done| |by rewrite Ef|done|done|done].
  all: cbn; destruct (Z.eqb_spec (Z.of_nat (mp_ncpu s)) a); try done; by rewrite ?andb_true_r, ?andb_false_r.
Qed.

(** The loop reads the entries up to the end of the table. *)
Lemma table_loop_spec tab2 : ∀ tab1 p fuel rest s, 0 ≤ p → from m p = concat (encode <$> tab2) ++ rest → Forall entry_ok tab2 → after tab1 s →
  (length (cpus (tab1 ++ tab2)) ≤ NCPU)%nat → (length tab2 ≤ fuel)%nat →
  wp (table_loop m fuel p (p + Z.of_nat (length (concat (encode <$> tab2))))) (λ _ s', after (tab1 ++ tab2) s') s.
Proof.
  induction tab2 as [|e tab2 IH]; intros tab1 p fuel rest s Hp Hf Hok A Hn Hfu.
  { rewrite app_nil_r. cbn. rewrite Z.add_0_r. destruct fuel; cbn [table_loop]; rewrite Z.ltb_irrefl; by apply wp_ret. }
  apply Forall_cons in Hok as [He Hok]. cbn [fmap list_fmap concat] in *. rewrite <- app_assoc in Hf. destruct fuel as [|fuel]; [cbn in Hfu; lia|]. cbn [length] in Hfu.
  replace (tab1 ++ e :: tab2) with ((tab1 ++ [e]) ++ tab2) in * by (by rewrite <- app_assoc).
  assert (He0 : (0 < length (encode e))%nat) by (destruct e; cbn; lia).
  rewrite length_app. cbn [table_loop]. rewrite (proj2 (Z.ltb_lt _ _)) by lia.
  assert (Hnext : ∀ n s1, n = Z.of_nat (length (encode e)) → after (tab1 ++ [e]) s1 →
    wp (table_loop m fuel (p + n) (p + Z.of_nat (length (encode e) + length (concat (encode <$> tab2))))) (λ _ s', after ((tab1 ++ [e]) ++ tab2) s') s1).
  { intros n s1 -> A1. replace (p + Z.of_nat (length (encode e) + length (concat (encode <$> tab2)))) with (p + Z.of_nat (length (encode e)) + Z.of_nat (length (concat (encode <$> tab2)))) by lia.
    eapply (IH (tab1 ++ [e])); [lia|exact (from_tail p _ _ _ Hp Hf eq_refl)|done|done|done|lia]. }
  apply wp_bind. unfold wp at 1. destruct e as [a v f r|a r|ty r]; cbn in He.
  - pose proof (from_byte p _ _ 0 0 Hp Hf eq_refl s) as H0. rewrite Z.add_0_r in H0. rewrite H0. cbn [Z.eqb]. apply wp_bind.
    eapply add_cpu_spec; [exact Hp|exact Hf|exact A| |].
    { rewrite <- app_assoc in Hn. unfold cpus in *. rewrite omap_app in Hn. cbn in Hn. rewrite length_app in Hn. cbn in Hn. lia. }
    intros s1 A1. apply Hnext; [|done]. cbn. by rewrite He.
  - pose proof (from_byte p _ _ 0 2 Hp Hf eq_refl s) as H0. rewrite Z.add_0_r in H0. rewrite H0. cbn [Z.eqb Pos.eqb]. apply wp_bind.
    unfold wp at 1. rewrite (from_byte p _ _ 1 a Hp Hf eq_refl). apply wp_bind, wp_modify. apply Hnext; [cbn; by rewrite He|].
    destruct A; split; rewrite ?cpus_snoc, ?ioapics_snoc, ?app_nil_r; try done. by rewrite last_snoc.
  - pose proof (from_byte p _ _ 0 ty Hp Hf eq_refl s) as H0. rewrite Z.add_0_r in H0. rewrite H0. destruct He as [Hty Hr].
    assert (Hb : (ty =? 0) = false ∧ (ty =? 2) = false ∧ (ty =? 1) || (ty =? 3) || (ty =? 4) = true).
    { rewrite !elem_of_cons in Hty. destruct Hty as [->|[->|[->|[]%elem_of_nil]]]; done. }
    destruct Hb as (-> & -> & ->). apply Hnext; [cbn; by rewrite Hr|].
    destruct A; split; rewrite ?cpus_snoc, ?ioapics_snoc, ?app_nil_r; done.
Qed.
End table.

(** ** The configuration *)

Section config.
Context (m : list Z) (imcr : Z).

(** A configuration table at [conf]: its header and its entries. *)
Record table_at (conf : Z) (hdr : list Z) (tab : list entry) : Prop := {
  ta_pos : 0 < conf;
  ta_bytes : ∃ rest, from m conf = hdr ++ concat (encode <$> tab) ++ rest;
  ta_header : length hdr = Z.to_nat sizeof_mpconf;
  ta_sig : take 4 hdr = text "PCMP";
  ta_version : get_le 1 hdr 6 = 1 ∨ get_le 1 hdr 6 = 4;
  ta_length : get_le 2 hdr 4 = sizeof_mpconf + Z.of_nat (length (concat (encode <$> tab)));
  ta_sum : u8 (bytes_sum (hdr ++ concat (encode <$> tab))) = 0;
  ta_entries : Forall entry_ok tab;
}.

Lemma header_field conf hdr rest n o k s : k = Z.of_nat o → 0 < conf → from m conf = hdr ++ rest → (0 < n)%nat → (o + n ≤ length hdr)%nat →
  rd_le m n (conf + k) s = Done (get_le n hdr o) s.
Proof.
  intros -> Hc Hf Hn Ho. pose proof (length_from m conf) as Hl. rewrite Hf, length_app in Hl. rewrite rd_le_done by lia. f_equal. unfold get_le. f_equal.
  replace (Z.to_nat (conf + Z.of_nat o)) with (Z.to_nat conf + o)%nat by lia. rewrite <- drop_drop. fold (from m conf). rewrite Hf.
  rewrite drop_app_le by lia. apply take_app_le. rewrite length_drop. lia.
Qed.

Lemma candidates_bound a n x : x ∈ candidates a n → a ≤ x ∧ x + 16 ≤ a + 16 * Z.of_nat n.
Proof. unfold candidates. intros (i & -> & Hi)%list_elem_of_fmap. apply elem_of_seq in Hi. lia. Qed.

(** The floating structure is found at [mp]. *)
Record found_at (mp : Z) : Prop := {
  fd_memory : 1048576 ≤ Z.of_nat (length m);
  fd_area : 0 ≤ first_area m ∧ first_area m + 1024 ≤ Z.of_nat (length m);
  fd_find : find (is_mp m) (search_order m) = Some mp;
}.

Lemma found_bound mp : found_at mp → 0 ≤ mp ∧ mp + 16 ≤ Z.of_nat (length m).
Proof.
  intros [Hm Ha Hf]. apply find_some in Hf as [Hin _]. apply list_elem_of_In in Hin. apply elem_of_app in Hin as [H|H]; apply candidates_bound in H; lia.
Qed.

Lemma mpconfig_done mp conf hdr tab s : found_at mp → get_le 4 m (Z.to_nat (mp + 4)) = conf → table_at conf hdr tab →
  mpconfig m s = Done (Some (mp, conf)) s.
Proof.
  intros F Hc [T1 [rest T2] T3 T4 T5 T6 T7 T8]. pose proof (found_bound _ F) as Hb. destruct F as [Fm Fa Ff]. unfold sizeof_mpconf in *.
  unfold mpconfig, mbind, M_bind. rewrite mpsearch_find by lia. rewrite Ff, rd_le_done by lia. rewrite Hc, (proj2 (Z.eqb_neq conf 0)) by lia.
  pose proof (length_from m conf) as Hl. rewrite T2, !length_app in Hl.
  destruct (memcmp_eq (from m conf) (text "PCMP") 4) as (c & -> & H0); [rewrite T2, !length_app; lia|simpl; lia|]. cbn [or_fault mret M_ret].
  rewrite (proj2 H0) by (rewrite T2, take_app_le by lia; by rewrite T4). cbn [negb Z.eqb].
  rewrite (header_field conf hdr _ 1 6 6 s eq_refl T1 T2) by lia.
  replace (negb (get_le 1 hdr 6 =? 1) && negb (get_le 1 hdr 6 =? 4)) with false by (destruct T5 as [-> | ->]; done).
  rewrite (header_field conf hdr _ 2 4 4 s eq_refl T1 T2) by lia.
  unfold sum, mbind, M_bind. rewrite sum_loop_spec by (rewrite length_from; lia). cbn [or_fault mret M_ret]. rewrite T2, app_assoc, take_app_le by (rewrite length_app; lia).
  rewrite take_ge by (rewrite length_app; lia). by rewrite Z.add_0_l, T7.
Qed.

(** C37: when memory holds the structures of the MultiProcessor Specification,
    with at most NCPU processors and no entry of an unknown type, at an address
    that mpsearch() visits (the first kilobyte of the extended BIOS data area or,
    without one, the last of base memory, then 0xF0000 to 0xFFFFF), mpinit()
    finds them and, if the processors are numbered in order from 0, sets ncpu to
    their number, the ids of cpus[], bcpu to the last one marked as the boot
    processor, ioapicid and the address of the local APIC, and switches the
    IMCR if there is one; otherwise it falls back to one processor without
    APICs. *)
Theorem mpinit_correct mp conf hdr tab fuel s :
  found_at mp → get_le 4 m (Z.to_nat (mp + 4)) = conf → table_at conf hdr tab → (length (cpus tab) ≤ NCPU)%nat → (length tab ≤ fuel)%nat →
  mp_ncpu s = 0%nat → length (mp_ids s) = NCPU →
  wp (mpinit m imcr fuel) (λ _ s',
    if in_order (cpus tab) then
      mp_ismp s' = true ∧ mp_ncpu s' = length (cpus tab) ∧ take (mp_ncpu s') (mp_ids s') = Z.of_nat <$> seq 0 (mp_ncpu s') ∧
      mpbcpu s' = boot_cpu (cpus tab) ∧ mp_ioapicid s' = default (mp_ioapicid s) (last (ioapics tab)) ∧ mp_lapic s' = get_le 4 hdr 36 ∧
      mp_ports s' = mp_ports s ++ if get_le 1 m (Z.to_nat (mp + 12)) =? 0 then [] else [(34, 112); (35, Z.lor imcr 1)]
    else mp_ismp s' = false ∧ mp_ncpu s' = 1%nat ∧ mp_ioapicid s' = 0 ∧ mp_lapic s' = 0) s.
Proof.
  intros F Hc T Hn Hfu H0 Hids. pose proof (found_bound _ F) as Hb. unfold mpinit. apply wp_bind, wp_modify, wp_bind. unfold wp at 1. rewrite (mpconfig_done mp conf hdr tab) by done.
  destruct T as [T1 [rest T2] T3 T4 T5 T6 T7 T8]. unfold sizeof_mpconf in T3. apply wp_bind, wp_modify, wp_bind. unfold wp at 1. rewrite (header_field conf hdr _ 4 36 36 _ eq_refl T1 T2) by lia.
  apply wp_bind, wp_modify, wp_bind. unfold wp at 1. rewrite (header_field conf hdr _ 2 4 4 _ eq_refl T1 T2), T6 by lia. rewrite Z.add_assoc. apply wp_bind. set (s1 := _ <| mp_lapic := _ |>).
  eapply wp_mono; [eapply (table_loop_spec m s1 tab []); [unfold sizeof_mpconf; lia| |exact T8| |done|done]|].
  { eapply from_tail; [lia|exact T2|by rewrite T3]. }
  { split; cbn; try done. }
  intros [] s2 [A1 [A2 A3] A4 A5 A6 A7 A8]. cbn [app] in *. apply wp_bind, wp_gets. rewrite A4. destruct (in_order (cpus tab)) eqn:Eo; cbn [negb].
  - apply wp_bind. unfold wp at 1. rewrite rd_le_done by lia. rewrite <- A1 in A3. destruct (_ =? 0); cbn [negb when].
    + apply wp_ret. rewrite app_nil_r. done.
    + apply wp_modify. cbn. by rewrite A8.
  - apply wp_modify. done.
Qed.

(** The comment of mpsearch() puts the structure into the BIOS ROM from 0xE0000
    on; one below 0xF0000 is never found. *)
Theorem lower_rom_not_searched a s : 1048576 ≤ Z.of_nat (length m) → 0 ≤ first_area m → first_area m + 1024 ≤ 917504 → 917504 ≤ a < 983040 →
  ∃ r, mpsearch m s = Done r s ∧ r ≠ Some a.
Proof.
  intros Hm H0 H1 Ha. eexists. split; [apply mpsearch_find; lia|]. intros Hf. apply find_some in Hf as [Hin _]. apply list_elem_of_In in Hin.
  apply elem_of_app in Hin as [H|H]; apply candidates_bound in H; lia.
Qed.

(** An entry of an unknown type: the loop does not end. *)
Theorem unknown_entry_hangs p e ty rest fuel s : 0 ≤ p < e → from m p = ty :: rest → ty ∉ [0; 1; 2; 3; 4] → table_loop m fuel p e s = NoFuel.
Proof.
  intros Hp Hf Hty. revert s. induction fuel as [|fuel IH]; intros s; cbn [table_loop]; rewrite (proj2 (Z.ltb_lt _ _)) by lia; [done|].
  pose proof (from_byte m p [ty] rest 0 ty ltac:(lia) Hf eq_refl s) as H0. rewrite Z.add_0_r in H0. unfold mbind, M_bind. rewrite H0.
  rewrite !not_elem_of_cons in Hty. destruct Hty as (N0 & N1 & N2 & N3 & N4 & _).
  rewrite (proj2 (Z.eqb_neq _ _) N0), (proj2 (Z.eqb_neq _ _) N1), (proj2 (Z.eqb_neq _ _) N2), (proj2 (Z.eqb_neq _ _) N3), (proj2 (Z.eqb_neq _ _) N4). apply IH.
Qed.

(** One processor more than NCPU is stored behind the end of cpus[]. *)
Theorem ninth_cpu_overruns p a v f rest s : 0 ≤ p → from m p = encode (Cpu a v f rest) → mp_ncpu s = NCPU → ∃ s', add_cpu m p s = Fault s'.
Proof.
  intros Hp Hf Hn. rewrite <- (app_nil_r (encode _)) in Hf. unfold add_cpu, mbind, M_bind, gets. rewrite (from_byte m p _ _ 1 a Hp Hf eq_refl), Hn.
  destruct (negb _); cbn [when mret M_ret]; unfold print, modify.
  all: rewrite (from_byte m p _ _ 3 f Hp Hf eq_refl); destruct (negb _); cbn [when mret M_ret]; unfold modify; rewrite Nat.ltb_irrefl; by eexists.
Qed.
End config.

(** ** A machine with two processors *)

Definition mp0 : list Z := [95; 77; 80; 95; 32; 4; 0; 0; 1; 4; 252; 0; 128; 0; 0; 0].
Definition hdr0 : list Z :=
  [80; 67; 77; 80; 108; 0; 4; 120; 0; 0; 0; 0; 0; 0; 0; 0; 0; 0; 0; 0; 0; 0; 0; 0; 0; 0; 0; 0; 0; 0; 0; 0; 0; 0; 5; 0; 0; 0; 224; 254; 0; 0; 0; 0].
Definition tab0 : list entry :=
  [Cpu 0 20 3 (replicate 16 0); Cpu 1 20 1 (replicate 16 0); Skipped 1 (replicate 7 0); Ioapic 2 [17; 1; 0; 0; 192; 254]; Skipped 3 (replicate 7 0)].

(** The extended BIOS data area is at 1040, the table at 1056. *)
Definition low0 : list Z := replicate 1038 0 ++ [65; 0] ++ mp0 ++ hdr0 ++ concat (encode <$> tab0).
Definition memory0 : list Z := low0 ++ replicate (Z.to_nat 1048576) 0.
Definition fresh0 : mpstate := mkMp (replicate NCPU 0) 0 false 0 0 0 [] [].

Lemma found0 : found_at memory0 1040.
Proof.
  assert (Hl : Z.of_nat (length memory0) = Z.of_nat (length low0) + 1048576) by (unfold memory0; rewrite length_app, length_replicate; lia).
  assert (Ha : first_area memory0 = 1040) by reflexivity.
  split; [lia|rewrite Ha; lia|]. unfold search_order. rewrite Ha. reflexivity.
Qed.

Lemma table0 : table_at memory0 1056 hdr0 tab0.
Proof.
  split; try reflexivity; [|by right|].
  - exists (replicate (Z.to_nat 1048576) 0). reflexivity.
  - repeat constructor; cbn; set_solver.
Qed.

Lemma mpinit_correct_witness : wp (mpinit memory0 0 10) (λ _ s', mp_ismp s' = true ∧ mp_ncpu s' = 2%nat ∧ mpbcpu s' = 0%nat ∧ mp_ioapicid s' = 2 ∧
  mp_lapic s' = 4276092928 ∧ mp_ports s' = [(34, 112); (35, 1)]) fresh0.
Proof.
  eapply wp_mono.
  - apply (mpinit_correct memory0 0 1040 1056 hdr0 tab0 10 fresh0 found0 eq_refl table0); [unfold NCPU; cbn; lia|cbn; lia|done|done].
  - intros [] s' H. destruct H as (H1 & H2 & _ & H4 & H5 & H6 & H7). split; [done|]. split; [done|]. split; [done|]. split; [done|]. split; [rewrite H6; reflexivity|].
    rewrite H7. reflexivity.
Defined.
