(* ===== verification/Boot.v ===== *)
(** * The boot loader (bootmain.c)

    bootmain() runs in 32-bit mode without paging: memory is the list of the
    bytes from the physical address 0 on, and an access beyond it is a fault.
    The disk is outside the program: [status k] is what the k-th inb(0x1F7)
    reads, [deliver] the data for the values of the five registers. That it
    delivers the sector whose number the registers form is a hypothesis. *)

From S2P Require Import Prelude Bytes Str Exec.

Definition SECTSIZE : Z := 512.
(** The scratch space for the first page of the kernel. *)
Definition elf_base : Z := 65536.
Definition ph_paddr (p : list Z) : Z := get_le 4 p 12.

(** Memory, and the number of reads of the status. *)
Record boot : Type := mkBoot { b_mem : list Z; b_polls : nat }.
#[export] Instance boot_eta : Eta boot := λ s, mkBoot (b_mem s) (b_polls s).

Section boot.
Context (status : nat → Z) (deliver : Z → Z → Z → Z → Z → list Z).
Abbreviation B := (M boot).

Definition inb_status : B Z := k ← gets b_polls; modify (λ s, s <| b_polls := S k |>);; mret (status k).

Fixpoint waitdisk (fuel : nat) : B unit :=
  x ← inb_status;
  if Z.land x 192 =? 64 then mret tt
  else match fuel with O => nofuel | S fuel => waitdisk fuel end.

(** insl() into memory. *)
Definition store (dst : Z) (l : list Z) : B unit := λ s,
  if bool_decide (Z.to_nat dst + length l ≤ length (b_mem s))%nat then Done tt (s <| b_mem := splice (b_mem s) (Z.to_nat dst) l |>) else Fault s.

Section reading.
(** A bound for the reads of the status. *)
Context (polls : nat).

Definition readsect (dst offset : Z) : B unit :=
  waitdisk polls;;
  let data := deliver 1 (u8 offset) (u8 (Z.shiftr offset 8)) (u8 (Z.shiftr offset 16)) (u8 (Z.lor (Z.shiftr offset 24) 224)) in
  waitdisk polls;;
  store dst (take (Z.to_nat SECTSIZE) data).

(** [for(; pa < epa; pa += SECTSIZE, offset++)] *)
Fixpoint readseg_loop (fuel : nat) (pa epa offset : Z) : B unit :=
  if pa <? epa then
    match fuel with
    | O => nofuel
    | S fuel => readsect pa offset;; readseg_loop fuel (u32 (pa + SECTSIZE)) epa (u32 (offset + 1))
    end
  else mret tt.

Definition readseg (pa count offset : Z) : B unit :=
  let epa := u32 (pa + count) in
  let pa := u32 (pa - offset mod SECTSIZE) in
  readseg_loop (Z.to_nat (count / SECTSIZE + 2)) pa epa (offset / SECTSIZE + 1).

(** The 52 bytes of the ELF header, the 32 of a program header. *)
Definition bytes_at (a : Z) (n : nat) : B (list Z) := λ s,
  if bool_decide (Z.to_nat a + n ≤ length (b_mem s))%nat then Done (take n (drop (Z.to_nat a) (b_mem s))) s else Fault s.

Definition zero (dst n : Z) : B unit := λ s,
  match stosb (b_mem s) (Z.to_nat dst) 0 (Z.to_nat n) with Some m => Done tt (s <| b_mem := m |>) | None => Fault s end.

Fixpoint segs_loop (fuel : nat) (ph eph : Z) : B unit :=
  if ph <? eph then
    match fuel with
    | O => nofuel
    | S fuel =>
      h ← bytes_at ph 32;
      let pa := ph_paddr h in
      readseg pa (ph_filesz h) (ph_off h);;
      when (ph_filesz h <? ph_memsz h) (zero (u32 (pa + ph_filesz h)) (ph_memsz h - ph_filesz h));;
      segs_loop fuel (u32 (ph + sizeof_proghdr)) eph
    end
  else mret tt.

(** The address it jumps to, or None when it returns to bootasm.S. *)
Definition bootmain : B (option Z) :=
  readseg elf_base 4096 0;;
  e ← bytes_at elf_base 52;
  if negb (elf_magic e =? ELF_MAGIC) then mret None
  else
    let ph := u32 (elf_base + elf_phoff e) in
    segs_loop (Z.to_nat (elf_phnum e)) ph (u32 (ph + sizeof_proghdr * elf_phnum e));;
    e ← bytes_at elf_base 52;
    mret (Some (elf_entry e)).
End reading.

(** ** What is read *)

Context (sector : Z → list Z) (polls : nat).
(** The disk gets ready within [polls] reads of the status, and delivers the
    sector (of the first disk, by its number) the registers form. *)
Hypothesis ready : ∀ k, ∃ j, (j ≤ polls)%nat ∧ Z.land (status (k + j)) 192 = 64.
Hypothesis delivers : ∀ a b c d, 0 ≤ a < 256 → 0 ≤ b < 256 → 0 ≤ c < 256 → 0 ≤ d < 16 →
  deliver 1 a b c (224 + d) = sector (a + 256 * b + 65536 * c + 16777216 * d).
Hypothesis sectors : ∀ n, length (sector n) = Z.to_nat SECTSIZE.

(** The kernel file starts at sector 1. *)
Definition kbyte (j : Z) : option Z := sector (1 + j / SECTSIZE) !! Z.to_nat (j mod SECTSIZE).

Lemma inb_done m k : inb_status (mkBoot m k) = Done (status k) (mkBoot m (S k)).
Proof. reflexivity. Qed.

Lemma waitdisk_done m k : ∃ k', waitdisk polls (mkBoot m k) = Done tt (mkBoot m k').
Proof.
  destruct (ready k) as (j & Hj & Hs). revert k Hs Hj. generalize polls as p. induction j as [|j IH]; intros p k Hs Hj.
  - rewrite Nat.add_0_r in Hs. exists (S k). destruct p; cbn [waitdisk]; unfold mbind, M_bind; rewrite inb_done; by rewrite Hs.
  - destruct p as [|p]; [lia|]. cbn [waitdisk]. unfold mbind, M_bind. rewrite inb_done. destruct (Z.land (status k) 192 =? 64); [by eexists|].
    destruct (IH p (S k)) as [k' Hk]; [by rewrite <- Hs; f_equal; f_equal; lia|lia|]. exists k'. exact Hk.
Qed.

Lemma drive_bits d : 0 ≤ d < 16 → u8 (Z.lor d 224) = 224 + d.
Proof.
  intros Hd. assert (H : forallb (λ n, u8 (Z.lor (Z.of_nat n) 224) =? 224 + Z.of_nat n) (seq 0 16) = true) by (vm_compute; reflexivity).
  rewrite forallb_forall in H. specialize (H (Z.to_nat d)). rewrite Z2Nat.id in H by lia. apply Z.eqb_eq, H, in_seq. lia.
Qed.

(** The registers form the number of the sector. *)
Lemma registers offset : 0 ≤ offset < 2 ^ 28 →
  deliver 1 (u8 offset) (u8 (Z.shiftr offset 8)) (u8 (Z.shiftr offset 16)) (u8 (Z.lor (Z.shiftr offset 24) 224)) = sector offset.
Proof.
  intros Ho. rewrite !Z.shiftr_div_pow2 by lia. change (2 ^ 8) with 256. change (2 ^ 16) with 65536. change (2 ^ 24) with 16777216. unfold u8.
  assert (Hd : 0 ≤ offset / 16777216 < 16) by (Z.to_euclidean_division_equations; lia). change (Z.lor (offset / 16777216) 224 mod 2 ^ 8) with (u8 (Z.lor (offset / 16777216) 224)).
  rewrite drive_bits by done. rewrite delivers by (done || apply Z.mod_pos_bound; lia). f_equal. change (2 ^ 8) with 256. Z.to_euclidean_division_equations; lia.
Qed.

Lemma readsect_done m k dst offset : 0 ≤ offset < 2 ^ 28 → 0 ≤ dst → dst + SECTSIZE ≤ Z.of_nat (length m) →
  ∃ k', readsect polls dst offset (mkBoot m k) = Done tt (mkBoot (splice m (Z.to_nat dst) (sector offset)) k').
Proof.
  intros Ho Hd Hl. destruct (waitdisk_done m k) as [k1 H1]. destruct (waitdisk_done m k1) as [k2 H2]. exists k2.
  unfold readsect, mbind, M_bind. rewrite H1, H2, registers by done. rewrite take_ge by (by rewrite sectors). unfold store.
  rewrite bool_decide_eq_true_2 by (rewrite sectors; unfold SECTSIZE in *; cbn [b_mem]; lia). done.
Qed.

(** [m'] is [m] with the bytes of the kernel file from [j] on at [a .. b). *)
Definition filled (m m' : list Z) (a b j : Z) : Prop :=
  length m' = length m ∧ ∀ i, 0 ≤ i → m' !! Z.to_nat i = if decide (a ≤ i < b) then kbyte (j + (i - a)) else m !! Z.to_nat i.

Lemma readseg_loop_done n : ∀ fuel m k pa epa q, (n ≤ fuel)%nat → 0 ≤ pa → pa + SECTSIZE * Z.of_nat n ≤ Z.of_nat (length m) → pa + SECTSIZE * Z.of_nat n < 2 ^ 32 →
  pa + SECTSIZE * (Z.of_nat n - 1) < epa ≤ pa + SECTSIZE * Z.of_nat n → 0 ≤ q → q + Z.of_nat n < 2 ^ 28 →
  ∃ m' k', readseg_loop polls fuel pa epa (q + 1) (mkBoot m k) = Done tt (mkBoot m' k') ∧ filled m m' pa (pa + SECTSIZE * Z.of_nat n) (SECTSIZE * q).
Proof.
  induction n as [|n IH]; intros fuel m k pa epa q Hf Hp Hl Hw He Hq Hq2.
  { exists m, k. replace (pa + SECTSIZE * Z.of_nat 0) with pa by lia. split.
    - destruct fuel; cbn [readseg_loop]; by rewrite (proj2 (Z.ltb_ge _ _)) by lia.
    - split; [done|]. intros i Hi. rewrite decide_False by lia. done. }
  destruct fuel as [|fuel]; [lia|]. cbn [readseg_loop]. unfold SECTSIZE in *. rewrite (proj2 (Z.ltb_lt _ _)) by lia. unfold mbind, M_bind.
  destruct (readsect_done m k pa (q + 1)) as [k1 ->]; [lia|lia|unfold SECTSIZE; lia|]. rewrite !u32_small by lia.
  set (m1 := splice m (Z.to_nat pa) (sector (q + 1))).
  assert (Hl1 : length m1 = length m) by (apply length_splice; rewrite sectors; unfold SECTSIZE; lia).
  destruct (IH fuel m1 k1 (pa + 512) epa (q + 1)) as (m' & k' & H' & Hm1 & Hm2); [lia|lia|rewrite Hl1; lia|lia|lia|lia|lia|].
  exists m', k'. split; [exact H'|]. split; [congruence|]. intros i Hi. rewrite Hm2 by done.
  destruct (decide (pa + 512 ≤ i < pa + 512 + 512 * Z.of_nat n)).
  { rewrite decide_True by lia. unfold kbyte. f_equal; [f_equal|f_equal]; unfold SECTSIZE; Z.to_euclidean_division_equations; lia. }
  destruct (decide (pa ≤ i < pa + 512 * Z.of_nat (S n))).
  - unfold m1. rewrite lookup_splice_in by (rewrite sectors; unfold SECTSIZE; lia). unfold kbyte, SECTSIZE.
    replace (512 * q + (i - pa)) with (q * 512 + (i - pa)) by lia. rewrite Z_div_plus_full_l, Z.div_small by lia. rewrite (Z.add_comm (q * 512)), Z_mod_plus_full, Z.mod_small by lia.
    replace (1 + (q + 0)) with (q + 1) by lia. f_equal. lia.
  - unfold m1. apply lookup_splice_out; rewrite sectors; unfold SECTSIZE; lia.
Qed.

(** ** Segments *)

(** The sectors that hold a segment are stored at [seg_start .. seg_stop). *)
Definition seg_start (pa off : Z) : Z := pa - off mod SECTSIZE.
Definition seg_stop (pa count off : Z) : Z := seg_start pa off + SECTSIZE * ((count + off mod SECTSIZE + 511) / SECTSIZE).

Lemma readseg_done m k pa count off : 0 ≤ count → 0 ≤ off → 0 ≤ seg_start pa off → seg_stop pa count off ≤ Z.of_nat (length m) < 2 ^ 32 →
  off / SECTSIZE + (count + off mod SECTSIZE + 511) / SECTSIZE < 2 ^ 28 →
  ∃ m' k', readseg polls pa count off (mkBoot m k) = Done tt (mkBoot m' k') ∧ filled m m' (seg_start pa off) (seg_stop pa count off) (SECTSIZE * (off / SECTSIZE)).
Proof.
  unfold seg_stop, seg_start, readseg, SECTSIZE. intros Hc Ho Hs Hl Hq. pose proof (Z.mod_pos_bound off 512 ltac:(lia)) as Hr.
  set (n := (count + off mod 512 + 511) / 512) in *.
  assert (Hn : 0 ≤ n ∧ 512 * (n - 1) < count + off mod 512 ≤ 512 * n) by (unfold n; Z.to_euclidean_division_equations; lia).
  assert (Hf : n ≤ count / 512 + 2) by (Z.to_euclidean_division_equations; lia).
  rewrite !u32_small by lia. replace n with (Z.of_nat (Z.to_nat n)) in * by lia. pose proof (Z.div_pos off 512 Ho ltac:(lia)).
  apply (readseg_loop_done (Z.to_nat n)); unfold SECTSIZE; lia.
Qed.

Definition seg_ok (size : Z) (h : list Z) : Prop :=
  0 ≤ ph_filesz h ≤ ph_memsz h ∧ 0 ≤ ph_off h ∧ 0 ≤ seg_start (ph_paddr h) (ph_off h) ∧ seg_stop (ph_paddr h) (ph_filesz h) (ph_off h) ≤ size ∧
  ph_paddr h + ph_memsz h ≤ size ∧ ph_off h / SECTSIZE + (ph_filesz h + ph_off h mod SECTSIZE + 511) / SECTSIZE < 2 ^ 28.

Lemma seg_ok_pos size h : seg_ok size h → 0 ≤ ph_paddr h.
Proof. intros (_ & _ & H & _). unfold seg_start in H. pose proof (Z.mod_pos_bound (ph_off h) SECTSIZE eq_refl). lia. Qed.

(** The segment is in memory: its bytes of the file, and zeros. *)
Definition loaded (m : list Z) (h : list Z) : Prop := ∀ i, ph_paddr h ≤ i < ph_paddr h + ph_memsz h →
  m !! Z.to_nat i = if decide (i < ph_paddr h + ph_filesz h) then kbyte (ph_off h + (i - ph_paddr h)) else Some 0.

(** Loading [h] does not write to [a .. b). *)
Definition spares (h : list Z) (a b : Z) : Prop :=
  (seg_stop (ph_paddr h) (ph_filesz h) (ph_off h) ≤ a ∨ b ≤ seg_start (ph_paddr h) (ph_off h)) ∧
  (ph_paddr h + ph_memsz h ≤ a ∨ b ≤ ph_paddr h).

Definition load (h : list Z) : M boot unit :=
  readseg polls (ph_paddr h) (ph_filesz h) (ph_off h);;
  when (ph_filesz h <? ph_memsz h) (zero (u32 (ph_paddr h + ph_filesz h)) (ph_memsz h - ph_filesz h)).

Lemma load_done m k h : seg_ok (Z.of_nat (length m)) h → Z.of_nat (length m) < 2 ^ 32 →
  ∃ m' k', load h (mkBoot m k) = Done tt (mkBoot m' k') ∧ length m' = length m ∧ loaded m' h ∧
    ∀ a b i, spares h a b → 0 ≤ a → a ≤ i < b → m' !! Z.to_nat i = m !! Z.to_nat i.
Proof.
  intros Hok Hl. pose proof (seg_ok_pos _ _ Hok) as Hpa. destruct Hok as (H1 & H2 & H3 & H4 & H5 & H6). destruct (readseg_done m k (ph_paddr h) (ph_filesz h) (ph_off h)) as (m1 & k1 & E1 & L1 & F1); try (lia || done).
  unfold load, mbind, M_bind. rewrite E1. set (pa := ph_paddr h) in *. set (fs := ph_filesz h) in *. set (ms := ph_memsz h) in *. set (off := ph_off h) in *.
  assert (Hin : ∀ i, pa ≤ i < pa + fs → m1 !! Z.to_nat i = kbyte (off + (i - pa))).
  { intros i Hi. rewrite F1 by lia. unfold seg_stop, seg_start, SECTSIZE in *. pose proof (Z.mod_pos_bound off 512 ltac:(lia)). rewrite decide_True.
    - f_equal. Z.to_euclidean_division_equations; lia.
    - Z.to_euclidean_division_equations; lia. }
  destruct (Z.ltb_spec fs ms) as [Hlt|Hge]; cbn [when].
  - unfold zero. cbn [b_mem]. rewrite u32_small by lia. rewrite stosb_splice by lia. do 2 eexists. split; [done|].
    split; [rewrite length_splice; rewrite ?length_replicate; lia|]. split.
    + intros i Hi. fold pa fs ms off in Hi |- *. case_decide.
      * rewrite lookup_splice_out by (rewrite length_replicate; lia). apply Hin. lia.
      * rewrite lookup_splice_in by (rewrite length_replicate; lia). apply lookup_replicate_2. lia.
    + intros a b i [S1 S2] Ha Hi. fold pa fs ms off in S1, S2. rewrite lookup_splice_out by (rewrite length_replicate; lia). rewrite F1 by lia. by rewrite decide_False by lia.
  - exists m1, k1. split; [done|]. split; [done|]. split.
    + intros i Hi. fold pa fs ms off in Hi |- *. rewrite decide_True by lia. apply Hin. lia.
    + intros a b i [S1 S2] Ha Hi. fold pa fs ms off in S1, S2. rewrite F1 by lia. by rewrite decide_False by lia.
Qed.

(** ** The kernel *)

Section kernel.
(** The first page of the kernel file. *)
Context (page : list Z).
Hypothesis page_size : length page = 4096%nat.
Hypothesis page_bytes : ∀ j, 0 ≤ j < 4096 → page !! Z.to_nat j = kbyte j.

(** The program headers. *)
Definition ph_at (i : nat) : list Z := take 32 (drop (Z.to_nat (elf_phoff page) + 32 * i) page).
Definition phs : list (list Z) := ph_at <$> seq 0 (Z.to_nat (elf_phnum page)).

Definition page_in (m : list Z) : Prop := ∀ i, 0 ≤ i < 4096 → m !! Z.to_nat (elf_base + i) = page !! Z.to_nat i.

Lemma bytes_at_page m k a o n : page_in m → a = elf_base + Z.of_nat o → (o + n ≤ 4096)%nat → (69632 ≤ Z.of_nat (length m)) →
  bytes_at a n (mkBoot m k) = Done (take n (drop o page)) (mkBoot m k).
Proof.
  intros Hp -> Ho Hl. unfold bytes_at, elf_base in *. rewrite bool_decide_eq_true_2 by (cbn; lia). f_equal. cbn [b_mem]. apply list_eq. intros i.
  rewrite !lookup_take. case_decide; [|done]. rewrite !lookup_drop. specialize (Hp (Z.of_nat (o + i)) ltac:(lia)). unfold elf_base in Hp.
  replace (Z.to_nat (65536 + Z.of_nat (o + i))) with (Z.to_nat (65536 + Z.of_nat o) + i)%nat in Hp by lia. rewrite Hp. f_equal. lia.
Qed.

(** What the loop needs of the segments: they fit into memory, leave the
    page of headers alone, and none overwrites one that was loaded before. *)
Record loadable (size : Z) (l : list (list Z)) : Prop := {
  ld_fit : Forall (seg_ok size) l;
  ld_page : Forall (λ h, spares h elf_base (elf_base + 4096)) l;
  ld_order : ForallOrdPairs (λ h1 h2, spares h2 (ph_paddr h1) (ph_paddr h1 + ph_memsz h1)) l;
}.

Lemma segs_loop_done n : ∀ i m k, page_in m → 69632 ≤ Z.of_nat (length m) < 2 ^ 32 → 0 ≤ elf_phoff page → elf_phoff page + 32 * Z.of_nat (i + n) ≤ 4096 →
  let l := ph_at <$> seq i n in
  loadable (Z.of_nat (length m)) l →
  ∃ m' k', segs_loop polls n (elf_base + elf_phoff page + 32 * Z.of_nat i) (elf_base + elf_phoff page + 32 * Z.of_nat (i + n)) (mkBoot m k) = Done tt (mkBoot m' k') ∧
    length m' = length m ∧ page_in m' ∧ Forall (loaded m') l ∧
    ∀ a b j, Forall (λ h, spares h a b) l → 0 ≤ a → a ≤ j < b → m' !! Z.to_nat j = m !! Z.to_nat j.
Proof.
  induction n as [|n IH]; intros i m k Hp Hl H0 Hb l Ld.
  { exists m, k. rewrite Nat.add_0_r. cbn [segs_loop]. rewrite Z.ltb_irrefl. split; [done|]. split; [done|]. split; [done|]. split; [constructor|done]. }
  cbn [segs_loop]. rewrite (proj2 (Z.ltb_lt _ _)) by lia. unfold mbind, M_bind.
  rewrite (bytes_at_page m k _ (Z.to_nat (elf_phoff page) + 32 * i) 32) by (done || lia).
  fold (ph_at i). set (h := ph_at i) in *. cbn [seq fmap list_fmap] in l. destruct Ld as [L1 L2 L3]. apply Forall_cons in L1 as [O1 L1]. apply Forall_cons in L2 as [O2 L2].
  inversion L3 as [|? ? O3 L3']; subst. destruct (load_done m k h O1 ltac:(lia)) as (m1 & k1 & E1 & Hl1 & Hld & Hout). unfold load, mbind, M_bind in E1.
  destruct (readseg polls (ph_paddr h) (ph_filesz h) (ph_off h) (mkBoot m k)) as [[] s1| | | |]; try done. rewrite E1.
  assert (Hp1 : page_in m1) by (intros j Hj; rewrite (Hout elf_base (elf_base + 4096)) by (done || (unfold elf_base; lia)); by apply Hp).
  destruct (IH (S i) m1 k1) as (m' & k' & E2 & Hl2 & Hp2 & Hld2 & Hout2); [done|lia|done|lia|by rewrite Hl1; split|]. exists m', k'. split.
  { rewrite u32_small by (unfold elf_base, sizeof_proghdr; lia). replace (i + S n)%nat with (S i + n)%nat by lia.
    replace (elf_base + elf_phoff page + 32 * Z.of_nat i + sizeof_proghdr) with (elf_base + elf_phoff page + 32 * Z.of_nat (S i)) by (unfold sizeof_proghdr; lia). exact E2. }
  split; [congruence|]. split; [done|]. split.
  - constructor; [|done]. intros j Hj. rewrite (Hout2 (ph_paddr h) (ph_paddr h + ph_memsz h)); [by apply Hld|done| |exact Hj].
    exact (seg_ok_pos _ _ O1).
  - intros a b j [Ha Hs]%Forall_cons Ha0 Hj. rewrite (Hout2 a b) by done. by apply (Hout a b).
Qed.

(** The first page is read into the scratch space. *)
Lemma read_page m k : 69632 ≤ Z.of_nat (length m) < 2 ^ 32 →
  ∃ m' k', readseg polls elf_base 4096 0 (mkBoot m k) = Done tt (mkBoot m' k') ∧ length m' = length m ∧ page_in m'.
Proof.
  intros Hl. destruct (readseg_done m k elf_base 4096 0) as (m' & k' & E & L & F).
  1-3: vm_compute; congruence.
  { change (seg_stop elf_base 4096 0) with 69632. lia. }
  { reflexivity. }
  exists m', k'. split; [done|]. split; [done|]. intros i Hi. rewrite F by (unfold elf_base; lia). change (seg_start elf_base 0) with 65536. change (seg_stop elf_base 4096 0) with 69632.
  rewrite decide_True by (unfold elf_base; lia). change (SECTSIZE * (0 / SECTSIZE)) with 0. rewrite page_bytes by done. f_equal. unfold elf_base. lia.
Qed.

Lemma header_of_page : elf_magic (take 52 page) = elf_magic page ∧ elf_phoff (take 52 page) = elf_phoff page ∧ elf_phnum (take 52 page) = elf_phnum page ∧
  elf_entry (take 52 page) = elf_entry page.
Proof.
  unfold elf_magic, elf_phoff, elf_phnum, elf_entry, get_le. rewrite !skipn_firstn_comm, !take_take. done.
Qed.

(** C36: bootmain() loads the kernel: it reads the first page of the kernel
    file, and returns to bootasm.S when that is not an ELF file. Otherwise, when
    the program headers are in that page and the segments fit into memory,
    leave the page alone and do not overwrite each other, even with the rest of
    their first and last sectors, every segment ends up at its physical address
    with its bytes of the file followed by zeros, and bootmain() jumps to the
    entry point. *)
Theorem bootmain_loads_kernel m k : 69632 ≤ Z.of_nat (length m) < 2 ^ 32 →
  0 ≤ elf_phoff page → 0 ≤ elf_phnum page → elf_phoff page + 32 * elf_phnum page ≤ 4096 → loadable (Z.of_nat (length m)) phs →
  wp (bootmain polls) (λ r s',
    if elf_magic page =? ELF_MAGIC then r = Some (elf_entry page) ∧ length (b_mem s') = length m ∧ Forall (loaded (b_mem s')) phs
    else r = None) (mkBoot m k).
Proof.
  intros Hl Ho Hn Hb Ld. destruct (read_page m k Hl) as (m1 & k1 & E1 & L1 & P1). destruct header_of_page as (M1 & M2 & M3 & M4).
  unfold wp, bootmain, mbind, M_bind. rewrite E1. rewrite (bytes_at_page m1 k1 elf_base 0 52) by (done || lia). rewrite drop_0, M1.
  destruct (elf_magic page =? ELF_MAGIC); cbn [negb]; [|done]. rewrite M2, M3. rewrite !u32_small by (unfold elf_base, sizeof_proghdr; lia).
  destruct (segs_loop_done (Z.to_nat (elf_phnum page)) 0 m1 k1) as (m' & k' & E2 & L2 & P2 & F2 & _); [done|lia|done|lia|by rewrite L1|].
  replace (elf_base + elf_phoff page + 32 * Z.of_nat 0) with (elf_base + elf_phoff page) in E2 by lia.
  replace (elf_base + elf_phoff page + 32 * Z.of_nat (0 + Z.to_nat (elf_phnum page))) with (elf_base + elf_phoff page + sizeof_proghdr * elf_phnum page) in E2 by (unfold sizeof_proghdr; lia).
  rewrite E2. rewrite (bytes_at_page m' k' elf_base 0 52) by (done || lia). rewrite drop_0, M4. cbn. split; [done|]. split; [congruence|done].
Qed.
End kernel.
End boot.

(** ** A kernel of two segments *)

Definition word (z : Z) : list Z := le_bytes 4 z.
Definition head0 : list Z := word ELF_MAGIC ++ replicate 20 0 ++ word 1048588 ++ word 52 ++ replicate 12 0 ++ le_bytes 2 2 ++ replicate 6 0.
Definition ph1 : list Z := word 1 ++ word 4096 ++ word 2148532224 ++ word 8192 ++ word 700 ++ word 1000 ++ word 5 ++ word 4096.
Definition ph2 : list Z := word 1 ++ word 5136 ++ word 2148536336 ++ word 12304 ++ word 100 ++ word 100 ++ word 6 ++ word 4096.
Definition page0 : list Z := head0 ++ ph1 ++ ph2 ++ replicate 3980 0.
Definition sector0 (n : Z) : list Z :=
  if bool_decide (1 ≤ n ≤ 8) then take 512 (drop (Z.to_nat (512 * (n - 1))) page0) else replicate 512 (n mod 256).
Definition deliver0 (count a b c d : Z) : list Z := sector0 (a + 256 * b + 65536 * c + 16777216 * (d - 224)).

Lemma page0_size : length page0 = 4096%nat.
Proof. vm_compute. reflexivity. Qed.

Lemma sectors0 n : length (sector0 n) = Z.to_nat SECTSIZE.
Proof.
  unfold sector0. case_bool_decide; [|apply length_replicate]. rewrite length_take, length_drop, page0_size. unfold SECTSIZE. lia.
Qed.

Lemma page0_bytes j : 0 ≤ j < 4096 → page0 !! Z.to_nat j = kbyte sector0 j.
Proof.
  intros Hj. unfold kbyte, sector0, SECTSIZE. assert (1 ≤ 1 + j / 512 ≤ 8) by (Z.to_euclidean_division_equations; lia).
  pose proof (Z.mod_pos_bound j 512 ltac:(lia)). rewrite bool_decide_eq_true_2 by done. rewrite lookup_take, decide_True by lia. rewrite lookup_drop. f_equal.
  Z.to_euclidean_division_equations; lia.
Qed.

#[local] Instance spares_dec h a b : Decision (spares h a b).
Proof. unfold spares. apply _. Defined.
#[local] Instance seg_ok_dec size h : Decision (seg_ok size h).
Proof. unfold seg_ok. apply _. Defined.

Lemma loadable0 : loadable 131072 (phs page0).
Proof.
  change (phs page0) with [ph1; ph2]. split.
  - apply (bool_decide_unpack _). vm_compute. exact I.
  - apply (bool_decide_unpack _). vm_compute. exact I.
  - constructor; [apply (bool_decide_unpack _); vm_compute; exact I|]. repeat constructor.
Qed.

Lemma bootmain_loads_kernel_witness : wp (bootmain (λ _, 64) deliver0 0) (λ r s', r = Some 1048588 ∧ Forall (loaded sector0 (b_mem s')) [ph1; ph2])
  (mkBoot (replicate (Z.to_nat 131072) 0) 0).
Proof.
  eapply wp_mono.
  - apply (bootmain_loads_kernel (λ _, 64) deliver0 sector0 0) with (page := page0).
    + intros k. by exists 0%nat.
    + intros a b c d _ _ _ _. unfold deliver0. f_equal. lia.
    + apply sectors0.
    + apply page0_size.
    + apply page0_bytes.
    + rewrite length_replicate. lia.
    + vm_compute. congruence.
    + vm_compute. congruence.
    + vm_compute. congruence.
    + rewrite length_replicate. apply loadable0.
  - intros r s' H. change (elf_magic page0 =? ELF_MAGIC) with true in H. destruct H as (-> & _ & H). split; [vm_compute; reflexivity|exact H].
Defined.
