(* ===== verification/Ulib.v ===== *)
(** * The library of the user programs (ulib.c, printf.c)

    Strings are the bytes from a pointer to the end of its object, as in
    Str.v. What a program prints is the sequence of the bytes it passes to
    write(), one call each; read() of one byte is an element of the input. *)

From S2P Require Import Prelude Str Digits.

(** ** Strings *)

Fixpoint strcpy (s t : list Z) : option (list Z) :=
  match s, t with
  | _ :: s, c :: t => if c =? 0 then Some (0 :: s) else r ← strcpy s t; Some (c :: r)
  | _, _ => None
  end.

Fixpoint strcmp (p q : list Z) : option Z :=
  match p, q with
  | a :: p, b :: q => if negb (a =? 0) && (a =? b) then strcmp p q else Some (a - b)
  | _, _ => None
  end.

(** memmove() of ulib.c always copies upwards. *)
Definition umemmove (m : list Z) (d s n : nat) : option (list Z) := copy_up m d s n.

(** gets(): the bytes read(0, &c, 1) delivers until it fails; returns what is
    stored in buf. *)
Fixpoint gets_loop (room : nat) (input : list Z) : list Z :=
  match room, input with
  | S room, c :: input => c :: if (c =? 10) || (c =? 13) then [] else gets_loop room input
  | _, _ => []
  end.
Definition ugets (max : Z) (input : list Z) : list Z := gets_loop (Z.to_nat (max - 1)) input ++ [0].

(** ** Numbers *)

Fixpoint skip_spaces (s : list Z) : option (list Z) :=
  match s with [] => None | c :: s' => if c =? 32 then skip_spaces s' else Some s end.

(** [while('0' <= *s && *s <= '9') n = n*b + *s++ - '0';] *)
Fixpoint number_loop (b n : Z) (s : list Z) : option Z :=
  match s with
  | [] => None
  | c :: s => if (48 <=? c) && (c <=? 57) then number_loop b (s32 (n * b + c - 48)) s else Some n
  end.

Definition atog (s : list Z) (b : Z) : option Z :=
  s ← skip_spaces s;
  c ← head s;
  let sign := if c =? 45 then -1 else 1 in
  n ← number_loop b 0 (if (c =? 43) || (c =? 45) then tail s else s);
  Some (s32 (sign * n)).

Definition atoi (s : list Z) : option Z :=
  s ← skip_spaces s;
  c ← head s;
  let sign := if c =? 45 then -1 else 1 in
  n ← number_loop 10 0 (if (c =? 43) || (c =? 45) then tail s else s);
  Some (s32 (sign * n)).

(** ** printf() *)

(** "0123456789ABCDEF" *)
Definition upper_digits : list Z := [48; 49; 50; 51; 52; 53; 54; 55; 56; 57; 65; 66; 67; 68; 69; 70].

(** printint() of printf.c: the bytes it prints. *)
Definition uprintint (xx base : Z) (sgn : bool) : option (list Z) := int_chars upper_digits xx base sgn.

(** The loop of printf(): [perc] is the state after a percent sign. *)
Fixpoint printf (perc : bool) (fmt : list Z) (args : list parg) : option (list Z) :=
  match fmt with
  | [] => None
  | c :: fmt =>
    if c =? 0 then Some []
    else if negb perc then
      if c =? 37 then printf true fmt args
      else r ← printf false fmt args; Some (c :: r)
    else
      '(l, args) ← (if c =? 100 then
                      match args with PInt v :: args => l ← uprintint v 10 true; Some (l, args) | _ => None end
                    else if (c =? 120) || (c =? 112) then
                      match args with PInt v :: args => l ← uprintint v 16 false; Some (l, args) | _ => None end
                    else if c =? 115 then
                      match args with PStr s :: args => Some (default null_str s, args) | _ => None end
                    else if c =? 99 then
                      match args with PInt v :: args => Some ([u8 v], args) | _ => None end
                    else if c =? 37 then Some ([c], args)
                    else Some ([37; c], args));
      r ← printf false fmt args; Some (l ++ r)
  end.

(** ** Strings are compared and copied up to the NUL *)

Lemma strcpy_spec s t : 0 ∈ t → (length (cstr t) < length s)%nat →
  strcpy s t = Some (cstr t ++ 0 :: drop (S (length (cstr t))) s).
Proof.
  revert s. induction t as [|c t IH]; intros s H0 Hs; [by apply not_elem_of_nil in H0|]. simpl in *.
  destruct s as [|x s]; [simpl in Hs; lia|]. destruct (Z.eqb_spec c 0) as [->|Hc]; [done|]. simpl in *.
  rewrite (proj2 (Z.eqb_neq c 0)), IH by (done || set_solver || lia). done.
Qed.

Lemma strcmp_spec p q : Forall (λ c, 0 ≤ c < 256) p → Forall (λ c, 0 ≤ c < 256) q → 0 ∈ p → 0 ∈ q →
  ∃ r, strcmp p q = Some r ∧ -256 < r < 256 ∧ (r = 0 ↔ cstr p = cstr q).
Proof.
  revert q. induction p as [|a p IH]; intros q Hp Hq H0 H0'; [by apply not_elem_of_nil in H0|].
  destruct q as [|b q]; [by apply not_elem_of_nil in H0'|]. apply Forall_cons in Hp as [Ha Hp]. apply Forall_cons in Hq as [Hb Hq]. simpl.
  destruct (Z.eqb_spec a 0) as [->|Ha0]; simpl.
  { eexists. split; [done|]. split; [lia|]. destruct (Z.eqb_spec b 0) as [->|]; [done|]. split; [lia|done]. }
  destruct (Z.eqb_spec a b) as [->|Hab].
  - rewrite (proj2 (Z.eqb_neq b 0)) by done. destruct (IH q) as (r & -> & Hr & Hi); [done|done|set_solver|set_solver|]. exists r.
    split; [done|]. split; [done|]. rewrite Hi. split; [congruence|]. by intros [= ->].
  - eexists. split; [done|]. split; [lia|]. split; [lia|]. destruct (b =? 0); [done|]. intros [= -> _]. lia.
Qed.

(** gets() never stores more than max bytes, and ends with a NUL. *)
Lemma ugets_fits max input : 0 < max → (length (ugets max input) ≤ Z.to_nat max)%nat.
Proof.
  intros Hm. unfold ugets. rewrite length_app. simpl.
  assert (H : ∀ room, (length (gets_loop room input) ≤ room)%nat).
  { induction input as [|c input IH]; intros [|room]; simpl; try lia. destruct (_ || _); simpl; [lia|]. specialize (IH room). lia. }
  specialize (H (Z.to_nat (max - 1))). lia.
Qed.

(** ** atoi() reads what printf() writes *)

Lemma s32_small z : -2 ^ 31 ≤ z < 2 ^ 31 → s32 z = z.
Proof. intros H. unfold s32. rewrite Z.mod_small; lia. Qed.

(** Two numbers with the same low 32 bits are the same int. *)
Lemma s32_eqm a b : a mod 2 ^ 32 = b mod 2 ^ 32 → s32 a = s32 b.
Proof. intros H. unfold s32. by rewrite Zplus_mod, H, <- Zplus_mod. Qed.

Lemma s32_mod z : s32 z mod 2 ^ 32 = z mod 2 ^ 32.
Proof. unfold s32. rewrite Zminus_mod_idemp_l. f_equal. lia. Qed.

Lemma s32_step b v d : s32 (s32 v * b + d) = s32 (v * b + d).
Proof. apply s32_eqm. by rewrite Zplus_mod, (Zmult_mod (s32 v)), s32_mod, <- Zmult_mod, <- Zplus_mod. Qed.

(** The digits of a numeral in base 10, as characters. *)
Lemma shows_char d c : 0 ≤ d < 10 → upper_digits !! Z.to_nat d = Some c → c = 48 + d.
Proof.
  intros Hd Hc. assert (Hcases : d = 0 ∨ d = 1 ∨ d = 2 ∨ d = 3 ∨ d = 4 ∨ d = 5 ∨ d = 6 ∨ d = 7 ∨ d = 8 ∨ d = 9) by lia.
  repeat (destruct Hcases as [->|Hcases]; [by injection Hc as <-|]). subst d. by injection Hc as <-.
Qed.

Lemma number_loop_spec b ds l v rest : Forall (λ d, 0 ≤ d < 10) ds → shows upper_digits ds l →
  number_loop b (s32 v) (l ++ 0 :: rest) = Some (s32 (foldl (λ v d, v * b + d) v ds)).
Proof.
  intros Hds Hl. revert v Hds. induction Hl as [|d c ds l Hc Hl IH]; intros v Hds; simpl; [done|].
  apply Forall_cons in Hds as [Hd Hds]. rewrite (shows_char d c Hd Hc). rewrite (proj2 (Z.leb_le _ _)), (proj2 (Z.leb_le _ _)) by lia. simpl.
  replace (s32 v * b + (48 + d) - 48) with (s32 v * b + d) by lia. rewrite s32_step. by apply IH.
Qed.

(** A numeral starts with a digit, which is no space and no sign. *)
Lemma shows_first ds l : shows upper_digits ds l → numeral 10 ds → ∃ c l', l = c :: l' ∧ 48 ≤ c ≤ 57.
Proof.
  intros Hl (Hd & Hne & _). destruct Hl as [|d c ds l Hc Hl]; [done|]. exists c, l. split; [done|].
  apply Forall_cons in Hd as [Hd _]. rewrite (shows_char d c Hd Hc). lia.
Qed.

(** Printing an int and reading it back gives the int, for every int:
    printint() of printf.c with the base 10 and a sign needs no more than its
    16 characters, and atoi() of what it printed is the number, the smallest
    one included, whose negation is not an int. *)
Theorem printint_atoi (xx : Z) (rest : list Z) : -2 ^ 31 ≤ xx < 2 ^ 31 →
  ∃ l, uprintint xx 10 true = Some l ∧ atoi (l ++ 0 :: rest) = Some xx.
Proof.
  intros Hx. destruct (int_chars_spec upper_digits 10 9 xx true) as (ds & l & H1 & H2 & H3 & H4); [simpl; lia|simpl; lia|lia|lia|].
  destruct (shows_first ds l H2 H3) as (c & l' & -> & Hc). cbn [andb] in H1, H4. unfold uprintint. rewrite H1. eexists. split; [done|].
  pose proof (number_loop_spec 10 ds (c :: l') 0 rest (proj1 H3) H2) as Hn. change (s32 0) with 0 in Hn. unfold val in H4. rewrite H4 in Hn. cbn [app] in Hn.
  unfold atoi. destruct (Z.ltb_spec xx 0) as [Hneg|Hpos]; cbn [app skip_spaces Z.eqb Pos.eqb head mbind option_bind orb tail].
  - rewrite Hn. cbn [mbind option_bind]. f_equal. transitivity (s32 xx); [|by apply s32_small]. apply s32_eqm.
    rewrite Zmult_mod, s32_mod, <- Zmult_mod. f_equal. lia.
  - rewrite (proj2 (Z.eqb_neq c 32)) by lia. cbn [head mbind option_bind orb].
    rewrite (proj2 (Z.eqb_neq c 45)), (proj2 (Z.eqb_neq c 43)) by lia. cbn [orb]. rewrite Hn. cbn [mbind option_bind]. f_equal.
    rewrite Z.mul_1_l, u32_small by lia. rewrite !s32_small; [done|lia|]. by rewrite s32_small.
Qed.

Lemma printint_atoi_witness : ∃ l, uprintint (-2147483648) 10 true = Some l ∧ atoi (l ++ [0]) = Some (-2147483648).
Proof. apply (printint_atoi (-2147483648) []). lia. Defined.

(** ** Texts of formats *)

(** A number in decimal. *)
Definition num (v : Z) : list Z := default [] (uprintint v 10 true).

Lemma num_int v : -2 ^ 31 ≤ v < 2 ^ 32 → uprintint v 10 true = Some (num v).
Proof.
  intros Hv. unfold num, uprintint. by destruct (int_chars_spec upper_digits 10 9 v true ltac:(simpl; lia) ltac:(lia) ltac:(lia) Hv) as (ds & l & -> & _).
Qed.

(** The text of printf() with a literal format. *)
Ltac printf_eval := lazy beta iota zeta delta [printf negb orb Z.eqb Pos.eqb fmap option_fmap option_map mbind option_bind].
Ltac printf_text := literals; printf_eval; rewrite ?num_int by (first [apply s32_int|lia]); printf_eval; cbn [app default from_option]; rewrite ?app_nil_r; repeat (rewrite <- app_assoc; cbn [app]); reflexivity.
