(* ===== verification/Programs.v ===== *)
(** * User programs (wc.c, cat.c, echo.c, rm.c, mkdir.c, ln.c, kill.c, chmod.c, chown.c, chgrp.c, ls.c, print_mode.c, ps.c, date.c)

    A program is a function of its arguments and of what the system calls
    answer. What open() and read() answer for a path is a parameter: the
    results of the successive calls of read() on it. A call that changes the
    system acts on a state [S] that is a parameter too. Arguments are the
    bytes of the strings, without the NUL. The listings and date come last. *)

From S2P Require Import Prelude Str Digits Cmos Ulib.

(** What the calls of read() on a descriptor return: bytes, or -1. *)
Definition reads : Type := list (option (list Z)).

(** A literal format. *)
Definition fmt (s : string) (tail : list Z) : list Z := text s ++ tail ++ [0].

(** ** wc *)

(** [strchr(" \r\t\n\v", c)], which does not find the NUL. *)
Definition blank (c : Z) : bool := bool_decide (c ∈ [32; 13; 9; 10; 11]).

Record counts : Type := mkCounts { n_l : Z; n_w : Z; n_c : Z; n_inword : bool }.

(** The body of the inner loop. *)
Definition count_byte (k : counts) (b : Z) : counts :=
  let 'mkCounts l w c inword := k in
  let c := s32 (c + 1) in
  let l := if b =? 10 then s32 (l + 1) else l in
  if blank b then mkCounts l w c false
  else if negb inword then mkCounts l (s32 (w + 1)) c true
  else mkCounts l w c inword.

(** The loop over the calls of read(); None after an error. *)
Fixpoint wc_loop (r : reads) (k : counts) : option counts :=
  match r with
  | [] => Some k
  | None :: _ => None
  | Some buf :: r => if bool_decide (buf = []) then Some k else wc_loop r (foldl count_byte k buf)
  end.

(** wc(): what is printed, and whether it returns. *)
Definition wc (r : reads) (name : list Z) : option (list Z * bool) :=
  match wc_loop r (mkCounts 0 0 0 false) with
  | None => t ← printf false (fmt "wc: read error" nl) []; Some (t, false)
  | Some k => t ← printf false (fmt "%d %d %d %s" nl) [PInt (n_l k); PInt (n_w k); PInt (n_c k); PStr (Some name)]; Some (t, true)
  end.

(** ** cat *)

Fixpoint cat (r : reads) : option (list Z * bool) :=
  match r with
  | [] => Some ([], true)
  | None :: _ => t ← printf false (fmt "cat: read error" nl) []; Some (t, false)
  | Some buf :: r => if bool_decide (buf = []) then Some ([], true) else o ← cat r; Some (buf ++ o.1, o.2)
  end.

(** ** main() of wc and of cat *)

Section files.
(** open() of a path for reading, and what descriptor 0 delivers. *)
Context (files : list Z → option reads) (stdin : reads).

(** The loop over the arguments; [f] is the call for an open file. *)
Fixpoint each_file (prog : string) (f : reads → list Z → option (list Z * bool)) (args : list (list Z)) : option (list Z) :=
  match args with
  | [] => Some []
  | a :: args =>
    match files a with
    | None => printf false (text prog ++ fmt ": cannot open %s" nl) [PStr (Some a)]
    | Some r => o ← f r a; if (o.2 : bool) then t ← each_file prog f args; Some (o.1 ++ t) else Some o.1
    end
  end.

Definition wc_main (args : list (list Z)) : option (list Z) :=
  if bool_decide (args = []) then o ← wc stdin []; Some o.1 else each_file "wc" wc args.

Definition cat_main (args : list (list Z)) : option (list Z) :=
  if bool_decide (args = []) then o ← cat stdin; Some o.1 else each_file "cat" (λ r _, cat r) args.
End files.

(** ** echo *)

Fixpoint echo_main (args : list (list Z)) : option (list Z) :=
  match args with
  | [] => Some []
  | a :: args =>
    t ← printf false (fmt "%s%s" []) [PStr (Some a); PStr (Some (if bool_decide (args = []) then nl else text " "))];
    o ← echo_main args; Some (t ++ o)
  end.

(** ** Programs that call the kernel for each argument *)

Section calls.
Context {S : Type} (unlink mkdir : list Z → S → Z * S) (link : list Z → list Z → S → Z * S) (kill : Z → S → Z * S)
  (chmod chown chgrp : list Z → Z → S → Z * S).

(** The loop of rm and mkdir: the state, and the text on descriptor 2. *)
Fixpoint call_each (call : list Z → S → Z * S) (prog failed : string) (args : list (list Z)) (s : S) : option (S * list Z) :=
  match args with
  | [] => Some (s, [])
  | a :: args =>
    let '(r, s) := call a s in
    if r <? 0 then t ← printf false (text prog ++ fmt failed nl) [PStr (Some a)]; Some (s, t)
    else call_each call prog failed args s
  end.

Definition rm_main (args : list (list Z)) (s : S) : option (S * list Z) :=
  if bool_decide (args = []) then t ← printf false (fmt "Usage: rm files..." nl) []; Some (s, t)
  else call_each unlink "rm" ": %s failed to delete" args s.

Definition mkdir_main (args : list (list Z)) (s : S) : option (S * list Z) :=
  if bool_decide (args = []) then t ← printf false (fmt "Usage: mkdir files..." nl) []; Some (s, t)
  else call_each mkdir "mkdir" ": %s failed to create" args s.

Definition ln_main (args : list (list Z)) (s : S) : option (S * list Z) :=
  match args with
  | [old; new] =>
    let '(r, s) := link old new s in
    if r <? 0 then t ← printf false (fmt "link %s %s: failed" nl) [PStr (Some old); PStr (Some new)]; Some (s, t) else Some (s, [])
  | _ => t ← printf false (fmt "Usage: ln old new" nl) []; Some (s, t)
  end.

Fixpoint kill_each (args : list (list Z)) (s : S) : option S :=
  match args with
  | [] => Some s
  | a :: args => pid ← atoi (a ++ [0]); kill_each args (kill pid s).2
  end.
Definition kill_main (args : list (list Z)) (s : S) : option (S * list Z) :=
  if bool_decide (args = []) then t ← printf false (fmt "usage: kill pid..." nl) []; Some (s, t)
  else s ← kill_each args s; Some (s, []).

(** main() of chmod, chown and chgrp: the number read by [num] and the path. *)
Definition change_main (number : list Z → option Z) (call : list Z → Z → S → Z * S) (usage failed : string) (args : list (list Z)) (s : S) : option (S * list Z) :=
  match args with
  | [n; path] =>
    v ← number (n ++ [0]);
    let '(r, s) := call path v s in
    if r <? 0 then t ← printf false (fmt failed nl) []; Some (s, t) else Some (s, [])
  | _ => t ← printf false (fmt usage nl) []; Some (s, t)
  end.
Definition chmod_main := change_main (λ n, atog n 8) chmod "Error: chmod usage: chmod mode path!" "Error: chmod failed.".
Definition chown_main := change_main atoi chown "Error: chown usage: chown uid path!" "Error: chown failed.".
Definition chgrp_main := change_main atoi chgrp "Error: chgrp usage: chgrp gid path!" "Error: chgrp failed.".
End calls.

(** ** What the user programs print

    wc counts the lines, the words and the bytes of its files, however read()
    cuts them; cat copies them; echo prints its arguments; rm and mkdir stop at
    the first failure. *)

(** The calls of read() deliver the contents in pieces of at most 512 bytes,
    and then the end of the file. *)
Definition delivers (r : reads) (content : list Z) : Prop :=
  ∃ chunks, r = (Some <$> chunks) ++ [Some []] ∧ concat chunks = content ∧ Forall (λ c, 0 < length c ≤ 512)%nat chunks.

(** ** wc *)

(** [splits l ws]: the words of [l], the maximal runs of bytes that are not
    blank. *)
Inductive splits : list Z → list (list Z) → Prop :=
| splits_nil g : Forall (λ b, blank b = true) g → splits g []
| splits_word g w rest ws : Forall (λ b, blank b = true) g → w ≠ [] → Forall (λ b, blank b = false) w →
    (∀ b, head rest = Some b → blank b = true) → splits rest ws → splits (g ++ w ++ rest) (w :: ws).

(** Every text has words. *)
Lemma splits_exist l : ∃ ws, splits l ws.
Proof.
  induction l as [|b l [ws IH]]; [exists []; by constructor|]. destruct (blank b) eqn:Eb.
  { exists ws. destruct IH as [g Hg|g w rest ws Hg Hw Hwb Hr Hs]; [constructor; by constructor|]. apply (splits_word (b :: g)); [by constructor|done..]. }
  assert (Hone : (∀ c, head l = Some c → blank c = true) → splits (b :: l) ([b] :: ws)) by (intros Hl; apply (splits_word [] [b] l); [done|done|by constructor|done|done]).
  destruct (head l) as [c|] eqn:El; [|by exists ([b] :: ws); apply Hone]. destruct (blank c) eqn:Ec; [exists ([b] :: ws); apply Hone; congruence|].
  destruct IH as [g Hg|g w rest ws Hg Hw Hwb Hr Hs].
  - destruct g as [|d g]; [done|]. apply Forall_cons in Hg as [Hd _]. injection El as ->. congruence.
  - destruct g as [|d g]; [|apply Forall_cons in Hg as [Hd _]; injection El as ->; congruence]. exists ((b :: w) :: ws).
    apply (splits_word [] (b :: w) rest); [done|done|by constructor|done|done].
Qed.

(** The words that begin in [l], after a byte of a word or not. *)
Fixpoint starts (inword : bool) (l : list Z) : nat :=
  match l with
  | [] => 0
  | b :: l => if blank b then starts false l else (if inword then 0 else 1) + starts true l
  end.
Definition newlines (l : list Z) : nat := length (filter (λ b, b = 10) l).

Lemma starts_blank i g rest : Forall (λ b, blank b = true) g → g ≠ [] ∨ i = false → starts i (g ++ rest) = starts false rest.
Proof.
  intros Hg. revert i. induction Hg as [|b g Hb Hg IH]; intros i Hi; cbn; [by destruct Hi as [| ->]|]. rewrite Hb. apply IH. by right.
Qed.
Lemma starts_in w rest : Forall (λ b, blank b = false) w → starts true (w ++ rest) = starts true rest.
Proof. induction 1 as [|b w Hb Hw IH]; cbn; [done|]. by rewrite Hb. Qed.

Lemma splits_starts l ws : splits l ws → starts false l = length ws.
Proof.
  induction 1 as [g Hg|g w rest ws Hg Hw Hwb Hr Hs IH].
  - rewrite <- (app_nil_r g). rewrite starts_blank by (done || by right). done.
  - rewrite starts_blank by (done || by right). destruct w as [|b w]; [done|]. apply Forall_cons in Hwb as [Hb Hwb]. cbn. rewrite Hb, starts_in by done. cbn. f_equal.
    rewrite <- IH. destruct rest as [|c rest]; [done|]. cbn. by rewrite (Hr c eq_refl).
Qed.

Lemma foldl_count l : ∀ a b c i, 0 ≤ a → 0 ≤ b → 0 ≤ c → a + Z.of_nat (length l) < 2 ^ 31 → b + Z.of_nat (length l) < 2 ^ 31 → c + Z.of_nat (length l) < 2 ^ 31 →
  ∃ i', foldl count_byte (mkCounts a b c i) l = mkCounts (a + Z.of_nat (newlines l)) (b + Z.of_nat (starts i l)) (c + Z.of_nat (length l)) i'.
Proof.
  induction l as [|x l IH]; intros a b c i Ha Hb Hc La Lb Lc; cbn [foldl length] in *.
  { exists i. cbn. by rewrite !Z.add_0_r. }
  set (a' := if x =? 10 then a + 1 else a). set (b' := if blank x then b else if i then b else b + 1).
  assert (E : count_byte (mkCounts a b c i) x = mkCounts a' b' (c + 1) (negb (blank x))).
  { unfold count_byte, a', b'. rewrite !s32_small by lia. by destruct (blank x), i, (x =? 10). }
  rewrite E. destruct (IH a' b' (c + 1) (negb (blank x))) as [i' ->]; unfold a', b'; try (destruct (x =? 10), (blank x), i; lia).
  exists i'. unfold newlines. rewrite filter_cons. cbn [starts]. f_equal; [| |lia].
  - destruct (Z.eqb_spec x 10); [rewrite decide_True by done; cbn [length]; lia|by rewrite decide_False].
  - destruct (blank x), i; cbn [negb]; lia.
Qed.

Lemma wc_loop_content r content k : delivers r content → wc_loop r k = Some (foldl count_byte k content).
Proof.
  intros (chunks & -> & <- & Hc). revert k. induction Hc as [|c chunks Hl Hc IH]; intros k; [done|].
  cbn [fmap list_fmap app wc_loop concat]. rewrite bool_decide_eq_false_2 by (intros ->; cbn in Hl; lia). by rewrite foldl_app, IH.
Qed.

(** What wc prints for a file. *)
Definition wc_line (name content : list Z) (ws : list (list Z)) : list Z :=
  num (Z.of_nat (newlines content)) ++ text " " ++ num (Z.of_nat (length ws)) ++ text " " ++ num (Z.of_nat (length content)) ++ text " " ++ name ++ nl.

Lemma starts_length i l : (starts i l ≤ length l)%nat.
Proof. revert i. induction l as [|b l IH]; intros i; cbn; [lia|]. destruct (blank b), i; [specialize (IH false)|specialize (IH false)|specialize (IH true)|specialize (IH true)]; lia. Qed.

Lemma wc_prints r name content ws : delivers r content → Z.of_nat (length content) < 2 ^ 31 → splits content ws → wc r name = Some (wc_line name content ws, true).
Proof.
  intros Hr Hl Hs. unfold wc. rewrite (wc_loop_content _ _ _ Hr). destruct (foldl_count content 0 0 0 false) as [i ->]; try lia. rewrite (splits_starts _ _ Hs). cbn [n_l n_w n_c].
  rewrite !Z.add_0_l. pose proof (starts_length false content) as Hw. rewrite (splits_starts _ _ Hs) in Hw.
  assert (Hn : (newlines content ≤ length content)%nat) by (apply length_filter). unfold wc_line, fmt.
  printf_text.
Qed.

(** C39: However read() cuts the files, wc prints for each its number of
    newlines, of words (the maximal runs of bytes that are not blank) and of
    bytes, and its name, up to the first file that cannot be opened, which it
    reports. *)
Theorem wc_counts files stdin (args : list (list Z * list Z * list (list Z))) bad rest :
  Forall (λ p, ∃ r, files p.1.1 = Some r ∧ delivers r p.1.2 ∧ Z.of_nat (length p.1.2) < 2 ^ 31 ∧ splits p.1.2 p.2) args → args ≠ [] →
  wc_main files stdin (args.*1.*1) = Some (concat ((λ p, wc_line p.1.1 p.1.2 p.2) <$> args)) ∧
  (files bad = None → wc_main files stdin (args.*1.*1 ++ bad :: rest) = Some (concat ((λ p, wc_line p.1.1 p.1.2 p.2) <$> args) ++ text "wc: cannot open " ++ bad ++ nl)).
Proof.
  intros Ha Hne. unfold wc_main. rewrite !bool_decide_eq_false_2 by (destruct args; done). clear Hne.
  induction Ha as [|[[name content] ws] args (r & Hf & Hr & Hl & Hs) Ha [IH1 IH2]]; cbn [fmap list_fmap fst snd app each_file concat].
  - split; [done|]. intros ->. unfold fmt. printf_text.
  - cbn [fst snd] in Hf, Hr, Hl, Hs. rewrite Hf, (wc_prints r name content ws Hr Hl Hs). cbn [mbind option_bind fst snd]. rewrite IH1. split; [done|]. intros Hb. rewrite IH2 by done. cbn [mbind option_bind]. by rewrite <- app_assoc.
Qed.

(** ** cat and echo *)

Lemma cat_content r content : delivers r content → cat r = Some (content, true).
Proof.
  intros (chunks & -> & <- & Hc). induction Hc as [|c chunks Hl Hc IH]; [done|].
  cbn [fmap list_fmap app cat concat]. rewrite bool_decide_eq_false_2 by (intros ->; cbn in Hl; lia). by rewrite IH.
Qed.

(** cat prints the contents of its files, up to the first one that cannot be
    opened. *)
Theorem cat_copies files stdin (args : list (list Z * list Z)) bad rest :
  Forall (λ p, ∃ r, files p.1 = Some r ∧ delivers r p.2) args → args ≠ [] →
  cat_main files stdin (args.*1) = Some (concat (args.*2)) ∧
  (files bad = None → cat_main files stdin (args.*1 ++ bad :: rest) = Some (concat (args.*2) ++ text "cat: cannot open " ++ bad ++ nl)).
Proof.
  intros Ha Hne. unfold cat_main. rewrite !bool_decide_eq_false_2 by (destruct args; done). clear Hne.
  induction Ha as [|[name content] args (r & Hf & Hr) Ha [IH1 IH2]]; cbn [fmap list_fmap fst snd app each_file concat].
  - split; [done|]. intros ->. unfold fmt. printf_text.
  - cbn [fst snd] in Hf, Hr. rewrite Hf, (cat_content r content Hr). cbn [mbind option_bind fst snd]. rewrite IH1. split; [done|]. intros Hb. rewrite IH2 by done.
    cbn [mbind option_bind]. by rewrite <- app_assoc.
Qed.

(** The arguments with a blank between them. *)
Fixpoint spaced (l : list (list Z)) : list Z :=
  match l with
  | [] => []
  | [x] => x ++ nl
  | x :: l => x ++ text " " ++ spaced l
  end.

Theorem echo_prints args : echo_main args = Some (spaced args).
Proof.
  induction args as [|a args IH]; [done|]. cbn [echo_main]. rewrite IH.
  assert (Hp : ∀ s, printf false (fmt "%s%s" []) [PStr (Some a); PStr (Some s)] = Some (a ++ s)) by (intros s; unfold fmt; printf_text).
  rewrite Hp. cbn [mbind option_bind]. destruct args as [|b args]; [by cbn; rewrite app_nil_r|]. cbn [spaced]. rewrite bool_decide_eq_false_2 by done. by rewrite <- app_assoc.
Qed.

(** ** rm and mkdir *)

Section each.
Context {S : Type} (call : list Z → S → Z * S).

(** The calls for [args] succeed and lead from [s] to [s']. *)
Inductive succeed : list (list Z) → S → S → Prop :=
| succeed_nil s : succeed [] s s
| succeed_cons a args r s s1 s2 : call a s = (r, s1) → 0 ≤ r → succeed args s1 s2 → succeed (a :: args) s s2.

(** The loop of rm and mkdir makes the calls in the order of the arguments and
    stops at the first that fails. *)
Lemma call_each_all prog failed args s s' : succeed args s s' → call_each call prog failed args s = Some (s', []).
Proof. induction 1 as [|a args r s s1 s2 Hc Hr Hs IH]; cbn; [done|]. rewrite Hc, (proj2 (Z.ltb_ge _ _)) by lia. exact IH. Qed.

Lemma call_each_stops prog failed args bad rest s s1 s2 r t : succeed args s s1 → call bad s1 = (r, s2) → r < 0 →
  printf false (text prog ++ fmt failed nl) [PStr (Some bad)] = Some t → call_each call prog failed (args ++ bad :: rest) s = Some (s2, t).
Proof.
  intros H Hb Hr Ht. induction H as [s|a args r' s s' s3 Hc Hr' Hs IH]; cbn.
  - rewrite Hb, (proj2 (Z.ltb_lt _ _)) by lia. by rewrite Ht.
  - rewrite Hc, (proj2 (Z.ltb_ge _ _)) by lia. by apply IH.
Qed.

(** rm removes its arguments up to the first that it cannot remove. *)
Theorem rm_removes args bad rest s s1 s2 r : succeed args s s1 →
  (args ≠ [] → rm_main call args s = Some (s1, [])) ∧
  (call bad s1 = (r, s2) → r < 0 → rm_main call (args ++ bad :: rest) s = Some (s2, text "rm: " ++ bad ++ text " failed to delete" ++ nl)).
Proof.
  intros H. unfold rm_main. split; intros H1.
  - rewrite bool_decide_eq_false_2 by done. by apply call_each_all.
  - intros Hr. rewrite bool_decide_eq_false_2 by (destruct args; done). eapply call_each_stops; [exact H|exact H1|exact Hr|]. unfold fmt. printf_text.
Qed.
End each.

(** ** Instances *)

Definition files0 (path : list Z) : option reads :=
  if bool_decide (path = text "a") then Some [Some (text "one tw"); Some (text "o" ++ nl ++ tab ++ text "three" ++ nl); Some []] else None.

Lemma wc_counts_witness : wc_main files0 [] [text "a"; text "b"] = Some (text "2 3 15 a" ++ nl ++ text "wc: cannot open b" ++ nl).
Proof.
  assert (H : Forall (λ p : list Z * list Z * list (list Z), ∃ r, files0 p.1.1 = Some r ∧ delivers r p.1.2 ∧ Z.of_nat (length p.1.2) < 2 ^ 31 ∧ splits p.1.2 p.2)
    [(text "a", text "one two" ++ nl ++ tab ++ text "three" ++ nl, [text "one"; text "two"; text "three"])]).
  { constructor; [|done]. cbn [fst snd]. eexists. split; [reflexivity|]. split; [|split; [vm_compute; reflexivity|]].
    - exists [text "one tw"; text "o" ++ nl ++ tab ++ text "three" ++ nl]. split; [reflexivity|]. split; [reflexivity|]. repeat constructor; cbn; lia.
    - apply (splits_word [] (text "one") (text " two" ++ nl ++ tab ++ text "three" ++ nl)); [done|done|repeat constructor|by intros ? [= <-]|].
      apply (splits_word (text " ") (text "two") (nl ++ tab ++ text "three" ++ nl)); [repeat constructor|done|repeat constructor|by intros ? [= <-]|].
      apply (splits_word (nl ++ tab) (text "three") nl); [repeat constructor|done|repeat constructor|by intros ? [= <-]|]. repeat constructor. }
  exact (proj2 (wc_counts files0 [] _ (text "b") [] H ltac:(done)) eq_refl).
Defined.

(** ** Listings by user programs (ls.c, print_mode.c, ps.c)

    What open(), fstat(), read() and stat() answer to ls is a parameter, and
    so is the table that getprocs() fills for ps. *)

Definition slash : Z := 47.
Definition NAMELEN : nat := 14.          (* DIRSIZ *)

Record stat : Type := mkStat { st_type : Z; st_ino : Z; st_size : Z; st_uid : Z; st_gid : Z; st_mode : Z }.

(** ** print_mode() *)

Definition flag (mode i : Z) (c : string) : list Z := if Z.testbit mode i then text c else text "-".

Definition print_mode (st : stat) : list Z :=
  let m := st_mode st in
  (if st_type st =? 1 then text "d" else if st_type st =? 2 then text "-" else if st_type st =? 3 then text "c" else text "?") ++
  flag m 8 "r" ++ flag m 7 "w" ++
  (if Z.testbit m 6 && Z.testbit m 9 then text "S" else if Z.testbit m 6 then text "x" else text "-") ++
  flag m 5 "r" ++ flag m 4 "w" ++ flag m 3 "x" ++
  flag m 2 "r" ++ flag m 1 "w" ++ flag m 0 "x".

(** ** fmtname() *)

(** [for(p=path+n; p >= path && *p != '/'; p--); p++;], as an index. *)
Fixpoint after_slash (path : list Z) (n : nat) : nat :=
  if bool_decide (path !! n = Some slash) then S n
  else match n with O => O | S n => after_slash path n end.

(** The string it returns, and the static buffer of DIRSIZ+1 bytes. *)
Definition fmtname (path buf : list Z) : option (list Z * list Z) :=
  len ← strlen path;
  let p := drop (after_slash path (Z.to_nat len)) path in
  n ← strlen p;
  if Z.of_nat NAMELEN <=? n then Some (cstr p, buf)
  else
    let buf := splice buf 0 (take (Z.to_nat n) p) in
    let buf := splice buf (Z.to_nat n) (replicate (NAMELEN - Z.to_nat n) 32) in
    Some (cstr buf, buf).

(** ** ls() *)

Section ls.
(** A directory entry is its inode number and its field of DIRSIZ bytes. *)
Context (opens : list Z → bool) (fstat stat_of : list Z → option stat) (dirents : list Z → list (Z * list Z)).

Definition printheader : list Z := text "mode" ++ tab ++ tab ++ text "name" ++ tab ++ tab ++ text "uid" ++ tab ++ text "gid" ++ tab ++ text "inode" ++ tab ++ text "size" ++ nl.

(** print_mode() and the line behind it. *)
Definition print_entry (path : list Z) (st : stat) (buf : list Z) : option (list Z * list Z) :=
  nm ← fmtname (path ++ [0]) buf;
  t ← printf false (tab ++ text "%s" ++ tab ++ text "%d" ++ tab ++ text "%d" ++ tab ++ text "%d" ++ tab ++ fmt "%d" nl)
    [PStr (Some nm.1); PInt (s32 (st_uid st)); PInt (s32 (st_gid st)); PInt (s32 (st_ino st)); PInt (s32 (st_size st))];
  Some (print_mode st ++ t, nm.2).

(** The loop over the entries of a directory. *)
Fixpoint ls_dir (path : list Z) (l : list (Z * list Z)) (buf : list Z) : option (list Z * list Z) :=
  match l with
  | [] => Some ([], buf)
  | (inum, name) :: l =>
    if inum =? 0 then ls_dir path l buf
    else
      let full := path ++ [slash] ++ cstr (take NAMELEN name ++ [0]) in
      o ← (match stat_of full with
           | None => t ← printf false (fmt "ls: cannot stat %s" nl) [PStr (Some full)]; Some (t, buf)
           | Some st => print_entry full st buf
           end);
      r ← ls_dir path l o.2;
      Some (o.1 ++ r.1, r.2)
  end.

(** The text on the descriptors 1 and 2. *)
Definition ls (path buf : list Z) : option (list Z * list Z * list Z) :=
  if negb (opens path) then t ← printf false (fmt "ls: cannot open %s" nl) [PStr (Some path)]; Some ([], t, buf)
  else
    match fstat path with
    | None => t ← printf false (fmt "ls: cannot stat %s" nl) [PStr (Some path)]; Some ([], t, buf)
    | Some st =>
      o ← (if st_type st =? 2 then print_entry path st buf
           else if st_type st =? 1 then
             if (512 <? length path + 1 + NAMELEN + 1)%nat then t ← printf false (fmt "ls: path too long" nl) []; Some (t, buf)
             else ls_dir path (dirents path) buf
           else Some ([], buf));
      Some (printheader ++ o.1, [], o.2)
    end.

(** main(): the texts on the descriptors 1 and 2. *)
Fixpoint ls_each (paths : list (list Z)) (buf : list Z) : option (list Z * list Z) :=
  match paths with
  | [] => Some ([], [])
  | p :: paths => o ← ls p buf; r ← ls_each paths o.2; Some (o.1.1 ++ r.1, o.1.2 ++ r.2)
  end.
Definition ls_main (args : list (list Z)) : option (list Z * list Z) :=
  ls_each (if bool_decide (args = []) then [text "."] else args) (replicate (S NAMELEN) 0).
End ls.

(** ** ps *)

Record uproc : Type := mkUproc {
  up_pid : Z; up_uid : Z; up_gid : Z; up_ppid : Z; up_prio : Z; up_elapsed : Z; up_cpu : Z; up_state : list Z; up_size : Z; up_name : list Z }.

Definition printtime (time : Z) : option (list Z) :=
  let q := time / 1000 in let r := time mod 1000 in
  if (r <? 100) && (9 <? r) then printf false (text "%d.0%d" ++ tab ++ [0]) [PInt q; PInt r]
  else if r <? 10 then printf false (text "%d.00%d" ++ tab ++ [0]) [PInt q; PInt r]
  else printf false (text "%d.%d" ++ tab ++ [0]) [PInt q; PInt r].

Definition print_row (u : uproc) : option (list Z) :=
  t1 ← printf false (text "%d" ++ tab ++ [0]) [PInt (s32 (up_pid u))];
  t2 ← (if Z.of_nat (length (up_name u)) <? 7 then printf false (text "%s" ++ tab ++ tab ++ [0]) [PStr (Some (up_name u))]
        else printf false (text "%s" ++ tab ++ [0]) [PStr (Some (up_name u))]);
  t3 ← printf false (text "%d" ++ tab ++ text "%d" ++ tab ++ text "%d" ++ tab ++ [0]) [PInt (s32 (up_uid u)); PInt (s32 (up_gid u)); PInt (s32 (up_ppid u))];
  t4 ← printf false (text "%d" ++ tab ++ [0]) [PInt (s32 (up_prio u))];
  t5 ← printtime (up_elapsed u);
  t6 ← printtime (up_cpu u);
  t7 ← printf false (text "%s" ++ tab ++ text "%d" ++ nl ++ [0]) [PStr (Some (up_state u)); PInt (s32 (up_size u))];
  Some (t1 ++ t2 ++ t3 ++ t4 ++ t5 ++ t6 ++ t7).

Fixpoint print_rows (l : list uproc) : option (list Z) :=
  match l with
  | [] => Some []
  | u :: l => t ← print_row u; r ← print_rows l; Some (t ++ r)
  end.

Definition printtable (table : list uproc) : option (list Z) :=
  h1 ← printf false (text "PID" ++ tab ++ text "Name" ++ tab ++ tab ++ text "UID" ++ tab ++ text "GID" ++ tab ++ text "PPID" ++ tab ++ [0]) [];
  h2 ← printf false (text "Prio" ++ tab ++ [0]) [];
  h3 ← printf false (text "Elapsed" ++ tab ++ text "CPU" ++ tab ++ text "State" ++ tab ++ text "Size" ++ nl ++ [0]) [];
  r ← print_rows table;
  Some (h1 ++ h2 ++ h3 ++ r).

(** main(): whether malloc() succeeds for a number of bytes, and what
    getprocs() returns for a number of entries. *)
Section ps.
Context (malloc : Z → bool) (getprocs : Z → option (list uproc)).

Definition ps_error (call : string) (line : Z) : option (list Z) :=
  printf false (text "Error: " ++ text call ++ fmt " call failed. %s at line %d" nl) [PStr (Some (text "ps.c")); PInt line].

(** What is printed for a table of [max] entries, and whether it goes on. *)
Definition show_procs (max line1 line2 : Z) : option (list Z * bool) :=
  if negb (malloc (96 * max)) then t ← ps_error "malloc" line1; Some (t, false)
  else
    match getprocs max with
    | None => t ← ps_error "getprocs" line2; Some (t, false)
    | Some table => t ← printtable table; Some (t, true)
    end.

Definition normalrun : option (list Z) := o ← show_procs 64 30 36; Some o.1.

(** The tables on descriptor 2, and the headings on descriptor 1. *)
Fixpoint dotests_loop (maxs : list Z) : option (list Z * list Z) :=
  match maxs with
  | [] => Some ([], [])
  | max :: maxs =>
    h ← printf false (nl ++ fmt "**** MAX: %d" nl) [PInt max];
    o ← show_procs max 59 65;
    if negb o.2 then Some (h, o.1)
    else r ← dotests_loop maxs; Some (h ++ r.1, o.1 ++ r.2)
  end.
Definition dotests : option (list Z * list Z) := dotests_loop [1; 16; 64; 72].
End ps.

(** ** What is printed *)

(** The bits of the mode from what print_mode() prints behind the type. *)
Definition char_bit (i : Z) (c : Z) : Z := if c =? 45 then 0 else if c =? 83 then 2 ^ i + 2 ^ 9 else 2 ^ i.
Fixpoint decode_mode (i : Z) (l : list Z) : Z := match l with [] => 0 | c :: l => char_bit i c + decode_mode (i - 1) l end.

Lemma length_flag m i c : length (text c) = 1%nat → length (flag m i c) = 1%nat.
Proof. intros H. unfold flag. by destruct (Z.testbit m i). Qed.

(** The mode can be read back: print_mode() shows all its bits, except the
    setuid bit of a file its owner cannot execute. *)
Theorem print_mode_shows st : 0 ≤ st_mode st < 1024 → (Z.testbit (st_mode st) 9 = true → Z.testbit (st_mode st) 6 = true) →
  length (print_mode st) = 10%nat ∧ decode_mode 8 (tail (print_mode st)) = st_mode st.
Proof.
  intros Hm Hs. set (m := st_mode st) in *.
  assert (H : forallb (λ n, let m := Z.of_nat n in implb (implb (Z.testbit m 9) (Z.testbit m 6)) (decode_mode 8 (tail (print_mode (mkStat 2 0 0 0 0 m))) =? m)) (seq 0 1024) = true)
    by (vm_compute; reflexivity).
  rewrite forallb_forall in H. specialize (H (Z.to_nat m)). cbv zeta in H. rewrite Z2Nat.id in H by lia.
  assert (Ht : decode_mode 8 (tail (print_mode (mkStat 2 0 0 0 0 m))) = m).
  { apply Z.eqb_eq. destruct (Z.testbit m 9), (Z.testbit m 6); cbn [implb] in H; try (apply H, in_seq; lia). by specialize (Hs eq_refl). }
  split.
  - unfold print_mode. rewrite !length_app, !length_flag by done. destruct (st_type st =? 1), (st_type st =? 2), (st_type st =? 3), (_ && _), (Z.testbit _ 6); done.
  - rewrite <- Ht. f_equal. unfold print_mode. cbn [st_type st_mode]. fold m. destruct (st_type st =? 1), (st_type st =? 2), (st_type st =? 3); done.
Qed.

(** *** Names *)

(** [name] is the last component of the path [pre ++ name]. *)
Definition last_component (pre name : list Z) : Prop := (slash ∉ name) ∧ (pre = [] ∨ last pre = Some slash).

Lemma after_slash_name pre name rest k : last_component pre name → (k ≤ length name)%nat → after_slash (pre ++ name ++ 0 :: rest) (length pre + k) = length pre.
Proof.
  intros [Hs Hp]. set (s := pre ++ name ++ 0 :: rest).
  assert (Hno : ∀ k, (k ≤ length name)%nat → s !! (length pre + k)%nat ≠ Some slash).
  { intros j Hj. unfold s. rewrite lookup_app_r, Nat.add_comm, Nat.add_sub by lia. destruct (decide (j = length name)) as [->|].
    - by rewrite list_lookup_middle.
    - rewrite lookup_app_l by lia. intros H. apply Hs. by eapply list_elem_of_lookup_2. }
  induction k as [|k IH]; intros Hk.
  - specialize (Hno 0%nat Hk). rewrite Nat.add_0_r in *. destruct Hp as [->|Hp]; [cbn [after_slash length] in *; by rewrite bool_decide_eq_false_2|].
    destruct pre as [|x pre _] using rev_ind; [done|]. rewrite last_snoc in Hp. injection Hp as ->. rewrite length_app in *. cbn [length] in *. rewrite Nat.add_1_r in *. cbn [after_slash].
    rewrite bool_decide_eq_false_2 by done. assert (Hx : s !! length pre = Some slash) by (unfold s; rewrite <- app_assoc; by apply list_lookup_middle).
    destruct (length pre); cbn [after_slash]; by rewrite bool_decide_eq_true_2.
  - rewrite Nat.add_succ_r. cbn [after_slash]. rewrite bool_decide_eq_false_2 by (rewrite <- Nat.add_succ_r; by apply Hno). apply IH. lia.
Qed.

(** A name is padded with blanks to DIRSIZ characters. *)
Definition padded (name : list Z) : list Z := name ++ replicate (NAMELEN - length name) 32.

(** The static buffer: its last byte stays 0. *)
Definition buf_ok (buf : list Z) : Prop := length buf = S NAMELEN ∧ buf !! NAMELEN = Some 0.

Lemma fmtname_spec pre name buf : last_component pre name → 0 ∉ pre → 0 ∉ name → buf_ok buf →
  ∃ buf', fmtname (pre ++ name ++ [0]) buf = Some (padded name, buf') ∧ buf_ok buf'.
Proof.
  intros Hc Hp0 Hn0 [Hb1 Hb2]. unfold fmtname. rewrite strlen_cstr by set_solver. rewrite app_assoc, cstr_app_0 by set_solver. cbn [mbind option_bind].
  rewrite <- app_assoc, length_app, Nat2Z.id, (after_slash_name pre name [] (length name) Hc) by lia. rewrite drop_app_length.
  rewrite strlen_cstr, cstr_app_0 by set_solver. cbn [mbind option_bind]. unfold padded. destruct (Z.leb_spec (Z.of_nat NAMELEN) (Z.of_nat (length name))).
  { exists buf. replace (NAMELEN - length name)%nat with 0%nat by lia. cbn [replicate]. by rewrite app_nil_r. }
  rewrite Nat2Z.id, take_app_length. set (n := length name) in *.
  assert (E : splice (splice buf 0 name) n (replicate (NAMELEN - n) 32) = (name ++ replicate (NAMELEN - n) 32) ++ [0]).
  { unfold splice. cbn [plus]. fold n. rewrite length_replicate, take_0. cbn [app]. rewrite take_app_length', drop_app_ge by (fold n; lia). fold n. rewrite drop_drop. rewrite <- app_assoc. do 2 f_equal.
    replace (n + (n + (NAMELEN - n) - n))%nat with NAMELEN by lia. rewrite (drop_S _ _ _ Hb2). f_equal. apply drop_ge. lia. }
  rewrite E. rewrite cstr_app_0.
  - eexists. split; [done|]. unfold buf_ok. rewrite !length_app, length_replicate. cbn [length]. split; [lia|]. rewrite lookup_app_r by (rewrite length_app, length_replicate; lia).
    rewrite length_app, length_replicate. replace (NAMELEN - _)%nat with 0%nat by lia. done.
  - rewrite elem_of_app, elem_of_replicate. naive_solver.
Qed.

(** *** Lines *)

Definition entry_line (name : list Z) (st : stat) : list Z :=
  print_mode st ++ tab ++ padded name ++ tab ++ num (s32 (st_uid st)) ++ tab ++ num (s32 (st_gid st)) ++ tab ++ num (s32 (st_ino st)) ++ tab ++ num (s32 (st_size st)) ++ nl.

Lemma print_entry_spec pre name st buf : last_component pre name → 0 ∉ pre → 0 ∉ name → buf_ok buf →
  ∃ buf', print_entry (pre ++ name) st buf = Some (entry_line name st, buf') ∧ buf_ok buf'.
Proof.
  intros Hc H1 H2 Hb. destruct (fmtname_spec pre name buf Hc H1 H2 Hb) as (buf' & Hf & Hb'). exists buf'. split; [|done].
  unfold print_entry. rewrite <- app_assoc, Hf. cbn [mbind option_bind fst snd].
  assert (Ht : printf false (tab ++ text "%s" ++ tab ++ text "%d" ++ tab ++ text "%d" ++ tab ++ text "%d" ++ tab ++ fmt "%d" nl)
    [PStr (Some (padded name)); PInt (s32 (st_uid st)); PInt (s32 (st_gid st)); PInt (s32 (st_ino st)); PInt (s32 (st_size st))] =
    Some (tab ++ padded name ++ tab ++ num (s32 (st_uid st)) ++ tab ++ num (s32 (st_gid st)) ++ tab ++ num (s32 (st_ino st)) ++ tab ++ num (s32 (st_size st)) ++ nl))
    by (unfold fmt; printf_text).
  rewrite Ht. reflexivity.
Qed.

Section directory.
Context (opens : list Z → bool) (fstat stat_of : list Z → option stat) (dirents : list Z → list (Z * list Z)).

Definition name_of (e : Z * list Z) : list Z := cstr (take NAMELEN e.2 ++ [0]).
Definition line_of (path : list Z) (e : Z * list Z) : list Z :=
  let full := path ++ [slash] ++ name_of e in
  match stat_of full with Some st => entry_line (name_of e) st | None => text "ls: cannot stat " ++ full ++ nl end.

Lemma ls_dir_spec path l : 0 ∉ path → Forall (λ e, slash ∉ name_of e) l → ∀ buf, buf_ok buf →
  ∃ buf', ls_dir stat_of path l buf = Some (concat (line_of path <$> filter (λ e, e.1 ≠ 0) l), buf') ∧ buf_ok buf'.
Proof.
  intros H0. induction 1 as [|[inum name] l Hs Hl IH]; intros buf Hb; [by exists buf|]. cbn [ls_dir]. rewrite filter_cons. cbn [fst].
  destruct (Z.eqb_spec inum 0) as [E|E]; [rewrite decide_False by (by intros []); by apply IH|]. rewrite decide_True by done. cbn [fmap list_fmap concat].
  change (cstr (take NAMELEN name ++ [0])) with (name_of (inum, name)).
  assert (Hline : ∃ buf', match stat_of (path ++ [slash] ++ name_of (inum, name)) with
      | None => t ← printf false (fmt "ls: cannot stat %s" nl) [PStr (Some (path ++ [slash] ++ name_of (inum, name)))]; Some (t, buf)
      | Some st => print_entry (path ++ [slash] ++ name_of (inum, name)) st buf end = Some (line_of path (inum, name), buf') ∧ buf_ok buf').
  { unfold line_of. cbv zeta. destruct (stat_of _) as [st|].
    - rewrite app_assoc. apply print_entry_spec; [|set_solver|apply cstr_no0|done]. split; [done|]. right. by rewrite last_snoc.
    - exists buf. split; [|done]. set (full := path ++ [slash] ++ name_of (inum, name)). unfold fmt. printf_text. }
  destruct Hline as (buf1 & -> & Hb1). cbn [mbind option_bind fst snd]. destruct (IH buf1 Hb1) as (buf2 & -> & Hb2). exists buf2. done.
Qed.

(** ls of a directory prints the header and, for each entry in use and in
    their order, its mode, padded name, owner, group, inode and size. *)
Theorem ls_lists_directory path buf st : opens path = true → fstat path = Some st → st_type st = 1 → (length path + 16 ≤ 512)%nat → 0 ∉ path →
  Forall (λ e, slash ∉ name_of e) (dirents path) → buf_ok buf →
  ∃ buf', ls opens fstat stat_of dirents path buf = Some (printheader ++ concat (line_of path <$> filter (λ e, e.1 ≠ 0) (dirents path)), [], buf').
Proof.
  intros Ho Hf Ht Hl H0 Hd Hb. destruct (ls_dir_spec path (dirents path) H0 Hd buf Hb) as (buf' & E & _). exists buf'. unfold ls. rewrite Ho, Hf, Ht. cbn [negb Z.eqb Pos.eqb].
  rewrite (proj2 (Nat.ltb_ge _ _)) by (unfold NAMELEN; lia). by rewrite E.
Qed.
End directory.

(** *** ps *)

Lemma three_num r : 0 ≤ r < 1000 → three r = (if r <? 10 then text "00" else if r <? 100 then text "0" else []) ++ num r.
Proof.
  intros Hr. set (P n := three (Z.of_nat n) = (if Z.of_nat n <? 10 then text "00" else if Z.of_nat n <? 100 then text "0" else []) ++ num (Z.of_nat n)).
  assert (H : forallb (λ n, bool_decide (P n)) (seq 0 1000) = true) by (vm_compute; reflexivity).
  rewrite forallb_forall in H. specialize (H (Z.to_nat r)). unfold P in H. rewrite Z2Nat.id in H by lia. eapply bool_decide_eq_true_1, H, in_seq. lia.
Qed.

Definition time_text (t : Z) : list Z := num (t / 1000) ++ text "." ++ three (t mod 1000) ++ tab.

Lemma printtime_spec t : 0 ≤ t < 2 ^ 32 → printtime t = Some (time_text t).
Proof.
  intros Ht. unfold printtime, time_text. pose proof (Z.mod_pos_bound t 1000 ltac:(lia)) as Hr. assert (0 ≤ t / 1000 < 2 ^ 31) by (Z.to_euclidean_division_equations; lia).
  set (q := t / 1000) in *. set (r := t mod 1000) in *. rewrite three_num by done.
  destruct (Z.ltb_spec r 10), (Z.ltb_spec r 100), (Z.ltb_spec 9 r); try lia; cbn [andb]; printf_text.
Qed.

Definition row_text (u : uproc) : list Z :=
  num (s32 (up_pid u)) ++ tab ++ up_name u ++ tab ++ (if Z.of_nat (length (up_name u)) <? 7 then tab else []) ++ num (s32 (up_uid u)) ++ tab ++ num (s32 (up_gid u)) ++ tab ++
  num (s32 (up_ppid u)) ++ tab ++ num (s32 (up_prio u)) ++ tab ++ time_text (up_elapsed u) ++ time_text (up_cpu u) ++ up_state u ++ tab ++ num (s32 (up_size u)) ++ nl.

Lemma print_row_spec u : 0 ≤ up_elapsed u < 2 ^ 32 → 0 ≤ up_cpu u < 2 ^ 32 → print_row u = Some (row_text u).
Proof.
  intros H1 H2. unfold print_row, row_text. rewrite !printtime_spec by done. generalize (time_text (up_elapsed u)) (time_text (up_cpu u)). intros t1 t2. destruct (_ <? 7); printf_text.
Qed.

(** ps prints a row for each entry of the table, with the times in seconds
    with three decimals. *)
Theorem ps_prints table : Forall (λ u, 0 ≤ up_elapsed u < 2 ^ 32 ∧ 0 ≤ up_cpu u < 2 ^ 32) table →
  printtable table = Some (text "PID" ++ tab ++ text "Name" ++ tab ++ tab ++ text "UID" ++ tab ++ text "GID" ++ tab ++ text "PPID" ++ tab ++ text "Prio" ++ tab ++
    text "Elapsed" ++ tab ++ text "CPU" ++ tab ++ text "State" ++ tab ++ text "Size" ++ nl ++ concat (row_text <$> table)).
Proof.
  intros Ht. unfold printtable. assert (Hr : print_rows table = Some (concat (row_text <$> table))).
  { induction Ht as [|u table [H1 H2] Ht IH]; [done|]. cbn [print_rows]. by rewrite print_row_spec, IH. }
  rewrite Hr. generalize (concat (row_text <$> table)). intros rows. printf_text.
Qed.

(** ** The program date (date.c)

    The day of the week it computes is that of the Gregorian calendar, counted
    day by day from a Monday, 1 January of the year 1. *)

Definition months : list (list Z) := text <$> ["NULL"; "Jan"; "Feb"; "Mar"; "Apr"; "May"; "Jun"; "Jul"; "Aug"; "Sep"; "Oct"; "Nov"; "Dec"]%string.
Definition days : list (list Z) := text <$> ["Sun"; "Mon"; "Tue"; "Wed"; "Thu"; "Fri"; "Sat"]%string.

(** [(d+=m<3?y--:y-2,23*m/9+d+4+y/4-y/100+y/400)%7], on ints that do not
    overflow. *)
Definition dayofweek (y m d : Z) : Z :=
  let '(d, y) := if m <? 3 then (d + y, y - 1) else (d + (y - 2), y) in
  Z.rem (Z.quot (23 * m) 9 + d + 4 + Z.quot y 4 - Z.quot y 100 + Z.quot y 400) 7.

(** main(), for what date() returns: the text on the descriptors 1 and 2. A
    table is read out of range at [None]. *)
Definition date_main (call : option rtcdate) : option (list Z * list Z) :=
  match call with
  | None => e ← printf false (text "Error: date call failed. %s at line %d" ++ nl ++ [0]) [PStr (Some (text "date.c")); PInt 26]; Some ([], e)
  | Some r =>
    day ← days !! Z.to_nat (dayofweek (s32 (r_year r)) (s32 (r_month r)) (s32 (r_day r)));
    month ← months !! Z.to_nat (r_month r);
    l1 ← printf false (text "%s %s %d" ++ [0]) [PStr (Some day); PStr (Some month); PInt (r_day r)];
    l2 ← printf false (text " %d:%d:%d UTC %d" ++ nl ++ [0]) [PInt (r_hour r); PInt (r_minute r); PInt (r_second r); PInt (r_year r)];
    Some (l1 ++ l2, [])
  end.

(** ** The calendar *)

Record day : Type := mkDay { d_year : Z; d_month : Z; d_day : Z }.

Definition leap (y : Z) : bool := (y mod 4 =? 0) && (negb (y mod 100 =? 0) || (y mod 400 =? 0)).

Definition month_days (y m : Z) : Z :=
  if m =? 2 then (if leap y then 29 else 28)
  else if (m =? 4) || (m =? 6) || (m =? 9) || (m =? 11) then 30 else 31.

Definition next_day (t : day) : day :=
  let 'mkDay y m d := t in
  if d <? month_days y m then mkDay y m (d + 1)
  else if m <? 12 then mkDay y (m + 1) 1
  else mkDay (y + 1) 1 1.

(** The day [n] days after 1 January of the year 1. *)
Definition nth_day (n : nat) : day := Nat.iter n next_day (mkDay 1 1 1).

Definition day_ok (t : day) : Prop := 1 ≤ d_year t ∧ 1 ≤ d_month t ≤ 12 ∧ 1 ≤ d_day t ≤ month_days (d_year t) (d_month t).

Lemma month_days_range y m : 28 ≤ month_days y m ≤ 31.
Proof. unfold month_days. destruct (m =? 2), (leap y), ((m =? 4) || (m =? 6) || (m =? 9) || (m =? 11)); lia. Qed.

Lemma next_day_ok t : day_ok t → day_ok (next_day t).
Proof.
  destruct t as [y m d]. unfold day_ok. cbn. intros (Hy & Hm & Hd). destruct (Z.ltb_spec d (month_days y m)); [cbn; lia|].
  destruct (Z.ltb_spec m 12); cbn [d_year d_month d_day]; pose proof (month_days_range y (m + 1)); pose proof (month_days_range (y + 1) 1); lia.
Qed.

Lemma nth_day_ok n : day_ok (nth_day n).
Proof. induction n as [|n IH]; [vm_compute; repeat split; discriminate|]. by apply next_day_ok. Qed.

(** The leap days up to the year. *)
Definition leaps (y : Z) : Z := y / 4 - y / 100 + y / 400.

Lemma leaps_step y : leaps y = leaps (y - 1) + Z.b2z (leap y).
Proof.
  unfold leaps, leap. destruct (Z.eqb_spec (y mod 4) 0), (Z.eqb_spec (y mod 100) 0), (Z.eqb_spec (y mod 400) 0); cbn [andb orb negb Z.b2z]; Z.to_euclidean_division_equations; lia.
Qed.

Definition dow_sum (y m d : Z) : Z := (23 * m) / 9 + d + 4 + (if m <? 3 then y + leaps (y - 1) else y - 2 + leaps y).

Lemma dayofweek_sum y m d : 1 ≤ y → 1 ≤ m → 1 ≤ d → dayofweek y m d = dow_sum y m d mod 7.
Proof.
  intros Hy Hm Hd. unfold dayofweek, dow_sum, leaps. destruct (m <? 3) eqn:Em.
  all: rewrite !Z.quot_div_nonneg by lia; rewrite Z.rem_mod_nonneg; [f_equal; lia| |lia].
  all: Z.to_euclidean_division_equations; lia.
Qed.

(** A day later is a weekday later. *)
Lemma dow_sum_next t : day_ok t → let t' := next_day t in dow_sum (d_year t') (d_month t') (d_day t') mod 7 = (dow_sum (d_year t) (d_month t) (d_day t) + 1) mod 7.
Proof.
  destruct t as [y m d]. unfold day_ok. cbn. intros (Hy & Hm & Hd). destruct (Z.ltb_spec d (month_days y m)) as [|Hl].
  { cbn. f_equal. unfold dow_sum. lia. }
  assert (d = month_days y m) as -> by lia. pose proof (leaps_step y) as Hs.
  assert (m = 1 ∨ m = 2 ∨ m = 3 ∨ m = 4 ∨ m = 5 ∨ m = 6 ∨ m = 7 ∨ m = 8 ∨ m = 9 ∨ m = 10 ∨ m = 11 ∨ m = 12) as Hc by lia.
  repeat destruct Hc as [->|Hc]; [..|subst m]; unfold dow_sum, month_days; clear Hd Hl; cbn -[leaps Z.div Z.modulo leap]; rewrite ?Z.add_simpl_r.
  all: generalize dependent (leaps y); generalize dependent (leaps (y - 1)); intros l1 l2 ->; destruct (leap y); cbn [Z.b2z];
    repeat (case_match; try lia); Z.to_euclidean_division_equations; lia.
Qed.

Lemma dayofweek_nth n : let t := nth_day n in dayofweek (d_year t) (d_month t) (d_day t) = (1 + Z.of_nat n) mod 7.
Proof.
  intros t. destruct (nth_day_ok n) as (Hy & Hm & Hd). unfold t. rewrite dayofweek_sum by lia. clear Hy Hm Hd t.
  induction n as [|n IH]; [reflexivity|]. change (nth_day (S n)) with (next_day (nth_day n)). rewrite dow_sum_next by apply nth_day_ok.
  rewrite Zplus_mod, IH, Zplus_mod_idemp_l. rewrite Zplus_mod_idemp_r. f_equal. lia.
Qed.

(** ** What date prints *)

(** C38: On the n-th day after Monday, 1 January of the year 1 of the Gregorian
    calendar, date prints the day of the week that is n days after Monday, the
    name of the month, the day, the time and the year; its tables are read in
    range. *)
Theorem date_prints_weekday n hour minute second :
  let t := nth_day n in
  d_year t < 2 ^ 30 → 0 ≤ hour < 24 → 0 ≤ minute < 60 → 0 ≤ second < 60 →
  ∃ day month, days !! Z.to_nat ((1 + Z.of_nat n) mod 7) = Some day ∧ months !! Z.to_nat (d_month t) = Some month ∧
    date_main (Some (mkRtc second minute hour (d_day t) (d_month t) (d_year t))) =
    Some (day ++ text " " ++ month ++ text " " ++ num (d_day t) ++ text " " ++
      num hour ++ text ":" ++ num minute ++ text ":" ++ num second ++ text " UTC " ++ num (d_year t) ++ nl, []).
Proof.
  intros t Hy Hh Hmi Hs. destruct (nth_day_ok n) as (H1 & H2 & H3). fold t in H1, H2, H3. pose proof (month_days_range (d_year t) (d_month t)) as Hr.
  destruct (lookup_lt_is_Some_2 days (Z.to_nat ((1 + Z.of_nat n) mod 7))) as [day Hday]. { pose proof (Z.mod_pos_bound (1 + Z.of_nat n) 7). cbn. lia. }
  destruct (lookup_lt_is_Some_2 months (Z.to_nat (d_month t))) as [month Hmonth]; [cbn; lia|]. exists day, month. split; [done|]. split; [done|].
  unfold date_main. cbn [r_year r_month r_day r_hour r_minute r_second]. rewrite !s32_small by lia. rewrite (dayofweek_nth n : dayofweek (d_year t) (d_month t) (d_day t) = _), Hday, Hmonth.
  printf_text.
Qed.

Lemma date_prints_weekday_witness : nth_day 1460 = mkDay 4 12 31 ∧
  date_main (Some (mkRtc 5 30 12 31 12 4)) = Some (text "Fri Dec 31 12:30:5 UTC 4" ++ nl, []).
Proof.
  split; [vm_compute; reflexivity|].
  assert (E : nth_day 1460 = mkDay 4 12 31) by (vm_compute; reflexivity).
  pose proof (date_prints_weekday 1460 12 30 5) as H. rewrite E in H. destruct H as (day & month & Hd & Hm & H); [cbn; lia|lia|lia|lia|].
  vm_compute in Hd. vm_compute in Hm. injection Hd as <-. injection Hm as <-. cbn [d_year d_month d_day] in H. rewrite H. vm_compute. reflexivity.
Defined.

Example today : date_main (Some (mkRtc 0 0 9 16 11 2026)) = Some (text "Mon Nov 16 9:0:0 UTC 2026" ++ nl, []).
Proof. vm_compute. reflexivity. Qed.
