(* ===== verification/Sh.v ===== *)
(** * The parser of the shell (sh.c)

    The line is a string in a buffer; the parser's only state is the position
    in it, and a command refers to the words by where they start and end, until
    nulterminate() puts a NUL behind each of them. A syntax error is [Panic]:
    panic() of sh.c prints its message and exits. *)

From S2P Require Import Prelude Str.

Definition MAXARGS : nat := 10.

(** The characters, in ASCII. *)
Definition whitespace : list Z := [32; 9; 13; 10; 11].
Definition symbols : list Z := [60; 124; 62; 38; 59; 40; 41].
Definition c_bar : Z := 124.
Definition c_open : Z := 40.
Definition c_close : Z := 41.
Definition c_semi : Z := 59.
Definition c_amp : Z := 38.
Definition c_lt : Z := 60.
Definition c_gt : Z := 62.
Definition c_plus : Z := 43.
Definition c_a : Z := 97.

(** A redirection: file and efile, mode and fd. *)
Record redir : Type := mkRedir { rd_file : nat; rd_efile : nat; rd_mode : Z; rd_fd : Z }.

(** struct cmd; argv and eargv of an execcmd as pairs. *)
Inductive cmd : Type :=
| EXEC (args : list (nat * nat))
| REDIR (c : cmd) (r : redir)
| PIPE (left right : cmd)
| LIST (left right : cmd)
| BACK (c : cmd).

(** strchr(s, c) != 0: never for the NUL. *)
Definition strchr (s : list Z) (c : Z) : bool := negb (c =? 0) && bool_decide (c ∈ s).

Section parser.
(** The buffer, and the position [es] of its NUL. *)
Context (buf : list Z) (es : nat).
Abbreviation P := (M nat).

Definition goto (s : nat) : P unit := modify (λ _, s).

(** *s *)
Definition rdc (s : nat) : P Z := λ p, match buf !! s with Some c => Done c p | None => Fault p end.

(** [while(s < es && f( *s )) s++;] with [n] the distance to es. *)
Fixpoint skip_while (f : Z → bool) (n s : nat) : nat :=
  match n with
  | O => s
  | S n => if f (default 0 (buf !! s)) then skip_while f n (S s) else s
  end.
Definition skip (f : Z → bool) (s : nat) : nat := skip_while f (es - s) s.
Definition is_space (c : Z) : bool := strchr whitespace c.
Definition is_word (c : Z) : bool := negb (strchr whitespace c) && negb (strchr symbols c).

(** gettoken(): the token, and the values of *q and *eq. *)
Definition gettoken : P (Z * nat * nat) :=
  ps ← get;
  let q := skip is_space ps in
  c ← rdc q;
  r ← (if c =? 0 then mret (c, q)
       else if bool_decide (c ∈ [c_bar; c_open; c_close; c_semi; c_amp; c_lt]) then mret (c, S q)
       else if c =? c_gt then
         d ← rdc (S q);
         if d =? c_gt then mret (c_plus, S (S q)) else mret (c, S q)
       else mret (c_a, skip is_word q));
  goto (skip is_space r.2);;
  mret (r.1, q, r.2).

Definition peek (toks : list Z) : P bool :=
  ps ← get;
  let s := skip is_space ps in
  goto s;;
  c ← rdc s;
  mret (strchr toks c).

(** redircmd() of a command that may still get arguments: the redirections
    are collected, the innermost first. *)
Definition redirs (c : cmd) (l : list redir) : cmd := foldl REDIR c l.

(** Every iteration takes a token, so the length of the line bounds the loops. *)
Fixpoint parseredirs (n : nat) (l : list redir) : P (list redir) :=
  b ← peek [c_lt; c_gt];
  if (b : bool) then
    match n with
    | O => nofuel
    | S n =>
      t ← gettoken;
      w ← gettoken;
      let '(k, q, eq) := w in
      panic_if (negb (k =? c_a)) "missing file for redirection";;
      let l' := if t.1.1 =? c_lt then l ++ [mkRedir q eq 0 0]
                else if (t.1.1 =? c_gt) || (t.1.1 =? c_plus) then l ++ [mkRedir q eq 513 1]
                else l in
      parseredirs n l'
    end
  else mret l.

(** The loop of parseexec(). *)
Fixpoint args_loop (n : nat) (args : list (nat * nat)) (l : list redir) : P (list (nat * nat) * list redir) :=
  b ← peek [c_bar; c_close; c_amp; c_semi];
  if (b : bool) then mret (args, l)
  else
    match n with
    | O => nofuel
    | S n =>
      t ← gettoken;
      let '(k, q, eq) := t in
      if k =? 0 then mret (args, l)
      else
        panic_if (negb (k =? c_a)) "syntax";;
        let args := args ++ [(q, eq)] in
        panic_if (MAXARGS <=? length args)%nat "too many args";;
        l ← parseredirs es l;
        args_loop n args l
    end.

(** The loop of parseline() over the ampersands. *)
Fixpoint back_loop (n : nat) (c : cmd) : P cmd :=
  b ← peek [c_amp];
  if (b : bool) then
    match n with
    | O => nofuel
    | S n => _ ← gettoken; back_loop n (BACK c)
    end
  else mret c.

(** The functions that call each other, with the depth of the calls. *)
Fixpoint parseline (fuel : nat) : P cmd :=
  match fuel with
  | O => nofuel
  | S fuel =>
    c ← parsepipe fuel;
    c ← back_loop es c;
    b ← peek [c_semi];
    if (b : bool) then
      _ ← gettoken;
      r ← parseline fuel;
      mret (LIST c r)
    else mret c
  end
with parsepipe (fuel : nat) : P cmd :=
  match fuel with
  | O => nofuel
  | S fuel =>
    c ← parseexec fuel;
    b ← peek [c_bar];
    if (b : bool) then
      _ ← gettoken;
      r ← parsepipe fuel;
      mret (PIPE c r)
    else mret c
  end
with parseexec (fuel : nat) : P cmd :=
  match fuel with
  | O => nofuel
  | S fuel =>
    b ← peek [c_open];
    if (b : bool) then parseblock fuel
    else
      l ← parseredirs es [];
      r ← args_loop (S es) [] l;
      mret (redirs (EXEC r.1) r.2)
  end
with parseblock (fuel : nat) : P cmd :=
  match fuel with
  | O => nofuel
  | S fuel =>
    b ← peek [c_open];
    panic_if (negb b) "parseblock";;
    _ ← gettoken;
    c ← parseline fuel;
    b ← peek [c_close];
    panic_if (negb b) "syntax - missing )";;
    _ ← gettoken;
    l ← parseredirs es [];
    mret (redirs c l)
  end.
End parser.

(** nulterminate() *)
Fixpoint nulterminate (c : cmd) (buf : list Z) : list Z :=
  match c with
  | EXEC args => foldl (λ b a, <[a.2 := 0]> b) buf args
  | REDIR c r => <[rd_efile r := 0]> (nulterminate c buf)
  | PIPE l r | LIST l r => nulterminate r (nulterminate l buf)
  | BACK c => nulterminate c buf
  end.

(** parsecmd() of the string in [buf]: the command, and the buffer after it.
    At most four calls are nested per character. *)
Definition parsecmd (buf : list Z) : M nat (cmd * list Z) :=
  match strlen buf with
  | None => fault
  | Some n =>
    let es := Z.to_nat n in
    goto 0;;
    c ← parseline buf es (4 * es + 4);
    _ ← peek buf es [];
    s ← get;
    panic_if (negb (s =? es)%nat) "syntax";;
    mret (c, nulterminate c buf)
  end.
