(* ===== verification/ShThms.v ===== *)
(** * The parser of the shell terminates, and the words it finds are words

    One pass over the functions of the parser shows both: that the position
    only grows, which bounds the loops and the depth of the calls, and that
    every word of a command is a maximal run of the line's word characters.
    nulterminate() then only writes where no word is. *)

From S2P Require Import Prelude Str Sh.

(** [safe m Q p]: run at [p], [m] returns with [Q] or reports a syntax error;
    it neither reads outside the buffer nor runs for ever. *)
Definition safe {A} (m : M nat A) (Q : A → nat → Prop) (p : nat) : Prop :=
  match m p with Done a p' => Q a p' | Panic _ _ => True | _ => False end.

Lemma safe_bind {A B} (m : M nat A) (f : A → M nat B) Q p : safe m (λ a p', safe (f a) Q p') p → safe (m ≫= f) Q p.
Proof. unfold safe, mbind, M_bind. by destruct (m p). Qed.
Lemma safe_mono {A} (m : M nat A) (Q Q' : A → nat → Prop) p : safe m Q p → (∀ a p', Q a p' → Q' a p') → safe m Q' p.
Proof. unfold safe. destruct (m p); auto. Qed.
Lemma safe_panic_if b msg (Q : unit → nat → Prop) p : (b = false → Q tt p) → safe (panic_if b msg) Q p.
Proof. destruct b; [done|]. intros H. by apply H. Qed.
Lemma safe_ret {A} (a : A) (Q : A → nat → Prop) p : Q a p → safe (mret a) Q p.
Proof. done. Qed.

Section parser.
(** A string of [es] characters. *)
Context (buf : list Z) (es : nat) (Hend : buf !! es = Some 0) (Hstr : ∀ i, (i < es)%nat → ∃ c, buf !! i = Some c ∧ c ≠ 0).

Lemma skip_while_spec f n s : (s + n = es)%nat →
  (s ≤ skip_while buf f n s ≤ es)%nat ∧
  (∀ i, (s ≤ i < skip_while buf f n s)%nat → f (default 0 (buf !! i)) = true) ∧
  (skip_while buf f n s = es ∨ f (default 0 (buf !! skip_while buf f n s)) = false).
Proof.
  revert s. induction n as [|n IH]; intros s Hs; simpl; [split; [lia|]; split; [lia|left; lia]|]. destruct (f _) eqn:Hf.
  - destruct (IH (S s) ltac:(lia)) as (H1 & H2 & H3). split; [lia|]. split; [|done]. intros i Hi. destruct (decide (i = s)) as [->|]; [done|]. apply H2. lia.
  - split; [lia|]. split; [lia|by right].
Qed.

Lemma skip_spec f s : (s ≤ es)%nat → (s ≤ skip buf es f s ≤ es)%nat ∧
  (∀ i, (s ≤ i < skip buf es f s)%nat → f (default 0 (buf !! i)) = true) ∧
  (skip buf es f s = es ∨ f (default 0 (buf !! skip buf es f s)) = false).
Proof. intros Hs. apply skip_while_spec. lia. Qed.

Lemma in_buf s : (s ≤ es)%nat → ∃ c, buf !! s = Some c ∧ (c = 0 ↔ s = es).
Proof.
  intros Hs. destruct (decide (s = es)) as [->|Hne]; [by exists 0|]. destruct (Hstr s ltac:(lia)) as (c & Hc & H0). exists c. naive_solver.
Qed.

Lemma safe_rdc s (Q : Z → nat → Prop) p : (s ≤ es)%nat → (∀ c, buf !! s = Some c → (c = 0 ↔ s = es) → Q c p) → safe (rdc buf s) Q p.
Proof. intros Hs HQ. destruct (in_buf s Hs) as (c & Hc & H0). unfold safe, rdc. rewrite Hc. by apply HQ. Qed.

(** A token that is not the end starts at [p]. *)
Definition tok_at (p : nat) : Prop := (p < es)%nat ∧ ∀ c, buf !! p = Some c → is_space c = false.

Lemma strchr_space c toks : strchr toks c = true → (∀ d, d ∈ toks → d ∉ whitespace) → is_space c = false ∧ c ≠ 0.
Proof.
  unfold is_space, strchr. intros [H1%negb_true_iff%Z.eqb_neq H2%bool_decide_eq_true]%andb_true_iff Hd. split; [|done].
  apply andb_false_iff. right. apply bool_decide_eq_false. by apply Hd.
Qed.

Lemma peek_safe toks p : (p ≤ es)%nat → (∀ d, d ∈ toks → d ∉ whitespace) →
  safe (peek buf es toks) (λ b p', (p ≤ p' ≤ es)%nat ∧ (b = true → tok_at p')) p.
Proof.
  intros Hp Hd. destruct (skip_spec is_space p Hp) as (H1 & _ & _). unfold peek, goto. do 2 (apply safe_bind; unfold safe; simpl). cbv zeta.
  apply safe_bind, safe_rdc; [lia|]. intros c Hc H0. apply safe_ret. split; [lia|]. intros Hs.
  destruct (strchr_space _ _ Hs Hd) as [Hsp Hne]. split; [naive_solver lia|]. naive_solver.
Qed.

Lemma word_char c : c ≠ 0 → is_space c = false → c ≠ c_gt → c ∉ [c_bar; c_open; c_close; c_semi; c_amp; c_lt] → is_word c = true.
Proof.
  unfold is_space, is_word, strchr. intros H0 Hs Hg Hn. rewrite Hs. simpl. apply negb_true_iff, andb_false_iff. right. apply bool_decide_eq_false.
  unfold symbols. set_unfold. unfold c_gt, c_bar, c_open, c_close, c_semi, c_amp, c_lt in *. tauto.
Qed.

(** A word: a maximal run of characters that are neither white space nor symbols. *)
Definition word_at (w : nat * nat) : Prop :=
  (w.1 < w.2 ≤ es)%nat ∧ (∀ i, (w.1 ≤ i < w.2)%nat → is_word (default 0 (buf !! i)) = true) ∧
  (w.2 = es ∨ is_word (default 0 (buf !! w.2)) = false).

(** What gettoken() at [p] gives. *)
Definition tok_ok (p : nat) (t : Z * nat * nat) (p' : nat) : Prop :=
  (p ≤ p' ≤ es)%nat ∧ (t.1.1 ≠ 0 → (p < p')%nat) ∧ (tok_at p → t.1.1 ≠ 0) ∧ (t.1.1 = c_a → word_at (t.1.2, t.2)).

Lemma gettoken_safe p : (p ≤ es)%nat → safe (gettoken buf es) (tok_ok p) p.
Proof.
  intros Hp. destruct (skip_spec is_space p Hp) as (H1 & H2 & H3). unfold gettoken, goto. apply safe_bind. unfold safe at 1, get. simpl. cbv zeta.
  set (q := skip buf es is_space p) in *.
  assert (Htok : tok_at p → q ≠ es).
  { intros [Hlt Hns] Hq. destruct (in_buf p Hp) as (c & Hc & _). specialize (H2 p ltac:(lia)). rewrite Hc in H2. simpl in H2. by rewrite (Hns c Hc) in H2. }
  apply safe_bind, safe_rdc; [lia|]. intros c Hc H0.
  assert (Hgo : ∀ k s, (q ≤ s ≤ es)%nat → (k ≠ 0 → (q < s)%nat) → (q ≠ es → k ≠ 0) → (k = c_a → word_at (q, s)) →
    safe (r ← mret (k, s); goto (skip buf es is_space r.2);; mret (r.1, q, r.2)) (tok_ok p) p).
  { intros k s Hs Hk Hk' Hw. destruct (skip_spec is_space s ltac:(lia)) as (S1 & _ & _). unfold safe; simpl. split; [lia|].
    split; [intros Hk0; specialize (Hk Hk0); lia|]. split; [|done]. intros Ht. by apply Hk', Htok. }
  destruct (Z.eqb_spec c 0) as [->|Hne]; [apply Hgo; naive_solver lia|]. assert (Hlt : (q < es)%nat) by (destruct (decide (q = es)); [naive_solver|lia]).
  case_bool_decide as Hsym; [apply Hgo; [lia|lia|done|intros ->; exfalso; clear -Hsym; set_unfold in Hsym; unfold c_a, c_bar, c_open, c_close, c_semi, c_amp, c_lt in Hsym; lia]|]. destruct (Z.eqb_spec c c_gt) as [->|Hgt].
  - apply safe_bind, safe_bind, safe_rdc; [lia|]. intros d Hd H0d. destruct (Z.eqb_spec d c_gt) as [->|Hg].
    + apply (Hgo c_plus (S (S q))); [|lia|done|done]. destruct (decide (S q = es)); [by apply H0d in e|lia].
    + apply (Hgo c_gt (S q)); [lia|lia|done|done].
  - destruct (skip_spec is_word q ltac:(lia)) as (W1 & W2 & W3).
    assert (Hsp : is_space c = false) by (destruct H3 as [?|H3]; [lia|]; by rewrite Hc in H3).
    assert (Hq : (q < skip buf es is_word q)%nat).
    { destruct (decide (skip buf es is_word q = q)) as [E|]; [|lia]. rewrite E, Hc in W3. simpl in W3. rewrite word_char in W3 by done. destruct W3; [lia|done]. }
    apply Hgo; [lia|done|done|]. intros _. split; [simpl; lia|done].
Qed.

(** A redirection parseredirs() makes, and a command. *)
Definition redir_ok (r : redir) : Prop := word_at (rd_file r, rd_efile r) ∧ (rd_mode r, rd_fd r) ∈ [(0, 0); (513, 1)].

Fixpoint cmd_ok (c : cmd) : Prop :=
  match c with
  | EXEC args => (length args < MAXARGS)%nat ∧ Forall word_at args
  | REDIR c r => cmd_ok c ∧ redir_ok r
  | PIPE l r | LIST l r => cmd_ok l ∧ cmd_ok r
  | BACK c => cmd_ok c
  end.

Lemma redirs_ok c l : cmd_ok c → Forall redir_ok l → cmd_ok (redirs c l).
Proof. intros Hc Hl. revert c Hc. induction Hl as [|r l Hr Hl IH]; intros c Hc; [done|]. by apply (IH (REDIR c r)). Qed.

(** *** The loops *)

Lemma sym_not_space toks : toks ⊆ symbols → ∀ d, d ∈ toks → d ∉ whitespace.
Proof. intros H d Hd%H. unfold symbols, whitespace in *. set_unfold. lia. Qed.

(** A result, between [p] and the end. *)
Definition upto {A} (R : A → Prop) (p : nat) : A → nat → Prop := λ a p', (p ≤ p' ≤ es)%nat ∧ R a.

Lemma safe_upto {A} (m : M nat A) R p p1 : (p ≤ p1)%nat → safe m (upto R p1) p1 → safe m (upto R p) p1.
Proof. intros Hp H. eapply safe_mono; [exact H|]. intros a p' [H1 H2]. split; [lia|done]. Qed.

Lemma parseredirs_safe n l p : (p ≤ es)%nat → (es - p ≤ n)%nat → Forall redir_ok l → safe (parseredirs buf es n l) (upto (Forall redir_ok) p) p.
Proof.
  revert l p. induction n as [|n IH]; intros l p Hp Hn Hl; cbn [parseredirs]; apply safe_bind;
    (eapply safe_mono; [apply peek_safe; [done|apply sym_not_space; set_solver]|]); intros [] p1 [H1 Ht]; try (apply safe_ret; split; [lia|done]).
  - destruct (Ht eq_refl). lia.
  - apply safe_bind. eapply safe_mono; [apply gettoken_safe; lia|]. intros t p2 (H2 & H2' & H2'' & _). specialize (H2' (H2'' (Ht eq_refl))).
    apply safe_bind. eapply safe_mono; [apply gettoken_safe; lia|]. intros [[k q] eq] p3 (H3 & _ & _ & Hw).
    apply safe_bind, safe_panic_if. intros Hk%negb_false_iff%Z.eqb_eq. cbv zeta. apply safe_upto; [lia|]. apply IH; [lia|lia|].
    repeat case_match; [..|done]; (apply Forall_app; split; [done|]; apply Forall_singleton; split; [by apply Hw|set_solver]).
Qed.

(** The arguments parseexec() has found. *)
Definition args_ok (r : list (nat * nat) * list redir) : Prop :=
  (length r.1 < MAXARGS)%nat ∧ Forall word_at r.1 ∧ Forall redir_ok r.2.

Lemma args_loop_safe n args l p : (p ≤ es)%nat → (es - p < n)%nat → args_ok (args, l) →
  safe (args_loop buf es n args l) (upto args_ok p) p.
Proof.
  revert args l p. induction n as [|n IH]; intros args l p Hp Hn (Ha & Hw & Hl); [lia|]. cbn [args_loop]. apply safe_bind.
  eapply safe_mono; [apply peek_safe; [done|apply sym_not_space; set_solver]|]. intros [] p1 [H1 _]; [apply safe_ret; split; [lia|done]|].
  apply safe_bind. eapply safe_mono; [apply gettoken_safe; lia|]. intros [[k q] eq] p2 (H2 & H2' & _ & Hw'). simpl in H2', Hw'.
  destruct (Z.eqb_spec k 0) as [->|Hk]; [apply safe_ret; split; [lia|done]|]. specialize (H2' Hk).
  apply safe_bind, safe_panic_if. intros Ek%negb_false_iff%Z.eqb_eq. cbv zeta. apply safe_bind, safe_panic_if. intros Hm%Nat.leb_gt.
  apply safe_bind. eapply safe_mono; [apply parseredirs_safe; [lia|lia|done]|]. intros l' p3 [H3 H3']. apply safe_upto; [lia|].
  apply IH; [lia|lia|]. split; [done|]. split; [|done]. apply Forall_app. split; [done|]. apply Forall_singleton. by apply Hw'.
Qed.

Lemma back_loop_safe n c p : (p ≤ es)%nat → (es - p ≤ n)%nat → cmd_ok c → safe (back_loop buf es n c) (upto cmd_ok p) p.
Proof.
  revert c p. induction n as [|n IH]; intros c p Hp Hn Hc; cbn [back_loop]; apply safe_bind;
    (eapply safe_mono; [apply peek_safe; [done|apply sym_not_space; set_solver]|]); intros [] p1 [H1 Ht]; try (apply safe_ret; split; [lia|done]).
  - destruct (Ht eq_refl). lia.
  - apply safe_bind. eapply safe_mono; [apply gettoken_safe; lia|]. intros t p2 (H2 & H2' & H2'' & _). specialize (H2' (H2'' (Ht eq_refl))).
    apply safe_upto; [lia|]. by apply IH; [lia|lia|].
Qed.

(** peek() found a symbol: it and what follows are left. *)
Lemma peek_take {A} toks p (f : bool → M nat A) Q : (p ≤ es)%nat → toks ⊆ symbols →
  (∀ p1, (p ≤ p1 ≤ es)%nat → safe (f false) Q p1) →
  (∀ p1, (p ≤ p1 ≤ es)%nat → tok_at p1 → safe (f true) Q p1) → safe (b ← peek buf es toks; f b) Q p.
Proof.
  intros Hp Hs Hf Ht. apply safe_bind. eapply safe_mono; [apply peek_safe; [done|by apply sym_not_space]|].
  intros [] p1 [H1 H1']; [apply Ht; [lia|by apply H1']|by apply Hf].
Qed.

Lemma gettoken_take {A} p (f : Z * nat * nat → M nat A) Q : (p ≤ es)%nat → tok_at p →
  (∀ t p1, (p < p1 ≤ es)%nat → safe (f t) Q p1) → safe (t ← gettoken buf es; f t) Q p.
Proof.
  intros Hp Ht HQ. apply safe_bind. eapply safe_mono; [by apply gettoken_safe|]. intros t p1 (H1 & H2 & H3 & _). apply HQ. specialize (H2 (H3 Ht)). lia.
Qed.

(** The nesting of the calls is bounded by the characters left. *)
Lemma parse_safe fuel :
  (∀ p, (p ≤ es)%nat → (4 * (es - p) + 4 ≤ fuel)%nat → safe (parseline buf es fuel) (upto cmd_ok p) p) ∧
  (∀ p, (p ≤ es)%nat → (4 * (es - p) + 3 ≤ fuel)%nat → safe (parsepipe buf es fuel) (upto cmd_ok p) p) ∧
  (∀ p, (p ≤ es)%nat → (4 * (es - p) + 2 ≤ fuel)%nat → safe (parseexec buf es fuel) (upto cmd_ok p) p) ∧
  (∀ p, (p ≤ es)%nat → (4 * (es - p) + 1 ≤ fuel)%nat → safe (parseblock buf es fuel) (upto cmd_ok p) p).
Proof.
  induction fuel as [|fuel (IHl & IHp & IHe & IHb)]; [split_and!; intros; lia|]. split_and!; intros p Hp Hf;
    cbn [parseline parsepipe parseexec parseblock].
  - apply safe_bind. eapply safe_mono; [apply IHp; lia|]. intros c p1 [H1 H1']. apply safe_bind. eapply safe_mono; [apply back_loop_safe; [lia|lia|done]|].
    intros c' p2 [H2 H2']. apply peek_take; [lia|set_solver| |]; intros p3 H3; [apply safe_ret; split; [lia|done]|]. intros Ht.
    apply gettoken_take; [lia|done|]. intros _ p4 H4. apply safe_bind. eapply safe_mono; [apply IHl; lia|]. intros r p5 [H5 H5'].
    apply safe_ret. split; [lia|done].
  - apply safe_bind. eapply safe_mono; [apply IHe; lia|]. intros c p1 [H1 H1']. apply peek_take; [lia|set_solver| |]; intros p3 H3;
      [apply safe_ret; split; [lia|done]|].
    intros Ht. apply gettoken_take; [lia|done|]. intros _ p4 H4. apply safe_bind. eapply safe_mono; [apply IHp; lia|]. intros r p5 [H5 H5'].
    apply safe_ret. split; [lia|done].
  - apply peek_take; [done|set_solver| |]; intros p1 H1.
    + apply safe_bind. eapply safe_mono; [apply parseredirs_safe; [lia|lia|done]|]. intros l p2 [H2 H2']. apply safe_bind.
      eapply safe_mono; [apply args_loop_safe; [lia|lia|]|]; [split; [simpl; unfold MAXARGS; lia|done]|]. intros r p3 (H3 & H3' & H3'' & Hl).
      apply safe_ret. split; [lia|]. by apply redirs_ok.
    + intros _. apply safe_upto; [lia|]. apply IHb; lia.
  - apply peek_take; [done|set_solver| |]; intros p1 H1; [by unfold safe|]. intros Ht. cbn [negb]. apply safe_bind, safe_panic_if. intros _.
    apply gettoken_take; [lia|done|]. intros _ p2 H2. apply safe_bind. eapply safe_mono; [apply IHl; lia|]. intros c p3 [H3 H3'].
    apply peek_take; [lia|set_solver| |]; intros p4 H4; [by unfold safe|]. intros Ht4. cbn [negb]. apply safe_bind, safe_panic_if. intros _.
    apply gettoken_take; [lia|done|]. intros _ p5 H5. apply safe_bind. eapply safe_mono; [apply parseredirs_safe; [lia|lia|done]|]. intros l p6 [H6 H6'].
    apply safe_ret. split; [lia|]. by apply redirs_ok.
Qed.

(** *** nulterminate() *)

(** The words of a command. *)
Fixpoint cmd_words (c : cmd) : list (nat * nat) :=
  match c with
  | EXEC args => args
  | REDIR c r => cmd_words c ++ [(rd_file r, rd_efile r)]
  | PIPE l r | LIST l r => cmd_words l ++ cmd_words r
  | BACK c => cmd_words c
  end.

Lemma cmd_words_ok c : cmd_ok c → Forall word_at (cmd_words c).
Proof. induction c; simpl; [naive_solver|..]; rewrite ?Forall_app, ?Forall_singleton; unfold redir_ok; naive_solver. Qed.
End parser.

Definition nul_at (b : list Z) (w : nat * nat) : list Z := <[w.2 := 0]> b.

Lemma nulterminate_words c b : nulterminate c b = foldl nul_at b (cmd_words c).
Proof.
  revert b. induction c as [args|c IH r|l IHl r IHr|l IHl r IHr|c IH]; intros b; simpl; [done|..]; rewrite ?foldl_app; [by rewrite IH|..|done]; by rewrite IHl, IHr.
Qed.

Lemma nul_lookup ws b i : (i < length b)%nat → foldl nul_at b ws !! i = if decide (i ∈ ws.*2) then Some 0 else b !! i.
Proof.
  revert b. induction ws as [|w ws IH] using rev_ind; intros b Hi; [done|]. rewrite foldl_app. simpl. unfold nul_at at 1.
  assert (Hlen : length (foldl nul_at b ws) = length b).
  { clear. revert b. induction ws as [|w ws IH]; intros b; [done|]. simpl. rewrite IH. apply length_insert. }
  rewrite fmap_app. destruct (decide (i = w.2)) as [->|Hne].
  - rewrite list_lookup_insert_eq by lia. rewrite decide_True; [done|]. set_solver.
  - rewrite list_lookup_insert_ne by done. rewrite IH by done. apply decide_ext. set_solver.
Qed.

(** The string at [q] ends at the first NUL. *)
Lemma cstr_drop (b : list Z) (q n : nat) : (∀ i, (i < n)%nat → ∃ c, b !! (q + i)%nat = Some c ∧ c ≠ 0) → b !! (q + n)%nat = Some 0 →
  cstr (drop q b) = take n (drop q b).
Proof.
  revert q. induction n as [|n IH]; intros q Hn H0.
  - rewrite Nat.add_0_r in H0. by rewrite (drop_S _ _ _ H0).
  - destruct (Hn 0%nat ltac:(lia)) as (c & Hc & Hc0). rewrite Nat.add_0_r in Hc. rewrite (drop_S _ _ _ Hc). simpl. rewrite (proj2 (Z.eqb_neq c 0)) by done.
    f_equal. apply IH; [|by rewrite <-H0; f_equal; lia]. intros i Hi. destruct (Hn (S i) ltac:(lia)) as (d & Hd & Hd0). exists d. split; [|done].
    rewrite <-Hd. f_equal. lia.
Qed.

Section line.
(** A line in a buffer. *)
Context (line rest : list Z) (Hline : 0 ∉ line).
Abbreviation buf := (line ++ 0 :: rest).

Lemma line_end : buf !! length line = Some 0.
Proof. by rewrite lookup_app_r, Nat.sub_diag by lia. Qed.

Lemma line_char i : (i < length line)%nat → ∃ c, buf !! i = Some c ∧ c ≠ 0.
Proof.
  intros Hi. destruct (lookup_lt_is_Some_2 line i Hi) as [c Hc]. exists c. rewrite lookup_app_l by done. split; [done|].
  intros ->. apply Hline. by eapply list_elem_of_lookup_2.
Qed.

Lemma line_strlen : strlen buf = Some (Z.of_nat (length line)).
Proof. rewrite strlen_cstr by set_solver. by rewrite cstr_app_0. Qed.

(** A word keeps its characters, and a NUL is behind it. *)
Lemma word_kept ws w : Forall (word_at buf (length line)) ws → w ∈ ws →
  cstr (drop w.1 (foldl nul_at buf ws)) = take (w.2 - w.1) (drop w.1 line).
Proof.
  intros Hws Hw. pose proof (proj1 (Forall_forall _ _) Hws) as Hall. destruct (Hall w Hw) as (Hlt & Hword & _).
  assert (Hlen : length buf = (length line + S (length rest))%nat) by by rewrite length_app.
  assert (Hkeep : ∀ i, (w.1 ≤ i < w.2)%nat → foldl nul_at buf ws !! i = line !! i).
  { intros i Hi. rewrite nul_lookup by lia. rewrite decide_False; [by rewrite lookup_app_l by lia|].
    intros ((q & e) & -> & Hv)%list_elem_of_fmap. destruct (Hall _ Hv) as (_ & _ & Hend). simpl in *. specialize (Hword e Hi). destruct Hend; [lia|congruence]. }
  rewrite (cstr_drop _ _ (w.2 - w.1)).
  - apply list_eq. intros i. destruct (decide (i < w.2 - w.1)%nat); [|by rewrite !lookup_take_ge by lia].
    rewrite !lookup_take_lt, !lookup_drop by lia. apply Hkeep. lia.
  - intros i Hi. rewrite Hkeep by lia. destruct (line_char (w.1 + i) ltac:(lia)) as (c & Hc & H0). rewrite lookup_app_l in Hc by lia. eauto.
  - rewrite nul_lookup by lia. rewrite decide_True; [done|]. apply list_elem_of_fmap. exists w. split; [lia|done].
Qed.

(** Every word of the command is that part of the line, in the terminated buffer. *)
Definition words_ok (c : cmd) (b : list Z) : Prop :=
  ∀ w, w ∈ cmd_words c → cstr (drop w.1 b) = take (w.2 - w.1) (drop w.1 line).

Lemma parsecmd_safe : safe (parsecmd buf) (λ r _, cmd_ok buf (length line) r.1 ∧ words_ok r.1 r.2) 0.
Proof.
  unfold parsecmd. rewrite line_strlen, Nat2Z.id. cbv zeta. apply safe_bind. unfold goto, safe at 1. simpl. apply safe_bind.
  eapply safe_mono; [apply (parse_safe buf (length line) line_end line_char); lia|]. intros c p1 [H1 H1'].
  apply safe_bind. eapply safe_mono; [apply peek_safe; [apply line_end|apply line_char|lia|set_solver]|]. intros b p2 _.
  apply safe_bind. unfold get, safe at 1. simpl. apply safe_bind, safe_panic_if. intros _. apply safe_ret. split; [done|]. simpl.
  intros w Hw. rewrite nulterminate_words. apply word_kept; [by apply cmd_words_ok|done].
Qed.
End line.

(** C15: the parser of the shell terminates on every line: for any string,
    parsecmd() returns a command or reports a syntax error. It never reads
    behind the end of the string, and its loops and the nesting of its calls
    stay within the bound the length of the string gives. *)
Theorem parsecmd_terminates (line rest : list Z) : 0 ∉ line → safe (parsecmd (line ++ 0 :: rest)) (λ _ _, True) 0.
Proof. intros H0. by eapply safe_mono; [by apply parsecmd_safe|]. Qed.

(** echo a & ; ( cat < in | wc ) > out *)
Definition demo_line : list Z :=
  [101; 99; 104; 111; 32; 97; 32; 38; 32; 59; 32; 40; 32; 99; 97; 116; 32; 60; 32; 105; 110; 32; 124; 32; 119; 99; 32; 41; 32; 62; 32; 111; 117; 116].

Lemma parsecmd_terminates_witness :
  safe (parsecmd (demo_line ++ 0 :: [])) (λ _ _, True) 0 ∧ ∃ r, parsecmd (demo_line ++ [0]) 0%nat = Done r 34%nat.
Proof. split; [apply parsecmd_terminates; unfold demo_line; set_unfold; lia|]. eexists. vm_compute. reflexivity. Defined.

(** C16: the commands the parser returns are well formed: every word, an
    argument or the file of a redirection, is a non-empty maximal run of
    characters of the line that are neither white space nor symbols; a command
    has fewer arguments than the array has places; a redirection reads fd 0 or
    creates for fd 1. And nulterminate() leaves at every word the
    NUL-terminated string of just these characters: no NUL falls into another
    word. *)
Theorem parsecmd_well_formed (line rest b : list Z) (c : cmd) (p : nat) : 0 ∉ line →
  parsecmd (line ++ 0 :: rest) 0%nat = Done (c, b) p →
  cmd_ok (line ++ 0 :: rest) (length line) c ∧ words_ok line c b.
Proof. intros H0 H. pose proof (parsecmd_safe line rest H0) as Hs. unfold safe in Hs. by rewrite H in Hs. Qed.

Lemma parsecmd_well_formed_witness : ∃ c b,
  parsecmd (demo_line ++ [0]) 0%nat = Done (c, b) 34%nat ∧ cmd_ok (demo_line ++ [0]) 34 c ∧ words_ok demo_line c b.
Proof.
  do 2 eexists. split; [vm_compute; reflexivity|]. apply (parsecmd_well_formed demo_line [] _ _ 34); [unfold demo_line; set_unfold; lia|].
  vm_compute. reflexivity.
Defined.
