(* ===== verification/ShRun.v ===== *)
(** * Running a command (sh.c: runcmd, the built-in commands, main)

    runcmd() never returns: what its processes do is a tree, in which fork()
    has the child and the parent as subtrees, and which ends in exec() or exit().
    Each process has its own table of descriptors; a pipe is named by the place
    of its command in the tree. Whether open(), pipe() and each fork() succeed is
    a parameter; panic() prints its message and exits. *)

From S2P Require Import Prelude Str Ulib Sh ShThms.

Definition NOFILE : nat := 16.

(** What a descriptor refers to. *)
Inductive endpoint : Type :=
| Tty
| Opened (name : list Z) (mode : Z)
| PipeR (at_ : list bool)
| PipeW (at_ : list bool).
#[export] Instance endpoint_eq_dec : EqDecision endpoint.
Proof. solve_decision. Defined.

Abbreviation fds := (list (option endpoint)).

(** ** The system calls on descriptors *)

(** The lowest free descriptor. *)
Fixpoint lowest (t : fds) : option nat :=
  match t with
  | [] => None
  | None :: _ => Some O
  | Some _ :: t => S <$> lowest t
  end.
Definition give (x : endpoint) (t : fds) : option (nat * fds) := i ← lowest t; Some (i, <[i := Some x]> t).

Definition do_close (fd : nat) (t : fds) : fds := <[fd := None]> t.
(** dup(), whose result runcmd() ignores. *)
Definition do_dup (fd : nat) (t : fds) : fds :=
  match t !! fd with
  | Some (Some x) => match give x t with Some (_, t) => t | None => t end
  | _ => t
  end.
Definition do_pipe (at_ : list bool) (t : fds) : option (nat * nat * fds) :=
  '(p0, t) ← give (PipeR at_) t; '(p1, t) ← give (PipeW at_) t; Some (p0, p1, t).

(** ** runcmd() *)

Inductive act : Type :=
| Exit
| Exec (argv : list (list Z)) (t : fds)
| Fork (child parent : act)
| Wait (t : fds) (next : act).

(** Which system calls the kernel lets succeed: open() of a file, pipe() and
    the n-th fork() of the command at a place of the tree, and the fork() for
    the n-th line. *)
Record answers : Type := mkAnswers {
  opens : list Z → Z → bool;
  pipes : list bool → bool;
  forks : list bool → nat → bool;
  spawns : nat → bool;
}.

Section run.
Context (k : answers).

(** fork1() *)
Definition fork1 (ok : bool) (child parent : act) : act := if ok then Fork child parent else Exit.

Definition open (name : list Z) (mode : Z) (t : fds) : option fds :=
  if opens k name mode then snd <$> give (Opened name mode) t else None.

(** The command refers to strings in the buffer [b]. *)
Fixpoint runcmd (b : list Z) (c : cmd) (at_ : list bool) (t : fds) : act :=
  let str q := cstr (drop q b) in
  match c with
  | EXEC [] => Exit
  | EXEC args => Exec ((λ w, str w.1) <$> args) t
  | REDIR c r =>
    match open (str (rd_file r)) (rd_mode r) (do_close (Z.to_nat (rd_fd r)) t) with
    | None => Exit
    | Some t => runcmd b c at_ t
    end
  | LIST l r => fork1 (forks k at_ 0) (runcmd b l (at_ ++ [false]) t) (Wait t (runcmd b r (at_ ++ [true]) t))
  | PIPE l r =>
    match (if pipes k at_ then do_pipe at_ t else None) with
    | None => Exit
    | Some (p0, p1, t) =>
      fork1 (forks k at_ 0) (runcmd b l (at_ ++ [false]) (do_close p1 (do_close p0 (do_dup p1 (do_close 1 t)))))
        (fork1 (forks k at_ 1) (runcmd b r (at_ ++ [true]) (do_close p1 (do_close p0 (do_dup p0 (do_close 0 t)))))
          (let t := do_close p1 (do_close p0 t) in Wait t (Wait t Exit)))
    end
  | BACK c => fork1 (forks k at_ 0) (runcmd b c (at_ ++ [false]) t) Exit
  end.

(** [if(fork1() == 0) runcmd(parsecmd(buf));] in the child; panic() of the
    parser ends it. *)
Definition run_line (buf : list Z) (t : fds) : act :=
  match parsecmd buf 0%nat with
  | Done (c, b) _ => runcmd b c [] t
  | _ => Exit
  end.
End run.

(** ** The built-in commands *)

(** [strncmp(s, p, strlen(s)) == 0] *)
Definition begins (s p : list Z) : bool := bool_decide (strncmp s p (length s) = Some 0).

Fixpoint chomp (p : list Z) : list Z := match p with 32 :: p => chomp p | _ => p end.

(** [while(( *p >= '0') && ( *p <= '9'))]; the buffer holds a NUL. *)
Fixpoint makeint_loop (val : Z) (p : list Z) : Z :=
  match p with
  | c :: p => if (48 <=? c) && (c <=? 57) then makeint_loop (s32 (10 * val + (c - 48))) p else val
  | [] => val
  end.
Definition makeint (p : list Z) : Z := makeint_loop 0 p.

Definition w_uid : list Z := [117; 105; 100].
Definition w_gid : list Z := [103; 105; 100].
Definition w_set : list Z := [95; 115; 101; 116].
Definition w_get : list Z := [95; 103; 101; 116].

(** The system calls the built-ins make, or the message they print. *)
Inductive builtin : Type := SetUid (i : Z) | SetGid (i : Z) | GetUid | GetGid | BadSet | BadGet.

Definition setbuiltin (p : list Z) : builtin :=
  let p := chomp (drop 4 p) in
  if begins w_uid p then SetUid (makeint (chomp (drop 3 p)))
  else if begins w_gid p then SetGid (makeint (chomp (drop 3 p)))
  else BadSet.

Definition getbuiltin (p : list Z) : builtin :=
  let p := chomp (drop 4 p) in
  if begins w_uid p then GetUid else if begins w_gid p then GetGid else BadGet.

Definition dobuiltin (cmd : list Z) : list builtin :=
  (if begins w_set cmd then [setbuiltin cmd] else []) ++ (if begins w_get cmd then [getbuiltin cmd] else []).

(** ** main() *)

(** What the shell does with a line. *)
Inductive reaction : Type := Chdir (path : list Z) | Builtins (l : list builtin) | Spawn (a : act).

Definition needs_fork (r : reaction) : bool := match r with Spawn _ => true | _ => false end.

(** getcmd(): memset(), then gets() into buf[100]; None at the end of input. *)
Definition BUFLEN : Z := 100.
Definition getcmd (input : list Z) : option (list Z) :=
  let s := ugets BUFLEN input in
  let buf := s ++ replicate (Z.to_nat BUFLEN - length s) 0 in
  if default 0 (head buf) =? 0 then None else Some buf.

Definition do_line (k : answers) (buf : list Z) (t : fds) : reaction :=
  let at_ i := default 0 (buf !! i) in
  if (at_ 0%nat =? 99) && (at_ 1%nat =? 100) && (at_ 2%nat =? 32) then
    Chdir (cstr (drop 3 (<[(length (cstr buf) - 1)%nat := 0]> buf)))
  else if at_ 0%nat =? 95 then Builtins (dobuiltin buf)
  else Spawn (run_line k buf t).

(** The loop from line [n] on; every line takes at least a byte of the input.
    When fork1() fails the shell itself exits. *)
Fixpoint main_loop (k : answers) (fuel n : nat) (input : list Z) (t : fds) : list reaction :=
  match fuel with
  | O => []
  | S fuel =>
    match getcmd input with
    | None => []
    | Some buf =>
      let r := do_line k buf t in
      if needs_fork r && negb (spawns k n) then []
      else r :: main_loop k fuel (S n) (drop (length (gets_loop (Z.to_nat (BUFLEN - 1)) input)) input) t
    end
  end.

(** [while((fd = open("console", O_RDWR)) >= 0) if(fd >= 3){ close(fd); break; }]
    on a table with free descriptors. *)
Fixpoint three_open (fuel : nat) (t : fds) : fds :=
  match fuel with
  | O => t
  | S fuel =>
    match give Tty t with
    | None => t
    | Some (fd, t') => if (3 <=? fd)%nat then do_close fd t' else three_open fuel t'
    end
  end.
Definition sh_main (k : answers) (input : list Z) (t : fds) : list reaction :=
  main_loop k (S (length input)) 0 input (three_open 4 t).

(** ** What a command line means *)

(** Every exec() in the tree with its descriptors, and those of the waits. *)
Fixpoint execs (a : act) : list (list (list Z) * fds) :=
  match a with
  | Exit => []
  | Exec argv t => [(argv, t)]
  | Fork c p => execs c ++ execs p
  | Wait _ k => execs k
  end.
Fixpoint waits (a : act) : list fds :=
  match a with
  | Exit | Exec _ _ => []
  | Fork c p => waits c ++ waits p
  | Wait t k => t :: waits k
  end.

(** A table with standard input, output and error, and nothing else. *)
Definition std (i o e : endpoint) : fds := [Some i; Some o; Some e] ++ replicate 13 None.

(** The meaning of a command: the programs it runs, each with its input and
    output. A system call that fails ends the process that made it. The words of
    the command are those of [line]. *)
Section meaning.
Context (k : answers) (line : list Z).
Definition text (w : nat * nat) : list Z := take (w.2 - w.1) (drop w.1 line).

Fixpoint programs (c : cmd) (at_ : list bool) (i o : endpoint) : list (list (list Z) * (endpoint * endpoint)) :=
  match c with
  | EXEC [] => []
  | EXEC args => [(text <$> args, (i, o))]
  | REDIR c r =>
    let name := text (rd_file r, rd_efile r) in
    if opens k name (rd_mode r) then
      if rd_fd r =? 0 then programs c at_ (Opened name (rd_mode r)) o else programs c at_ i (Opened name (rd_mode r))
    else []
  | LIST l r => if forks k at_ 0 then programs l (at_ ++ [false]) i o ++ programs r (at_ ++ [true]) i o else []
  | PIPE l r =>
    if pipes k at_ && forks k at_ 0 then
      programs l (at_ ++ [false]) i (PipeW at_) ++ (if forks k at_ 1 then programs r (at_ ++ [true]) (PipeR at_) o else [])
    else []
  | BACK c => if forks k at_ 0 then programs c (at_ ++ [false]) i o else []
  end.

Definition with_std (e : endpoint) (x : list (list Z) * (endpoint * endpoint)) : list (list Z) * fds := (x.1, std x.2.1 x.2.2 e).

(** The descriptors of a redirection and of the two sides of a pipe. *)
Lemma open_std fd name mode i o e : fd = 0 ∨ fd = 1 →
  open k name mode (do_close (Z.to_nat fd) (std i o e)) =
    if opens k name mode then Some (if fd =? 0 then std (Opened name mode) o e else std i (Opened name mode) e) else None.
Proof. unfold open. destruct (opens k name mode); [|done]. by intros [-> | ->]. Qed.

Lemma pipe_std at_ i o e : ∃ t, do_pipe at_ (std i o e) = Some (3%nat, 4%nat, t) ∧
  do_close 4 (do_close 3 (do_dup 4 (do_close 1 t))) = std i (PipeW at_) e ∧ do_close 4 (do_close 3 (do_dup 3 (do_close 0 t))) = std (PipeR at_) o e ∧
  do_close 4 (do_close 3 t) = std i o e.
Proof. by eexists. Qed.

Lemma runcmd_execs b buf es c at_ i o e : cmd_ok buf es c →
  (∀ w, w ∈ cmd_words c → cstr (drop w.1 b) = text w) →
  execs (runcmd k b c at_ (std i o e)) = with_std e <$> programs c at_ i o ∧
  Forall (λ t, ∃ i o, t = std i o e) (waits (runcmd k b c at_ (std i o e))).
Proof.
  revert at_ i o. induction c as [args|c IH r|l IHl r IHr|l IHl r IHr|c IH]; intros at_ i o Hok Hw; cbn [runcmd programs cmd_words cmd_ok] in *.
  - destruct args as [|a args]; [by split|]. split; [|constructor]. cbn [execs]. rewrite fmap_cons. cbn [fmap list_fmap]. unfold with_std. simpl.
    do 2 f_equal. f_equal; [apply Hw; set_solver|]. apply list_fmap_ext. intros n w Hn. apply Hw. apply elem_of_cons. right. by eapply list_elem_of_lookup_2.
  - destruct Hok as [Hc [_ Hr]]. assert (Hfd : rd_fd r = 0 ∨ rd_fd r = 1) by (set_unfold; naive_solver).
    rewrite open_std by done. pose proof (Hw (rd_file r, rd_efile r) ltac:(set_solver)) as Hn. cbn [fst] in Hn. rewrite Hn.
    destruct (opens _ _ _); [|by split]. assert (Hw' : ∀ w, w ∈ cmd_words c → cstr (drop w.1 b) = text w) by (intros w Hin; apply Hw; set_solver).
    destruct (rd_fd r =? 0); by apply IH.
  - destruct (pipes k at_); [|by split]. destruct (pipe_std at_ i o e) as (t & -> & H1 & H2 & H3). rewrite H1, H2, H3. destruct Hok as [Hl Hr].
    unfold fork1. destruct (forks k at_ 0); [|by split]. cbn [execs waits andb].
    destruct (IHl (at_ ++ [false]) i (PipeW at_) Hl ltac:(set_solver)) as [El Wl]. destruct (IHr (at_ ++ [true]) (PipeR at_) o Hr ltac:(set_solver)) as [Er Wr].
    destruct (forks k at_ 1); cbn [execs waits]; rewrite El, ?Er, ?app_nil_r, ?fmap_app; (split; [done|]); rewrite ?Forall_app, ?Forall_cons; eauto 10.
  - destruct Hok as [Hl Hr]. unfold fork1. destruct (forks k at_ 0); [|by split]. cbn [execs waits]. destruct (IHl (at_ ++ [false]) i o Hl ltac:(set_solver)) as [El Wl].
    destruct (IHr (at_ ++ [true]) i o Hr ltac:(set_solver)) as [Er Wr]. rewrite El, Er, fmap_app. split; [done|]. rewrite !Forall_app, !Forall_cons. eauto 10.
  - unfold fork1. destruct (forks k at_ 0); [|by split]. cbn [execs waits]. rewrite !app_nil_r. apply IH; [done|set_solver].
Qed.
End meaning.

(** ** The lines *)

(** A line that fits the buffer with its newline and a NUL. *)
Definition line_fits (l : list Z) : Prop := l ≠ [] ∧ (length l ≤ 98)%nat ∧ Forall (λ c, c ≠ 0 ∧ c ≠ 10 ∧ c ≠ 13) l.

Definition buffer (l : list Z) : list Z := (l ++ [10]) ++ replicate (100 - S (length l)) 0.

Lemma gets_line l rest room : (length l < room)%nat → Forall (λ c, c ≠ 0 ∧ c ≠ 10 ∧ c ≠ 13) l →
  gets_loop room ((l ++ [10]) ++ rest) = l ++ [10].
Proof.
  revert room. induction l as [|c l IH]; intros room Hr Hl; (destruct room as [|room]; [simpl in Hr; lia|]); [done|].
  apply Forall_cons in Hl as [(H0 & H1 & H2) Hl]. cbn [app gets_loop]. rewrite (proj2 (Z.eqb_neq c 10)), (proj2 (Z.eqb_neq c 13)) by done.
  cbn [orb]. f_equal. apply IH; [simpl in Hr; lia|done].
Qed.

Lemma getcmd_line l rest : line_fits l → getcmd ((l ++ [10]) ++ rest) = Some (buffer l).
Proof.
  intros (Hne & Hlen & Hl). unfold getcmd, ugets. rewrite gets_line by (done || (unfold BUFLEN; lia)).
  destruct l as [|c l]; [done|]. apply Forall_cons in Hl as [(H0 & _) _]. cbn [app head default id]. rewrite (proj2 (Z.eqb_neq c 0)) by done.
  f_equal. unfold buffer. cbn [app]. f_equal. rewrite <- app_assoc. f_equal. cbn [length] in *. rewrite !length_app. cbn [length].
  replace (100 - S (S (length l)))%nat with (S (Z.to_nat BUFLEN - S (length l + 1 + 1)))%nat by (unfold BUFLEN; lia). done.
Qed.

Lemma main_loop_lines k ls t fuel n : Forall line_fits ls → (length ls < fuel)%nat → (∀ i, spawns k i = true) →
  main_loop k fuel n (ls ≫= λ l, l ++ [10]) t = (λ l, do_line k (buffer l) t) <$> ls.
Proof.
  revert fuel n. induction ls as [|l ls IH]; intros fuel n Hls Hf Hk; (destruct fuel as [|fuel]; [simpl in Hf; lia|]); [done|].
  apply Forall_cons in Hls as [Hl Hls]. rewrite bind_cons. cbn [main_loop]. rewrite getcmd_line by done. rewrite Hk, andb_false_r, fmap_cons. f_equal.
  destruct Hl as (_ & Hlen & Hl). rewrite gets_line by (done || (unfold BUFLEN; lia)). rewrite drop_app_length. apply IH; [done|simpl in Hf; lia|done].
Qed.

Lemma three_open_std : three_open 4 (replicate 16 None) = std Tty Tty Tty.
Proof. done. Qed.

Lemma bytes_lines (ls : list (list Z)) : (length ls ≤ length (ls ≫= λ l, l ++ [10%Z]))%nat.
Proof. induction ls as [|l ls IH]; [done|]. rewrite bind_cons, !length_app. simpl. lia. Qed.

(** ** Theorems *)

(** C17: a command line runs the programs it names, wired as it says. For every
    line, either it is a syntax error and the child of the shell exits, or the
    processes the shell forks end in exactly the programs of the parsed command,
    with the words of the line as arguments, each with its input and output from
    the redirections and pipes around it, and no other descriptor open; and a
    process that waits has only its three descriptors open, so it keeps no end
    of the pipes it made, and their reader sees the end of its input when the
    writers are gone. This holds whichever calls of open(), pipe() and fork()
    fail: the command whose call fails runs none of its further programs. *)
Theorem shell_wires_programs (k : answers) (line rest : list Z) : 0 ∉ line →
  let a := run_line k (line ++ 0 :: rest) (std Tty Tty Tty) in
  (a = Exit ∧ ∃ msg p, parsecmd (line ++ 0 :: rest) 0%nat = Panic msg p) ∨
  ∃ c b p, parsecmd (line ++ 0 :: rest) 0%nat = Done (c, b) p ∧
    execs a = with_std Tty <$> programs k line c [] Tty Tty ∧ Forall (λ t, ∃ i o, t = std i o Tty) (waits a).
Proof.
  intros H0 a. pose proof (parsecmd_safe line rest H0) as Hs. unfold safe in Hs. unfold a, run_line.
  destruct (parsecmd _ _) as [[c b] p|msg p| | |]; try done; [|left; eauto]. right. exists c, b, p. split; [done|].
  destruct Hs as [Hok Hw]. by eapply runcmd_execs.
Qed.

(** The shell handles its input line by line. For lines that fit its buffer,
    and as long as it can fork, it opens the console as descriptors 0, 1 and 2 and does, in order and until
    the end of the input, what each line says: cd in the shell itself, a built-in
    command, or a child that runs the line. *)
Theorem shell_handles_lines (k : answers) (ls : list (list Z)) : Forall line_fits ls → (∀ n, spawns k n = true) →
  sh_main k (ls ≫= λ l, l ++ [10]) (replicate NOFILE None) = (λ l, do_line k (buffer l) (std Tty Tty Tty)) <$> ls.
Proof.
  intros Hls Hk. unfold sh_main. change (replicate NOFILE None) with (replicate 16 (@None endpoint)). rewrite three_open_std.
  apply main_loop_lines; [done| |done]. pose proof (bytes_lines ls). lia.
Qed.

Definition all_succeed : answers := mkAnswers (λ _ _, true) (λ _, true) (λ _ _, true) (λ _, true).

(** ( cat < in | wc ) > out: cat reads the file in and writes the pipe, wc reads
    the pipe and writes the file out. *)
Definition pipe_line : list Z :=
  [40; 32; 99; 97; 116; 32; 60; 32; 105; 110; 32; 124; 32; 119; 99; 32; 41; 32; 62; 32; 111; 117; 116].

Lemma shell_wires_programs_witness :
  execs (run_line all_succeed (pipe_line ++ [0]) (std Tty Tty Tty)) =
    [([[99; 97; 116]], std (Opened [105; 110] 0) (PipeW []) Tty); ([[119; 99]], std (PipeR []) (Opened [111; 117; 116] 513) Tty)].
Proof.
  destruct (shell_wires_programs all_succeed pipe_line [] ltac:(unfold pipe_line; set_unfold; lia)) as [[_ (msg & p & Hp)]|(c & b & p & Hp & He & _)].
  - vm_compute in Hp. discriminate Hp.
  - rewrite He. vm_compute in Hp. injection Hp as <- _ _. reflexivity.
Defined.

Lemma shell_handles_lines_witness :
  sh_main all_succeed [99; 100; 32; 47; 10; 95; 115; 101; 116; 32; 117; 105; 100; 32; 55; 10] (replicate NOFILE None) =
    [Chdir [47]; Builtins [SetUid 7]].
Proof.
  etrans; [apply (shell_handles_lines all_succeed [[99; 100; 32; 47]; [95; 115; 101; 116; 32; 117; 105; 100; 32; 55]])|reflexivity].
  all: repeat constructor; try discriminate; simpl; lia.
Defined.
