(* ===== verification/Grep.v ===== *)
(** * grep (grep.c)

    The matcher of Kernighan and Pike on NUL-terminated strings, and the loop
    that cuts what it reads into lines. [None] is a read behind the end of a
    string. *)

From S2P Require Import Prelude Str.

Definition r_star : Z := 42.
Definition r_dot : Z := 46.
Definition r_end : Z := 36.
Definition r_start : Z := 94.

(** *** The matcher *)

(** matchstar(c, re, text), with matchhere(re, .) as [here]. *)
Fixpoint matchstar (here : list Z → option bool) (c : Z) (text : list Z) : option bool :=
  b ← here text;
  if (b : bool) then Some true
  else
    match text with
    | [] => None
    | x :: text => if negb (x =? 0) && ((x =? c) || (c =? r_dot)) then matchstar here c text else Some false
    end.

Fixpoint matchhere (re text : list Z) {struct re} : option bool :=
  match re with
  | [] => None
  | c :: re1 =>
    if c =? 0 then Some true
    else
      match re1 with
      | [] => None
      | d :: re2 =>
        if d =? r_star then matchstar (matchhere re2) c text
        else if (c =? r_end) && (d =? 0) then x ← head text; Some (x =? 0)
        else
          x ← head text;
          if negb (x =? 0) && ((c =? r_dot) || (c =? x)) then matchhere re1 (tail text) else Some false
      end
  end.

(** The loop of match(): tries every suffix, the empty one too. *)
Fixpoint match_loop (re text : list Z) : option bool :=
  b ← matchhere re text;
  if (b : bool) then Some true
  else
    match text with
    | [] => None
    | x :: text => if x =? 0 then Some false else match_loop re text
    end.

Definition gmatch (re text : list Z) : option bool :=
  c ← head re;
  if c =? r_start then matchhere (tail re) text else match_loop re text.

(** *** Lines *)

(** strchr(p, '\n') splits the string at p: the line and what follows the
    newline; [Some None] when there is no newline before the NUL. *)
Fixpoint cut_line (p : list Z) : option (option (list Z * list Z)) :=
  match p with
  | [] => None
  | c :: p =>
    if c =? 0 then Some None
    else if c =? 10 then Some (Some ([], p))
    else r ← cut_line p; Some (match r with Some (l, q) => Some (c :: l, q) | None => None end)
  end.

(** The inner loop of grep(): what is written, and the bytes from p on. *)
Fixpoint lines_loop (fuel : nat) (pattern p : list Z) : option (list Z * list Z) :=
  r ← cut_line p;
  match r with
  | None => Some ([], p)
  | Some (line, rest) =>
    match fuel with
    | O => None
    | S fuel =>
      b ← gmatch pattern (line ++ [0]);
      r ← lines_loop fuel pattern rest;
      Some ((if (b : bool) then line ++ [10] else []) ++ r.1, r.2)
    end
  end.

Definition BUFSIZE : nat := 1024.

(** grep(): [kept] are the [m] bytes left in buf, [reads] what the calls of
    read() deliver; a read gives no more than the room it is offered. *)
Fixpoint grep (pattern kept : list Z) (reads : list (list Z)) : option (list Z) :=
  match reads with
  | [] => Some []
  | n :: reads =>
    if bool_decide (length n = 0)%nat then Some []
    else if (BUFSIZE - length kept - 1 <? length n)%nat then None
    else
      let buf := kept ++ n in
      r ← lines_loop (length buf) pattern (buf ++ [0]);
      let p := (length buf + 1 - length r.2)%nat in       (* p - buf *)
      let kept := if (p =? 0)%nat then [] else drop p buf in
      out ← grep pattern kept reads;
      Some (r.1 ++ out)
  end.

(** ** What the matcher matches *)

(** The pattern element [c] matches the character [x]. *)
Definition char_ok (c x : Z) : Prop := c = r_dot ∨ c = x.

(** [here re t]: the pattern [re] matches at the beginning of [t]. A star
    takes any number of characters its element matches. *)
Inductive here : list Z → list Z → Prop :=
| here_nil t : here [] t
| here_star c re t1 t2 : Forall (char_ok c) t1 → here re t2 → here (c :: r_star :: re) (t1 ++ t2)
| here_end : here [r_end] []
| here_char c re x t : head re ≠ Some r_star → (c = r_end → re ≠ []) → char_ok c x → here re t → here (c :: re) (x :: t).

(** [gmatches re t]: the pattern is found in the line. *)
Definition gmatches (re t : list Z) : Prop :=
  match re with
  | c :: re' => if c =? r_start then here re' t else ∃ t1 t2, t = t1 ++ t2 ∧ here re t2
  | [] => True
  end.

Lemma matchstar_spec (h : list Z → option bool) (H : list Z → Prop) c t rest : 0 ∉ t →
  (∀ t', t' `suffix_of` t → ∃ b, h (t' ++ 0 :: rest) = Some b ∧ (b = true ↔ H t')) →
  ∃ b, matchstar h c (t ++ 0 :: rest) = Some b ∧ (b = true ↔ ∃ t1 t2, t = t1 ++ t2 ∧ Forall (char_ok c) t1 ∧ H t2).
Proof.
  induction t as [|x t IH]; intros H0 Hh; destruct (Hh _ (reflexivity _)) as (b & Hb & Hi); cbn [app matchstar] in *; rewrite Hb; cbn [mbind option_bind].
  - destruct b; eexists; (split; [reflexivity|]).
    + split; [|done]. intros _. exists [], []. naive_solver.
    + split; [done|]. intros (t1 & t2 & E & _ & H2). symmetry in E. apply app_nil in E as [-> ->]. by apply Hi.
  - destruct b; [eexists; split; [reflexivity|]; split; [|done]; intros _; exists [], (x :: t); naive_solver|].
    apply not_elem_of_cons in H0 as [Hx0 H0]. rewrite (proj2 (Z.eqb_neq x 0)) by done. cbn [negb andb].
    destruct ((x =? c) || (c =? r_dot)) eqn:Hok.
    + destruct IH as (b & -> & Hb'); [done|intros t' Ht'; apply Hh; by apply suffix_cons_r|]. exists b. split; [done|]. rewrite Hb'. split.
      * intros (t1 & t2 & -> & H1 & H2). exists (x :: t1), t2. split; [done|]. split; [|done]. apply Forall_cons. split; [|done]. unfold char_ok.
        apply orb_true_iff in Hok as [Hok|Hok]; apply Z.eqb_eq in Hok; auto.
      * intros (t1 & t2 & E & H1 & H2). destruct t1 as [|y t1]; [exfalso; simpl in E; subst t2; naive_solver|]. injection E as <- ->.
        apply Forall_cons in H1 as [_ H1]. by exists t1, t2.
    + eexists. split; [reflexivity|]. split; [done|]. intros (t1 & t2 & E & H1 & H2). exfalso.
      destruct t1 as [|y t1]; [simpl in E; subst t2; naive_solver|]. injection E as <- _. apply Forall_cons in H1 as [[->| ->] _];
        apply orb_false_iff in Hok as [? ?]; zbool; done.
Qed.

Lemma char_ok_spec c x : reflect (char_ok c x) ((c =? r_dot) || (c =? x)).
Proof. unfold char_ok. destruct (Z.eqb_spec c r_dot), (Z.eqb_spec c x); constructor; tauto. Qed.

Lemma here_star_iff c re t : here (c :: r_star :: re) t ↔ ∃ t1 t2, t = t1 ++ t2 ∧ Forall (char_ok c) t1 ∧ here re t2.
Proof. split; [inversion 1; subst; [by do 2 eexists|done]|]. intros (t1 & t2 & -> & H1 & H2). by constructor. Qed.

Lemma here_end_iff t : here [r_end] t ↔ t = [].
Proof. split; [inversion 1; subst; naive_solver|]. intros ->. constructor. Qed.

(** An element without a star, and not the anchor at the end. *)
Lemma here_char_iff c re t : head re ≠ Some r_star → (c = r_end → re ≠ []) →
  here (c :: re) t ↔ ∃ x t', t = x :: t' ∧ char_ok c x ∧ here re t'.
Proof.
  intros H1 H2. split; [inversion 1; subst; naive_solver|]. intros (x & t' & -> & H3 & H4). by constructor.
Qed.

(** One step of matchhere() at such an element. *)
Lemma matchhere_char c d re1 re t rest' : c ≠ 0 → d ≠ r_star → (c = r_end → d ≠ 0) → 0 ∉ t → head re ≠ Some r_star → (c = r_end → re ≠ []) →
  (∀ t', 0 ∉ t' → ∃ b, matchhere (d :: re1) (t' ++ 0 :: rest') = Some b ∧ (b = true ↔ here re t')) →
  ∃ b, matchhere (c :: d :: re1) (t ++ 0 :: rest') = Some b ∧ (b = true ↔ here (c :: re) t).
Proof.
  intros Hc Hd Hcd Ht Hre Hce IH. setoid_rewrite (here_char_iff c re t Hre Hce). cbn [matchhere].
  rewrite (proj2 (Z.eqb_neq c 0)), (proj2 (Z.eqb_neq d r_star)) by done.
  assert ((c =? r_end) && (d =? 0) = false) as -> by (destruct (Z.eqb_spec c r_end), (Z.eqb_spec d 0); naive_solver).
  destruct t as [|x t]; cbn [app head mbind option_bind tail]; [eexists; split; [reflexivity|]; naive_solver|].
  apply not_elem_of_cons in Ht as [Hx Ht]. rewrite (proj2 (Z.eqb_neq x 0)) by done. cbn [negb andb].
  destruct (char_ok_spec c x) as [Hok|Hok]; [|eexists; split; [reflexivity|]; naive_solver].
  destruct (IH t Ht) as (b & Hb & Hi). exists b. split; [exact Hb|]. rewrite Hi. naive_solver.
Qed.

(** By induction on the length: a star takes two characters of the pattern. *)
Lemma matchhere_upto n re : (length re ≤ n)%nat → 0 ∉ re → ∀ rest t rest', 0 ∉ t →
  ∃ b, matchhere (re ++ 0 :: rest) (t ++ 0 :: rest') = Some b ∧ (b = true ↔ here re t).
Proof.
  revert re. induction n as [|n IH]; intros re Hlen Hr rest t rest' Ht;
    (destruct re as [|c re]; [eexists; split; [reflexivity|]; split; [by constructor|done]|]); simpl in Hlen; [lia|].
  apply not_elem_of_cons in Hr as [Hc0 Hr]. destruct re as [|d re]; cbn [app].
  - destruct (decide (c = r_end)) as [->|Hce].
    + setoid_rewrite here_end_iff. exists (bool_decide (t = [])). rewrite bool_decide_eq_true. split; [|done]. destruct t as [|x t]; [done|].
      apply not_elem_of_cons in Ht as [Hx _]. simpl. by rewrite (proj2 (Z.eqb_neq x 0)).
    + apply matchhere_char; try done. intros t' Ht'. exists true. split; [done|]. split; [constructor|done].
  - simpl in Hlen. pose proof Hr as Hr'. apply not_elem_of_cons in Hr' as [Hd0 Hr']. destruct (decide (d = r_star)) as [->|Hd].
    + setoid_rewrite here_star_iff. cbn [matchhere]. rewrite (proj2 (Z.eqb_neq c 0)) by done. apply matchstar_spec; [done|].
      intros t' Ht'. apply IH; [lia|done|]. intros Hin. apply Ht. destruct Ht' as [k ->]. set_solver.
    + apply matchhere_char; try done; [simpl; congruence|]. intros t' Ht'. apply (IH (d :: re)); [simpl; lia|done|done].
Qed.

Lemma matchhere_spec re rest t rest' : 0 ∉ re → 0 ∉ t →
  ∃ b, matchhere (re ++ 0 :: rest) (t ++ 0 :: rest') = Some b ∧ (b = true ↔ here re t).
Proof. intros H1 H2. by eapply matchhere_upto. Qed.

Lemma match_loop_spec re rest t rest' : 0 ∉ re → 0 ∉ t →
  ∃ b, match_loop (re ++ 0 :: rest) (t ++ 0 :: rest') = Some b ∧ (b = true ↔ ∃ t1 t2, t = t1 ++ t2 ∧ here re t2).
Proof.
  intros Hr. induction t as [|x t IH]; intros Ht; destruct (matchhere_spec re rest _ rest' Hr Ht) as (b & Hb & Hi); cbn [app match_loop] in *;
    rewrite Hb; cbn [mbind option_bind].
  - destruct b; eexists; (split; [reflexivity|]).
    + split; [|done]. intros _. exists [], []. naive_solver.
    + split; [done|]. intros (t1 & t2 & E & H). symmetry in E. apply app_nil in E as [-> ->]. naive_solver.
  - destruct b; [eexists; split; [reflexivity|]; split; [|done]; intros _; exists [], (x :: t); naive_solver|].
    apply not_elem_of_cons in Ht as [Hx Ht]. rewrite (proj2 (Z.eqb_neq x 0)) by done. destruct (IH Ht) as (b & -> & Hb'). exists b. split; [done|].
    rewrite Hb'. split; intros (t1 & t2 & E & H).
    + subst t. by exists (x :: t1), t2.
    + destruct t1 as [|y t1]; [exfalso; simpl in E; subst t2; naive_solver|]. injection E as <- ->. by exists t1, t2.
Qed.

Lemma gmatch_spec re rest t rest' : 0 ∉ re → 0 ∉ t →
  ∃ b, gmatch (re ++ 0 :: rest) (t ++ 0 :: rest') = Some b ∧ (b = true ↔ gmatches re t).
Proof.
  intros Hr Ht. unfold gmatch, gmatches. destruct re as [|c re]; cbn [app head mbind option_bind tail].
  - destruct t; eexists; (split; [reflexivity|]); done.
  - destruct (Z.eqb_spec c r_start) as [->|Hc].
    + apply matchhere_spec; [set_solver|done].
    + by apply (match_loop_spec (c :: re)).
Qed.

(** ** Lines *)

(** The complete lines of a text that follows [cur], and what is left. *)
Fixpoint split_lines (cur t : list Z) : list (list Z) * list Z :=
  match t with
  | [] => ([], cur)
  | c :: t => if c =? 10 then let r := split_lines [] t in (cur :: r.1, r.2) else split_lines (cur ++ [c]) t
  end.

Definition unlines (ls : list (list Z)) : list Z := ls ≫= λ l, l ++ [10].

Lemma split_app t1 t2 cur :
  split_lines cur (t1 ++ t2) = let r := split_lines cur t1 in let r' := split_lines r.2 t2 in (r.1 ++ r'.1, r'.2).
Proof.
  revert cur. induction t1 as [|c t1 IH]; intros cur; simpl; [by destruct (split_lines cur t2)|].
  destruct (c =? 10); [|apply IH]. rewrite IH. done.
Qed.

Lemma split_none t cur : 10 ∉ t → split_lines cur t = ([], cur ++ t).
Proof.
  revert cur. induction t as [|c t IH]; intros cur H; simpl; [by rewrite app_nil_r|]. apply not_elem_of_cons in H as [Hc H].
  rewrite (proj2 (Z.eqb_neq c 10)) by done. rewrite IH by done. by rewrite <- (assoc_L (++)).
Qed.

Lemma split_first l t : 10 ∉ l → split_lines [] (l ++ 10 :: t) = (l :: (split_lines [] t).1, (split_lines [] t).2).
Proof. intros H. rewrite split_app, (split_none l) by done. done. Qed.

(** A text is empty of newlines or starts with a line. *)
Lemma first_line t : 10 ∉ t ∨ ∃ l t', t = l ++ 10 :: t' ∧ 10 ∉ l.
Proof.
  induction t as [|c t IH]; [left; apply not_elem_of_nil|]. destruct (decide (c = 10)) as [->|Hc].
  - right. exists [], t. split; [done|apply not_elem_of_nil].
  - destruct IH as [H|(l & t' & -> & H)]; [left; apply not_elem_of_cons; naive_solver|]. right. exists (c :: l), t'. split; [done|].
    apply not_elem_of_cons. naive_solver.
Qed.

Lemma cut_none t : 10 ∉ t → 0 ∉ t → cut_line (t ++ [0]) = Some None.
Proof.
  induction t as [|c t IH]; [done|]. intros [Hc H]%not_elem_of_cons [Hc' H']%not_elem_of_cons. simpl.
  rewrite (proj2 (Z.eqb_neq c 0)), (proj2 (Z.eqb_neq c 10)) by done. by rewrite IH.
Qed.

Lemma cut_first l t : 10 ∉ l → 0 ∉ l → cut_line (l ++ 10 :: t) = Some (Some (l, t)).
Proof.
  induction l as [|c l IH]; [done|]. intros [Hc H]%not_elem_of_cons [Hc' H']%not_elem_of_cons. simpl.
  rewrite (proj2 (Z.eqb_neq c 0)), (proj2 (Z.eqb_neq c 10)) by done. by rewrite IH.
Qed.

(** The complete lines, and a rest without newlines, make up the text. *)
Lemma split_text t : t = unlines (split_lines [] t).1 ++ (split_lines [] t).2.
Proof.
  assert (H : ∀ cur, cur ++ t = unlines (split_lines cur t).1 ++ (split_lines cur t).2); [|apply (H [])].
  induction t as [|c t IH]; intros cur; simpl; [apply app_nil_r|]. destruct (Z.eqb_spec c 10) as [->|Hc]; [|by rewrite <- IH, <- (assoc_L (++))].
  unfold unlines. cbn [mbind list_bind fst snd]. rewrite <- !(assoc_L (++)). f_equal. simpl. f_equal. apply (IH []).
Qed.

Lemma split_rest cur t : 10 ∉ cur → 10 ∉ (split_lines cur t).2.
Proof.
  revert cur. induction t as [|c t IH]; intros cur H; simpl; [done|]. destruct (Z.eqb_spec c 10); [apply IH, not_elem_of_nil|]. apply IH. set_solver.
Qed.

Lemma split_some cur t : 10 ∈ t → (split_lines cur t).1 ≠ [].
Proof.
  revert cur. induction t as [|c t IH]; intros cur H; simpl; [by apply not_elem_of_nil in H|]. destruct (Z.eqb_spec c 10); [done|]. apply IH. set_solver.
Qed.

(** The rest of a text that has lines starts where p ends up. *)
Lemma split_drop t : 10 ∈ t → let p := (length t + 1 - length ((split_lines [] t).2 ++ [0%Z]))%nat in
  (p =? 0)%nat = false ∧ drop p t = (split_lines [] t).2.
Proof.
  intros H. pose proof (split_some [] t H) as Hls. pose proof (split_text t) as Ht. set (ls := (split_lines [] t).1) in *. set (r := (split_lines [] t).2) in *.
  assert (E : (length t + 1 - length (r ++ [0%Z]))%nat = length (unlines ls)) by (rewrite Ht at 1; rewrite !length_app; simpl; lia).
  cbv zeta. rewrite E. split; [|by rewrite Ht, drop_app_length]. apply Nat.eqb_neq. destruct ls as [|l ls']; [done|].
  unfold unlines. simpl. rewrite !length_app. simpl. lia.
Qed.

Section lines.
(** A pattern. *)
Context (re rest : list Z) (Hre : 0 ∉ re).
Abbreviation pattern := (re ++ 0 :: rest).

(** The lines grep prints. *)
Definition line_ok (l : list Z) : Prop := gmatch pattern (l ++ [0]) = Some true.
#[global] Instance line_ok_dec l : Decision (line_ok l).
Proof using. unfold line_ok. apply _. Defined.

Lemma line_ok_iff l : 0 ∉ l → line_ok l ↔ gmatches re l.
Proof. intros Hl. unfold line_ok. destruct (gmatch_spec re rest l [] Hre Hl) as (b & -> & Hb). rewrite <- Hb. naive_solver. Qed.

Lemma lines_loop_spec fuel t : 0 ∉ t → (length t ≤ fuel)%nat →
  lines_loop fuel pattern (t ++ [0]) = Some (unlines (filter line_ok (split_lines [] t).1), (split_lines [] t).2 ++ [0]).
Proof.
  revert t. induction fuel as [|fuel IH]; intros t H0 Hf; cbn [lines_loop].
  { destruct t; [done|simpl in Hf; lia]. }
  destruct (first_line t) as [Hn|(l & t' & -> & Hl)].
  - rewrite cut_none, split_none by done. done.
  - rewrite <- (assoc_L (++)). cbn [app]. assert (0 ∉ l) by set_solver. assert (0 ∉ t') by set_solver. rewrite cut_first by done. cbn [mbind option_bind].
    destruct (gmatch_spec re rest l [] Hre ltac:(done)) as (b & Hb & _). rewrite Hb. cbn [mbind option_bind].
    rewrite IH; [|done|rewrite length_app in Hf; simpl in Hf; lia]. cbn [mbind option_bind fst snd]. rewrite split_first by done. cbn [fst snd].
    f_equal. f_equal. destruct b.
    + rewrite filter_cons_True by done. done.
    + rewrite filter_cons_False by (unfold line_ok; congruence). done.
Qed.

(** Every read brings a newline, and what it brings fits behind what was kept. *)
Fixpoint fits (kept : list Z) (reads : list (list Z)) : Prop :=
  match reads with
  | [] => True
  | n :: reads => (10 ∈ n) ∧ (0 ∉ n) ∧ (length kept + length n < BUFSIZE)%nat ∧ fits (split_lines kept n).2 reads
  end.

Lemma grep_spec reads kept : 0 ∉ kept → 10 ∉ kept → fits kept reads →
  grep pattern kept reads = Some (unlines (filter line_ok (split_lines kept (concat reads)).1)).
Proof.
  revert kept. induction reads as [|n reads IH]; intros kept H0 H10 Hf; [done|]. destruct Hf as (Hn & Hn0 & Hlen & Hf). cbn [grep concat].
  rewrite bool_decide_false by (destruct n; [by apply not_elem_of_nil in Hn|done]). rewrite (proj2 (Nat.ltb_ge _ _)) by (unfold BUFSIZE in *; lia).
  cbv zeta. rewrite lines_loop_spec; [|set_solver|lia]. cbn [mbind option_bind fst snd].
  destruct (split_drop (kept ++ n)) as [-> ->]; [set_solver|].
  assert (Esp : split_lines [] (kept ++ n) = split_lines kept n) by (rewrite split_app, (split_none kept) by done; simpl; by destruct (split_lines kept n)).
  pose proof (split_text (kept ++ n)) as Ht. rewrite Esp in *. assert (Hr0 : 0 ∉ (split_lines kept n).2).
  { intros Hin. assert (Hk : 0 ∈ kept ++ n) by (rewrite Ht; set_solver). set_solver. }
  rewrite IH; [|done|by apply split_rest|done].
  cbn [mbind option_bind]. rewrite split_app. cbn [fst snd]. rewrite filter_app. unfold unlines. by rewrite bind_app.
Qed.
End lines.

(** [picked P ls out]: [out] are the elements of [ls] with [P], each as often as
    it occurs, in their order. *)
Inductive picked (P : list Z → Prop) : list (list Z) → list (list Z) → Prop :=
| picked_nil : picked P [] []
| picked_yes l ls out : P l → picked P ls out → picked P (l :: ls) (l :: out)
| picked_no l ls out : ¬ P l → picked P ls out → picked P (l :: ls) out.

Lemma picked_filter P Q `{!∀ l, Decision (Q l)} ls : (∀ l, l ∈ ls → Q l ↔ P l) → picked P ls (filter Q ls).
Proof.
  induction ls as [|l ls IH]; intros HQ; [constructor|]. rewrite filter_cons. pose proof (HQ l ltac:(set_solver)) as Hl.
  case_decide; constructor; first [tauto | apply IH; set_solver].
Qed.

(** Lines of an input without NUL have none. *)
Lemma fits_lines reads l kept : fits kept reads → l ∈ (split_lines [] (concat reads)).1 → 0 ∉ l.
Proof.
  intros Hf Hl Hin. assert (Hc : 0 ∈ concat reads).
  { rewrite (split_text (concat reads)). unfold unlines. apply elem_of_app. left. apply list_elem_of_bind. exists l. set_solver. }
  clear Hl Hin. revert kept Hf. induction reads as [|n reads IH]; intros kept Hf; [by apply not_elem_of_nil in Hc|].
  destruct Hf as (_ & Hn & _ & Hf). simpl in Hc. apply elem_of_app in Hc as [Hc|Hc]; [done|]. by eapply IH.
Qed.

(** ** Theorems *)

(** C33: grep() prints exactly the lines of its input in which the pattern is
    found, each as often as it occurs and in order, whatever the sizes of the
    pieces read() delivers, as long as neither the pattern nor the input has a
    NUL byte and every piece brings a newline and fits into the buffer behind
    what was kept of the last one; the matcher terminates and finds a pattern
    iff it matches as a regular expression: a dot is any character, a star any
    number of the element before it, ^ and $ the ends of the line. *)
Theorem grep_prints_matches (re rest : list Z) (reads : list (list Z)) : 0 ∉ re → fits [] reads →
  ∃ ls, picked (gmatches re) (split_lines [] (concat reads)).1 ls ∧ grep (re ++ 0 :: rest) [] reads = Some (unlines ls).
Proof.
  intros Hre Hf. exists (filter (line_ok re rest) (split_lines [] (concat reads)).1). split.
  - apply picked_filter. intros l Hl. apply line_ok_iff; [done|]. by eapply fits_lines.
  - apply grep_spec; [done|apply not_elem_of_nil|apply not_elem_of_nil|done].
Qed.

(** But a piece without a newline is dropped, also when the rest of its
    line comes with the next read(), as it does from a pipe or a terminal: for
    the pattern abc and the line abc in two pieces nothing is printed, and for
    the pattern c only the second piece is, as if it were the line. *)
Theorem grep_loses_pieces :
  gmatches [97; 98; 99] [97; 98; 99] ∧
  grep [97; 98; 99; 0] [] [[97; 98; 99; 10]] = Some [97; 98; 99; 10] ∧
  grep [97; 98; 99; 0] [] [[97; 98]; [99; 10]] = Some [] ∧
  grep [99; 0] [] [[97; 98]; [99; 10]] = Some [99; 10].
Proof.
  split; [|vm_compute; tauto]. exists [], [97; 98; 99]. split; [done|].
  repeat (apply here_char; [done|done|by right|]). apply here_nil.
Qed.

(** ^a*.$ on aab, ab, cd and ab in two pieces *)
Lemma grep_prints_matches_witness : ∃ ls,
  picked (gmatches [94; 97; 42; 46; 36]) [[97; 97; 98]; [97; 98]; [99; 100]; [97; 98]] ls ∧
  grep [94; 97; 42; 46; 36; 0] [] [[97; 97; 98; 10; 97]; [98; 10; 99; 100; 10; 97; 98; 10]] = Some (unlines ls).
Proof.
  apply (grep_prints_matches [94; 97; 42; 46; 36] [] [[97; 97; 98; 10; 97]; [98; 10; 99; 100; 10; 97; 98; 10]]).
  - set_unfold. lia.
  - unfold fits, BUFSIZE. simpl. split_and!; try lia; set_unfold; lia.
Defined.
