(* ===== verification/Umalloc.v ===== *)
(** * The allocator of the user programs (umalloc.c)

    The allocator of Kernighan and Ritchie: the free blocks are in a circular
    list ordered by address, with the static header [base] as its first
    element. The memory is the ptr and size fields of the headers, by address;
    the data between headers belongs to the program. sbrk() is the system call:
    it gives the memory behind the break, if the kernel has it. The loops over
    the list are bounded by a number of iterations [fuel]; the theorems say how
    much is enough. *)

From S2P Require Import Prelude.

Record heap : Type := mkHeap { h_ptr : Z → Z; h_size : Z → Z; h_freep : Z; h_brk : Z }.
#[export] Instance heap_eta : Eta heap := λ s, mkHeap (h_ptr s) (h_size s) (h_freep s) (h_brk s).

Section umalloc.
(** The address of base; whether the kernel grants [n] more bytes at a break. *)
Context (base : Z) (avail : Z → Z → bool) (fuel : nat).
Abbreviation H := (M heap).

Definition ptr_of (a : Z) : H Z := gets (λ s, h_ptr s a).
Definition size_of (a : Z) : H Z := gets (λ s, h_size s a).
Definition set_ptr (a v : Z) : H unit := modify (λ s, s <| h_ptr ::= λ f, <[a := v]> f |>).
Definition set_size (a v : Z) : H unit := modify (λ s, s <| h_size ::= λ f, <[a := v]> f |>).
Definition set_freep (p : Z) : H unit := modify (λ s, s <| h_freep := p |>).

(** [p + n] on a Header pointer. *)
Definition hdr_add (p n : Z) : Z := u32 (p + 8 * n).

(** The loop of free(). *)
Fixpoint free_search (n : nat) (bp p : Z) : H Z :=
  ptr ← ptr_of p;
  if (p <? bp) && (bp <? ptr) then mret p
  else if (ptr <=? p) && ((p <? bp) || (bp <? ptr)) then mret p
  else match n with O => nofuel | S n => free_search n bp ptr end.

(** The block joined with, or linked to, what follows [p]. *)
Definition join_next (bp p : Z) : H unit :=
  bsize ← size_of bp;
  pptr ← ptr_of p;
  if hdr_add bp bsize =? pptr then
    nsize ← size_of pptr;
    set_size bp (u32 (bsize + nsize));;
    nptr ← ptr_of pptr;
    set_ptr bp nptr
  else set_ptr bp pptr.

(** [p] joined with the block, or linked to it. *)
Definition join_prev (bp p : Z) : H unit :=
  psize ← size_of p;
  if hdr_add p psize =? bp then
    bsize ← size_of bp;
    set_size p (u32 (psize + bsize));;
    bptr ← ptr_of bp;
    set_ptr p bptr
  else set_ptr p bp.

Definition free (ap : Z) : H unit :=
  let bp := u32 (ap - 8) in
  freep ← gets h_freep;
  p ← free_search fuel bp freep;
  join_next bp p;;
  join_prev bp p;;
  set_freep p.

(** The system call: its argument is an int, -1 is the failure. *)
Definition sbrk (n : Z) : H Z :=
  b ← gets h_brk;
  if avail b (s32 n) then modify (λ s, s <| h_brk := b + s32 n |>);; mret b else mret (u32 (-1)).

Definition morecore (nu : Z) : H Z :=
  let nu := if nu <? 4096 then 4096 else nu in
  p ← sbrk (u32 (nu * 8));
  if p =? u32 (-1) then mret 0
  else
    set_size p nu;;
    free (hdr_add p 1);;
    gets h_freep.

(** Taking [nunits] from the block [p] of size [sz]. *)
Definition take_block (nunits prevp p sz : Z) : H Z :=
  p ← (if sz =? nunits then
         np ← ptr_of p;
         set_ptr prevp np;;
         mret p
       else
         set_size p (u32 (sz - nunits));;
         let p := hdr_add p (u32 (sz - nunits)) in
         set_size p nunits;;
         mret p);
  set_freep prevp;;
  mret (hdr_add p 1).

Fixpoint malloc_loop (n : nat) (nunits prevp p : Z) : H Z :=
  sz ← size_of p;
  if nunits <=? sz then take_block nunits prevp p sz
  else
    match n with
    | O => nofuel
    | S n =>
      freep ← gets h_freep;
      if p =? freep then
        p ← morecore nunits;
        if p =? 0 then mret 0 else q ← ptr_of p; malloc_loop n nunits p q
      else q ← ptr_of p; malloc_loop n nunits p q
    end.

Definition nunits_of (nbytes : Z) : Z := u32 (u32 (nbytes + 8 - 1) / 8 + 1).

Definition malloc (nbytes : Z) : H Z :=
  freep ← gets h_freep;
  when (freep =? 0) (
    set_ptr base base;;
    set_freep base;;
    set_size base 0);;
  prevp ← gets h_freep;
  p ← ptr_of prevp;
  malloc_loop (2 * fuel) (nunits_of nbytes) prevp p.
End umalloc.
