(* ===== verification/UmallocInv.v ===== *)
(** * The heap of the user programs: its invariant, and free()

    [heap_ok] describes the heap by two lists: the free blocks, in the order of
    their addresses and with a gap between neighbours, and the blocks the
    program holds. free() finds the place of a block from any starting point
    of the circular list, and keeps the invariant. *)

From S2P Require Import Prelude Umalloc.

(** A block: the address of its header, and its size in headers. *)
Abbreviation block := (Z * Z)%type.
Definition bend (x : block) : Z := x.1 + 8 * x.2.
Definition disj (x y : block) : Prop := bend x ≤ y.1 ∨ bend y ≤ x.1.
Definition first (B : list block) (e : Z) : Z := match B with [] => e | x :: _ => x.1 end.

(** The blocks are linked, the last one to [e]. *)
Fixpoint chain (ptr : Z → Z) (B : list block) (e : Z) : Prop :=
  match B with [] => True | x :: B => ptr x.1 = first B e ∧ chain ptr B e end.

(** Ascending, with a gap between neighbours. *)
Fixpoint gapped (B : list block) : Prop :=
  match B with [] => True | x :: B => 0 ≤ x.2 ∧ match B with [] => True | y :: _ => bend x < y.1 end ∧ gapped B end.

Lemma chain_app ptr B1 B2 e : chain ptr (B1 ++ B2) e ↔ chain ptr B1 (first B2 e) ∧ chain ptr B2 e.
Proof.
  induction B1 as [|x B1 IH]; simpl; [tauto|]. rewrite IH. destruct B1; simpl; tauto.
Qed.

Lemma chain_ext ptr ptr' B e : (∀ a, a ∈ B.*1 → ptr' a = ptr a) → chain ptr B e → chain ptr' B e.
Proof.
  induction B as [|x B IH]; intros HB; simpl; [done|]. intros [Hx Hc]. split; [rewrite HB by set_solver; done|]. apply IH; [set_solver|done].
Qed.

Lemma gapped_app B1 x B2 : gapped (B1 ++ x :: B2) ↔ gapped (B1 ++ [x]) ∧ gapped (x :: B2).
Proof.
  induction B1 as [|y B1 IH]; cbn [app]; [simpl; tauto|]. cbn [gapped]. rewrite IH. destruct B1; simpl; tauto.
Qed.

(** Earlier blocks end before later ones start. *)
Lemma gapped_lt x B y : gapped (x :: B) → y ∈ B → bend x < y.1.
Proof.
  revert x. induction B as [|z B IH]; intros x Hg Hy; [by apply not_elem_of_nil in Hy|]. destruct Hg as (H0 & H1 & H2).
  apply elem_of_cons in Hy as [->|Hy]; [done|]. specialize (IH z H2 Hy). destruct H2 as [H2 _]. unfold bend in *. lia.
Qed.

Lemma gapped_before B1 x B2 y : gapped (B1 ++ x :: B2) → y ∈ B1 → bend y < x.1.
Proof.
  intros Hg Hy. apply list_elem_of_split in Hy as (C1 & C2 & ->). rewrite <- (assoc_L (++)) in Hg. cbn [app] in Hg.
  apply gapped_app in Hg as [_ Hg]. eapply gapped_lt; [exact Hg|]. set_solver.
Qed.

Lemma gapped_nodup B : gapped B → NoDup B.*1.
Proof.
  induction B as [|x B IH]; intros Hg; [constructor|]. apply NoDup_cons. split; [|apply IH, Hg].
  intros (y & Hy & Hin)%list_elem_of_fmap. pose proof (gapped_lt _ _ _ Hg Hin). destruct Hg as [H0 _]. unfold bend in *. lia.
Qed.

(** The place of an address: behind [x], before what follows it. *)
Lemma place B b : ∀ x, x.1 < b → (∀ y, y ∈ B → y.1 ≠ b) → gapped (x :: B) →
  ∃ B1 z B2, x :: B = B1 ++ z :: B2 ∧ z.1 < b ∧ ∀ y, y ∈ B2 → b < y.1.
Proof.
  induction B as [|y B IH]; intros x Hx Hne Hg.
  - exists [], x, []. split; [done|]. split; [done|]. intros y Hy. by apply not_elem_of_nil in Hy.
  - destruct (decide (y.1 < b)) as [Hlt|Hge].
    + destruct (IH y Hlt ltac:(set_solver) (proj2 (proj2 Hg))) as (B1 & z & B2 & E & H). exists (x :: B1), z, B2. split; [by rewrite E|done].
    + exists [], x, (y :: B). split; [done|]. split; [done|]. pose proof (Hne y ltac:(set_solver)) as Hyb.
      intros w [->|Hw]%elem_of_cons; [lia|]. pose proof (gapped_lt y B w (proj2 (proj2 Hg)) Hw). destruct Hg as (_ & _ & Hg0 & _). unfold bend in *. lia.
Qed.

(** ** The search of free() *)

Section search.
Context (base : Z) (s : heap) (b : Z).

Definition found (n : nat) (p x : Z) : Prop := free_search n b p s = Done x s.

Lemma search_eq n p : free_search n b p s =
  if (p <? b) && (b <? h_ptr s p) then Done p s
  else if (h_ptr s p <=? p) && ((p <? b) || (b <? h_ptr s p)) then Done p s
  else match n with O => NoFuel | S n => free_search n b (h_ptr s p) s end.
Proof.
  destruct n; cbn [free_search]; unfold ptr_of, gets, mbind, M_bind, mret, M_ret; (destruct ((p <? b) && (b <? h_ptr s p)); [done|]); by destruct (_ && _).
Qed.

Lemma search_step n p x : ¬ (p < b < h_ptr s p) → ¬ (h_ptr s p ≤ p ∧ (p < b ∨ b < h_ptr s p)) → found n (h_ptr s p) x → found (S n) p x.
Proof.
  intros H1 H2 H3. unfold found. rewrite search_eq.
  destruct (Z.ltb_spec p b), (Z.ltb_spec b (h_ptr s p)), (Z.leb_spec (h_ptr s p) p); cbn [andb orb]; try lia; exact H3.
Qed.

Lemma search_stop n p : p < b < h_ptr s p ∨ (h_ptr s p ≤ p ∧ (p < b ∨ b < h_ptr s p)) → found n p p.
Proof.
  intros H. unfold found. rewrite search_eq.
  destruct (Z.ltb_spec p b), (Z.ltb_spec b (h_ptr s p)), (Z.leb_spec (h_ptr s p) p); cbn [andb orb]; try lia; reflexivity.
Qed.

(** From a block at or before the place. *)
Lemma search_fwd B1 x B2 : base < b → base ≤ first (B1 ++ [x]) 0 → chain (h_ptr s) (B1 ++ x :: B2) base → gapped (B1 ++ x :: B2) → x.1 < b → (∀ y, y ∈ B2 → b < y.1) →
  ∀ n, (length B1 ≤ n)%nat → found n (first (B1 ++ [x]) 0) x.1.
Proof.
  intros Hb. induction B1 as [|y B1 IH]; intros Hf Hc Hg Hx HB2 n Hn.
  - apply search_stop. destruct Hc as [-> _]. cbn [first app] in *. destruct B2 as [|z B2]; cbn [first]; [lia|]. pose proof (HB2 z ltac:(set_solver)). lia.
  - destruct n as [|n]; [simpl in Hn; lia|]. destruct Hc as [Hp Hc]. cbn [first app]. pose proof Hg as (H0 & H1 & Hg').
    assert (E : h_ptr s y.1 = first (B1 ++ [x]) 0) by (rewrite Hp; by destruct B1).
    assert (Hlt : y.1 < first (B1 ++ [x]) 0 ≤ x.1).
    { destruct B1 as [|z B1]; cbn [first app] in *; [unfold bend in *; lia|]. pose proof (gapped_before (z :: B1) x B2 z Hg' ltac:(set_solver)).
      destruct Hg' as [? _]. unfold bend in *. lia. }
    cbn [first app] in Hf. apply search_step; rewrite E; [lia|lia|]. apply IH; [lia|done|done|done|done|simpl in Hn; lia].
Qed.

(** From a block behind the place, around the end of the list. *)
Lemma search_around C x : base < b → C ≠ [] → chain (h_ptr s) C base → gapped C → (∀ y, y ∈ C → b < y.1) →
  ∀ n, found n base x → found (length C + n) (first C 0) x.
Proof.
  intros Hb. induction C as [|y C IH]; intros HC Hc Hg HC2 n Hn; [done|]. destruct Hc as [Hp Hc]. cbn [first length Nat.add].
  pose proof (HC2 y ltac:(set_solver)) as Hy. destruct C as [|z C].
  - cbn [first] in Hp. apply search_step; rewrite Hp; [lia|lia|done].
  - cbn [first] in Hp. pose proof (gapped_lt y (z :: C) z Hg ltac:(set_solver)) as Hz. destruct Hg as (H0 & _ & Hg). unfold bend in Hz.
    apply search_step; rewrite Hp; [lia|lia|]. apply IH; [done|done|done| |done]. intros w Hw. apply HC2. set_solver.
Qed.

Lemma search_spec B1 x B2 f n : base < b → first (B1 ++ [x]) 0 = base → chain (h_ptr s) (B1 ++ x :: B2) base → gapped (B1 ++ x :: B2) →
  x.1 < b → (∀ y, y ∈ B2 → b < y.1) → f ∈ (B1 ++ x :: B2).*1 → (length (B1 ++ x :: B2) ≤ n)%nat → found n f x.1.
Proof.
  intros Hb Hf Hc Hg Hx HB2 Hin Hn. rewrite length_app in Hn. simpl in Hn.
  pose proof (search_fwd B1 x B2 Hb ltac:(lia) Hc Hg Hx HB2) as Hfwd. rewrite Hf in Hfwd.
  assert (Hmem : f ∈ (B1 ++ [x]).*1 ∨ f ∈ B2.*1) by (rewrite !fmap_app in *; set_solver). destruct Hmem as [Hmem|Hmem].
  - apply list_elem_of_fmap in Hmem as (y & -> & Hy). apply list_elem_of_split in Hy as (C1 & C2 & E).
    destruct (snoc_or_nil C2) as [->|(C2' & z & ->)].
    + apply app_inj_tail in E as [-> <-]. apply search_fwd with (B1 := []) (B2 := B2); try done; [simpl|apply chain_app in Hc; apply Hc|apply gapped_app in Hg; apply Hg|simpl; lia].
      destruct C1 as [|w C1]; [simpl in Hf; lia|]. simpl in Hf. pose proof (gapped_before (w :: C1) x B2 w Hg ltac:(set_solver)). destruct Hg as [? _]. unfold bend in *. lia.
    + rewrite app_comm_cons, (assoc_L (++)) in E. apply app_inj_tail in E as [-> ->]. rewrite <- (assoc_L (++)) in Hc, Hg. cbn [app] in Hc, Hg.
      apply chain_app in Hc as [_ Hc]. pose proof Hg as Hg0. apply gapped_app in Hg as [_ Hg].
      apply (search_fwd (y :: C2') z B2); try done; [|rewrite length_app in Hn; simpl in *; lia]. cbn [first app].
      destruct C1 as [|w C1]; [simpl in Hf; lia|]. simpl in Hf. pose proof (gapped_before (w :: C1) y (C2' ++ z :: B2) w Hg0 ltac:(set_solver)).
      destruct Hg0 as [? _]. unfold bend in *. lia.
  - apply list_elem_of_fmap in Hmem as (y & -> & Hy). apply list_elem_of_split in Hy as (C1 & C2 & ->).
    assert (Hc2 : chain (h_ptr s) (y :: C2) base).
    { apply chain_app in Hc as [_ [_ Hc]]. by apply chain_app in Hc as [_ Hc]. }
    assert (Hg2 : gapped (y :: C2)).
    { change (x :: C1 ++ y :: C2) with ((x :: C1) ++ y :: C2) in Hg. rewrite (assoc_L (++)) in Hg. by apply gapped_app in Hg as [_ Hg]. }
    rewrite length_app in Hn. simpl in Hn. replace n with (length (y :: C2) + (n - length (y :: C2)))%nat by (simpl; lia).
    apply (search_around (y :: C2)); [done|done|done|done|set_solver|]. apply Hfwd. simpl. lia.
Qed.
End search.

(** ** What free() does to the list *)

(** The block [b] joined with its right neighbour, and what follows. *)
Definition join_right (b : block) (B2 : list block) : block * list block :=
  match B2 with
  | y :: B3 => if bend b =? y.1 then ((b.1, b.2 + y.2), B3) else (b, B2)
  | [] => (b, [])
  end.

(** [b] put behind [x], joined with its neighbours where they touch. *)
Definition merge (x b : block) (B2 : list block) : list block :=
  let r := join_right b B2 in
  if bend x =? b.1 then (x.1, x.2 + r.1.2) :: r.2 else x :: r.1 :: r.2.

(** All that free() relies on and keeps about a block. *)
Definition fits_in (hi : Z) (x : block) : Prop := 0 < x.1 ∧ 0 ≤ x.2 ∧ bend x ≤ hi ∧ hi < 2 ^ 31.

Lemma hdr_add_bend hi x : fits_in hi x → hdr_add x.1 x.2 = bend x.
Proof. intros (H1 & H2 & H3 & H4). unfold hdr_add, bend in *. apply u32_small. lia. Qed.

Lemma join_right_spec hi b B2 : fits_in hi b → Forall (fits_in hi) B2 → gapped B2 → 1 ≤ b.2 → (∀ y, y ∈ B2 → bend b ≤ y.1) →
  let r := join_right b B2 in
  r.1.1 = b.1 ∧ b.2 ≤ r.1.2 ∧ fits_in hi r.1 ∧ Forall (fits_in hi) r.2 ∧ gapped (r.1 :: r.2) ∧ (∀ y, y ∈ r.2 → y ∈ B2).
Proof.
  intros Hb HB Hg H1 Hlt. unfold join_right. destruct B2 as [|y B3]; [simpl; naive_solver lia|]. apply Forall_cons in HB as [Hy HB].
  pose proof (Hlt y ltac:(set_solver)) as Hby. destruct (Z.eqb_spec (bend b) y.1) as [E|E]; cbn [fst snd].
  - destruct Hb as (?&?&?&?), Hy as (?&?&?&?). unfold fits_in, bend in *. simpl. destruct Hg as (_ & Hg1 & Hg2). split_and!; try lia; try done; [|set_solver].
    destruct B3; [done|]. unfold bend in *. simpl. lia.
  - split_and!; try done; [by apply Forall_cons|]. split; [lia|]. split; [lia|done].
Qed.

Section free.
Context (base hi : Z).

Lemma join_next_spec s (x b : block) B2 : base < b.1 → h_ptr s x.1 = first B2 base → chain (h_ptr s) B2 base →
  fits_in hi b → Forall (fits_in hi) B2 → (∀ y, y ∈ b :: B2 → h_size s y.1 = y.2) →
  wp (join_next b.1 x.1) (λ _ s1, h_ptr s1 = <[b.1 := first (join_right b B2).2 base]> (h_ptr s) ∧
    h_size s1 b.1 = (join_right b B2).1.2 ∧ (∀ a, a ≠ b.1 → h_size s1 a = h_size s a) ∧ h_brk s1 = h_brk s) s.
Proof.
  intros Hbase Hpx Hc2 Hfb HfB Hsz. unfold join_next. apply wp_bind, wp_gets, wp_bind, wp_gets. cbn beta. rewrite (Hsz b), Hpx by set_solver.
  rewrite (hdr_add_bend hi) by done. destruct B2 as [|y B3]; cbn [first join_right] in *.
  - rewrite (proj2 (Z.eqb_neq _ _)) by (destruct Hfb; unfold bend; lia). apply wp_modify. simpl. rewrite (Hsz b) by set_solver. done.
  - destruct (Z.eqb_spec (bend b) y.1) as [E|E].
    + apply wp_bind, wp_gets, wp_bind, wp_modify, wp_bind, wp_gets, wp_modify. cbn [fst snd] in *. simpl. rewrite (Hsz y) by set_solver.
      apply Forall_cons in HfB as [Hfy _]. destruct Hc2 as [-> _]. split; [done|]. rewrite fn_lookup_insert, u32_small by (destruct Hfb, Hfy; unfold bend in *; lia).
      split; [done|]. split; [|done]. intros a Ha. by rewrite fn_lookup_insert_ne.
    + apply wp_modify. simpl. rewrite (Hsz b) by set_solver. done.
Qed.

Lemma join_prev_spec s B1 (x r : block) B2 : x.1 ≠ r.1 → fits_in hi x → fits_in hi r → x.1 ∉ B1.*1 → r.1 ∉ B1.*1 → (∀ a, a ∈ B2.*1 → a ≠ r.1 ∧ a ≠ x.1) →
  bend x ≤ r.1 → chain (h_ptr s) B1 x.1 → h_ptr s r.1 = first B2 base → chain (h_ptr s) B2 base → (∀ y, y ∈ x :: r :: B2 → h_size s y.1 = y.2) →
  let B' := if bend x =? r.1 then (x.1, x.2 + r.2) :: B2 else x :: r :: B2 in
  wp (join_prev r.1 x.1) (λ _ s', chain (h_ptr s') (B1 ++ B') base ∧ (∀ y, y ∈ B' → h_size s' y.1 = y.2) ∧
    (∀ a, a ≠ x.1 → h_size s' a = h_size s a) ∧ h_brk s' = h_brk s) s.
Proof.
  intros Hne Hfx Hfr Hx1 Hr1 HB2 Hle Hc1 Hpr Hc2 Hsz B'. unfold join_prev. apply wp_bind, wp_gets. rewrite (Hsz x) by set_solver. rewrite (hdr_add_bend hi) by done.
  assert (Hupd : ∀ v, chain (<[x.1 := v]> (h_ptr s)) B1 x.1 ∧ chain (<[x.1 := v]> (h_ptr s)) B2 base).
  { intros v. split; (eapply chain_ext; [|done]); intros a Ha; rewrite fn_lookup_insert_ne; [done|set_solver|done|]. destruct (HB2 a Ha). congruence. }
  unfold B'. destruct (Z.eqb_spec (bend x) r.1) as [E|E].
  - apply wp_bind, wp_gets, wp_bind, wp_modify, wp_bind, wp_gets, wp_modify. simpl. rewrite (Hsz r), Hpr by set_solver. split_and!; [|..|done].
    + apply chain_app. simpl. rewrite fn_lookup_insert. split_and!; [apply Hupd|done|apply Hupd].
    + intros y [->|Hy]%elem_of_cons; simpl; rewrite ?fn_lookup_insert.
      * apply u32_small. destruct Hfx as (?&?&?&?), Hfr as (?&?&?&?). unfold bend in *. lia.
      * destruct (HB2 y.1) as [? ?]; [by apply list_elem_of_fmap_2|]. rewrite fn_lookup_insert_ne by done. apply Hsz. set_solver.
    + intros a Ha. by rewrite fn_lookup_insert_ne.
  - apply wp_modify. simpl. split_and!; [|done|done|done]. apply chain_app. simpl. rewrite fn_lookup_insert, fn_lookup_insert_ne by done.
    split_and!; [apply Hupd|done|done|apply Hupd].
Qed.

Lemma free_at_spec s B1 (x b : block) B2 : base < b.1 → chain (h_ptr s) (B1 ++ x :: B2) base → gapped (B1 ++ x :: B2) →
  fits_in hi b → fits_in hi x → Forall (fits_in hi) B2 → 1 ≤ b.2 → x.1 < b.1 → bend x ≤ b.1 → (∀ y, y ∈ B2 → bend b ≤ y.1) →
  (∀ y, y ∈ x :: b :: B2 → h_size s y.1 = y.2) → b.1 ∉ B1.*1 →
  wp (join_next b.1 x.1;; join_prev b.1 x.1;; set_freep x.1) (λ _ s', chain (h_ptr s') (B1 ++ merge x b B2) base ∧
    (∀ y, y ∈ merge x b B2 → h_size s' y.1 = y.2) ∧ (∀ a, a ≠ b.1 → a ≠ x.1 → h_size s' a = h_size s a) ∧
    h_freep s' = x.1 ∧ h_brk s' = h_brk s) s.
Proof.
  intros Hbase Hc Hg Hfb Hfx HfB Hb1 Hlt Hxb HbB Hsz HbB1. apply chain_app in Hc as [Hc1 [Hpx Hc2]]. pose proof (gapped_nodup _ Hg) as Hnd.
  rewrite fmap_app, NoDup_app in Hnd. destruct Hnd as (_ & Hnx & Hnd). rewrite fmap_cons in Hnd. apply NoDup_cons in Hnd as [HxB2 _].
  assert (HxB1 : x.1 ∉ B1.*1) by (intros Hin; apply (Hnx _ Hin); set_solver).
  assert (HbB2 : b.1 ∉ B2.*1) by (intros (y & Hy & Hin)%list_elem_of_fmap; specialize (HbB y Hin); destruct Hfb; unfold bend in *; lia).
  destruct (join_right_spec hi b B2 Hfb HfB ltac:(apply gapped_app in Hg as [_ Hg]; apply Hg) Hb1 HbB) as (J1 & J2 & J3 & J4 & J5 & J6).
  apply wp_bind. eapply wp_mono; [apply (join_next_spec s x b B2); try done; set_solver|]. intros [] s1 (P1 & S1 & S1' & K1).
  unfold merge. set (r := join_right b B2) in *. rewrite <- J1 in *. apply wp_bind.
  assert (Hnb : ∀ a, a ∈ r.2.*1 → a ≠ r.1.1 ∧ a ≠ x.1).
  { intros a (y & -> & Hy)%list_elem_of_fmap. apply J6 in Hy. split; intros E; [apply HbB2|apply HxB2]; rewrite <- E; by apply list_elem_of_fmap_2. }
  assert (Hr2 : chain (h_ptr s) r.2 base) by (unfold r, join_right; destruct B2 as [|y B3]; [done|]; destruct (_ =? _); [apply Hc2|done]).
  eapply wp_mono; [apply (join_prev_spec s1 B1 x r.1 r.2)|]; rewrite ?P1; try done; [lia|..].
  - eapply chain_ext; [|exact Hc1]. intros a Ha. rewrite fn_lookup_insert_ne; [done|]. set_solver.
  - by rewrite fn_lookup_insert.
  - eapply chain_ext; [|exact Hr2]. intros a Ha. rewrite fn_lookup_insert_ne; [done|]. destruct (Hnb a Ha). congruence.
  - intros y [->|[->|Hy]%elem_of_cons]%elem_of_cons; [rewrite S1' by lia; apply Hsz; set_solver|done|].
    destruct (Hnb y.1) as [? ?]; [by apply list_elem_of_fmap_2|]. rewrite S1' by done. apply Hsz. set_solver.
  - intros [] s2 (C2 & Z2 & Z2' & K2). apply wp_modify. simpl. split_and!; [done|done| |done|congruence].
    intros a Ha Hx. rewrite Z2' by done. by apply S1'.
Qed.
End free.

(** ** The invariant *)

Definition total (l : list block) : Z := foldr (λ x n, x.2 + n) 0 l.

Lemma total_app l1 l2 : total (l1 ++ l2) = total l1 + total l2.
Proof. unfold total. induction l1; simpl; lia. Qed.

Section heap.
(** The static header, and the break the program started with. *)
Context (base heap0 : Z) (Hbase : 0 < base) (Hheap0 : base + 8 ≤ heap0).

(** A block of the heap. *)
Definition inr (brk : Z) (x : block) : Prop := heap0 ≤ x.1 ∧ 1 ≤ x.2 ∧ bend x ≤ brk ∧ (8 | x.1).

Record heap_ok (s : heap) (fl al : list block) : Prop := {
  ho_freep : h_freep s ∈ ((base, 0) :: fl).*1;
  ho_chain : chain (h_ptr s) ((base, 0) :: fl) base;
  ho_gapped : gapped ((base, 0) :: fl);
  ho_size : ∀ x, x ∈ (base, 0) :: fl ++ al → h_size s x.1 = x.2;
  ho_in : ∀ x, x ∈ fl ++ al → inr (h_brk s) x;
  ho_disj : ∀ x y, x ∈ fl → y ∈ al → disj x y;
  ho_al : ForallOrdPairs disj al;
  ho_brk : heap0 ≤ h_brk s < 2 ^ 31 ∧ (8 | h_brk s);
  ho_total : 8 * total (fl ++ al) = h_brk s - heap0;      (* nothing is lost *)
}.

(** Properties that joining neighbours keeps. *)
Lemma merge_forall (P : block → Prop) x b B2 :
  (∀ u v, P u → P v → bend u = v.1 → P (u.1, u.2 + v.2)) → P x → P b → Forall P B2 → Forall P (merge x b B2).
Proof.
  intros HP Hx Hb HB. unfold merge.
  assert (Hr : (join_right b B2).1.1 = b.1 ∧ P (join_right b B2).1 ∧ Forall P (join_right b B2).2).
  { destruct B2 as [|y B3]; [done|]. apply Forall_cons in HB as [Hy HB]. simpl. destruct (Z.eqb_spec (bend b) y.1); simpl; [naive_solver|]. split_and!; [done|done|by apply Forall_cons]. }
  destruct Hr as (E & Hr1 & Hr2). destruct (Z.eqb_spec (bend x) b.1) as [Ex|]; [|by rewrite !Forall_cons]. apply Forall_cons. split; [|done].
  apply HP; [done|done|congruence].
Qed.

Lemma merge_total x b B2 : total (merge x b B2) = x.2 + b.2 + total B2.
Proof.
  unfold merge. assert (Hr : total ((join_right b B2).1 :: (join_right b B2).2) = b.2 + total B2).
  { destruct B2 as [|y B3]; [done|]. simpl. destruct (_ =? _); simpl; lia. }
  simpl in Hr. destruct (_ =? _); simpl; lia.
Qed.

Lemma merge_gapped hi B1 x b B2 : gapped (B1 ++ x :: B2) → fits_in hi b → Forall (fits_in hi) B2 → 1 ≤ b.2 → bend x ≤ b.1 → (∀ y, y ∈ B2 → bend b ≤ y.1) →
  gapped (B1 ++ merge x b B2).
Proof.
  intros Hg Hfb HfB Hb Hxb HbB. apply gapped_app in Hg as [Hg1 (H0 & _ & Hg2)].
  destruct (join_right_spec hi b B2 Hfb HfB Hg2 Hb HbB) as (J1 & J2 & J3 & J4 & J5 & J6). unfold merge. set (r := join_right b B2) in *.
  destruct (Z.eqb_spec (bend x) b.1) as [E|E].
  - apply gapped_app. split.
    + clear -Hg1 H0 J2 Hb. induction B1 as [|y B1 IH]; cbn [app gapped] in *; [split; [simpl; lia|done]|]. destruct Hg1 as (G1 & G2 & G3).
      split; [done|]. split; [by destruct B1|by apply IH].
    + destruct J5 as (G1 & G2 & G3). split; [simpl; lia|]. split; [|done]. destruct r.2; [done|]. unfold bend in *. simpl. lia.
  - apply gapped_app. split; [done|]. split; [done|]. split; [lia|done].
Qed.

Lemma merge_length x b B2 : (length (merge x b B2) ≤ 2 + length B2)%nat.
Proof.
  unfold merge, join_right. destruct B2 as [|y B3]; [destruct (_ =? _); simpl; lia|]. destruct (bend b =? y.1), (bend x =? b.1); simpl; lia.
Qed.

Lemma merge_grows x b B2 : 0 ≤ x.2 → Forall (λ y, 0 ≤ y.2) B2 → ∃ z, z ∈ merge x b B2 ∧ b.2 ≤ z.2.
Proof.
  intros Hx HB. unfold merge. assert (Hr : b.2 ≤ (join_right b B2).1.2).
  { destruct B2 as [|y B3]; simpl; [lia|]. apply Forall_cons in HB as [Hy _]. destruct (_ =? _); simpl; lia. }
  destruct (_ =? _); [eexists; split; [apply list_elem_of_here|simpl; lia]|]. exists (join_right b B2).1. split; [set_solver|done].
Qed.

Lemma inr_join brk u v : (u = (base, 0) ∨ inr brk u) → (v = (base, 0) ∨ inr brk v) → bend u = v.1 →
  (u.1, u.2 + v.2) = (base, 0) ∨ inr brk (u.1, u.2 + v.2).
Proof.
  intros [->|(H1 & H2 & H3 & H4)] [->|(K1 & K2 & K3 & K4)] E; unfold bend, inr in *; simpl in *; [left; f_equal; lia|lia|lia|].
  right. unfold bend. simpl. split_and!; [done|lia|lia|done].
Qed.

Lemma disj_join y u v : 1 ≤ y.2 → disj u y → disj v y → bend u = v.1 → disj (u.1, u.2 + v.2) y.
Proof. unfold disj, bend. simpl. lia. Qed.

Lemma inr_fits s fl al x : heap_ok s fl al → x ∈ (base, 0) :: fl ++ al → fits_in (h_brk s) x.
Proof.
  intros Ho Hx. pose proof (ho_brk _ _ _ Ho) as [Hb _]. apply elem_of_cons in Hx as [->|Hx]; [unfold fits_in, bend; simpl; lia|].
  destruct (ho_in _ _ _ Ho x Hx) as (H1 & H2 & H3 & _). unfold fits_in. lia.
Qed.

(** Blocks the program holds are taken out of the list. *)
Lemma ordpairs_remove (al1 al2 : list block) b : ForallOrdPairs disj (al1 ++ b :: al2) → ForallOrdPairs disj (al1 ++ al2) ∧ ∀ y, y ∈ al1 ++ al2 → disj b y.
Proof.
  induction al1 as [|a al1 IH]; simpl; intros H; inversion H as [|?? Ha Ho]; subst.
  - split; [done|]. by apply Forall_forall.
  - destruct (IH Ho) as [I1 I2]. rewrite Forall_forall in Ha. split.
    + constructor; [|done]. apply Forall_forall. intros y Hy. apply Ha. set_solver.
    + intros y [->|Hy]%elem_of_cons; [|by apply I2]. specialize (Ha b ltac:(set_solver)). unfold disj in *. tauto.
Qed.

(** The list free() makes starts with base again. *)
Lemma merge_head B1 x b B2 fl : (base, 0) :: fl = B1 ++ x :: B2 → base < b.1 → ∃ fl', B1 ++ merge x b B2 = (base, 0) :: fl'.
Proof.
  intros E Hb. destruct B1 as [|y B1]; simpl in E; injection E as <- E; [|by eexists]. unfold merge.
  rewrite (proj2 (Z.eqb_neq _ _)) by (unfold bend; simpl; lia). by eexists.
Qed.

(** ** free() *)

(** Where the block [b] of the program belongs in the free list. *)
Lemma free_place s fl al b : heap_ok s fl al → b ∈ al →
  ∃ B1 x B2, (base, 0) :: fl = B1 ++ x :: B2 ∧ x.1 < b.1 ∧ bend x ≤ b.1 ∧ ∀ y, y ∈ B2 → bend b ≤ y.1.
Proof.
  intros Ho Hb. destruct (ho_in _ _ _ Ho b ltac:(set_solver)) as (Hb1 & Hb2 & _). assert (Hd : ∀ y, y ∈ fl → disj y b) by (intros y Hy; by apply (ho_disj _ _ _ Ho)).
  assert (Hpos : ∀ y, y ∈ fl → 1 ≤ y.2) by (intros y Hy; apply (ho_in _ _ _ Ho); set_solver).
  destruct (place fl b.1 (base, 0)) as (B1 & x & B2 & E & Hx & HB2); [simpl; lia| |apply (ho_gapped _ _ _ Ho)|].
  { intros y Hy Ey. specialize (Hd y Hy). specialize (Hpos y Hy). unfold disj, bend in Hd. lia. }
  exists B1, x, B2. split; [done|]. split; [done|]. assert (Hx' : x ∈ (base, 0) :: fl) by (rewrite E; set_solver). split.
  - apply elem_of_cons in Hx' as [->|Hx']; [unfold bend; simpl; lia|]. specialize (Hd x Hx'). specialize (Hpos x Hx'). unfold disj, bend in *. lia.
  - intros y Hy. assert (Hy' : y ∈ fl).
    { destruct B1 as [|z B1]; simpl in E; injection E as <- E; rewrite E; set_solver. }
    specialize (Hd y Hy'). specialize (HB2 y Hy). specialize (Hpos y Hy'). unfold disj, bend in *. lia.
Qed.

(** The new list satisfies what the old one did. *)
Lemma free_inv s s' fl al1 b al2 B1 x B2 fl' : heap_ok s fl (al1 ++ b :: al2) →
  (base, 0) :: fl = B1 ++ x :: B2 → B1 ++ merge x b B2 = (base, 0) :: fl' → x.1 < b.1 → bend x ≤ b.1 → (∀ y, y ∈ B2 → bend b ≤ y.1) →
  chain (h_ptr s') (B1 ++ merge x b B2) base → (∀ y, y ∈ merge x b B2 → h_size s' y.1 = y.2) →
  (∀ a, a ≠ b.1 → a ≠ x.1 → h_size s' a = h_size s a) → h_freep s' = x.1 → h_brk s' = h_brk s →
  heap_ok s' fl' (al1 ++ al2).
Proof.
  intros Ho E E' Hx Hxb HB2 C' Z' Zo F' K'. set (al := al1 ++ b :: al2) in *. pose proof (λ z Hz, inr_fits s fl al z Ho Hz) as Hfits.
  pose proof (ho_in _ _ _ Ho b ltac:(set_solver)) as (Hb1 & Hb2 & Hb3 & Hb4). pose proof (ho_gapped _ _ _ Ho) as Hg. rewrite E in Hg.
  destruct (ordpairs_remove al1 al2 b (ho_al _ _ _ Ho)) as [Hal Hbd].
  assert (HBin : ∀ z, z ∈ B1 ++ x :: B2 → z ∈ (base, 0) :: fl) by (by rewrite E).
  assert (HP : Forall (λ z, z = (base, 0) ∨ inr (h_brk s) z) (B1 ++ x :: B2)).
  { apply Forall_forall. intros z [->|Hz]%HBin%elem_of_cons; [by left|right]. apply (ho_in _ _ _ Ho). set_solver. }
  apply Forall_app in HP as [HP1 [HPx HP2]%Forall_cons].
  assert (Hg' : gapped ((base, 0) :: fl')).
  { rewrite <- E'. apply (merge_gapped (h_brk s)); try done; [apply Hfits; set_solver|]. apply Forall_forall. intros z Hz. apply Hfits. specialize (HBin z ltac:(set_solver)). set_solver. }
  assert (Hfl' : ∀ z, z ∈ fl' → z ∈ B1 ++ merge x b B2 ∧ base < z.1).
  { intros z Hz. split; [rewrite E'; set_solver|]. pose proof (gapped_lt _ _ _ Hg' Hz). unfold bend in *. simpl in *. lia. }
  assert (Hin' : ∀ z, z ∈ fl' → inr (h_brk s) z).
  { intros z Hz. destruct (Hfl' z Hz) as [Hz' Hzb]. assert (HPm : Forall (λ z, z = (base, 0) ∨ inr (h_brk s) z) (B1 ++ merge x b B2)).
    { apply Forall_app. split; [done|]. apply merge_forall; [apply inr_join|done|by right|done]. }
    rewrite Forall_forall in HPm. destruct (HPm z Hz') as [->|]; [simpl in Hzb; lia|done]. }
  assert (Halo : ∀ z, z ∈ al1 ++ al2 → inr (h_brk s) z ∧ z.1 ≠ b.1 ∧ z.1 ≠ x.1).
  { intros z Hz. pose proof (ho_in _ _ _ Ho z ltac:(set_solver)) as Hzi. split; [done|]. destruct Hzi as (? & ? & _). specialize (Hbd z Hz). split.
    - unfold disj, bend in *. lia.
    - specialize (HBin x ltac:(set_solver)). apply elem_of_cons in HBin as [->|Hxf]; [simpl; lia|]. pose proof (ho_disj _ _ _ Ho x z Hxf ltac:(set_solver)).
      destruct (ho_in _ _ _ Ho x ltac:(set_solver)) as (? & ? & _). unfold disj, bend in *. lia. }
  split; rewrite ?K'; try done.
  - rewrite F', <- E', fmap_app. apply elem_of_app. right. unfold merge. destruct (_ =? _); simpl; set_solver.
  - by rewrite <- E'.
  - intros z Hz. assert (Hcase : z ∈ B1 ++ merge x b B2 ∨ z ∈ al1 ++ al2) by (rewrite E'; set_solver). destruct Hcase as [[Hz1|Hz1]%elem_of_app|Hz1].
    + assert (HzB : z ∈ (base, 0) :: fl) by (apply HBin; set_solver). pose proof (gapped_before B1 x B2 z Hg Hz1) as Hlt. destruct (Hfits z ltac:(set_solver)) as (? & ? & _).
      rewrite Zo by (unfold bend in *; lia). apply (ho_size _ _ _ Ho). set_solver.
    + by apply Z'.
    + destruct (Halo z Hz1) as (_ & ? & ?). rewrite Zo by done. apply (ho_size _ _ _ Ho). set_solver.
  - intros z [Hz|Hz]%elem_of_app; [by apply Hin'|by apply Halo].
  - intros z y Hz Hy. destruct (Hfl' z Hz) as [Hz' _]. destruct (Halo y Hy) as ((Hy1 & Hy2 & _) & _).
    assert (Hd : Forall (λ z, disj z y) (B1 ++ merge x b B2)); [|rewrite Forall_forall in Hd; by apply Hd].
    assert (Hold : ∀ w, w ∈ B1 ++ x :: B2 → disj w y).
    { intros w [->|Hw]%HBin%elem_of_cons; [left; unfold bend; simpl; lia|]. apply (ho_disj _ _ _ Ho); [done|set_solver]. }
    apply Forall_app. split; [apply Forall_forall; intros w Hw; apply Hold; set_solver|].
    apply merge_forall; [intros u v; by apply disj_join|apply Hold; set_solver|by apply Hbd|apply Forall_forall; intros w Hw; apply Hold; set_solver].
  - apply (ho_brk _ _ _ Ho).
  - rewrite <- (ho_total _ _ _ Ho). f_equal. pose proof (f_equal total E) as T. pose proof (f_equal total E') as T'. unfold al.
    rewrite !total_app in *. rewrite merge_total in T'. simpl in *. lia.
Qed.

Lemma free_ok fuel s fl al1 b al2 : heap_ok s fl (al1 ++ b :: al2) → (length fl < fuel)%nat →
  wp (free fuel (hdr_add b.1 1)) (λ _ s', ∃ fl', heap_ok s' fl' (al1 ++ al2) ∧ h_brk s' = h_brk s ∧
    (length fl' ≤ S (length fl))%nat ∧ ∃ z, z ∈ fl' ∧ b.2 ≤ z.2) s.
Proof.
  intros Ho Hf. destruct (free_place s fl _ b Ho ltac:(set_solver)) as (B1 & x & B2 & E & Hx & Hxb & HB2).
  pose proof (ho_in _ _ _ Ho b ltac:(set_solver)) as (Hb1 & Hb2 & Hb3 & Hb4). pose proof (ho_brk _ _ _ Ho) as [Hbrk _].
  pose proof (λ z Hz, inr_fits s fl _ z Ho Hz) as Hfits. pose proof (ho_chain _ _ _ Ho) as Hc. pose proof (ho_gapped _ _ _ Ho) as Hg. pose proof (ho_freep _ _ _ Ho) as Hfp.
  rewrite E in Hc, Hg, Hfp. assert (HBin : ∀ z, z ∈ B1 ++ x :: B2 → z ∈ (base, 0) :: fl ++ al1 ++ b :: al2) by (intros z Hz; rewrite <- E in Hz; set_solver).
  assert (HfB : Forall (fits_in (h_brk s)) B2) by (apply Forall_forall; intros z Hz; apply Hfits, HBin; set_solver).
  assert (Hfx : fits_in (h_brk s) x) by (apply Hfits, HBin; set_solver).
  assert (Hbp : u32 (hdr_add b.1 1 - 8) = b.1) by (unfold hdr_add, u32; rewrite Zminus_mod_idemp_l, Z.mod_small; unfold bend in *; lia).
  unfold free. rewrite Hbp. apply wp_bind, wp_gets, wp_bind, wp_done. exists x.1, s. split.
  { apply (search_spec base s b.1 B1 x B2); try done; [lia| |intros y Hy; specialize (HB2 y Hy); unfold bend in *; lia|rewrite <- E; simpl; lia].
    destruct B1; simpl in E; injection E as <- _; done. }
  assert (HbB1 : b.1 ∉ B1.*1).
  { intros (y & Ey & Hy)%list_elem_of_fmap. pose proof (gapped_before B1 x B2 y Hg Hy). destruct (Hfits y) as (? & ? & _); [apply HBin; set_solver|]. unfold bend in *. lia. }
  eapply wp_mono; [apply (free_at_spec base (h_brk s) s B1 x b B2); try done; [lia|apply Hfits; set_solver|]|].
  { intros y Hy. apply (ho_size _ _ _ Ho). apply elem_of_cons in Hy as [->|[->|Hy]%elem_of_cons]; [apply HBin|..|apply HBin]; set_solver. }
  intros [] s' (C' & Z' & Zo & F' & K'). destruct (merge_head B1 x b B2 fl E ltac:(lia)) as [fl' E']. exists fl'. split; [by eapply free_inv|]. split; [done|].
  split.
  - pose proof (f_equal length E) as L. pose proof (f_equal length E') as L'. rewrite length_app in L, L'. simpl in L, L'.
    pose proof (merge_length x b B2). lia.
  - destruct (merge_grows x b B2) as (z & Hz & Hzb); [apply Hfx|apply Forall_forall; intros y Hy; rewrite Forall_forall in HfB; apply (HfB y Hy)|].
    exists z. split; [|done]. assert (Hz' : z ∈ (base, 0) :: fl') by (rewrite <- E'; set_solver). apply elem_of_cons in Hz' as [->|]; [simpl in Hzb; lia|done].
Qed.
End heap.
