(* ===== verification/UmallocThms.v ===== *)
(** * malloc() hands out disjoint blocks

    malloc() keeps the invariant of the heap and terminates: it goes around
    the circular list at most twice, the second time after morecore() has put
    a block on it that is large enough. *)

From S2P Require Import Prelude Umalloc UmallocInv.

(** ** Going around the list *)

(** The blocks [V] follow each other, behind the header at [u]. *)
Fixpoint walk (ptr : Z → Z) (u : Z) (V : list block) : Prop :=
  match V with [] => True | v :: V => ptr u = v.1 ∧ walk ptr v.1 V end.

(** The header behind which the walk over [V] ends. *)
Definition end_of (u : Z) (V : list block) : Z := foldl (λ _ v, v.1) u V.

Lemma walk_app ptr u V1 V2 : walk ptr u (V1 ++ V2) ↔ walk ptr u V1 ∧ walk ptr (end_of u V1) V2.
Proof. revert u. induction V1 as [|v V1 IH]; intros u; simpl; [tauto|]. rewrite IH. unfold end_of. simpl. tauto. Qed.

Lemma chain_path ptr x B e : chain ptr (x :: B) e ↔ walk ptr x.1 B ∧ ptr (end_of x.1 B) = e.
Proof.
  revert x. induction B as [|y B IH]; intros x; [simpl; tauto|]. change (chain ptr (x :: y :: B) e) with (ptr x.1 = y.1 ∧ chain ptr (y :: B) e). rewrite IH.
  simpl. unfold end_of. simpl. tauto.
Qed.

Lemma end_of_in u V : end_of u V ∈ u :: V.*1.
Proof. revert u. induction V as [|v V IH]; intros u; [set_solver|]. specialize (IH v.1). unfold end_of in *. simpl. set_solver. Qed.

(** From any block once around, back to it. *)
Lemma chain_around ptr B1 x B2 e : first (B1 ++ [x]) 0 = e → chain ptr (B1 ++ x :: B2) e → walk ptr x.1 (B2 ++ B1 ++ [x]).
Proof.
  intros He Hc. apply chain_app in Hc as [Hc1 Hc2]. apply chain_path in Hc2 as [Hp Hend]. apply walk_app. split; [done|].
  destruct B1 as [|y B1]; simpl in *; [split; [congruence|done]|]. split; [congruence|].
  change (y :: B1) with ([y] ++ B1) in Hc1. change (chain ptr (y :: B1) x.1) in Hc1. apply chain_path in Hc1 as [Hp1 Hend1].
  apply walk_app. split; [done|]. simpl. split; [done|done].
Qed.

(** The only block linked to [v] is the one before it. *)
Lemma chain_pred ptr B1 x v B2 e u : chain ptr (B1 ++ x :: v :: B2) e → NoDup (B1 ++ x :: v :: B2).*1 → e ∉ (v :: B2).*1 →
  u ∈ (B1 ++ x :: v :: B2).*1 → ptr u = v.1 → u = x.1.
Proof.
  intros Hc Hnd He Hu Hp. apply list_elem_of_fmap in Hu as (w & -> & Hw). apply list_elem_of_split in Hw as (C1 & C2 & E). rewrite E in Hc. apply chain_app in Hc as [_ [Hw _]].
  rewrite Hp in Hw. destruct C2 as [|z C2]; simpl in Hw; [exfalso; apply He; rewrite <- Hw; set_solver|].
  assert (E2 : (C1 ++ [w]) ++ z :: C2 = (B1 ++ [x]) ++ v :: B2) by (rewrite <- !(assoc_L (++)); simpl; congruence).
  assert (L : length (C1 ++ [w]) = length (B1 ++ [x])).
  { apply (NoDup_lookup (B1 ++ x :: v :: B2).*1 _ _ v.1); [done|..].
    - replace (B1 ++ x :: v :: B2) with ((C1 ++ [w]) ++ z :: C2) by (rewrite E; by rewrite <- (assoc_L (++))).
      rewrite list_lookup_fmap, list_lookup_middle by done. simpl. congruence.
    - replace (B1 ++ x :: v :: B2) with ((B1 ++ [x]) ++ v :: B2) by (by rewrite <- (assoc_L (++))).
      by rewrite list_lookup_fmap, list_lookup_middle. }
  apply app_inj_1 in E2 as [E2 _]; [|done]. by apply app_inj_tail in E2 as [_ ->].
Qed.

Section malloc.
Context (base heap0 : Z) (Hbase : 0 < base) (Hheap0 : base + 8 ≤ heap0) (avail : Z → Z → bool) (fuel : nat).
Abbreviation ok := (heap_ok base heap0).

Lemma loop_eq n k u p s : malloc_loop avail fuel (S n) k u p s =
  if k <=? h_size s p then take_block k u p (h_size s p) s
  else if p =? h_freep s then (p ← morecore avail fuel k; if p =? 0 then mret 0 else q ← ptr_of p; malloc_loop avail fuel n k p q) s
  else malloc_loop avail fuel n k p (h_ptr s p) s.
Proof.
  cbn [malloc_loop]. rewrite (bind_done _ _ _ (h_size s p) s) by done. destruct (k <=? h_size s p); [done|].
  rewrite (bind_done _ _ _ (h_freep s) s) by done. by destruct (p =? h_freep s).
Qed.

(** The walk ends at the first block that is large enough, or back at freep. *)
Lemma malloc_walk V f n k u s : walk (h_ptr s) u (V ++ [f]) → (∀ v, v ∈ V ++ [f] → h_size s v.1 = v.2) → h_freep s = f.1 → f.1 ∉ V.*1 → (length V < n)%nat →
  (∃ V1 v V2, V ++ [f] = V1 ++ v :: V2 ∧ k ≤ v.2 ∧ malloc_loop avail fuel n k u (h_ptr s u) s = take_block k (end_of u V1) v.1 v.2 s) ∨
  (Forall (λ v, v.2 < k) (V ++ [f]) ∧ malloc_loop avail fuel n k u (h_ptr s u) s =
    (p ← morecore avail fuel k; if p =? 0 then mret 0 else q ← ptr_of p; malloc_loop avail fuel (n - S (length V)) k p q) s).
Proof.
  revert n u. induction V as [|v V IH]; intros n u Hp Hsz Hf Hnf Hn; (destruct n as [|n]; [simpl in Hn; lia|]); simpl in Hp; destruct Hp as [Hu Hp]; rewrite Hu, loop_eq.
  - rewrite (Hsz f) by set_solver. destruct (Z.leb_spec k f.2) as [Hk|Hk]; [left; by exists [], f, []|]. right. rewrite Hf, Z.eqb_refl. cbn [length].
    rewrite Nat.sub_succ, Nat.sub_0_r. split; [by apply Forall_singleton|done].
  - rewrite (Hsz v) by set_solver. destruct (Z.leb_spec k v.2) as [Hk|Hk]; [left; by exists [], v, (V ++ [f])|]. rewrite fmap_cons in Hnf. apply not_elem_of_cons in Hnf as [Hfv Hnf].
    rewrite (proj2 (Z.eqb_neq _ _)) by congruence. simpl in Hn.
    destruct (IH n v.1 Hp) as [(V1 & w & V2 & E & Hw & ->)|(HF & ->)]; [set_solver|done|done|lia|..].
    + left. exists (v :: V1), w, V2. split; [simpl; congruence|]. split; [done|]. done.
    + right. split; [simpl; by apply Forall_cons|]. done.
Qed.

Lemma gapped_remove B1 x v B2 : gapped (B1 ++ x :: v :: B2) → gapped (B1 ++ x :: B2).
Proof.
  intros Hg. apply gapped_app in Hg as [Hg1 (H0 & H1 & Hg2)]. apply gapped_app. split; [done|]. destruct Hg2 as (H2 & H3 & Hg2).
  split; [done|]. split; [|done]. destruct B2; [done|]. unfold bend in *. lia.
Qed.

Lemma gapped_shrink B1 x v B2 k : gapped (B1 ++ x :: v :: B2) → 0 ≤ k ≤ v.2 → gapped (B1 ++ x :: (v.1, v.2 - k) :: B2).
Proof.
  intros Hg Hk. apply gapped_app in Hg as [Hg1 (H0 & H1 & H2 & H3 & Hg2)]. apply gapped_app. split; [done|]. split; [done|]. split; [done|].
  split; [simpl; lia|]. split; [|done]. destruct B2; [done|]. unfold bend in *. simpl. lia.
Qed.
(** What is left of the list when [k] headers are taken from the end of [v]. *)
Definition rest_of (k : Z) (v : block) (B2 : list block) : list block := if v.2 =? k then B2 else (v.1, v.2 - k) :: B2.

Lemma rest_of_in k v B2 z : 0 ≤ k ≤ v.2 → z ∈ rest_of k v B2 → z ∈ B2 ∨ (z.1 = v.1 ∧ z.2 = v.2 - k ∧ k < v.2).
Proof. intros Hk. unfold rest_of. destruct (Z.eqb_spec v.2 k); [by left|]. intros [->|Hz]%elem_of_cons; [right; simpl; lia|by left]. Qed.

(** Taking a block keeps the invariant; the program holds one block more. *)
Lemma take_inv s s' fl al B1 x v B2 fl' k : ok s fl al → (base, 0) :: fl = B1 ++ x :: v :: B2 → B1 ++ x :: rest_of k v B2 = (base, 0) :: fl' → 1 ≤ k ≤ v.2 →
  let a := bend v - 8 * k in
  chain (h_ptr s') (B1 ++ x :: rest_of k v B2) base → h_size s' a = k → (k < v.2 → h_size s' v.1 = v.2 - k) →
  (∀ z, z ≠ a → z ≠ v.1 → h_size s' z = h_size s z) → h_freep s' = x.1 → h_brk s' = h_brk s → ok s' fl' ((a, k) :: al).
Proof.
  intros Ho E E' Hk a C' Za Zv Zo F' K'. pose proof (ho_gapped _ _ _ _ _ Ho) as Hg. rewrite E in Hg.
  assert (Hvf : v ∈ fl) by (destruct B1 as [|y B1]; simpl in E; injection E as <- E; rewrite E; set_solver).
  pose proof (ho_in _ _ _ _ _ Ho v ltac:(set_solver)) as (Hv1 & Hv2 & Hv3 & Hv4).
  assert (Hg' : gapped ((base, 0) :: fl')).
  { rewrite <- E'. unfold rest_of. destruct (_ =? _); [by eapply gapped_remove|]. apply gapped_shrink; [done|lia]. }
  assert (Hsub : ∀ z, z ∈ B1 ++ x :: rest_of k v B2 → (z ∈ B1 ++ x :: B2) ∨ (z.1 = v.1 ∧ z.2 = v.2 - k ∧ k < v.2)).
  { intros z [Hz|[->|Hz]%elem_of_cons]%elem_of_app; [left; set_solver|left; set_solver|]. destruct (rest_of_in k v B2 z ltac:(lia) Hz); [left; set_solver|by right]. }
  assert (Hoth : ∀ z, z ∈ B1 ++ x :: B2 → bend z < v.1 ∨ bend v < z.1).
  { intros z Hz. replace (B1 ++ x :: v :: B2) with ((B1 ++ [x]) ++ v :: B2) in Hg by (by rewrite <- (assoc_L (++))).
    assert (Hc : z ∈ B1 ++ [x] ∨ z ∈ B2) by set_solver. destruct Hc as [Hc|Hc]; [left; by eapply gapped_before|right].
    apply gapped_app in Hg as [_ Hg]. by eapply gapped_lt. }
  assert (HBfl : ∀ z, z ∈ B1 ++ x :: B2 → z ∈ (base, 0) :: fl) by (intros z Hz; rewrite E; set_solver).
  assert (Hfl' : ∀ z, z ∈ fl' → (z ∈ fl ∧ (bend z < v.1 ∨ bend v < z.1)) ∨ (z.1 = v.1 ∧ z.2 = v.2 - k ∧ k < v.2)).
  { intros z Hz. assert (Hz' : z ∈ B1 ++ x :: rest_of k v B2) by (rewrite E'; set_solver). destruct (Hsub z Hz') as [Hz1|]; [left|by right].
    split; [|by apply Hoth]. specialize (HBfl z Hz1). apply elem_of_cons in HBfl as [->|]; [|done]. pose proof (gapped_lt _ _ _ Hg' Hz). unfold bend in *. simpl in *. lia. }
  assert (Hpos : ∀ z, z ∈ fl ++ al → 1 ≤ z.2) by (intros z Hz; apply (ho_in _ _ _ _ _ Ho z Hz)).
  assert (Hval : ∀ y, y ∈ al → disj v y) by (intros y Hy; by apply (ho_disj _ _ _ _ _ Ho)).
  split; rewrite ?K'; try done.
  - rewrite F', <- E'. rewrite fmap_app. set_solver.
  - by rewrite <- E'.
  - intros z Hz. apply elem_of_cons in Hz as [->|[Hz|[->|Hz]%elem_of_cons]%elem_of_app]; [|..|done|].
    + simpl. rewrite Zo by (unfold a, bend; lia). apply (ho_size _ _ _ _ _ Ho (base, 0)). set_solver.
    + destruct (Hfl' z Hz) as [[Hzf Hd]|(-> & -> & ?)]; [|by apply Zv]. specialize (Hpos z ltac:(set_solver)).
      rewrite Zo by (unfold a, bend in *; lia). apply (ho_size _ _ _ _ _ Ho). set_solver.
    + specialize (Hval z Hz). specialize (Hpos z ltac:(set_solver)). rewrite Zo by (unfold a, disj, bend in *; lia). apply (ho_size _ _ _ _ _ Ho). set_solver.
  - intros z [Hz|[->|Hz]%elem_of_cons]%elem_of_app.
    + destruct (Hfl' z Hz) as [[Hzf Hd]|(E1 & E2 & ?)]; [apply (ho_in _ _ _ _ _ Ho); set_solver|]. unfold inr, bend in *. rewrite E1, E2. split_and!; [lia|lia|lia|done].
    + unfold inr, a, bend in *. simpl. split_and!; [lia|lia|lia|]. replace (v.1 + 8 * v.2 - 8 * k) with (v.1 + 8 * (v.2 - k)) by lia. apply Z.divide_add_r; [done|apply Z.divide_factor_l].
    + apply (ho_in _ _ _ _ _ Ho). set_solver.
  - intros z y Hz [->|Hy]%elem_of_cons; destruct (Hfl' z Hz) as [[Hzf Hd]|(E1 & E2 & ?)].
    + unfold disj, a, bend in *. simpl. lia.
    + unfold disj, a, bend in *. simpl. lia.
    + by apply (ho_disj _ _ _ _ _ Ho).
    + specialize (Hval y Hy). unfold disj, bend in *. lia.
  - constructor; [|apply (ho_al _ _ _ _ _ Ho)]. apply Forall_forall. intros y Hy. specialize (Hval y Hy). unfold disj, a, bend in *. simpl. lia.
  - apply (ho_brk _ _ _ _ _ Ho).
  - rewrite <- (ho_total _ _ _ _ _ Ho). f_equal. pose proof (f_equal total E) as T. pose proof (f_equal total E') as T'.
    rewrite !total_app in *. simpl in *. unfold rest_of in T'. destruct (Z.eqb_spec v.2 k); simpl in *; lia.
Qed.

Lemma take_block_ok s fl al B1 x v B2 k : ok s fl al → (base, 0) :: fl = B1 ++ x :: v :: B2 → 1 ≤ k ≤ v.2 →
  wp (take_block k x.1 v.1 v.2) (λ r s', ∃ a fl', r = a + 8 ∧ ok s' fl' ((a, k) :: al) ∧ h_brk s' = h_brk s) s.
Proof.
  intros Ho E Hk. pose proof (ho_gapped _ _ _ _ _ Ho) as Hg. pose proof (ho_chain _ _ _ _ _ Ho) as Hc. rewrite E in Hg, Hc.
  assert (Hvf : v ∈ fl) by (destruct B1 as [|y B1]; simpl in E; injection E as <- E; rewrite E; set_solver).
  pose proof (ho_in _ _ _ _ _ Ho v ltac:(set_solver)) as (Hv1 & Hv2 & Hv3 & Hv4). pose proof (ho_brk _ _ _ _ _ Ho) as [Hbrk _].
  assert (Hfl : ∃ fl', B1 ++ x :: rest_of k v B2 = (base, 0) :: fl') by (destruct B1 as [|y B1]; simpl in E; injection E as <- _; by eexists). destruct Hfl as [fl' E'].
  pose proof (gapped_nodup _ Hg) as Hnd. rewrite fmap_app, NoDup_app in Hnd. destruct Hnd as (_ & Hx1 & Hnd). rewrite !fmap_cons in Hnd.
  apply NoDup_cons in Hnd as [Hxv Hnd]. apply chain_app in Hc as [Hc1 (Hpx & Hpv & Hc2)].
  assert (Hu : u32 (v.2 - k) = v.2 - k) by (apply u32_small; unfold bend in *; lia).
  unfold take_block. apply wp_bind. unfold rest_of in E'. destruct (Z.eqb_spec v.2 k) as [Ek|Ek].
  - apply wp_bind, wp_gets, wp_bind, wp_modify, wp_ret, wp_bind, wp_modify, wp_ret. exists (bend v - 8 * k), fl'.
    split; [unfold hdr_add, bend in *; rewrite u32_small; lia|]. split; [|done].
    eapply take_inv; [exact Ho|exact E| |done|..]; unfold rest_of; rewrite ?(proj2 (Z.eqb_eq v.2 k)) by done; simpl; try done; [|by (replace (bend v - 8 * k) with v.1 by (unfold bend; lia); rewrite <- Ek; apply (ho_size _ _ _ _ _ Ho); set_solver)|lia].
    rewrite Hpv. apply chain_app. simpl. rewrite fn_lookup_insert. split_and!; [|done|].
    + eapply chain_ext; [|exact Hc1]. intros z Hz. rewrite fn_lookup_insert_ne; [done|]. intros <-. apply (Hx1 _ Hz). set_solver.
    + eapply chain_ext; [|exact Hc2]. intros z Hz. rewrite fn_lookup_insert_ne; [done|]. set_solver.
  - apply wp_bind, wp_modify. cbv zeta. apply wp_bind, wp_modify, wp_ret, wp_bind, wp_modify, wp_ret. rewrite Hu.
    assert (Ea : hdr_add v.1 (v.2 - k) = bend v - 8 * k) by (unfold hdr_add, bend in *; rewrite u32_small; lia). rewrite Ea.
    exists (bend v - 8 * k), fl'. split; [unfold hdr_add, bend in *; rewrite u32_small; lia|]. split; [|done].
    eapply take_inv; [exact Ho|exact E| |done|..]; unfold rest_of; rewrite ?(proj2 (Z.eqb_neq v.2 k)) by done; simpl; try done.
    + apply chain_app. by split_and!.
    + by rewrite fn_lookup_insert.
    + intros _. rewrite fn_lookup_insert_ne by (unfold bend; lia). by rewrite fn_lookup_insert.
    + intros z H1 H2. by rewrite !fn_lookup_insert_ne.
Qed.
(** A walk that finds a block takes it. *)
Lemma walk_takes s fl al B1 f B2 V1 v V2 k : ok s fl al → (base, 0) :: fl = B1 ++ f :: B2 → B2 ++ B1 ++ [f] = V1 ++ v :: V2 → 1 ≤ k ≤ v.2 →
  wp (take_block k (end_of f.1 V1) v.1 v.2) (λ r s', ∃ a fl', r = a + 8 ∧ ok s' fl' ((a, k) :: al) ∧ h_brk s' = h_brk s) s.
Proof.
  intros Ho E EV Hk. pose proof (ho_chain _ _ _ _ _ Ho) as Hc. pose proof (ho_gapped _ _ _ _ _ Ho) as Hg.
  assert (Hvf : v ∈ fl).
  { assert (Hin : v ∈ (base, 0) :: fl) by (rewrite E; assert (v ∈ B2 ++ B1 ++ [f]) by (rewrite EV; set_solver); set_solver).
    apply elem_of_cons in Hin as [->|]; [simpl in Hk; lia|done]. }
  apply list_elem_of_split in Hvf as (F1 & F2 & Ef). destruct (snoc_or_nil ((base, 0) :: F1)) as [|(C1 & x & EC)]; [done|].
  assert (E2 : (base, 0) :: fl = C1 ++ x :: v :: F2) by (rewrite Ef, app_comm_cons, EC, <- (assoc_L (++)); done).
  assert (Hpath : walk (h_ptr s) f.1 (V1 ++ v :: V2)).
  { rewrite <- EV. apply (chain_around _ _ _ _ base); [|by rewrite <- E]. destruct B1; simpl in E; injection E as <- _; done. }
  apply walk_app in Hpath as [_ [Hp _]]. assert (Eu : end_of f.1 V1 = x.1); [|rewrite Eu; by eapply take_block_ok].
  pose proof (gapped_nodup _ Hg) as Hnd. pose proof Hnd as Hnd'. rewrite E2 in Hc, Hnd'. eapply chain_pred; [exact Hc|exact Hnd'| | |exact Hp].
  - assert (Hb : base ∉ fl.*1) by (rewrite fmap_cons in Hnd; by apply NoDup_cons in Hnd as [? _]). rewrite Ef in Hb. rewrite fmap_app in Hb. set_solver.
  - rewrite <- E2, E. assert (Hin := end_of_in f.1 V1). assert (Hsub : ∀ z, z ∈ V1 → z ∈ B2 ++ B1 ++ [f]) by (intros z Hz; rewrite EV; set_solver).
    apply elem_of_cons in Hin as [->|(z & -> & Hz)%list_elem_of_fmap]; apply list_elem_of_fmap_2; [set_solver|]. specialize (Hsub z Hz). set_solver.
Qed.

(** malloc_loop() from freep on, when a block is large enough. *)
Lemma loop_finds s fl al k n : ok s fl al → 1 ≤ k → (length fl < n)%nat → (∃ z, z ∈ fl ∧ k ≤ z.2) →
  wp (malloc_loop avail fuel n k (h_freep s) (h_ptr s (h_freep s))) (λ r s', ∃ a fl', r = a + 8 ∧ ok s' fl' ((a, k) :: al) ∧ h_brk s' = h_brk s) s.
Proof.
  intros Ho Hk Hn (z & Hz & Hkz). pose proof (ho_freep _ _ _ _ _ Ho) as Hf. apply list_elem_of_fmap in Hf as (f & Ef & Hf). apply list_elem_of_split in Hf as (B1 & B2 & E).
  pose proof (ho_chain _ _ _ _ _ Ho) as Hc. rewrite Ef. pose proof (gapped_nodup _ (ho_gapped _ _ _ _ _ Ho)) as Hnd. rewrite E in Hc, Hnd.
  assert (Hall : ∀ v, v ∈ (B2 ++ B1) ++ [f] → v ∈ (base, 0) :: fl) by (intros v Hv; rewrite E; set_solver).
  destruct (malloc_walk (B2 ++ B1) f n k f.1 s) as [(V1 & v & V2 & EV & Hv & Hrun)|(HF & _)].
  - rewrite <- (assoc_L (++)). apply (chain_around _ _ _ _ base); [|done]. destruct B1; simpl in E; injection E as <- _; done.
  - intros v Hv. apply (ho_size _ _ _ _ _ Ho). specialize (Hall v Hv). set_solver.
  - done.
  - rewrite fmap_app in Hnd |- *. rewrite fmap_cons, NoDup_app in Hnd. destruct Hnd as (_ & H1 & [H2 _]%NoDup_cons). rewrite elem_of_app. intros [?|?]; [done|]. eapply H1; [done|set_solver].
  - pose proof (f_equal length E) as L. rewrite length_app in L |- *. simpl in L. lia.
  - unfold wp. rewrite Hrun. rewrite <- (assoc_L (++)) in EV. exact (walk_takes s fl al B1 f B2 V1 v V2 k Ho E EV (conj Hk Hv)).
  - exfalso. rewrite Forall_forall in HF. assert (Hz' : z ∈ (B2 ++ B1) ++ [f]) by (assert (Hin : z ∈ (base, 0) :: fl) by set_solver; rewrite E in Hin; set_solver).
    specialize (HF z Hz'). simpl in HF. lia.
Qed.

(** The kernel gives no memory at or above KERNBASE. *)
Context (Havail : ∀ b n, avail b n = true → b + n < 2 ^ 31).

(** The new memory is a block of the program, which morecore() frees. *)
Lemma grow_ok s fl al nu : ok s fl al → 1 ≤ nu → h_brk s + 8 * nu < 2 ^ 31 →
  let s' := s <| h_brk := h_brk s + 8 * nu |> <| h_size ::= λ f, <[h_brk s := nu]> f |> in ok s' fl ((h_brk s, nu) :: al).
Proof.
  intros Ho Hnu Hlim s'. pose proof (ho_brk _ _ _ _ _ Ho) as [Hb H8]. pose proof (ho_in _ _ _ _ _ Ho) as Hin.
  split; simpl; [apply (ho_freep _ _ _ _ _ Ho)|apply (ho_chain _ _ _ _ _ Ho)|apply (ho_gapped _ _ _ _ _ Ho)|..].
  - intros z Hz. assert (Hc : z = (h_brk s, nu) ∨ z ∈ (base, 0) :: fl ++ al) by set_solver. destruct Hc as [->|Hc]; [by rewrite fn_lookup_insert|].
    rewrite fn_lookup_insert_ne; [by apply (ho_size _ _ _ _ _ Ho)|]. apply elem_of_cons in Hc as [->|Hc]; [simpl; lia|]. destruct (Hin z Hc) as (? & ? & ? & _). unfold bend in *. lia.
  - intros z Hz. assert (Hc : z = (h_brk s, nu) ∨ z ∈ fl ++ al) by set_solver. unfold inr, bend. destruct Hc as [->|Hc]; simpl; [split_and!; [lia|lia|lia|done]|].
    destruct (Hin z Hc) as (? & ? & ? & ?). unfold bend in *. split_and!; [lia|lia|lia|done].
  - intros z y Hz [->|Hy]%elem_of_cons; [|by apply (ho_disj _ _ _ _ _ Ho)]. left. destruct (Hin z ltac:(set_solver)) as (_ & _ & ? & _). simpl. lia.
  - constructor; [|apply (ho_al _ _ _ _ _ Ho)]. apply Forall_forall. intros y Hy. right. destruct (Hin y ltac:(set_solver)) as (_ & _ & ? & _). simpl. lia.
  - split; [lia|]. apply Z.divide_add_r; [done|apply Z.divide_factor_l].
  - pose proof (ho_total _ _ _ _ _ Ho) as T. rewrite total_app in *. simpl. lia.
Qed.

Lemma morecore_ok s fl al k : ok s fl al → 1 ≤ k < 2 ^ 28 → (length fl < fuel)%nat →
  wp (morecore avail fuel k) (λ r s', (r = 0 ∧ s' = s ∧ avail (h_brk s) (8 * Z.max k 4096) = false) ∨
    (r ≠ 0 ∧ r = h_freep s' ∧ ∃ fl', ok s' fl' al ∧ (length fl' ≤ S (length fl))%nat ∧ ∃ z, z ∈ fl' ∧ k ≤ z.2)) s.
Proof.
  intros Ho Hk Hf. unfold morecore. assert (Enu : (if k <? 4096 then 4096 else k) = Z.max k 4096) by (destruct (Z.ltb_spec k 4096); lia). rewrite Enu. set (nu := Z.max k 4096) in *.
  assert (Es : s32 (u32 (nu * 8)) = 8 * nu) by (unfold s32, u32; rewrite (Z.mod_small (nu * 8)), Z.mod_small; lia). pose proof (ho_brk _ _ _ _ _ Ho) as [Hb _].
  apply wp_bind. unfold sbrk. apply wp_bind, wp_gets. rewrite Es. destruct (avail (h_brk s) (8 * nu)) eqn:Ha.
  - apply Havail in Ha. apply wp_bind, wp_modify, wp_ret. change (u32 (-1)) with 4294967295. rewrite (proj2 (Z.eqb_neq _ _)) by lia.
    apply wp_bind, wp_modify, wp_bind. eapply wp_mono; [apply (free_ok base heap0 Hbase Hheap0 fuel _ fl [] (h_brk s, nu) al); [|done]|].
    { apply (grow_ok s fl al nu); [done|lia|lia]. }
    intros [] s' (fl' & Ho' & _ & Hl & z & Hz & Hzn). apply wp_gets. right. simpl in Hzn. split; [|split; [done|]].
    + pose proof (ho_freep _ _ _ _ _ Ho') as Hfp. rewrite fmap_cons in Hfp. apply elem_of_cons in Hfp as [->|(y & -> & Hy)%list_elem_of_fmap]; [simpl; lia|].
      destruct (ho_in _ _ _ _ _ Ho' y ltac:(set_solver)). lia.
    + exists fl'. split; [done|]. split; [done|]. exists z. split; [done|lia].
  - apply wp_ret. rewrite Z.eqb_refl. apply wp_ret. left. done.
Qed.
(** The heap before the first call, or after some. *)
Definition heap_inv (s : heap) (fl al : list block) : Prop :=
  ok s fl al ∨ (h_freep s = 0 ∧ fl = [] ∧ al = [] ∧ h_brk s = heap0 ∧ heap0 < 2 ^ 31 ∧ (8 | heap0)).

Lemma init_ok s : h_freep s = 0 → h_brk s = heap0 → heap0 < 2 ^ 31 → (8 | heap0) →
  ok (s <| h_ptr ::= λ f, <[base := base]> f |> <| h_freep := base |> <| h_size ::= λ f, <[base := 0]> f |>) [] [].
Proof.
  intros Hf Hb Hlt H8. split; simpl; rewrite ?Hb; try done; try lia.
  - set_solver.
  - by rewrite fn_lookup_insert.
  - intros x ->%list_elem_of_singleton. simpl. by rewrite fn_lookup_insert.
  - intros x Hx. by apply not_elem_of_nil in Hx.
  - intros x y Hx. by apply not_elem_of_nil in Hx.
  - constructor.
Qed.

(** What malloc() of [k] headers leaves: a block more, or a failure, which
    needs a kernel that refuses and no free block that is large enough. *)
Definition malloc_post (brk : Z) (fl al : list block) (k r : Z) (s' : heap) : Prop :=
  (r = 0 ∧ ok s' fl al ∧ Forall (λ z, z.2 < k) fl ∧ avail brk (8 * Z.max k 4096) = false) ∨
  ∃ a fl', r = a + 8 ∧ ok s' fl' ((a, k) :: al).

Lemma loop_ok s fl al k : ok s fl al → 1 ≤ k < 2 ^ 28 → (S (length fl) < fuel)%nat →
  wp (malloc_loop avail fuel (2 * fuel) k (h_freep s) (h_ptr s (h_freep s))) (malloc_post (h_brk s) fl al k) s.
Proof.
  intros Ho Hk Hf. destruct (decide (Exists (λ z, k ≤ z.2) fl)) as [Hex|Hnex].
  { apply Exists_exists in Hex. eapply wp_mono; [apply (loop_finds s fl al); [done|lia|lia|done]|]. intros r s' (a & fl' & -> & Ho' & _). right. eauto. }
  apply not_Exists_Forall in Hnex; [|apply _]. assert (Hsmall : Forall (λ z, z.2 < k) fl) by (eapply Forall_impl; [exact Hnex|]; simpl; lia).
  pose proof (ho_freep _ _ _ _ _ Ho) as Hfp. apply list_elem_of_fmap in Hfp as (f & Ef & Hfp). apply list_elem_of_split in Hfp as (B1 & B2 & E).
  pose proof (ho_chain _ _ _ _ _ Ho) as Hc. pose proof (gapped_nodup _ (ho_gapped _ _ _ _ _ Ho)) as Hnd. rewrite Ef. rewrite E in Hc, Hnd.
  assert (Hall : ∀ v, v ∈ (B2 ++ B1) ++ [f] → v ∈ (base, 0) :: fl) by (intros v Hv; rewrite E; set_solver).
  assert (HL : length ((base, 0) :: fl) = S (length (B2 ++ B1))) by (rewrite E, !length_app; simpl; lia). simpl in HL.
  destruct (malloc_walk (B2 ++ B1) f (2 * fuel) k f.1 s) as [(V1 & v & V2 & EV & Hv & _)|(_ & Hrun)].
  - rewrite <- (assoc_L (++)). apply (chain_around _ _ _ _ base); [|done]. destruct B1; simpl in E; injection E as <- _; done.
  - intros v Hv. apply (ho_size _ _ _ _ _ Ho). specialize (Hall v Hv). set_solver.
  - done.
  - rewrite fmap_app in Hnd |- *. rewrite fmap_cons, NoDup_app in Hnd. destruct Hnd as (_ & H1 & [H2 _]%NoDup_cons). rewrite elem_of_app. intros [?|?]; [done|]. eapply H1; [done|set_solver].
  - lia.
  - exfalso. rewrite Forall_forall in Hsmall. specialize (Hall v ltac:(rewrite EV; set_solver)). apply elem_of_cons in Hall as [->|Hin]; [simpl in Hv; lia|]. specialize (Hsmall v Hin). simpl in Hsmall. lia.
  - unfold wp. rewrite Hrun. clear Hrun. apply wp_bind. eapply wp_mono; [apply (morecore_ok s fl al k Ho Hk); lia|].
    intros r s' [(-> & -> & Hav)|(Hr & -> & fl' & Ho' & Hl & Hz)]; [apply wp_ret; by left|]. rewrite (proj2 (Z.eqb_neq _ _)) by done.
    apply wp_bind, wp_gets. eapply wp_mono; [apply (loop_finds s' fl' al); [done|lia|lia|done]|]. intros r s2 (a & fl2 & -> & Ho2 & _). right. eauto.
Qed.

Lemma nunits_spec nbytes : 0 ≤ nbytes ≤ 2 ^ 30 → 1 ≤ nunits_of nbytes < 2 ^ 28 ∧ nbytes ≤ 8 * (nunits_of nbytes - 1).
Proof.
  intros H. unfold nunits_of. rewrite (u32_small (nbytes + 8 - 1)) by lia. pose proof (Z.div_mod (nbytes + 8 - 1) 8). pose proof (Z.mod_pos_bound (nbytes + 8 - 1) 8).
  rewrite u32_small; lia.
Qed.

Lemma malloc_ok s fl al nbytes : heap_inv s fl al → 0 ≤ nbytes ≤ 2 ^ 30 → (S (length fl) < fuel)%nat →
  wp (malloc base avail fuel nbytes) (malloc_post (h_brk s) fl al (nunits_of nbytes)) s.
Proof.
  intros Hi Hn Hf. destruct (nunits_spec nbytes Hn) as [Hk _]. unfold malloc. apply wp_bind, wp_gets, wp_bind. destruct Hi as [Ho|(H0 & -> & -> & Hb & Hlt & H8)].
  - assert (Hne : h_freep s ≠ 0).
    { pose proof (ho_freep _ _ _ _ _ Ho) as Hfp. rewrite fmap_cons in Hfp. apply elem_of_cons in Hfp as [->|(y & -> & Hy)%list_elem_of_fmap]; [simpl; lia|].
      destruct (ho_in _ _ _ _ _ Ho y ltac:(set_solver)). lia. }
    rewrite (proj2 (Z.eqb_neq _ _)) by done. apply wp_ret, wp_bind, wp_gets, wp_bind, wp_gets. by apply loop_ok.
  - rewrite H0. simpl. apply wp_bind, wp_modify, wp_bind, wp_modify, wp_modify, wp_bind, wp_gets, wp_bind, wp_gets.
    refine (loop_ok _ [] [] _ _ _ _); [by apply init_ok|done|done].
Qed.
End malloc.

(** ** More iterations give the same result *)

Definition below {A} (m m' : M heap A) : Prop := ∀ s, m s = NoFuel ∨ m s = m' s.

Lemma below_refl {A} (m : M heap A) : below m m.
Proof. intros s. by right. Qed.

Lemma below_bind {A B} (m m' : M heap A) (f f' : A → M heap B) : below m m' → (∀ a, below (f a) (f' a)) → below (m ≫= f) (m' ≫= f').
Proof. intros Hm Hf s. unfold mbind, M_bind. destruct (Hm s) as [-> | ->]; [by left|]. destruct (m' s); try (by right). apply Hf. Qed.

Lemma below_search n n' bp p : (n ≤ n')%nat → below (free_search n bp p) (free_search n' bp p).
Proof.
  revert n' p. induction n as [|n IH]; intros n' p Hn; destruct n' as [|n']; try lia; cbn [free_search]; (apply below_bind; [apply below_refl|]); intros q;
    (destruct (_ && _); [apply below_refl|]); (destruct (_ && _); [apply below_refl|]).
  - apply below_refl.
  - intros s. by left.
  - apply IH. lia.
Qed.

Lemma below_free n n' ap : (n ≤ n')%nat → below (free n ap) (free n' ap).
Proof. intros Hn. unfold free. cbv zeta. apply below_bind; [apply below_refl|]. intros f. apply below_bind; [by apply below_search|]. intros p. apply below_refl. Qed.

Lemma below_morecore avail n n' k : (n ≤ n')%nat → below (morecore avail n k) (morecore avail n' k).
Proof.
  intros Hn. unfold morecore. cbv zeta. apply below_bind; [apply below_refl|]. intros p. destruct (_ =? _); [apply below_refl|]. apply below_bind; [apply below_refl|].
  intros []. apply below_bind; [by apply below_free|]. intros []. apply below_refl.
Qed.

Lemma below_loop avail f f' n n' k u p : (f ≤ f')%nat → (n ≤ n')%nat → below (malloc_loop avail f n k u p) (malloc_loop avail f' n' k u p).
Proof.
  intros Hf. revert n' u p. induction n as [|n IH]; intros n' u p Hn; (destruct n' as [|n']; [try lia|]); cbn [malloc_loop]; (apply below_bind; [apply below_refl|]); intros z;
    (destruct (_ <=? _); [apply below_refl|]); [intros s; by left|intros s; by left|]. apply below_bind; [apply below_refl|]. intros g. destruct (_ =? _).
  - apply below_bind; [by apply below_morecore|]. intros q. destruct (_ =? _); [apply below_refl|]. apply below_bind; [apply below_refl|]. intros q'. apply IH. lia.
  - apply below_bind; [apply below_refl|]. intros q'. apply IH. lia.
Qed.

Lemma below_malloc base avail f f' nbytes : (f ≤ f')%nat → below (malloc base avail f nbytes) (malloc base avail f' nbytes).
Proof.
  intros Hf. unfold malloc. do 4 (apply below_bind; [apply below_refl|]; intros ?). apply below_loop; lia.
Qed.

(** [runs m s a s']: the code returns; from some number of iterations on the
    bound on the loops does not matter. *)
Definition runs {A} (m : nat → M heap A) (s : heap) (a : A) (s' : heap) : Prop := ∃ N, ∀ n, (N ≤ n)%nat → m n s = Done a s'.

Lemma runs_intro {A} (m : nat → M heap A) s (Q : A → heap → Prop) N : (∀ n n', (n ≤ n')%nat → below (m n) (m n')) → wp (m N) Q s → ∃ a s', runs m s a s' ∧ Q a s'.
Proof.
  intros Hm Hw. apply wp_done in Hw as (a & s' & E & HQ). exists a, s'. split; [|done]. exists N. intros n Hn. destruct (Hm N n Hn s) as [E'|E']; congruence.
Qed.

Lemma runs_det {A} (m : nat → M heap A) s a s1 b s2 : runs m s a s1 → runs m s b s2 → a = b ∧ s1 = s2.
Proof. intros [N H1] [N' H2]. specialize (H1 (N + N')%nat ltac:(lia)). specialize (H2 (N + N')%nat ltac:(lia)). rewrite H1 in H2. by injection H2 as -> ->. Qed.

(** ** Programs *)

Section program.
Context (base heap0 : Z) (Hbase : 0 < base) (Hheap0 : base + 8 ≤ heap0 < 2 ^ 31) (H8 : (8 | heap0)) (avail : Z → Z → bool).

(** A program calls malloc(), and free() with what malloc() gave it; [al] are
    the blocks it holds. *)
Inductive ustep : heap * list block → heap * list block → Prop :=
| us_malloc s al nbytes r s' : 0 ≤ nbytes ≤ 2 ^ 30 → runs (λ n, malloc base avail n nbytes) s r s' →
    ustep (s, al) (s', if r =? 0 then al else (r - 8, nunits_of nbytes) :: al)
| us_free s al1 b al2 s' : runs (λ n, free n (b.1 + 8)) s tt s' → ustep (s, al1 ++ b :: al2) (s', al1 ++ al2).

Definition heap_start (s : heap) : Prop := h_freep s = 0 ∧ h_brk s = heap0.

Context (Havail : ∀ b n, avail b n = true → b + n < 2 ^ 31).

Lemma ustep_inv x y : (∃ fl, heap_inv base heap0 x.1 fl x.2) → ustep x y → ∃ fl, heap_inv base heap0 y.1 fl y.2.
Proof.
  intros [fl Hi] Hs. destruct Hs as [s al nbytes r s' Hn Hr|s al1 b al2 s' Hr]; simpl in *.
  - destruct (runs_intro (λ n, malloc base avail n nbytes) s (malloc_post base heap0 avail (h_brk s) fl al (nunits_of nbytes)) (S (S (length fl)))) as (r' & s2 & Hr' & HQ).
    { intros. by apply below_malloc. }
    { eapply malloc_ok; try done; lia. }
    destruct (runs_det _ _ _ _ _ _ Hr Hr') as [<- <-]. destruct HQ as [(-> & Ho & _)|(a & fl' & -> & Ho)]; [exists fl; by left|].
    exists fl'. left. destruct (ho_in _ _ _ _ _ Ho (a, nunits_of nbytes) ltac:(set_solver)) as (Ha & _). simpl in Ha. rewrite (proj2 (Z.eqb_neq _ _)) by lia.
    by replace (a + 8 - 8) with a by lia.
  - destruct Hi as [Ho|(_ & _ & E & _)]; [|by destruct al1]. destruct (ho_in _ _ _ _ _ Ho b ltac:(set_solver)) as (? & ? & ? & _). pose proof (ho_brk _ _ _ _ _ Ho) as [? _].
    assert (Eh : b.1 + 8 = hdr_add b.1 1) by (unfold hdr_add, bend in *; rewrite u32_small; lia).
    destruct (runs_intro (λ n, free n (b.1 + 8)) s (λ _ s', ∃ fl', heap_ok base heap0 s' fl' (al1 ++ al2)) (S (length fl))) as (r' & s2 & Hr' & fl' & Ho').
    { intros. by apply below_free. }
    { rewrite Eh. eapply wp_mono; [apply (free_ok base heap0 Hbase ltac:(lia) _ s fl al1 b al2 Ho); lia|]. intros ? s2 (fl' & Ho' & _). by exists fl'. }
    destruct (runs_det _ _ _ _ _ _ Hr Hr') as [_ <-]. exists fl'. by left.
Qed.

(** freep points into a circular list of the static header and the free blocks,
    in the order of their addresses and with a gap between neighbours. *)
Definition ring (s : heap) (fl : list block) : Prop :=
  h_freep s ∈ ((base, 0) :: fl).*1 ∧ chain (h_ptr s) ((base, 0) :: fl) base ∧ gapped ((base, 0) :: fl) ∧ ∀ x, x ∈ fl → h_size s x.1 = x.2.

(** The heap between the start of the program and its break consists of the
    blocks on the free list and those the program holds. *)
Record partitioned (s : heap) (fl al : list block) : Prop := {
  pa_ring : h_freep s = 0 ∧ fl = [] ∨ ring s fl;
  pa_in : ∀ x, x ∈ fl ++ al → inr heap0 (h_brk s) x;
  pa_disj : ∀ x y, x ∈ fl → y ∈ al → disj x y;
  pa_al : ForallOrdPairs disj al;
  pa_total : 8 * total (fl ++ al) = h_brk s - heap0;
}.

Lemma heap_inv_partitioned s fl al : heap_inv base heap0 s fl al → partitioned s fl al.
Proof.
  intros [Ho|(Hf & -> & -> & Hb & _)].
  - destruct Ho as [H1 H2 H3 H4 H5 H6 H7 _ H9]. split; try done. right. split_and!; [done..|]. intros x Hx. apply H4. set_solver.
  - split.
    + by left.
    + intros x Hx. by apply not_elem_of_nil in Hx.
    + intros x y Hx. by apply not_elem_of_nil in Hx.
    + constructor.
    + simpl. lia.
Qed.

(** C14: after any sequence of malloc() of up to 2^30 bytes and free() by the
    program, the heap is exactly its blocks and those of the free list, a
    circular list sorted by address; all of them lie in the heap, aligned, the
    blocks of the program pairwise disjoint and disjoint from the free ones.
    malloc() of up to 2^30 bytes returns: a pointer to that many bytes, in the
    heap and disjoint from every block the program holds, or 0, and that only
    when the kernel refuses the memory; and free() of any of its blocks
    returns. *)
Theorem malloc_safe (s0 s : heap) (al : list block) (nbytes : Z) : heap_start s0 → rtc ustep (s0, []) (s, al) → 0 ≤ nbytes ≤ 2 ^ 30 →
  (∃ fl, partitioned s fl al) ∧
  (∃ r s', runs (λ n, malloc base avail n nbytes) s r s' ∧
    (r = 0 ∧ avail (h_brk s) (8 * Z.max (nunits_of nbytes) 4096) = false ∨
     (8 | r) ∧ heap0 ≤ r ∧ r + nbytes ≤ h_brk s' ∧ ∀ x, x ∈ al → bend x ≤ r ∨ r + nbytes ≤ x.1)) ∧
  (∀ b, b ∈ al → ∃ s', runs (λ n, free n (b.1 + 8)) s tt s').
Proof.
  intros [Hs1 Hs2] Hr Hn. assert (Hinv : ∃ fl, heap_inv base heap0 s fl al).
  { apply (rtc_invariant ustep (λ x, ∃ fl, heap_inv base heap0 x.1 fl x.2) (s0, []) (s, al)); [|apply ustep_inv|done]. exists []. right. naive_solver lia. }
  destruct Hinv as [fl Hi]. split; [exists fl; by apply heap_inv_partitioned|]. split.
  - destruct (runs_intro (λ n, malloc base avail n nbytes) s (malloc_post base heap0 avail (h_brk s) fl al (nunits_of nbytes)) (S (S (length fl)))) as (r & s' & Hrun & HQ).
    { intros. by apply below_malloc. }
    { eapply malloc_ok; try done; lia. }
    exists r, s'. split; [done|]. destruct HQ as [(-> & _ & _ & Ha)|(a & fl' & -> & Ho)]; [by left|right]. destruct (nunits_spec nbytes Hn) as [_ Hsz].
    destruct (ho_in _ _ _ _ _ Ho (a, nunits_of nbytes) ltac:(set_solver)) as (Ha & _ & Hb & H8a). unfold bend in Hb. simpl in *. split_and!; [|lia|lia|].
    + apply Z.divide_add_r; [done|]. by exists 1.
    + intros x Hx. pose proof (ho_al _ _ _ _ _ Ho) as Hd. inversion Hd as [|?? Hf _]; subst. rewrite Forall_forall in Hf. specialize (Hf x Hx).
      unfold disj, bend in *. simpl in Hf. lia.
  - intros b Hb. destruct Hi as [Ho|(_ & _ & -> & _)]; [|by apply not_elem_of_nil in Hb]. apply list_elem_of_split in Hb as (al1 & al2 & ->).
    destruct (ho_in _ _ _ _ _ Ho b ltac:(set_solver)) as (? & ? & ? & _). pose proof (ho_brk _ _ _ _ _ Ho) as [? _].
    assert (Eh : b.1 + 8 = hdr_add b.1 1) by (unfold hdr_add, bend in *; rewrite u32_small; lia).
    destruct (runs_intro (λ n, free n (b.1 + 8)) s (λ _ _, True) (S (length fl))) as ([] & s2 & Hr' & _); [intros; by apply below_free| |by exists s2].
    rewrite Eh. eapply wp_mono; [apply (free_ok base heap0 Hbase ltac:(lia) _ s fl al1 b al2 Ho); lia|]. done.
Qed.
End program.

(** ** Instances *)

Definition avail0 (b n : Z) : bool := b + n <? 2 ^ 20.
Definition heap_s0 : heap := mkHeap (λ _, 0) (λ _, 0) 0 8192.

Lemma avail0_bound b n : avail0 b n = true → b + n < 2 ^ 31.
Proof. unfold avail0. intros H%Z.ltb_lt. lia. Qed.

(** A bound of 5 is enough for these heaps. *)
Lemma malloc_runs nbytes s r s' : malloc 4096 avail0 5 nbytes s = Done r s' → runs (λ n, malloc 4096 avail0 n nbytes) s r s'.
Proof. intros E. exists 5%nat. intros n Hn. destruct (below_malloc 4096 avail0 5 n nbytes Hn s) as [E'|E']; congruence. Qed.

(** Malloc() of a size near 2^32 wraps around in the computation of the
    number of headers: malloc(2^32 - 1) succeeds with a block of one header,
    which has no room for any data. *)
Theorem malloc_wraps : nunits_of (2 ^ 32 - 1) = 1 ∧
  ∃ r s', runs (λ n, malloc 4096 avail0 n (2 ^ 32 - 1)) heap_s0 r s' ∧ r ≠ 0 ∧ h_size s' (r - 8) = 1 ∧ h_brk s' = r.
Proof.
  split; [done|]. do 2 eexists. split; [apply malloc_runs; vm_compute; reflexivity|]. vm_compute. split; [done|]. split; reflexivity.
Qed.

Lemma malloc_safe_witness : ∃ s, rtc (ustep 4096 avail0) (heap_s0, []) (s, [(40936, 3)]) ∧
  ∃ r s', runs (λ n, malloc 4096 avail0 n 100) s r s' ∧
    (r = 0 ∧ avail0 (h_brk s) (8 * Z.max (nunits_of 100) 4096) = false ∨
     (8 | r) ∧ 8192 ≤ r ∧ r + 100 ≤ h_brk s' ∧ ∀ x, x ∈ [(40936, 3)] → bend x ≤ r ∨ r + 100 ≤ x.1).
Proof.
  assert (Hr : ∃ s, rtc (ustep 4096 avail0) (heap_s0, []) (s, [(40936, 3)])).
  { eexists. apply rtc_once. refine (us_malloc 4096 avail0 heap_s0 [] 10 40944 _ _ _); [lia|]. apply malloc_runs. vm_compute. reflexivity. }
  destruct Hr as [s Hr]. exists s. split; [exact Hr|].
  destruct (malloc_safe 4096 8192 ltac:(lia) ltac:(lia) ltac:(by exists 1024) avail0 avail0_bound heap_s0 s [(40936, 3)] 100) as (_ & H & _);
    [done|exact Hr|lia|]. exact H.
Defined.
